(* ===== verification/_CoqProject ===== *)
-Q . S2P
Prelude.v
Offsets.v
Producer.v
Text.v
Json.v
Types.v
JsonInstance.v
JsonMode.v
StreamStore.v
StoreLemmas.v
StoreSteps.v
StoreGraph.v
ForkRead.v
StoreTheorems.v
ReaderRuns.v
LongPoll.v
FileFrames.v
FileStore.v
FileRuns.v
FileAbstract.v
FileInvariant.v
FileCreate.v
FileTasks.v
FileRecovery.v
FileTheorems.v
FileReads.v
FileScenarios.v
Cursor.v
Glob.v
PathEncoding.v
Sse.v
Http.v
SqliteStore.v
StreamObject.v
ObjectCreate.v
ObjectRead.v
ObjectWrite.v
CloudflareWorld.v
WorkerHandler.v
CloudflareErrors.v
CloudflareInvariant.v
CloudflareMoves.v
CloudflareHandlers.v
CloudflareForks.v
CloudflareEvents.v
CloudflareTheorems.v
CloudflareReads.v
CloudflareScenarios.v
Server.v
ServerReads.v
ServerWrites.v
ServerCreate.v
Scenarios.v
ClientProducer.v
ProducerRuns.v
ProducerOnce.v
ProducerServer.v
CloudflareProducer.v
ProducerScenarios.v
ResponseState.v
ReadableStream.v
StreamResponse.v
ReadSession.v
ReadProgress.v
ReadDelivery.v
ReadServer.v
ReadScenarios.v
JsMap.v
Tokens.v
Subscription.v
SubscriptionStore.v
SubscriptionLemmas.v
Acks.v
Wakes.v
WakeEvents.v
WakeHistory.v
SubscriptionScenarios.v
SubscriptionRoutes.v
RouteTheorems.v
StreamDb.v
