(* ===== verification/Prelude.v ===== *)
(** * A verification library for Durable Streams

    The program is a protocol for append-only streams over HTTP: a reference
    server, a Cloudflare server, and clients, in TypeScript.  This library
    models its core and proves what makes it correct.  File names below are
    under [src/packages/].

    ** The parts, and where they are modelled

    The STORE ([server/src/store.ts], class [StreamStore]) keeps a map of streams.  A
    stream is a list of messages with their offsets; a fork shares the prefix
    of its source up to a fork offset, so a source that is deleted while it has
    forks is only marked (soft-deleted) and collected with its last fork.
    - Offsets: the text form of offsets, and the sums made of them.
    - Types: the records of [types.ts] and the errors the store throws.
    - Producer: validation of idempotent producers ([validateProducer],
      [commitProducerState]), and the Cloudflare server's version of it
      ([server-cloudflare/src/producer.ts]).
    - Text, Json, JsonInstance, JsonMode: UTF-8, base64, JSON values, and the JSON mode of both
      servers ([processJsonAppend], [formatJsonMessages]).  [JSON.parse] is the
      class [JsonLib] with the laws [JsonLaws]; JsonInstance is an instance.
    - StreamStore: one definition per method of the class, over an explicit
      state: the map, the pending long-polls, their timers, and the results of
      the promises already settled.
    - StoreLemmas, StoreSteps, StoreGraph, ForkRead: the
      recursion of the store; the abstract store (a step relation on maps of
      streams) that every operation refines; the invariants of the steps (the
      forest of forks with its reference counts, and the contents of streams);
      the log of a stream and what a read through its forks returns.
    - StoreTheorems: the theorems about the store.
    - ReaderRuns: the contract of a reader, which the three ways of reading
      implement, and a reader that polls while the store runs.
    - LongPoll: no promise of [waitForMessages] is forgotten, and an append
      wakes those it concerns.

    The FILE STORE ([server/src/file-store.ts], class [FileBackedStreamStore])
    keeps the same streams on disk: a record per stream (LMDB) and a file of
    frames.
    - FileFrames: frames, and the two loops that parse a file of them.
    - FileStore: one definition per method, over a [Disk] (records, and files
      with the number of their synced bytes), cut where the method awaits;
      [recover], and [crash], which says what a crash may leave of a disk.
    - FileRuns: the store at work: calls that await are tasks, with their locks,
      and an event is what happens next, a crash and restart included.
    - FileAbstract: the streams a disk stands for; FileInvariant, FileCreate,
      FileTasks: the operations, stage by stage, are steps
      of the abstract store of StoreSteps.  FileRecovery: what a crash leaves,
      and what the recovery makes of it.
    - FileTheorems: every step refines the abstract store.  FileReads: a read by
      byte positions is the window of the log that ReaderRuns
      promises; what is answered is kept.  FileScenarios: runs.

    The SERVER ([server/src/server.ts], class [DurableStreamTestServer]).
    - Http: requests, responses, tests on headers.
    - Server: one definition per handler, composed by [handleRequest].
    - ServerReads: GET and SSE implement the reader of ReaderRuns.
    - ServerWrites, ServerCreate: what POST and PUT store, and their repetition.
    - Scenarios: a scripted session to which the theorems are applied.
    - Cursor ([server/src/cursor.ts], [server-cloudflare/src/cursor.ts]), Glob
      ([server/src/glob.ts]), PathEncoding ([server/src/path-encoding.ts]).

    The CLOUDFLARE server ([server-cloudflare/src/]) keeps each stream in a
    Durable Object of its own, with a database.  A fork and its source are two
    objects that can only call each other, so a reference is an edge in the
    source's tables, announced before it is taken (an intent) and given back by
    a release that is queued until it is delivered.
    - WorkerHandler ([handler.ts]): what the router answers itself, and what it
      makes of an object's response.
    - SqliteStore ([store.ts], class [SqliteStore]): the tables of one object.
      StreamObject, ObjectCreate, ObjectRead, ObjectWrite ([stream-object.ts],
      class [StreamObject]): one definition per method, cut where it awaits
      another object, its lock or messages.  CloudflareWorld: the network of
      objects; an event is what happens next anywhere - a request, an alarm, a
      call that is run, answered or lost, an object thrown out of memory.
    - CloudflareErrors: a refused request leaves no trace.
    - CloudflareInvariant: the streams of all objects as one abstract store, and
      the invariant of the fork protocol.  CloudflareMoves: what one statement may
      do to them.  CloudflareHandlers, CloudflareForks: what a waiting task relies
      on, and that every turn of every method keeps it and the invariant.
      CloudflareEvents: so does every event.  CloudflareTheorems: the theorems.
    - CloudflareReads: a GET through a chain of forks ends with a window of the log.
    - CloudflareProducer: the object is an endpoint of ProducerRuns.
    - CloudflareScenarios: runs, those included that end where the server does not
      mean to be.

    Server and client share Sse: [encodeSSEData] of the server, and the client's parser
    [client/src/sse.ts] over a byte stream cut into chunks anywhere.

    The CLIENT ([client/src/]).  Its idempotent producer
    ([idempotent-producer.ts], class [IdempotentProducer]):
    - ClientProducer: one definition per method, cut where the method awaits.
    - ProducerRuns: the producer, a network and an endpoint, as a step relation;
      what the client relies on is the class [ProducerEndpoint].
    - ProducerOnce: the invariant of the runs.  ProducerServer: the server is such
      an endpoint, and what a producer sends to it is stored exactly once.
    - ProducerScenarios: runs.

    Its read session ([response.ts], [stream-response-state.ts], [stream-api.ts]):
    - ResponseState: the position of a session (offset, cursor, up to date,
      closed) as each kind of reply moves it.  ReadableStream: the controller
      of the platform's stream, as WHATWG defines it.
    - StreamResponse: the object behind [stream()], its [pull] cut at every
      await, over the events that the network, the consumer, visibility and
      timers bring, the requests it makes and how it starts.
    - ReadSession: the invariant of a session.  ReadProgress: a read that waits
      is always answered by something under way.
    - ReadDelivery: a session against any endpoint of class [ReadEndpoint] hands
      over the log of the stream, once and in order; ReadServer: the server is
      such an endpoint.  ReadScenarios: runs.

    SUBSCRIPTIONS ([server/src/subscription-manager.ts], [subscription-routes.ts],
    [crypto.ts]).  A subscription watches streams and is woken, by a webhook or through
    a wake stream, when one has data past the acknowledged offset.
    - JsMap: a JavaScript [Map] in its order.  Text: [encodeURIComponent] and its
      inverse.  Tokens: callback tokens and webhook signatures ([crypto.ts]).
    - Subscription: one definition per method of [SubscriptionManager].  A
      subscription is an object of a heap, because timers and deliveries in
      flight go on referring to it after it was deleted.  The store is seen
      through the class [SubscriptionStreamStore] and its laws;
      SubscriptionStore shows that [StreamStore] keeps them.
    - SubscriptionLemmas: what a method about one object leaves alone ([acts]).
      Acks: acknowledgements are all or nothing.  Wakes: when a subscription is
      [good], and that every method keeps it so.  WakeEvents, WakeHistory: the
      events of a manager, and the theorems about all its histories.
    - SubscriptionRoutes, RouteTheorems: the HTTP interface, and what it accepts.
    - SubscriptionScenarios: scripted lives, and runs that end where the manager
      does not mean to be.

    STATE IN A STREAM ([state/src/]).  StreamDb: change events, [MaterializedState],
    the schema's helpers, and [createStreamDB] over collections of @tanstack/db, which
    are a class with laws; both show the same rows.

    ** Conventions

    A method that changes state or throws is a function in the state and error
    monad [M] of this file; the clock, random numbers and what a timer or the
    network decides are arguments.  A read-modify-write that the source does
    without an [await] is one step; where the source waits, the definition ends
    and another one goes on from there.  A JavaScript number used as an integer
    is a [Z]; where it can leave the safe integers, [dbl] rounds as IEEE does.
    A string is a list of bytes (UTF-8), and [<] on strings compares them
    bytewise, which agrees with JavaScript on offsets and on ASCII.

    ** Fuel

    [deleteWithCascade_fuel] and [readForkedMessages_fuel] get one more unit
    than there are streams.  For the first, StoreLemmas proves that any such
    fuel gives the recursive equation; for the second, ForkRead proves that it
    returns on every forest of forks (FileReads does so for the file store), and
    running out is [StackOverflow], which
    [expired_source_cycle] shows to be what a cycle of forks does.  The other
    recursions are structural, or run over the input they consume.
    [decodeURIComponent] gets the length of its input; Text proves that more changes
    nothing.  The file store's [cascade_from] gets one more unit than there are
    records and long-polls, each of its calls removing one of them.

    ** What is not modelled, and why

    Third-party and platform code is a parameter: [JSON.parse], [Date], zlib,
    SHA-256, HMAC, the network, LMDB.  Starting and stopping the Node server, the
    delays of injected faults, and logging are I/O.  A number literal of more than
    308 digits (JavaScript's Infinity) is outside the model of [Number].  The
    handlers of the server are modelled as running without interleaving
    between two [await]s of values that are already there.  The loop of
    [onStreamAppend] is one step, although it awaits each subscription's wake in
    turn; and a request of a subscription with a field of a type that the code
    does not declare ends in [Untyped].  Of the
    read session, the methods that consume the response stream ([body], [json],
    [text], the streams and the subscribers) are left out, and the theorems on
    delivery are about the sessions without SSE.  Of the file
    store, the answers of long-polls, the pool of file handles and the coalescing of
    syncs are left out (how many long-polls wait on a path matters to a deletion, and
    is given by the class [LongPolls]; the theorems are about a store without any), a record that is put takes effect and is durable in one step,
    and a synced file is taken to be in its directory.
    Of the Cloudflare server, what the platform promises is taken as it is: a
    turn between two waits is atomic and durable, an object exists once, the calls
    of an object that is thrown out of memory are not run any more, and a new
    UUID is new.  The pump of an SSE response begins in a turn of its own, after
    the response; the migration of old schemas is left out. *)

(** * Prelude: JavaScript strings and numbers, shared lemmas and automation *)

From stdpp Require Export prelude gmap strings list numbers.
From Stdlib Require Export ZArith.
From Stdlib Require Import Lia.
From Stdlib Require Export Ascii.

Open Scope Z_scope.

Declare Scope js_scope.
Delimit Scope js_scope with js.

(** ** Numbers

    A JavaScript number that the program uses as an integer is a [Z].  The
    literals it reads ([Number(s)], [parseInt(s, 10)]) and the sums it forms
    are IEEE doubles, so they go through [dbl], rounding to 53 significant
    bits, ties to even. *)

Definition MAX_SAFE_INTEGER : Z := 2 ^ 53 - 1.

Definition dbl (z : Z) : Z :=
  let a := Z.abs z in
  if a <=? 2 ^ 53 then z
  else
    let e := Z.log2 a - 52 in
    let q := a / 2 ^ e in
    let r := a mod 2 ^ e in
    let half := 2 ^ (e - 1) in
    let q' :=
      if r <? half then q
      else if half <? r then q + 1
      else if Z.even q then q else q + 1 in
    Z.sgn z * (q' * 2 ^ e).

Lemma dbl_small z : Z.abs z <= 2 ^ 53 -> dbl z = z.
Proof. intros H. unfold dbl. by rewrite (proj2 (Z.leb_le _ _) H). Qed.

(** ** Characters *)

Definition code (c : ascii) : Z := Z.of_N (N_of_ascii c).

Definition char_of_code (z : Z) : ascii := ascii_of_N (Z.to_N z).

Lemma code_bound c : 0 <= code c < 256.
Proof. unfold code. pose proof (N_ascii_bounded c). lia. Qed.

Lemma char_of_code_code c : char_of_code (code c) = c.
Proof. unfold char_of_code, code. by rewrite N2Z.id, ascii_N_embedding. Qed.

Lemma code_char_of_code z : 0 <= z < 256 -> code (char_of_code z) = z.
Proof. intros H. unfold char_of_code, code. rewrite N_ascii_embedding; lia. Qed.

#[export] Instance code_inj : Inj (=) (=) code.
Proof. intros a b H. rewrite <-(char_of_code_code a), H. apply char_of_code_code. Qed.

Definition LF : ascii := "010"%char.
Definition CR : ascii := "013"%char.
Definition SP : ascii := " "%char.
Definition COMMA : ascii := ","%char.
Definition DQUOTE : ascii := "034"%char.

(** [/\d/] *)
Definition is_digit (c : ascii) : bool := (48 <=? code c) && (code c <=? 57).

Definition digit (d : Z) : ascii := char_of_code (48 + d).

Lemma digit_is_digit d : 0 <= d < 10 -> is_digit (digit d) = true.
Proof.
  intros H. unfold is_digit, digit. rewrite code_char_of_code by lia. lia.
Qed.

(** [String.prototype.trim] on Latin-1 text. *)
Definition is_space (c : ascii) : bool :=
  ((9 <=? code c) && (code c <=? 13)) || (code c =? 32) || (code c =? 160).

Definition to_lower_char (c : ascii) : ascii :=
  if ((65 <=? code c) && (code c <=? 90))
     || ((192 <=? code c) && (code c <=? 222) && negb (code c =? 215))
  then char_of_code (code c + 32) else c.

(** ** Strings as lists of characters *)

Fixpoint chars (s : string) : list ascii :=
  match s with
  | EmptyString => []
  | String c s => c :: chars s
  end.

Fixpoint of_chars (l : list ascii) : string :=
  match l with
  | [] => EmptyString
  | c :: l => String c (of_chars l)
  end.

Lemma of_chars_chars s : of_chars (chars s) = s.
Proof. induction s; simpl; congruence. Qed.

Lemma chars_of_chars l : chars (of_chars l) = l.
Proof. induction l; simpl; congruence. Qed.

Lemma string_app_cons c s t : String c s +:+ t = String c (s +:+ t).
Proof. done. Qed.

Lemma string_app_nil_l s : "" +:+ s = s.
Proof. done. Qed.

Lemma chars_app s t : chars (s +:+ t) = chars s ++ chars t.
Proof.
  induction s as [|c s IH]; [done|].
  rewrite string_app_cons. cbn. by rewrite IH.
Qed.

Lemma of_chars_app l k : of_chars (l ++ k) = of_chars l +:+ of_chars k.
Proof. induction l as [|c l IH]; [done|]. cbn. by rewrite string_app_cons, IH. Qed.

#[export] Instance chars_inj : Inj (=) (=) chars.
Proof. intros s t H. rewrite <-(of_chars_chars s), H. apply of_chars_chars. Qed.

Lemma string_app_nil_r s : s +:+ "" = s.
Proof. apply (inj chars). rewrite chars_app. cbn. apply app_nil_r. Qed.

Lemma string_app_assoc s t u : (s +:+ t) +:+ u = s +:+ t +:+ u.
Proof. apply (inj chars). by rewrite !chars_app, (assoc_L (++)). Qed.

Definition slen (s : string) : Z := Z.of_nat (String.length s).

Lemma length_chars s : length (chars s) = String.length s.
Proof. induction s; simpl; congruence. Qed.

Lemma string_length_app s t :
  String.length (s +:+ t) = (String.length s + String.length t)%nat.
Proof. by rewrite <-!length_chars, chars_app, length_app. Qed.

(** All characters of a string satisfy a test. *)
Definition all_chars (p : ascii -> bool) (s : string) : bool :=
  forallb p (chars s).

Lemma all_chars_app p s t :
  all_chars p (s +:+ t) = all_chars p s && all_chars p t.
Proof. unfold all_chars. by rewrite chars_app, forallb_app. Qed.

Lemma all_chars_cons p c s :
  all_chars p (String c s) = p c && all_chars p s.
Proof. done. Qed.

(** ** The string methods the program uses *)

(** [s.slice(n)] and [s.slice(0, n)] for [0 <= n]. *)
Fixpoint str_drop (n : nat) (s : string) : string :=
  match n, s with
  | O, _ => s
  | S n, EmptyString => EmptyString
  | S n, String _ s => str_drop n s
  end.

Fixpoint str_take (n : nat) (s : string) : string :=
  match n, s with
  | O, _ => EmptyString
  | S _, EmptyString => EmptyString
  | S n, String c s => String c (str_take n s)
  end.

(** [s.slice(0, -n)] *)
Definition str_drop_end (n : nat) (s : string) : string :=
  str_take (String.length s - n) s.

Fixpoint starts_with (p s : string) : bool :=
  match p, s with
  | EmptyString, _ => true
  | String a p, String b s => Ascii.eqb a b && starts_with p s
  | String _ _, EmptyString => false
  end.

Definition ends_with (p s : string) : bool :=
  (String.length p <=? String.length s)%nat &&
  String.eqb (str_drop (String.length s - String.length p) s) p.

Fixpoint includes (p s : string) : bool :=
  starts_with p s ||
  match s with
  | EmptyString => false
  | String _ s => includes p s
  end.

Fixpoint trim_start (l : list ascii) : list ascii :=
  match l with
  | [] => []
  | c :: l' => if is_space c then trim_start l' else l
  end.

Definition js_trim (s : string) : string :=
  of_chars (reverse (trim_start (reverse (trim_start (chars s))))).

Definition js_trim_end (s : string) : string :=
  of_chars (reverse (trim_start (reverse (chars s)))).

Definition js_lower (s : string) : string :=
  of_chars (to_lower_char <$> chars s).

(** [s.split(c)] for a one-character separator. *)
Fixpoint split_on (c : ascii) (s : string) : list string :=
  match s with
  | EmptyString => [EmptyString]
  | String a s =>
      if Ascii.eqb a c then EmptyString :: split_on c s
      else match split_on c s with
           | [] => [String a EmptyString]
           | h :: t => String a h :: t
           end
  end.

(** [l.join(sep)] *)
Fixpoint join (sep : string) (l : list string) : string :=
  match l with
  | [] => EmptyString
  | [s] => s
  | s :: l => s +:+ sep +:+ join sep l
  end.

Fixpoint repeat_char (c : ascii) (n : nat) : string :=
  match n with
  | O => EmptyString
  | S n => String c (repeat_char c n)
  end.

(** [s.padStart(w, c)] *)
Definition pad_start (w : nat) (c : ascii) (s : string) : string :=
  repeat_char c (w - String.length s) +:+ s.

(** Truthiness of a string or [undefined]: [if (s)]. *)
Definition truthy (o : option string) : bool :=
  match o with
  | Some s => negb (String.eqb s EmptyString)
  | None => false
  end.

(** [o ?? d] *)
Definition or_else {A} (o : option A) (d : A) : A :=
  match o with Some a => a | None => d end.

(** [a || b] on strings: the first one that is not empty. *)
Definition str_or (a b : string) : string :=
  if String.eqb a EmptyString then b else a.

(** [/^\d+$/] *)
Definition all_digits (s : string) : bool :=
  negb (String.eqb s EmptyString) && all_chars is_digit s.

(** ** Decimal notation *)

Fixpoint digits_acc (acc : Z) (s : string) : Z :=
  match s with
  | EmptyString => acc
  | String c s => digits_acc (10 * acc + (code c - 48)) s
  end.

Definition digits_value (s : string) : Z := digits_acc 0 s.

(** [Number(s)] on text without sign, exponent, point or prefix; [None] is
    [NaN], and the empty string is [0]. *)
Definition js_Number (s : string) : option Z :=
  if all_chars is_digit s then Some (dbl (digits_value s)) else None.

Fixpoint dec_digits (fuel : nat) (n : Z) : string :=
  match fuel with
  | O => EmptyString
  | S fuel =>
      if n <? 10 then String (digit n) EmptyString
      else dec_digits fuel (n / 10) +:+ String (digit (n mod 10)) EmptyString
  end.

(** [String(n)] of an integer below [1e21]. *)
Definition js_String (n : Z) : string :=
  if n <? 0 then String "-"%char (dec_digits (S (Z.to_nat (Z.log2 (- n)))) (- n))
  else dec_digits (S (Z.to_nat (Z.log2 n))) n.

(** [String(x)] where [x] may be [NaN]. *)
Definition js_String_nan (n : option Z) : string :=
  match n with Some n => js_String n | None => "NaN" end.

(** The [w]-digit decimal notation of [n], with leading zeros. *)
Fixpoint fixed_digits (w : nat) (n : Z) : string :=
  match w with
  | O => EmptyString
  | S w => fixed_digits w (n / 10) +:+ String (digit (n mod 10)) EmptyString
  end.

(** ** Lemmas on decimal notation *)

Lemma digits_acc_app a s t :
  digits_acc a (s +:+ t) = digits_acc (digits_acc a s) t.
Proof.
  revert a. induction s as [|c s IH]; intros a; [done|].
  rewrite string_app_cons. cbn. apply IH.
Qed.

Lemma digits_value_snoc s c :
  digits_value (s +:+ String c EmptyString) = 10 * digits_value s + (code c - 48).
Proof. unfold digits_value. by rewrite digits_acc_app. Qed.

Lemma code_digit d : 0 <= d < 10 -> code (digit d) = 48 + d.
Proof. intros. unfold digit. apply code_char_of_code. lia. Qed.

Lemma is_digit_code c : is_digit c = true -> 48 <= code c <= 57.
Proof. unfold is_digit. lia. Qed.

Lemma digit_code c : is_digit c = true -> digit (code c - 48) = c.
Proof.
  intros H%is_digit_code. unfold digit.
  replace (48 + (code c - 48)) with (code c) by lia. apply char_of_code_code.
Qed.

Lemma fixed_digits_length w n : String.length (fixed_digits w n) = w.
Proof.
  revert n. induction w as [|w IH]; intros n; [done|].
  cbn [fixed_digits]. rewrite string_length_app, IH. cbn. lia.
Qed.

Lemma fixed_digits_all w n : all_chars is_digit (fixed_digits w n) = true.
Proof.
  revert n. induction w as [|w IH]; intros n; [done|].
  cbn [fixed_digits]. rewrite all_chars_app, IH, all_chars_cons.
  rewrite digit_is_digit; [done|]. apply Z.mod_pos_bound. lia.
Qed.

Lemma fixed_digits_value w n :
  0 <= n < 10 ^ Z.of_nat w -> digits_value (fixed_digits w n) = n.
Proof.
  revert n. induction w as [|w IH]; intros n H.
  - cbn in *. lia.
  - cbn [fixed_digits]. rewrite digits_value_snoc, code_digit
      by (apply Z.mod_pos_bound; lia).
    replace (Z.of_nat (S w)) with (Z.of_nat w + 1) in H by lia.
    rewrite Z.pow_add_r, Z.pow_1_r in H by lia.
    pose proof (Z.div_mod n 10 ltac:(lia)). rewrite IH; [lia|].
    split; [apply Z.div_pos; lia|]. apply Z.div_lt_upper_bound; lia.
Qed.

(** Induction on the last character. *)
Lemma string_snoc_ind (P : string -> Prop) :
  P EmptyString ->
  (forall s c, P s -> P (s +:+ String c EmptyString)) ->
  forall s, P s.
Proof.
  intros H0 HS s. rewrite <-(of_chars_chars s).
  induction (chars s) as [|c l IH] using rev_ind; [done|].
  rewrite of_chars_app. by apply HS.
Qed.

Lemma digits_acc_nonneg a s :
  0 <= a -> all_chars is_digit s = true -> 0 <= digits_acc a s.
Proof.
  revert a. induction s as [|c s IH]; intros a Ha; cbn; [done|].
  rewrite andb_true_iff. intros [Hc Hs]. apply is_digit_code in Hc.
  apply IH; [lia|done].
Qed.

Lemma digits_value_bound s :
  all_chars is_digit s = true ->
  0 <= digits_value s < 10 ^ Z.of_nat (String.length s).
Proof.
  induction s as [|s c IH] using string_snoc_ind; [done|].
  rewrite all_chars_app, digits_value_snoc, string_length_app, andb_true_iff.
  rewrite all_chars_cons, andb_true_r. intros [Hs Hc%is_digit_code].
  specialize (IH Hs). replace (Z.of_nat _) with (Z.of_nat (String.length s) + 1)
    by (cbn; lia).
  rewrite Z.pow_add_r by lia. lia.
Qed.

(** Digits are the decimal notation of their value. *)
Lemma fixed_digits_digits_value s :
  all_chars is_digit s = true ->
  fixed_digits (String.length s) (digits_value s) = s.
Proof.
  induction s as [|s c IH] using string_snoc_ind; [done|].
  rewrite all_chars_app, digits_value_snoc, string_length_app, andb_true_iff.
  rewrite all_chars_cons, andb_true_r. intros [Hs Hc]. specialize (IH Hs).
  pose proof (is_digit_code _ Hc).
  replace (String.length s + String.length (String c EmptyString))%nat
    with (S (String.length s)) by (cbn; lia).
  cbn [fixed_digits].
  replace ((10 * digits_value s + (code c - 48)) / 10) with (digits_value s)
    by (apply Z.div_unique with (code c - 48); lia).
  replace ((10 * digits_value s + (code c - 48)) mod 10) with (code c - 48)
    by (apply Z.mod_unique with (digits_value s); lia).
  by rewrite IH, digit_code.
Qed.

Lemma dec_digits_spec fuel n :
  0 <= n -> n < 2 ^ Z.of_nat fuel ->
  all_chars is_digit (dec_digits fuel n) = true /\
  (fuel <> 0%nat -> digits_value (dec_digits fuel n) = n /\
     dec_digits fuel n <> EmptyString /\
     forall w, (0 < w)%nat -> n < 10 ^ Z.of_nat w ->
       (String.length (dec_digits fuel n) <= w)%nat).
Proof.
  revert n. induction fuel as [|fuel IH]; intros n H0 Hn; [done|].
  cbn [dec_digits]. destruct (Z.ltb_spec n 10).
  { split; [cbn; rewrite digit_is_digit; done || lia|]. intros _.
    unfold digits_value; cbn. rewrite code_digit by lia. split_and!; [lia|done|lia]. }
  assert (0 <= n / 10) by (apply Z.div_pos; lia).
  assert (n / 10 < 2 ^ Z.of_nat fuel).
  { replace (Z.of_nat (S fuel)) with (Z.of_nat fuel + 1) in Hn by lia.
    rewrite Z.pow_add_r in Hn by lia. apply Z.div_lt_upper_bound; lia. }
  assert (fuel <> 0%nat).
  { intros ->. cbn in *. lia. }
  destruct (IH (n / 10)) as (Hd & Hv); [done..|]. destruct Hv as (Hv & _ & Hl); [done|].
  assert (0 <= n mod 10 < 10) by (apply Z.mod_pos_bound; lia).
  split.
  { rewrite all_chars_app, Hd, all_chars_cons, digit_is_digit; done. }
  intros _. split_and!.
  - rewrite digits_value_snoc, Hv, code_digit by done.
    pose proof (Z.div_mod n 10). lia.
  - intros [=E]%(f_equal String.length). rewrite string_length_app in E. cbn in E. lia.
  - intros w Hw Hnw. rewrite string_length_app. cbn.
    destruct w as [|w]; [lia|]. destruct w as [|w]; [cbn in Hnw; lia|].
    specialize (Hl (S w)). cut (String.length (dec_digits fuel (n / 10)) <= S w)%nat; [lia|].
    apply Hl; [lia|]. apply Z.div_lt_upper_bound; [lia|].
    replace (Z.of_nat (S (S w))) with (Z.of_nat (S w) + 1) in Hnw by lia.
    rewrite Z.pow_add_r in Hnw by lia. lia.
Qed.

Lemma js_String_fuel n : 0 <= n -> n < 2 ^ Z.of_nat (S (Z.to_nat (Z.log2 n))).
Proof.
  intros H. destruct (Z.eq_dec n 0) as [->|]; [done|].
  rewrite Nat2Z.inj_succ, Z2Nat.id by apply Z.log2_nonneg.
  apply Z.log2_spec. lia.
Qed.

Lemma js_String_digits n :
  0 <= n ->
  all_digits (js_String n) = true /\ digits_value (js_String n) = n.
Proof.
  intros H. unfold js_String. destruct (Z.ltb_spec n 0); [lia|].
  destruct (dec_digits_spec _ n H (js_String_fuel n H)) as (Hd & Hv).
  destruct Hv as (Hv & Hne & _); [done|]. split; [|done].
  unfold all_digits. rewrite Hd, andb_true_r.
  apply negb_true_iff, String.eqb_neq, Hne.
Qed.

Lemma js_String_length n w :
  0 <= n < 10 ^ Z.of_nat w -> (0 < w)%nat -> (String.length (js_String n) <= w)%nat.
Proof.
  intros H Hw. unfold js_String. destruct (Z.ltb_spec n 0); [lia|].
  destruct (dec_digits_spec _ n ltac:(lia) (js_String_fuel n ltac:(lia))) as (_ & Hv).
  destruct Hv as (_ & _ & Hl); [done|]. apply Hl; lia.
Qed.

Lemma repeat_char_length c n : String.length (repeat_char c n) = n.
Proof. induction n; cbn; congruence. Qed.

Lemma digits_acc_zeros n s :
  digits_acc 0 (repeat_char "0"%char n +:+ s) = digits_acc 0 s.
Proof.
  rewrite digits_acc_app. f_equal. induction n as [|n IH]; [done|]. cbn. apply IH.
Qed.

Lemma zeros_digits n : all_chars is_digit (repeat_char "0"%char n) = true.
Proof. induction n as [|n IH]; [done|]. apply IH. Qed.

(** [String(n).padStart(w, "0")] is the fixed-width notation while [n] fits. *)
Lemma pad_start_fixed w n :
  (0 < w)%nat -> 0 <= n < 10 ^ Z.of_nat w ->
  pad_start w "0"%char (js_String n) = fixed_digits w n.
Proof.
  intros Hw Hn. destruct (js_String_digits n) as [Hd Hv]; [lia|].
  pose proof (js_String_length n w Hn Hw). unfold pad_start.
  set (s := _ +:+ _).
  assert (Hs : all_chars is_digit s = true).
  { unfold s. rewrite all_chars_app, zeros_digits. unfold all_digits in Hd.
    by apply andb_true_iff in Hd as [_ ->]. }
  assert (Hl : String.length s = w).
  { unfold s. rewrite string_length_app, repeat_char_length. lia. }
  assert (digits_value s = n) as Hval.
  { unfold s, digits_value. rewrite digits_acc_zeros. apply Hv. }
  rewrite <-(fixed_digits_digits_value s Hs), Hl. by rewrite Hval.
Qed.

(** ** The order of strings

    [a < b] on JavaScript strings compares code units from the left. *)

Lemma str_ltb_cons a s b t :
  String.ltb (String a s) (String b t) =
  (code a <? code b) || (Ascii.eqb a b && String.ltb s t).
Proof.
  unfold String.ltb. cbn. unfold Ascii.compare, code.
  destruct (N.compare_spec (N_of_ascii a) (N_of_ascii b)) as [E|E|E].
  - rewrite E, Z.ltb_irrefl. cbn.
    assert (a = b) as -> by (rewrite <-(ascii_N_embedding a), E; apply ascii_N_embedding).
    by rewrite Ascii.eqb_refl.
  - by rewrite (proj2 (Z.ltb_lt _ _)) by lia.
  - rewrite (proj2 (Z.ltb_ge _ _)) by lia.
    destruct (Ascii.eqb_spec a b) as [->|]; [lia|done].
Qed.

Lemma str_ltb_nil_r s : String.ltb s EmptyString = false.
Proof. by destruct s. Qed.

Lemma str_ltb_irrefl s : String.ltb s s = false.
Proof.
  induction s as [|c s IH]; [done|].
  rewrite str_ltb_cons, Ascii.eqb_refl, IH. lia.
Qed.

Lemma str_ltb_trans s t u :
  String.ltb s t = true -> String.ltb t u = true -> String.ltb s u = true.
Proof.
  revert t u. induction s as [|a s IH]; intros [|b t] [|c u]; try done.
  rewrite !str_ltb_cons.
  destruct (Ascii.eqb_spec a b) as [->|]; destruct (Ascii.eqb_spec b c) as [->|].
  - rewrite ?Z.ltb_irrefl, ?Ascii.eqb_refl. cbn. apply IH.
  - cbn. lia.
  - cbn. lia.
  - destruct (Ascii.eqb_spec a c) as [->|]; cbn; lia.
Qed.

Lemma str_ltb_total s t :
  s = t \/ String.ltb s t = true \/ String.ltb t s = true.
Proof.
  revert t. induction s as [|a s IH]; intros [|b t]; [by auto..|].
  rewrite !str_ltb_cons. destruct (IH t) as [->|[->| ->]];
    destruct (Ascii.eqb_spec a b) as [->|Hne];
    rewrite ?Ascii.eqb_refl; cbn; rewrite ?orb_true_r; auto;
    assert (code a <> code b) by (by intros ?%(inj code));
    destruct (Ascii.eqb_spec b a); try congruence; cbn; lia.
Qed.

Lemma str_ltb_asym s t : String.ltb s t = true -> String.ltb t s = false.
Proof.
  intros H. apply not_true_iff_false. intros H'.
  pose proof (str_ltb_trans _ _ _ H H') as E. by rewrite str_ltb_irrefl in E.
Qed.

Lemma str_leb_ltb s t : String.leb s t = negb (String.ltb t s).
Proof.
  unfold String.leb, String.ltb. rewrite (String.compare_antisym s t).
  by destruct (t ?= s)%string.
Qed.

Lemma str_ltb_false s t :
  String.ltb s t = false <-> s = t \/ String.ltb t s = true.
Proof.
  split.
  - intros H. destruct (str_ltb_total s t) as [->|[?|?]]; auto; congruence.
  - intros [->|H]; [apply str_ltb_irrefl|by apply str_ltb_asym].
Qed.

Lemma str_ltb_le_trans s t u :
  String.ltb s t = true -> String.ltb u t = false -> String.ltb s u = true.
Proof.
  intros H [->|H']%str_ltb_false; [done|]. by eapply str_ltb_trans.
Qed.

Lemma str_le_ltb_trans s t u :
  String.ltb t s = false -> String.ltb t u = true -> String.ltb s u = true.
Proof.
  intros [->|H']%str_ltb_false H; [done|]. by eapply str_ltb_trans.
Qed.

Lemma str_le_trans s t u :
  String.ltb t s = false -> String.ltb u t = false -> String.ltb u s = false.
Proof.
  intros H1 H2. apply not_true_iff_false. intros H3.
  pose proof (str_ltb_le_trans _ _ _ H3 H1). congruence.
Qed.

Definition str_lt (s t : string) : Prop := String.ltb s t = true.

#[export] Instance str_lt_strict : StrictOrder str_lt.
Proof.
  split.
  - intros s H. unfold str_lt in H. by rewrite str_ltb_irrefl in H.
  - intros s t u. apply str_ltb_trans.
Qed.

Lemma str_ltb_app_l s t u : String.ltb (s +:+ t) (s +:+ u) = String.ltb t u.
Proof.
  induction s as [|c s IH]; [done|].
  rewrite !string_app_cons, str_ltb_cons, Ascii.eqb_refl, IH, Z.ltb_irrefl. done.
Qed.

Lemma str_ltb_app_same_length s t u v :
  String.length s = String.length t -> String.ltb s t = true ->
  String.ltb (s +:+ u) (t +:+ v) = true.
Proof.
  revert t. induction s as [|a s IH]; intros [|b t]; try done.
  rewrite !string_app_cons, !str_ltb_cons. cbn. intros [=Hl].
  specialize (IH t Hl). destruct (Ascii.eqb_spec a b) as [->|];
    rewrite ?andb_false_l, ?orb_false_r, ?andb_true_l, ?orb_true_iff; [|done].
  naive_solver.
Qed.

(** On fixed-width notations the two orders agree. *)
Lemma fixed_digits_ltb w a b :
  0 <= a < 10 ^ Z.of_nat w -> 0 <= b < 10 ^ Z.of_nat w ->
  String.ltb (fixed_digits w a) (fixed_digits w b) = (a <? b).
Proof.
  intros Ha Hb.
  assert (Hlt : forall a b, 0 <= a < 10 ^ Z.of_nat w -> 0 <= b < 10 ^ Z.of_nat w ->
    a < b -> String.ltb (fixed_digits w a) (fixed_digits w b) = true).
  { clear a b Ha Hb. induction w as [|w IH]; intros a b Ha Hb Hab; [cbn in *; lia|].
    cbn [fixed_digits]. replace (Z.of_nat (S w)) with (Z.of_nat w + 1) in * by lia.
    rewrite Z.pow_add_r, Z.pow_1_r in * by lia.
    pose proof (Z.div_mod a 10 ltac:(lia)). pose proof (Z.div_mod b 10 ltac:(lia)).
    pose proof (Z.mod_pos_bound a 10 ltac:(lia)).
    pose proof (Z.mod_pos_bound b 10 ltac:(lia)).
    assert (forall x, 0 <= x < 10 ^ Z.of_nat w * 10 -> 0 <= x / 10 < 10 ^ Z.of_nat w).
    { intros x Hx. split; [apply Z.div_pos; lia|apply Z.div_lt_upper_bound; lia]. }
    destruct (decide (a / 10 = b / 10)) as [E|].
    - rewrite E, str_ltb_app_l, str_ltb_cons, !code_digit by lia.
      rewrite (proj2 (Z.ltb_lt _ _)); [done|lia].
    - apply str_ltb_app_same_length; [by rewrite !fixed_digits_length|].
      apply IH; auto. pose proof (Z.div_le_mono a b 10). lia. }
  destruct (Z.ltb_spec a b); [by apply Hlt|]. apply str_ltb_false.
  destruct (decide (a = b)) as [->|]; [by left|right]. apply Hlt; lia.
Qed.

(** ** State and errors

    A method of a store is a function of the store that returns the next store
    and either a value or the error it throws: as in the source, what was
    mutated before a [throw] stays mutated. *)

Inductive result (E A : Type) : Type :=
| Ok (a : A)
| Err (e : E).
Arguments Ok {E A} a.
Arguments Err {E A} e.

Definition M (S E A : Type) : Type := S -> S * result E A.

Definition ret {S E A} (a : A) : M S E A := fun s => (s, Ok a).
Definition throw {S E A} (e : E) : M S E A := fun s => (s, Err e).
Definition bind {S E A B} (m : M S E A) (f : A -> M S E B) : M S E B :=
  fun s =>
    match m s with
    | (s', Ok a) => f a s'
    | (s', Err e) => (s', Err e)
    end.
Definition get_state {S E} : M S E S := fun s => (s, Ok s).
Definition modify {S E} (f : S -> S) : M S E unit := fun s => (f s, Ok tt).
Definition lift_result {S E A} (r : result E A) : M S E A := fun s => (s, r).

(** [try ... catch] *)
Definition try_catch {S E A} (m : M S E A) (handler : E -> M S E A) : M S E A := fun s =>
  match m s with
  | (s', Err e) => handler e s'
  | r => r
  end.

(** A loop over an array that collects, and one that does not. *)
Fixpoint map_m {S E A B} (f : A -> M S E B) (l : list A) : M S E (list B) :=
  match l with
  | [] => ret []
  | a :: l => bind (f a) (fun b => bind (map_m f l) (fun bs => ret (b :: bs)))
  end.

Fixpoint for_m {S E A} (f : A -> M S E unit) (l : list A) : M S E unit :=
  match l with
  | [] => ret tt
  | a :: l => bind (f a) (fun _ => for_m f l)
  end.

(** A call that cannot throw. *)
Definition call {S E A} (f : S -> S * A) : M S E A :=
  fun s => let '(s', a) := f s in (s', Ok a).

Notation "'let*' x ':=' c 'in' k" := (bind c (fun x => k))
  (at level 200, x name, c at level 100, k at level 200, right associativity,
   only parsing) : js_scope.
Notation "'let*' ' p ':=' c 'in' k" := (bind c (fun x => match x with p => k end))
  (at level 200, p pattern, c at level 100, k at level 200, right associativity,
   only parsing) : js_scope.
Notation "'do' c ';;' k" := (bind c (fun _ => k))
  (at level 200, c at level 99, k at level 200, right associativity,
   only parsing) : js_scope.

Definition is_ok {E A} (r : result E A) : bool :=
  match r with Ok _ => true | Err _ => false end.

Section monad_lemmas.
Context {S E A B : Type}.
Implicit Types (m : M S E A) (f : A -> M S E B).

Lemma bind_Ok m f s s' a : m s = (s', Ok a) -> bind m f s = f a s'.
Proof. intros H. unfold bind. by rewrite H. Qed.

Lemma bind_Err m f s s' e : m s = (s', Err e) -> bind m f s = (s', Err e).
Proof. intros H. unfold bind. by rewrite H. Qed.

Lemma bind_inv m f s s' r :
  bind m f s = (s', r) ->
  (exists s1 a, m s = (s1, Ok a) /\ f a s1 = (s', r)) \/
  (exists e, m s = (s', Err e) /\ r = Err e).
Proof.
  unfold bind. destruct (m s) as [s1 [a|e]]; intros H; [left; eauto|right].
  injection H as <- <-. eauto.
Qed.

Lemma bind_Ok_inv m f s s' b :
  bind m f s = (s', Ok b) -> exists s1 a, m s = (s1, Ok a) /\ f a s1 = (s', Ok b).
Proof. intros [H|(e & _ & ?)]%bind_inv; [done|discriminate]. Qed.
End monad_lemmas.

(** *** What a method does to the store, whatever it returns

    [monotone R m]: [m] goes from a store to one that is [R]-related to it. *)
Definition monotone {S E A} (R : S -> S -> Prop) (m : M S E A) : Prop := forall s, R s (m s).1.

Section monotone_lemmas.
Context {S E : Type} (R : S -> S -> Prop) `{!PreOrder R}.

Lemma mono_ret {A} (a : A) : monotone R (ret (E := E) a).
Proof. intros s. reflexivity. Qed.

Lemma mono_throw {A} (e : E) : monotone R (throw (A := A) e).
Proof. intros s. reflexivity. Qed.

Lemma mono_lift {A} (r : result E A) : monotone R (lift_result r).
Proof. intros s. reflexivity. Qed.

Lemma mono_bind_strong {A B} (m : M S E A) (f : A -> M S E B) s :
  R s (m s).1 -> (forall s1 a, m s = (s1, Ok a) -> R s1 (f a s1).1) -> R s (bind m f s).1.
Proof.
  intros Hm Hf. unfold bind. destruct (m s) as [s1 [a|e]]; [|exact Hm].
  etransitivity; [exact Hm|]. by apply Hf.
Qed.

Lemma mono_bind {A B} (m : M S E A) (f : A -> M S E B) :
  monotone R m -> (forall a, monotone R (f a)) -> monotone R (bind m f).
Proof. intros Hm Hf s. apply (mono_bind_strong _); [apply Hm|]. intros; apply Hf. Qed.

Lemma mono_modify (f : S -> S) : (forall s, R s (f s)) -> monotone R (modify (E := E) f).
Proof. intros Hf s. apply Hf. Qed.

Lemma mono_call {A} (f : S -> S * A) :
  (forall s, R s (f s).1) -> monotone R (call (E := E) f).
Proof. intros Hf s. unfold call. specialize (Hf s). by destruct (f s). Qed.

Lemma mono_foldl {A} (f : S -> A -> S) l s : (forall s a, R s (f s a)) -> R s (foldl f s l).
Proof.
  intros Hf. revert s. induction l as [|a l IH]; intros s; [reflexivity|].
  cbn. etransitivity; [apply Hf|apply IH].
Qed.

Lemma mono_map_m {A B} (f : A -> M S E B) l :
  (forall a, monotone R (f a)) -> monotone R (map_m f l).
Proof.
  intros Hf. induction l as [|a l IH]; cbn [map_m]; [apply mono_ret|].
  apply mono_bind; [apply Hf|]. intros b. apply mono_bind; [apply IH|]. intros bs. apply mono_ret.
Qed.

Lemma mono_for_m {A} (f : A -> M S E unit) l :
  (forall a, monotone R (f a)) -> monotone R (for_m f l).
Proof.
  intros Hf. induction l as [|a l IH]; cbn [for_m]; [apply mono_ret|].
  apply mono_bind; [apply Hf|]. intros _. apply IH.
Qed.

Lemma mono_try_catch {A} (m : M S E A) h :
  monotone R m -> (forall e, monotone R (h e)) -> monotone R (try_catch m h).
Proof.
  intros Hm Hh s. unfold try_catch. specialize (Hm s). destruct (m s) as [s' [a|e]]; [done|].
  etransitivity; [exact Hm|apply Hh].
Qed.
End monotone_lemmas.

Create HintDb mono.
#[export] Hint Resolve mono_ret mono_throw mono_lift : mono.

(** ** Automation *)

(** Case analysis on every [match] and [if] that blocks a hypothesis or the
    goal, discarding the branches that are contradictory. *)
Ltac split_ifs :=
  repeat (match goal with
          | H : context [match ?x with _ => _ end] |- _ =>
              lazymatch type of x with
              | sumbool _ _ => destruct x
              | _ => destruct x eqn:?
              end
          | |- context [match ?x with _ => _ end] =>
              lazymatch type of x with
              | sumbool _ _ => destruct x
              | _ => destruct x eqn:?
              end
          end; simplify_eq/=; try done).

(** Turn boolean tests into propositions. *)
Ltac reflect_bools :=
  repeat match goal with
         | H : _ && _ = true |- _ => apply andb_true_iff in H; destruct H
         | H : _ || _ = false |- _ => apply orb_false_iff in H; destruct H
         | H : negb _ = true |- _ => apply negb_true_iff in H
         | H : negb _ = false |- _ => apply negb_false_iff in H
         | H : bool_decide _ = true |- _ => apply bool_decide_eq_true in H
         | H : bool_decide _ = false |- _ => apply bool_decide_eq_false in H
         | H : String.eqb _ _ = true |- _ => apply String.eqb_eq in H
         | H : String.eqb _ _ = false |- _ => apply String.eqb_neq in H
         | H : (_ <=? _)%Z = true |- _ => apply Z.leb_le in H
         | H : (_ <=? _)%Z = false |- _ => apply Z.leb_gt in H
         | H : (_ <? _)%Z = true |- _ => apply Z.ltb_lt in H
         | H : (_ <? _)%Z = false |- _ => apply Z.ltb_ge in H
         | H : (_ =? _)%Z = true |- _ => apply Z.eqb_eq in H
         | H : (_ =? _)%Z = false |- _ => apply Z.eqb_neq in H
         end.

Ltac mono_auto := eauto with mono typeclass_instances.

(** Follow the structure of a method, up to the hints in [mono]. *)
Ltac mono_steps :=
  repeat match goal with
         | |- monotone _ (bind _ _) => apply (mono_bind _); [|intros ?]
         | |- monotone _ (match ?x with _ => _ end) => destruct x
         | |- monotone _ (if ?b then _ else _) => destruct b
         | |- monotone _ (let '(_, _) := ?x in _) => destruct x
         | _ => solve [mono_auto]
         end.

(** ** Shared list lemmas *)

(** The elements from the first one that satisfies [p] on. *)
Fixpoint drop_until {A} (p : A -> bool) (l : list A) : list A :=
  match l with
  | [] => []
  | x :: l' => if p x then l else drop_until p l'
  end.

(** The elements before the first one that satisfies [p]. *)
Fixpoint take_until {A} (p : A -> bool) (l : list A) : list A :=
  match l with
  | [] => []
  | x :: l' => if p x then [] else x :: take_until p l'
  end.

Lemma filter_true_id {A} (P : A -> Prop) `{!forall x, Decision (P x)} (l : list A) :
  Forall P l -> filter P l = l.
Proof.
  induction 1 as [|x l Hx Hl IH]; [done|]. rewrite filter_cons_True by done. by rewrite IH.
Qed.

Lemma filter_false_nil {A} (P : A -> Prop) `{!forall x, Decision (P x)} (l : list A) :
  Forall (fun x => ~ P x) l -> filter P l = [].
Proof.
  induction 1 as [|x l Hx Hl IH]; [done|]. by rewrite filter_cons_False by done.
Qed.

Create HintDb js.
#[export] Hint Resolve str_ltb_irrefl str_ltb_asym : js.
#[export] Hint Rewrite @chars_app @string_length_app @string_app_assoc
  @string_app_nil_r : js.
