(* ===== verification/Offsets.v ===== *)
(** * Offsets: the positions of a stream, [<read-seq>_<byte-offset>]

    [next_offset] is the arithmetic of [appendToStream] in
    [packages/server/src/store.ts]; [advanceOffset] is its counterpart in
    [packages/server-cloudflare/src/store.ts].  Offsets are compared as
    strings everywhere; [mk_offset_ltb] is the reason this is sound. *)

From S2P Require Import Prelude.
Local Open Scope js_scope.

(** ** Definitions *)

Definition ZERO_OFFSET : string := "0000000000000000_0000000000000000".

(** 4-byte length prefix and 1-byte newline. *)
Definition FRAME_OVERHEAD : Z := 5.

(** [offset.split("_").map(Number)]: [parts[0]] and [parts[1]], [None] where
    the value is [NaN] or missing. *)
Definition offset_parts (o : string) : option Z * option Z :=
  match split_on "_"%char o with
  | r :: b :: _ => (js_Number r, js_Number b)
  | [r] => (js_Number r, None)
  | [] => (None, None)
  end.

(** The template literal with the two [padStart(16, "0")]. *)
Definition format_offset (readSeq byteOffset : option Z) : string :=
  pad_start 16 "0"%char (js_String_nan readSeq) +:+ "_" +:+
  pad_start 16 "0"%char (js_String_nan byteOffset).

(** The offset after a message of [len] bytes appended at [o]. *)
Definition next_offset (o : string) (len : Z) : string :=
  let '(readSeq, byteOffset) := offset_parts o in
  let newByteOffset := (fun b => dbl (dbl (b + FRAME_OVERHEAD) + len)) <$> byteOffset in
  format_offset readSeq newByteOffset.

(** The same sum as [create] writes it for the prefix of a fork, with the
    frame overhead added last. *)
Definition prefix_offset (o : string) (len : Z) : string :=
  let '(readSeq, byteOffset) := offset_parts o in
  let newByteOffset := (fun b => dbl (dbl (b + len) + 5)) <$> byteOffset in
  format_offset readSeq newByteOffset.

(** The Cloudflare server's [advanceOffset]. *)
Definition advanceOffset (currentOffset : string) (payloadLength : Z) : string :=
  let parts := split_on "_"%char currentOffset in
  let readSeq := parts !! 0%nat ≫= js_Number in
  let byteOffset := parts !! 1%nat ≫= js_Number in
  let newByteOffset :=
    (fun b => dbl (dbl (b + FRAME_OVERHEAD) + payloadLength)) <$> byteOffset in
  format_offset readSeq newByteOffset.

(** [/^\d+_\d+$/], the format the server accepts for an offset. *)
Definition valid_offset_format (o : string) : bool :=
  match split_on "_"%char o with
  | [a; b] => all_digits a && all_digits b
  | _ => false
  end.

(** ** The offsets the server hands out *)

(** The offset of byte position [n]. *)
Definition mk_offset (n : Z) : string := format_offset (Some 0) (Some n).

Definition wf_offset (o : string) : Prop :=
  exists n, 0 <= n <= MAX_SAFE_INTEGER /\ o = mk_offset n.

(** The byte position of an offset. *)
Definition position (o : string) : Z := digits_value (str_drop 17 o).

(** ** Lemmas *)

Lemma mk_offset_fixed n :
  0 <= n <= MAX_SAFE_INTEGER ->
  mk_offset n = "0000000000000000_" +:+ fixed_digits 16 n.
Proof.
  intros H. unfold MAX_SAFE_INTEGER in H. unfold mk_offset, format_offset.
  cbn [js_String_nan]. rewrite !pad_start_fixed by lia. done.
Qed.

Lemma str_drop_app s t : str_drop (String.length s) (s +:+ t) = t.
Proof. induction s as [|c s IH]; [done|apply IH]. Qed.

Lemma position_mk_offset n :
  0 <= n <= MAX_SAFE_INTEGER -> position (mk_offset n) = n.
Proof.
  intros H. unfold position. rewrite mk_offset_fixed by done.
  change 17%nat with (String.length "0000000000000000_"). rewrite str_drop_app.
  apply fixed_digits_value. unfold MAX_SAFE_INTEGER in H. lia.
Qed.

Lemma split_on_no_sep c s :
  all_chars (fun a => negb (Ascii.eqb a c)) s = true -> split_on c s = [s].
Proof.
  induction s as [|a s IH]; [done|]. rewrite all_chars_cons. cbn.
  destruct (Ascii.eqb a c); [done|]. intros H. by rewrite IH.
Qed.

Lemma digits_no_sep s :
  all_chars is_digit s = true ->
  all_chars (fun a => negb (Ascii.eqb a "_"%char)) s = true.
Proof.
  unfold all_chars. rewrite !forallb_forall. intros H x Hx. specialize (H x Hx).
  destruct (Ascii.eqb_spec x "_"%char) as [->|]; done.
Qed.

Lemma offset_parts_mk n :
  0 <= n <= MAX_SAFE_INTEGER -> offset_parts (mk_offset n) = (Some 0, Some n).
Proof.
  intros H. unfold offset_parts. rewrite mk_offset_fixed by done.
  cbn [split_on String.append].
  change (split_on "_"%char ("0000000000000000_" +:+ fixed_digits 16 n))
    with ("0000000000000000" :: split_on "_"%char (fixed_digits 16 n)).
  rewrite split_on_no_sep by apply digits_no_sep, fixed_digits_all.
  unfold js_Number. rewrite fixed_digits_all.
  rewrite fixed_digits_value by (unfold MAX_SAFE_INTEGER in H; lia).
  unfold MAX_SAFE_INTEGER in H. rewrite (dbl_small n) by lia. done.
Qed.

(** String order of offsets is numeric order of positions. *)
Lemma mk_offset_ltb a b :
  0 <= a <= MAX_SAFE_INTEGER -> 0 <= b <= MAX_SAFE_INTEGER ->
  String.ltb (mk_offset a) (mk_offset b) = (a <? b).
Proof.
  intros Ha Hb. rewrite !mk_offset_fixed, str_ltb_app_l by done.
  unfold MAX_SAFE_INTEGER in *. rewrite fixed_digits_ltb; [done|lia..].
Qed.

Lemma mk_offset_inj a b :
  0 <= a <= MAX_SAFE_INTEGER -> 0 <= b <= MAX_SAFE_INTEGER ->
  mk_offset a = mk_offset b -> a = b.
Proof. intros Ha Hb E. by rewrite <-(position_mk_offset a), E, position_mk_offset. Qed.

Lemma ZERO_OFFSET_mk : ZERO_OFFSET = mk_offset 0.
Proof. reflexivity. Qed.

Lemma wf_ZERO_OFFSET : wf_offset ZERO_OFFSET.
Proof. exists 0. split; [done|reflexivity]. Qed.

Lemma wf_offset_position o : wf_offset o -> o = mk_offset (position o).
Proof. intros (n & Hn & ->). by rewrite position_mk_offset. Qed.

Lemma wf_offset_position_bound o :
  wf_offset o -> 0 <= position o <= MAX_SAFE_INTEGER.
Proof. intros (n & Hn & ->). by rewrite position_mk_offset. Qed.

Lemma wf_offset_ltb o p :
  wf_offset o -> wf_offset p -> String.ltb o p = (position o <? position p).
Proof.
  intros (a & Ha & ->) (b & Hb & ->). by rewrite mk_offset_ltb, !position_mk_offset.
Qed.

Lemma next_offset_mk n len :
  0 <= n -> 0 <= len -> n + FRAME_OVERHEAD + len <= MAX_SAFE_INTEGER ->
  next_offset (mk_offset n) len = mk_offset (n + FRAME_OVERHEAD + len).
Proof.
  unfold FRAME_OVERHEAD, MAX_SAFE_INTEGER. intros Hn Hl Hb.
  unfold next_offset. rewrite offset_parts_mk by (unfold MAX_SAFE_INTEGER; lia).
  cbn [fmap option_fmap option_map]. unfold FRAME_OVERHEAD.
  rewrite (dbl_small (n + 5)), dbl_small by lia. done.
Qed.

Lemma prefix_offset_next o len : 
  (forall b, (offset_parts o).2 = Some b -> 0 <= b <= MAX_SAFE_INTEGER) ->
  0 <= len <= MAX_SAFE_INTEGER ->
  (forall b, (offset_parts o).2 = Some b -> b + len + 5 <= MAX_SAFE_INTEGER) ->
  prefix_offset o len = next_offset o len.
Proof.
  unfold prefix_offset, next_offset, MAX_SAFE_INTEGER, FRAME_OVERHEAD.
  destruct (offset_parts o) as [r [b|]]; cbn; [|done]. intros Hb Hl Hs.
  specialize (Hb b eq_refl). specialize (Hs b eq_refl).
  rewrite (dbl_small (b + len)), (dbl_small (b + 5)), !dbl_small by lia.
  do 2 f_equal. lia.
Qed.

Section next_offset.
Context (o : string) (len : Z).
Hypothesis Ho : wf_offset o.
Hypothesis Hlen : 0 <= len.
Hypothesis Hfits : position o + FRAME_OVERHEAD + len <= MAX_SAFE_INTEGER.

Lemma next_offset_position :
  position (next_offset o len) = position o + FRAME_OVERHEAD + len.
Proof.
  pose proof (wf_offset_position_bound _ Ho).
  rewrite (wf_offset_position _ Ho) at 1.
  rewrite next_offset_mk by lia. apply position_mk_offset.
  unfold FRAME_OVERHEAD in *. lia.
Qed.

Lemma next_offset_wf : wf_offset (next_offset o len).
Proof.
  pose proof (wf_offset_position_bound _ Ho).
  exists (position o + FRAME_OVERHEAD + len). split; [unfold FRAME_OVERHEAD in *; lia|].
  rewrite (wf_offset_position _ Ho) at 1. by rewrite next_offset_mk by lia.
Qed.

Lemma next_offset_gt : String.ltb o (next_offset o len) = true.
Proof.
  rewrite wf_offset_ltb, next_offset_position by (auto using next_offset_wf).
  unfold FRAME_OVERHEAD. lia.
Qed.
End next_offset.

#[export] Hint Resolve wf_ZERO_OFFSET next_offset_wf next_offset_gt : js.

(** The two servers compute the same next offset. *)
Lemma advanceOffset_next_offset o len : advanceOffset o len = next_offset o len.
Proof.
  unfold advanceOffset, next_offset, offset_parts.
  by destruct (split_on "_"%char o) as [|r [|b l]].
Qed.

#[global] Arguments position : simpl never.
#[global] Arguments next_offset : simpl never.
#[global] Arguments prefix_offset : simpl never.
#[global] Arguments mk_offset : simpl never.
