(* ===== verification/Producer.v ===== *)
(** * Idempotent producers

    [validateProducer], [commitProducerState] and [cleanupExpiredProducers] of
    [packages/server/src/store.ts], and the pure [validateProducer] of
    [packages/server-cloudflare/src/producer.ts].  A [Map] of producer states
    is a [gmap]: the code never depends on its iteration order. *)

From S2P Require Import Prelude.

(** ** Data *)

Record ProducerState := mkProducerState {
  ps_epoch : Z;
  ps_lastSeq : Z;
  ps_lastUpdated : Z;
}.

#[export] Instance ProducerState_eq_dec : EqDecision ProducerState.
Proof. solve_decision. Defined.

Inductive ProducerValidationResult :=
| accepted (isNew : bool) (proposedState : ProducerState) (producerId : string)
| duplicate (lastSeq : Z)
| stale_epoch (currentEpoch : Z)
| invalid_epoch_seq
| sequence_gap (expectedSeq receivedSeq : Z)
| stream_closed.

#[export] Instance ProducerValidationResult_eq_dec :
  EqDecision ProducerValidationResult.
Proof. solve_decision. Defined.

(** 7 days. *)
Definition PRODUCER_STATE_TTL_MS : Z := 7 * 24 * 60 * 60 * 1000.

(** ** Operations *)

Definition producer_expired (now : Z) (s : ProducerState) : bool :=
  PRODUCER_STATE_TTL_MS <? now - ps_lastUpdated s.

Definition cleanupExpiredProducers (now : Z)
    (producers : gmap string ProducerState) : gmap string ProducerState :=
  filter (fun kv => producer_expired now kv.2 = false) producers.

(** [validateProducer] of the reference server: the map after the cleanup (it
    is created when missing) and the verdict; nothing else is mutated. *)
Definition validateProducer (now : Z) (producers : option (gmap string ProducerState))
    (producerId : string) (e seq : Z)
    : gmap string ProducerState * ProducerValidationResult :=
  let producers := cleanupExpiredProducers now (or_else producers ∅) in
  let verdict :=
    match producers !! producerId with
    | None =>
        if negb (seq =? 0) then sequence_gap 0 seq
        else accepted true (mkProducerState e 0 now) producerId
    | Some state =>
        if e <? ps_epoch state then stale_epoch (ps_epoch state)
        else if ps_epoch state <? e then
          if negb (seq =? 0) then invalid_epoch_seq
          else accepted true (mkProducerState e 0 now) producerId
        else if seq <=? ps_lastSeq state then duplicate (ps_lastSeq state)
        else if seq =? ps_lastSeq state + 1 then
          accepted false (mkProducerState e seq now) producerId
        else sequence_gap (ps_lastSeq state + 1) seq
    end in
  (producers, verdict).

Definition commitProducerState (producers : gmap string ProducerState)
    (result : ProducerValidationResult) : gmap string ProducerState :=
  match result with
  | accepted _ proposedState producerId => <[producerId := proposedState]> producers
  | _ => producers
  end.

Module Cloudflare.
(** [validateProducer] of [packages/server-cloudflare/src/producer.ts]. *)
Definition validateProducer (state : option ProducerState) (producerId : string)
    (e seq now : Z) : ProducerValidationResult :=
  match state with
  | None =>
      if negb (seq =? 0) then sequence_gap 0 seq
      else accepted true (mkProducerState e 0 now) producerId
  | Some state =>
      if e <? ps_epoch state then stale_epoch (ps_epoch state)
      else if ps_epoch state <? e then
        if negb (seq =? 0) then invalid_epoch_seq
        else accepted true (mkProducerState e 0 now) producerId
      else if seq <=? ps_lastSeq state then duplicate (ps_lastSeq state)
      else if seq =? ps_lastSeq state + 1 then
        accepted false (mkProducerState e seq now) producerId
      else sequence_gap (ps_lastSeq state + 1) seq
  end.

(** [getProducerState] of [SqliteStore]: the rows that are too old are
    deleted, then the producer's row is read. *)
Definition getProducerState (rows : gmap string ProducerState) (producerId : string)
    (now : Z) : gmap string ProducerState * option ProducerState :=
  let rows := filter (fun kv => ~ ps_lastUpdated kv.2 < now - PRODUCER_STATE_TTL_MS) rows in
  (rows, rows !! producerId).
End Cloudflare.

(** ** Lemmas *)

Lemma cleanup_lookup now m id :
  cleanupExpiredProducers now m !! id =
  match m !! id with
  | Some s => if producer_expired now s then None else Some s
  | None => None
  end.
Proof.
  unfold cleanupExpiredProducers. destruct (m !! id) as [s|] eqn:Hm.
  - destruct (producer_expired now s) eqn:He.
    + apply map_lookup_filter_None. right. intros x ? ?. cbn in *. congruence.
    + by apply map_lookup_filter_Some.
  - apply map_lookup_filter_None. by left.
Qed.

Lemma cleanup_fresh now m :
  (forall id s, m !! id = Some s -> now - ps_lastUpdated s <= PRODUCER_STATE_TTL_MS) ->
  cleanupExpiredProducers now m = m.
Proof.
  intros H. apply map_eq. intros id. rewrite cleanup_lookup.
  destruct (m !! id) as [s|] eqn:Hm; [|done].
  unfold producer_expired. specialize (H id s Hm).
  destruct (Z.ltb_spec PRODUCER_STATE_TTL_MS (now - ps_lastUpdated s)); [lia|done].
Qed.

(** The verdict is that of the pure function on the state that survives the
    cleanup. *)
Lemma validateProducer_verdict now m id e seq :
  validateProducer now m id e seq =
  (cleanupExpiredProducers now (or_else m ∅),
   Cloudflare.validateProducer (cleanupExpiredProducers now (or_else m ∅) !! id)
     id e seq now).
Proof. reflexivity. Qed.

(** What an accepted verdict says, and what it proposes. *)
Lemma accepted_inv state id e seq now isNew ps id' :
  Cloudflare.validateProducer state id e seq now = accepted isNew ps id' ->
  id' = id /\ ps = mkProducerState e seq now /\
  match state with
  | None => seq = 0
  | Some s => (ps_epoch s < e /\ seq = 0) \/ (ps_epoch s = e /\ seq = ps_lastSeq s + 1)
  end.
Proof.
  unfold Cloudflare.validateProducer. intros H.
  destruct state as [s|]; split_ifs; reflect_bools; subst; split_and!; auto; lia.
Qed.

(** ** A session: requests, each validated and, when accepted, committed *)

Record request := mkRequest {
  req_now : Z;
  req_id : string;
  req_epoch : Z;
  req_seq : Z;
}.

Definition process (m : gmap string ProducerState) (r : request)
    : gmap string ProducerState * ProducerValidationResult :=
  let '(m, v) := validateProducer (req_now r) (Some m) (req_id r) (req_epoch r) (req_seq r) in
  (commitProducerState m v, v).

Fixpoint session (m : gmap string ProducerState) (rs : list request)
    : list request :=
  match rs with
  | [] => []
  | r :: rs =>
      let '(m, v) := process m r in
      match v with
      | accepted _ _ _ => r :: session m rs
      | _ => session m rs
      end
  end.

(** The sequence numbers accepted from one producer in one epoch. *)
Definition accepted_seqs (id : string) (e : Z) (rs : list request) : list Z :=
  req_seq <$> filter (fun r => req_id r = id /\ req_epoch r = e) rs.

Lemma accepted_seqs_cons id e r rs :
  accepted_seqs id e (r :: rs) =
  (if decide (req_id r = id /\ req_epoch r = e) then [req_seq r] else []) ++
  accepted_seqs id e rs.
Proof. unfold accepted_seqs. rewrite filter_cons. by case_decide. Qed.

Section window.
(** Requests within one TTL window: no state expires between them. *)
Context (t0 : Z).

Definition in_window (r : request) : Prop :=
  t0 <= req_now r <= t0 + PRODUCER_STATE_TTL_MS.

Definition fresh_states (m : gmap string ProducerState) : Prop :=
  forall id s, m !! id = Some s -> t0 <= ps_lastUpdated s.

(** Where the numbers of epoch [e] go on: after [lastSeq] in the current
    epoch, from 0 in a later one, nowhere in an earlier one. *)
Definition resume (m : gmap string ProducerState) (id : string) (e : Z) : option Z :=
  match m !! id with
  | None => Some 0
  | Some s => if ps_epoch s <? e then Some 0
              else if ps_epoch s =? e then Some (ps_lastSeq s + 1) else None
  end.

Lemma process_fresh m r :
  fresh_states m -> in_window r ->
  (process m r).1 = commitProducerState m (process m r).2 /\
  (process m r).2 =
    Cloudflare.validateProducer (m !! req_id r) (req_id r) (req_epoch r)
      (req_seq r) (req_now r) /\
  fresh_states (process m r).1.
Proof.
  intros Hm Hr. unfold process. rewrite validateProducer_verdict. cbn [or_else].
  rewrite cleanup_fresh
    by (intros id s Hs; specialize (Hm id s Hs); unfold in_window in Hr; lia).
  cbn. split_and!; [done..|].
  destruct (Cloudflare.validateProducer _ _ _ _ _) eqn:Hv; cbn; try done.
  apply accepted_inv in Hv as (-> & -> & _). intros id s.
  rewrite lookup_insert. case_decide; intros; simplify_eq/=; [|eauto].
  unfold in_window in Hr. lia.
Qed.

Lemma session_resume m rs id e :
  fresh_states m -> Forall in_window rs ->
  match resume m id e with
  | Some n => exists k : nat, accepted_seqs id e (session m rs) = seqZ n (Z.of_nat k)
  | None => accepted_seqs id e (session m rs) = []
  end.
Proof.
  intros Hm Hrs. revert m Hm. induction Hrs as [|r rs Hr Hrs IH]; intros m Hm.
  { unfold resume. destruct (m !! id) as [s|];
      [destruct (ps_epoch s <? e), (ps_epoch s =? e)|]; first [by exists 0%nat|done]. }
  cbn [session]. destruct (process_fresh m r Hm Hr) as (Hm' & Hv & Hf).
  destruct (process m r) as [m' v]; cbn in *.
  destruct v as [isNew ps id'|?|?| |? ?|]; cbn in Hm'; subst m'; try by apply IH.
  symmetry in Hv. apply accepted_inv in Hv as (-> & -> & Hst).
  specialize (IH _ Hf). rewrite accepted_seqs_cons.
  unfold resume in *. rewrite lookup_insert in IH.
  destruct (decide (req_id r = id)) as [<-|Hne]; cbn in IH; cycle 1.
  { rewrite (decide_False (P:=_ /\ _)) by naive_solver. by apply IH. }
  destruct (decide (req_epoch r = e)) as [<-|He].
  - rewrite (decide_True (P:=_ /\ _)) by done.
    rewrite Z.ltb_irrefl, Z.eqb_refl in IH. destruct IH as [k IH].
    assert (exists n, n = req_seq r /\ match m !! req_id r with
      | Some s => if ps_epoch s <? req_epoch r then Some 0
                  else if ps_epoch s =? req_epoch r then Some (ps_lastSeq s + 1) else None
      | None => Some 0 end = Some n) as (n & -> & ->).
    { destruct (m !! req_id r) as [s|]; [|by eauto].
      destruct Hst as [[? ->]|[-> ->]];
        [destruct (Z.ltb_spec (ps_epoch s) (req_epoch r)); [eauto|lia]|].
      rewrite Z.ltb_irrefl, Z.eqb_refl. eauto. }
    exists (S k). rewrite IH, (seqZ_cons _ (Z.of_nat (S k))) by lia. cbn [app].
    do 2 f_equal; lia.
  - rewrite (decide_False (P:=_ /\ _)) by naive_solver. cbn.
    destruct (Z.eqb_spec (req_epoch r) e); [done|].
    destruct (m !! req_id r) as [s|].
    + assert (ps_epoch s <= req_epoch r) by lia.
      destruct (Z.ltb_spec (req_epoch r) e).
      * by rewrite (proj2 (Z.ltb_lt (ps_epoch s) e)) by lia.
      * rewrite IH. destruct (ps_epoch s <? e), (ps_epoch s =? e); first [by exists 0%nat|done].
    + destruct (Z.ltb_spec (req_epoch r) e); [done|]. by exists 0%nat.
Qed.
End window.

(** ** Properties *)

(** C21: of any sequence of requests within one TTL window, the sequence
    numbers accepted from one producer in one epoch are exactly 0, 1, ..., k-1
    in that order: nothing is accepted twice, out of order, or past a gap. *)
Theorem exactly_once_in_order (t0 : Z) (rs : list request) (id : string) (e : Z) :
  Forall (in_window t0) rs ->
  exists k : nat, accepted_seqs id e (session ∅ rs) = seqZ 0 (Z.of_nat k).
Proof.
  intros H. assert (Hf : fresh_states t0 ∅).
  { intros ? ? E. by rewrite lookup_empty in E. }
  pose proof (session_resume t0 ∅ rs id e Hf H) as R.
  unfold resume in R. by rewrite lookup_empty in R.
Qed.

Lemma exactly_once_in_order_witness :
  let rs := [mkRequest 5 "p" 0 0; mkRequest 6 "p" 0 0; mkRequest 7 "p" 0 2;
             mkRequest 8 "p" 0 1; mkRequest 9 "p" 1 0; mkRequest 9 "p" 0 2] in
  exists k : nat, accepted_seqs "p" 0 (session ∅ rs) = seqZ 0 (Z.of_nat k).
Proof.
  intros rs. apply (exactly_once_in_order 5 rs "p" 0).
  unfold rs. repeat constructor; vm_compute; discriminate.
Defined.

Section after_commit.
(** A request was accepted and committed, and a later one arrives before the
    state expires. *)
Context (now now' : Z) (m : option (gmap string ProducerState)) (id : string).
Context (e seq : Z).

Lemma committed_lookup m' isNew ps :
  validateProducer now m id e seq = (m', accepted isNew ps id) ->
  now' <= now + PRODUCER_STATE_TTL_MS ->
  cleanupExpiredProducers now' (commitProducerState m' (accepted isNew ps id)) !! id
  = Some (mkProducerState e seq now).
Proof.
  rewrite validateProducer_verdict. intros [= <- Hv] Hnow.
  apply accepted_inv in Hv as (_ & -> & _).
  rewrite cleanup_lookup. cbn [commitProducerState]. rewrite lookup_insert_eq.
  unfold producer_expired. cbn [ps_lastUpdated].
  destruct (Z.ltb_spec PRODUCER_STATE_TTL_MS (now' - now)); [lia|done].
Qed.
End after_commit.

(** A request that was accepted and committed, when it is retried before
    its state expires, is answered [duplicate] with the number it was accepted
    under; and any older epoch of the producer is fenced off. *)
Theorem retry_duplicate_and_fencing (now now' : Z) (m : option (gmap string ProducerState))
    (id : string) (e seq : Z) (m' : gmap string ProducerState) (isNew : bool)
    (ps : ProducerState) :
  validateProducer now m id e seq = (m', accepted isNew ps id) ->
  now' <= now + PRODUCER_STATE_TTL_MS ->
  let committed := Some (commitProducerState m' (accepted isNew ps id)) in
  (validateProducer now' committed id e seq).2 = duplicate seq /\
  forall e' seq', e' < e ->
    (validateProducer now' committed id e' seq').2 = stale_epoch e.
Proof.
  intros Hv Hnow committed.
  pose proof (committed_lookup now now' m id e seq m' isNew ps Hv Hnow) as Hl.
  unfold committed. rewrite !validateProducer_verdict. cbn [or_else snd]. rewrite Hl.
  split.
  - cbn. by rewrite Z.ltb_irrefl, Z.leb_refl.
  - intros e' seq' He. rewrite validateProducer_verdict. cbn [or_else snd]. rewrite Hl.
    cbn. by rewrite (proj2 (Z.ltb_lt e' e)).
Qed.

Lemma retry_duplicate_and_fencing_witness :
  let m' := ∅ : gmap string ProducerState in
  let v := accepted true (mkProducerState 3 0 100) "p" in
  let committed := Some (commitProducerState m' v) in
  (validateProducer 200 committed "p" 3 0).2 = duplicate 0 /\
  forall e' seq', e' < 3 -> (validateProducer 200 committed "p" e' seq').2 = stale_epoch 3.
Proof.
  apply (retry_duplicate_and_fencing 100 200 None "p" 3 0); [reflexivity|].
  vm_compute. discriminate.
Defined.

(** C37: the Cloudflare server, which deletes old rows with an SQL query and
    validates with a pure function, gives every request the verdict of the
    reference server and keeps the same producer states. *)
Theorem cloudflare_validate_equiv (now : Z) (rows : gmap string ProducerState)
    (id : string) (e seq : Z) :
  let '(rows', state) := Cloudflare.getProducerState rows id now in
  (rows', Cloudflare.validateProducer state id e seq now) =
  validateProducer now (Some rows) id e seq.
Proof.
  unfold Cloudflare.getProducerState. rewrite validateProducer_verdict. cbn [or_else].
  assert (filter (fun kv => ~ ps_lastUpdated kv.2 < now - PRODUCER_STATE_TTL_MS) rows
          = cleanupExpiredProducers now rows) as ->; [|done].
  unfold cleanupExpiredProducers. apply map_filter_ext. intros i s _.
  unfold producer_expired. cbn. rewrite Z.ltb_ge. lia.
Qed.
