(* ===== verification/Text.v ===== *)
(** * Text: [TextDecoder] and [TextEncoder]

    A JavaScript string of decoded text is represented by its UTF-8 bytes, one
    character of the Rocq [string] per byte, and a [Uint8Array] by a list of
    characters.  In this reading [TextEncoder.encode] is the identity and
    [TextDecoder.decode] is the WHATWG decoder: it drops a byte-order mark and
    replaces every ill-formed sequence by U+FFFD. *)

From S2P Require Import Prelude.
Local Open Scope js_scope.

Notation bytes := (list ascii).

(** ** Definitions *)

Definition in_range (lo hi : Z) (c : ascii) : bool :=
  (lo <=? code c) && (code c <=? hi).

Definition cont (c : ascii) : bool := in_range 128 191 c.

(** The second byte of a three-byte sequence that starts with [b0]. *)
Definition second3 (b0 b1 : ascii) : bool :=
  if code b0 =? 224 then in_range 160 191 b1
  else if code b0 =? 237 then in_range 128 159 b1
  else cont b1.

(** The second byte of a four-byte sequence. *)
Definition second4 (b0 b1 : ascii) : bool :=
  if code b0 =? 240 then in_range 144 191 b1
  else if code b0 =? 244 then in_range 128 143 b1
  else cont b1.

(** U+FFFD *)
Definition REPLACEMENT : bytes :=
  [char_of_code 239; char_of_code 191; char_of_code 189].

Definition BOM : bytes := [char_of_code 239; char_of_code 187; char_of_code 191].

Fixpoint utf8_decode (l : bytes) : bytes :=
  match l with
  | [] => []
  | b0 :: l1 =>
      if code b0 <? 128 then b0 :: utf8_decode l1
      else if in_range 194 223 b0 then
        match l1 with
        | b1 :: l2 =>
            if cont b1 then b0 :: b1 :: utf8_decode l2
            else REPLACEMENT ++ utf8_decode l1
        | [] => REPLACEMENT
        end
      else if in_range 224 239 b0 then
        match l1 with
        | b1 :: l2 =>
            if second3 b0 b1 then
              match l2 with
              | b2 :: l3 =>
                  if cont b2 then b0 :: b1 :: b2 :: utf8_decode l3
                  else REPLACEMENT ++ utf8_decode l2
              | [] => REPLACEMENT
              end
            else REPLACEMENT ++ utf8_decode l1
        | [] => REPLACEMENT
        end
      else if in_range 240 244 b0 then
        match l1 with
        | b1 :: l2 =>
            if second4 b0 b1 then
              match l2 with
              | b2 :: l3 =>
                  if cont b2 then
                    match l3 with
                    | b3 :: l4 =>
                        if cont b3 then b0 :: b1 :: b2 :: b3 :: utf8_decode l4
                        else REPLACEMENT ++ utf8_decode l3
                    | [] => REPLACEMENT
                    end
                  else REPLACEMENT ++ utf8_decode l2
              | [] => REPLACEMENT
              end
            else REPLACEMENT ++ utf8_decode l1
        | [] => REPLACEMENT
        end
      else REPLACEMENT ++ utf8_decode l1
  end.

Definition strip_bom (l : bytes) : bytes :=
  match l with
  | b0 :: b1 :: b2 :: l' => if decide ([b0; b1; b2] = BOM) then l' else l
  | _ => l
  end.

(** [new TextDecoder().decode(data)] *)
Definition decode_text (data : bytes) : string := of_chars (utf8_decode (strip_bom data)).

(** [new TextEncoder().encode(text)] *)
Definition encode_text (text : string) : bytes := chars text.

(** [text.trimEnd()], on UTF-8 text whose trailing white space is ASCII. *)
Definition trim_end_text (text : string) : string :=
  of_chars (reverse (drop_until (fun c => negb (in_range 9 13 c || (code c =? 32)))
                       (reverse (chars text)))).

(** ** Well-formed text *)

(** One encoded character. *)
Inductive utf8_char : bytes -> Prop :=
| utf8_1 b0 : code b0 < 128 -> utf8_char [b0]
| utf8_2 b0 b1 : in_range 194 223 b0 = true -> cont b1 = true -> utf8_char [b0; b1]
| utf8_3 b0 b1 b2 :
    in_range 224 239 b0 = true -> second3 b0 b1 = true -> cont b2 = true ->
    utf8_char [b0; b1; b2]
| utf8_4 b0 b1 b2 b3 :
    in_range 240 244 b0 = true -> second4 b0 b1 = true -> cont b2 = true ->
    cont b3 = true -> utf8_char [b0; b1; b2; b3].

Inductive utf8 : bytes -> Prop :=
| utf8_nil : utf8 []
| utf8_app q l : utf8_char q -> utf8 l -> utf8 (q ++ l).

(** The decidable form of [utf8]. *)
Definition utf8_valid (l : bytes) : bool := bool_decide (utf8_decode l = l).

(** ** Lemmas *)

Lemma utf8_cons_ascii c l : code c < 128 -> utf8 l -> utf8 (c :: l).
Proof. intros. apply (utf8_app [c]); [by constructor|done]. Qed.

Lemma utf8_app_closed a b : utf8 a -> utf8 b -> utf8 (a ++ b).
Proof.
  intros Ha Hb. induction Ha as [|q l Hq Hl IH]; [done|].
  rewrite <-(assoc_L (++)). by constructor.
Qed.

Lemma utf8_char_utf8 q : utf8_char q -> utf8 q.
Proof. intros H. rewrite <-(app_nil_r q). apply utf8_app; [done|constructor]. Qed.

Lemma in_range_bounds lo hi c : in_range lo hi c = true -> lo <= code c <= hi.
Proof. unfold in_range. rewrite andb_true_iff, !Z.leb_le. done. Qed.

(** A character is one ASCII byte, or bytes that are all above ASCII. *)
Lemma utf8_char_cases q :
  utf8_char q ->
  (exists c, q = [c] /\ code c < 128) \/ Forall (fun c => 128 <= code c) q.
Proof.
  assert (Hs3 : forall b0 b1, second3 b0 b1 = true -> 128 <= code b1).
  { intros b0 b1. unfold second3, cont.
    destruct (code b0 =? 224), (code b0 =? 237); intros ?%in_range_bounds; lia. }
  assert (Hs4 : forall b0 b1, second4 b0 b1 = true -> 128 <= code b1).
  { intros b0 b1. unfold second4, cont.
    destruct (code b0 =? 240), (code b0 =? 244); intros ?%in_range_bounds; lia. }
  assert (Hc : forall b, cont b = true -> 128 <= code b).
  { intros b ?%in_range_bounds. lia. }
  intros [b0 H0|b0 b1 H0 H1|b0 b1 b2 H0 H1 H2|b0 b1 b2 b3 H0 H1 H2 H3]; [by eauto|right..];
    apply in_range_bounds in H0; repeat constructor; eauto; lia.
Qed.

Lemma utf8_ascii l : Forall (fun c => code c < 128) l -> utf8 l.
Proof. induction 1; [constructor|by apply utf8_cons_ascii]. Qed.

Lemma utf8_replacement l : utf8 l -> utf8 (REPLACEMENT ++ l).
Proof. intros H. apply utf8_app; [|done]. apply utf8_3; reflexivity. Qed.

(** The decoder copies a well-formed prefix. *)
Lemma utf8_decode_char q l : utf8_char q -> utf8_decode (q ++ l) = q ++ utf8_decode l.
Proof.
  pose proof in_range_bounds as Hr.
  intros [b0 H0|b0 b1 H0 H1|b0 b1 b2 H0 H1 H2|b0 b1 b2 b3 H0 H1 H2 H3]; cbn [app utf8_decode].
  - by rewrite (proj2 (Z.ltb_lt _ _) H0).
  - rewrite H0, H1. apply Hr in H0. by rewrite (proj2 (Z.ltb_ge _ _)) by lia.
  - rewrite H0, H1, H2. apply Hr in H0. rewrite (proj2 (Z.ltb_ge _ _)) by lia.
    destruct (in_range 194 223 b0) eqn:E; [apply Hr in E; lia|done].
  - rewrite H0, H1, H2, H3. apply Hr in H0. rewrite (proj2 (Z.ltb_ge _ _)) by lia.
    destruct (in_range 194 223 b0) eqn:E; [apply Hr in E; lia|].
    destruct (in_range 224 239 b0) eqn:E'; [apply Hr in E'; lia|done].
Qed.

Lemma utf8_decode_app a b : utf8 a -> utf8_decode (a ++ b) = a ++ utf8_decode b.
Proof.
  induction 1 as [|q l Hq Hl IH]; [done|].
  by rewrite <-!(assoc_L (++)), utf8_decode_char, IH.
Qed.

Lemma utf8_decode_id l : utf8 l -> utf8_decode l = l.
Proof. intros H. rewrite <-(app_nil_r l) at 1. rewrite utf8_decode_app by done. apply app_nil_r. Qed.

Lemma utf8_decode_utf8_le n l : (length l <= n)%nat -> utf8 (utf8_decode l).
Proof.
  revert l. induction n as [|n IH]; intros [|b0 l1]; cbn [length utf8_decode];
    intros Hl; try (constructor || lia).
  pose proof (utf8_replacement [] utf8_nil) as Hrep. rewrite app_nil_r in Hrep.
  destruct (Z.ltb_spec (code b0) 128) as [H0|H0].
  { apply utf8_cons_ascii; [done|]. apply IH. lia. }
  assert (H1 : utf8 (utf8_decode l1)) by (apply IH; lia).
  destruct (in_range 194 223 b0) eqn:E2.
  { destruct l1 as [|b1 l2]; [done|]. destruct (cont b1) eqn:C1.
    - apply (utf8_app [b0; b1]); [by constructor|]. apply IH. cbn in Hl. lia.
    - by apply utf8_replacement. }
  destruct (in_range 224 239 b0) eqn:E3.
  { destruct l1 as [|b1 l2]; [done|]. destruct (second3 b0 b1) eqn:C1.
    - destruct l2 as [|b2 l3]; [done|].
      assert (utf8 (utf8_decode (b2 :: l3))) by (apply IH; cbn in *; lia).
      destruct (cont b2) eqn:C2; [|by apply utf8_replacement].
      apply (utf8_app [b0; b1; b2]); [by constructor|]. apply IH. cbn in Hl. lia.
    - by apply utf8_replacement. }
  destruct (in_range 240 244 b0) eqn:E4; [|by apply utf8_replacement].
  destruct l1 as [|b1 l2]; [done|].
  destruct (second4 b0 b1) eqn:C1; [|by apply utf8_replacement].
  destruct l2 as [|b2 l3]; [done|].
  assert (utf8 (utf8_decode (b2 :: l3))) by (apply IH; cbn in *; lia).
  destruct (cont b2) eqn:C2; [|by apply utf8_replacement].
  destruct l3 as [|b3 l4]; [done|].
  assert (utf8 (utf8_decode (b3 :: l4))) by (apply IH; cbn in *; lia).
  destruct (cont b3) eqn:C3; [|by apply utf8_replacement].
  apply (utf8_app [b0; b1; b2; b3]); [by constructor|]. apply IH. cbn in Hl. lia.
Qed.

(** Whatever the input, the result is well-formed. *)
Lemma utf8_decode_utf8 l : utf8 (utf8_decode l).
Proof. by eapply utf8_decode_utf8_le. Qed.

Lemma utf8_validP l : utf8_valid l = true <-> utf8 l.
Proof.
  unfold utf8_valid. rewrite bool_decide_eq_true. split.
  - intros <-. apply utf8_decode_utf8.
  - apply utf8_decode_id.
Qed.

Lemma utf8_valid_app a b :
  utf8_valid a = true -> utf8_valid b = true -> utf8_valid (a ++ b) = true.
Proof. rewrite !utf8_validP. apply utf8_app_closed. Qed.

Lemma strip_bom_ascii c l : code c < 128 -> strip_bom (c :: l) = c :: l.
Proof.
  intros H. destruct l as [|b1 [|b2 l]]; [done..|]. cbn.
  case_decide as E; [|done]. injection E as -> _ _. vm_compute in H. discriminate.
Qed.

(** Text that is well-formed and starts with an ASCII character survives a
    trip through bytes. *)
Lemma decode_encode_text s :
  utf8 (chars s) ->
  match s with String c _ => code c < 128 | EmptyString => True end ->
  decode_text (encode_text s) = s.
Proof.
  intros H H0. unfold decode_text, encode_text.
  assert (strip_bom (chars s) = chars s) as ->.
  { destruct s as [|c s]; [done|]. by apply strip_bom_ascii. }
  by rewrite utf8_decode_id, of_chars_chars.
Qed.

(** White space at the end is dropped, and nothing else is. *)
Lemma trim_end_text_snoc s c :
  in_range 9 13 c || (code c =? 32) = false ->
  trim_end_text (s +:+ String c EmptyString) = s +:+ String c EmptyString.
Proof.
  intros H. unfold trim_end_text. rewrite chars_app. cbn [chars].
  rewrite reverse_snoc. cbn [drop_until]. rewrite H. cbn [negb].
  by rewrite reverse_cons, reverse_involutive, of_chars_app, of_chars_chars.
Qed.

(** * [encodeURIComponent] and [decodeURIComponent] *)

(** ** Definitions *)

(** The characters [encodeURIComponent] leaves alone. *)
Definition uri_unreserved (c : ascii) : bool :=
  in_range 48 57 c || in_range 65 90 c || in_range 97 122 c ||
  existsb (Ascii.eqb c) ["-"; "_"; "."; "!"; "~"; "*"; "'"; "("; ")"]%char.

Definition upper_hex (d : Z) : ascii := if d <? 10 then char_of_code (48 + d) else char_of_code (55 + d).

Definition percent (c : ascii) : bytes := ["%"%char; upper_hex (code c / 16); upper_hex (code c mod 16)].

Definition uri_char (c : ascii) : bytes := if uri_unreserved c then [c] else percent c.

(** [encodeURIComponent]; it throws for lone surrogates only, which decoded text
    does not have. *)
Definition encodeURIComponent (s : string) : string := of_chars (concat (map uri_char (chars s))).

Definition hex_digit_value (c : ascii) : option Z :=
  if in_range 48 57 c then Some (code c - 48)
  else if in_range 65 70 c then Some (code c - 55)
  else if in_range 97 102 c then Some (code c - 87)
  else None.

(** An escaped octet. *)
Definition octet (l : bytes) : option (ascii * bytes) :=
  match l with
  | p :: h1 :: h2 :: l =>
      if Ascii.eqb p "%" then
        match hex_digit_value h1, hex_digit_value h2 with
        | Some a, Some b => Some (char_of_code (16 * a + b), l)
        | _, _ => None
        end
      else None
  | _ => None
  end.

Fixpoint octets (n : nat) (l : bytes) : option (bytes * bytes) :=
  match n with
  | O => Some ([], l)
  | S n =>
      match octet l with
      | Some (b, l) => match octets n l with Some (bs, l) => Some (b :: bs, l) | None => None end
      | None => None
      end
  end.

(** The octets that follow a leading octet of a character. *)
Definition following (b : ascii) : option nat :=
  if code b <? 128 then Some 0%nat
  else if in_range 192 223 b then Some 1%nat
  else if in_range 224 239 b then Some 2%nat
  else if in_range 240 247 b then Some 3%nat
  else None.

(** One step of [Decode]: a character as it is, or one that is escaped. *)
Definition decode_char (l : bytes) : option (bytes * bytes) :=
  match l with
  | [] => None
  | c :: l' =>
      if Ascii.eqb c "%" then
        match octet l with
        | Some (b, l1) =>
            match following b with
            | Some n =>
                match octets n l1 with
                | Some (bs, l2) => if utf8_valid (b :: bs) then Some (b :: bs, l2) else None
                | None => None
                end
            | None => None
            end
        | None => None
        end
      else Some ([c], l')
  end.

Fixpoint decode_fuel (fuel : nat) (l : bytes) : option bytes :=
  match l, fuel with
  | [], _ => Some []
  | _, O => None
  | _, S fuel =>
      match decode_char l with
      | Some (q, l) => match decode_fuel fuel l with Some r => Some (q ++ r) | None => None end
      | None => None
      end
  end.

(** [decodeURIComponent]; [None] when it throws.  Every step consumes a
    character, so that the length is enough fuel. *)
Definition decodeURIComponent (s : string) : option string :=
  of_chars <$> decode_fuel (String.length s) (chars s).

(** ** Round trip *)

Lemma hex_digit_value_upper d : 0 <= d < 16 -> hex_digit_value (upper_hex d) = Some d.
Proof.
  intros Hd. assert (d = 0 \/ d = 1 \/ d = 2 \/ d = 3 \/ d = 4 \/ d = 5 \/ d = 6 \/ d = 7 \/ d = 8 \/ d = 9 \/
    d = 10 \/ d = 11 \/ d = 12 \/ d = 13 \/ d = 14 \/ d = 15) as Hc by lia.
  repeat (destruct Hc as [->|Hc]; [reflexivity|]). by subst d.
Qed.

Lemma octet_percent c l : octet (percent c ++ l) = Some (c, l).
Proof.
  unfold percent. cbn [app octet]. rewrite Ascii.eqb_refl.
  pose proof (code_bound c) as Hc.
  rewrite !hex_digit_value_upper by (split; [apply Z.div_pos || apply Z.mod_pos_bound; lia|];
    try (apply Z.div_lt_upper_bound; lia); apply Z.mod_pos_bound; lia).
  rewrite <-Z_div_mod_eq_full. by rewrite char_of_code_code.
Qed.

Lemma uri_unreserved_ascii c : uri_unreserved c = true -> code c < 128 /\ c <> "%"%char.
Proof. by destruct c as [[] [] [] [] [] [] [] []]; vm_compute. Qed.

Lemma uri_char_high c : 128 <= code c -> uri_char c = percent c.
Proof.
  intros Hc. unfold uri_char. destruct (uri_unreserved c) eqn:Hu; [|done].
  apply uri_unreserved_ascii in Hu. lia.
Qed.

Lemma octets_percent bs l :
  Forall (fun c => 128 <= code c) bs -> octets (length bs) (concat (map uri_char bs) ++ l) = Some (bs, l).
Proof.
  induction 1 as [|b bs Hb Hbs IH]; [done|]. cbn [length map concat octets].
  by rewrite uri_char_high, <-app_assoc, octet_percent, IH.
Qed.

Lemma decode_char_percent b bs l :
  following b = Some (length bs) -> Forall (fun c => 128 <= code c) bs -> utf8_valid (b :: bs) = true ->
  decode_char (percent b ++ concat (map uri_char bs) ++ l) = Some (b :: bs, l).
Proof.
  intros Hn Hbs Hv. unfold decode_char. unfold percent at 1. cbn [app]. rewrite Ascii.eqb_refl.
  change (octet _) with (octet (percent b ++ concat (map uri_char bs) ++ l)).
  by rewrite octet_percent, Hn, octets_percent, Hv.
Qed.

Lemma cont_high c : cont c = true -> 128 <= code c.
Proof. unfold cont, in_range. intros [H1 _]%andb_true_iff. by apply Z.leb_le. Qed.

Lemma second3_high a c : second3 a c = true -> 128 <= code c.
Proof.
  unfold second3, cont, in_range. destruct (_ =? _); [|destruct (_ =? _)]; rewrite andb_true_iff, Z.leb_le; lia.
Qed.

Lemma second4_high a c : second4 a c = true -> 128 <= code c.
Proof.
  unfold second4, cont, in_range. destruct (_ =? _); [|destruct (_ =? _)]; rewrite andb_true_iff, Z.leb_le; lia.
Qed.

Lemma decode_char_encoded q l : utf8_char q -> decode_char (concat (map uri_char q) ++ l) = Some (q, l).
Proof.
  intros Hq. assert (Hv : utf8_valid q = true) by (apply utf8_validP; rewrite <-(app_nil_r q); by constructor; [|constructor]).
  destruct Hq as [b0 H0|b0 b1 H0 H1|b0 b1 b2 H0 H1 H2|b0 b1 b2 b3 H0 H1 H2 H3]; cbn [map concat].
  - rewrite app_nil_r. unfold uri_char. destruct (uri_unreserved b0) eqn:Hu.
    + apply uri_unreserved_ascii in Hu as [_ Hu]. cbn. by rewrite (proj2 (Ascii.eqb_neq _ _) Hu).
    + apply (decode_char_percent b0 []); [|constructor|done]. unfold following.
      by rewrite (proj2 (Z.ltb_lt _ _)).
  - pose proof (cont_high _ H1). unfold in_range in H0. rewrite uri_char_high, <-app_assoc by lia.
    apply (decode_char_percent b0 [b1]); [|by repeat constructor|done]. unfold following, in_range.
    rewrite (proj2 (Z.ltb_ge _ _)) by lia. by rewrite (proj2 (Z.leb_le _ _)), (proj2 (Z.leb_le _ _)) by lia.
  - pose proof (cont_high _ H2). pose proof (second3_high _ _ H1). unfold in_range in H0.
    rewrite uri_char_high, <-app_assoc by lia.
    apply (decode_char_percent b0 [b1; b2]); [|by repeat constructor|done]. unfold following, in_range.
    rewrite (proj2 (Z.ltb_ge _ _)) by lia.
    rewrite (proj2 (andb_false_iff _ _)) by (right; apply Z.leb_gt; lia).
    by rewrite (proj2 (Z.leb_le _ _)), (proj2 (Z.leb_le _ _)) by lia.
  - pose proof (cont_high _ H2). pose proof (cont_high _ H3). pose proof (second4_high _ _ H1). unfold in_range in H0.
    rewrite uri_char_high, <-app_assoc by lia.
    apply (decode_char_percent b0 [b1; b2; b3]); [|by repeat constructor|done]. unfold following, in_range.
    rewrite (proj2 (Z.ltb_ge _ _)) by lia.
    rewrite !(proj2 (andb_false_iff _ _)) by (right; apply Z.leb_gt; lia).
    by rewrite (proj2 (Z.leb_le _ _)), (proj2 (Z.leb_le _ _)) by lia.
Qed.

(** A step consumes something. *)
Lemma octet_shorter l b l' : octet l = Some (b, l') -> (length l' < length l)%nat.
Proof.
  destruct l as [|p [|h1 [|h2 l]]]; try done. cbn. destruct (Ascii.eqb p "%"); [|done].
  destruct (hex_digit_value h1); [|done]. destruct (hex_digit_value h2); [|done]. intros [= _ <-]. lia.
Qed.

Lemma octets_shorter n l bs l' : octets n l = Some (bs, l') -> (length l' <= length l)%nat.
Proof.
  revert l bs. induction n as [|n IH]; intros l bs; cbn; [by intros [= _ <-]|].
  destruct (octet l) as [[b l1]|] eqn:Ho; [|done]. destruct (octets n l1) as [[bs1 l2]|] eqn:Hn; [|done].
  intros [= _ <-]. apply octet_shorter in Ho. apply IH in Hn. lia.
Qed.

Lemma decode_char_shorter l q l' : decode_char l = Some (q, l') -> (length l' < length l)%nat.
Proof.
  destruct l as [|c l]; [done|]. unfold decode_char. destruct (Ascii.eqb c "%"); [|intros [= _ <-]; cbn; lia].
  destruct (octet (c :: l)) as [[b l1]|] eqn:Ho; [|done]. apply octet_shorter in Ho.
  destruct (following b) as [n|]; [|done]. destruct (octets n l1) as [[bs l2]|] eqn:Hn; [|done].
  apply octets_shorter in Hn. destruct (utf8_valid _); [|done]. intros [= _ <-]. lia.
Qed.

(** More fuel than characters changes nothing. *)
Lemma decode_fuel_enough n m l :
  (length l <= n)%nat -> (length l <= m)%nat -> decode_fuel n l = decode_fuel m l.
Proof.
  revert m l. induction n as [|n IH]; intros m l Hn Hm.
  { destruct l; [by destruct m|cbn in Hn; lia]. }
  destruct l as [|c l]; [by destruct m|]. destruct m as [|m]; [cbn in Hm; lia|]. cbn [decode_fuel].
  destruct (decode_char (c :: l)) as [[q l']|] eqn:Hq; [|done]. apply decode_char_shorter in Hq.
  by rewrite (IH m l') by lia.
Qed.

(** What was encoded decodes to itself. *)
Lemma decode_encode_uri s : utf8 (chars s) -> decodeURIComponent (encodeURIComponent s) = Some s.
Proof.
  intros Hs. unfold decodeURIComponent, encodeURIComponent.
  rewrite <-length_chars, chars_of_chars.
  enough (He : forall l, utf8 l -> decode_fuel (length (concat (map uri_char l))) (concat (map uri_char l)) = Some l)
    by (rewrite (He _ Hs); cbn; by rewrite of_chars_chars).
  clear. induction 1 as [|q l Hq Hl IH]; [done|].
  rewrite map_app, concat_app. pose proof (decode_char_encoded q (concat (map uri_char l)) Hq) as Hd.
  pose proof (decode_char_shorter _ _ _ Hd) as Hlen.
  destruct (concat (map uri_char q) ++ concat (map uri_char l)) as [|c m] eqn:Hm; [done|].
  cbn [length decode_fuel]. rewrite Hd.
  rewrite (decode_fuel_enough _ (length (concat (map uri_char l)))), IH; [done| |lia].
  cbn in Hlen. lia.
Qed.
