(* ===== verification/Json.v ===== *)
(** * JSON values: [JSON.stringify], and the interface of [JSON.parse]

    A value is what [JSON.parse] builds.  A number is represented by the text
    [String(x)] gives for it, so that no property depends on floating point;
    a literal too large for a double is represented by [JNull], as
    [JSON.stringify] prints it.  An object is the list of its own properties in
    enumeration order. *)

From S2P Require Import Prelude Text.

Inductive json :=
| JNull
| JBool (b : bool)
| JNum (repr : string)
| JStr (s : string)
| JArr (l : list json)
| JObj (kvs : list (string * json)).

(** ** Induction through the nested lists *)

Section json_ind.
Context (P : json -> Prop).
Hypothesis Hnull : P JNull.
Hypothesis Hbool : forall b, P (JBool b).
Hypothesis Hnum : forall n, P (JNum n).
Hypothesis Hstr : forall s, P (JStr s).
Hypothesis Harr : forall l, Forall P l -> P (JArr l).
Hypothesis Hobj : forall kvs, Forall (fun kv => P kv.2) kvs -> P (JObj kvs).

Fixpoint json_ind' (v : json) : P v :=
  match v with
  | JNull => Hnull
  | JBool b => Hbool b
  | JNum n => Hnum n
  | JStr s => Hstr s
  | JArr l =>
      Harr l ((fix go (l : list json) : Forall P l :=
        match l with
        | [] => List.Forall_nil _
        | v :: l => List.Forall_cons _ _ _ (json_ind' v) (go l)
        end) l)
  | JObj kvs =>
      Hobj kvs ((fix go (kvs : list (string * json)) : Forall (fun kv => P kv.2) kvs :=
        match kvs with
        | [] => List.Forall_nil _
        | kv :: kvs => List.Forall_cons _ _ _ (json_ind' kv.2) (go kvs)
        end) kvs)
  end.
End json_ind.

(** ** [JSON.stringify] *)

Definition hex_digit (d : Z) : ascii :=
  if d <? 10 then char_of_code (48 + d) else char_of_code (87 + d).

Definition BACKSLASH : ascii := "092"%char.

(** QuoteJSONString, one character. *)
Definition escape_char (c : ascii) : string :=
  if Ascii.eqb c DQUOTE then String BACKSLASH (String DQUOTE EmptyString)
  else if Ascii.eqb c BACKSLASH then String BACKSLASH (String BACKSLASH EmptyString)
  else if code c =? 8 then "\b"
  else if code c =? 9 then "\t"
  else if code c =? 10 then "\n"
  else if code c =? 12 then "\f"
  else if code c =? 13 then "\r"
  else if code c <? 32 then
    "\u00" +:+ String (hex_digit (code c / 16)) (String (hex_digit (code c mod 16)) EmptyString)
  else String c EmptyString.

Fixpoint escape (s : string) : string :=
  match s with
  | EmptyString => EmptyString
  | String c s => escape_char c +:+ escape s
  end.

Definition quote (s : string) : string :=
  String DQUOTE (escape s +:+ String DQUOTE EmptyString).

(** [JSON.stringify(v)] *)
Fixpoint stringify (v : json) : string :=
  match v with
  | JNull => "null"
  | JBool true => "true"
  | JBool false => "false"
  | JNum n => n
  | JStr s => quote s
  | JArr l => "[" +:+ join "," (map stringify l) +:+ "]"
  | JObj kvs =>
      "{" +:+ join "," (map (fun kv => quote kv.1 +:+ ":" +:+ stringify kv.2) kvs) +:+ "}"
  end.

(** ** Objects *)

(** [obj[k]] on own properties. *)
Fixpoint obj_get (k : string) (kvs : list (string * json)) : option json :=
  match kvs with
  | [] => None
  | (k', v) :: kvs => if String.eqb k k' then Some v else obj_get k kvs
  end.

(** [{...obj, k: v}]: an existing property keeps its place. *)
Fixpoint obj_set (k : string) (v : json) (kvs : list (string * json)) : list (string * json) :=
  match kvs with
  | [] => [(k, v)]
  | (k', v') :: kvs =>
      if String.eqb k k' then (k', v) :: kvs else (k', v') :: obj_set k v kvs
  end.

(** ** Values [JSON.parse] can build *)

(** An array index: enumerated before the other keys, in numeric order. *)
Definition index_key (k : string) : option Z :=
  if all_digits k && (String.eqb k (js_String (digits_value k)))
     && (digits_value k <? 2 ^ 32 - 1)
  then Some (digits_value k) else None.

Fixpoint ascending (l : list Z) : bool :=
  match l with
  | a :: (b :: _) as l' => (a <? b) && ascending l'
  | _ => true
  end.

(** Keys in enumeration order: the array indices ascending, then the others. *)
Fixpoint keys_ordered (keys : list string) : bool :=
  match keys with
  | [] => true
  | k :: keys' =>
      match index_key k with
      | Some i =>
          ascending (i :: omap index_key keys') && keys_ordered keys'
      | None => forallb (fun k => bool_decide (index_key k = None)) keys'
      end
  end.

(** The language's parser and the texts [String(x)] yields for finite numbers. *)
Class JsonLib := {
  JSON_parse : string -> option json;
  number_text : string -> bool;
}.

Fixpoint json_wf `{JsonLib} (v : json) : bool :=
  match v with
  | JNull | JBool _ => true
  | JNum n => number_text n
  | JStr s => utf8_valid (chars s)
  | JArr l => forallb json_wf l
  | JObj kvs =>
      bool_decide (NoDup (map fst kvs)) && keys_ordered (map fst kvs) &&
      forallb (fun kv => utf8_valid (chars kv.1) && json_wf kv.2) kvs
  end.

(** A character of a number's text. *)
Definition number_char (c : ascii) : bool :=
  is_digit c || Ascii.eqb c "-" || Ascii.eqb c "+" || Ascii.eqb c "." || Ascii.eqb c "e".

(** What ECMA-262 promises of the two functions. *)
Class JsonLaws `{JsonLib} : Prop := {
  number_text_chars n :
    number_text n = true -> n <> EmptyString /\ all_chars number_char n = true;
  number_text_integer n : 0 <= n <= MAX_SAFE_INTEGER -> number_text (js_String n) = true;
  JSON_parse_wf t v : JSON_parse t = Some v -> json_wf v = true;
  JSON_parse_stringify v : json_wf v = true -> JSON_parse (stringify v) = Some v;
}.

(** ** Lemmas *)

Lemma escape_app s t : escape (s +:+ t) = escape s +:+ escape t.
Proof.
  induction s as [|c s IH]; [done|].
  rewrite string_app_cons. cbn [escape]. by rewrite IH, string_app_assoc.
Qed.

Lemma escape_char_high c : 128 <= code c -> escape_char c = String c EmptyString.
Proof.
  intros H. unfold escape_char.
  destruct (Ascii.eqb_spec c DQUOTE) as [->|]; [done|].
  destruct (Ascii.eqb_spec c BACKSLASH) as [->|]; [done|].
  repeat match goal with
  | |- context [code c =? ?n] => rewrite (proj2 (Z.eqb_neq (code c) n)) by lia
  end.
  by rewrite (proj2 (Z.ltb_ge (code c) 32)) by lia.
Qed.

Lemma escape_char_ascii_chars c : code c < 128 ->
  Forall (fun c => code c < 128) (chars (escape_char c)).
Proof.
  intros H.
  assert (Hall : forallb (fun n => let c := ascii_of_nat n in
    (128 <=? code c) || forallb (fun c => code c <? 128) (chars (escape_char c)))
    (seq 0 256) = true) by (vm_compute; reflexivity).
  rewrite forallb_forall in Hall. specialize (Hall (nat_of_ascii c)).
  cbn zeta in Hall. rewrite ascii_nat_embedding in Hall.
  rewrite (proj2 (Z.leb_gt 128 (code c))) in Hall by done. cbn [orb] in Hall.
  rewrite forallb_forall in Hall.
  assert (In (nat_of_ascii c) (seq 0 256)) as Hin.
  { apply in_seq. pose proof (nat_ascii_bounded c). lia. }
  apply Forall_forall. intros x Hx. apply Z.ltb_lt, (Hall Hin), Hx.
Qed.

Lemma utf8_escape s : utf8 (chars s) -> utf8 (chars (escape s)).
Proof.
  intros H. rewrite <-(of_chars_chars s). induction H as [|q l Hq Hl IH]; [constructor|].
  rewrite of_chars_app, escape_app, chars_app. apply utf8_app_closed; [|done].
  destruct (utf8_char_cases q Hq) as [(c & -> & Hc)|Hhigh].
  - cbn [of_chars escape]. rewrite string_app_nil_r.
    by apply utf8_ascii, escape_char_ascii_chars.
  - assert (escape (of_chars q) = of_chars q) as ->;
      [|rewrite chars_of_chars; by apply utf8_char_utf8].
    clear -Hhigh. induction Hhigh as [|c q Hc Hq IH]; [done|]. cbn [escape of_chars].
    by rewrite escape_char_high, IH.
Qed.

Lemma chars_quote s : chars (quote s) = DQUOTE :: chars (escape s) ++ [DQUOTE].
Proof. unfold quote. cbn [chars]. by rewrite chars_app. Qed.

Lemma utf8_quote s : utf8 (chars s) -> utf8 (chars (quote s)).
Proof.
  intros H. rewrite chars_quote. apply utf8_cons_ascii; [by vm_compute|].
  apply utf8_app_closed; [by apply utf8_escape|]. apply utf8_ascii. repeat constructor.
Qed.

Lemma utf8_join sep l :
  utf8 (chars sep) -> Forall (fun s => utf8 (chars s)) l -> utf8 (chars (join sep l)).
Proof.
  intros Hsep. induction 1 as [|s l Hs Hl IH]; [constructor|].
  destruct l as [|s' l]; [done|]. cbn [join]. rewrite !chars_app.
  by repeat apply utf8_app_closed.
Qed.

Lemma number_char_ascii c : number_char c = true -> code c < 128.
Proof.
  unfold number_char, is_digit. rewrite !orb_true_iff, andb_true_iff, !Z.leb_le.
  intros [[[[?| ->%Ascii.eqb_eq]| ->%Ascii.eqb_eq]| ->%Ascii.eqb_eq]| ->%Ascii.eqb_eq];
    [lia|by vm_compute..].
Qed.

Section stringify.
Context `{JsonLaws}.

Lemma number_text_ascii n :
  number_text n = true -> Forall (fun c => code c < 128) (chars n).
Proof.
  intros [_ Hn]%number_text_chars. unfold all_chars in Hn.
  rewrite forallb_forall in Hn. apply List.Forall_forall. intros c Hc.
  by apply number_char_ascii, Hn.
Qed.

Lemma utf8_stringify v : json_wf v = true -> utf8 (chars (stringify v)).
Proof.
  induction v as [|b|n|s|l IH|kvs IH] using json_ind'; cbn [json_wf stringify]; intros Hwf.
  - apply utf8_ascii. repeat constructor.
  - apply utf8_ascii. destruct b; repeat constructor.
  - by apply utf8_ascii, number_text_ascii.
  - by apply utf8_quote, utf8_validP.
  - rewrite !chars_app. apply utf8_cons_ascii; [by vm_compute|]. cbn [app].
    apply utf8_app_closed; [|by apply utf8_ascii; repeat constructor].
    apply utf8_join; [by apply utf8_ascii; repeat constructor|].
    rewrite forallb_forall in Hwf. apply List.Forall_map.
    rewrite List.Forall_forall in IH |- *. intros v Hv. by apply IH, Hwf.
  - rewrite !andb_true_iff in Hwf. destruct Hwf as [_ Hwf].
    rewrite !chars_app. apply utf8_cons_ascii; [by vm_compute|]. cbn [app].
    apply utf8_app_closed; [|by apply utf8_ascii; repeat constructor].
    apply utf8_join; [by apply utf8_ascii; repeat constructor|].
    rewrite forallb_forall in Hwf. apply List.Forall_map.
    rewrite List.Forall_forall in IH |- *. intros kv Hkv. specialize (Hwf kv Hkv).
    apply andb_true_iff in Hwf as [Hk Hv]. rewrite !chars_app.
    apply utf8_app_closed; [by apply utf8_quote, utf8_validP|].
    apply utf8_cons_ascii; [by vm_compute|]. by apply IH.
Qed.

(** The text of a value starts with an ASCII character. *)
Lemma stringify_head v :
  json_wf v = true -> exists c s, stringify v = String c s /\ code c < 128.
Proof.
  destruct v as [|[]|n|s|l|kvs]; cbn [json_wf stringify]; intros Hwf;
    try by (eexists _, _; split; [reflexivity|by vm_compute]).
  destruct n as [|c n].
  { by apply number_text_chars in Hwf as [[] _]. }
  apply number_text_ascii in Hwf. inversion Hwf; subst. eauto.
Qed.

Lemma stringify_nonempty v : json_wf v = true -> stringify v <> EmptyString.
Proof. by intros (c & s & -> & _)%stringify_head. Qed.

Lemma json_wf_arr l : json_wf (JArr l) = true <-> Forall (fun v => json_wf v = true) l.
Proof. cbn. by rewrite forallb_forall, List.Forall_forall. Qed.
End stringify.

(** [obj_set] keeps an object in the shape [JSON.parse] builds, for a key that
    is not an array index. *)
Section obj_set.
Context (k : string) (v : json).

Lemma obj_set_keys kvs :
  map fst (obj_set k v kvs) =
  if decide (k ∈ map fst kvs) then map fst kvs else map fst kvs ++ [k].
Proof.
  induction kvs as [|[k' v'] kvs IH]; cbn [obj_set map fst].
  { by rewrite decide_False by (apply not_elem_of_nil). }
  destruct (String.eqb_spec k k') as [->|Hne]; cbn [map fst].
  { by rewrite decide_True by (by left). }
  rewrite IH. destruct (decide (k ∈ map fst kvs)).
  - by rewrite decide_True by (by right).
  - by rewrite decide_False by (rewrite elem_of_cons; naive_solver).
Qed.

Hypothesis Hk : index_key k = None.

Lemma keys_ordered_snoc keys :
  keys_ordered keys = true -> keys_ordered (keys ++ [k]) = true.
Proof.
  induction keys as [|k' keys IH]; cbn [keys_ordered app].
  { by rewrite Hk. }
  destruct (index_key k') as [i|] eqn:Hi.
  - rewrite !andb_true_iff. intros [Ha Ho]. split; [|by apply IH].
    rewrite omap_app. cbn [omap list_omap]. rewrite Hk, app_nil_r. done.
  - rewrite forallb_app. intros ->. cbn. rewrite Hk. done.
Qed.
End obj_set.
