(* ===== verification/Types.v ===== *)
(** * Types: the data of [packages/server/src/types.ts] and the store's errors

    Field names carry a short prefix where two interfaces share one.  An
    optional field is an [option]; [closed] and [softDeleted], which the code
    only reads with [?? false] or for truth, are booleans. *)

From S2P Require Import Prelude Offsets Producer Text.

Record StreamMessage := mkStreamMessage {
  msg_data : bytes;
  msg_offset : string;
  msg_timestamp : Z;
}.

(** The producer tuple that closed a stream. *)
Record ClosedBy := mkClosedBy {
  cb_producerId : string;
  cb_epoch : option Z;
  cb_seq : option Z;
}.

Record Stream := mkStream {
  path : string;
  contentType : option string;
  messages : list StreamMessage;
  currentOffset : string;
  st_lastSeq : option string;
  ttlSeconds : option Z;
  expiresAt : option string;
  createdAt : Z;
  lastAccessedAt : Z;
  producers : option (gmap string ProducerState);
  closed : bool;
  closedBy : option ClosedBy;
  forkedFrom : option string;
  forkOffset : option string;
  forkSubOffset : option Z;
  refCount : Z;
  softDeleted : bool;
}.

(** ** Assignments to the fields of a stream *)

Definition set_messages (ms : list StreamMessage) (o : string) (s : Stream) : Stream :=
  mkStream (path s) (contentType s) ms o (st_lastSeq s) (ttlSeconds s) (expiresAt s)
    (createdAt s) (lastAccessedAt s) (producers s) (closed s) (closedBy s)
    (forkedFrom s) (forkOffset s) (forkSubOffset s) (refCount s) (softDeleted s).
Definition set_lastSeq (q : option string) (s : Stream) : Stream :=
  mkStream (path s) (contentType s) (messages s) (currentOffset s) q (ttlSeconds s)
    (expiresAt s) (createdAt s) (lastAccessedAt s) (producers s) (closed s) (closedBy s)
    (forkedFrom s) (forkOffset s) (forkSubOffset s) (refCount s) (softDeleted s).
Definition set_lastAccessedAt (t : Z) (s : Stream) : Stream :=
  mkStream (path s) (contentType s) (messages s) (currentOffset s) (st_lastSeq s)
    (ttlSeconds s) (expiresAt s) (createdAt s) t (producers s) (closed s) (closedBy s)
    (forkedFrom s) (forkOffset s) (forkSubOffset s) (refCount s) (softDeleted s).
Definition set_producers (m : gmap string ProducerState) (s : Stream) : Stream :=
  mkStream (path s) (contentType s) (messages s) (currentOffset s) (st_lastSeq s)
    (ttlSeconds s) (expiresAt s) (createdAt s) (lastAccessedAt s) (Some m) (closed s)
    (closedBy s) (forkedFrom s) (forkOffset s) (forkSubOffset s) (refCount s)
    (softDeleted s).
Definition set_closed (b : bool) (s : Stream) : Stream :=
  mkStream (path s) (contentType s) (messages s) (currentOffset s) (st_lastSeq s)
    (ttlSeconds s) (expiresAt s) (createdAt s) (lastAccessedAt s) (producers s) b
    (closedBy s) (forkedFrom s) (forkOffset s) (forkSubOffset s) (refCount s)
    (softDeleted s).
Definition set_closedBy (c : option ClosedBy) (s : Stream) : Stream :=
  mkStream (path s) (contentType s) (messages s) (currentOffset s) (st_lastSeq s)
    (ttlSeconds s) (expiresAt s) (createdAt s) (lastAccessedAt s) (producers s) (closed s)
    c (forkedFrom s) (forkOffset s) (forkSubOffset s) (refCount s) (softDeleted s).
Definition set_forkSubOffset (n : option Z) (s : Stream) : Stream :=
  mkStream (path s) (contentType s) (messages s) (currentOffset s) (st_lastSeq s)
    (ttlSeconds s) (expiresAt s) (createdAt s) (lastAccessedAt s) (producers s) (closed s)
    (closedBy s) (forkedFrom s) (forkOffset s) n (refCount s) (softDeleted s).
Definition set_refCount (n : Z) (s : Stream) : Stream :=
  mkStream (path s) (contentType s) (messages s) (currentOffset s) (st_lastSeq s)
    (ttlSeconds s) (expiresAt s) (createdAt s) (lastAccessedAt s) (producers s) (closed s)
    (closedBy s) (forkedFrom s) (forkOffset s) (forkSubOffset s) n (softDeleted s).
Definition set_softDeleted (b : bool) (s : Stream) : Stream :=
  mkStream (path s) (contentType s) (messages s) (currentOffset s) (st_lastSeq s)
    (ttlSeconds s) (expiresAt s) (createdAt s) (lastAccessedAt s) (producers s) (closed s)
    (closedBy s) (forkedFrom s) (forkOffset s) (forkSubOffset s) (refCount s) b.

(** ** The errors the store throws *)

Inductive StoreError :=
| StreamNotFound (p : string)
| StreamSoftDeleted (p : string)
| ActiveForks (p : string)
| ConfigMismatch (p : string)
| SourceNotFound (p : string)
| SourceSoftDeleted (p : string)
| SourceContentTypeMismatch
| InvalidForkOffset (o : string)
| InvalidForkSubOffset (why : string)
| ContentTypeMismatch (expected got : string)
| SequenceConflict (seq last : string)
| InvalidJson
| EmptyArray
| StackOverflow.

#[export] Instance StoreError_eq_dec : EqDecision StoreError.
Proof. solve_decision. Defined.

(** U+2014, the dash of one of the messages. *)
Definition EM_DASH : string :=
  of_chars [char_of_code 226; char_of_code 128; char_of_code 148].

(** [err.message] *)
Definition error_message (e : StoreError) : string :=
  match e with
  | StreamNotFound p => "Stream not found: " +:+ p
  | StreamSoftDeleted p => "Stream is soft-deleted: " +:+ p
  | ActiveForks p =>
      "Stream has active forks " +:+ EM_DASH +:+
      " path cannot be reused until all forks are removed: " +:+ p
  | ConfigMismatch p => "Stream already exists with different configuration: " +:+ p
  | SourceNotFound p => "Source stream not found: " +:+ p
  | SourceSoftDeleted p => "Source stream is soft-deleted: " +:+ p
  | SourceContentTypeMismatch => "Content type mismatch with source stream"
  | InvalidForkOffset o => "Invalid fork offset: " +:+ o
  | InvalidForkSubOffset why => "Invalid fork sub-offset: " +:+ why
  | ContentTypeMismatch expected got =>
      "Content-type mismatch: expected " +:+ expected +:+ ", got " +:+ got
  | SequenceConflict seq last => "Sequence conflict: " +:+ seq +:+ " <= " +:+ last
  | InvalidJson => "Invalid JSON"
  | EmptyArray => "Empty arrays are not allowed"
  | StackOverflow => "Maximum call stack size exceeded"
  end.
