(* ===== verification/JsonInstance.v ===== *)
(** * A JSON parser: an instance of the interface of [JSON.parse]

    The properties about JSON hold for every [JSON_parse] that satisfies
    [JsonLaws].  This file shows that the laws can be met, and gives the
    witnesses a parser that computes.  Its numbers are integers in canonical
    decimal form, and an object literal must list its keys once each in
    enumeration order. *)

From S2P Require Import Prelude Text Json.

(** ** The parser *)

Definition json_space (c : ascii) : bool :=
  (code c =? 32) || (code c =? 9) || (code c =? 10) || (code c =? 13).

Fixpoint skip (l : list ascii) : list ascii :=
  match l with
  | c :: l' => if json_space c then skip l' else l
  | [] => []
  end.

Definition hex_value (c : ascii) : option Z :=
  if is_digit c then Some (code c - 48)
  else if (97 <=? code c) && (code c <=? 102) then Some (code c - 87)
  else None.

Fixpoint parse_string (l : list ascii) : option (list ascii * list ascii) :=
  match l with
  | [] => None
  | c :: l =>
      if Ascii.eqb c DQUOTE then Some ([], l)
      else if Ascii.eqb c BACKSLASH then
        match l with
        | "u"%char :: "0"%char :: "0"%char :: a :: b :: l =>
            match hex_value a, hex_value b, parse_string l with
            | Some x, Some y, Some (s, l) =>
                if 16 * x + y <? 128 then Some (char_of_code (16 * x + y) :: s, l) else None
            | _, _, _ => None
            end
        | e :: l =>
            match
              (if Ascii.eqb e DQUOTE then Some DQUOTE
               else if Ascii.eqb e BACKSLASH then Some BACKSLASH
               else if Ascii.eqb e "/" then Some e
               else if Ascii.eqb e "b" then Some (char_of_code 8)
               else if Ascii.eqb e "t" then Some (char_of_code 9)
               else if Ascii.eqb e "n" then Some (char_of_code 10)
               else if Ascii.eqb e "f" then Some (char_of_code 12)
               else if Ascii.eqb e "r" then Some (char_of_code 13)
               else None), parse_string l
            with
            | Some c, Some (s, l) => Some (c :: s, l)
            | _, _ => None
            end
        | [] => None
        end
      else if code c <? 32 then None
      else match parse_string l with
           | Some (s, l) => Some (c :: s, l)
           | None => None
           end
  end.

Fixpoint span_number (l : list ascii) : list ascii * list ascii :=
  match l with
  | c :: l' =>
      if number_char c then let p := span_number l' in (c :: p.1, p.2) else ([], l)
  | [] => ([], [])
  end.

(** A safe integer in canonical form. *)
Definition integer_text (n : string) : bool :=
  match n with
  | String "-" m =>
      negb (String.eqb m "") && all_digits m && (0 <? digits_value m) &&
      (digits_value m <=? MAX_SAFE_INTEGER) && String.eqb m (js_String (digits_value m))
  | _ =>
      negb (String.eqb n "") && all_digits n &&
      (digits_value n <=? MAX_SAFE_INTEGER) && String.eqb n (js_String (digits_value n))
  end.

Fixpoint strip_prefix (p l : list ascii) : option (list ascii) :=
  match p, l with
  | [], _ => Some l
  | a :: p, b :: l => if Ascii.eqb a b then strip_prefix p l else None
  | _ :: _, [] => None
  end.

Definition parse_atom (l : list ascii) : option (json * list ascii) :=
  match l with
  | c :: l' =>
      if Ascii.eqb c DQUOTE then
        match parse_string l' with
        | Some (s, l) => Some (JStr (of_chars s), l)
        | None => None
        end
      else if number_char c then
        let p := span_number l in
        if integer_text (of_chars p.1) then Some (JNum (of_chars p.1), p.2) else None
      else
        match strip_prefix (chars "null") l with
        | Some l => Some (JNull, l)
        | None =>
            match strip_prefix (chars "true") l with
            | Some l => Some (JBool true, l)
            | None =>
                match strip_prefix (chars "false") l with
                | Some l => Some (JBool false, l)
                | None => None
                end
            end
        end
  | [] => None
  end.

Fixpoint parse_value (fuel : nat) (l : list ascii) : option (json * list ascii) :=
  match fuel with
  | O => None
  | S fuel =>
      match skip l with
      | "["%char :: l =>
          match skip l with
          | "]"%char :: l => Some (JArr [], l)
          | l => match parse_elements fuel l with
                 | Some (vs, l) => Some (JArr vs, l)
                 | None => None
                 end
          end
      | "{"%char :: l =>
          match skip l with
          | "}"%char :: l => Some (JObj [], l)
          | l => match parse_members fuel l with
                 | Some (kvs, l) => Some (JObj kvs, l)
                 | None => None
                 end
          end
      | l => parse_atom l
      end
  end
with parse_elements (fuel : nat) (l : list ascii) : option (list json * list ascii) :=
  match fuel with
  | O => None
  | S fuel =>
      match parse_value fuel l with
      | Some (v, l) =>
          match skip l with
          | "]"%char :: l => Some ([v], l)
          | ","%char :: l =>
              match parse_elements fuel l with
              | Some (vs, l) => Some (v :: vs, l)
              | None => None
              end
          | _ => None
          end
      | None => None
      end
  end
with parse_members (fuel : nat) (l : list ascii) : option (list (string * json) * list ascii) :=
  match fuel with
  | O => None
  | S fuel =>
      match skip l with
      | c :: l =>
          if Ascii.eqb c DQUOTE then
            match parse_string l with
            | Some (k, l) =>
                match skip l with
                | ":"%char :: l =>
                    match parse_value fuel l with
                    | Some (v, l) =>
                        match skip l with
                        | "}"%char :: l => Some ([(of_chars k, v)], l)
                        | ","%char :: l =>
                            match parse_members fuel l with
                            | Some (kvs, l) => Some ((of_chars k, v) :: kvs, l)
                            | None => None
                            end
                        | _ => None
                        end
                    | None => None
                    end
                | _ => None
                end
            | None => None
            end
          else None
      | [] => None
      end
  end.

(** [json_wf] with the numbers of this instance. *)
Fixpoint parsed_wf (v : json) : bool :=
  match v with
  | JNull | JBool _ => true
  | JNum n => integer_text n
  | JStr s => utf8_valid (chars s)
  | JArr l => forallb parsed_wf l
  | JObj kvs =>
      bool_decide (NoDup (map fst kvs)) && keys_ordered (map fst kvs) &&
      forallb (fun kv => utf8_valid (chars kv.1) && parsed_wf kv.2) kvs
  end.

Definition parse (t : string) : option json :=
  match parse_value (S (String.length t)) (chars t) with
  | Some (v, l) =>
      match skip l with
      | [] => if parsed_wf v then Some v else None
      | _ => None
      end
  | None => None
  end.

Definition integer_json : JsonLib :=
  {| JSON_parse := parse; number_text := integer_text |}.

(** A JSON text written with apostrophes for double quotes. *)
Fixpoint json_text (s : string) : string :=
  match s with
  | EmptyString => EmptyString
  | String c s => String (if Ascii.eqb c "'" then DQUOTE else c) (json_text s)
  end.

Example parse_example :
  parse (json_text "[1, {'a': 'x\ny', 'b': [null, true, -20]}]") =
  Some (JArr [JNum "1"; JObj [("a", JStr (String "x" (String LF "y")));
    ("b", JArr [JNull; JBool true; JNum "-20"])]]).
Proof. vm_compute. reflexivity. Qed.

(** ** The laws hold *)

Lemma json_wf_parsed v : @json_wf integer_json v = parsed_wf v.
Proof.
  induction v as [| | | |l IH|kvs IH] using json_ind'; try done; cbn.
  - induction IH as [|v l Hv Hl IH]; [done|]. cbn. by rewrite Hv, IH.
  - f_equal. induction IH as [|kv kvs Hv Hl IH]; [done|]. cbn. by rewrite Hv, IH.
Qed.

(** The text after a value does not prolong it. *)
Definition stops (l : list ascii) : Prop :=
  match l with
  | [] => True
  | c :: _ => number_char c = false
  end.

Lemma span_number_app l rest :
  forallb number_char l = true -> stops rest -> span_number (l ++ rest) = (l, rest).
Proof.
  intros Hl Hr. induction l as [|c l IH]; cbn in *.
  - destruct rest as [|c rest]; [done|]. cbn in *. by rewrite Hr.
  - apply andb_true_iff in Hl as [Hc Hl]. by rewrite Hc, IH.
Qed.

Lemma parse_escape_char c l :
  parse_string (chars (escape_char c) ++ l) =
  match parse_string l with Some (s, l) => Some (c :: s, l) | None => None end.
Proof.
  destruct c as [[] [] [] [] [] [] [] []]; reflexivity.
Qed.

Lemma parse_string_escape s rest :
  parse_string (chars (escape s) ++ DQUOTE :: rest) = Some (chars s, rest).
Proof.
  induction s as [|c s IH]; [reflexivity|]. cbn [escape].
  by rewrite chars_app, <-(assoc_L (++)), parse_escape_char, IH.
Qed.

Lemma integer_text_chars n :
  integer_text n = true -> n <> EmptyString /\ all_chars number_char n = true.
Proof.
  assert (Hd : forall m, all_digits m = true -> all_chars number_char m = true).
  { intros m. unfold all_digits, all_chars. rewrite andb_true_iff, !forallb_forall.
    intros [_ Hm] c Hc. unfold number_char. by rewrite (Hm c Hc). }
  unfold integer_text. intros Hn. destruct n as [|c n]; [done|]. split; [done|].
  assert (all_digits (String c n) = true \/ c = "-"%char /\ all_digits n = true) as [?|[-> ?]].
  { destruct c as [[] [] [] [] [] [] [] []]; rewrite ?andb_true_iff in Hn;
      first [left; tauto | right; split; [reflexivity|tauto]]. }
  - by apply Hd.
  - rewrite all_chars_cons. by rewrite Hd.
Qed.

Lemma skip_nonspace c l : json_space c = false -> skip (c :: l) = c :: l.
Proof. intros H. cbn. by rewrite H. Qed.

(** The first character of a value. *)
Lemma value_head v :
  parsed_wf v = true ->
  exists c s, chars (stringify v) = c :: s /\ json_space c = false /\
    c <> "]"%char /\ c <> "}"%char.
Proof.
  destruct v as [|[]|n|s|l|kvs]; cbn [parsed_wf]; intros Hwf;
    try (by eexists _, _; split_and!; [reflexivity|..]).
  apply integer_text_chars in Hwf as [Hne Hn]. destruct n as [|c n]; [done|].
  exists c, (chars n). cbn in Hn. apply andb_true_iff in Hn as [Hc _].
  split_and!; [done| |intros ->; done..].
  destruct (json_space c) eqn:Hs; [|done].
  unfold json_space, number_char, is_digit in *.
  rewrite ?orb_true_iff, ?andb_true_iff, ?Z.leb_le, ?Z.eqb_eq in Hs.
  rewrite !orb_true_iff, andb_true_iff, !Z.leb_le in Hc.
  destruct Hc as [[[[?| ->%Ascii.eqb_eq]| ->%Ascii.eqb_eq]| ->%Ascii.eqb_eq]| ->%Ascii.eqb_eq];
    [lia|vm_compute in Hs; lia..].
Qed.

Lemma skip_value v rest :
  parsed_wf v = true ->
  skip (chars (stringify v) ++ rest) = chars (stringify v) ++ rest.
Proof. intros (c & s & -> & Hc & _)%value_head. by apply skip_nonspace. Qed.

Lemma stringify_length v : parsed_wf v = true -> (0 < String.length (stringify v))%nat.
Proof. intros (c & s & H & _)%value_head. rewrite <-length_chars, H. cbn. lia. Qed.

Lemma parse_number n rest :
  integer_text n = true -> stops rest ->
  parse_atom (chars n ++ rest) = Some (JNum n, rest).
Proof.
  intros Hn Hr. destruct (integer_text_chars n Hn) as [Hne Hc].
  unfold parse_atom. destruct n as [|c n]; [done|]. cbn [chars app].
  assert (number_char c = true) as Hc1 by (cbn in Hc; by apply andb_true_iff in Hc as [? _]).
  destruct (Ascii.eqb_spec c DQUOTE) as [->|_]; [done|]. rewrite Hc1.
  change (c :: chars n ++ rest) with (chars (String c n) ++ rest).
  rewrite span_number_app by done. cbn [fst snd]. by rewrite of_chars_chars, Hn.
Qed.

(** A value that is not an array or an object is read by [parse_atom]. *)
Lemma parse_value_atom f l :
  match skip l with
  | "["%char :: _ | "{"%char :: _ => False
  | _ => True
  end -> parse_value (S f) l = parse_atom (skip l).
Proof.
  cbn [parse_value]. destruct (skip l) as [|c l']; [done|].
  destruct c as [[] [] [] [] [] [] [] []]; first [reflexivity|contradiction].
Qed.

Section members.
Definition reads (v : json) : Prop :=
  forall f rest, parsed_wf v = true -> stops rest ->
    (String.length (stringify v) < f)%nat ->
    parse_value f (chars (stringify v) ++ rest) = Some (v, rest).

Lemma parse_elements_values vs f rest :
  Forall reads vs -> vs <> [] -> forallb parsed_wf vs = true ->
  (String.length (join "," (map stringify vs)) + 1 < f)%nat ->
  parse_elements f (chars (join "," (map stringify vs)) ++ "]"%char :: rest) =
  Some (vs, rest).
Proof.
  intros Hvs. revert f. induction Hvs as [|v vs Hv Hvs IH]; intros f Hne Hwf Hf; [done|].
  cbn [forallb] in Hwf. apply andb_true_iff in Hwf as [Hw Hws].
  destruct f as [|f]; [lia|]. cbn [parse_elements].
  destruct vs as [|v' vs]; cbn [map join] in *.
  - rewrite Hv by (done || lia). reflexivity.
  - rewrite !chars_app, <-!(assoc_L (++)). cbn [chars app].
    rewrite !string_length_app in Hf. cbn [String.length] in Hf.
    rewrite Hv by (done || lia). rewrite skip_nonspace by reflexivity.
    cbn [map join] in IH. rewrite IH by (done || lia). done.
Qed.

Lemma parse_members_values (kvs : list (string * json)) f rest :
  Forall (fun kv => reads kv.2) kvs -> kvs <> [] ->
  forallb (fun kv => utf8_valid (chars kv.1) && parsed_wf kv.2) kvs = true ->
  let t := join "," (map (fun kv => quote kv.1 +:+ ":" +:+ stringify kv.2) kvs) in
  (String.length t + 1 < f)%nat ->
  parse_members f (chars t ++ "}"%char :: rest) = Some (kvs, rest).
Proof.
  intros Hvs. revert f.
  induction Hvs as [|[k v] kvs Hv Hvs IH]; intros f Hne Hwf t Hf; [done|].
  cbn [forallb fst snd] in Hwf. rewrite !andb_true_iff in Hwf. destruct Hwf as [[_ Hw] Hws].
  destruct f as [|f]; [lia|]. subst t. cbn [parse_members].
  assert (Hq : forall r, parse_string (chars (escape k) ++ DQUOTE :: r) = Some (chars k, r))
    by (intros; apply parse_string_escape).
  destruct kvs as [|kv kvs]; cbn [map join fst snd] in *.
  - rewrite !chars_app, chars_quote, !string_length_app in *. cbn [chars app String.length] in *.
    rewrite skip_nonspace, Ascii.eqb_refl, <-!(assoc_L (++)) by reflexivity. cbn [app].
    rewrite Hq, skip_nonspace by reflexivity. rewrite Hv by (done || lia).
    rewrite skip_nonspace, of_chars_chars by reflexivity. done.
  - rewrite !chars_app, chars_quote, !string_length_app in *. cbn [chars app String.length] in *.
    rewrite skip_nonspace, Ascii.eqb_refl, <-!(assoc_L (++)) by reflexivity. cbn [app].
    rewrite Hq, skip_nonspace by reflexivity. rewrite Hv by (done || lia).
    rewrite skip_nonspace, of_chars_chars by reflexivity.
    rewrite IH by (done || lia). done.
Qed.
End members.

Lemma parse_value_stringify v : reads v.
Proof.
  induction v as [|b|n|s|l IH|kvs IH] using json_ind'; intros f rest Hwf Hr Hf;
    (destruct f as [|f]; [lia|]).
  - reflexivity.
  - destruct b; reflexivity.
  - rewrite parse_value_atom; rewrite (skip_value (JNum n)) by done; [by apply parse_number|].
    destruct (value_head (JNum n) Hwf) as (c & t & Ht & _). cbn in Hwf, Ht |- *.
    apply integer_text_chars in Hwf as [_ Hc]. unfold all_chars in Hc. rewrite Ht in Hc |- *.
    apply andb_true_iff in Hc as [Hc _]. cbn.
    destruct c as [[] [] [] [] [] [] [] []]; done.
  - cbn [stringify]. rewrite chars_quote. cbn [app]. rewrite <-(assoc_L (++)).
    cbn [parse_value]. rewrite skip_nonspace by reflexivity. cbn [parse_atom].
    change (parse_atom (DQUOTE :: chars (escape s) ++ DQUOTE :: rest) = Some (JStr s, rest)).
    unfold parse_atom. by rewrite Ascii.eqb_refl, parse_string_escape, of_chars_chars.
  - cbn [stringify]. rewrite !chars_app. cbn [chars app parse_value].
    rewrite skip_nonspace by reflexivity. rewrite <-(assoc_L (++)). cbn [app].
    destruct l as [|v l]; [reflexivity|].
    assert (Hel : parse_elements f (chars (join "," (map stringify (v :: l))) ++ "]"%char :: rest)
                  = Some (v :: l, rest)).
    { apply parse_elements_values; [done..|]. cbn [stringify] in Hf.
      rewrite !string_length_app in Hf. cbn [String.length] in Hf. lia. }
    cbn [parsed_wf forallb] in Hwf. apply andb_true_iff in Hwf as [Hw _].
    destruct (value_head v Hw) as (c & t & Hs & Hc & Hc1 & _).
    assert (exists u, chars (join "," (map stringify (v :: l))) = c :: u) as [u Hu].
    { destruct l; cbn [map join]; rewrite ?chars_app, Hs; by eexists. }
    rewrite Hu in *. cbn [app] in *. rewrite skip_nonspace by done.
    clear -Hc1 Hel. destruct c as [[] [] [] [] [] [] [] []]; first [by rewrite Hel|done].
  - cbn [stringify]. rewrite !chars_app. cbn [chars app parse_value].
    rewrite skip_nonspace by reflexivity. rewrite <-(assoc_L (++)). cbn [app].
    destruct kvs as [|kv kvs]; [reflexivity|].
    cbn [parsed_wf] in Hwf. rewrite !andb_true_iff in Hwf. destruct Hwf as [_ Hwf].
    set (t := join "," _) in *.
    assert (Hmem : parse_members f (chars t ++ "}"%char :: rest) = Some (kv :: kvs, rest)).
    { apply parse_members_values; [done..|]. cbn [stringify] in Hf.
      rewrite !string_length_app in Hf. cbn [String.length] in Hf. subst t. lia. }
    assert (exists u, chars t = DQUOTE :: u) as [u Hu].
    { subst t. destruct kvs; cbn [map join]; rewrite ?chars_app, chars_quote; by eexists. }
    rewrite Hu in *. cbn [app] in *. rewrite skip_nonspace by reflexivity.
    change (match parse_members f (DQUOTE :: u ++ "}"%char :: rest) with
            | Some (kvs, l) => Some (JObj kvs, l) | None => None
            end = Some (JObj (kv :: kvs), rest)).
    by rewrite Hmem.
Qed.

Lemma integer_json_laws : @JsonLaws integer_json.
Proof.
  split; cbn.
  - apply integer_text_chars.
  - intros n Hn. destruct (js_String_digits n ltac:(lia)) as [Hd Hv].
    assert (Hne : js_String n <> EmptyString) by (intros He; rewrite He in Hd; discriminate Hd).
    unfold integer_text. destruct (js_String n) as [|c t] eqn:Hs; [done|].
    assert (Hb : (digits_value (String c t) <=? MAX_SAFE_INTEGER) = true) by (apply Z.leb_le; lia).
    assert (Hc : c <> "-"%char) by (intros ->; discriminate Hd).
    rewrite Hd, Hb, Hv, Hs, String.eqb_refl.
    destruct c as [[] [] [] [] [] [] [] []]; try reflexivity. by destruct Hc.
  - unfold parse. intros t v. destruct (parse_value _ _) as [[v' l]|]; [|done].
    destruct (skip l); [|done]. destruct (parsed_wf v') eqn:Hwf; [|done].
    intros [= <-]. by rewrite json_wf_parsed.
  - intros v. rewrite json_wf_parsed. intros Hwf. unfold parse.
    rewrite <-(app_nil_r (chars (stringify v))), parse_value_stringify by (done || lia).
    cbn. by rewrite Hwf.
Qed.
