(* ===== verification/JsonMode.v ===== *)
(** * JSON mode: how JSON bodies are stored and served

    The helpers at the top of [packages/server/src/store.ts], and their copies
    in [packages/server-cloudflare/src/json.ts].  [JSON.parse] and the texts of
    numbers come from the interface [JsonLib]; the rest is computed. *)

From S2P Require Import Prelude Offsets Producer Text Json Types JsonInstance.

(** ** Definitions *)

(** [normalizeContentType]; the argument is [contentType] or [undefined]. *)
Definition normalizeContentType (ct : option string) : string :=
  match ct with
  | Some ct =>
      if String.eqb ct EmptyString then EmptyString
      else match split_on ";" ct with
           | h :: _ => js_lower (js_trim h)
           | [] => EmptyString
           end
  | None => EmptyString
  end.

Section json_mode.
Context `{JsonLib}.

(** [processJsonAppend] *)
Definition processJsonAppend (data : bytes) (isInitialCreate : bool)
    : result StoreError bytes :=
  let text := decode_text data in
  match JSON_parse text with
  | None => Err InvalidJson
  | Some (JArr parsed) =>
      if (length parsed =? 0)%nat then
        if isInitialCreate then Ok [] else Err EmptyArray
      else
        let elements := map stringify parsed in
        Ok (encode_text (join "," elements +:+ ","))
  | Some parsed => Ok (encode_text (stringify parsed +:+ ","))
  end.

Definition strip_comma (text : string) : string :=
  if ends_with "," text then str_drop_end 1 text else text.

(** [formatJsonResponse] *)
Definition formatJsonResponse (data : bytes) : bytes :=
  if (length data =? 0)%nat then encode_text "[]"
  else
    let text := strip_comma (trim_end_text (decode_text data)) in
    encode_text ("[" +:+ text +:+ "]").

(** [decodeStoredJsonMessage] *)
Definition decodeStoredJsonMessage (data : bytes) : string :=
  strip_comma (trim_end_text (decode_text data)).

(** [enrichJsonValueWithOffset]: the value that is printed.  Arrays, [null]
    and headers without a string [operation] or [control] are left alone. *)
Definition enrich (parsed : json) (offset : string) : json :=
  match parsed with
  | JObj kvs =>
      match obj_get "headers" kvs with
      | Some (JObj headers) =>
          let isStateChange :=
            match obj_get "operation" headers with Some (JStr _) => true | _ => false end in
          let isStateControl :=
            match obj_get "control" headers with Some (JStr _) => true | _ => false end in
          if negb isStateChange && negb isStateControl then parsed
          else JObj (obj_set "headers" (JObj (obj_set "offset" (JStr offset) headers)) kvs)
      | _ => parsed
      end
  | _ => parsed
  end.

Definition enrichJsonValueWithOffset (parsed : json) (offset : string) : string :=
  stringify (enrich parsed offset).

(** The items of one message in [formatJsonMessages]; [None] is the
    [SyntaxError] that [JSON.parse] throws. *)
Definition message_items (m : StreamMessage) : option (list string) :=
  let rawFragment := decodeStoredJsonMessage (msg_data m) in
  match JSON_parse ("[" +:+ rawFragment +:+ "]") with
  | Some (JArr parsed) =>
      Some (map (fun value => enrichJsonValueWithOffset value (msg_offset m)) parsed)
  | _ => None
  end.

(** [formatJsonMessages] *)
Definition formatJsonMessages (ms : list StreamMessage) : option bytes :=
  if (length ms =? 0)%nat then Some (encode_text "[]")
  else
    items ← mapM message_items ms;
    Some (encode_text ("[" +:+ join "," (concat items) +:+ "]")).
End json_mode.

Module Cloudflare.
(** [normalizeContentType] of [server-cloudflare]. *)
Definition normalizeContentType (ct : option string) : string :=
  if truthy ct then
    match split_on ";" (or_else ct EmptyString) !! 0%nat with
    | None => EmptyString
    | Some mediaType => js_lower (js_trim mediaType)
    end
  else EmptyString.

(** [formatJsonMessages] of [server-cloudflare]: the fragments are joined as
    text, without being parsed. *)
Definition formatJsonMessages (fragments : list bytes) : bytes :=
  if (length fragments =? 0)%nat then encode_text "[]"
  else
    let items := map decodeStoredJsonMessage fragments in
    encode_text ("[" +:+ join "," items +:+ "]").

(** [concatBytes] *)
Definition concatBytes (fragments : list bytes) : bytes := concat fragments.
End Cloudflare.

(** ** What JSON mode promises *)

(** The values one request appends: an array is flattened one level. *)
Definition flatten (v : json) : list json :=
  match v with JArr l => l | _ => [v] end.

(** The stored form of a list of values. *)
Definition stored (vs : list json) : bytes :=
  encode_text (join "," (map stringify vs) +:+ ",").

(** The values a body carries. *)
Definition body_values `{JsonLib} (body : bytes) : list json :=
  match JSON_parse (decode_text body) with
  | Some v => flatten v
  | None => []
  end.

(** ** Lemmas *)

Lemma str_drop_app_all s t : str_drop (String.length s) (s +:+ t) = t.
Proof. apply str_drop_app. Qed.

Lemma str_take_app s t : str_take (String.length s) (s +:+ t) = s.
Proof.
  induction s as [|c s IH]; [done|]. rewrite string_app_cons. cbn. by rewrite IH.
Qed.

Lemma strip_comma_snoc s : strip_comma (s +:+ ",") = s.
Proof.
  unfold strip_comma, ends_with. rewrite string_length_app. cbn [String.length].
  replace (String.length s + 1 - 1)%nat with (String.length s) by lia.
  rewrite str_drop_app, String.eqb_refl, andb_true_r.
  rewrite (proj2 (Nat.leb_le _ _)) by lia.
  unfold str_drop_end. rewrite string_length_app. cbn [String.length].
  replace (String.length s + 1 - 1)%nat with (String.length s) by lia. apply str_take_app.
Qed.

Lemma map_cons_head_join v vs :
  exists t, join "," (map stringify (v :: vs)) = stringify v +:+ t.
Proof.
  destruct vs as [|v' vs]; cbn [map join]; [|by eexists].
  exists "". by rewrite string_app_nil_r.
Qed.

Lemma join_app_ne sep (x : string) l rest :
  rest <> [] -> join sep (x :: l) +:+ sep +:+ join sep rest = join sep ((x :: l) ++ rest).
Proof.
  intros Hrest. revert x. induction l as [|y l IH]; intros x.
  - by destruct rest.
  - change (join sep (x :: y :: l)) with (x +:+ sep +:+ join sep (y :: l)).
    change (join sep ((x :: y :: l) ++ rest)) with (x +:+ sep +:+ join sep ((y :: l) ++ rest)).
    by rewrite <-IH, !string_app_assoc.
Qed.

Section json_mode_lemmas.
Context `{JsonLaws}.

Lemma utf8_join_values vs :
  Forall (fun v => json_wf v = true) vs -> utf8 (chars (join "," (map stringify vs))).
Proof.
  intros Hvs. apply utf8_join; [apply utf8_ascii; repeat constructor|].
  apply List.Forall_map. eapply List.Forall_impl; [|exact Hvs].
  intros v. apply utf8_stringify.
Qed.

Lemma decode_stored vs :
  vs <> [] -> Forall (fun v => json_wf v = true) vs ->
  decodeStoredJsonMessage (stored vs) = join "," (map stringify vs).
Proof.
  intros Hne Hvs. unfold decodeStoredJsonMessage, stored.
  rewrite decode_encode_text.
  - rewrite trim_end_text_snoc by reflexivity. apply strip_comma_snoc.
  - rewrite chars_app. apply utf8_app_closed; [by apply utf8_join_values|].
    apply utf8_ascii. repeat constructor.
  - destruct vs as [|v vs]; [done|].
    destruct (map_cons_head_join v vs) as [t ->].
    inversion_clear Hvs as [|? ? Hv _].
    destruct (stringify_head v Hv) as (c & s & -> & Hc). exact Hc.
Qed.

Lemma stringify_arr vs :
  "[" +:+ join "," (map stringify vs) +:+ "]" = stringify (JArr vs).
Proof. done. Qed.

(** A stored message parses back to its values. *)
Lemma message_items_stored vs o t :
  vs <> [] -> Forall (fun v => json_wf v = true) vs ->
  message_items (mkStreamMessage (stored vs) o t) =
  Some (map (fun v => stringify (enrich v o)) vs).
Proof.
  intros Hne Hvs. unfold message_items. cbn [msg_data msg_offset].
  rewrite decode_stored, stringify_arr by done.
  rewrite JSON_parse_stringify by (by apply json_wf_arr). done.
Qed.

Lemma obj_get_In k kvs v : obj_get k kvs = Some v -> In (k, v) kvs.
Proof.
  induction kvs as [|[k' v'] kvs IH]; cbn; [done|].
  destruct (String.eqb_spec k k') as [->|]; [|by auto]. intros [= ->]. by left.
Qed.

Lemma obj_set_wf k v kvs :
  index_key k = None -> utf8_valid (chars k) = true -> json_wf v = true ->
  json_wf (JObj kvs) = true -> json_wf (JObj (obj_set k v kvs)) = true.
Proof.
  cbn. rewrite !andb_true_iff, !bool_decide_eq_true. intros Hk Hu Hv [[Hnd Ho] Hf].
  rewrite obj_set_keys. split_and!.
  - case_decide; [done|]. apply list.NoDup_app. split_and!; [done| |apply list.NoDup_singleton].
    intros x Hx ->%list_elem_of_singleton. done.
  - case_decide; [done|]. by apply keys_ordered_snoc.
  - clear -Hf Hu Hv. induction kvs as [|[k' v'] kvs IH]; cbn in *.
    { by rewrite Hu, Hv. }
    apply andb_true_iff in Hf as [Hf1 Hf2].
    apply andb_true_iff in Hf1 as [Hk' Hv'].
    destruct (String.eqb_spec k k') as [->|]; cbn; [by rewrite Hk', Hv|].
    rewrite Hk', Hv'. by apply IH.
Qed.

Lemma enrich_wf v o :
  utf8_valid (chars o) = true -> json_wf v = true -> json_wf (enrich v o) = true.
Proof.
  intros Ho Hv. destruct v as [| | | | |kvs]; try done. cbn [enrich].
  destruct (obj_get "headers" kvs) as [[| | | | |headers]|] eqn:Hh; try done.
  destruct (negb _ && negb _); [done|].
  apply obj_set_wf; [reflexivity..| |done].
  apply obj_set_wf; [reflexivity..|done|].
  apply obj_get_In in Hh. cbn in Hv. rewrite !andb_true_iff in Hv.
  destruct Hv as [_ Hf]. rewrite forallb_forall in Hf.
  specialize (Hf _ Hh). by apply andb_true_iff in Hf as [_ Hf].
Qed.

Lemma processJsonAppend_Ok data init b :
  processJsonAppend data init = Ok b ->
  (body_values data = [] /\ init = true /\ b = []) \/
  (body_values data <> [] /\ b = stored (body_values data)) /\
  Forall (fun v => json_wf v = true) (body_values data).
Proof.
  unfold processJsonAppend, body_values. destruct (JSON_parse _) as [v|] eqn:Hp; [|done].
  apply JSON_parse_wf in Hp.
  destruct v as [| | | |l|kvs]; try (intros [= <-]; right; split;
    [split; [done|reflexivity]|by repeat constructor]).
  destruct l as [|v l]; cbn [length Nat.eqb].
  - destruct init; [|done]. intros [= <-]. by left.
  - intros [= <-]. right. split; [done|]. by apply json_wf_arr.
Qed.
End json_mode_lemmas.

(** ** Properties *)

Section json_mode_properties.
Context `{JsonLaws}.

(** The messages store what the bodies of the appends were turned into. *)
Definition stored_from (body : bytes) (m : StreamMessage) : Prop :=
  processJsonAppend body false = Ok (msg_data m) /\
  utf8_valid (chars (msg_offset m)) = true.

(** The values a reader must get from them. *)
Definition served_values (bodies : list bytes) (ms : list StreamMessage) : list json :=
  concat (zip_with (fun body m => map (fun v => enrich v (msg_offset m)) (body_values body))
            bodies ms).

Lemma stored_from_items body m :
  stored_from body m ->
  message_items m = Some (map stringify (map (fun v => enrich v (msg_offset m))
                                           (body_values body))) /\
  Forall (fun v => json_wf v = true)
    (map (fun v => enrich v (msg_offset m)) (body_values body)).
Proof.
  intros [Hp Ho]. destruct m as [data o t]. cbn in Hp, Ho.
  apply processJsonAppend_Ok in Hp as [(_ & ? & _)|[[Hne ->] Hwf]]; [done|].
  rewrite message_items_stored, map_map by done. split; [done|].
  apply List.Forall_map. eapply List.Forall_impl; [|exact Hwf].
  intros v. by apply enrich_wf.
Qed.

Lemma items_of_messages bodies ms :
  Forall2 stored_from bodies ms ->
  exists items, mapM message_items ms = Some items /\
    concat items = map stringify (served_values bodies ms) /\
    Forall (fun v => json_wf v = true) (served_values bodies ms).
Proof.
  unfold served_values.
  induction 1 as [|body m bodies ms Hm Hms (items & Hi & Hc & Hwf)]; [by exists []|].
  destruct (stored_from_items body m Hm) as [Hi1 Hwf1].
  cbn [mapM zip_with concat]. rewrite Hi1. cbn. rewrite Hi. cbn.
  eexists. split; [done|]. cbn [concat]. rewrite Hc, map_app. split; [done|].
  by apply Forall_app.
Qed.

Lemma formatJsonMessages_stored bodies ms :
  Forall2 stored_from bodies ms ->
  formatJsonMessages ms = Some (encode_text (stringify (JArr (served_values bodies ms)))) /\
  json_wf (JArr (served_values bodies ms)) = true.
Proof.
  intros Hms. destruct (items_of_messages bodies ms Hms) as (items & Hi & Hc & Hwf).
  split; [|by apply json_wf_arr]. unfold formatJsonMessages.
  destruct (length ms =? 0)%nat eqn:Hl.
  - apply Nat.eqb_eq, nil_length_inv in Hl as ->. inversion Hms; subst. done.
  - rewrite Hi. cbn [mbind option_bind]. by rewrite Hc.
Qed.

(** C38: for any JSON appends the server accepted, the body it serves for the
    messages parses to one JSON array: the values of the appends in order,
    top-level arrays flattened one level, each state event carrying the
    offset of its message in its headers. *)
Theorem json_mode_roundtrip (bodies : list bytes) (ms : list StreamMessage) :
  Forall2 stored_from bodies ms ->
  exists out, formatJsonMessages ms = Some out /\
    JSON_parse (decode_text out) = Some (JArr (served_values bodies ms)).
Proof.
  intros Hms. destruct (formatJsonMessages_stored bodies ms Hms) as [-> Hwf].
  eexists. split; [done|]. rewrite decode_encode_text.
  - by apply JSON_parse_stringify.
  - by apply utf8_stringify.
  - by vm_compute.
Qed.

(** A value that [enrich] leaves alone. *)
Definition plain (o : string) (v : json) : Prop := enrich v o = v.

(** On messages without state events the Cloudflare server, which joins
    the stored fragments as text, serves byte for byte what the reference
    server serves. *)
Theorem cloudflare_format_equiv (bodies : list bytes) (ms : list StreamMessage) :
  Forall2 stored_from bodies ms ->
  Forall2 (fun body m => Forall (plain (msg_offset m)) (body_values body)) bodies ms ->
  formatJsonMessages ms = Some (Cloudflare.formatJsonMessages (map msg_data ms)).
Proof.
  intros Hms Hplain. rewrite (proj1 (formatJsonMessages_stored bodies ms Hms)).
  unfold Cloudflare.formatJsonMessages. rewrite length_map.
  destruct (length ms =? 0)%nat eqn:Hl.
  { apply Nat.eqb_eq, nil_length_inv in Hl as ->. inversion Hms; subst. done. }
  do 2 f_equal. rewrite <-stringify_arr. do 2 f_equal.
  assert (Hj : map decodeStoredJsonMessage (map msg_data ms) =
               map (fun body => join "," (map stringify (body_values body))) bodies /\
               Forall (fun body => body_values body <> []) bodies /\
               served_values bodies ms = concat (map body_values bodies)).
  { clear Hl. unfold served_values. revert Hplain.
    induction Hms as [|body m bodies ms [Hp Ho] Hms IH]; [done|].
    intros Hplain. inversion_clear Hplain as [|? ? ? ? Hpl Hpls].
    destruct (IH Hpls) as (IH1 & IH2 & IH3).
    apply processJsonAppend_Ok in Hp as [(_ & ? & _)|[[Hne Hd] Hwf]]; [done|].
    cbn [map zip_with concat]. rewrite Hd, decode_stored, IH1, IH3 by done.
    split_and!; [done|by constructor|]. f_equal.
    rewrite <-(map_id (body_values body)) at 2. apply map_ext_in.
    intros v Hv. rewrite List.Forall_forall in Hpl. by apply Hpl. }
  destruct Hj as (-> & Hne & ->). clear -Hne.
  induction Hne as [|body bodies Hb Hbs IH]; [done|]. cbn [map concat].
  destruct bodies as [|body' bodies].
  { cbn. by rewrite app_nil_r. }
  rewrite map_app. cbn [join map]. cbn [join map] in IH. rewrite <-IH.
  assert (Hrest : map stringify (concat (body_values body' :: map body_values bodies)) <> []).
  { inversion_clear Hbs. cbn. destruct (body_values body'); done. }
  destruct (body_values body) as [|v vs]; [done|].
  symmetry. by apply (join_app_ne "," (stringify v) (map stringify vs)).
Qed.
End json_mode_properties.

(** ** Witnesses *)

Definition witness_bodies : list bytes :=
  map (fun t => chars (json_text t))
    ["[1,{'headers':{'operation':'insert'}}]"; " {'a':[]} "; "'x'"].

Definition witness_messages : list StreamMessage :=
  map (fun t => mkStreamMessage (chars (json_text t.1)) t.2 0)
    [("1,{'headers':{'operation':'insert'}},", mk_offset 38); ("{'a':[]},", mk_offset 47);
     ("'x',", mk_offset 51)].

Lemma json_mode_roundtrip_witness :
  exists out, @formatJsonMessages integer_json witness_messages = Some out /\
    @JSON_parse integer_json (decode_text out) =
    Some (JArr [JNum "1";
      JObj [("headers", JObj [("operation", JStr "insert");
                              ("offset", JStr "0000000000000000_0000000000000038")])];
      JObj [("a", JArr [])]; JStr "x"]).
Proof.
  apply (@json_mode_roundtrip integer_json integer_json_laws witness_bodies witness_messages).
  repeat constructor.
Defined.

Lemma cloudflare_format_equiv_witness :
  @formatJsonMessages integer_json (tail witness_messages) =
  Some (chars (json_text "[{'a':[]},'x']")).
Proof.
  apply (@cloudflare_format_equiv integer_json integer_json_laws
           (tail witness_bodies) (tail witness_messages)).
  - repeat constructor.
  - repeat constructor.
Defined.
