(* ===== verification/StreamStore.v ===== *)
(** * The in-memory store: class [StreamStore] of [packages/server/src/store.ts]

    The maps and arrays of the object are the fields of [StreamStore]; a method
    is a function of them in the monad [M], or a plain function when it cannot
    throw.  One call of a method sees one value [now] of [Date.now()].  A
    promise of [waitForMessages] is a number; [results] are the values the
    promises were resolved with.

    [pendingLongPolls] is the array the field refers to; [abandoned] are the
    arrays it referred to earlier, most recent first: a [for]-[of] loop that
    started on one of them goes on reading it. *)

From S2P Require Import Prelude Offsets Producer Text Json Types JsonMode.
Local Open Scope js_scope.

(** ** State *)

Record PendingLongPoll := mkPendingLongPoll {
  lp_id : nat;
  lp_path : string;
  lp_offset : string;
}.

Record LongPollResult := mkLongPollResult {
  lr_messages : list StreamMessage;
  lr_timedOut : bool;
  lr_streamClosed : option bool;
}.

Record StreamStore := mkStreamStore {
  streams : gmap string Stream;
  pendingLongPolls : list PendingLongPoll;
  abandoned : list (list PendingLongPoll);
  timers : gmap nat PendingLongPoll;
  results : gmap nat LongPollResult;
  nextId : nat;
}.

Definition empty_store : StreamStore := mkStreamStore ∅ [] [] ∅ ∅ 0.

(** Updates of one field. *)
Definition upd_streams (f : gmap string Stream -> gmap string Stream) (st : StreamStore) :=
  mkStreamStore (f (streams st)) (pendingLongPolls st) (abandoned st) (timers st)
    (results st) (nextId st).

(** The array is changed in place. *)
Definition splice_polls (f : list PendingLongPoll -> list PendingLongPoll) (st : StreamStore) :=
  mkStreamStore (streams st) (f (pendingLongPolls st)) (abandoned st) (timers st)
    (results st) (nextId st).

(** The field is assigned a new array. *)
Definition assign_polls (l : list PendingLongPoll) (st : StreamStore) :=
  mkStreamStore (streams st) l (pendingLongPolls st :: abandoned st) (timers st)
    (results st) (nextId st).

Definition clearTimeout (id : nat) (st : StreamStore) :=
  mkStreamStore (streams st) (pendingLongPolls st) (abandoned st) (delete id (timers st))
    (results st) (nextId st).

(** Resolving a promise a second time has no effect. *)
Definition settle (id : nat) (r : LongPollResult) (st : StreamStore) :=
  mkStreamStore (streams st) (pendingLongPolls st) (abandoned st) (timers st)
    (match results st !! id with Some _ => results st | None => <[id := r]> (results st) end)
    (nextId st).

(** An assignment to a field of the stream object found at [p]. *)
Definition upd_stream (p : string) (f : Stream -> Stream) : StreamStore -> StreamStore :=
  upd_streams (alter f p).

(** The [Date] constructor's parser, in milliseconds; [None] is [NaN].  Which
    formats it accepts beyond ISO 8601 is up to the engine. *)
Class DateLib := date_getTime : string -> option Z.

(** ** Operations *)

Section store.
Context `{!JsonLib} `{!DateLib}.

(** The clock during one call. *)
Context (now : Z).

(** [isExpired] *)
Definition isExpired (stream : Stream) : bool :=
  let expired_at :=
    match expiresAt stream with
    | Some e =>
        if String.eqb e EmptyString then false
        else match date_getTime e with
             | None => true
             | Some expiryTime => expiryTime <=? now
             end
    | None => false
    end in
  if expired_at then true
  else match ttlSeconds stream with
       | Some ttl => dbl (lastAccessedAt stream + dbl (ttl * 1000)) <=? now
       | None => false
       end.

(** [touchAccess] *)
Definition touchAccess (p : string) (st : StreamStore) : StreamStore :=
  upd_stream p (set_lastAccessedAt now) st.

(** *** Long-polls and deletion

    [getIfNotExpired] may delete a stream, which resolves its long-polls, each
    of which calls [getIfNotExpired] again.  [self] is that last call. *)
Section deletion.
Context (self : string -> StreamStore -> StreamStore * option Stream).

Fixpoint remove_first (id : nat) (l : list PendingLongPoll) : list PendingLongPoll :=
  match l with
  | [] => []
  | p :: l => if (lp_id p =? id)%nat then l else p :: remove_first id l
  end.

(** [removePendingLongPoll] *)
Definition removePendingLongPoll (p : PendingLongPoll) : StreamStore -> StreamStore :=
  splice_polls (remove_first (lp_id p)).

(** [pending.resolve(msgs)], the callback made by [waitForMessages] *)
Definition pending_resolve_step (p : PendingLongPoll) (msgs : list StreamMessage)
    (st : StreamStore) : StreamStore :=
  let st := clearTimeout (lp_id p) st in
  let st := removePendingLongPoll p st in
  let '(st, currentStream) := self (lp_path p) st in
  let streamClosed :=
    match currentStream with
    | Some s => if closed s && (length msgs =? 0)%nat then Some true else None
    | None => None
    end in
  settle (lp_id p) (mkLongPollResult msgs false streamClosed) st.

(** [cancelLongPollsForStream] *)
Definition cancelLongPollsForStream_step (path : string) (st : StreamStore) : StreamStore :=
  let toCancel := filter (fun p => lp_path p = path) (pendingLongPolls st) in
  let st := foldl (fun st pending =>
              pending_resolve_step pending [] (clearTimeout (lp_id pending) st)) st toCancel in
  assign_polls (filter (fun p => lp_path p <> path) (pendingLongPolls st)) st.

(** [deleteWithCascade]: each call removes a stream, so that the number of
    streams bounds the depth. *)
Fixpoint deleteWithCascade_fuel (fuel : nat) (path : string) (st : StreamStore) : StreamStore :=
  match fuel with
  | O => st
  | S fuel =>
      match streams st !! path with
      | None => st
      | Some stream =>
          let st := upd_streams (delete path) st in
          let st := cancelLongPollsForStream_step path st in
          if truthy (forkedFrom stream) then
            let source := or_else (forkedFrom stream) EmptyString in
            match streams st !! source with
            | None => st
            | Some parent =>
                let refs := refCount parent - 1 in
                let refs := if refs <? 0 then 0 else refs in
                let st := upd_stream source (set_refCount refs) st in
                if (refs =? 0) && softDeleted parent
                then deleteWithCascade_fuel fuel source st
                else st
            end
          else st
      end
  end.

Definition deleteWithCascade_step (path : string) (st : StreamStore) : StreamStore :=
  deleteWithCascade_fuel (S (size (streams st))) path st.

(** [delete] *)
Definition delete_step (path : string) (st : StreamStore) : StreamStore * bool :=
  match streams st !! path with
  | None => (st, false)
  | Some stream =>
      if softDeleted stream then (st, true)
      else if 0 <? refCount stream then (upd_stream path (set_softDeleted true) st, true)
      else (deleteWithCascade_step path st, true)
  end.

(** [getIfNotExpired] *)
Definition getIfNotExpired_step (path : string) (st : StreamStore)
    : StreamStore * option Stream :=
  match streams st !! path with
  | None => (st, None)
  | Some stream =>
      if isExpired stream then
        if 0 <? refCount stream then
          (upd_stream path (set_softDeleted true) st, Some (set_softDeleted true stream))
        else ((delete_step path st).1, None)
      else (st, Some stream)
  end.
End deletion.

(** The knot.  The inner call is always for a path that has just been deleted,
    so one unfolding is enough: [getIfNotExpired_unfold] in StoreLemmas is the
    recursive equation of the source. *)
Definition getIfNotExpired : string -> StreamStore -> StreamStore * option Stream :=
  getIfNotExpired_step (fun _ st => (st, None)).

Definition pending_resolve := pending_resolve_step getIfNotExpired.
Definition cancelLongPollsForStream := cancelLongPollsForStream_step getIfNotExpired.
Definition deleteWithCascade := deleteWithCascade_step getIfNotExpired.
Definition delete_ := delete_step getIfNotExpired.

(** [get] *)
Definition get (path : string) (st : StreamStore) : StreamStore * option Stream :=
  match streams st !! path with
  | None => (st, None)
  | Some stream =>
      if isExpired stream then
        if 0 <? refCount stream then
          (upd_stream path (set_softDeleted true) st, Some (set_softDeleted true stream))
        else ((delete_ path st).1, None)
      else (st, Some stream)
  end.

(** [has] *)
Definition has (path : string) (st : StreamStore) : StreamStore * bool :=
  let '(st, stream) := get path st in
  match stream with
  | None => (st, false)
  | Some stream => (st, negb (softDeleted stream))
  end.

(** [getCurrentOffset] *)
Definition getCurrentOffset (path : string) (st : StreamStore) : StreamStore * option string :=
  let '(st, stream) := getIfNotExpired path st in (st, currentOffset <$> stream).

(** [getProducerEpoch] *)
Definition getProducerEpoch (path producerId : string) (st : StreamStore)
    : StreamStore * option Z :=
  let '(st, stream) := getIfNotExpired path st in
  (st, match stream ≫= producers with
       | Some m => ps_epoch <$> m !! producerId
       | None => None
       end).

(** [list]: the keys, without their order. *)
Definition list_ (st : StreamStore) : gset string := dom (streams st).

(** *** Reading *)

(** [a < b] and [a > b] where one side may be [undefined]. *)
Definition ltb_opt (a : string) (b : option string) : bool :=
  match b with Some b => String.ltb a b | None => false end.
Definition gtb_opt (a : string) (b : option string) : bool :=
  match b with Some b => String.ltb b a | None => false end.

(** [findOffsetIndex]; [None] is [-1]. *)
Definition findOffsetIndex (ms : list StreamMessage) (offset : string) : option nat :=
  fst <$> list_find (fun m => String.ltb offset (msg_offset m) = true) ms.

(** [readOwnMessages] *)
Definition readOwnMessages (stream : Stream) (offset : string) : list StreamMessage :=
  match findOffsetIndex (messages stream) offset with
  | None => []
  | Some i => drop i (messages stream)
  end.

(** The loop over a source's own messages in [readForkedMessages]. *)
Fixpoint own_capped (offset capOffset : option string) (ms : list StreamMessage)
    : list StreamMessage :=
  match ms with
  | [] => []
  | msg :: ms =>
      if truthy offset && negb (gtb_opt (msg_offset msg) offset) then
        own_capped offset capOffset ms
      else if gtb_opt (msg_offset msg) capOffset then []
      else msg :: own_capped offset capOffset ms
  end.

(** [readForkedMessages]; [None] when the recursion is deeper than [fuel]. *)
Fixpoint readForkedMessages_fuel (fuel : nat) (ss : gmap string Stream)
    (sourcePath : string) (offset capOffset : option string) : option (list StreamMessage) :=
  match fuel with
  | O => None
  | S fuel =>
      match ss !! sourcePath with
      | None => Some []
      | Some source =>
          let own := own_capped offset capOffset (messages source) in
          if truthy (forkedFrom source) &&
             (negb (truthy offset) || ltb_opt (or_else offset EmptyString) (forkOffset source))
          then
            let cap :=
              match forkOffset source with
              | Some fo => if ltb_opt fo capOffset then Some fo else capOffset
              | None => capOffset
              end in
            inherited ← readForkedMessages_fuel fuel ss
              (or_else (forkedFrom source) EmptyString) offset cap;
            Some (inherited ++ own)
          else Some own
      end
  end.

(** More calls than there are streams visit one of them twice with the same
    offset, and then there is no end: the engine's stack overflows
    ([expired_source_cycle] in StoreTheorems shows such a cycle). *)
Definition readForkedMessages (sourcePath : string) (offset capOffset : option string)
    : M StreamStore StoreError (list StreamMessage) := fun st =>
  match readForkedMessages_fuel (S (size (streams st))) (streams st) sourcePath offset
          capOffset with
  | Some ms => (st, Ok ms)
  | None => (st, Err StackOverflow)
  end.

(** [readFromFork] *)
Definition readFromFork (stream : Stream) (offset : string)
    : M StreamStore StoreError (list StreamMessage) :=
  let* inherited :=
    (if ltb_opt offset (forkOffset stream)
     then readForkedMessages (or_else (forkedFrom stream) EmptyString) (Some offset)
            (forkOffset stream)
     else ret []) in
  ret (inherited ++ readOwnMessages stream offset).

(** [read]: the messages; [upToDate] is always true. *)
Definition read (path : string) (offset : option string)
    : M StreamStore StoreError (list StreamMessage) :=
  let* stream := call (getIfNotExpired path) in
  match stream with
  | None => throw (StreamNotFound path)
  | Some stream =>
      if negb (truthy offset) || bool_decide (offset = Some "-1") then
        if truthy (forkedFrom stream) then
          let* inherited := readForkedMessages (or_else (forkedFrom stream) EmptyString) None
                              (forkOffset stream) in
          ret (inherited ++ messages stream)
        else ret (messages stream)
      else
        let offset := or_else offset EmptyString in
        if truthy (forkedFrom stream) then readFromFork stream offset
        else
          match findOffsetIndex (messages stream) offset with
          | None => ret []
          | Some i => ret (drop i (messages stream))
          end
  end.

(** [formatResponse] *)
Definition formatResponse (path : string) (ms : list StreamMessage)
    : M StreamStore StoreError bytes :=
  let* stream := call (getIfNotExpired path) in
  match stream with
  | None => throw (StreamNotFound path)
  | Some stream =>
      if String.eqb (normalizeContentType (contentType stream)) "application/json" then
        match formatJsonMessages ms with
        | Some b => ret b
        | None => throw InvalidJson
        end
      else ret (concat (map msg_data ms))
  end.

(** *** Appending *)

(** [appendToStream], on the stream object. *)
Definition appendToStream (stream : Stream) (data : bytes) (isInitialCreate : bool)
    : result StoreError (Stream * option StreamMessage) :=
  let append (processedData : bytes) :=
    let newOffset := next_offset (currentOffset stream) (Z.of_nat (length processedData)) in
    let message := mkStreamMessage processedData newOffset now in
    Ok (set_messages (messages stream ++ [message]) newOffset stream, Some message) in
  if String.eqb (normalizeContentType (contentType stream)) "application/json" then
    match processJsonAppend data isInitialCreate with
    | Err e => Err e
    | Ok processedData =>
        if (length processedData =? 0)%nat then Ok (stream, None) else append processedData
    end
  else append data.

(** [notifyLongPolls] *)
Fixpoint notify_each (path : string) (toNotify : list PendingLongPoll)
    : M StreamStore StoreError unit :=
  match toNotify with
  | [] => ret tt
  | pending :: toNotify =>
      let* ms := read path (Some (lp_offset pending)) in
      do (if (0 <? length ms)%nat then modify (pending_resolve pending ms) else ret tt) ;;
      notify_each path toNotify
  end.

Definition notifyLongPolls (path : string) : M StreamStore StoreError unit := fun st =>
  notify_each path (filter (fun p => lp_path p = path) (pendingLongPolls st)) st.

(** [notifyLongPollsClosed] *)
Definition notifyLongPollsClosed (path : string) (st : StreamStore) : StreamStore :=
  let toNotify := filter (fun p => lp_path p = path) (pendingLongPolls st) in
  foldl (fun st pending => pending_resolve pending [] st) st toNotify.

Record AppendOptions := mkAppendOptions {
  ao_seq : option string;
  ao_contentType : option string;
  ao_producerId : option string;
  ao_producerEpoch : option Z;
  ao_producerSeq : option Z;
  ao_close : option bool;
}.

Record AppendResult := mkAppendResult {
  ar_message : option StreamMessage;
  ar_producerResult : option ProducerValidationResult;
  ar_streamClosed : option bool;
}.

(** [StreamMessage | AppendResult] *)
Inductive AppendReturn :=
| PlainMessage (m : option StreamMessage)
| WithResult (r : AppendResult).

(** The closing request of a closed stream, seen again. *)
Definition same_closer (cb : option ClosedBy) (producerId : option string)
    (e seq : option Z) : bool :=
  match cb with
  | Some cb => bool_decide (Some (cb_producerId cb) = producerId) &&
               bool_decide (cb_epoch cb = e) && bool_decide (cb_seq cb = seq)
  | None => false
  end.

(** [stream.producers] after [validateProducer], and its verdict; [None] when
    the producer headers are not all there. *)
Definition validate_options (stream : Stream) (o : AppendOptions)
    : Stream * option ProducerValidationResult :=
  match ao_producerId o, ao_producerEpoch o, ao_producerSeq o with
  | Some id, Some e, Some seq =>
      let '(m, v) := validateProducer now (producers stream) id e seq in
      (set_producers m stream, Some v)
  | _, _, _ => (stream, None)
  end.

(** The mutations of [append] once the data is in. *)
Definition commit_append (o : AppendOptions) (v : option ProducerValidationResult)
    (stream : Stream) : Stream :=
  let stream :=
    match v with
    | Some v => set_producers (commitProducerState (or_else (producers stream) ∅) v) stream
    | None => stream
    end in
  let stream :=
    match ao_seq o with Some seq => set_lastSeq (Some seq) stream | None => stream end in
  if or_else (ao_close o) false then
    let stream := set_closed true stream in
    match ao_producerId o with
    | Some id =>
        set_closedBy (Some (mkClosedBy id (ao_producerEpoch o) (ao_producerSeq o))) stream
    | None => stream
    end
  else stream.

Definition is_accepted (v : option ProducerValidationResult) : bool :=
  match v with Some (accepted _ _ _) | None => true | _ => false end.

(** [append] *)
Definition append (path : string) (data : bytes) (o : AppendOptions)
    : M StreamStore StoreError AppendReturn :=
  let* stream := call (getIfNotExpired path) in
  match stream with
  | None => throw (StreamNotFound path)
  | Some stream =>
      if softDeleted stream then throw (StreamSoftDeleted path)
      else if closed stream then
        if truthy (ao_producerId o) &&
           same_closer (closedBy stream) (ao_producerId o) (ao_producerEpoch o) (ao_producerSeq o)
        then ret (WithResult (mkAppendResult None
                    (Some (duplicate (or_else (ao_producerSeq o) 0))) (Some true)))
        else ret (WithResult (mkAppendResult None None (Some true)))
      else if truthy (ao_contentType o) && truthy (contentType stream) &&
              negb (String.eqb (normalizeContentType (ao_contentType o))
                      (normalizeContentType (contentType stream)))
      then throw (ContentTypeMismatch (or_else (contentType stream) EmptyString)
                    (or_else (ao_contentType o) EmptyString))
      else
        let '(stream, v) := validate_options stream o in
        do modify (upd_stream path (fun _ => stream)) ;;
        if negb (is_accepted v) then ret (WithResult (mkAppendResult None v None))
        else
          do (match ao_seq o, st_lastSeq stream with
              | Some seq, Some last =>
                  if negb (String.ltb last seq) then throw (SequenceConflict seq last) else ret tt
              | _, _ => ret tt
              end) ;;
          let* ' (stream, message) := lift_result (appendToStream stream data false) in
          do modify (upd_stream path (fun _ => commit_append o v stream)) ;;
          do notifyLongPolls path ;;
          do (if or_else (ao_close o) false then modify (notifyLongPollsClosed path)
              else ret tt) ;;
          if (if v then true else false) || or_else (ao_close o) false
          then ret (WithResult (mkAppendResult message v (ao_close o)))
          else ret (PlainMessage message)
  end.

(** [appendWithProducer]: what runs while the producer's lock is held; it has
    no [await] in it. *)
Definition appendWithProducer (path : string) (data : bytes) (o : AppendOptions)
    : M StreamStore StoreError AppendResult :=
  let* result := append path data o in
  match result with
  | WithResult r => ret r
  | PlainMessage m => ret (mkAppendResult m None None)
  end.

(** *** Closing *)

Record CloseResult := mkCloseResult {
  cr_finalOffset : string;
  cr_alreadyClosed : bool;
  cr_producerResult : option ProducerValidationResult;
}.

(** [closeStream] *)
Definition closeStream (path : string) : M StreamStore StoreError (option CloseResult) :=
  let* stream := call (getIfNotExpired path) in
  match stream with
  | None => ret None
  | Some stream =>
      if softDeleted stream then throw (StreamSoftDeleted path)
      else
        do modify (upd_stream path (set_closed true)) ;;
        do modify (notifyLongPollsClosed path) ;;
        ret (Some (mkCloseResult (currentOffset stream) (closed stream) None))
  end.

(** [closeStreamWithProducer], while the producer's lock is held. *)
Definition closeStreamWithProducer (path producerId : string) (e seq : Z)
    : M StreamStore StoreError (option CloseResult) :=
  let* stream := call (getIfNotExpired path) in
  match stream with
  | None => ret None
  | Some stream =>
      if closed stream then
        if same_closer (closedBy stream) (Some producerId) (Some e) (Some seq)
        then ret (Some (mkCloseResult (currentOffset stream) true (Some (duplicate seq))))
        else ret (Some (mkCloseResult (currentOffset stream) true (Some stream_closed)))
      else
        let '(m, v) := validateProducer now (producers stream) producerId e seq in
        let stream := set_producers m stream in
        do modify (upd_stream path (fun _ => stream)) ;;
        if negb (is_accepted (Some v))
        then ret (Some (mkCloseResult (currentOffset stream) (closed stream) (Some v)))
        else
          let stream := set_producers (commitProducerState m v) stream in
          let stream := set_closed true stream in
          let stream := set_closedBy (Some (mkClosedBy producerId (Some e) (Some seq))) stream in
          do modify (upd_stream path (fun _ => stream)) ;;
          do modify (notifyLongPollsClosed path) ;;
          ret (Some (mkCloseResult (currentOffset stream) false (Some v)))
  end.

(** *** Creating *)

Record CreateOptions := mkCreateOptions {
  co_contentType : option string;
  co_ttlSeconds : option Z;
  co_expiresAt : option string;
  co_initialData : option bytes;
  co_closed : option bool;
  co_forkedFrom : option string;
  co_forkOffset : option string;
  co_forkSubOffset : option Z;
}.

(** The comparison of [create] with an existing stream. *)
Definition config_matches (o : CreateOptions) (existing : Stream) : bool :=
  let contentTypeMatches :=
    String.eqb (str_or (normalizeContentType (co_contentType o)) "application/octet-stream")
      (str_or (normalizeContentType (contentType existing)) "application/octet-stream") in
  let ttlMatches := bool_decide (co_ttlSeconds o = ttlSeconds existing) in
  let expiresMatches := bool_decide (co_expiresAt o = expiresAt existing) in
  let closedMatches := Bool.eqb (or_else (co_closed o) false) (closed existing) in
  let forkedFromMatches := bool_decide (co_forkedFrom o = forkedFrom existing) in
  let forkOffsetMatches :=
    match co_forkOffset o with
    | None => true
    | Some fo => bool_decide (Some fo = forkOffset existing)
    end in
  let forkSubOffsetMatches :=
    or_else (co_forkSubOffset o) 0 =? or_else (forkSubOffset existing) 0 in
  contentTypeMatches && ttlMatches && expiresMatches && closedMatches &&
  forkedFromMatches && forkOffsetMatches && forkSubOffsetMatches.

(** [resolveForkExpiry]: [ttlSeconds] and [expiresAt] of the fork. *)
Definition resolveForkExpiry (ttl : option Z) (expires : option string) (source : Stream)
    : option Z * option string :=
  match ttl with
  | Some t => (Some t, None)
  | None =>
      if truthy expires then (None, expires)
      else match ttlSeconds source with
           | Some t => (Some t, None)
           | None => if truthy (expiresAt source) then (None, expiresAt source) else (None, None)
           end
  end.

(** The prefix of the first message past the fork offset. *)
Definition sub_offset_prefix (first : StreamMessage) (subOffset : Z) (isJSON : bool)
    : result StoreError bytes :=
  if isJSON then
    let text := decode_text (msg_data first) in
    let trimmed := strip_comma text in
    match JSON_parse ("[" +:+ trimmed +:+ "]") with
    | Some (JArr values) =>
        if Z.of_nat (length values) <? subOffset then
          Err (InvalidForkSubOffset "overshoots source message count")
        else
          let prefix := map stringify (take (Z.to_nat subOffset) values) in
          Ok (encode_text (join "," prefix +:+ ","))
    | _ => Err (InvalidForkSubOffset "source JSON is unparseable")
    end
  else if Z.of_nat (length (msg_data first)) <? subOffset then
    Err (InvalidForkSubOffset "overshoots source message length")
  else Ok (take (Z.to_nat subOffset) (msg_data first)).

(** [resolveForkSubOffset] *)
Definition resolveForkSubOffset (sourceStream : Stream) (fork_offset : string)
    (subOffset : Z) (isJSON : bool) : M StreamStore StoreError bytes :=
  let* sourceMessages :=
    (if truthy (forkedFrom sourceStream) then
       let* inherited :=
         readForkedMessages (or_else (forkedFrom sourceStream) EmptyString)
           (Some fork_offset) (forkOffset sourceStream) in
       ret (inherited ++ readOwnMessages sourceStream fork_offset)
     else ret (readOwnMessages sourceStream fork_offset)) in
  match sourceMessages with
  | [] => throw (InvalidForkSubOffset "no data past forkOffset")
  | first :: _ => lift_result (sub_offset_prefix first subOffset isJSON)
  end.

(** The part of [create] that validates a fork and takes the reference on its
    source: the source, the fork offset and the prefix. *)
Definition resolve_fork (source : string) (o : CreateOptions)
    : M StreamStore StoreError (Stream * string * option bytes) :=
  let* st := get_state in
  match streams st !! source with
  | None => throw (SourceNotFound source)
  | Some sourceStream =>
      if softDeleted sourceStream then throw (SourceSoftDeleted source)
      else if isExpired sourceStream then throw (SourceNotFound source)
      else if truthy (co_contentType o) &&
              negb (String.eqb (js_trim (or_else (co_contentType o) EmptyString)) EmptyString) &&
              negb (String.eqb (normalizeContentType (co_contentType o))
                      (normalizeContentType (contentType sourceStream)))
      then throw SourceContentTypeMismatch
      else
        let fork_offset :=
          if truthy (co_forkOffset o) then or_else (co_forkOffset o) EmptyString
          else currentOffset sourceStream in
        if String.ltb fork_offset ZERO_OFFSET ||
           String.ltb (currentOffset sourceStream) fork_offset
        then throw (InvalidForkOffset fork_offset)
        else
          let* prefix :=
            (match co_forkSubOffset o with
             | Some n =>
                 if 0 <? n then
                   let* p := resolveForkSubOffset sourceStream fork_offset n
                     (String.eqb (normalizeContentType (contentType sourceStream))
                        "application/json") in
                   ret (Some p)
                 else ret None
             | None => ret None
             end) in
          do modify (upd_stream source (set_refCount (refCount sourceStream + 1))) ;;
          ret (sourceStream, fork_offset, prefix)
  end.

(** The new stream object, with the prefix of a fork as its first message. *)
Definition build_stream (path : string) (o : CreateOptions)
    (fork : option (Stream * string * option bytes)) : Stream :=
  let content_type :=
    if negb (truthy (co_contentType o)) ||
       String.eqb (js_trim (or_else (co_contentType o) EmptyString)) EmptyString
    then match fork with
         | Some (sourceStream, _, _) => contentType sourceStream
         | None => co_contentType o
         end
    else co_contentType o in
  let '(ttl, expires) :=
    match fork with
    | Some (sourceStream, _, _) =>
        resolveForkExpiry (co_ttlSeconds o) (co_expiresAt o) sourceStream
    | None => (co_ttlSeconds o, co_expiresAt o)
    end in
  let fork_offset := match fork with Some (_, fo, _) => Some fo | None => None end in
  let stream :=
    mkStream path content_type [] (or_else fork_offset ZERO_OFFSET) None ttl expires now now
      None (or_else (co_closed o) false) None
      (match fork with Some _ => co_forkedFrom o | None => None end) fork_offset None 0 false in
  match fork with
  | Some (_, _, Some prefix) =>
      if (0 <? length prefix)%nat then
        let newOffset := prefix_offset (currentOffset stream) (Z.of_nat (length prefix)) in
        set_forkSubOffset (co_forkSubOffset o)
          (set_messages [mkStreamMessage prefix newOffset now] newOffset stream)
      else stream
  | _ => stream
  end.

(** The initial data; on failure the reference on the source is given back. *)
Definition append_initial (source : option string) (o : CreateOptions) (stream : Stream)
    : M StreamStore StoreError Stream :=
  match co_initialData o with
  | Some data =>
      if (0 <? length data)%nat then
        match appendToStream stream data true with
        | Ok (stream, _) => ret stream
        | Err e =>
            do (match source with
                | Some source =>
                    modify (upd_stream source (fun s => set_refCount (refCount s - 1) s))
                | None => ret tt
                end) ;;
            throw e
        end
      else ret stream
  | None => ret stream
  end.

(** [create], past the check of an existing stream. *)
Definition create_new (path : string) (o : CreateOptions) : M StreamStore StoreError Stream :=
  let isFork := truthy (co_forkedFrom o) in
  let source := or_else (co_forkedFrom o) EmptyString in
  let* fork :=
    (if isFork then let* f := resolve_fork source o in ret (Some f) else ret None) in
  let stream := build_stream path o fork in
  let* stream := append_initial (if isFork then Some source else None) o stream in
  do modify (upd_streams (insert path stream)) ;;
  ret stream.

(** [create] *)
Definition create (path : string) (o : CreateOptions) : M StreamStore StoreError Stream :=
  let* st := get_state in
  match streams st !! path with
  | Some existingRaw =>
      if isExpired existingRaw then
        do modify (upd_streams (delete path)) ;;
        do modify (cancelLongPollsForStream path) ;;
        create_new path o
      else if softDeleted existingRaw then throw (ActiveForks path)
      else if config_matches o existingRaw then ret existingRaw
      else throw (ConfigMismatch path)
  | None => create_new path o
  end.

(** *** Long-polls *)

Inductive WaitOutcome :=
| Immediate (r : LongPollResult)
| Waiting (id : nat).

(** The promise of [waitForMessages]: its timer, and its entry in the array. *)
Definition register_poll (path offset : string) (st : StreamStore) : StreamStore * nat :=
  let pending := mkPendingLongPoll (nextId st) path offset in
  (mkStreamStore (streams st) (pendingLongPolls st ++ [pending]) (abandoned st)
     (<[nextId st := pending]> (timers st)) (results st) (S (nextId st)), nextId st).

(** [waitForMessages], up to the promise it returns. *)
Definition waitForMessages (path offset : string) : M StreamStore StoreError WaitOutcome :=
  let* stream := call (getIfNotExpired path) in
  match stream with
  | None => throw (StreamNotFound path)
  | Some stream =>
      if truthy (forkedFrom stream) && ltb_opt offset (forkOffset stream) then
        let* ms := read path (Some offset) in
        ret (Immediate (mkLongPollResult ms false None))
      else
        let* ms := read path (Some offset) in
        if (0 <? length ms)%nat then ret (Immediate (mkLongPollResult ms false None))
        else if closed stream && String.eqb offset (currentOffset stream)
        then ret (Immediate (mkLongPollResult [] false (Some true)))
        else let* id := call (register_poll path offset) in ret (Waiting id)
  end.

(** The callback of [setTimeout] in [waitForMessages]. *)
Definition poll_timeout (id : nat) (st : StreamStore) : StreamStore :=
  match timers st !! id with
  | None => st
  | Some pending =>
      let st := clearTimeout id st in
      let st := removePendingLongPoll pending st in
      let '(st, currentStream) := getIfNotExpired (lp_path pending) st in
      let streamClosed := match currentStream with Some s => closed s | None => false end in
      settle id (mkLongPollResult [] true (Some streamClosed)) st
  end.

(** The array that was the field's value when [n] arrays had been abandoned. *)
Definition array (n : nat) (st : StreamStore) : list PendingLongPoll :=
  if (length (abandoned st) =? n)%nat then pendingLongPolls st
  else or_else (reverse (abandoned st) !! n) [].

(** [for (const pending of this.pendingLongPolls)] of [cancelAllWaits] and
    [clear]: the iterator holds the array and an index, and [pending.resolve]
    removes elements under it. *)
Fixpoint cancel_from (fuel n i : nat) (st : StreamStore) : StreamStore :=
  match fuel with
  | O => st
  | S fuel =>
      match array n st !! i with
      | None => st
      | Some pending =>
          let st := clearTimeout (lp_id pending) st in
          let st := pending_resolve pending [] st in
          cancel_from fuel n (S i) st
      end
  end.

(** [cancelAllWaits] *)
Definition cancelAllWaits (st : StreamStore) : StreamStore :=
  let st := cancel_from (length (pendingLongPolls st)) (length (abandoned st)) 0 st in
  assign_polls [] st.

(** [clear] *)
Definition clear (st : StreamStore) : StreamStore :=
  let st := cancel_from (length (pendingLongPolls st)) (length (abandoned st)) 0 st in
  let st := assign_polls [] st in
  upd_streams (fun _ => ∅) st.
End store.
