(* ===== verification/StoreLemmas.v ===== *)
(** * The store's recursion: its equations, and its effect on the map

    [getIfNotExpired] satisfies the recursive equation of the source, and
    [deleteWithCascade] its own, whatever the fuel.  What a deletion does to the
    map of streams is the pure function [cascade]; what it does to the
    long-polls is [cancelled]. *)

From S2P Require Import Prelude Offsets Producer Text Json Types JsonMode StreamStore.
Local Open Scope js_scope.

Lemma remove_first_filter P `{!forall x, Decision (P x)} p l :
  ~ P p -> (forall x, x ∈ l -> lp_id x = lp_id p -> x = p) ->
  filter P (remove_first (lp_id p) l) = filter P l.
Proof.
  intros Hp. induction l as [|x l IH]; intros Hl; [done|]. cbn [remove_first].
  destruct (Nat.eqb_spec (lp_id x) (lp_id p)) as [E|E].
  - rewrite filter_cons_False; [done|]. by rewrite (Hl x ltac:(by left) E).
  - rewrite !filter_cons, IH; [done|]. intros y Hy. apply Hl. by right.
Qed.

Lemma map_size_alter {A} (f : A -> A) p (m : gmap string A) : size (alter f p m) = size m.
Proof. by rewrite <-!(size_dom (D:=gset string)), dom_alter_L. Qed.

Section equations.
Context `{!JsonLib} `{!DateLib}.
Context (now : Z).
Implicit Types (st : StreamStore).

(** A callback that finds nothing where there is nothing. *)
Definition absent_ok (self : string -> StreamStore -> StreamStore * option Stream) : Prop :=
  forall p st, streams st !! p = None -> self p st = (st, None).

Lemma absent_ok_base : absent_ok (fun _ st => (st, None)).
Proof. done. Qed.

Lemma absent_ok_step self : absent_ok (getIfNotExpired_step now self).
Proof. intros p st Hp. unfold getIfNotExpired_step. by rewrite Hp. Qed.

(** Resolving a long-poll of a path that is gone. *)
Definition resolve_gone (st : StreamStore) (pending : PendingLongPoll) : StreamStore :=
  settle (lp_id pending) (mkLongPollResult [] false None)
    (removePendingLongPoll pending (clearTimeout (lp_id pending) st)).

Lemma resolve_gone_streams l st : streams (foldl resolve_gone st l) = streams st.
Proof. revert st. induction l as [|x l IH]; intros st; [done|]. cbn. by rewrite IH. Qed.

(** [cancelLongPollsForStream] on a path that is gone. *)
Definition cancelled (path : string) (st : StreamStore) : StreamStore :=
  let st := foldl resolve_gone st (filter (fun p => lp_path p = path) (pendingLongPolls st)) in
  assign_polls (filter (fun p => lp_path p <> path) (pendingLongPolls st)) st.

Lemma cancel_absent self path st :
  absent_ok self -> streams st !! path = None ->
  cancelLongPollsForStream_step self path st = cancelled path st.
Proof.
  intros Hself Hp. unfold cancelLongPollsForStream_step, cancelled.
  assert (Hl : Forall (fun p => lp_path p = path)
                 (filter (fun p => lp_path p = path) (pendingLongPolls st))).
  { apply list.Forall_forall. intros x [? _]%list_elem_of_filter. done. }
  revert Hl. generalize (filter (fun p => lp_path p = path) (pendingLongPolls st)) as l.
  intros l Hl. enough (forall st0, streams st0 !! path = None ->
    foldl (fun st pending => pending_resolve_step self pending [] (clearTimeout (lp_id pending) st))
      st0 l = foldl resolve_gone st0 l) as -> by done.
  induction Hl as [|x l Hx Hl IH]; intros st0 Hst0; [done|]. cbn [foldl].
  unfold pending_resolve_step at 2. rewrite Hx, Hself by done.
  rewrite IH by done. f_equal. unfold resolve_gone, clearTimeout. cbn. by rewrite delete_delete_eq.
Qed.

Lemma cancelled_streams path st : streams (cancelled path st) = streams st.
Proof. unfold cancelled. cbn. apply resolve_gone_streams. Qed.

(** The effect of [deleteWithCascade] on the map. *)
Fixpoint cascade_fuel (fuel : nat) (path : string) (ss : gmap string Stream)
    : gmap string Stream :=
  match fuel with
  | O => ss
  | S fuel =>
      match ss !! path with
      | None => ss
      | Some stream =>
          let ss := delete path ss in
          if truthy (forkedFrom stream) then
            let source := or_else (forkedFrom stream) EmptyString in
            match ss !! source with
            | None => ss
            | Some parent =>
                let refs := Z.max 0 (refCount parent - 1) in
                let ss := alter (set_refCount refs) source ss in
                if (refs =? 0) && softDeleted parent then cascade_fuel fuel source ss else ss
            end
          else ss
      end
  end.

Definition cascade (path : string) (ss : gmap string Stream) : gmap string Stream :=
  cascade_fuel (S (size ss)) path ss.

Lemma clamp_max z : (if z <? 0 then 0 else z) = Z.max 0 z.
Proof. destruct (Z.ltb_spec z 0); lia. Qed.

(** The callback does not matter. *)
Lemma deleteWithCascade_self self1 self2 fuel path st :
  absent_ok self1 -> absent_ok self2 ->
  deleteWithCascade_fuel self1 fuel path st = deleteWithCascade_fuel self2 fuel path st.
Proof.
  intros H1 H2. revert path st. induction fuel as [|fuel IH]; intros path st; [done|].
  cbn [deleteWithCascade_fuel]. destruct (streams st !! path) as [stream|]; [|done].
  rewrite !cancel_absent by (done || apply lookup_delete_eq).
  destruct (truthy (forkedFrom stream)); [|done].
  destruct (streams _ !! _); [|done]. destruct (_ && _); [apply IH|done].
Qed.

Lemma delete_step_self self1 self2 path st :
  absent_ok self1 -> absent_ok self2 -> delete_step self1 path st = delete_step self2 path st.
Proof.
  intros H1 H2. unfold delete_step, deleteWithCascade_step.
  by rewrite (deleteWithCascade_self self1 self2).
Qed.

(** The recursive equation of the source: the inner call of [pending.resolve]
    is [getIfNotExpired] itself. *)
Lemma getIfNotExpired_unfold path st :
  getIfNotExpired now path st = getIfNotExpired_step now (getIfNotExpired now) path st.
Proof.
  unfold getIfNotExpired at 1. unfold getIfNotExpired_step at 1 2.
  by rewrite (delete_step_self (fun _ st => (st, None)) (getIfNotExpired now))
    by (apply absent_ok_base || apply absent_ok_step).
Qed.

Lemma absent_ok_getIfNotExpired : absent_ok (getIfNotExpired now).
Proof. apply absent_ok_step. Qed.

(** [get] and [getIfNotExpired] are the same method twice. *)
Lemma get_getIfNotExpired path st : get now path st = getIfNotExpired now path st.
Proof. by rewrite getIfNotExpired_unfold. Qed.

Lemma cancelLongPollsForStream_gone path st :
  streams st !! path = None -> cancelLongPollsForStream now path st = cancelled path st.
Proof. apply cancel_absent, absent_ok_getIfNotExpired. Qed.

Lemma deleteWithCascade_fuel_streams self fuel path st :
  absent_ok self ->
  streams (deleteWithCascade_fuel self fuel path st) = cascade_fuel fuel path (streams st).
Proof.
  intros Hs. revert path st. induction fuel as [|fuel IH]; intros path st; [done|].
  cbn [deleteWithCascade_fuel cascade_fuel].
  destruct (streams st !! path) as [stream|]; [|done].
  rewrite cancel_absent by (done || apply lookup_delete_eq). cbn zeta.
  rewrite cancelled_streams.
  destruct (truthy (forkedFrom stream)); [|apply cancelled_streams]. cbn [streams upd_streams].
  destruct (delete path (streams st) !! _) as [parent|] eqn:Hpar; [|apply cancelled_streams].
  rewrite clamp_max. destruct (_ && _).
  - rewrite IH. cbn [upd_stream upd_streams streams]. by rewrite cancelled_streams.
  - cbn [upd_stream upd_streams streams]. by rewrite cancelled_streams.
Qed.

Lemma cascade_fuel_size fuel path ss :
  (size ss < fuel)%nat -> cascade_fuel fuel path ss = cascade path ss.
Proof.
  unfold cascade. revert path ss.
  enough (forall fuel1 fuel2 path ss, (size ss < fuel1)%nat -> (size ss < fuel2)%nat ->
    cascade_fuel fuel1 path ss = cascade_fuel fuel2 path ss) by (intros; apply H1; lia).
  clear fuel. intros fuel1. induction fuel1 as [|fuel1 IH]; intros [|fuel2] path ss H1 H2; try lia.
  cbn [cascade_fuel]. destruct (ss !! path) as [stream|] eqn:Hp; [|done].
  assert (Hsz : size (delete path ss) = pred (size ss))
    by (rewrite map_size_delete; by rewrite Hp).
  assert (size ss <> 0%nat) by (apply map_size_non_empty_iff; intros ->; by rewrite lookup_empty in Hp).
  destruct (truthy _); [|done]. destruct (delete path ss !! _); [|done].
  destruct (_ && _); [|done].
  apply IH; rewrite map_size_alter; lia.
Qed.

Lemma deleteWithCascade_streams path st :
  streams (deleteWithCascade now path st) = cascade path (streams st).
Proof. apply deleteWithCascade_fuel_streams, absent_ok_getIfNotExpired. Qed.

(** The recursive equation of [deleteWithCascade], on the map. *)
Lemma cascade_unfold path ss :
  cascade path ss =
  match ss !! path with
  | None => ss
  | Some stream =>
      let ss := delete path ss in
      if truthy (forkedFrom stream) then
        let source := or_else (forkedFrom stream) EmptyString in
        match ss !! source with
        | None => ss
        | Some parent =>
            let refs := Z.max 0 (refCount parent - 1) in
            let ss := alter (set_refCount refs) source ss in
            if (refs =? 0) && softDeleted parent then cascade source ss else ss
        end
      else ss
  end.
Proof.
  unfold cascade at 1. cbn [cascade_fuel].
  destruct (ss !! path) as [stream|] eqn:Hp; [|done]. cbn zeta.
  assert (Hsz : size (delete path ss) = pred (size ss))
    by (rewrite map_size_delete; by rewrite Hp).
  assert (size ss <> 0%nat) by (apply map_size_non_empty_iff; intros ->; by rewrite lookup_empty in Hp).
  destruct (truthy _); [|done]. destruct (delete path ss !! _); [|done].
  destruct (_ && _); [|done].
  apply cascade_fuel_size. rewrite map_size_alter. lia.
Qed.

(** ** What [getIfNotExpired] does to the map *)

(** A stream that is there and has not expired. *)
Definition live (p : string) (s : Stream) st : Prop :=
  streams st !! p = Some s /\ isExpired now s = false.

Lemma getIfNotExpired_live p s st :
  live p s st -> getIfNotExpired now p st = (st, Some s).
Proof. intros [Hs He]. rewrite getIfNotExpired_unfold. unfold getIfNotExpired_step. by rewrite Hs, He. Qed.

(** The map after an expired stream at [p] was noticed. *)
Definition expire (p : string) (ss : gmap string Stream) : gmap string Stream :=
  match ss !! p with
  | None => ss
  | Some s =>
      if isExpired now s then
        if 0 <? refCount s then alter (set_softDeleted true) p ss
        else if softDeleted s then ss else cascade p ss
      else ss
  end.

Lemma getIfNotExpired_streams p st :
  streams (getIfNotExpired now p st).1 = expire p (streams st).
Proof.
  rewrite getIfNotExpired_unfold. unfold getIfNotExpired_step, expire.
  destruct (streams st !! p) as [s|] eqn:Hs; [|done].
  destruct (isExpired now s); [|done]. destruct (0 <? refCount s) eqn:Hr; [done|].
  unfold delete_step. rewrite Hs, Hr. destruct (softDeleted s); [done|].
  cbn [fst]. apply deleteWithCascade_streams.
Qed.

(** What is found is in the map afterwards; a stream that is not soft-deleted
    is live. *)
Lemma getIfNotExpired_Some p st st' s :
  getIfNotExpired now p st = (st', Some s) ->
  streams st' !! p = Some s /\
  (softDeleted s = false -> live p s st /\ st' = st) /\
  (live p s st /\ st' = st \/
   softDeleted s = true /\ st' = upd_stream p (set_softDeleted true) st /\
   exists s0, streams st !! p = Some s0 /\ isExpired now s0 = true /\ 0 < refCount s0 /\
     s = set_softDeleted true s0).
Proof.
  rewrite getIfNotExpired_unfold. unfold getIfNotExpired_step, live.
  destruct (streams st !! p) as [s0|] eqn:Hs; [|done].
  destruct (isExpired now s0) eqn:He; [|intros [= <- <-]; by eauto 8].
  destruct (0 <? refCount s0) eqn:Hr; [|done]. intros [= <- <-].
  split_and!; [|done|].
  - cbn. by rewrite lookup_alter_eq, Hs.
  - right. split_and!; [done..|]. exists s0. split_and!; [done..|lia|done].
Qed.
End equations.

#[export] Hint Rewrite @cancelled_streams @resolve_gone_streams @deleteWithCascade_streams
  @getIfNotExpired_streams : store.

#[global] Arguments getIfNotExpired : simpl never.
#[global] Arguments cancelled : simpl never.
#[global] Arguments cascade : simpl never.
#[global] Arguments deleteWithCascade : simpl never.
#[global] Arguments expire : simpl never.
