(* ===== verification/StoreSteps.v ===== *)
(** * An abstract store, and the refinement of the class to it

    [step] says in which ways the map of streams may change at all: a stream's
    bookkeeping changes, a message is appended to an open stream, a stream
    without forks is collected with the parents it kept alive, a stream or a
    fork is created, or [create] drops an expired stream at its own path.  [exec_steps] is the
    refinement: every operation of [StreamStore] is a sequence of such steps.
    Invariants are proved for the steps. *)

From S2P Require Import Prelude Offsets Producer Text Json Types JsonMode StreamStore StoreLemmas.
Local Open Scope js_scope.

(** ** The messages of a stream *)

(** [ms] were appended one after the other from [base] on, up to [cur]. *)
Fixpoint chain (base : string) (ms : list StreamMessage) (cur : string) : Prop :=
  match ms with
  | [] => cur = base
  | m :: ms =>
      position base + FRAME_OVERHEAD + Z.of_nat (length (msg_data m)) <= MAX_SAFE_INTEGER /\
      msg_offset m = next_offset base (Z.of_nat (length (msg_data m))) /\
      chain (msg_offset m) ms cur
  end.

(** Where the own messages of a stream start. *)
Definition base (s : Stream) : string := or_else (forkOffset s) ZERO_OFFSET.

Definition stream_ok (s : Stream) : Prop :=
  wf_offset (base s) /\ chain (base s) (messages s) (currentOffset s).

Lemma chain_snoc b ms cur m :
  chain b ms cur ->
  position cur + FRAME_OVERHEAD + Z.of_nat (length (msg_data m)) <= MAX_SAFE_INTEGER ->
  msg_offset m = next_offset cur (Z.of_nat (length (msg_data m))) ->
  chain b (ms ++ [m]) (msg_offset m).
Proof.
  revert b. induction ms as [|m' ms IH]; intros b; cbn.
  - intros -> ? ?. done.
  - intros (? & ? & ?) ? ?. split_and!; auto.
Qed.

Lemma chain_wf b ms cur :
  wf_offset b -> chain b ms cur -> wf_offset cur /\ position b <= position cur.
Proof.
  revert b. induction ms as [|m ms IH]; intros b Hb; cbn.
  - intros ->. split; [done|lia].
  - intros (Hfit & Ho & Hc). rewrite Ho in Hc.
    destruct (IH _ (next_offset_wf b (Z.of_nat (length (msg_data m))) Hb ltac:(lia) Hfit) Hc) as [Hw Hp]. split; [done|].
    rewrite next_offset_position in Hp by (done || lia). unfold FRAME_OVERHEAD in Hp. lia.
Qed.

(** Appending one message keeps a stream in order. *)
Lemma stream_ok_append s m :
  stream_ok s ->
  position (currentOffset s) + FRAME_OVERHEAD + Z.of_nat (length (msg_data m)) <= MAX_SAFE_INTEGER ->
  msg_offset m = next_offset (currentOffset s) (Z.of_nat (length (msg_data m))) ->
  stream_ok (set_messages (messages s ++ [m]) (msg_offset m) s).
Proof. intros [Hb Hc] Hf Ho. split; [done|]. by eapply chain_snoc. Qed.

Lemma prefix_offset_wf o len :
  wf_offset o -> 0 <= len -> position o + FRAME_OVERHEAD + len <= MAX_SAFE_INTEGER ->
  prefix_offset o len = next_offset o len.
Proof.
  intros Ho Hl Hf. pose proof (wf_offset_position_bound _ Ho) as Hb.
  destruct Ho as (n & Hn & ->). rewrite position_mk_offset in * by done.
  unfold FRAME_OVERHEAD in *.
  apply prefix_offset_next; rewrite ?offset_parts_mk by done; cbn; intros; simplify_eq; lia.
Qed.

(** ** Steps *)

(** A change of bookkeeping: [closed] and [softDeleted] are set once, and
    [softDeleted] only on a stream that has forks. *)
Definition bookkeeping (s s' : Stream) : Prop :=
  path s' = path s /\ messages s' = messages s /\ currentOffset s' = currentOffset s /\
  forkedFrom s' = forkedFrom s /\ forkOffset s' = forkOffset s /\ refCount s' = refCount s /\
  (closed s = true -> closed s' = true) /\ (softDeleted s = true -> softDeleted s' = true) /\
  (softDeleted s' = true -> softDeleted s = true \/ 0 < refCount s).

(** Only the path [fresh] may be created.  [safe] steps leave out what breaks the invariants: a stream that outgrows
    the safe integers, a fork offset in another notation, and the dropping of
    an expired stream that is or has a fork. *)
Inductive step (safe : bool) (fresh : option string) (ss : gmap string Stream) : gmap string Stream -> Prop :=
| step_book p s s' :
    ss !! p = Some s -> bookkeeping s s' -> step safe fresh ss (<[p := s']> ss)
| step_append p s m :
    ss !! p = Some s -> closed s = false -> softDeleted s = false ->
    msg_offset m = next_offset (currentOffset s) (Z.of_nat (length (msg_data m))) ->
    (safe = true -> position (currentOffset s) + FRAME_OVERHEAD
                    + Z.of_nat (length (msg_data m)) <= MAX_SAFE_INTEGER) ->
    step safe fresh ss (<[p := set_messages (messages s ++ [m]) (msg_offset m) s]> ss)
| step_collect p s :
    ss !! p = Some s -> refCount s <= 0 -> step safe fresh ss (cascade p ss)
| step_drop p s :
    ss !! p = Some s -> (safe = true -> refCount s = 0 /\ forkedFrom s = None) -> fresh = Some p ->
    step safe fresh ss (delete p ss)
| step_create p s :
    fresh = Some p -> ss !! p = None -> path s = p -> refCount s = 0 -> softDeleted s = false -> forkedFrom s = None ->
    forkOffset s = None -> (safe = true -> stream_ok s) ->
    step safe fresh ss (<[p := s]> ss)
| step_fork p s q src fo :
    fresh = Some p -> ss !! p = None -> path s = p -> refCount s = 0 -> softDeleted s = false -> forkedFrom s = Some q ->
    q <> EmptyString -> ss !! q = Some src -> forkOffset s = Some fo ->
    String.ltb (currentOffset src) fo = false ->
    (safe = true -> wf_offset (currentOffset src) -> stream_ok s) ->
    step safe fresh ss (<[p := s]> (<[q := set_refCount (refCount src + 1) src]> ss)).

Definition steps (safe : bool) (fresh : option string) : relation (gmap string Stream) :=
  rtc (step safe fresh).

Ltac book := unfold bookkeeping; cbn; split_and!; auto.

Lemma bookkeeping_refl s : bookkeeping s s.
Proof. book. Qed.

Lemma step_alter safe fresh p f ss :
  (forall s, ss !! p = Some s -> bookkeeping s (f s)) -> steps safe fresh ss (alter f p ss).
Proof.
  intros Hf. rewrite alter_alt. destruct (ss !! p) as [s|] eqn:Hs; [|apply rtc_refl].
  apply rtc_once. econstructor; eauto.
Qed.

(** ** The operations as data *)

Inductive op :=
| OCreate (path : string) (o : CreateOptions)
| OGet (path : string)
| OTouchAccess (path : string)
| ODelete (path : string)
| OAppend (path : string) (data : bytes) (o : AppendOptions)
| OCloseStream (path : string)
| OCloseStreamWithProducer (path producerId : string) (e seq : Z)
| ORead (path : string) (offset : option string)
| OFormatResponse (path : string) (ms : list StreamMessage)
| OWaitForMessages (path offset : string)
| OPollTimeout (id : nat)
| OCancelAllWaits.

Section exec.
Context `{!JsonLib} `{!DateLib}.
Context (now : Z).

(** The store after an operation; [clear] empties it and is left out. *)
Definition exec (x : op) (st : StreamStore) : StreamStore :=
  match x with
  | OCreate path o => (create now path o st).1
  | OGet path => (get now path st).1
  | OTouchAccess path => touchAccess now path st
  | ODelete path => (delete_ now path st).1
  | OAppend path data o => (append now path data o st).1
  | OCloseStream path => (closeStream now path st).1
  | OCloseStreamWithProducer path id e seq => (closeStreamWithProducer now path id e seq st).1
  | ORead path offset => (read now path offset st).1
  | OFormatResponse path ms => (formatResponse now path ms st).1
  | OWaitForMessages path offset => (waitForMessages now path offset st).1
  | OPollTimeout id => poll_timeout now id st
  | OCancelAllWaits => cancelAllWaits now st
  end.

(** The bytes an append stores. *)
Definition stored_bytes (s : Stream) (data : bytes) (init : bool) : result StoreError bytes :=
  if String.eqb (normalizeContentType (contentType s)) "application/json"
  then processJsonAppend data init else Ok data.

Definition room (s : Stream) (data : bytes) (init : bool) : Prop :=
  forall b, stored_bytes s data init = Ok b ->
    position (currentOffset s) + FRAME_OVERHEAD + Z.of_nat (length b) <= MAX_SAFE_INTEGER.

(** The first part of [create_new]. *)
Definition fork_of (o : CreateOptions) : M StreamStore StoreError (option (Stream * string * option bytes)) :=
  if truthy (co_forkedFrom o) then
    let* f := resolve_fork now (or_else (co_forkedFrom o) EmptyString) o in ret (Some f)
  else ret None.

(** The store [create_new] starts from. *)
Definition create_state (path : string) (st : StreamStore) : StreamStore :=
  match streams st !! path with
  | Some s =>
      if isExpired now s then cancelLongPollsForStream now path (upd_streams (delete path) st)
      else st
  | None => st
  end.

(** What the theorems about contents and reference counts ask of an operation:
    no stream outgrows the safe integers, a fork offset given by the caller is
    in the server's own notation, and [create] does not meet an expired stream
    that is or has a fork. *)
Definition create_safe (path : string) (o : CreateOptions) (st : StreamStore) : Prop :=
  (forall s, streams st !! path = Some s -> isExpired now s = true ->
     refCount s = 0 /\ forkedFrom s = None) /\
  (forall fo, co_forkOffset o = Some fo -> fo <> EmptyString -> wf_offset fo) /\
  (forall st1 fork, fork_of o (create_state path st) = (st1, Ok fork) ->
     let s := build_stream now path o fork in
     (forall src fo prefix, fork = Some (src, fo, Some prefix) ->
        position fo + FRAME_OVERHEAD + Z.of_nat (length prefix) <= MAX_SAFE_INTEGER) /\
     (forall data, co_initialData o = Some data -> room s data true)).

Definition op_safe (x : op) (st : StreamStore) : Prop :=
  match x with
  | OCreate path o => create_safe path o st
  | OAppend path data _ => forall s, streams st !! path = Some s -> room s data false
  | _ => True
  end.

Lemma appendToStream_inv s data init s' om :
  appendToStream now s data init = Ok (s', om) ->
  (om = None /\ s' = s) \/
  exists b, stored_bytes s data init = Ok b /\
    let m := mkStreamMessage b (next_offset (currentOffset s) (Z.of_nat (length b))) now in
    om = Some m /\ s' = set_messages (messages s ++ [m]) (msg_offset m) s.
Proof.
  unfold appendToStream, stored_bytes. destruct (String.eqb _ _).
  - destruct (processJsonAppend data init) as [b|e]; [|done].
    destruct (length b =? 0)%nat; intros [= <- <-]; [by left|right; eauto].
  - intros [= <- <-]. right; eauto.
Qed.

(** ** The refinement *)

Section refinement.
Context (safe : bool) (fresh : option string).

Definition evolves (st st' : StreamStore) : Prop := steps safe fresh (streams st) (streams st').

#[local] Instance evolves_preorder : PreOrder evolves.
Proof. split; [intros st; apply rtc_refl|intros a b c Hab Hbc; unfold evolves, steps in *; by etrans]. Qed.

Lemma evolves_eq st st' : streams st' = streams st -> evolves st st'.
Proof. unfold evolves. intros ->. apply rtc_refl. Qed.

Lemma evolves_alter p f st :
  (forall s, streams st !! p = Some s -> bookkeeping s (f s)) -> evolves st (upd_stream p f st).
Proof. apply step_alter. Qed.

Lemma evolves_getIfNotExpired p st : evolves st (getIfNotExpired now p st).1.
Proof.
  unfold evolves. rewrite getIfNotExpired_streams. unfold expire.
  destruct (streams st !! p) as [s|] eqn:Hs; [|apply rtc_refl].
  destruct (isExpired now s); [|apply rtc_refl].
  destruct (Z.ltb_spec 0 (refCount s)).
  - apply step_alter. intros s' Hs'. simplify_eq. book.
  - destruct (softDeleted s); [apply rtc_refl|]. apply rtc_once. by econstructor.
Qed.

Lemma evolves_pending_resolve p msgs st : evolves st (pending_resolve now p msgs st).
Proof.
  unfold pending_resolve, pending_resolve_step.
  pose proof (evolves_getIfNotExpired (lp_path p)
    (removePendingLongPoll p (clearTimeout (lp_id p) st))) as Hg.
  destruct (getIfNotExpired _ _ _) as [st' r]. exact Hg.
Qed.

Lemma evolves_notify_closed p st : evolves st (notifyLongPollsClosed now p st).
Proof. unfold notifyLongPollsClosed. apply (mono_foldl evolves). intros. apply evolves_pending_resolve. Qed.

Lemma evolves_delete p st : evolves st (delete_ now p st).1.
Proof.
  unfold delete_, delete_step. destruct (streams st !! p) as [s|] eqn:Hs; [|reflexivity].
  destruct (softDeleted s); [reflexivity|]. destruct (Z.ltb_spec 0 (refCount s)).
  - apply evolves_alter. intros s' Hs'. simplify_eq. book.
  - unfold evolves. cbn [fst]. fold (deleteWithCascade now p st).
    rewrite deleteWithCascade_streams. apply rtc_once. by econstructor.
Qed.

(** *** Methods that throw *)

(** Whatever the method returns, it has made steps. *)
Notation mono := (monotone (E := StoreError) evolves).

Lemma mono_getIfNotExpired p : mono (call (getIfNotExpired now p)).
Proof. apply mono_call, evolves_getIfNotExpired. Qed.

(** [readForkedMessages] changes nothing. *)
Lemma readForkedMessages_state q off cap st : (readForkedMessages q off cap st).1 = st.
Proof. unfold readForkedMessages. by destruct (readForkedMessages_fuel _ _ _ _ _). Qed.

Lemma mono_readForked q off cap : mono (readForkedMessages q off cap).
Proof. intros st. rewrite readForkedMessages_state. reflexivity. Qed.

#[local] Hint Resolve mono_getIfNotExpired mono_readForked : mono.

Lemma mono_readFromFork s off : mono (readFromFork s off).
Proof. unfold readFromFork. mono_steps. Qed.
#[local] Hint Resolve mono_readFromFork : mono.

Lemma mono_read p off : mono (read now p off).
Proof. unfold read. mono_steps. Qed.
#[local] Hint Resolve mono_read : mono.

Lemma mono_formatResponse p ms : mono (formatResponse now p ms).
Proof. unfold formatResponse. mono_steps. Qed.

Lemma mono_pending_resolve p msgs : mono (modify (pending_resolve now p msgs)).
Proof. apply mono_modify. intros. apply evolves_pending_resolve. Qed.
#[local] Hint Resolve mono_pending_resolve : mono.

Lemma mono_notify_closed p : mono (modify (notifyLongPollsClosed now p)).
Proof. apply mono_modify. intros. apply evolves_notify_closed. Qed.
#[local] Hint Resolve mono_notify_closed : mono.

Lemma mono_notifyLongPolls p : mono (notifyLongPolls now p).
Proof.
  intros st. unfold notifyLongPolls.
  generalize (filter (fun q => lp_path q = p) (pendingLongPolls st)) as l.
  intros l. enough (mono (notify_each now p l)) as Hm by apply Hm.
  induction l as [|x l IH]; cbn [notify_each]; mono_steps.
Qed.
#[local] Hint Resolve mono_notifyLongPolls : mono.

Lemma mono_waitForMessages p off : mono (waitForMessages now p off).
Proof.
  unfold waitForMessages. mono_steps. apply mono_call. intros st. by apply evolves_eq.
Qed.

Lemma evolves_poll_timeout id st : evolves st (poll_timeout now id st).
Proof.
  unfold poll_timeout. destruct (timers st !! id) as [p|]; [|reflexivity].
  pose proof (evolves_getIfNotExpired (lp_path p)
    (removePendingLongPoll p (clearTimeout id st))) as Hg.
  destruct (getIfNotExpired _ _ _) as [st' r]. exact Hg.
Qed.

Lemma evolves_cancel_from fuel n i st : evolves st (cancel_from now fuel n i st).
Proof.
  revert i st. induction fuel as [|fuel IH]; intros i st; [reflexivity|]. cbn [cancel_from].
  destruct (array n st !! i) as [p|]; [|reflexivity].
  etransitivity; [|apply IH]. etransitivity; [|apply evolves_pending_resolve].
  by apply evolves_eq.
Qed.

Lemma bookkeeping_set_producers m s : bookkeeping s (set_producers m s).
Proof. book. Qed.

Lemma bookkeeping_commit o v s : bookkeeping s (commit_append o v s).
Proof.
  unfold commit_append.
  destruct v, (ao_seq o), (or_else (ao_close o) false), (ao_producerId o); book.
Qed.

Lemma validate_options_book s o s' v :
  validate_options now s o = (s', v) -> s' = s \/ exists m, s' = set_producers m s.
Proof.
  unfold validate_options. destruct (ao_producerId o), (ao_producerEpoch o), (ao_producerSeq o);
    try (intros [= <- <-]; by left).
  destruct (validateProducer _ _ _ _ _). intros [= <- <-]. right; eauto.
Qed.

(** Overwriting a stream that is known. *)
Lemma evolves_store p s s' st :
  streams st !! p = Some s -> bookkeeping s s' -> evolves st (upd_stream p (fun _ => s') st).
Proof. intros Hs Hb. apply evolves_alter. intros s0 Hs0. by simplify_eq. Qed.

Lemma streams_upd_const p s s' st :
  streams st !! p = Some s -> streams (upd_stream p (fun _ => s') st) = <[p := s']> (streams st).
Proof. intros Hs. cbn. by rewrite (alter_alt_Some _ _ _ s). Qed.

Lemma mono_closeStream p : mono (closeStream now p).
Proof.
  unfold closeStream. apply (mono_bind _); [mono_auto|]. intros [s|]; [|mono_auto].
  destruct (softDeleted s); [mono_auto|].
  apply (mono_bind _); [|intros; apply (mono_bind _); mono_auto].
  apply mono_modify. intros st. apply evolves_alter. intros s0 _. book.
Qed.

Lemma mono_closeStreamWithProducer p id e seq : mono (closeStreamWithProducer now p id e seq).
Proof.
  intros st. unfold closeStreamWithProducer.
  apply (mono_bind_strong _); [apply mono_getIfNotExpired|]. intros st1 [s|] Hg; [|reflexivity].
  assert (Hs : streams st1 !! p = Some s).
  { unfold call in Hg. destruct (getIfNotExpired now p st) as [st2 r] eqn:Hr. simplify_eq.
    by apply getIfNotExpired_Some in Hr as [? _]. }
  destruct (closed s); [destruct (same_closer _ _ _ _); reflexivity|].
  destruct (validateProducer _ _ _ _ _) as [m v].
  apply (mono_bind_strong _); [eapply evolves_store; [done|first [done|book]]|]. intros st2 [] [= <-].
  destruct (negb _); [reflexivity|].
  apply (mono_bind_strong _); [|intros; apply (mono_bind _); mono_auto].
  apply (evolves_store p (set_producers m s)); [|book].
  rewrite (streams_upd_const p s) by done. apply lookup_insert_eq.
Qed.

Lemma evolves_append p data o st :
  (safe = true -> op_safe (OAppend p data o) st) -> evolves st (append now p data o st).1.
Proof.
  intros Hsafe. unfold append.
  apply (mono_bind_strong _); [apply mono_getIfNotExpired|]. intros st1 [s|] Hg; [|reflexivity].
  destruct (softDeleted s) eqn:Hsd; [reflexivity|].
  destruct (closed s) eqn:Hcl; [destruct (_ && _); reflexivity|].
  destruct (_ && _); [reflexivity|].
  unfold call in Hg. destruct (getIfNotExpired now p st) as [st2 r] eqn:Hr. simplify_eq.
  apply getIfNotExpired_Some in Hr as (Hs & Hlive & _). apply Hlive in Hsd as Hst.
  destruct Hst as [_ ->]. clear Hlive.
  destruct (validate_options now s o) as [s1 v] eqn:Hv.
  assert (Hb1 : bookkeeping s s1 /\ closed s1 = false /\ softDeleted s1 = false /\
    contentType s1 = contentType s).
  { apply validate_options_book in Hv as [->|[m ->]];
      [split_and!; auto using bookkeeping_refl|].
    split_and!; [apply bookkeeping_set_producers|done..]. }
  destruct Hb1 as (Hb1 & Hcl1 & Hsd1 & Hct1).
  apply (mono_bind_strong _); [eapply evolves_store; [done|first [done|book]]|]. intros st2 [] [= <-].
  set (st1 := upd_stream p (fun _ => s1) st).
  assert (Hs1 : streams st1 !! p = Some s1)
    by (unfold st1; rewrite (streams_upd_const p s) by done; apply lookup_insert_eq).
  destruct (negb _); [reflexivity|].
  apply (mono_bind_strong _);
    [destruct (ao_seq o), (st_lastSeq s1); try reflexivity; destruct (negb _); reflexivity|].
  intros st2 [] Hst2.
  assert (st2 = st1) as -> by (destruct (ao_seq o), (st_lastSeq s1); try destruct (negb _);
      unfold ret, throw in Hst2; congruence).
  clear Hst2. apply (mono_bind_strong _); [reflexivity|]. intros st2 [s2 om] Ha.
  injection Ha as <- Ha. apply (mono_bind_strong _).
  2: { intros st3 _ _. apply (mono_bind _); [mono_auto|]. intros _.
       apply (mono_bind _); [destruct (or_else _ _); mono_auto|]. intros _.
       destruct (_ || _); mono_auto. }
  cbn [modify fst]. unfold evolves. rewrite (streams_upd_const p s1) by done.
  apply appendToStream_inv in Ha as [[-> ->]|(b & Hb & -> & ->)].
  { apply rtc_once. econstructor; [done|apply bookkeeping_commit]. }
  destruct Hb1 as (_ & _ & Hcur & _).
  eapply rtc_l; [apply (step_append _ _ _ p s1 (mkStreamMessage b
    (next_offset (currentOffset s1) (Z.of_nat (length b))) now)); [done..|]|].
  - intros Hsf. specialize (Hsafe Hsf s Hs b). cbn [msg_data]. rewrite Hcur. apply Hsafe.
    revert Hb. unfold stored_bytes. by rewrite Hct1.
  - cbn [msg_offset]. apply rtc_once.
    rewrite <-(insert_insert_eq (streams st1) p (commit_append _ _ _)
      (set_messages (messages s1 ++ [mkStreamMessage b
        (next_offset (currentOffset s1) (Z.of_nat (length b))) now])
        (next_offset (currentOffset s1) (Z.of_nat (length b))) s1)).
    econstructor; [apply lookup_insert_eq|apply bookkeeping_commit].
Qed.

(** *** Creation *)

Definition unchanged {A} (m : M StreamStore StoreError A) : Prop := forall st, (m st).1 = st.

Lemma unchanged_bind {A B} (m : M StreamStore StoreError A) (f : A -> M StreamStore StoreError B) :
  unchanged m -> (forall a, unchanged (f a)) -> unchanged (bind m f).
Proof.
  intros Hm Hf st. unfold bind. specialize (Hm st). destruct (m st) as [st1 [a|e]]; cbn in *.
  - rewrite Hf. done.
  - done.
Qed.

Lemma unchanged_resolveForkSubOffset s fo n j : unchanged (resolveForkSubOffset s fo n j).
Proof.
  unfold resolveForkSubOffset. apply unchanged_bind.
  - destruct (truthy _); [|done]. apply unchanged_bind; [|done].
    intros st. apply readForkedMessages_state.
  - by intros [|m ms].
Qed.

(** A fork's source is there, open to forks, and has reached the fork offset;
    its reference count is all that changes. *)
Lemma resolve_fork_Ok q o st st' src fo prefix :
  resolve_fork now q o st = (st', Ok (src, fo, prefix)) ->
  streams st !! q = Some src /\ softDeleted src = false /\ isExpired now src = false /\
  st' = upd_stream q (set_refCount (refCount src + 1)) st /\
  String.ltb fo ZERO_OFFSET = false /\ String.ltb (currentOffset src) fo = false /\
  (fo = currentOffset src \/ co_forkOffset o = Some fo /\ fo <> EmptyString).
Proof.
  unfold resolve_fork. unfold bind at 1, get_state. destruct (streams st !! q) as [s|]; [|done].
  destruct (softDeleted s) eqn:Hsd; [done|]. destruct (isExpired now s) eqn:He; [done|].
  destruct (_ && _); [done|].
  set (fo' := if truthy (co_forkOffset o) then _ else _).
  destruct (_ || _) eqn:Hfo; [done|]. apply orb_false_iff in Hfo as [Hz Hc].
  intros (st1 & p & Hp & Hrest)%bind_Ok_inv.
  assert (st1 = st) as ->.
  { destruct (co_forkSubOffset o) as [n|]; [|by injection Hp].
    destruct (0 <? n); [|by injection Hp].
    match type of Hp with bind ?m ?f _ = _ =>
      pose proof (unchanged_bind m f (unchanged_resolveForkSubOffset _ _ _ _) ltac:(done) st) as Hu
    end. by rewrite Hp in Hu. }
  injection Hrest as <- <- <- <-. split_and!; try done.
  unfold fo'. destruct (co_forkOffset o) as [x|]; cbn; [|by left].
  destruct (String.eqb_spec x EmptyString) as [->|]; cbn; [by left|by right].
Qed.

Lemma resolve_fork_Err q o st st' e :
  resolve_fork now q o st = (st', Err e) -> st' = st.
Proof.
  unfold resolve_fork. unfold bind at 1, get_state. destruct (streams st !! q) as [s|];
    [|by intros [= <- _]].
  destruct (softDeleted s); [by intros [= <- _]|]. destruct (isExpired now s); [by intros [= <- _]|].
  destruct (_ && _); [by intros [= <- _]|]. destruct (_ || _); [by intros [= <- _]|].
  intros [(st1 & p & _ & [=])|(e' & Hp & _)]%bind_inv.
  destruct (co_forkSubOffset o) as [n|]; [|done]. destruct (0 <? n); [|done].
  match type of Hp with bind ?m ?f _ = _ =>
    pose proof (unchanged_bind m f (unchanged_resolveForkSubOffset _ _ _ _) ltac:(done) st) as Hu
  end. by rewrite Hp in Hu.
Qed.

Definition fork_fields (fork : option (Stream * string * option bytes)) (o : CreateOptions)
    (s : Stream) : Prop :=
  match fork with
  | Some (_, fo, _) => forkedFrom s = co_forkedFrom o /\ forkOffset s = Some fo
  | None => forkedFrom s = None /\ forkOffset s = None
  end.

Lemma build_stream_fields p o fork :
  let s := build_stream now p o fork in
  path s = p /\ refCount s = 0 /\ softDeleted s = false /\ fork_fields fork o s.
Proof.
  unfold build_stream. destruct fork as [[[src fo] prefix]|]; [|done].
  destruct (resolveForkExpiry _ _ _) as [ttl ex].
  destruct prefix as [b|]; [destruct (0 <? length b)%nat|]; done.
Qed.

Lemma build_stream_ok p o fork :
  (forall src fo prefix, fork = Some (src, fo, prefix) -> wf_offset fo) ->
  (forall src fo prefix, fork = Some (src, fo, Some prefix) ->
     position fo + FRAME_OVERHEAD + Z.of_nat (length prefix) <= MAX_SAFE_INTEGER) ->
  stream_ok (build_stream now p o fork).
Proof.
  intros Hwf Hfit. unfold build_stream. destruct fork as [[[src fo] prefix]|].
  2: { split; [apply wf_ZERO_OFFSET|done]. }
  specialize (Hwf _ _ _ eq_refl).
  destruct (resolveForkExpiry _ _ _) as [ttl ex].
  destruct prefix as [b|]; [destruct (0 <? length b)%nat|]; split; try done.
  specialize (Hfit _ _ _ eq_refl). cbn. rewrite prefix_offset_wf by (done || lia). done.
Qed.

Lemma append_initial_Ok source o s st st' s' :
  append_initial now source o s st = (st', Ok s') ->
  st' = st /\ (s' = s \/ exists data om, co_initialData o = Some data /\
                 appendToStream now s data true = Ok (s', om)).
Proof.
  unfold append_initial. destruct (co_initialData o) as [data|]; [|intros [= <- <-]; by eauto].
  destruct (0 <? length data)%nat; [|intros [= <- <-]; by eauto].
  destruct (appendToStream now s data true) as [[s1 om]|e] eqn:Ha.
  - intros [= <- <-]. split; [done|]. right. eauto.
  - intros [(?&?&_&[=])|(e'&Hx&_)]%bind_inv. by destruct source.
Qed.

Lemma append_initial_Err source o s st st' e :
  append_initial now source o s st = (st', Err e) ->
  st' = match source with
        | Some q => upd_stream q (fun s => set_refCount (refCount s - 1) s) st
        | None => st
        end.
Proof.
  unfold append_initial. destruct (co_initialData o) as [data|]; [|done].
  destruct (0 <? length data)%nat; [|done].
  destruct (appendToStream now s data true) as [[s1 om]|e1]; [done|].
  destruct source; by intros [= <- _].
Qed.

(** The initial data changes the messages only. *)
Lemma initial_fields fork o s s' data om :
  appendToStream now s data true = Ok (s', om) ->
  path s = path s' /\ refCount s = refCount s' /\ softDeleted s = softDeleted s' /\
  (fork_fields fork o s -> fork_fields fork o s') /\
  (stream_ok s -> room s data true -> stream_ok s').
Proof.
  intros [[_ ->]|(b & Hb & _ & ->)]%appendToStream_inv; [done|]. cbn. split_and!; try done.
  intros Hok Hroom. apply (stream_ok_append s (mkStreamMessage b _ now)); [done| |done].
  by apply Hroom.
Qed.

Lemma create_state_absent p st :
  match streams st !! p with Some s => isExpired now s = true | None => True end ->
  streams (create_state p st) !! p = None /\
  streams (create_state p st) = delete p (streams st).
Proof.
  unfold create_state. destruct (streams st !! p) as [s|] eqn:Hs.
  - intros ->. rewrite cancelLongPollsForStream_gone, cancelled_streams by apply lookup_delete_eq.
    cbn. by rewrite lookup_delete_eq.
  - intros _. by rewrite delete_id.
Qed.

Lemma rollback q src (st : StreamStore) :
  streams st !! q = Some src ->
  streams (upd_stream q (fun s => set_refCount (refCount s - 1) s)
             (upd_stream q (set_refCount (refCount src + 1)) st)) = streams st.
Proof.
  intros Hq. cbn. apply map_eq. intros i. destruct (decide (i = q)) as [->|].
  - rewrite !lookup_alter_eq, Hq. cbn. f_equal. destruct src; unfold set_refCount; cbn.
    f_equal. lia.
  - by rewrite !lookup_alter_ne.
Qed.

Lemma create_new_unfold p o st :
  create_new now p o st =
  bind (fork_of o) (fun fork =>
    bind (append_initial now
            (if truthy (co_forkedFrom o) then Some (or_else (co_forkedFrom o) EmptyString) else None)
            o (build_stream now p o fork)) (fun stream =>
    bind (modify (upd_streams (insert p stream))) (fun _ => ret stream))) st.
Proof. reflexivity. Qed.

Lemma fork_of_inv o st st1 fork :
  fork_of o st = (st1, Ok fork) ->
  (truthy (co_forkedFrom o) = false /\ fork = None /\ st1 = st) \/
  exists q src fo prefix, co_forkedFrom o = Some q /\ q <> EmptyString /\
    fork = Some (src, fo, prefix) /\ resolve_fork now q o st = (st1, Ok (src, fo, prefix)).
Proof.
  unfold fork_of. destruct (co_forkedFrom o) as [q|]; cbn; [|intros [= <- <-]; by left].
  destruct (String.eqb_spec q EmptyString); cbn; [intros [= <- <-]; by left|].
  intros (st2 & [[src fo] prefix] & Hr & [= -> <-])%bind_Ok_inv. right.
  exists q, src, fo, prefix. done.
Qed.

Lemma fork_of_Err o st st1 e : fork_of o st = (st1, Err e) -> st1 = st.
Proof.
  unfold fork_of. destruct (truthy _); [|done].
  intros [(?&?&_&[=])|(e'&Hx&_)]%bind_inv. by apply resolve_fork_Err in Hx.
Qed.

Lemma evolves_create_new p o st :
  fresh = Some p -> streams st !! p = None ->
  (safe = true ->
   (forall fo, co_forkOffset o = Some fo -> fo <> EmptyString -> wf_offset fo) /\
   forall st1 fork, fork_of o st = (st1, Ok fork) ->
     (forall src fo prefix, fork = Some (src, fo, Some prefix) ->
        position fo + FRAME_OVERHEAD + Z.of_nat (length prefix) <= MAX_SAFE_INTEGER) /\
     (forall data, co_initialData o = Some data -> room (build_stream now p o fork) data true)) ->
  evolves st (create_new now p o st).1.
Proof.
  intros Hfresh Hp Hsafe. rewrite create_new_unfold. unfold bind at 1.
  destruct (fork_of o st) as [st1 [fork|e]] eqn:Hfork; cycle 1.
  { apply fork_of_Err in Hfork as ->. reflexivity. }
  pose proof (build_stream_fields p o fork) as (Hpath & Hrefs & Hsd & Hff).
  unfold bind at 1. destruct (append_initial _ _ _ _ _) as [st2 [s|e]] eqn:Ha.
  - apply append_initial_Ok in Ha as [-> Ha]. cbn.
    assert (Hs : path s = p /\ refCount s = 0 /\ softDeleted s = false /\ fork_fields fork o s /\
      (safe = true -> (forall src fo prefix, fork = Some (src, fo, prefix) -> wf_offset fo) ->
       stream_ok s)).
    { destruct Ha as [->|(data & om & Hd & Ha)].
      - split_and!; auto. intros Hsf Hwf. destruct (Hsafe Hsf) as [_ Hf].
        apply build_stream_ok; [done|]. by apply (Hf st1).
      - apply (initial_fields fork o) in Ha as (<- & <- & <- & Hff' & Hok). split_and!; auto.
        intros Hsf Hwf. destruct (Hsafe Hsf) as [_ Hf]. destruct (Hf _ _ eq_refl) as [Hpre Hroom].
        apply Hok; [by apply build_stream_ok|by apply Hroom]. }
    destruct Hs as (Hps & Hrs & Hss & Hfs & Hoks). unfold evolves. cbn.
    apply fork_of_inv in Hfork as [(_ & -> & ->)|(q & src & fo & prefix & Hq & Hne & -> & Hr)].
    + destruct Hfs as [Hf1 Hf2]. apply rtc_once. apply step_create; try done.
      intros Hsf. apply Hoks; [done|]. by intros.
    + apply resolve_fork_Ok in Hr as (Hsrc & _ & _ & -> & _ & Hcur & Hfo).
      destruct Hfs as [Hf1 Hf2]. cbn. rewrite (alter_alt_Some _ _ _ src) by done.
      apply rtc_once. eapply step_fork; try done; [congruence|].
      intros Hsf Hwf. apply Hoks; [done|]. intros ? fo' ? [= <- <- <-].
      destruct Hfo as [->|[Hfo Hne']]; [done|]. by apply (Hsafe Hsf).
  - apply append_initial_Err in Ha as ->.
    apply fork_of_inv in Hfork as [(-> & -> & ->)|(q & src & fo & prefix & Hq & Hne & -> & Hr)];
      [reflexivity|].
    apply resolve_fork_Ok in Hr as (Hsrc & _ & _ & -> & _). rewrite Hq. cbn [truthy or_else].
    rewrite (proj2 (String.eqb_neq q EmptyString)) by done. cbn [negb].
    apply evolves_eq. by apply rollback.
Qed.

Lemma evolves_create p o st :
  fresh = Some p -> (safe = true -> create_safe p o st) -> evolves st (create now p o st).1.
Proof.
  intros Hfresh Hsafe. unfold create. unfold bind at 1, get_state.
  destruct (streams st !! p) as [s|] eqn:Hs.
  - destruct (isExpired now s) eqn:He; cycle 1.
    { destruct (softDeleted s); [reflexivity|]. destruct (config_matches o s); reflexivity. }
    destruct (create_state_absent p st) as [Hnone Hdel]; [by rewrite Hs|].
    assert (Hcs : cancelLongPollsForStream now p (upd_streams (delete p) st) = create_state p st)
      by (unfold create_state; by rewrite Hs, He).
    unfold bind, modify. rewrite Hcs.
    transitivity (create_state p st).
    + unfold evolves. rewrite Hdel. apply rtc_once. eapply step_drop; [done| |done].
      intros Hsf. destruct (Hsafe Hsf) as [Hc _]. by apply Hc.
    + apply evolves_create_new; [done..|]. intros Hsf. destruct (Hsafe Hsf) as (_ & H1 & H2).
      done.
  - assert (Hcs : create_state p st = st) by (unfold create_state; by rewrite Hs).
    apply evolves_create_new; [done..|]. intros Hsf. destruct (Hsafe Hsf) as (_ & H1 & H2).
    by rewrite Hcs in H2.
Qed.

Lemma evolves_exec x st :
  (forall p o, x = OCreate p o -> fresh = Some p) ->
  (safe = true -> op_safe x st) -> evolves st (exec x st).
Proof.
  intros Hfresh Hsafe. destruct x; cbn [exec].
  - apply evolves_create; [by eapply Hfresh|done].
  - rewrite get_getIfNotExpired. apply evolves_getIfNotExpired.
  - apply evolves_alter. intros s _. book.
  - apply evolves_delete.
  - by apply evolves_append.
  - apply mono_closeStream.
  - apply mono_closeStreamWithProducer.
  - apply mono_read.
  - apply mono_formatResponse.
  - apply mono_waitForMessages.
  - apply evolves_poll_timeout.
  - unfold cancelAllWaits. apply (evolves_cancel_from _ _ 0 st).
Qed.
End refinement.

(** The path an operation may create. *)
Definition created (x : op) : option string :=
  match x with OCreate p _ => Some p | _ => None end.

(** Every operation refines the abstract store. *)
Lemma exec_steps safe x st :
  (safe = true -> op_safe x st) -> steps safe (created x) (streams st) (streams (exec x st)).
Proof. apply (evolves_exec safe (created x)). by intros p o ->. Qed.
End exec.
