(* ===== verification/StoreGraph.v ===== *)
(** * The fork graph: reference counts, parents, acyclicity

    [graph_ok] is the invariant that makes soft-deletion sound: a stream's
    [refCount] is the number of its forks, a fork's source is in the map, and
    no chain of forks comes back to where it started. *)

From S2P Require Import Prelude Offsets Producer Text Json Types JsonMode StreamStore StoreLemmas StoreSteps.
From Stdlib Require Import Sorted.

(** ** The invariant *)

(** [s] is a fork of [q]. *)
Definition forks_from (q : string) (kv : string * Stream) : Prop := forkedFrom kv.2 = Some q.

#[export] Instance forks_from_dec q kv : Decision (forks_from q kv).
Proof. unfold forks_from. apply _. Defined.

Definition children (ss : gmap string Stream) (q : string) : nat :=
  size (filter (forks_from q) ss).

Record graph_ok (ss : gmap string Stream) : Prop := {
  graph_path : forall p s, ss !! p = Some s -> path s = p;
  graph_refs : forall p s, ss !! p = Some s -> refCount s = Z.of_nat (children ss p);
  graph_parent : forall p s q, ss !! p = Some s -> forkedFrom s = Some q ->
    q <> EmptyString /\ is_Some (ss !! q);
  graph_rank : exists rank : string -> nat, forall p s q,
    ss !! p = Some s -> forkedFrom s = Some q -> (rank q < rank p)%nat;
}.

(** ** Counting forks *)

Lemma children_insert_new ss p s q :
  ss !! p = None ->
  children (<[p := s]> ss) q =
  ((if decide (forkedFrom s = Some q) then 1 else 0) + children ss q)%nat.
Proof.
  intros Hp. unfold children. rewrite map_filter_insert. case_decide as Hf; unfold forks_from in Hf.
  - rewrite (decide_True (P := forkedFrom s = Some q)) by done. rewrite map_size_insert_None; [done|].
    apply map_lookup_filter_None. by left.
  - rewrite (decide_False (P := forkedFrom s = Some q)) by done. by rewrite delete_id.
Qed.

Lemma children_delete ss p s q :
  ss !! p = Some s ->
  children ss q = ((if decide (forkedFrom s = Some q) then 1 else 0) + children (delete p ss) q)%nat.
Proof.
  intros Hp. rewrite <-(insert_delete_id ss p s Hp) at 1.
  apply children_insert_new, lookup_delete_eq.
Qed.

(** Replacing a stream by one with the same source. *)
Lemma children_replace ss p s s' q :
  ss !! p = Some s -> forkedFrom s' = forkedFrom s ->
  children (<[p := s']> ss) q = children ss q.
Proof.
  intros Hp Hf. rewrite <-(insert_delete_eq ss p s').
  rewrite children_insert_new by apply lookup_delete_eq.
  rewrite (children_delete ss p s q Hp), Hf. done.
Qed.

Lemma children_pos ss p s q :
  ss !! p = Some s -> forkedFrom s = Some q -> (0 < children ss q)%nat.
Proof.
  intros Hp Hf. rewrite (children_delete ss p s q Hp), decide_True by done. lia.
Qed.

(** The forks are counted by their sources alone. *)
Lemma children_sources ss ss' p :
  (forall q, forkedFrom <$> ss' !! q = forkedFrom <$> ss !! q) -> children ss' p = children ss p.
Proof.
  intros E. assert (Hc : forall ts, children ts p =
    size (filter (fun kv : string * option string => kv.2 = Some p) (forkedFrom <$> ts))).
  { intros ts. unfold children. rewrite map_filter_fmap, map_size_fmap. done. }
  rewrite !Hc. replace (forkedFrom <$> ss') with (forkedFrom <$> ss); [done|].
  apply map_eq. intros q. rewrite !lookup_fmap. done.
Qed.

(** ** The invariant is kept *)

Lemma graph_replace ss p s s' :
  graph_ok ss -> ss !! p = Some s -> path s' = path s -> forkedFrom s' = forkedFrom s ->
  refCount s' = refCount s -> graph_ok (<[p := s']> ss).
Proof.
  intros [Hpath Hrefs Hpar [rank Hrank]] Hp Hp' Hf Hr. split.
  - intros i t. rewrite lookup_insert. case_decide; intros; simplify_eq; [|eauto].
    rewrite Hp'. by eapply Hpath.
  - intros i t. rewrite (children_replace _ _ s), lookup_insert by done.
    case_decide; intros; simplify_eq; [|eauto]. rewrite Hr. by eapply Hrefs.
  - intros i t q. rewrite lookup_insert. intros Hi Hq.
    assert (q <> EmptyString /\ is_Some (ss !! q)) as [? ?].
    { case_decide; simplify_eq; [|by eapply Hpar]. eapply (Hpar i s); congruence. }
    split; [done|]. clear Hi. rewrite lookup_insert. case_decide; [by eexists|done].
  - exists rank. intros i t q. rewrite lookup_insert.
    case_decide; intros; simplify_eq; [|eauto]. eapply Hrank; [done|congruence].
Qed.

(** A stream without forks is deleted, and its source loses a reference. *)
Lemma graph_delete ss p s :
  graph_ok ss -> ss !! p = Some s -> refCount s = 0 ->
  graph_ok (match forkedFrom s with
            | Some q => alter (fun t => set_refCount (refCount t - 1) t) q (delete p ss)
            | None => delete p ss
            end).
Proof.
  intros [Hpath Hrefs Hpar [rank Hrank]] Hp Hr0.
  assert (Hnc : children ss p = 0%nat) by (pose proof (Hrefs p s Hp); lia).
  assert (Hdel : forall i t, delete p ss !! i = Some t -> i <> p /\ ss !! i = Some t).
  { intros i t Hi. by apply lookup_delete_Some in Hi as [? ?]. }
  assert (Hpar' : forall i t q, i <> p -> ss !! i = Some t -> forkedFrom t = Some q -> q <> p).
  { intros i t q Hi Ht Hq ->. pose proof (children_pos ss i t p Ht Hq). lia. }
  destruct (forkedFrom s) as [q|] eqn:Hf.
  - assert (Hqp : q <> p) by (intros ->; pose proof (Hrank _ _ _ Hp Hf); lia).
    destruct (Hpar p s q Hp Hf) as [Hq0 [t Ht]].
    assert (Ht' : delete p ss !! q = Some t) by (by rewrite lookup_delete_ne).
    rewrite (alter_alt_Some _ _ _ t) by done.
    assert (Hch : forall i, children (<[q := set_refCount (refCount t - 1) t]> (delete p ss)) i
                            = children (delete p ss) i)
      by (intros i; by rewrite (children_replace _ _ t)).
    split.
    + intros i u. rewrite lookup_insert. case_decide; intros; simplify_eq/=; [eauto|].
      apply Hdel in H0 as [_ ?]. eauto.
    + intros i u. rewrite Hch, lookup_insert. case_decide; intros; simplify_eq/=.
      * pose proof (Hrefs i t Ht). rewrite (children_delete ss p s i Hp), decide_True in H by done. lia.
      * apply Hdel in H0 as [_ Hu]. rewrite (Hrefs i u Hu), (children_delete ss p s i Hp).
        rewrite decide_False by congruence. done.
    + intros i u r. rewrite lookup_insert. intros Hi Hr.
      assert (i <> p /\ exists u', ss !! i = Some u' /\ forkedFrom u' = Some r) as (? & u' & Hu & Hu').
      { case_decide; simplify_eq/=; [by eauto|]. apply Hdel in Hi as [? ?]. eauto. }
      destruct (Hpar i u' r Hu Hu') as [? ?]. split; [done|].
      clear Hi. rewrite lookup_insert. case_decide; [by eexists|]. rewrite lookup_delete_ne; [done|].
      symmetry. by eapply Hpar'.
    + exists rank. intros i u r. rewrite lookup_insert.
      case_decide; intros; simplify_eq/=; [eauto|]. apply Hdel in H0 as [_ ?]. eauto.
  - split.
    + intros i u [_ ?]%Hdel. eauto.
    + intros i u [_ Hu]%Hdel. rewrite (Hrefs i u Hu), (children_delete ss p s i Hp).
      by rewrite decide_False by congruence.
    + intros i u r [? Hu]%Hdel Hr. destruct (Hpar i u r Hu Hr). split; [done|].
      rewrite lookup_delete_ne; [done|]. symmetry. by eapply Hpar'.
    + exists rank. intros i u r [_ Hu]%Hdel. eauto.
Qed.

Lemma graph_cascade ss p s :
  graph_ok ss -> ss !! p = Some s -> refCount s = 0 -> graph_ok (cascade p ss).
Proof.
  remember (size ss) as n eqn:Hn. revert ss p s Hn.
  induction (lt_wf n) as [n _ IH]. intros ss p s -> Hg Hp Hr.
  rewrite cascade_unfold, Hp. cbn zeta.
  pose proof (graph_delete ss p s Hg Hp Hr) as Hg'.
  destruct (forkedFrom s) as [q|] eqn:Hf; [|done].
  destruct (graph_parent _ Hg p s q Hp Hf) as [Hq0 Hq]. cbn [truthy or_else].
  rewrite (proj2 (String.eqb_neq q EmptyString)) by done. cbn [negb].
  destruct (delete p ss !! q) as [t|] eqn:Ht; cycle 1.
  { by rewrite alter_alt, Ht in Hg'. }
  assert (0 < refCount t).
  { apply lookup_delete_Some in Ht as [_ Ht]. rewrite (graph_refs _ Hg q t Ht).
    pose proof (children_pos ss p s q Hp Hf). lia. }
  rewrite (Z.max_r 0 (refCount t - 1)) by lia.
  assert (alter (set_refCount (refCount t - 1)) q (delete p ss) =
          alter (fun t => set_refCount (refCount t - 1) t) q (delete p ss)) as Heq
    by (by rewrite !(alter_alt_Some _ _ _ t)).
  rewrite Heq. destruct (_ && _) eqn:Hc; [|done].
  apply andb_true_iff in Hc as [Hz%Z.eqb_eq _].
  eapply (IH (size (alter (fun t => set_refCount (refCount t - 1) t) q (delete p ss)))); [|done|done| |].
  - rewrite map_size_alter, map_size_delete, Hp.
    assert (size ss <> 0%nat) by (apply map_size_non_empty_iff; intros ->; by rewrite lookup_empty in Hp).
    lia.
  - rewrite lookup_alter_eq, Ht. done.
  - done.
Qed.

Lemma children_absent ss p : graph_ok ss -> ss !! p = None -> children ss p = 0%nat.
Proof.
  intros Hg Hp. unfold children. apply map_size_empty_iff, map_empty. intros i.
  apply map_lookup_filter_None. right. intros s Hs Hf.
  destruct (graph_parent _ Hg i s p Hs Hf) as [_ [? ?]]. congruence.
Qed.

(** A new stream that is not a fork. *)
Lemma graph_insert ss p s :
  graph_ok ss -> ss !! p = None -> path s = p -> refCount s = 0 -> forkedFrom s = None ->
  graph_ok (<[p := s]> ss).
Proof.
  intros Hg Hp Hpath Hr Hf. pose proof (children_absent ss p Hg Hp) as Hnc.
  destruct Hg as [Hpaths Hrefs Hpar [rank Hrank]].
  assert (Hch : forall q, children (<[p := s]> ss) q = children ss q).
  { intros q. rewrite children_insert_new by done. by rewrite decide_False by congruence. }
  split.
  - intros i t. rewrite lookup_insert. case_decide; intros; simplify_eq; eauto.
  - intros i t. rewrite Hch, lookup_insert. case_decide; intros; simplify_eq; [lia|eauto].
  - intros i t q. rewrite lookup_insert. case_decide; intros; simplify_eq.
    destruct (Hpar i t q) as [? [u ?]]; [done..|]. split; [done|].
    rewrite lookup_insert_ne by congruence. by eexists.
  - exists rank. intros i t q. rewrite lookup_insert.
    case_decide; intros; simplify_eq; eauto.
Qed.

(** A new fork, and the reference it takes on its source. *)
Lemma graph_fork ss p s q src :
  graph_ok ss -> ss !! p = None -> path s = p -> refCount s = 0 -> forkedFrom s = Some q ->
  q <> EmptyString -> ss !! q = Some src ->
  graph_ok (<[p := s]> (<[q := set_refCount (refCount src + 1) src]> ss)).
Proof.
  intros Hg Hp Hpath Hr Hf Hq0 Hq. pose proof (children_absent ss p Hg Hp) as Hnc.
  destruct Hg as [Hpaths Hrefs Hpar [rank Hrank]].
  assert (Hpq : p <> q) by congruence.
  set (src' := set_refCount _ _).
  assert (Hp' : <[q := src']> ss !! p = None) by (by rewrite lookup_insert_ne).
  assert (Hch : forall i, children (<[p := s]> (<[q := src']> ss)) i =
    ((if decide (q = i) then 1 else 0) + children ss i)%nat).
  { intros i. rewrite children_insert_new by done. rewrite (children_replace _ _ src) by done.
    f_equal. rewrite Hf. destruct (decide (q = i)); [by subst; rewrite decide_True|].
    by rewrite decide_False by congruence. }
  assert (Hold : forall i t, <[q := src']> ss !! i = Some t -> exists t0, ss !! i = Some t0 /\
    path t = path t0 /\ forkedFrom t = forkedFrom t0 /\
    refCount t = refCount t0 + (if decide (q = i) then 1 else 0)).
  { intros i t. rewrite lookup_insert. destruct (decide (q = i)) as [<-|]; intros; simplify_eq.
    - exists src. done.
    - exists t. split_and!; [done..|lia]. }
  split.
  - intros i t. rewrite lookup_insert. case_decide; [intros; simplify_eq; done|].
    intros (t0 & Ht0 & -> & _)%Hold. eauto.
  - intros i t. rewrite Hch, lookup_insert. destruct (decide (p = i)) as [<-|Hne].
    + intros [= <-]. rewrite decide_False by congruence. lia.
    + intros (t0 & Ht0 & _ & _ & ->)%Hold. rewrite (Hrefs _ _ Ht0). case_decide; lia.
  - intros i t r Hi Hfr. assert (r <> EmptyString /\ is_Some (ss !! r)) as [Hr0 Hrs].
    { revert Hi. rewrite lookup_insert. destruct (decide (p = i)) as [<-|Hne].
      - intros [= <-]. rewrite Hf in Hfr. injection Hfr as <-. by eauto.
      - intros (t0 & Ht0 & _ & Hft & _)%Hold. eapply Hpar; [done|congruence]. }
    split; [done|]. destruct Hrs as [u Hu].
    rewrite !lookup_insert. repeat case_decide; by eexists.
  - exists (fun i => if decide (p = i) then S (rank q) else rank i). intros i t r Hi Hfr.
    revert Hi. rewrite lookup_insert. destruct (decide (p = i)) as [<-|Hne].
    + intros [= <-]. rewrite Hf in Hfr. injection Hfr as <-. rewrite decide_False by done. lia.
    + intros (t0 & Ht0 & _ & Hft & _)%Hold. rewrite Hft in Hfr.
      destruct (Hpar _ _ _ Ht0 Hfr) as [_ [? ?]].
      rewrite decide_False by congruence. eauto.
Qed.

Lemma graph_empty : graph_ok ∅.
Proof.
  split; [intros ? ? E|intros ? ? E|intros ? ? ? E|exists (fun _ => 0%nat); intros ? ? ? E];
    by rewrite lookup_empty in E.
Qed.

Lemma graph_step fresh ss ss' : graph_ok ss -> step true fresh ss ss' -> graph_ok ss'.
Proof.
  intros Hg Hstep.
  destruct Hstep as [p s s' Hs Hb|p s m Hs _ _ _ _|p s Hs Hr|p s Hs Hsafe
                    |p s _ Hp ? ? _ ? _ _|p s q src fo _ Hp ? ? _ ? ? ? _ _ _].
  - destruct Hb as (? & ? & ? & ? & ? & ? & _). by eapply graph_replace.
  - by eapply graph_replace.
  - eapply graph_cascade; [done..|]. pose proof (graph_refs _ Hg p s Hs). lia.
  - destruct (Hsafe eq_refl) as [Hr Hf]. pose proof (graph_delete ss p s Hg Hs Hr) as Hd.
    by rewrite Hf in Hd.
  - by apply graph_insert.
  - by eapply graph_fork.
Qed.

(** ** Soft-deleted streams *)

(** A soft-deleted stream is kept for a fork. *)
Definition soft_ok (ss : gmap string Stream) : Prop :=
  forall p s, ss !! p = Some s -> softDeleted s = true -> 0 < refCount s.

Lemma soft_cascade ss p :
  is_Some (ss !! p) ->
  (forall i s, i <> p -> ss !! i = Some s -> softDeleted s = true -> 0 < refCount s) ->
  soft_ok (cascade p ss).
Proof.
  remember (size ss) as n eqn:Hn. revert ss p Hn.
  induction (lt_wf n) as [n _ IH]. intros ss p -> [s Hp] Hs.
  rewrite cascade_unfold, Hp. cbn zeta.
  assert (Hd : soft_ok (delete p ss)).
  { intros i t [Hi Ht]%lookup_delete_Some. by apply (Hs i). }
  destruct (truthy _); [|done]. destruct (delete p ss !! _) as [t|] eqn:Ht; [|done].
  set (q := or_else (forkedFrom s) EmptyString) in *.
  set (refs := Z.max 0 (refCount t - 1)).
  assert (Ha : alter (set_refCount refs) q (delete p ss) !! q = Some (set_refCount refs t))
    by (by rewrite lookup_alter_eq, Ht).
  assert (Hother : forall i u, i <> q -> alter (set_refCount refs) q (delete p ss) !! i = Some u ->
    softDeleted u = true -> 0 < refCount u).
  { intros i u Hi Hu. rewrite lookup_alter_ne in Hu by done. by apply (Hd i). }
  destruct (_ && _) eqn:Hc.
  - eapply IH; [|reflexivity|by eexists|done]. rewrite map_size_alter, map_size_delete, Hp.
    assert (size ss <> 0%nat) by (apply map_size_non_empty_iff; intros ->; by rewrite lookup_empty in Hp).
    lia.
  - intros i u Hu Hsoft. destruct (decide (i = q)) as [->|]; [|by eapply Hother].
    rewrite Ha in Hu. injection Hu as <-. cbn in *. rewrite Hsoft, andb_true_r in Hc.
    apply Z.eqb_neq in Hc. lia.
Qed.

Lemma soft_step safe fresh ss ss' : soft_ok ss -> step safe fresh ss ss' -> soft_ok ss'.
Proof.
  intros Hs Hstep. assert (Hins : forall p s, (softDeleted s = true -> 0 < refCount s) ->
    soft_ok (<[p := s]> ss)).
  { intros p s Hok i t. rewrite lookup_insert. case_decide; [intros [= <-]; done|apply Hs]. }
  destruct Hstep as [p s s' Hp Hb|p s m Hp|p s Hp Hr|p s Hp Hsafe
                    |p s _ Hp ? ? Hsd|p s q src fo _ Hp ? ? Hsd ? ? Hsrc].
  - apply Hins. destruct Hb as (_ & _ & _ & _ & _ & -> & _ & _ & Hb).
    intros [?|?]%Hb; [by eapply Hs|done].
  - apply Hins. cbn. by eapply Hs.
  - apply soft_cascade; [by eexists|]. intros i t _. apply Hs.
  - intros i t [_ Ht]%lookup_delete_Some. by apply (Hs i).
  - apply Hins. congruence.
  - intros i t. rewrite lookup_insert. case_decide; [intros [= <-]; congruence|].
    rewrite lookup_insert. case_decide; [|apply Hs]. intros [= <-]. cbn.
    intros Hd. pose proof (Hs q src Hsrc Hd). lia.
Qed.

(** * What a stream holds: the log its readers see

    A fork stores its own messages only and reads the rest through its
    sources.  [log] is the sequence of messages a reader of a stream gets from
    the start.  The theorems: reading from an offset gives the messages of the
    log after it; nobody's log changes but by appends to it, whatever happens
    to the streams it was forked from. *)

(** ** Order of messages *)

Definition before (m m' : StreamMessage) : Prop := str_lt (msg_offset m) (msg_offset m').

Definition increasing : list StreamMessage -> Prop := StronglySorted before.

(** The window of a read: after [off], which may be missing, up to [cap]. *)
Definition in_bounds (off cap : option string) (m : StreamMessage) : Prop :=
  (truthy off = true -> gtb_opt (msg_offset m) off = true) /\
  gtb_opt (msg_offset m) cap = false.

#[export] Instance in_bounds_dec off cap m : Decision (in_bounds off cap m).
Proof. unfold in_bounds. apply _. Defined.

#[export] Instance str_lt_dec a b : Decision (str_lt a b).
Proof. unfold str_lt. apply _. Defined.

Lemma increasing_app l1 l2 :
  increasing l1 -> increasing l2 ->
  (forall m1 m2, m1 ∈ l1 -> m2 ∈ l2 -> before m1 m2) -> increasing (l1 ++ l2).
Proof.
  intros H1 H2 H12. induction H1 as [|m l Hl IH Hm]; [done|]. cbn. constructor.
  - apply IH. intros ? ? ? ?. apply H12; [by right|done].
  - apply Forall_app. split; [done|]. apply list.Forall_forall. intros m2 ?.
    apply H12; [by left|done].
Qed.

Lemma increasing_filter P `{!forall m, Decision (P m)} l : increasing l -> increasing (filter P l).
Proof.
  induction 1 as [|m l Hl IH Hm]; [constructor|]. rewrite filter_cons. case_decide; [|done].
  constructor; [done|]. rewrite list.Forall_forall in Hm |- *.
  intros x [_ Hx]%list_elem_of_filter. by apply Hm.
Qed.

(** The two loops over a stream's own messages are filters. *)
Lemma own_capped_filter off cap ms :
  increasing ms -> own_capped off cap ms = filter (in_bounds off cap) ms.
Proof.
  induction 1 as [|m ms Hms IH Hm]; [done|]. cbn [own_capped]. rewrite filter_cons, IH.
  destruct (truthy off && negb (gtb_opt (msg_offset m) off)) eqn:Ho.
  - rewrite decide_False; [done|]. intros [Hin _].
    apply andb_true_iff in Ho as [Ht Hg%negb_true_iff]. by rewrite Hin in Hg.
  - destruct (gtb_opt (msg_offset m) cap) eqn:Hc.
    + rewrite decide_False by (intros [_ ?]; congruence). symmetry. apply filter_false_nil.
      rewrite list.Forall_forall in Hm |- *. intros x Hx [_ Hxc].
      destruct cap as [c|]; [|done]. cbn in *. specialize (Hm x Hx). unfold before, str_lt in Hm.
      pose proof (str_ltb_trans _ _ _ Hc Hm). congruence.
    + rewrite decide_True; [done|]. split; [|done]. intros Ht.
      apply andb_false_iff in Ho as [?|?%negb_false_iff]; congruence.
Qed.

Lemma findOffsetIndex_drop ms off :
  increasing ms ->
  match findOffsetIndex ms off with Some i => drop i ms | None => [] end =
  filter (fun m => str_lt off (msg_offset m)) ms.
Proof.
  unfold findOffsetIndex.
  induction 1 as [|m ms Hms IH Hm]; [done|]. cbn [list_find]. rewrite filter_cons.
  destruct (decide (String.ltb off (msg_offset m) = true)) as [E|E].
  - cbn. rewrite decide_True by done. f_equal. symmetry. apply filter_true_id.
    rewrite list.Forall_forall in Hm |- *. intros x Hx. specialize (Hm x Hx).
    by eapply str_ltb_trans.
  - rewrite (decide_False (P := str_lt _ _)) by done. rewrite <-IH.
    by destruct (list_find _ ms) as [[i x]|].
Qed.

(** The messages of a chain are in order, after its base and up to its end. *)
Lemma chain_increasing b ms cur :
  wf_offset b -> chain b ms cur ->
  increasing ms /\
  Forall (fun m => str_lt b (msg_offset m) /\ String.ltb cur (msg_offset m) = false) ms.
Proof.
  revert b. induction ms as [|m ms IH]; intros b Hb; cbn [chain]; [by repeat constructor|].
  intros (Hfit & Ho & Hc). pose proof (next_offset_gt b _ Hb (Zle_0_nat _) Hfit) as Hgt.
  pose proof (next_offset_wf b _ Hb (Zle_0_nat _) Hfit) as Hw.
  rewrite <-Ho in Hgt, Hw. destruct (IH _ Hw Hc) as [Hi Hf].
  destruct (chain_wf _ _ _ Hw Hc) as [Hwc Hpc]. split.
  - constructor; [done|]. eapply List.Forall_impl; [|exact Hf]. by intros m' [? _].
  - constructor.
    + split; [done|]. rewrite wf_offset_ltb by done. lia.
    + eapply List.Forall_impl; [|exact Hf]. intros m' [? ?]. split; [|done].
      by eapply str_ltb_trans.
Qed.

Lemma stream_increasing s :
  stream_ok s ->
  increasing (messages s) /\
  Forall (fun m => str_lt (base s) (msg_offset m) /\
                   String.ltb (currentOffset s) (msg_offset m) = false) (messages s).
Proof. intros [Hb Hc]. by apply chain_increasing. Qed.

(** ** The invariant *)

Record contents_ok (ss : gmap string Stream) : Prop := {
  contents_stream : forall p s, ss !! p = Some s -> stream_ok s;
  contents_fork : forall p s q t, ss !! p = Some s -> forkedFrom s = Some q -> ss !! q = Some t ->
    exists fo, forkOffset s = Some fo /\ String.ltb (currentOffset t) fo = false;
}.

Record store_ok (ss : gmap string Stream) : Prop := {
  ok_graph : graph_ok ss;
  ok_contents : contents_ok ss;
}.

(** [t'] is [t] but for bookkeeping and the reference count. *)
Definition same_log (t t' : Stream) : Prop :=
  messages t' = messages t /\ currentOffset t' = currentOffset t /\
  forkedFrom t' = forkedFrom t /\ forkOffset t' = forkOffset t.

(** Everything in [ss'] comes from [ss] with its contents. *)
Definition derives (ss ss' : gmap string Stream) : Prop :=
  forall i t', ss' !! i = Some t' -> exists t, ss !! i = Some t /\ same_log t t'.

#[export] Instance derives_preorder : PreOrder derives.
Proof.
  split.
  - intros ss i t Ht. exists t. by unfold same_log.
  - intros a b c Hab Hbc i t Ht. destruct (Hbc i t Ht) as (u & Hu & ? & ? & ? & ?).
    destruct (Hab i u Hu) as (v & Hv & ? & ? & ? & ?). exists v. unfold same_log.
    split_and!; congruence.
Qed.

Lemma derives_insert ss p s s' : ss !! p = Some s -> same_log s s' -> derives ss (<[p := s']> ss).
Proof.
  intros Hp Hs i t. rewrite lookup_insert. case_decide; intros; simplify_eq; [eauto|].
  exists t. by unfold same_log.
Qed.

Lemma derives_delete ss p : derives ss (delete p ss).
Proof. intros i t [_ Ht]%lookup_delete_Some. exists t. by unfold same_log. Qed.

Lemma derives_cascade ss p : derives ss (cascade p ss).
Proof.
  unfold cascade. generalize (S (size ss)). intros fuel. revert ss p.
  induction fuel as [|fuel IH]; intros ss p; [reflexivity|]. cbn [cascade_fuel].
  destruct (ss !! p) as [s|]; [|reflexivity]. transitivity (delete p ss); [apply derives_delete|].
  destruct (truthy _); [|reflexivity]. destruct (delete p ss !! _) as [t|] eqn:Ht; [|reflexivity].
  etransitivity; [|destruct (_ && _); [apply IH|reflexivity]].
  rewrite (alter_alt_Some _ _ _ t) by done. by eapply derives_insert.
Qed.

Lemma stream_ok_same t t' : same_log t t' -> stream_ok t -> stream_ok t'.
Proof. intros (Hm & Hc & _ & Hf) [? ?]. unfold stream_ok, base in *. by rewrite Hm, Hc, Hf. Qed.

Lemma contents_derives ss ss' : derives ss ss' -> contents_ok ss -> contents_ok ss'.
Proof.
  intros Hd [Hs Hf]. split.
  - intros p s' (s & Hp & Hsame)%Hd. eapply stream_ok_same; eauto.
  - intros p s' q t' (s & Hp & Hsame)%Hd Hq (t & Ht & Hsame')%Hd.
    destruct Hsame as (_ & _ & E & ->), Hsame' as (_ & -> & _ & _). rewrite E in Hq. eauto.
Qed.

Lemma contents_insert ss p s :
  contents_ok ss -> stream_ok s ->
  (forall q t, forkedFrom s = Some q -> ss !! q = Some t -> p <> q /\
     exists fo, forkOffset s = Some fo /\ String.ltb (currentOffset t) fo = false) ->
  (forall i t, ss !! i = Some t -> i <> p -> forkedFrom t = Some p ->
     exists fo, forkOffset t = Some fo /\ String.ltb (currentOffset s) fo = false) ->
  (forkedFrom s = Some p -> False) ->
  contents_ok (<[p := s]> ss).
Proof.
  intros [Hs Hf] Hok Hsrc Hchild Hself. split.
  - intros i t. rewrite lookup_insert. case_decide; intros; simplify_eq; eauto.
  - intros i t q u. rewrite !lookup_insert. intros Hi Hq Hu.
    destruct (decide (p = i)) as [<-|Hne].
    + injection Hi as <-. destruct (decide (p = q)) as [<-|]; [by apply Hself in Hq|].
      by apply (Hsrc q u).
    + destruct (decide (p = q)) as [<-|]; [|by eauto]. injection Hu as <-. eauto.
Qed.

Lemma contents_step fresh ss ss' :
  store_ok ss -> step true fresh ss ss' -> contents_ok ss'.
Proof.
  intros [Hg Hc] Hstep.
  destruct Hstep as [p s s' Hs Hb|p s m Hs Hcl _ Ho Hfit|p s Hs Hr|p s Hs Hsafe
                    |p s _ Hp ? ? _ Hf Hfo Hok|p s q src fo _ Hp ? ? _ Hf ? Hsrc Hfo Hcur Hok].
  - destruct Hb as (_ & ? & ? & ? & ? & _). eapply contents_derives; [|done].
    by eapply derives_insert.
  - specialize (Hfit eq_refl). pose proof (contents_stream _ Hc p s Hs) as Hsok.
    assert (Hcw : wf_offset (currentOffset s)) by (destruct Hsok; by eapply chain_wf).
    apply contents_insert; [done|by apply stream_ok_append| | |].
    + cbn. intros q t Hq Ht. split; [|by eapply contents_fork].
      intros <-. destruct (graph_rank _ Hg) as [rank Hrank]. specialize (Hrank _ _ _ Hs Hq). lia.
    + cbn. intros i t Ht Hi Hfp. destruct (contents_fork _ Hc i t p s Ht Hfp Hs) as (fo & ? & ?).
      exists fo. split; [done|]. rewrite Ho.
      pose proof (next_offset_gt _ _ Hcw (Zle_0_nat _) Hfit) as Hgt.
      apply str_ltb_asym. by eapply str_le_ltb_trans.
    + cbn. intros Hq. destruct (graph_rank _ Hg) as [rank Hrank].
      specialize (Hrank _ _ _ Hs Hq). lia.
  - eapply contents_derives; [apply derives_cascade|done].
  - eapply contents_derives; [apply derives_delete|done].
  - apply contents_insert; [done|by apply Hok|congruence| |congruence].
    intros i t Ht _ Hfp. destruct (graph_parent _ Hg i t p Ht Hfp) as [_ [? ?]]. congruence.
  - assert (Hsw : wf_offset (currentOffset src))
      by (destruct (contents_stream _ Hc q src Hsrc); by eapply chain_wf).
    assert (Hc' : contents_ok (<[q := set_refCount (refCount src + 1) src]> ss))
      by (eapply contents_derives; [by eapply derives_insert|done]).
    apply contents_insert; [done|by apply Hok| | |].
    + intros q' t Hq' Ht. assert (q' = q) as -> by congruence. split; [congruence|].
      rewrite lookup_insert_eq in Ht. injection Ht as <-. eauto.
    + intros i t Ht _ Hfp. exfalso. rewrite lookup_insert in Ht.
      destruct (decide (q = i)) as [<-|]; [injection Ht as <-|].
      * destruct (graph_parent _ Hg _ src p Hsrc Hfp) as [_ [? ?]]. congruence.
      * destruct (graph_parent _ Hg _ t p Ht Hfp) as [_ [? ?]]. congruence.
    + congruence.
Qed.

Lemma store_ok_step fresh ss ss' : store_ok ss -> step true fresh ss ss' -> store_ok ss'.
Proof. intros [Hg Hc] Hs. split; [by eapply graph_step|by eapply contents_step]. Qed.

Lemma store_ok_steps fresh ss ss' : store_ok ss -> steps true fresh ss ss' -> store_ok ss'.
Proof. intros Hok. induction 1; eauto using store_ok_step. Qed.

Lemma store_ok_empty : store_ok ∅.
Proof.
  split; [apply graph_empty|]. split; [intros ? ? E|intros ? ? ? ? E]; by rewrite lookup_empty in E.
Qed.
