(* ===== verification/ForkRead.v ===== *)
(** * Reading through forks

    [readForkedMessages] on a store that satisfies the invariant: it returns,
    and what it returns is a window of the source's [log]. *)

From S2P Require Import Prelude Offsets Producer Text Json Types JsonMode StreamStore StoreLemmas StoreSteps StoreGraph.
Local Open Scope js_scope.

(** What a reader of [p] gets from the start: the log of its source up to the
    fork offset, then its own messages. *)
Fixpoint log_fuel (fuel : nat) (ss : gmap string Stream) (p : string) : list StreamMessage :=
  match fuel with
  | O => []
  | S fuel =>
      match ss !! p with
      | None => []
      | Some s =>
          match forkedFrom s with
          | Some q => filter (in_bounds None (forkOffset s)) (log_fuel fuel ss q)
          | None => []
          end ++ messages s
      end
  end.

Definition log (ss : gmap string Stream) (p : string) : list StreamMessage :=
  log_fuel (S (size ss)) ss p.

#[global] Arguments log : simpl never.

(** ** Depth *)

(** A rank below the number of streams. *)
Lemma graph_rank_bounded ss :
  graph_ok ss ->
  exists rank : string -> nat,
    (forall p s q, ss !! p = Some s -> forkedFrom s = Some q -> (rank q < rank p)%nat) /\
    (forall p, (rank p <= size ss)%nat) /\
    (forall p, is_Some (ss !! p) -> (rank p < size ss)%nat).
Proof.
  intros Hg. destruct (graph_rank _ Hg) as [rank Hrank].
  set (below := fun p => filter (fun kv : string * Stream => (rank kv.1 < rank p)%nat) ss).
  assert (Hle : forall p, (size (below p) <= size ss)%nat)
    by (intros p; apply map_subseteq_size, map_filter_subseteq).
  assert (Hlt : forall p, is_Some (ss !! p) -> (size (below p) < size ss)%nat).
  { intros p [s Hs]. apply map_subset_size, map_subset_alt. split; [apply map_filter_subseteq|].
    exists p. split; [|by eexists]. apply map_lookup_filter_None. right. intros ? _. cbn. lia. }
  exists (fun p => size (below p)). split_and!; [|done..].
  intros p s q Hp Hq. destruct (graph_parent _ Hg p s q Hp Hq) as [_ [t Ht]].
  specialize (Hrank p s q Hp Hq). apply map_subset_size, map_subset_alt. split.
  - apply map_subseteq_spec. intros i u. unfold below. rewrite !map_lookup_filter_Some. cbn.
    intros [? ?]. split; [done|lia].
  - exists q. split; [|eexists; apply map_lookup_filter_Some; cbn; eauto].
    apply map_lookup_filter_None. right. intros ? _. cbn. lia.
Qed.

(** ** The log *)

Section graph.
Context (ss : gmap string Stream) (Hg : graph_ok ss).

Lemma log_fuel_stable fuel p : (size ss < fuel)%nat -> log_fuel fuel ss p = log ss p.
Proof.
  destruct (graph_rank_bounded ss Hg) as (rank & Hrank & Hle & Hlt).
  enough (forall f1 f2 p, (rank p < f1)%nat -> (rank p < f2)%nat ->
    log_fuel f1 ss p = log_fuel f2 ss p) as Hst.
  { intros Hf. apply Hst; specialize (Hle p); lia. }
  induction f1 as [|f1 IH]; intros [|f2] p' H1 H2; try lia. cbn [log_fuel].
  destruct (ss !! p') as [s|] eqn:Hs; [|done].
  destruct (forkedFrom s) as [q|] eqn:Hq; [|done].
  specialize (Hrank p' s q Hs Hq). by rewrite (IH f2) by lia.
Qed.

(** The recursive equation of the log. *)
Lemma log_unfold p :
  log ss p =
  match ss !! p with
  | None => []
  | Some s =>
      match forkedFrom s with
      | Some q => filter (in_bounds None (forkOffset s)) (log ss q)
      | None => []
      end ++ messages s
  end.
Proof.
  rewrite <-(log_fuel_stable (S (S (size ss)))) by lia. cbn [log_fuel].
  destruct (ss !! p) as [s|]; [|done].
  by destruct (forkedFrom s) as [q|].
Qed.
End graph.

(** Induction along the chain of forks. *)
Lemma fork_ind ss (P : string -> Prop) :
  graph_ok ss ->
  (forall p, ss !! p = None -> P p) ->
  (forall p s, ss !! p = Some s -> (forall q, forkedFrom s = Some q -> P q) -> P p) ->
  forall p, P p.
Proof.
  intros Hg Hnone Hsome. destruct (graph_rank _ Hg) as [rank Hrank]. intros p.
  induction p as [p IH] using (induction_ltof1 _ rank). unfold ltof in IH.
  destruct (ss !! p) as [s|] eqn:Hs; [|by apply Hnone].
  apply (Hsome p s Hs). intros q Hq. apply IH. by eapply Hrank.
Qed.

(** The log is in order and ends at the stream's offset. *)
Lemma log_increasing ss p :
  store_ok ss ->
  increasing (log ss p) /\
  forall s, ss !! p = Some s ->
    Forall (fun m => String.ltb (currentOffset s) (msg_offset m) = false) (log ss p).
Proof.
  intros [Hg Hc]. revert p. apply (fork_ind ss); [done|..].
  - intros p Hp. rewrite log_unfold, Hp by done. split; [constructor|congruence].
  - intros p s Hs IH. rewrite log_unfold, Hs by done.
    pose proof (contents_stream _ Hc p s Hs) as Hok.
    destruct (stream_increasing s Hok) as [Hinc Hbnd]. rewrite list.Forall_forall in Hbnd.
    destruct (forkedFrom s) as [q|] eqn:Hq; cycle 1.
    { split; [done|]. intros s' [= <-]. apply list.Forall_forall. intros m Hm. by apply Hbnd. }
    destruct (graph_parent _ Hg p s q Hs Hq) as [_ [t Ht]].
    destruct (contents_fork _ Hc p s q t Hs Hq Ht) as (fo & Hfo & Hcur).
    assert (Hbase : base s = fo) by (unfold base; by rewrite Hfo). rewrite Hbase in Hbnd.
    assert (Hinh : forall m, m ∈ filter (in_bounds None (forkOffset s)) (log ss q) ->
      String.ltb fo (msg_offset m) = false).
    { intros m [[_ Hm] _]%list_elem_of_filter. by rewrite Hfo in Hm. }
    split.
    + apply increasing_app; [apply increasing_filter, IH|..]; try done.
      intros m1 m2 H1%Hinh [H2 _]%Hbnd. unfold before, str_lt in *.
      by eapply str_le_ltb_trans.
    + intros s' [= <-]. apply Forall_app. split; apply list.Forall_forall.
      * intros m Hm%Hinh. destruct Hok as [Hb Hch].
        destruct (chain_wf _ _ _ Hb Hch) as [Hw Hp]. rewrite Hbase in *.
        eapply str_le_trans; [exact Hm|]. rewrite wf_offset_ltb by done. lia.
      * intros m Hm. by apply Hbnd.
Qed.

(** ** [readForkedMessages] reads a window of the log *)

Lemma in_bounds_cap off fo cap m :
  in_bounds off (if String.ltb fo cap then Some fo else Some cap) m <->
  in_bounds off (Some cap) m /\ in_bounds None (Some fo) m.
Proof.
  unfold in_bounds. destruct (String.ltb fo cap) eqn:Hfc; cbn.
  - split; [|by intros [[? ?] [? ?]]]. intros [? Hm]. split_and!; try done.
    eapply str_le_trans; [exact Hm|]. by apply str_ltb_asym.
  - split; [|by intros [[? ?] [? ?]]]. intros [? Hm]. split_and!; try done.
    by eapply str_le_trans.
Qed.

Lemma filter_filter_iff {A} (P Q R : A -> Prop) `{!forall x, Decision (P x)}
    `{!forall x, Decision (Q x)} `{!forall x, Decision (R x)} (l : list A) :
  (forall x, R x <-> P x /\ Q x) -> filter R l = filter P (filter Q l).
Proof.
  intros Hiff. rewrite list_filter_filter. apply list_filter_iff. intros x. apply Hiff.
Qed.

Lemma readForked_log ss fuel q off c :
  store_ok ss -> (size ss < fuel)%nat ->
  readForkedMessages_fuel fuel ss q off (Some c) =
  Some (filter (in_bounds off (Some c)) (log ss q)).
Proof.
  intros [Hg Hc].
  destruct (graph_rank_bounded ss Hg) as (rank & Hrank & Hle & _).
  enough (forall f q c, (rank q < f)%nat ->
    readForkedMessages_fuel f ss q off (Some c) =
    Some (filter (in_bounds off (Some c)) (log ss q))) as Hst.
  { intros Hf. apply Hst. specialize (Hle q). lia. }
  clear fuel q c. induction f as [|f IH]; intros q c Hf; [lia|].
  cbn [readForkedMessages_fuel]. rewrite log_unfold by done.
  destruct (ss !! q) as [s|] eqn:Hs; [|done].
  pose proof (contents_stream _ Hc q s Hs) as Hok.
  destruct (stream_increasing s Hok) as [Hinc _]. rewrite own_capped_filter by done.
  rewrite list.filter_app. destruct (forkedFrom s) as [r|] eqn:Hr; [|done].
  destruct (graph_parent _ Hg q s r Hs Hr) as [Hr0 [t Ht]].
  destruct (contents_fork _ Hc q s r t Hs Hr Ht) as (fo & Hfo & _).
  cbn [truthy or_else]. rewrite (proj2 (String.eqb_neq r EmptyString)) by done.
  cbn [negb andb]. rewrite Hfo. specialize (Hrank q s r Hs Hr).
  destruct (negb (truthy off) || ltb_opt (or_else off EmptyString) (Some fo)) eqn:Hin.
  - assert ((if ltb_opt fo (Some c) then Some fo else Some c) =
            Some (if String.ltb fo c then fo else c)) as -> by (cbn; by destruct (String.ltb fo c)).
    rewrite IH by lia. cbn. do 2 f_equal. apply filter_filter_iff. intros m.
    rewrite <-in_bounds_cap. by destruct (String.ltb fo c).
  - f_equal. symmetry. rewrite filter_false_nil; [done|].
    apply list.Forall_forall. intros m [[_ Hm] _]%list_elem_of_filter [Hoff _]. cbn in Hm.
    apply orb_false_iff in Hin as [Ht'%negb_false_iff Hlt].
    destruct off as [o|]; [|done]. cbn in Hlt, Hoff. specialize (Hoff Ht').
    pose proof (str_le_ltb_trans _ _ _ Hlt Hoff). congruence.
Qed.

(** ** [read] *)

Section read.
Context `{!JsonLib} `{!DateLib}.
Context (now : Z).

Lemma getIfNotExpired_ok p st :
  store_ok (streams st) -> store_ok (streams (getIfNotExpired now p st).1).
Proof.
  intros Hok. eapply (store_ok_steps None); [exact Hok|].
  apply (evolves_getIfNotExpired now true None).
Qed.

Lemma readForkedMessages_log q off c st :
  store_ok (streams st) ->
  readForkedMessages q off (Some c) st =
  (st, Ok (filter (in_bounds off (Some c)) (log (streams st) q))).
Proof. intros Hok. unfold readForkedMessages. by rewrite readForked_log by (done || lia). Qed.

Lemma readOwnMessages_filter s off :
  stream_ok s ->
  readOwnMessages s off = filter (fun m => str_lt off (msg_offset m)) (messages s).
Proof.
  intros Hok. unfold readOwnMessages. apply findOffsetIndex_drop.
  by destruct (stream_increasing s Hok).
Qed.

(** A read that is past the fork offset has nothing to inherit. *)
Lemma readFromFork_log p s q off st :
  store_ok (streams st) -> streams st !! p = Some s -> forkedFrom s = Some q ->
  off <> EmptyString ->
  readFromFork s off st =
  (st, Ok (filter (fun m => str_lt off (msg_offset m)) (log (streams st) p))).
Proof.
  intros Hok Hs Hq Hoff. pose proof Hok as [Hg Hc].
  destruct (graph_parent _ Hg p s q Hs Hq) as [Hq0 [t Ht]].
  destruct (contents_fork _ Hc p s q t Hs Hq Ht) as (fo & Hfo & _).
  rewrite log_unfold, Hs, Hq by done. rewrite list.filter_app.
  rewrite <-readOwnMessages_filter by (by eapply contents_stream).
  unfold readFromFork. rewrite Hfo, Hq. cbn [ltb_opt or_else].
  assert (Ho : truthy (Some off) = true)
    by (cbn; by rewrite (proj2 (String.eqb_neq off EmptyString))).
  destruct (String.ltb off fo) eqn:Hlt; unfold bind.
  - rewrite readForkedMessages_log by done. unfold ret. do 3 f_equal. apply filter_filter_iff.
    intros m. unfold in_bounds. rewrite Ho. cbn. unfold str_lt. naive_solver.
  - cbn. do 2 f_equal. rewrite (filter_false_nil _ (filter _ _)); [done|].
    apply list.Forall_forall. intros m [[_ Hm] _]%list_elem_of_filter Ho'. cbn in Hm.
    unfold str_lt in Ho'. pose proof (str_le_ltb_trans _ _ _ Hlt Ho'). congruence.
Qed.

(** [read] returns a window of the log. *)
Lemma read_log p st st' s :
  store_ok (streams st) -> getIfNotExpired now p st = (st', Some s) ->
  read now p None st = (st', Ok (log (streams st') p)) /\
  forall off, off <> EmptyString -> off <> "-1"%string ->
    read now p (Some off) st =
    (st', Ok (filter (fun m => str_lt off (msg_offset m)) (log (streams st') p))).
Proof.
  intros Hok Hget. pose proof (getIfNotExpired_ok p st Hok) as Hok'. rewrite Hget in Hok'.
  cbn in Hok'. pose proof (getIfNotExpired_Some now p st st' s Hget) as [Hs _].
  pose proof Hok' as [Hg Hc]. pose proof (contents_stream _ Hc p s Hs) as Hsok.
  assert (Htr : truthy (forkedFrom s) = match forkedFrom s with Some _ => true | None => false end).
  { destruct (forkedFrom s) as [q|] eqn:Hq; [|done]. cbn.
    destruct (graph_parent _ Hg p s q Hs Hq) as [Hq0 _].
    by rewrite (proj2 (String.eqb_neq q EmptyString)). }
  split.
  - unfold read, bind at 1, call. rewrite Hget. cbn [truthy negb orb]. rewrite Htr.
    rewrite log_unfold, Hs by done. destruct (forkedFrom s) as [q|] eqn:Hq; [|done].
    destruct (graph_parent _ Hg p s q Hs Hq) as [_ [t Ht]].
    destruct (contents_fork _ Hc p s q t Hs Hq Ht) as (fo & -> & _).
    unfold bind. cbn [or_else]. by rewrite readForkedMessages_log.
  - intros off Hne Hm1. unfold read, bind at 1, call. rewrite Hget. cbn [truthy].
    rewrite (proj2 (String.eqb_neq off EmptyString)), bool_decide_eq_false_2 by congruence.
    cbn [negb orb or_else]. rewrite Htr. destruct (forkedFrom s) as [q|] eqn:Hq.
    + by eapply readFromFork_log.
    + rewrite log_unfold, Hs, Hq by done. cbn [app].
      rewrite <-readOwnMessages_filter by done. unfold readOwnMessages.
      by destruct (findOffsetIndex _ _).
Qed.
End read.

(** ** The log of a stream that stays is only appended to *)

Lemma log_derives ss ss' q :
  graph_ok ss -> graph_ok ss' -> derives ss ss' -> is_Some (ss' !! q) -> log ss' q = log ss q.
Proof.
  intros Hg Hg' Hd. revert q.
  apply (fork_ind ss' (fun q => is_Some (ss' !! q) -> log ss' q = log ss q));
    [done|intros p Hp [? ?]; congruence|].
  intros p s' Hs IH _. destruct (Hd p s' Hs) as (s & Hp & Hm & _ & Hf & Hfo).
  rewrite (log_unfold ss'), (log_unfold ss), Hs, Hp, Hm, Hf, Hfo by done.
  destruct (forkedFrom s) as [r|] eqn:Hr; [|done].
  rewrite IH; [done|congruence|]. eapply (graph_parent _ Hg'); [done|congruence].
Qed.

Lemma log_append ss p s m s' q :
  store_ok ss -> ss !! p = Some s ->
  messages s' = messages s ++ [m] -> forkedFrom s' = forkedFrom s -> forkOffset s' = forkOffset s ->
  str_lt (currentOffset s) (msg_offset m) -> graph_ok (<[p := s']> ss) ->
  log (<[p := s']> ss) q = log ss q ++ (if decide (q = p) then [m] else []).
Proof.
  intros [Hg Hc] Hs Hm Hf Hfo Hlt Hg'. revert q. apply (fork_ind ss); [done|..].
  - intros q Hq. rewrite !log_unfold by done. rewrite lookup_insert_ne by congruence.
    rewrite Hq, decide_False by congruence. done.
  - intros q t Ht IH.
    set (inh := fun ss => match forkedFrom t with
      | Some r => filter (in_bounds None (forkOffset t)) (log ss r) | None => [] end).
    assert (Hinh : inh (<[p := s']> ss) = inh ss).
    { unfold inh. destruct (forkedFrom t) as [r|] eqn:Hr; [|done]. rewrite IH by done.
      rewrite list.filter_app. case_decide as Hrp; [|by rewrite app_nil_r]. subst r.
      destruct (contents_fork _ Hc q t p s Ht Hr Hs) as (fo & -> & Hcur).
      rewrite (filter_false_nil _ [m]); [by rewrite app_nil_r|]. repeat constructor.
      intros [_ Hb]. cbn in Hb. pose proof (str_le_ltb_trans _ _ _ Hcur Hlt). congruence. }
    assert (log ss q = inh ss ++ messages t) as ->
      by (unfold inh; by rewrite log_unfold, Ht by done).
    destruct (decide (q = p)) as [->|Hne].
    + assert (t = s) as -> by congruence.
      assert (log (<[p := s']> ss) p = inh (<[p := s']> ss) ++ messages s') as ->.
      { rewrite log_unfold, lookup_insert_eq by done. unfold inh. by rewrite Hf, Hfo. }
      by rewrite Hinh, Hm, (assoc_L (++)).
    + assert (log (<[p := s']> ss) q = inh (<[p := s']> ss) ++ messages t) as ->
        by (unfold inh; by rewrite log_unfold, lookup_insert_ne, Ht by done).
      by rewrite Hinh, app_nil_r.
Qed.

(** A path that no step may create stays absent. *)
Lemma absent_step safe fresh ss ss' q :
  step safe fresh ss ss' -> fresh <> Some q -> ss !! q = None -> ss' !! q = None.
Proof.
  intros Hstep Hq Hn.
  assert (Hd : forall ss', derives ss ss' -> ss' !! q = None).
  { intros ss1 Hd. destruct (ss1 !! q) as [t|] eqn:Ht; [|done].
    destruct (Hd q t Ht) as (? & ? & _). congruence. }
  destruct Hstep as [p s s' Hs Hb|p s m Hs|p s Hs|p s Hs|p s ? Hp|p s r src fo ? Hp ? ? ? ? ? Hsrc].
  - rewrite lookup_insert_ne; [done|congruence].
  - rewrite lookup_insert_ne; [done|congruence].
  - apply Hd, derives_cascade.
  - apply Hd, derives_delete.
  - rewrite lookup_insert_ne; [done|congruence].
  - rewrite !lookup_insert_ne; [done|congruence..].
Qed.

Lemma log_step fresh ss ss' q :
  store_ok ss -> step true fresh ss ss' -> fresh <> Some q -> is_Some (ss' !! q) ->
  log ss q `prefix_of` log ss' q.
Proof.
  intros Hok Hstep Hq Hin. pose proof (store_ok_step _ _ _ Hok Hstep) as [Hg' _].
  pose proof Hok as [Hg Hc].
  assert (Hd : derives ss ss' -> log ss q `prefix_of` log ss' q)
    by (intros; rewrite (log_derives ss ss') by done; done).
  destruct Hstep as [p s s' Hs Hb|p s m Hs Hcl Hsd Ho Hfit|p s Hs|p s Hs
                    |p s Hfr Hp ? ? ? Hf|p s r src fo Hfr Hp ? ? ? Hf ? Hsrc].
  - apply Hd. destruct Hb as (_ & ? & ? & ? & ? & _). by eapply derives_insert.
  - rewrite (log_append ss p s m); try done; [by apply prefix_app_r|].
    destruct (contents_stream _ Hc p s Hs) as [Hb Hch]. destruct (chain_wf _ _ _ Hb Hch).
    unfold str_lt. rewrite Ho. apply next_offset_gt; [done|lia|by apply Hfit].
  - apply Hd, derives_cascade.
  - apply Hd, derives_delete.
  - rewrite <-(log_derives (<[p := s]> ss) ss); try done.
    + intros i t Ht. exists t. rewrite lookup_insert_ne by congruence. by unfold same_log.
    + rewrite lookup_insert_ne in Hin by congruence. done.
  - assert (Hne : p <> q) by congruence. rewrite lookup_insert_ne in Hin by done.
    assert (Hd' : forall i t, ss !! i = Some t -> exists t',
      <[p := s]> (<[r := set_refCount (refCount src + 1) src]> ss) !! i = Some t' /\ same_log t' t).
    { intros i t Ht. rewrite lookup_insert_ne by congruence. rewrite lookup_insert.
      case_decide; [exists (set_refCount (refCount src + 1) src)|exists t]; split; try done;
        unfold same_log; simplify_eq; done. }
    rewrite <-(log_derives (<[p := s]> (<[r := set_refCount (refCount src + 1) src]> ss)) ss);
      try done.
    rewrite lookup_insert in Hin. case_decide; [by subst; eexists|done].
Qed.

Lemma log_steps fresh ss ss' q :
  store_ok ss -> steps true fresh ss ss' -> fresh <> Some q -> is_Some (ss' !! q) ->
  log ss q `prefix_of` log ss' q.
Proof.
  intros Hok Hsteps Hq Hin. induction Hsteps as [|a b c Hab Hbc IH]; [done|].
  assert (is_Some (b !! q)) as Hb.
  { destruct (b !! q) eqn:Hb; [by eexists|]. exfalso.
    assert (c !! q = None) as E; [|rewrite E in Hin; by destruct Hin].
    clear -Hbc Hq Hb. induction Hbc as [|x y z Hxy _ IH]; [done|]. apply IH.
    by eapply absent_step. }
  etransitivity; [by eapply log_step|]. apply IH; [|done]. by eapply store_ok_step.
Qed.
