(* ===== verification/StoreTheorems.v ===== *)
(** * Properties of the store

    The reachable states, what reads return, what operations leave alone, and
    the two places where the invariant can be broken. *)

From S2P Require Import Prelude Offsets Producer Text Json Types JsonInstance JsonMode StreamStore StoreLemmas StoreSteps StoreGraph ForkRead.
Local Open Scope js_scope.

(** ** Histories *)

Section run.
Context `{!JsonLib} `{!DateLib}.

(** Operations in the order the store ran them, each with its time. *)
Fixpoint run (h : list (Z * op)) (st : StreamStore) : StreamStore :=
  match h with
  | [] => st
  | (now, x) :: h => run h (exec now x st)
  end.

Fixpoint run_safe (h : list (Z * op)) (st : StreamStore) : Prop :=
  match h with
  | [] => True
  | (now, x) :: h => op_safe now x st /\ run_safe h (exec now x st)
  end.

Lemma exec_ok now x st :
  store_ok (streams st) -> op_safe now x st -> store_ok (streams (exec now x st)).
Proof.
  intros Hok Hs. eapply (store_ok_steps (created x)); [exact Hok|]. by apply (exec_steps now true).
Qed.

Lemma exec_soft now x st : soft_ok (streams st) -> soft_ok (streams (exec now x st)).
Proof.
  intros Hok. pose proof (exec_steps now false x st ltac:(done)) as Hs.
  revert Hok. induction Hs; eauto using soft_step.
Qed.
End run.

(** A clock for the witnesses: a date is its number of milliseconds. *)
Definition decimal_date : DateLib := fun s => if all_digits s then Some (digits_value s) else None.

Section lemmas.
Context `{!JsonLib} `{!DateLib}.
Context (now : Z).

(** ** A live stream stays in place while its long-polls are notified *)

Lemma read_live p s off st : live now p s st -> (read now p off st).1 = st.
Proof.
  intros Hl. unfold read, bind at 1, call. rewrite (getIfNotExpired_live now p s) by done.
  destruct (_ || _).
  - destruct (truthy _); [|done]. unfold bind.
    pose proof (readForkedMessages_state (or_else (forkedFrom s) EmptyString) None (forkOffset s) st) as Hst.
    destruct (readForkedMessages _ _ _ st) as [st1 [l|e]]; exact Hst.
  - destruct (truthy _); [|by destruct (findOffsetIndex _ _)].
    unfold readFromFork, bind. destruct (ltb_opt _ _); [|done].
    match goal with |- context [readForkedMessages ?q ?o ?c st] =>
      pose proof (readForkedMessages_state q o c st) as Hst;
      destruct (readForkedMessages q o c st) as [st1 [l|e]]; exact Hst
    end.
Qed.

Lemma pending_resolve_live p s msgs st :
  live now (lp_path p) s st ->
  pending_resolve now p msgs st =
  settle (lp_id p)
    (mkLongPollResult msgs false (if closed s && (length msgs =? 0)%nat then Some true else None))
    (removePendingLongPoll p (clearTimeout (lp_id p) st)).
Proof.
  intros Hl. unfold pending_resolve, pending_resolve_step.
  by rewrite (getIfNotExpired_live now (lp_path p) s) by exact Hl.
Qed.

Lemma notify_closed_live p s st :
  live now p s st -> streams (notifyLongPollsClosed now p st) = streams st.
Proof.
  intros Hl. unfold notifyLongPollsClosed.
  assert (Hall : Forall (fun q => lp_path q = p)
    (filter (fun q => lp_path q = p) (pendingLongPolls st)))
    by (apply list.Forall_forall; by intros x [? _]%list_elem_of_filter).
  revert Hall. generalize (filter (fun q => lp_path q = p) (pendingLongPolls st)) as l.
  intros l Hall. revert st Hl. induction Hall as [|x l Hx Hall IH]; intros st Hl; [done|].
  cbn [foldl]. rewrite (pending_resolve_live x s) by (by rewrite Hx). by rewrite IH.
Qed.

Lemma notify_each_live p s l st st' r :
  live now p s st -> Forall (fun q => lp_path q = p) l ->
  notify_each now p l st = (st', r) -> streams st' = streams st.
Proof.
  intros Hl Hall. revert st Hl. induction Hall as [|x l Hx Hall IH]; intros st Hl.
  { by intros [= <- _]. }
  cbn [notify_each]. unfold bind at 1.
  pose proof (read_live p s (Some (lp_offset x)) st Hl) as Hst.
  destruct (read now p (Some (lp_offset x)) st) as [st1 [ms|e]]; cbn in Hst; subst st1;
    [|by intros [= <- _]].
  unfold bind at 1. destruct (0 <? length ms)%nat; cbn [modify ret]; [|by apply IH].
  rewrite (pending_resolve_live x s) by (by rewrite Hx). intros Hn.
  by apply IH in Hn.
Qed.

Lemma notifyLongPolls_live p s st st' r :
  live now p s st -> notifyLongPolls now p st = (st', r) -> streams st' = streams st.
Proof.
  intros Hl. apply (notify_each_live p s); [done|].
  apply list.Forall_forall. by intros x [? _]%list_elem_of_filter.
Qed.

(** ** What a successful append did *)

Definition returned_message (r : AppendReturn) : option StreamMessage :=
  match r with PlainMessage m => m | WithResult r => ar_message r end.

Definition same_expiry (s s' : Stream) : Prop :=
  expiresAt s' = expiresAt s /\ ttlSeconds s' = ttlSeconds s /\
  lastAccessedAt s' = lastAccessedAt s.

Lemma isExpired_same s s' : same_expiry s s' -> isExpired now s' = isExpired now s.
Proof. intros (He & Ht & Ha). unfold isExpired. by rewrite He, Ht, Ha. Qed.

Lemma commit_expiry o v s : same_expiry s (commit_append o v s).
Proof.
  unfold commit_append, same_expiry.
  by destruct v, (ao_seq o), (or_else (ao_close o) false), (ao_producerId o).
Qed.

(** The stages of an append that returns a message. *)
Lemma append_stages p data o st st' r m :
  append now p data o st = (st', Ok r) -> returned_message r = Some m ->
  exists s s1 v b st4,
    live now p s st /\ softDeleted s = false /\ closed s = false /\
    validate_options now s o = (s1, v) /\ is_accepted v = true /\
    stored_bytes s data false = Ok b /\
    m = mkStreamMessage b (next_offset (currentOffset s) (Z.of_nat (length b))) now /\
    let s3 := commit_append o v (set_messages (messages s1 ++ [m]) (msg_offset m) s1) in
    let st3 := upd_stream p (fun _ => s3) (upd_stream p (fun _ => s1) st) in
    live now p s3 st3 /\ notifyLongPolls now p st3 = (st4, Ok tt) /\
    st' = (if or_else (ao_close o) false then notifyLongPollsClosed now p st4 else st4).
Proof.
  unfold append. intros (st1 & [s|] & Hg & Hrest)%bind_Ok_inv Hm; [|done].
  unfold call in Hg. destruct (getIfNotExpired now p st) as [st2 g] eqn:Hr. simplify_eq.
  apply getIfNotExpired_Some in Hr as (_ & Hlive & _).
  destruct (softDeleted s) eqn:Hsd; [done|]. destruct (Hlive eq_refl) as [Hl ->]. clear Hlive.
  destruct (closed s) eqn:Hcl; [destruct (_ && _); by injection Hrest as <- <-|].
  destruct (_ && _); [done|].
  destruct (validate_options now s o) as [s1 v] eqn:Hv.
  assert (Hs1 : currentOffset s1 = currentOffset s /\ contentType s1 = contentType s /\ same_expiry s s1).
  { unfold same_expiry. apply validate_options_book in Hv as [->|[mm ->]]; by split_and!. }
  destruct Hs1 as (Hcur & Hct & Hexp).
  apply bind_Ok_inv in Hrest as (st3 & [] & [= <-] & Hrest).
  destruct (is_accepted v) eqn:Hacc; [|by injection Hrest as <- <-].
  cbn [negb] in Hrest. apply bind_Ok_inv in Hrest as (st3 & [] & Hseq & Hrest).
  assert (st3 = upd_stream p (fun _ => s1) st) as ->
    by (destruct (ao_seq o), (st_lastSeq s1); try destruct (negb _);
        unfold ret, throw in Hseq; congruence).
  apply bind_Ok_inv in Hrest as (st3 & [s2 om] & Ha & Hrest). injection Ha as <- Ha.
  apply bind_Ok_inv in Hrest as (st3 & [] & [= <-] & Hrest).
  apply bind_Ok_inv in Hrest as (st4 & [] & Hn & Hrest).
  apply bind_Ok_inv in Hrest as (st5 & [] & Hn5 & Hrest).
  assert (om = Some m /\ st' = st5) as [-> ->].
  { destruct (_ || _); injection Hrest as <- <-; by cbn in Hm. }
  apply appendToStream_inv in Ha as [[? _]|(b & Hb & Hom & ->)]; [done|].
  rewrite Hcur in *. unfold stored_bytes in *. rewrite Hct in Hb. injection Hom as Hmeq.
  exists s, s1, v, b, st4. split_and!; try done; cbn zeta.
  - subst m. split.
    + cbn. rewrite !lookup_alter_eq. by destruct Hl as [-> _].
    + match goal with |- isExpired _ (commit_append _ _ ?t) = _ =>
        rewrite (isExpired_same t) by apply commit_expiry end.
      rewrite (isExpired_same s); [apply Hl|exact Hexp].
  - subst m. exact Hn.
  - destruct (or_else (ao_close o) false); by injection Hn5 as <-.
Qed.

Lemma append_inv p data o st st' r m :
  append now p data o st = (st', Ok r) -> returned_message r = Some m ->
  exists s s1 v b,
    live now p s st /\ softDeleted s = false /\ closed s = false /\
    validate_options now s o = (s1, v) /\ is_accepted v = true /\
    stored_bytes s data false = Ok b /\
    m = mkStreamMessage b (next_offset (currentOffset s) (Z.of_nat (length b))) now /\
    let s2 := set_messages (messages s1 ++ [m]) (msg_offset m) s1 in
    streams st' = <[p := commit_append o v s2]> (streams st).
Proof.
  intros Happ Hm.
  destruct (append_stages p data o st st' r m Happ Hm)
    as (s & s1 & v & b & st4 & Hl & ? & ? & ? & ? & ? & ? & Hl3 & Hn & ->).
  exists s, s1, v, b. split_and!; try done. cbn zeta in *. set (s3 := commit_append _ _ _) in *.
  pose proof (notifyLongPolls_live _ _ _ _ _ Hl3 Hn) as Hst4.
  assert (Hst3 : streams (upd_stream p (fun _ => s3) (upd_stream p (fun _ => s1) st))
                 = <[p := s3]> (streams st)).
  { cbn. destruct Hl as [Hs _]. rewrite alter_alter_eq.
    by rewrite (alter_alt_Some _ _ _ s). }
  rewrite Hst3 in Hst4. destruct (or_else (ao_close o) false); [|done].
  rewrite (notify_closed_live p s3); [done|].
  split; [rewrite Hst4; apply lookup_insert_eq|by destruct Hl3].
Qed.
End lemmas.

(** ** Lemmas of the properties *)

Section more_lemmas.
Context `{!JsonLib} `{!DateLib}.
Context (now : Z).

Lemma commit_fields o v s :
  messages (commit_append o v s) = messages s /\
  currentOffset (commit_append o v s) = currentOffset s /\
  forkedFrom (commit_append o v s) = forkedFrom s /\
  forkOffset (commit_append o v s) = forkOffset s.
Proof. by destruct (bookkeeping_commit o v s) as (_ & ? & ? & ? & ? & _). Qed.

(** A stream that a cascade collects was soft-deleted. *)
Lemma cascade_removed ss p q t :
  ss !! q = Some t -> q <> p -> cascade p ss !! q = None -> softDeleted t = true.
Proof.
  remember (size ss) as n eqn:Hn. revert ss p Hn.
  induction (lt_wf n) as [n _ IH]. intros ss p -> Hq Hne. rewrite cascade_unfold.
  destruct (ss !! p) as [s|] eqn:Hp; [|congruence]. cbn zeta.
  destruct (truthy _); [|rewrite lookup_delete_ne by done; congruence].
  set (r := or_else (forkedFrom s) EmptyString).
  destruct (delete p ss !! r) as [u|] eqn:Hu; [|rewrite lookup_delete_ne by done; congruence].
  assert (Hqd : delete p ss !! q = Some t) by (by rewrite lookup_delete_ne).
  intros Hnone.
  set (ss' := alter _ r _) in *.
  destruct (_ && _) eqn:Hc.
  - destruct (decide (q = r)) as [->|Hqr].
    { apply andb_true_iff in Hc as [_ Hsd]. congruence. }
    apply (IH (size ss')) with (ss := ss') (p := r); try done.
    + unfold ss'. rewrite map_size_alter, map_size_delete, Hp.
      assert (size ss <> 0%nat)
        by (apply map_size_non_empty_iff; intros ->; by rewrite lookup_empty in Hp). lia.
    + unfold ss'. by rewrite lookup_alter_ne.
  - exfalso. unfold ss' in Hnone. rewrite lookup_alter_None in Hnone. congruence.
Qed.

Lemma cascade_gone ss p : cascade p ss !! p = None.
Proof.
  assert (Hd : derives (delete p ss) (cascade p ss)).
  { rewrite cascade_unfold. destruct (ss !! p) as [s|] eqn:Hp; [|by rewrite delete_id].
    cbn zeta. destruct (truthy _); [|reflexivity].
    destruct (delete p ss !! _) as [u|] eqn:Hu; [|reflexivity].
    assert (derives (delete p ss) (alter (set_refCount (Z.max 0 (refCount u - 1)))
              (or_else (forkedFrom s) EmptyString) (delete p ss)))
      by (rewrite (alter_alt_Some _ _ _ u) by done; by eapply derives_insert).
    destruct (_ && _); [|done]. by etransitivity; [|apply derives_cascade]. }
  destruct (cascade p ss !! p) as [t|] eqn:Ht; [|done].
  destruct (Hd p t Ht) as (? & Hx & _). by rewrite lookup_delete_eq in Hx.
Qed.

(** One step on a closed stream. *)
Lemma closed_step safe fresh ss ss' p s :
  step safe fresh ss ss' -> fresh <> Some p -> ss !! p = Some s -> closed s = true ->
  ss' !! p = None \/
  exists s', ss' !! p = Some s' /\ closed s' = true /\
    messages s' = messages s /\ currentOffset s' = currentOffset s.
Proof.
  intros Hstep Hfr Hp Hcl.
  assert (Hins : forall q t, (q = p -> closed t = true /\ messages t = messages s /\
      currentOffset t = currentOffset s) ->
    exists s', <[q := t]> ss !! p = Some s' /\ closed s' = true /\
      messages s' = messages s /\ currentOffset s' = currentOffset s).
  { intros q t Hq. rewrite lookup_insert. case_decide; [eexists; split; [done|by apply Hq]|eauto]. }
  destruct Hstep as [q t t' Hq Hb|q t m Hq Hcl'|q t Hq Hr|q t Hq Hsafe
                    |q t Hf Hq|q t r src fo Hf Hq ? ? ? ? ? Hsrc].
  - right. apply Hins. intros ->. replace t with s in * by congruence.
    destruct Hb as (_ & ? & ? & _ & _ & _ & Hc & _). by split_and!; auto.
  - right. apply Hins. intros ->. congruence.
  - destruct (cascade q ss !! p) as [s'|] eqn:Hs'; [right|by left].
    assert (Hd : forall fuel q ss, cascade_fuel fuel q ss !! p = Some s' ->
      exists u, ss !! p = Some u /\ closed s' = closed u /\ messages s' = messages u /\
                currentOffset s' = currentOffset u).
    { clear. induction fuel as [|fuel IH]; intros q ss Hs; [by exists s'|].
      cbn [cascade_fuel] in Hs. destruct (ss !! q) as [t|]; [|by exists s'].
      assert (Hdel : forall u, delete q ss !! p = Some u -> ss !! p = Some u)
        by (intros u; rewrite lookup_delete_Some; tauto).
      destruct (truthy _); [|exists s'; by auto].
      destruct (delete q ss !! _) as [v|] eqn:Hv; [|exists s'; by auto].
      assert (Halt : forall u, alter (set_refCount (Z.max 0 (refCount v - 1)))
          (or_else (forkedFrom t) EmptyString) (delete q ss) !! p = Some u ->
        exists u0, ss !! p = Some u0 /\ closed u = closed u0 /\ messages u = messages u0 /\
                currentOffset u = currentOffset u0).
      { intros u Hu. apply lookup_alter_Some in Hu as [(_ & u0 & Hu0 & ->)|[_ Hu]]; apply Hdel in Hu || apply Hdel in Hu0; eauto. }
      destruct (_ && _); [|by apply Halt].
      destruct (IH _ _ Hs) as (u & Hu & -> & -> & ->). by apply Halt. }
    destruct (Hd _ _ _ Hs') as (u & Hu & ? & ? & ?). exists s'.
    replace u with s in * by congruence. split_and!; congruence.
  - rewrite lookup_delete. case_decide; [by left|right; eauto].
  - right. apply Hins. intros ->. congruence.
  - right. rewrite lookup_insert_ne by congruence.
    apply Hins. intros ->. by replace src with s in * by congruence.
Qed.

Lemma closed_steps safe fresh ss ss' p s :
  steps safe fresh ss ss' -> fresh <> Some p -> ss !! p = Some s -> closed s = true ->
  ss' !! p = None \/
  exists s', ss' !! p = Some s' /\ closed s' = true /\
    messages s' = messages s /\ currentOffset s' = currentOffset s.
Proof.
  intros Hsteps Hfr. revert s. induction Hsteps as [|a b c Hab Hbc IH]; intros s Hp Hcl; [right; by exists s|].
  destruct (closed_step _ _ _ _ _ _ Hab Hfr Hp Hcl) as [Hn|(s' & Hs' & Hc' & <- & <-)].
  - left. clear IH Hab. induction Hbc as [|x y z Hxy _ IH]; [done|]. apply IH.
    by eapply absent_step.
  - by apply IH.
Qed.
End more_lemmas.

(** ** Properties *)

Section properties.
Context `{!JsonLib} `{!DateLib}.
Context (now : Z).

(** C32: refinement: whatever an operation of the store returns or throws, on any
    store, what it does to the map of streams is a sequence of steps of the abstract
    store: bookkeeping, which leaves path, messages, offsets, source and references
    alone, never reopens a stream or takes back a deletion mark, and marks only a
    stream with references; an append to an open, unmarked stream at its tail; the
    collection of a stream without references, with the cascade to its sources; and,
    by a create alone and at the path it names, the removal of what is there and the
    creation of a new stream, a fork being counted at its source; and nothing else. *)
Theorem store_refinement (x : op) (st : StreamStore) :
  steps false (created x) (streams st) (streams (exec now x st)).
Proof. by apply (exec_steps now false). Qed.

(** C13: a read of a stream returns, whatever the depth of its chain of forks:
    from the start it returns the whole log, and from an offset exactly the
    messages of the log after it; so a reader that resumes from the offset of
    the last message it has seen gets the rest, without gap or repetition. *)
Theorem read_window (p : string) (st st' : StreamStore) (s : Stream) :
  store_ok (streams st) -> getIfNotExpired now p st = (st', Some s) ->
  read now p None st = (st', Ok (log (streams st') p)) /\
  (forall off, off <> EmptyString -> off <> "-1"%string ->
    read now p (Some off) st =
    (st', Ok (filter (fun m => str_lt off (msg_offset m)) (log (streams st') p)))) /\
  (forall seen m rest, log (streams st') p = seen ++ m :: rest ->
    msg_offset m <> EmptyString -> msg_offset m <> "-1"%string ->
    read now p (Some (msg_offset m)) st = (st', Ok rest)).
Proof.
  intros Hok Hget. destruct (read_log now p st st' s Hok Hget) as [H1 H2].
  split_and!; [done|done|]. intros seen m rest Hlog Hne Hm1. rewrite H2, Hlog by done.
  do 2 f_equal. pose proof (getIfNotExpired_ok now p st Hok) as Hok'. rewrite Hget in Hok'.
  destruct (log_increasing _ p Hok') as [Hinc _]. cbn [fst] in Hinc. rewrite Hlog in Hinc.
  rewrite list.filter_app, filter_cons_False by (unfold str_lt; by rewrite str_ltb_irrefl).
  rewrite (filter_false_nil _ seen), (filter_true_id _ rest); [done|..];
    clear -Hinc; induction seen as [|x seen IH]; cbn in Hinc; inversion_clear Hinc as [|? ? Hi Hx].
  - done.
  - by apply IH.
  - constructor.
  - apply Forall_app in Hx as [_ Hx]. inversion_clear Hx as [|? ? Hxm _].
    constructor; [|by apply IH]. unfold before, str_lt in *. rewrite (str_ltb_asym _ _ Hxm). done.
Qed.

(** C31: in a store with the invariant of C1, an operation that is safe - no stream
    outgrows the safe integers, a fork offset is in the server's own notation, and a
    create meets no expired stream that is or has a fork - leaves the log of every
    stream that is still there afterwards, and that the operation did not create, with
    its old log as a prefix: sources can be appended to, closed, deleted, soft-deleted
    or expire without their forks' readers losing or reordering a message.  (A create
    over an expired source is not safe: [expired_source_cycle].) *)
Theorem log_append_only (x : op) (st : StreamStore) (q : string) :
  store_ok (streams st) -> op_safe now x st -> created x <> Some q ->
  is_Some (streams (exec now x st) !! q) ->
  log (streams st) q `prefix_of` log (streams (exec now x st)) q.
Proof.
  intros Hok Hs Hq Hin. apply (log_steps (created x)); [done| |done|done].
  by apply (exec_steps now true).
Qed.

Lemma append_log (p : string) (data : bytes) (o : AppendOptions)
    (st st' : StreamStore) (r : AppendReturn) (m : StreamMessage) :
  store_ok (streams st) -> op_safe now (OAppend p data o) st ->
  append now p data o st = (st', Ok r) -> returned_message r = Some m ->
  (exists s, streams st !! p = Some s /\ closed s = false /\
     stored_bytes s data false = Ok (msg_data m) /\
     position (msg_offset m) = position (currentOffset s) + FRAME_OVERHEAD
                               + Z.of_nat (length (msg_data m))) /\
  log (streams st') p = log (streams st) p ++ [m] /\
  forall q, q <> p -> log (streams st') q = log (streams st) q.
Proof.
  intros Hok Hsafe Happ Hm.
  assert (Hok' : store_ok (streams st')).
  { pose proof (exec_ok now (OAppend p data o) st Hok Hsafe) as Hx. cbn [exec] in Hx. by rewrite Happ in Hx. }
  destruct (append_inv now p data o st st' r m Happ Hm)
    as (s & s1 & v & b & [Hs He] & Hsd & Hcl & Hv & Hacc & Hb & Hmeq & Hst').
  pose proof (contents_stream _ (ok_contents _ Hok) p s Hs) as [Hbase Hch].
  destruct (chain_wf _ _ _ Hbase Hch) as [Hwf _].
  pose proof (Hsafe s Hs b Hb) as Hroom. cbn in Hst'.
  assert (Hs1 : messages s1 = messages s /\ forkedFrom s1 = forkedFrom s /\ forkOffset s1 = forkOffset s).
  { by apply validate_options_book in Hv as [->|[mm ->]]. }
  destruct Hs1 as (Hm1 & Hf1 & Hfo1).
  destruct (commit_fields o v (set_messages (messages s1 ++ [m]) (msg_offset m) s1))
    as (Hcm & _ & Hcf & Hcfo).
  assert (Hlog : forall q, log (streams st') q = log (streams st) q ++ (if decide (q = p) then [m] else [])).
  { intros q. rewrite Hst'. apply (log_append _ p s m); try done.
    - by rewrite Hcm, <-Hm1.
    - by rewrite Hcf, <-Hf1.
    - by rewrite Hcfo, <-Hfo1.
    - rewrite Hmeq. apply next_offset_gt; [done|lia|done].
    - rewrite <-Hst'. by destruct Hok'. }
  split_and!.
  - exists s. rewrite Hmeq. cbn. split_and!; try done. by apply next_offset_position; [|lia|].
  - rewrite Hlog. by rewrite decide_True.
  - intros q Hq. rewrite Hlog, decide_False by done. by rewrite app_nil_r.
Qed.

(** C12: an append that returns a message has stored exactly the processed body
    at the next offset of the stream, at the end of the stream's log, and has
    changed the log of no other stream, forks of this one included. *)
Theorem append_extends_log (p : string) (data : bytes) (o : AppendOptions)
    (st st' : StreamStore) (r : AppendReturn) (m : StreamMessage) :
  store_ok (streams st) -> op_safe now (OAppend p data o) st ->
  append now p data o st = (st', Ok r) -> returned_message r = Some m ->
  (exists s, streams st !! p = Some s /\ closed s = false /\
     stored_bytes s data false = Ok (msg_data m) /\
     position (msg_offset m) = position (currentOffset s) + FRAME_OVERHEAD
                               + Z.of_nat (length (msg_data m))) /\
  log (streams st') p = log (streams st) p ++ [m] /\
  forall q, q <> p -> log (streams st') q = log (streams st) q.
Proof. apply append_log. Qed.

(** *** The contents of a new fork *)

(** The bytes of the sub-offset prefix of a fork at [fo] of the source [src] with
    the log [l]: the beginning of the first message after [fo]. *)
Definition fork_prefix (o : CreateOptions) (src : Stream) (fo : string) (l : list StreamMessage)
    : result StoreError bytes :=
  match co_forkSubOffset o with
  | Some n =>
      if 0 <? n then
        match filter (fun m => str_lt fo (msg_offset m)) l with
        | [] => Err (InvalidForkSubOffset "no data past forkOffset")
        | first :: _ =>
            sub_offset_prefix first n (String.eqb (normalizeContentType (contentType src)) "application/json")
        end
      else Ok []
  | None => Ok []
  end.

(** The bytes of the initial data. *)
Definition initial_bytes (o : CreateOptions) (s : Stream) : result StoreError bytes :=
  match co_initialData o with
  | Some data => if (0 <? length data)%nat then stored_bytes s data true else Ok []
  | None => Ok []
  end.

(** Nothing is stored as no message. *)
Definition nonempty (b : bytes) : list bytes := if (0 <? length b)%nat then [b] else [].

Definition requested_offset (o : CreateOptions) (src : Stream) : string :=
  if truthy (co_forkOffset o) then or_else (co_forkOffset o) EmptyString else currentOffset src.

Lemma source_messages_log q src fo st :
  store_ok (streams st) -> streams st !! q = Some src -> fo <> EmptyString ->
  (if truthy (forkedFrom src) then
     let* inherited := readForkedMessages (or_else (forkedFrom src) EmptyString) (Some fo) (forkOffset src) in
     ret (inherited ++ readOwnMessages src fo)
   else ret (readOwnMessages src fo) : M StreamStore StoreError (list StreamMessage)) st =
  (st, Ok (filter (fun m => str_lt fo (msg_offset m)) (log (streams st) q))).
Proof.
  intros Hok Hs Hfo. pose proof Hok as [Hg Hc].
  rewrite readOwnMessages_filter, log_unfold, Hs by (done || by eapply contents_stream).
  destruct (forkedFrom src) as [p|] eqn:Hp; [|by cbn].
  destruct (graph_parent _ Hg q src p Hs Hp) as [Hp0 [t Ht]].
  destruct (contents_fork _ Hc q src p t Hs Hp Ht) as (c & -> & _).
  cbn [truthy or_else]. rewrite (proj2 (String.eqb_neq p EmptyString)) by done. cbn [negb]. unfold bind.
  rewrite readForkedMessages_log, list.filter_app by done. unfold ret. do 3 f_equal. apply filter_filter_iff.
  intros m. unfold in_bounds. cbn. rewrite (proj2 (String.eqb_neq fo EmptyString)) by done. unfold str_lt. naive_solver.
Qed.

Lemma resolve_fork_contents q o st st' src fo prefix :
  store_ok (streams st) -> resolve_fork now q o st = (st', Ok (src, fo, prefix)) ->
  fo = requested_offset o src /\ fork_prefix o src fo (log (streams st) q) = Ok (or_else prefix []).
Proof.
  intros Hok Hr. pose proof (resolve_fork_Ok now q o st st' src fo prefix Hr) as (Hs & Hsd & He & _ & _ & _ & Hfo).
  assert (Hne : fo <> EmptyString).
  { destruct Hfo as [->|[_ ?]]; [|done]. intros E.
    pose proof (contents_stream _ (ok_contents _ Hok) q src Hs) as [Hbase Hch].
    destruct (chain_wf _ _ _ Hbase Hch) as [Hwf _]. rewrite E in Hwf. destruct Hwf as (n & Hn & Heq).
    by rewrite mk_offset_fixed, string_app_cons in Heq. }
  revert Hr. unfold resolve_fork. unfold bind at 1, get_state. rewrite Hs, Hsd, He. destruct (_ && _); [done|].
  fold (requested_offset o src). destruct (_ || _); [done|].
  intros (st1 & pr & Hp & Hrest)%bind_Ok_inv. injection Hrest as _ Hfo' ->. rewrite Hfo' in *. split; [done|].
  unfold fork_prefix. destruct (co_forkSubOffset o) as [n|]; [|by injection Hp as <- <-].
  destruct (0 <? n); [|by injection Hp as <- <-].
  apply bind_Ok_inv in Hp as (st2 & b & Hb & [= <- <-]). unfold resolveForkSubOffset in Hb.
  apply bind_Ok_inv in Hb as (st3 & ms & Hms & Hb).
  rewrite (source_messages_log q) in Hms by done. injection Hms as <- <-.
  destruct (filter _ _) as [|first l]; [done|]. by injection Hb as <- ->.
Qed.

Lemma append_initial_contents source o s st st' s' :
  append_initial now source o s st = (st', Ok s') ->
  contentType s' = contentType s /\
  exists b, initial_bytes o s = Ok b /\ msg_data <$> messages s' = (msg_data <$> messages s) ++ nonempty b.
Proof.
  unfold append_initial, initial_bytes.
  assert (Hnone : s' = s -> contentType s' = contentType s /\
    exists b, Ok (E := StoreError) [] = Ok b /\ msg_data <$> messages s' = (msg_data <$> messages s) ++ nonempty b).
  { intros ->. split; [done|]. exists []. by rewrite app_nil_r. }
  destruct (co_initialData o) as [data|]; [|intros [= _ <-]; by apply Hnone].
  destruct (0 <? length data)%nat eqn:Hlen; [|intros [= _ <-]; by apply Hnone].
  destruct (appendToStream now s data true) as [[s1 om]|e] eqn:Ha.
  2: { intros (?&?&_&[=])%bind_Ok_inv. }
  intros [= _ <-]. revert Ha. unfold appendToStream, stored_bytes.
  destruct (String.eqb _ _).
  - destruct (processJsonAppend data true) as [b|e]; [|done]. unfold nonempty.
    destruct b as [|x b]; intros [= <- _]; (split; [done|]); eexists; (split; [reflexivity|]); cbn;
      [by rewrite app_nil_r|by rewrite fmap_app].
  - intros [= <- _]. split; [done|]. eexists. split; [reflexivity|]. cbn. unfold nonempty.
    by rewrite Hlen, fmap_app.
Qed.

Lemma build_stream_contents p o src fo prefix :
  msg_data <$> messages (build_stream now p o (Some (src, fo, prefix))) = nonempty (or_else prefix []).
Proof.
  unfold build_stream, nonempty. destruct (resolveForkExpiry _ _ _) as [ttl ex].
  destruct prefix as [b|]; [|reflexivity]. cbn [or_else]. by destruct (0 <? length b)%nat.
Qed.

(** C36: a new fork reads as its source up to the fork offset - the requested one,
    or else the source's current offset - followed by what is stored in it: the
    sub-offset prefix, which is the beginning of the source's first message after
    the fork offset, and the processed initial data, each of them unless it is
    empty.  The source gains one reference, and nobody else's log changes.  (In a
    store with the invariant of C1, for a path that is free, a fork offset in the
    server's own notation, and contents within the safe integers.) *)
Theorem create_fork_log (p q : string) (o : CreateOptions) (st st' : StreamStore) (s : Stream) :
  store_ok (streams st) -> create_safe now p o st -> streams st !! p = None ->
  co_forkedFrom o = Some q -> q <> EmptyString ->
  create now p o st = (st', Ok s) ->
  streams st' !! p = Some s /\
  (exists src src' prefix initial,
     streams st !! q = Some src /\ streams st' !! q = Some src' /\ refCount src' = refCount src + 1 /\
     forkOffset s = Some (requested_offset o src) /\
     fork_prefix o src (requested_offset o src) (log (streams st) q) = Ok prefix /\
     initial_bytes o s = Ok initial /\
     msg_data <$> messages s = nonempty prefix ++ nonempty initial) /\
  log (streams st') p =
    filter (in_bounds None (forkOffset s)) (log (streams st) q) ++ messages s /\
  forall i, i <> p -> is_Some (streams st !! i) -> log (streams st') i = log (streams st) i.
Proof.
  intros Hok Hsafe Hp Hq Hq0 Hcreate.
  assert (Hok' : store_ok (streams st')).
  { pose proof (exec_ok now (OCreate p o) st Hok Hsafe) as Hx. cbn [exec] in Hx. by rewrite Hcreate in Hx. }
  unfold create in Hcreate. apply bind_Ok_inv in Hcreate as (? & ? & [= <- <-] & Hcreate).
  rewrite Hp, create_new_unfold in Hcreate.
  apply bind_Ok_inv in Hcreate as (st1 & fork & Hfork & Hcreate).
  apply fork_of_inv in Hfork as [(Htr & _)|(q' & src & fo & prefix & Hq' & _ & -> & Hr)].
  { rewrite Hq in Htr. cbn in Htr. by rewrite (proj2 (String.eqb_neq q EmptyString)) in Htr. }
  assert (q' = q) as -> by congruence.
  destruct (resolve_fork_contents q o st st1 src fo prefix Hok Hr) as [Hfo Hprefix].
  apply resolve_fork_Ok in Hr as (Hsrc & _ & _ & -> & _).
  apply bind_Ok_inv in Hcreate as (st2 & s2 & Ha & Hcreate).
  apply bind_Ok_inv in Hcreate as (st3 & [] & [= <-] & [= <- <-]).
  pose proof (build_stream_fields now p o (Some (src, fo, prefix))) as (_ & _ & _ & Hff).
  destruct (append_initial_contents _ _ _ _ _ _ Ha) as (Hct & initial & Hinit & Hmsgs).
  rewrite build_stream_contents in Hmsgs. apply append_initial_Ok in Ha as [-> Ha].
  assert (Hfs : forkedFrom s2 = Some q /\ forkOffset s2 = Some fo).
  { rewrite <-Hq. destruct Ha as [->|(data & om & _ & Ha)]; [exact Hff|].
    apply (initial_fields now (Some (src, fo, prefix)) o) in Ha as (_ & _ & _ & Hff' & _).
    by apply Hff'. }
  destruct Hfs as [Hf2 Hfo2].
  assert (Hlogs : forall i, i <> p -> is_Some (streams st !! i) ->
    log (<[p := s2]> (alter (set_refCount (refCount src + 1)) q (streams st))) i
    = log (streams st) i).
  { intros i Hi Hin. symmetry. apply log_derives; [by destruct Hok'|by destruct Hok| |done].
    intros j t Ht. rewrite lookup_insert_ne by congruence.
    destruct (decide (j = q)) as [->|].
    - rewrite lookup_alter_eq, Ht. eexists. split; [done|]. by unfold same_log.
    - rewrite lookup_alter_ne by done. exists t. split; [done|]. by unfold same_log. }
  split_and!.
  - apply lookup_insert_eq.
  - exists src, (set_refCount (refCount src + 1) src), (or_else prefix []), initial. rewrite <-Hfo. split_and!; try done.
    + cbn. rewrite lookup_insert_ne by congruence. by rewrite lookup_alter_eq, Hsrc.
    + rewrite <-Hinit. unfold initial_bytes, stored_bytes. by rewrite Hct.
  - rewrite log_unfold by (by destruct Hok'). cbn [streams upd_streams upd_stream] in *.
    rewrite lookup_insert_eq, Hf2. rewrite Hlogs; [done|congruence|by eexists].
  - exact Hlogs.
Qed.

(** C33: [delete] answers [false] exactly when there is no such stream.  A
    stream with forks is only marked; one without is removed, and with it
    exactly soft-deleted sources that have lost their last fork: every stream
    that is neither the one deleted nor soft-deleted is still there with the
    same log, and no soft-deleted stream is left without a fork. *)
Theorem delete_collects (p : string) (st : StreamStore) :
  store_ok (streams st) -> soft_ok (streams st) ->
  let '(st', found) := delete_ now p st in
  found = bool_decide (is_Some (streams st !! p)) /\
  (forall s, streams st !! p = Some s ->
     if softDeleted s then st' = st
     else if 0 <? refCount s then st' = upd_stream p (set_softDeleted true) st
     else streams st' !! p = None) /\
  (forall q t, q <> p -> streams st !! q = Some t -> softDeleted t = false ->
     is_Some (streams st' !! q)) /\
  (forall q, is_Some (streams st' !! q) -> log (streams st') q = log (streams st) q) /\
  soft_ok (streams st').
Proof.
  intros Hok Hsoft. pose proof (exec_ok now (ODelete p) st Hok I) as Hok'.
  pose proof (exec_soft now (ODelete p) st Hsoft) as Hsoft'. cbn [exec] in *.
  unfold delete_, delete_step in *. destruct (streams st !! p) as [s|] eqn:Hs; cycle 1.
  { rewrite bool_decide_eq_false_2 by (by intros []). by split_and!. }
  rewrite bool_decide_eq_true_2 by (by eexists).
  destruct (softDeleted s) eqn:Hsd.
  { split_and!; try done. intros s' [= <-]. by rewrite Hsd. }
  destruct (0 <? refCount s) eqn:Hr.
  { split_and!; try done.
    - intros s' [= <-]. by rewrite Hsd, Hr.
    - intros q t Hq Ht _. cbn. rewrite lookup_alter_ne by done. by eexists.
    - intros q Hq. apply log_derives; [by destruct Hok|by destruct Hok'| |done]. cbn.
      rewrite (alter_alt_Some _ _ _ s) by done. by eapply derives_insert. }
  fold (deleteWithCascade now p st) in *. cbn [fst] in *.
  rewrite deleteWithCascade_streams in *. split_and!; try done.
  - intros s' [= <-]. rewrite Hsd, Hr. apply cascade_gone.
  - intros q t Hq Ht Ht'. destruct (cascade p (streams st) !! q) eqn:Hc; [by eexists|].
    pose proof (cascade_removed _ p q t Ht Hq Hc). congruence.
  - intros q Hq. apply log_derives; [by destruct Hok|by destruct Hok'|apply derives_cascade|done].
Qed.

(** A closed stream stays closed and keeps its messages: after any
    operation that does not create its path anew it is closed with the same
    contents, or gone. *)
Theorem closed_is_final (x : op) (st : StreamStore) (p : string) (s : Stream) :
  streams st !! p = Some s -> closed s = true -> created x <> Some p ->
  streams (exec now x st) !! p = None \/
  exists s', streams (exec now x st) !! p = Some s' /\ closed s' = true /\
    messages s' = messages s /\ currentOffset s' = currentOffset s.
Proof.
  intros Hp Hcl Hx. eapply closed_steps; [by apply (exec_steps now false)|done..].
Qed.
End properties.

Lemma run_ok `{!JsonLib} `{!DateLib} h st :
  store_ok (streams st) -> soft_ok (streams st) -> run_safe h st ->
  store_ok (streams (run h st)) /\ soft_ok (streams (run h st)).
Proof.
  revert st. induction h as [|[t x] h IH]; intros st Hok Hs; [done|].
  intros [Hsafe Hrun]. apply IH; [by apply exec_ok|by apply exec_soft|done].
Qed.

Lemma soft_ok_empty : soft_ok ∅.
Proof. intros ? ? E. by rewrite lookup_empty in E. Qed.

(** C1: in every state the store reaches by operations that do not outgrow the
    safe integers, use the server's own fork offsets and never create over an
    expired stream that is or has a fork: every reference count is the number
    of forks, every fork's source is there, no chain of forks is circular,
    every stream's messages follow one another from its fork offset up to its
    current offset, which no fork exceeds, and a soft-deleted stream has a
    fork. *)
Theorem store_invariant `{!JsonLib} `{!DateLib} (h : list (Z * op)) :
  run_safe h empty_store ->
  store_ok (streams (run h empty_store)) /\ soft_ok (streams (run h empty_store)).
Proof. apply run_ok; [apply store_ok_empty|apply soft_ok_empty]. Qed.

(** ** A decision procedure for the safety of an operation *)

Section safeb.
Context `{!JsonLib} `{!DateLib}.
Context (now : Z).

Definition roomb (s : Stream) (data : bytes) (init : bool) : bool :=
  match stored_bytes s data init with
  | Ok b => position (currentOffset s) + FRAME_OVERHEAD + Z.of_nat (length b) <=? MAX_SAFE_INTEGER
  | Err _ => true
  end.

Definition wf_offsetb (o : string) : bool :=
  (0 <=? position o) && (position o <=? MAX_SAFE_INTEGER) && String.eqb o (mk_offset (position o)).

Definition create_safeb (p : string) (o : CreateOptions) (st : StreamStore) : bool :=
  match streams st !! p with
  | Some s => negb (isExpired now s) || ((refCount s =? 0) && bool_decide (forkedFrom s = None))
  | None => true
  end &&
  match co_forkOffset o with Some fo => String.eqb fo EmptyString || wf_offsetb fo | None => true end &&
  match fork_of now o (create_state now p st) with
  | (_, Ok fork) =>
      match fork with
      | Some (_, fo, Some prefix) =>
          position fo + FRAME_OVERHEAD + Z.of_nat (length prefix) <=? MAX_SAFE_INTEGER
      | _ => true
      end &&
      match co_initialData o with
      | Some data => roomb (build_stream now p o fork) data true
      | None => true
      end
  | _ => true
  end.

Definition op_safeb (x : op) (st : StreamStore) : bool :=
  match x with
  | OCreate p o => create_safeb p o st
  | OAppend p data _ =>
      match streams st !! p with Some s => roomb s data false | None => true end
  | _ => true
  end.

Lemma roomb_sound s data init : roomb s data init = true -> room s data init.
Proof. unfold roomb, room. intros Hr b Hb. rewrite Hb in Hr. by apply Z.leb_le in Hr. Qed.

Lemma op_safeb_sound x st : op_safeb x st = true -> op_safe now x st.
Proof.
  destruct x as [p o| | | |p data o| | | | | | |]; cbn [op_safeb op_safe]; try done.
  - unfold create_safeb. rewrite !andb_true_iff. intros [[H1 H2] H3]. split_and!.
    + intros s Hs He. rewrite Hs, He in H1. cbn in H1. apply andb_true_iff in H1 as [Hr Hf].
      apply Z.eqb_eq in Hr. by apply bool_decide_eq_true in Hf.
    + intros fo Hfo Hne. rewrite Hfo in H2. rewrite (proj2 (String.eqb_neq fo EmptyString)) in H2 by done.
      unfold wf_offsetb in H2. cbn [orb] in H2. reflect_bools. eexists. split; [|done]. lia.
    + intros st1 fork Hfork. rewrite Hfork in H3. apply andb_true_iff in H3 as [H4 H5]. split.
      * intros src fo prefix ->. by apply Z.leb_le in H4.
      * intros data Hd. rewrite Hd in H5. by apply roomb_sound.
  - intros Hr s Hs. rewrite Hs in Hr. by apply roomb_sound.
Qed.

End safeb.

Fixpoint run_safeb `{!JsonLib} `{!DateLib} (h : list (Z * op)) (st : StreamStore) : bool :=
  match h with
  | [] => true
  | (now, x) :: h => op_safeb now x st && run_safeb h (exec now x st)
  end.

Lemma run_safeb_sound `{!JsonLib} `{!DateLib} h st : run_safeb h st = true -> run_safe h st.
Proof.
  revert st. induction h as [|[now x] h IH]; intros st; cbn; [done|].
  rewrite andb_true_iff. intros [?%op_safeb_sound ?%IH]. done.
Qed.

(** ** Witnesses *)

Section witnesses.
#[local] Existing Instance integer_json.
#[local] Existing Instance decimal_date.

Definition text_stream : CreateOptions :=
  mkCreateOptions (Some "text/plain") None None None None None None None.
Definition fork_at (q : string) (fo : option string) : CreateOptions :=
  mkCreateOptions None None None None None (Some q) fo None.
Definition plain_append : AppendOptions := mkAppendOptions None None None None None None.
Definition text (s : string) : bytes := chars s.

(** A stream, a fork of it in the middle, appends to both, and the source is
    deleted. *)
Definition history : list (Z * op) :=
  [(0, OCreate "/a" text_stream);
   (1, OAppend "/a" (text "hello") plain_append);
   (2, OAppend "/a" (text "world") plain_append);
   (3, OCreate "/b" (fork_at "/a" (Some (mk_offset 10))));
   (4, OAppend "/a" (text "!") plain_append);
   (5, OAppend "/b" (text "there") plain_append);
   (6, ODelete "/a")].

Definition final : StreamStore := run history empty_store.

Lemma history_safe : run_safeb history empty_store = true.
Proof. vm_compute. reflexivity. Qed.

Lemma store_invariant_witness :
  store_ok (streams (run history empty_store)) /\ soft_ok (streams (run history empty_store)).
Proof. exact (store_invariant history (run_safeb_sound _ _ history_safe)). Defined.

Lemma final_ok : store_ok (streams final) /\ soft_ok (streams final).
Proof.
  exact (run_ok history empty_store store_ok_empty soft_ok_empty
           (run_safeb_sound _ _ history_safe)).
Qed.

Definition found (st : StreamStore) (p : string) : Stream :=
  or_else (streams st !! p) (build_stream 0 p text_stream None).

Lemma read_window_witness :
  read 7 "/b" None final =
    (final, Ok [mkStreamMessage (text "hello") (mk_offset 10) 1;
                mkStreamMessage (text "there") (mk_offset 20) 5]) /\
  read 7 "/b" (Some (mk_offset 10)) final =
    (final, Ok [mkStreamMessage (text "there") (mk_offset 20) 5]).
Proof.
  destruct (read_window 7 "/b" final final (found final "/b") (proj1 final_ok)
              ltac:(vm_compute; reflexivity)) as (H1 & H2 & H3).
  split; [exact H1|].
  apply (H3 [] (mkStreamMessage (text "hello") (mk_offset 10) 1)
            [mkStreamMessage (text "there") (mk_offset 20) 5]);
    vm_compute; [reflexivity|discriminate..].
Defined.

(** The store before the source is deleted. *)
Definition history6 : list (Z * op) := take 6 history.
Definition before_delete : StreamStore := run history6 empty_store.

Lemma before_delete_ok : store_ok (streams before_delete) /\ soft_ok (streams before_delete).
Proof.
  assert (Hs : run_safeb history6 empty_store = true) by (vm_compute; reflexivity).
  exact (run_ok history6 empty_store store_ok_empty soft_ok_empty (run_safeb_sound _ _ Hs)).
Qed.

Lemma log_append_only_witness :
  log (streams before_delete) "/b" `prefix_of` log (streams (exec 6 (ODelete "/a") before_delete)) "/b".
Proof.
  apply (log_append_only 6 (ODelete "/a") before_delete "/b" (proj1 before_delete_ok) I).
  - discriminate.
  - vm_compute. eexists. reflexivity.
Defined.

Lemma append_extends_log_witness :
  let st' := (append 8 "/a" (text "!!") plain_append before_delete).1 in
  log (streams st') "/a" =
    log (streams before_delete) "/a" ++ [mkStreamMessage (text "!!") (mk_offset 33) 8] /\
  log (streams st') "/b" = log (streams before_delete) "/b".
Proof.
  intros st'.
  destruct (append_extends_log 8 "/a" (text "!!") plain_append before_delete st'
    (PlainMessage (Some (mkStreamMessage (text "!!") (mk_offset 33) 8)))
    (mkStreamMessage (text "!!") (mk_offset 33) 8)) as (_ & H1 & H2).
  - apply before_delete_ok.
  - apply op_safeb_sound. vm_compute. reflexivity.
  - vm_compute. reflexivity.
  - reflexivity.
  - split; [exact H1|apply H2; discriminate].
Defined.

(** A fork of the fork, two bytes into its second message, with data of its own. *)
Definition fork_inside : CreateOptions :=
  mkCreateOptions None None None (Some (text "!")) None (Some "/b"%string) (Some (mk_offset 10)) (Some 2).

Lemma create_fork_log_witness :
  let st' := (create 8 "/c" fork_inside before_delete).1 in
  msg_data <$> log (streams st') "/c" = [text "hello"; text "th"; text "!"].
Proof.
  intros st'.
  destruct (create_fork_log 8 "/c" "/b" fork_inside before_delete st' (found st' "/c"))
    as (_ & (src & src' & prefix & initial & H1 & _ & _ & H2 & H3 & H4 & H5) & H6 & _).
  - apply before_delete_ok.
  - apply (op_safeb_sound 8 (OCreate "/c" fork_inside)). vm_compute. reflexivity.
  - vm_compute. reflexivity.
  - reflexivity.
  - discriminate.
  - vm_compute. reflexivity.
  - rewrite H6, H2, fmap_app, H5. vm_compute in H1. injection H1 as <-.
    vm_compute in H3. injection H3 as <-. vm_compute in H4. injection H4 as <-. vm_compute. reflexivity.
Defined.

Lemma delete_collects_witness :
  (delete_ 8 "/b" final).2 = true /\ streams (delete_ 8 "/b" final).1 !! "/a" = None /\
  soft_ok (streams (delete_ 8 "/b" final).1).
Proof.
  pose proof (delete_collects 8 "/b" final (proj1 final_ok) (proj2 final_ok)) as Hd.
  rewrite (surjective_pairing (delete_ 8 "/b" final)) in Hd.
  destruct Hd as (-> & _ & _ & _ & Hsoft).
  split_and!; [reflexivity|vm_compute; reflexivity|exact Hsoft].
Defined.

Definition closing_append : AppendOptions := mkAppendOptions None None None None None (Some true).

Lemma closed_is_final_witness :
  let st := exec 7 (OAppend "/b" (text "bye") closing_append) final in
  let st' := exec 8 (OAppend "/b" (text "late") plain_append) st in
  streams st' !! "/b" = None \/
  exists s', streams st' !! "/b" = Some s' /\ closed s' = true /\
    messages s' = messages (found st "/b") /\ currentOffset s' = currentOffset (found st "/b").
Proof.
  intros st st'.
  apply (closed_is_final 8 (OAppend "/b" (text "late") plain_append) st "/b" (found st "/b")).
  - vm_compute. reflexivity.
  - vm_compute. reflexivity.
  - discriminate.
Defined.

(** ** Where the invariant can be broken *)

(** A fork ["/a"] of ["/b"] outlives ["/b"], which expires; ["/b"] is then
    created again as a fork of ["/a"]. *)
Definition ttl_stream (ttl : Z) : CreateOptions :=
  mkCreateOptions (Some "text/plain") (Some ttl) None None None None None None.
Definition immortal_fork (q : string) : CreateOptions :=
  mkCreateOptions None (Some 1000000) None None None (Some q) None None.

Definition cycle_history : list (Z * op) :=
  [(0, OCreate "/b" (ttl_stream 1));
   (10, OCreate "/a" (immortal_fork "/b"));
   (2000, OCreate "/b" (immortal_fork "/a"))].

(** The guard on [create] in the invariant is needed.  [create] drops an
    expired stream without looking at its reference count, so a stream that
    still has a fork can be created anew as a fork of its own fork; a read then
    follows the cycle and overflows the stack, however deep it is. *)
Theorem expired_source_cycle :
  let st := run cycle_history empty_store in
  (read 2001 "/a" None st).2 = Err StackOverflow /\
  forall fuel, readForkedMessages_fuel fuel (streams st) "/b" None (Some ZERO_OFFSET) = None.
Proof.
  intros st. split; [vm_compute; reflexivity|].
  assert (Hs : forall p q, (p = "/a" /\ q = "/b" \/ p = "/b" /\ q = "/a")%string ->
    exists s, streams st !! p = Some s /\ forkedFrom s = Some q /\ forkOffset s = Some ZERO_OFFSET).
  { intros p q [[-> ->]|[-> ->]]; vm_compute; eexists; split_and!; reflexivity. }
  intros fuel. assert (forall p q, (p = "/a" /\ q = "/b" \/ p = "/b" /\ q = "/a")%string ->
    readForkedMessages_fuel fuel (streams st) p None (Some ZERO_OFFSET) = None) as Hf.
  { induction fuel as [|fuel IH]; intros p q Hpq; [done|]. cbn [readForkedMessages_fuel].
    destruct (Hs p q Hpq) as (s & -> & -> & ->).
    assert (truthy (Some q) = true) as -> by (destruct Hpq as [[_ ->]|[_ ->]]; reflexivity).
    cbn [truthy negb orb andb or_else ltb_opt]. rewrite str_ltb_irrefl.
    rewrite (IH q p); [done|]. destruct Hpq as [[-> ->]|[-> ->]]; auto. }
  apply (Hf "/b" "/a")%string. by right.
Qed.
End witnesses.
