(* ===== verification/ReaderRuns.v ===== *)
(** * What a reader is promised

    A read asks for the messages after an offset, and the reply says from which
    offset to go on: [reader_step].  GET, long-poll and SSE are implementations
    of it (ServerReads).  Here: a reader that follows the offsets gets every
    message once and in order, whatever the store does in between; and the
    reply is determined by the two offsets an entity tag is made of. *)

From S2P Require Import Prelude Offsets Producer Text Json Types JsonMode StreamStore StoreLemmas StoreSteps StoreGraph ForkRead StoreTheorems.
Local Open Scope js_scope.

(** The messages after [off]; all of them when it is missing or [-1]. *)
Definition window (off : option string) (ms : list StreamMessage) : list StreamMessage :=
  if negb (truthy off) || bool_decide (off = Some "-1"%string) then ms
  else filter (fun m => str_lt (or_else off EmptyString) (msg_offset m)) ms.

(** The offset to go on from. *)
Definition next_of (ms : list StreamMessage) (s : Stream) : string :=
  or_else (msg_offset <$> list.last ms) (currentOffset s).

(** One read of [p] in the store [ss]. *)
Definition reader_step (p : string) (ss : gmap string Stream) (off : option string)
    (ms : list StreamMessage) (off' : string) : Prop :=
  exists s, ss !! p = Some s /\ ms = window off (log ss p) /\ off' = next_of ms s.

(** What the store may become while nobody creates the path [p] anew. *)
Definition lives (p : string) : relation (gmap string Stream) :=
  rtc (fun ss ss' => exists fresh, fresh <> Some p /\ steps true fresh ss ss').

(** A reader that starts from [off] in the store [ss0] and goes on from the
    offset it was given each time, while the store runs. *)
Inductive session (p : string) (off : option string) (ss0 : gmap string Stream)
    : gmap string Stream -> list StreamMessage -> string -> Prop :=
| session_first ms off' :
    reader_step p ss0 off ms off' -> session p off ss0 ss0 ms off'
| session_next ss ms off' ss' ms' off'' :
    session p off ss0 ss ms off' -> lives p ss ss' -> reader_step p ss' (Some off') ms' off'' -> session p off ss0 ss' (ms ++ ms') off''.

(** An offset a reader may start from: none, [-1], or one the server handed out
    that is not past the tail. *)
Definition start_ok (p : string) (ss : gmap string Stream) (off : option string) : Prop :=
  off = None \/ off = Some "-1"%string \/
  exists o, off = Some o /\ wf_offset o /\
    forall s, ss !! p = Some s -> String.ltb (currentOffset s) o = false.

(** ** Offsets in a log *)

Lemma chain_offsets b ms cur :
  wf_offset b -> chain b ms cur -> Forall (fun m => wf_offset (msg_offset m)) ms.
Proof.
  revert b. induction ms as [|m ms IH]; intros b Hb; [constructor|]. cbn [chain].
  intros (Hf & Ho & Hc). assert (wf_offset (msg_offset m)) by (rewrite Ho; apply next_offset_wf; [done|lia|done]).
  constructor; [done|]. by eapply IH.
Qed.

Lemma log_offsets ss p : store_ok ss -> Forall (fun m => wf_offset (msg_offset m)) (log ss p).
Proof.
  intros [Hg Hc]. revert p. apply (fork_ind ss); [done|..].
  - intros p Hp. by rewrite log_unfold, Hp by done.
  - intros p s Hs IH. rewrite log_unfold, Hs by done. apply Forall_app. split.
    + destruct (forkedFrom s) as [q|] eqn:Hq; [|constructor]. specialize (IH q eq_refl).
      apply list.Forall_forall. intros m [_ Hm]%list_elem_of_filter.
      rewrite list.Forall_forall in IH. by apply IH.
    + destruct (contents_stream _ Hc p s Hs) as [Hb Hch]. by eapply chain_offsets.
Qed.

Lemma stream_offset_wf s : stream_ok s -> wf_offset (currentOffset s).
Proof. intros [Hb Hc]. by destruct (chain_wf _ _ _ Hb Hc). Qed.

Lemma wf_offset_truthy o : wf_offset o -> truthy (Some o) = true /\ o <> "-1"%string.
Proof.
  intros (n & Hn & ->). rewrite mk_offset_fixed by done. rewrite string_app_cons. split; [done|discriminate].
Qed.

Lemma window_wf o ms : wf_offset o -> window (Some o) ms = filter (fun m => str_lt o (msg_offset m)) ms.
Proof.
  intros Ho%wf_offset_truthy. destruct Ho as [Ht Hm]. unfold window. rewrite Ht.
  by rewrite bool_decide_eq_false_2 by congruence.
Qed.

Lemma elem_of_window off m ms : m ∈ window off ms -> m ∈ ms.
Proof. unfold window. destruct (_ || _); [done|]. by intros [_ ?]%list_elem_of_filter. Qed.

Section read.
Context `{!JsonLib} `{!DateLib}.
Context (now : Z).

(** A read of a live stream, whatever offset is asked for. *)
Lemma read_window_any p s off st :
  store_ok (streams st) -> live now p s st ->
  read now p off st = (st, Ok (window off (log (streams st) p))).
Proof.
  intros Hok Hl. destruct (read_log now p st st s Hok (getIfNotExpired_live now p s st Hl)) as [Hall Ho].
  unfold window. destruct (negb (truthy off) || bool_decide (off = Some "-1"%string)) eqn:E.
  - rewrite <-Hall. unfold read. by rewrite E.
  - apply orb_false_iff in E as [Ht%negb_false_iff Hm%bool_decide_eq_false].
    destruct off as [o|]; [|done]. apply (Ho o); [by intros ->|]. intros ->. by apply Hm.
Qed.

End read.

(** ** The tail only moves forward *)

Definition forward (ss ss' : gmap string Stream) (q : string) : Prop :=
  forall s s', ss !! q = Some s -> ss' !! q = Some s' ->
    String.ltb (currentOffset s') (currentOffset s) = false /\
    forall m, m ∈ log ss' q -> m ∈ log ss q \/ str_lt (currentOffset s) (msg_offset m).

Lemma forward_derives ss ss' q :
  graph_ok ss -> graph_ok ss' -> derives ss ss' -> forward ss ss' q.
Proof.
  intros Hg Hg' Hd s s' Hs Hs'. destruct (Hd q s' Hs') as (t & Ht & _ & -> & _).
  simplify_eq. rewrite str_ltb_irrefl. split; [done|]. intros m Hm. left.
  by rewrite <-(log_derives ss ss').
Qed.

Lemma forward_step fresh ss ss' q :
  store_ok ss -> step true fresh ss ss' -> fresh <> Some q -> forward ss ss' q.
Proof.
  intros Hok Hstep Hq. pose proof (store_ok_step _ _ _ Hok Hstep) as [Hg' _].
  pose proof Hok as [Hg Hc].
  pose proof (forward_derives ss ss' q Hg Hg') as Hd.
  destruct Hstep as [p s s' Hs Hb|p s m Hs Hcl Hsd Ho Hfit|p s Hs|p s Hs
                    |p s Hfr Hp ? ? ? Hf|p s r src fo Hfr Hp ? ? ? Hf ? Hsrc].
  - apply Hd. destruct Hb as (_ & ? & ? & ? & ? & _). by eapply derives_insert.
  - destruct (contents_stream _ Hc p s Hs) as [Hb Hch]. destruct (chain_wf _ _ _ Hb Hch).
    assert (Hlt : str_lt (currentOffset s) (msg_offset m))
      by (unfold str_lt; rewrite Ho; apply next_offset_gt; [done|lia|by apply Hfit]).
    intros t t' Ht Ht'. rewrite (log_append ss p s m) by done.
    rewrite lookup_insert in Ht'. case_decide as Hpq.
    + subst q. rewrite decide_True by done. assert (t = s) as -> by congruence.
      injection Ht' as <-. cbn. split; [by apply str_ltb_asym|].
      intros x [?|?%list_elem_of_singleton]%elem_of_app; [by left|subst; by right].
    + assert (t' = t) as -> by congruence. rewrite str_ltb_irrefl, decide_False by congruence.
      rewrite app_nil_r. split; [done|]. by left.
  - apply Hd, derives_cascade.
  - apply Hd, derives_delete.
  - intros t t' Ht Ht'. rewrite lookup_insert_ne in Ht' by congruence.
    assert (t' = t) as -> by congruence. rewrite str_ltb_irrefl. split; [done|]. intros m Hm. left.
    rewrite <-(log_derives (<[p := s]> ss) ss) in Hm; try done.
    intros i u Hu. exists u. rewrite lookup_insert_ne by congruence. by unfold same_log.
  - assert (Hd' : derives (<[p := s]> (<[r := set_refCount (refCount src + 1) src]> ss)) ss).
    { intros i t Ht. rewrite lookup_insert_ne by congruence. rewrite lookup_insert.
      case_decide; [exists (set_refCount (refCount src + 1) src)|exists t]; split; try done;
        unfold same_log; by replace t with src by congruence. }
    intros t t' Ht Ht'. destruct (Hd' q t Ht) as (u & Hu & _ & Hcur & _).
    assert (u = t') as -> by congruence. rewrite Hcur, str_ltb_irrefl. split; [done|].
    intros m Hm. left. rewrite (log_derives _ ss q Hg' Hg Hd'); [done|by eexists].
Qed.

Lemma forward_steps fresh ss ss' q :
  store_ok ss -> steps true fresh ss ss' -> fresh <> Some q -> forward ss ss' q.
Proof.
  intros Hok Hsteps Hq. induction Hsteps as [ss|a b c Hab Hbc IH].
  { intros s s' Hs Hs'. simplify_eq. rewrite str_ltb_irrefl. split; [done|]. by left. }
  pose proof (store_ok_step _ _ _ Hok Hab) as Hokb. specialize (IH Hokb).
  intros s s' Hs Hs'. destruct (b !! q) as [t|] eqn:Ht; cycle 1.
  { exfalso. assert (c !! q = None) as E; [|congruence]. clear -Hbc Hq Ht.
    induction Hbc as [|x y z Hxy _ IH]; [done|]. apply IH. by eapply absent_step. }
  destruct (forward_step _ _ _ q Hok Hab Hq s t Hs Ht) as [H1 H2].
  destruct (IH t s' Ht Hs') as [H3 H4]. split; [by eapply str_le_trans|].
  intros m [Hm|Hm]%H4; [by apply H2|]. right. unfold str_lt in *.
  by eapply str_le_ltb_trans.
Qed.

(** ** A reader that has caught up with the log *)

(** Nothing in the log is past [off], nor is [off] past the tail. *)
Definition caught_up (p : string) (ss : gmap string Stream) (off : string) : Prop :=
  wf_offset off /\ Forall (fun m => String.ltb off (msg_offset m) = false) (log ss p) /\
  forall s, ss !! p = Some s -> String.ltb (currentOffset s) off = false.

Lemma increasing_last ms m m' :
  increasing ms -> list.last ms = Some m -> m' ∈ ms -> String.ltb (msg_offset m) (msg_offset m') = false.
Proof.
  intros Hi Hl. apply last_Some in Hl as [l ->].
  intros [Hm| ->%list_elem_of_singleton]%elem_of_app; [|apply str_ltb_irrefl].
  apply str_ltb_asym. induction l as [|x l IH]; [by apply not_elem_of_nil in Hm|].
  cbn in Hi. inversion_clear Hi as [|? ? Hi' Hx].
  apply elem_of_cons in Hm as [->|Hm]; [|by apply IH].
  rewrite list.Forall_forall in Hx. apply Hx, elem_of_app. right. by apply list_elem_of_singleton.
Qed.

(** After a read the reader has caught up, if it did not start past the tail. *)
Lemma caught_up_read p ss off ms off' :
  store_ok ss -> reader_step p ss off ms off' -> start_ok p ss off -> caught_up p ss off'.
Proof.
  intros Hok (s & Hs & -> & ->) Hoff.
  destruct (log_increasing ss p Hok) as [Hinc Hcur]. specialize (Hcur s Hs).
  pose proof (log_offsets ss p Hok) as Hwf. rewrite list.Forall_forall in Hwf, Hcur.
  pose proof (contents_stream _ (ok_contents _ Hok) p s Hs) as Hsok.
  unfold next_of. destruct (list.last (window off (log ss p))) as [m|] eqn:Hl; cbn.
  - pose proof Hl as Hin. apply last_Some_elem_of in Hin. pose proof (elem_of_window _ _ _ Hin) as Hm.
    split_and!; [by apply Hwf| |intros s' Hs'; simplify_eq; by apply Hcur].
    apply list.Forall_forall. intros m' Hm'.
    unfold window in Hl, Hin. destruct (_ || _); [by eapply increasing_last|].
    apply list_elem_of_filter in Hin as [Hlt _]. unfold str_lt in *.
    destruct (String.ltb (or_else off "") (msg_offset m')) eqn:Hlt'.
    + eapply increasing_last; [|exact Hl|by apply list_elem_of_filter].
      by apply increasing_filter.
    + apply str_ltb_asym. by eapply str_le_ltb_trans.
  - split_and!; [by apply stream_offset_wf| |intros s' Hs'; simplify_eq; apply str_ltb_irrefl].
    apply list.Forall_forall. apply Hcur.
Qed.

(** What is appended to a log is past the tail. *)
Lemma new_messages fresh p ss ss' s :
  store_ok ss -> steps true fresh ss ss' -> fresh <> Some p -> ss !! p = Some s -> is_Some (ss' !! p) ->
  exists new, log ss' p = log ss p ++ new /\
    Forall (fun m => str_lt (currentOffset s) (msg_offset m)) new.
Proof.
  intros Hok Hsteps Hf Hs [s' Hs'].
  destruct (log_steps fresh ss ss' p Hok Hsteps Hf ltac:(by eexists)) as [new Hnew]. exists new. split; [done|].
  destruct (forward_steps fresh ss ss' p Hok Hsteps Hf s s' Hs Hs') as [_ Hfw].
  apply list.Forall_forall. intros m Hm.
  assert (Hmn : m ∈ log ss' p) by (rewrite Hnew; apply elem_of_app; by right).
  destruct (Hfw m Hmn) as [Hold|Hlt]; [|done]. exfalso.
  destruct (log_increasing ss' p (store_ok_steps _ _ _ Hok Hsteps)) as [Hinc _].
  rewrite Hnew in Hinc. clear -Hinc Hold Hm. induction (log ss p) as [|x l IH].
  { by apply not_elem_of_nil in Hold. }
  cbn in Hinc. inversion_clear Hinc as [|? ? Hinc' Hx]. apply elem_of_cons in Hold as [->|Hold].
  - rewrite list.Forall_forall in Hx. specialize (Hx x). unfold before, str_lt in Hx.
    rewrite str_ltb_irrefl in Hx. discriminate Hx. apply elem_of_app. by right.
  - by apply IH.
Qed.

Lemma absent_steps fresh p ss ss' :
  steps true fresh ss ss' -> fresh <> Some p -> ss !! p = None -> ss' !! p = None.
Proof. intros Hst Hf. induction Hst as [|a b c Hab _ IH]; [done|]. intros Hp. apply IH. by eapply absent_step. Qed.

Lemma absent_lives p ss ss' : lives p ss ss' -> ss !! p = None -> ss' !! p = None.
Proof.
  induction 1 as [|a b c (fresh & Hf & Hab) _ IH]; [done|]. intros Hp. apply IH.
  by apply (absent_steps fresh p a b).
Qed.

Lemma lives_once p fresh ss ss' : steps true fresh ss ss' -> fresh <> Some p -> lives p ss ss'.
Proof. intros Hst Hf. apply rtc_once. by exists fresh. Qed.

Lemma store_ok_lives p ss ss' : store_ok ss -> lives p ss ss' -> store_ok ss'.
Proof.
  intros Hok Hl. induction Hl as [|a b c (fresh & _ & Hab) _ IH]; [done|]. apply IH.
  by apply (store_ok_steps fresh a b).
Qed.

Lemma lives_forward p ss ss' s s' :
  store_ok ss -> lives p ss ss' -> ss !! p = Some s -> ss' !! p = Some s' ->
  String.ltb (currentOffset s') (currentOffset s) = false /\
  exists new, log ss' p = log ss p ++ new /\ Forall (fun m => str_lt (currentOffset s) (msg_offset m)) new.
Proof.
  intros Hok Hl. revert s. induction Hl as [a|a b c (fresh & Hf & Hab) Hbc IH]; intros s Hs Hs'.
  { simplify_eq. rewrite str_ltb_irrefl. split; [done|]. exists []. by rewrite app_nil_r. }
  destruct (b !! p) as [t|] eqn:Ht; [|pose proof (absent_lives p b c Hbc Ht); congruence].
  destruct (forward_steps fresh a b p Hok Hab Hf s t Hs Ht) as [Hst _].
  destruct (new_messages fresh p a b s Hok Hab Hf Hs ltac:(by eexists)) as (new & Hnew & Hall).
  destruct (IH (store_ok_steps fresh a b Hok Hab) t eq_refl Hs') as (Hts & new' & Hnew' & Hall').
  split; [by eapply str_le_trans|]. exists (new ++ new'). split; [by rewrite Hnew', Hnew, app_assoc|].
  apply Forall_app. split; [done|]. eapply list.Forall_impl; [exact Hall'|]. intros m Hm.
  unfold str_lt in *. by eapply str_le_ltb_trans.
Qed.

(** What a caught-up reader gets later is what came after its log. *)
Lemma caught_up_later p ss ss' off :
  store_ok ss -> caught_up p ss off -> lives p ss ss' -> is_Some (ss !! p) -> is_Some (ss' !! p) ->
  log ss' p = log ss p ++ window (Some off) (log ss' p).
Proof.
  intros Hok (Hwf & Hall & Htail) Hl [s Hs] [s' Hs'].
  destruct (lives_forward p ss ss' s s' Hok Hl Hs Hs') as (_ & new & Hnew & Hlt).
  rewrite window_wf by done. rewrite Hnew. f_equal. rewrite list.filter_app.
  rewrite (filter_false_nil _ (log ss p)), (filter_true_id _ new); [done|..].
  - eapply list.Forall_impl; [exact Hlt|]. intros m Hm. unfold str_lt in *.
    by eapply str_le_ltb_trans; [apply Htail|].
  - eapply list.Forall_impl; [exact Hall|]. intros m Hm. unfold str_lt. by rewrite Hm.
Qed.

(** The next offset is not before the one that was asked for. *)
Lemma reader_step_le p ss o ms off' :
  wf_offset o -> (forall s, ss !! p = Some s -> String.ltb (currentOffset s) o = false) ->
  reader_step p ss (Some o) ms off' -> String.ltb off' o = false.
Proof.
  intros Ho Htail (s & Hs & -> & ->). unfold next_of.
  destruct (list.last _) as [m|] eqn:Hl; cbn; [|by apply Htail].
  apply last_Some_elem_of in Hl. rewrite window_wf in Hl by done.
  apply list_elem_of_filter in Hl as [Hlt _]. by apply str_ltb_asym.
Qed.

Lemma session_inv p off ss0 ss ms off' :
  store_ok ss0 -> start_ok p ss0 off -> session p off ss0 ss ms off' ->
  store_ok ss /\ is_Some (ss !! p) /\ caught_up p ss off' /\ ms = window off (log ss p) /\
  forall o, off = Some o -> wf_offset o -> String.ltb off' o = false.
Proof.
  intros Hok Hstart Hs. induction Hs as [ms off' Hr|ss ms off' ss' ms' off'' Hs IH Hst Hr].
  - pose proof Hr as (s & Hp & Hms & _). split_and!; [done|by eexists| |done|].
    + by eapply caught_up_read.
    + intros o -> Ho. eapply reader_step_le; [done| |done].
      destruct Hstart as [|[?|(o' & ? & _ & ?)]]; simplify_eq; try done.
      by destruct (wf_offset_truthy _ Ho).
  - destruct IH as (Hok1 & Hin & Hcu & -> & Hle). pose proof Hr as (s' & Hs' & -> & _).
    pose proof (caught_up_later p ss ss' off' Hok1 Hcu Hst Hin ltac:(by eexists)) as Hlater.
    pose proof (store_ok_lives _ _ _ Hok1 Hst) as Hok'. pose proof Hcu as (Hwf & _ & Htail).
    assert (Htail' : forall s, ss' !! p = Some s -> String.ltb (currentOffset s) off' = false).
    { intros t Ht. destruct Hin as [s Hin].
      destruct (lives_forward p ss ss' s t Hok1 Hst Hin Ht) as [Hfw _].
      by eapply str_le_trans; [apply Htail|]. }
    split_and!; [done|by eexists| | |].
    + eapply caught_up_read; [done..|]. right; right. by exists off'.
    + rewrite Hlater at 2. unfold window at 1 3. destruct (_ || _) eqn:Hall; [done|].
      rewrite list.filter_app. f_equal. symmetry. apply filter_true_id, list.Forall_forall.
      intros m Hm. rewrite window_wf in Hm by done. apply list_elem_of_filter in Hm as [Hm _].
      apply orb_false_iff in Hall as [Ht%negb_false_iff Hn%bool_decide_eq_false].
      destruct Hstart as [->|[->|(o & -> & Ho & _)]]; [done..|]. cbn. unfold str_lt in *.
      eapply str_le_ltb_trans; [by apply Hle|done].
    + intros o -> Ho. eapply str_le_trans; [by apply Hle|]. by eapply reader_step_le.
Qed.

(** The two offsets of a reply determine what it contains, at whatever time it
    is given. *)
Lemma reply_determined (p : string) (off : option string) fresh ss ss' ms ms' stop :
  store_ok ss -> start_ok p ss off -> steps true fresh ss ss' -> fresh <> Some p ->
  reader_step p ss off ms stop -> reader_step p ss' off ms' stop -> ms' = ms.
Proof.
  intros Hok Hstart Hst Hf Hr Hr'.
  pose proof Hr' as (s' & Hs' & Hms' & Hstop').
  assert (Hcu : caught_up p ss stop) by (by eapply caught_up_read).
  assert (Hsess : session p off ss ss' (ms ++ window (Some stop) (log ss' p))
                    (next_of (window (Some stop) (log ss' p)) s')).
  { eapply session_next; [by apply session_first|by eapply lives_once|]. by exists s'. }
  destruct (session_inv p off ss ss' _ _ Hok Hstart Hsess) as (Hok' & _ & _ & Hall & _).
  rewrite <-Hms' in Hall. subst ms'. destruct (list.last (window (Some stop) (log ss' p))) as [m|] eqn:Hl.
  - exfalso. assert (Hne : next_of (ms ++ window (Some stop) (log ss' p)) s' = msg_offset m).
    { unfold next_of. by rewrite last_app, Hl. }
    rewrite Hall, <-Hstop' in Hne. apply last_Some_elem_of in Hl.
    rewrite window_wf in Hl by apply Hcu. apply list_elem_of_filter in Hl as [Hlt _].
    unfold str_lt in Hlt. rewrite <-Hne, str_ltb_irrefl in Hlt. done.
  - apply last_None in Hl. rewrite <-Hall, Hl. by rewrite app_nil_r.
Qed.

(** * A reader that polls while the store runs

    The reader, executed: between two reads the store runs any
    operations, and each read goes on from the offset the last one gave. *)

Section follow.
Context `{!JsonLib} `{!DateLib}.

(** One after the other: operations of others, and a read at a time.  The result
    is the store after the last read, everything that was read, and the offset to
    go on from; there is none when a read fails. *)
Fixpoint follow (p : string) (off : option string) (polls : list (list (Z * op) * Z)) (st : StreamStore)
    : option (StreamStore * list StreamMessage * option string) :=
  match polls with
  | [] => Some (st, [], off)
  | (h, now) :: polls =>
      let '(st1, r) := read now p off (run h st) in
      match r, streams st1 !! p with
      | Ok ms, Some s =>
          match follow p (Some (next_of ms s)) polls st1 with
          | Some (st', ms', off') => Some (st', ms ++ ms', off')
          | None => None
          end
      | _, _ => None
      end
  end.

(** The operations do not outgrow the store's limits ([run_safe]) and do not
    create the path anew. *)
Definition others (p : string) (h : list (Z * op)) (st : StreamStore) : Prop :=
  run_safe h st /\ Forall (fun x => created x.2 <> Some p) h.

Fixpoint follow_safe (p : string) (off : option string) (polls : list (list (Z * op) * Z)) (st : StreamStore) : Prop :=
  match polls with
  | [] => True
  | (h, now) :: polls =>
      others p h st /\
      let '(st1, r) := read now p off (run h st) in
      match r, streams st1 !! p with
      | Ok ms, Some s => follow_safe p (Some (next_of ms s)) polls st1
      | _, _ => True
      end
  end.

(** The same, executable. *)
Fixpoint follow_safeb (p : string) (off : option string) (polls : list (list (Z * op) * Z)) (st : StreamStore) : bool :=
  match polls with
  | [] => true
  | (h, now) :: polls =>
      run_safeb h st && forallb (fun x => negb (bool_decide (created x.2 = Some p))) h &&
      let '(st1, r) := read now p off (run h st) in
      match r, streams st1 !! p with
      | Ok ms, Some s => follow_safeb p (Some (next_of ms s)) polls st1
      | _, _ => true
      end
  end.

Lemma follow_safeb_sound p off polls st : follow_safeb p off polls st = true -> follow_safe p off polls st.
Proof.
  revert off st. induction polls as [|[h now] polls IH]; intros off st; [done|]. cbn.
  intros [[Hr Hc]%andb_true_iff Hs]%andb_true_iff. split.
  - split; [by apply run_safeb_sound|]. apply List.Forall_forall. intros x Hx.
    rewrite forallb_forall in Hc. by apply Hc, negb_true_iff, bool_decide_eq_false in Hx.
  - destruct (read now p off (run h st)) as [st1 [ms|e]]; [|done].
    destruct (streams st1 !! p); [by apply IH|done].
Qed.

Lemma run_lives p h st :
  store_ok (streams st) -> others p h st -> lives p (streams st) (streams (run h st)).
Proof.
  revert st. induction h as [|[now x] h IH]; intros st Hok [Hsafe Hall]; [reflexivity|].
  destruct Hsafe as [Hx Hsafe]. inversion_clear Hall as [|? ? Hc Hall'].
  transitivity (streams (exec now x st)).
  - apply (lives_once p (created x)); [by apply (exec_steps now true)|done].
  - apply IH; [by apply exec_ok|by split].
Qed.

(** A read that succeeds is a step of a reader. *)
Lemma read_step now p off st st1 ms :
  store_ok (streams st) -> read now p off st = (st1, Ok ms) ->
  lives p (streams st) (streams st1) /\
  exists s, streams st1 !! p = Some s /\ reader_step p (streams st1) off ms (next_of ms s).
Proof.
  intros Hok Hread. split.
  - apply (lives_once p None); [|done].
    pose proof (exec_steps now true (ORead p off) st ltac:(done)) as Hst. cbn [exec created] in Hst.
    by rewrite Hread in Hst.
  - destruct (getIfNotExpired now p st) as [st2 [s|]] eqn:Hget.
    + destruct (read_log now p st st2 s Hok Hget) as [Hall Ho].
      apply getIfNotExpired_Some in Hget as (Hs & _).
      assert (Hr : read now p off st = (st2, Ok (window off (log (streams st2) p)))).
      { unfold window. destruct (negb (truthy off) || bool_decide (off = Some "-1"%string)) eqn:Eo.
        - rewrite <-Hall. unfold read. by rewrite Eo.
        - apply orb_false_iff in Eo as [Ht%negb_false_iff Hm%bool_decide_eq_false].
          destruct off as [o|]; [|done]. apply (Ho o); [by intros ->|]. intros ->. by apply Hm. }
      rewrite Hr in Hread. injection Hread as <- <-. exists s. split; [done|]. by exists s.
    + exfalso. unfold read, bind, call in Hread. rewrite Hget in Hread. done.
Qed.

(** Reading on from a session is a longer session. *)
Lemma follow_session p off ss0 polls st ms0 off1 st' ms off' :
  store_ok ss0 -> start_ok p ss0 off -> session p off ss0 (streams st) ms0 off1 ->
  follow_safe p (Some off1) polls st -> follow p (Some off1) polls st = Some (st', ms, off') ->
  exists off2, session p off ss0 (streams st') (ms0 ++ ms) off2.
Proof.
  intros Hok0 Hstart. revert st ms0 off1 ms. induction polls as [|[h now] polls IH]; intros st ms0 off1 ms Hs Hsafe Hf.
  { injection Hf as <- <- <-. exists off1. by rewrite app_nil_r. }
  cbn in Hsafe, Hf. destruct Hsafe as [Ho Hsafe].
  destruct (session_inv _ _ _ _ _ _ Hok0 Hstart Hs) as [Hok _].
  pose proof (run_lives p h st Hok Ho) as Hl1.
  destruct (read now p (Some off1) (run h st)) as [st1 [ms1|e]] eqn:Hr; [|done].
  destruct (read_step now p (Some off1) _ st1 ms1 (store_ok_lives _ _ _ Hok Hl1) Hr) as (Hl2 & s & Hp & Hstep).
  rewrite Hp in Hf, Hsafe. destruct (follow _ _ _ _) as [[[st2 ms2] off2]|] eqn:Hf2; [|done].
  injection Hf as <- <- <-. rewrite app_assoc.
  apply (IH st1 (ms0 ++ ms1) (next_of ms1 s) ms2); [|done|done].
  eapply session_next; [exact Hs| |exact Hstep]. unfold lives. by etrans.
Qed.

(** A start stays a start while the store runs. *)
Lemma start_ok_lives p ss ss' off :
  store_ok ss -> lives p ss ss' -> is_Some (ss' !! p) -> start_ok p ss off -> start_ok p ss' off.
Proof.
  intros Hok Hl [s' Hs'] [->|[->|(o & -> & Ho & Hle)]]; [by left|by right; left|].
  right; right. exists o. split; [done|]. split; [done|]. intros t Ht. assert (t = s') as -> by congruence. clear Hs'. rename s' into t, Ht into Hs'.
  destruct (ss !! p) as [s|] eqn:Hs; [|by rewrite (absent_lives p ss ss' Hl Hs) in Hs'].
  destruct (lives_forward p ss ss' s t Hok Hl Hs Hs') as [Hfw _].
  by eapply str_le_trans; [apply Hle|].
Qed.

(** C2: a reader that polls, each time from the offset the last reply gave, while
    other clients append to, close, delete and read any streams in between, has got
    exactly the messages the log then holds after the offset it started from, each
    once and in order, and none is missing.  The reader starts from no offset, from
    -1, or from an offset of the server that is not past the stream's end; the store
    starts with the invariant of C1.  The other clients' operations are safe where
    they run: no stream outgrows the safe integers, a fork offset is in the server's
    own notation, and a create that meets an expired stream meets one that neither
    is nor has a fork; and none of them creates the path the reader polls. *)
Theorem reader_complete p off polls st0 st' ms off' :
  store_ok (streams st0) -> start_ok p (streams st0) off -> follow_safe p off polls st0 ->
  polls <> [] -> follow p off polls st0 = Some (st', ms, off') ->
  ms = window off (log (streams st') p).
Proof.
  intros Hok Hstart Hsafe Hne Hf. destruct polls as [|[h now] polls]; [done|].
  cbn in Hsafe, Hf. destruct Hsafe as [Ho Hsafe]. pose proof (run_lives p h st0 Hok Ho) as Hl1.
  pose proof (store_ok_lives _ _ _ Hok Hl1) as Hok1.
  destruct (read now p off (run h st0)) as [st1 [ms1|e]] eqn:Hr; [|done].
  destruct (read_step now p off _ st1 ms1 Hok1 Hr) as (Hl2 & s & Hp & Hstep).
  rewrite Hp in Hf, Hsafe. destruct (follow _ _ polls st1) as [[[st2 ms2] off2]|] eqn:Hf2; [|done].
  injection Hf as <- <- <-.
  assert (Hl : lives p (streams st0) (streams st1)) by (unfold lives; by etrans).
  pose proof (store_ok_lives _ _ _ Hok Hl) as Hok2.
  pose proof (start_ok_lives _ _ _ _ Hok Hl ltac:(by eexists) Hstart) as Hstart'.
  destruct (follow_session p off (streams st1) polls st1 ms1 _ st2 ms2 off2 Hok2 Hstart'
    (session_first _ _ _ _ _ Hstep) Hsafe Hf2) as [off3 Hs].
  by destruct (session_inv _ _ _ _ _ _ Hok2 Hstart' Hs) as (_ & _ & _ & -> & _).
Qed.
End follow.
