(* ===== verification/LongPoll.v ===== *)
(** * Long-polls: every promise is kept, and who is woken

    The promises of [waitForMessages] and their timers.  [polls_ok] is an
    invariant of every operation of the store; its promise part says that a
    promise that has not been resolved still has its timer. *)

From S2P Require Import Prelude Offsets Producer Text Json Types JsonInstance JsonMode StreamStore StoreLemmas StoreSteps StoreGraph ForkRead StoreTheorems ReaderRuns.
Local Open Scope js_scope.

(** The promises in [X] are being resolved: their timers are off already. *)
Record polls_ok (X : list nat) (st : StreamStore) : Prop := {
  po_promise : forall id, (id < nextId st)%nat ->
    id ∈ X \/ is_Some (results st !! id) \/ is_Some (timers st !! id);
  po_timer : forall id q, timers st !! id = Some q -> lp_id q = id /\ (id < nextId st)%nat;
  po_nodup : NoDup (lp_id <$> pendingLongPolls st);
  po_pending : forall q, q ∈ pendingLongPolls st -> lp_id q ∉ X /\ results st !! lp_id q = None;
  po_result : forall id r, results st !! id = Some r -> (id < nextId st)%nat;
  po_ids : forall l q, l ∈ pendingLongPolls st :: abandoned st -> q ∈ l -> (lp_id q < nextId st)%nat;
  po_busy : forall id, id ∈ X -> (id < nextId st)%nat;
}.

(** What every operation does: the invariant is kept, and no promise is
    forgotten. *)
Definition polls_kept (st st' : StreamStore) : Prop :=
  (forall X, polls_ok X st -> polls_ok X st') /\ (nextId st <= nextId st')%nat.

#[export] Instance polls_kept_preorder : PreOrder polls_kept.
Proof.
  split; [done|]. intros a b c [H1 H2] [H3 H4]. split; [auto|lia].
Qed.

(** ** The elementary changes *)

Lemma kept_streams f st : polls_kept st (upd_streams f st).
Proof. split; [|done]. by intros X []. Qed.

Lemma remove_first_subseteq id l : remove_first id l `sublist_of` l.
Proof.
  induction l as [|q l IH]; [done|]. cbn. destruct (_ =? _)%nat; [by apply sublist_cons|].
  by apply sublist_skip.
Qed.

Lemma remove_first_gone id l q : NoDup (lp_id <$> l) -> q ∈ remove_first id l -> lp_id q <> id.
Proof.
  induction l as [|x l IH]; [by intros ? ?%not_elem_of_nil|]. cbn.
  intros [Hx Hl]%list.NoDup_cons. destruct (Nat.eqb_spec (lp_id x) id) as [<-|Hne].
  - intros Hq Heq. apply Hx. rewrite <-Heq. by apply list_elem_of_fmap_2.
  - intros [->|Hq]%elem_of_cons; [done|by apply IH].
Qed.

Lemma sublist_ids l l' :
  l' `sublist_of` l -> NoDup (lp_id <$> l) -> NoDup (lp_id <$> l') /\ forall q, q ∈ l' -> q ∈ l.
Proof.
  intros Hs Hn. split; [|intros q Hq; by eapply elem_of_sublist].
  eapply sublist_NoDup; [exact Hn|]. by apply fmap_sublist.
Qed.

(** A promise is taken up: its timer is cleared and its entry removed. *)
Lemma kept_take id st X :
  (id < nextId st)%nat -> polls_ok X st ->
  polls_ok (id :: X) (splice_polls (remove_first id) (clearTimeout id st)).
Proof.
  intros Hid Hok.
  destruct (sublist_ids _ _ (remove_first_subseteq id (pendingLongPolls st)) (po_nodup _ _ Hok))
    as [Hn Hsub].
  split; cbn.
  - intros i Hi. destruct (decide (i = id)) as [->|Hne]; [left; by left|].
    rewrite lookup_delete_ne by done. destruct (po_promise _ _ Hok i Hi) as [?|?]; [left; by right|by right].
  - intros i q [_ Hq]%lookup_delete_Some. by apply (po_timer _ _ Hok).
  - done.
  - intros q Hq. destruct (po_pending _ _ Hok q (Hsub q Hq)) as [HX Hr]. split; [|done].
    apply not_elem_of_cons. split; [|done]. by eapply remove_first_gone; [apply (po_nodup _ _ Hok)|].
  - apply (po_result _ _ Hok).
  - intros l q [->|Hl]%elem_of_cons Hq.
    + apply (po_ids _ _ Hok (pendingLongPolls st)); [by left|by apply Hsub].
    + apply (po_ids _ _ Hok l); [by right|done].
  - intros i [->|Hi]%elem_of_cons; [done|by apply (po_busy _ _ Hok)].
Qed.

(** It is resolved. *)
Lemma kept_settle id r st X : polls_ok (id :: X) st -> polls_ok X (settle id r st).
Proof.
  intros Hok.
  assert (Hres : forall i, is_Some (results (settle id r st) !! i) <-> i = id \/ is_Some (results st !! i)).
  { intros i. cbn. destruct (results st !! id) as [r'|] eqn:Hr.
    - split; [by right|]. intros [->|?]; [by eexists|done].
    - rewrite lookup_insert. case_decide as Hd; [subst|]; split; eauto.
      intros [->|?]; [done|done]. }
  split.
  - intros i Hi. destruct (po_promise _ _ Hok i Hi) as [[->|?]%elem_of_cons|[?|?]]; [|by left|..|by right; right].
    + right; left. apply Hres. by left.
    + right; left. apply Hres. by right.
  - apply (po_timer _ _ Hok).
  - apply (po_nodup _ _ Hok).
  - intros q Hq. destruct (po_pending _ _ Hok q Hq) as [[Hne HX]%not_elem_of_cons Hr]. split; [done|].
    destruct (results (settle id r st) !! lp_id q) eqn:E; [|done].
    destruct (proj1 (Hres (lp_id q)) ltac:(by eexists)) as [?|[? ?]]; [done|congruence].
  - intros i r' Hi. destruct (proj1 (Hres i) ltac:(by eexists)) as [->|[? ?]].
    + apply (po_busy _ _ Hok). by left.
    + by eapply (po_result _ _ Hok).
  - apply (po_ids _ _ Hok).
  - intros i Hi. apply (po_busy _ _ Hok). by right.
Qed.

(** The array is replaced by a part of itself. *)
Lemma kept_assign l st : l `sublist_of` pendingLongPolls st -> polls_kept st (assign_polls l st).
Proof.
  intros Hs. split; [|done]. intros X Hok.
  destruct (sublist_ids _ _ Hs (po_nodup _ _ Hok)) as [Hn Hsub].
  split; cbn; try apply Hok; try done.
  - intros q Hq. by apply (po_pending _ _ Hok), Hsub.
  - intros l' q [->|Hl]%elem_of_cons Hq; [|by apply (po_ids _ _ Hok l')].
    apply (po_ids _ _ Hok (pendingLongPolls st)); [by left|by apply Hsub].
Qed.

Lemma kept_register p off st : polls_kept st (register_poll p off st).1.
Proof.
  split; [|cbn; lia]. intros X Hok. split; cbn.
  - intros i Hi. destruct (decide (i = nextId st)) as [->|Hne].
    + right; right. rewrite lookup_insert_eq. by eexists.
    + rewrite lookup_insert_ne by done. apply (po_promise _ _ Hok). lia.
  - intros i q. rewrite lookup_insert. case_decide as Hd; [|intros Hq%(po_timer _ _ Hok); split; [tauto|lia]].
    intros [= <-]. subst. split; [done|cbn; lia].
  - rewrite fmap_app. apply list.NoDup_app. split_and!; [apply (po_nodup _ _ Hok)| |apply NoDup_singleton].
    intros i (q & -> & Hq)%list_elem_of_fmap Heq%list_elem_of_singleton.
    pose proof (po_ids _ _ Hok (pendingLongPolls st) q ltac:(by left) Hq) as Hlt. cbn in *. lia.
  - intros q [Hq|Heq%list_elem_of_singleton]%elem_of_app; [by apply (po_pending _ _ Hok)|].
    subst q. cbn. split.
    + intros HX%(po_busy _ _ Hok). lia.
    + destruct (results st !! nextId st) eqn:E; [|done]. apply (po_result _ _ Hok) in E. lia.
  - intros i r Hr%(po_result _ _ Hok). lia.
  - intros l q [->|Hl]%elem_of_cons Hq.
    + apply elem_of_app in Hq as [Hq|Heq%list_elem_of_singleton]; [|subst q; cbn; lia].
      pose proof (po_ids _ _ Hok (pendingLongPolls st) q ltac:(by left) Hq). lia.
    + pose proof (po_ids _ _ Hok l q ltac:(by right) Hq). lia.
  - intros i Hi%(po_busy _ _ Hok). lia.
Qed.

(** ** The operations *)

Section operations.
Context `{!JsonLib} `{!DateLib}.
Context (now : Z).

Lemma kept_alter p f st : polls_kept st (upd_stream p f st).
Proof. apply kept_streams. Qed.

(** [pending.resolve], when the inner call keeps the promises. *)
Lemma kept_resolve_step self q msgs st :
  (forall p st, polls_kept st (self p st).1) -> (lp_id q < nextId st)%nat ->
  polls_kept st (pending_resolve_step self q msgs st).
Proof.
  intros Hself Hq. unfold pending_resolve_step.
  set (st1 := removePendingLongPoll q (clearTimeout (lp_id q) st)).
  destruct (self (lp_path q) st1) as [st2 r] eqn:Hs.
  destruct (Hself (lp_path q) st1) as [Hk Hn]. rewrite Hs in Hk, Hn. cbn [fst] in *. split; [|done].
  intros X Hok. apply kept_settle, Hk. by apply kept_take.
Qed.

(** Clearing the timer first makes no difference. *)
Lemma resolve_step_clear self q msgs st :
  pending_resolve_step self q msgs (clearTimeout (lp_id q) st) = pending_resolve_step self q msgs st.
Proof.
  unfold pending_resolve_step, clearTimeout. cbn. by rewrite delete_delete_eq.
Qed.

(** Resolving some entries one after the other. *)
Lemma kept_foldl (f : StreamStore -> PendingLongPoll -> StreamStore) l st :
  (forall st q, (lp_id q < nextId st)%nat -> polls_kept st (f st q)) ->
  Forall (fun q => lp_id q < nextId st)%nat l -> polls_kept st (foldl f st l).
Proof.
  intros Hf. revert st. induction l as [|q l IH]; intros st; [reflexivity|].
  intros [Hq Hl]%list.Forall_cons. cbn. specialize (Hf st q Hq). etransitivity; [exact Hf|]. apply IH.
  destruct Hf as [_ Hn]. eapply list.Forall_impl; [exact Hl|]. cbn. intros. lia.
Qed.

Lemma pending_bound X st : polls_ok X st ->
  Forall (fun q => lp_id q < nextId st)%nat (pendingLongPolls st).
Proof.
  intros Hok. apply list.Forall_forall. intros q Hq.
  apply (po_ids _ _ Hok (pendingLongPolls st)); [by left|done].
Qed.

Lemma Forall_filter {A} (P Q : A -> Prop) `{!forall x, Decision (Q x)} (l : list A) :
  Forall P l -> Forall P (filter Q l).
Proof. intros Hl. rewrite list.Forall_forall in Hl |- *. intros x [_ Hx]%list_elem_of_filter. by apply Hl. Qed.

(** The invariant may be assumed. *)
Lemma kept_assume st st' :
  (forall X, polls_ok X st -> polls_kept st st') -> (nextId st <= nextId st')%nat -> polls_kept st st'.
Proof. intros Hk Hn. split; [|done]. intros X Hok. by apply (Hk X). Qed.

Lemma nextId_resolve_step self q msgs st :
  (forall p st, nextId (self p st).1 = nextId st) ->
  nextId (pending_resolve_step self q msgs st) = nextId st.
Proof.
  intros Hs. unfold pending_resolve_step.
  pose proof (Hs (lp_path q) (removePendingLongPoll q (clearTimeout (lp_id q) st))) as H1.
  destruct (self _ _) as [st2 r]. exact H1.
Qed.

Lemma nextId_foldl {A} (f : StreamStore -> A -> StreamStore) l st :
  (forall st q, nextId (f st q) = nextId st) -> nextId (foldl f st l) = nextId st.
Proof.
  intros Hf. revert st. induction l as [|q l IH]; intros st; [done|]. cbn. by rewrite IH.
Qed.

Section deletion.
Context (self : string -> StreamStore -> StreamStore * option Stream).
Context (Hself : forall p st, polls_kept st (self p st).1).
Context (Hnext : forall p st, nextId (self p st).1 = nextId st).

Lemma nextId_cancel p st : nextId (cancelLongPollsForStream_step self p st) = nextId st.
Proof.
  unfold cancelLongPollsForStream_step. cbn. apply nextId_foldl. intros st' q.
  by rewrite nextId_resolve_step.
Qed.

Lemma kept_cancel p st : polls_kept st (cancelLongPollsForStream_step self p st).
Proof.
  apply kept_assume; [|by rewrite nextId_cancel]. intros X Hok.
  unfold cancelLongPollsForStream_step. etransitivity; [|apply kept_assign, sublist_filter].
  apply kept_foldl; [|by eapply Forall_filter, pending_bound].
  intros st' q Hq. rewrite resolve_step_clear. by apply kept_resolve_step.
Qed.

Lemma delete_cascade_kept fuel p st :
  polls_kept st (deleteWithCascade_fuel self fuel p st) /\
  nextId (deleteWithCascade_fuel self fuel p st) = nextId st.
Proof.
  revert p st. induction fuel as [|fuel IH]; intros p st; [done|]. cbn [deleteWithCascade_fuel].
  destruct (streams st !! p) as [s|]; [|done].
  set (st1 := cancelLongPollsForStream_step self p _).
  assert (Hk1 : polls_kept st st1 /\ nextId st1 = nextId st).
  { split; [|by unfold st1; rewrite nextId_cancel].
    etransitivity; [apply (kept_streams (delete p))|apply kept_cancel]. }
  destruct Hk1 as [Hk1 Hn1]. destruct (truthy _); [|done].
  destruct (streams st1 !! _) as [t|]; [|done].
  set (st2 := upd_stream _ _ st1).
  assert (Hk2 : polls_kept st st2) by (etransitivity; [exact Hk1|apply kept_alter]).
  destruct (_ && _); [|done]. destruct (IH (or_else (forkedFrom s) EmptyString) st2) as [Hk3 Hn3].
  split; [by etransitivity|]. by rewrite Hn3.
Qed.

Lemma delete_step_kept p st :
  polls_kept st (delete_step self p st).1 /\ nextId (delete_step self p st).1 = nextId st.
Proof.
  unfold delete_step. destruct (streams st !! p) as [s|]; [|done].
  destruct (softDeleted s); [done|]. destruct (_ <? _); [split; [apply kept_alter|done]|].
  apply delete_cascade_kept.
Qed.

Lemma getIfNotExpired_step_kept p st :
  polls_kept st (getIfNotExpired_step now self p st).1 /\
  nextId (getIfNotExpired_step now self p st).1 = nextId st.
Proof.
  unfold getIfNotExpired_step. destruct (streams st !! p) as [s|]; [|done].
  destruct (isExpired now s); [|done]. destruct (_ <? _); [split; [apply kept_alter|done]|].
  apply delete_step_kept.
Qed.
End deletion.

Lemma kept_getIfNotExpired p st : polls_kept st (getIfNotExpired now p st).1.
Proof. by apply getIfNotExpired_step_kept. Qed.

Lemma nextId_getIfNotExpired p st : nextId (getIfNotExpired now p st).1 = nextId st.
Proof. by apply getIfNotExpired_step_kept. Qed.

Lemma kept_pending_resolve q msgs st :
  (lp_id q < nextId st)%nat -> polls_kept st (pending_resolve now q msgs st).
Proof. apply kept_resolve_step, kept_getIfNotExpired. Qed.

Lemma kept_delete p st : polls_kept st (delete_ now p st).1.
Proof. apply delete_step_kept; [apply kept_getIfNotExpired|apply nextId_getIfNotExpired]. Qed.

Lemma kept_cancel_stream p st : polls_kept st (cancelLongPollsForStream now p st).
Proof. apply kept_cancel; [apply kept_getIfNotExpired|apply nextId_getIfNotExpired]. Qed.

Lemma nextId_pending_resolve q msgs st : nextId (pending_resolve now q msgs st) = nextId st.
Proof. apply nextId_resolve_step, nextId_getIfNotExpired. Qed.

Lemma kept_notify_closed p st : polls_kept st (notifyLongPollsClosed now p st).
Proof.
  unfold notifyLongPollsClosed. apply kept_assume.
  - intros X Hok. apply kept_foldl; [intros; by apply kept_pending_resolve|].
    by eapply Forall_filter, pending_bound.
  - rewrite nextId_foldl; [done|]. intros. apply nextId_pending_resolve.
Qed.

#[local] Hint Extern 0 (monotone polls_kept (call (getIfNotExpired _ _))) =>
  apply mono_call, kept_getIfNotExpired : mono.

Lemma keeps_same {A} (m : M StreamStore StoreError A) :
  (forall st, (m st).1 = st) -> monotone polls_kept m.
Proof. intros Hm st. rewrite Hm. reflexivity. Qed.

Lemma keeps_readForked q off cap : monotone polls_kept (readForkedMessages q off cap).
Proof. apply keeps_same. intros. apply readForkedMessages_state. Qed.
#[local] Hint Resolve keeps_readForked : mono.

Lemma keeps_readFromFork s off : monotone polls_kept (readFromFork s off).
Proof. unfold readFromFork. mono_steps. Qed.
#[local] Hint Resolve keeps_readFromFork : mono.

Lemma keeps_read p off : monotone polls_kept (read now p off).
Proof. unfold read. mono_steps. Qed.
#[local] Hint Resolve keeps_read : mono.

Lemma keeps_formatResponse p ms : monotone polls_kept (formatResponse now p ms).
Proof. unfold formatResponse. mono_steps. Qed.

(** Only [waitForMessages] makes a promise. *)
Definition same_nextId (a b : StreamStore) : Prop := nextId b = nextId a.

#[local] Instance same_nextId_preorder : PreOrder same_nextId.
Proof. split; [done|]. intros a b c. unfold same_nextId. congruence. Qed.

#[local] Hint Extern 0 (monotone same_nextId (call (getIfNotExpired _ _))) =>
  apply mono_call, nextId_getIfNotExpired : mono.

Lemma nextId_readForked q off cap : monotone same_nextId (readForkedMessages q off cap).
Proof. intros st. by rewrite readForkedMessages_state. Qed.
#[local] Hint Resolve nextId_readForked : mono.

Lemma nextId_read p off : monotone same_nextId (read now p off).
Proof. unfold read, readFromFork. mono_steps. Qed.
#[local] Hint Resolve nextId_read : mono.

Lemma nextId_notify_each p l : monotone same_nextId (notify_each now p l).
Proof.
  induction l as [|q l IH]; cbn [notify_each]; mono_steps.
  apply mono_modify. intros st. apply nextId_pending_resolve.
Qed.

Lemma notify_each_kept p l st :
  Forall (fun q => lp_id q < nextId st)%nat l -> polls_kept st (notify_each now p l st).1.
Proof.
  revert st. induction l as [|q l IH]; intros st; [done|]. intros [Hq Hl]%list.Forall_cons.
  cbn [notify_each]. apply (mono_bind_strong _); [apply keeps_read|].
  intros st1 ms Hr. pose proof (nextId_read p (Some (lp_offset q)) st) as Hn.
  rewrite Hr in Hn. unfold same_nextId in Hn. cbn [fst] in Hn. rewrite <-Hn in Hl, Hq.
  apply (mono_bind_strong _).
  - destruct (0 <? length ms)%nat; [|reflexivity]. by apply kept_pending_resolve.
  - intros st2 [] Hr2. apply IH. destruct (0 <? length ms)%nat; injection Hr2 as <-; [|done].
    by rewrite nextId_pending_resolve.
Qed.

Lemma keeps_notifyLongPolls p : monotone polls_kept (notifyLongPolls now p).
Proof.
  intros st. unfold notifyLongPolls. apply kept_assume.
  - intros X Hok. apply notify_each_kept. by eapply Forall_filter, pending_bound.
  - by rewrite (nextId_notify_each p _ st).
Qed.
#[local] Hint Resolve keeps_notifyLongPolls : mono.

Lemma keeps_notify_closed p : monotone polls_kept (modify (E := StoreError) (notifyLongPollsClosed now p)).
Proof. apply mono_modify. intros. apply kept_notify_closed. Qed.
#[local] Hint Resolve keeps_notify_closed : mono.

#[local] Hint Extern 0 (monotone polls_kept (modify (upd_stream _ _))) =>
  apply mono_modify; intros; apply kept_alter : mono.
#[local] Hint Extern 0 (monotone polls_kept (modify (upd_streams _))) =>
  apply mono_modify; intros; apply kept_streams : mono.

Lemma keeps_append p data o : monotone polls_kept (append now p data o).
Proof. unfold append. mono_steps. Qed.

Lemma keeps_closeStream p : monotone polls_kept (closeStream now p).
Proof. unfold closeStream. mono_steps. Qed.

Lemma keeps_closeStreamWithProducer p id e seq :
  monotone polls_kept (closeStreamWithProducer now p id e seq).
Proof. unfold closeStreamWithProducer. mono_steps. Qed.

Lemma keeps_create p o : monotone polls_kept (create now p o).
Proof.
  assert (Hg : monotone (E := StoreError) polls_kept get_state) by (intros st; reflexivity).
  assert (Hsub : forall s fo n j, monotone polls_kept (resolveForkSubOffset s fo n j)).
  { intros. apply keeps_same. intros. apply unchanged_resolveForkSubOffset. }
  assert (Hnew : monotone polls_kept (create_new now p o)).
  { unfold create_new, resolve_fork, append_initial. mono_steps. }
  unfold create. mono_steps. apply mono_modify. intros. apply kept_cancel_stream.
Qed.

Lemma keeps_waitForMessages p off : monotone polls_kept (waitForMessages now p off).
Proof. unfold waitForMessages. mono_steps. apply mono_call. intros st. apply kept_register. Qed.

Lemma kept_poll_timeout id st : polls_kept st (poll_timeout now id st).
Proof.
  unfold poll_timeout. destruct (timers st !! id) as [q|] eqn:Hq; [|done].
  set (st1 := removePendingLongPoll q (clearTimeout id st)).
  destruct (getIfNotExpired now (lp_path q) st1) as [st2 r] eqn:Hg.
  destruct (kept_getIfNotExpired (lp_path q) st1) as [Hk Hn]. rewrite Hg in Hk, Hn.
  cbn [fst] in *. split; [|done]. intros X Hok. destruct (po_timer _ _ Hok id q Hq) as [<- Hid].
  apply kept_settle, Hk. by apply kept_take.
Qed.

Lemma array_ids X n st : polls_ok X st -> Forall (fun q => lp_id q < nextId st)%nat (array n st).
Proof.
  intros Hok. apply list.Forall_forall. intros q Hq. unfold array in Hq.
  destruct (_ =? _)%nat; [apply (po_ids _ _ Hok (pendingLongPolls st)); [by left|done]|].
  destruct (reverse (abandoned st) !! n) as [l|] eqn:Hl; [|by apply not_elem_of_nil in Hq].
  apply (po_ids _ _ Hok l); [|done]. right. apply list_elem_of_lookup_2 in Hl.
  by apply elem_of_reverse.
Qed.

Lemma cancel_from_kept fuel n i st :
  polls_kept st (cancel_from now fuel n i st) /\ nextId (cancel_from now fuel n i st) = nextId st.
Proof.
  revert i st. induction fuel as [|fuel IH]; intros i st; [done|]. cbn [cancel_from].
  destruct (array n st !! i) as [q|] eqn:Hq; [|done].
  unfold pending_resolve. rewrite resolve_step_clear. fold (pending_resolve now q [] st).
  destruct (IH (S i) (pending_resolve now q [] st)) as [Hk Hn].
  rewrite nextId_pending_resolve in Hn. split; [|done]. apply kept_assume; [|by rewrite Hn].
  intros X Hok. etransitivity; [|exact Hk]. apply kept_pending_resolve.
  pose proof (array_ids X n st Hok) as Hall. rewrite list.Forall_forall in Hall.
  apply Hall. by eapply list_elem_of_lookup_2.
Qed.

Lemma kept_cancelAllWaits st : polls_kept st (cancelAllWaits now st).
Proof.
  unfold cancelAllWaits. etransitivity; [apply cancel_from_kept|]. apply kept_assign.
  apply sublist_nil_l.
Qed.

Lemma kept_exec x st : polls_kept st (exec now x st).
Proof.
  destruct x; cbn [exec].
  - apply keeps_create.
  - rewrite get_getIfNotExpired. apply kept_getIfNotExpired.
  - apply kept_alter.
  - apply kept_delete.
  - apply keeps_append.
  - apply keeps_closeStream.
  - apply keeps_closeStreamWithProducer.
  - apply keeps_read.
  - apply keeps_formatResponse.
  - apply keeps_waitForMessages.
  - apply kept_poll_timeout.
  - apply kept_cancelAllWaits.
Qed.

Lemma timeout_settles id q st :
  timers st !! id = Some q -> is_Some (results (poll_timeout now id st) !! id).
Proof.
  intros Hq. unfold poll_timeout. rewrite Hq. destruct (getIfNotExpired _ _ _) as [st2 r].
  cbn. destruct (results st2 !! id) eqn:E; [by rewrite E; eexists|].
  rewrite lookup_insert_eq. by eexists.
Qed.
End operations.

Lemma polls_ok_empty : polls_ok [] empty_store.
Proof.
  split; cbn; try done; try (intros ? ? E; by rewrite lookup_empty in E).
  - intros id Hid. lia.
  - constructor.
  - by intros q Hq%not_elem_of_nil.
  - intros l q ->%list_elem_of_singleton Hq. by apply not_elem_of_nil in Hq.
  - by intros id Hid%not_elem_of_nil.
Qed.

(** C25: No long-poll hangs: in every state the store reaches, by any operations
    whatever (shutdown and its skipping of entries included), every promise
    that [waitForMessages] has made is resolved, or still has a timer, and that
    timer resolves it; and the entries waiting for an append are distinct and
    unresolved. *)
Theorem no_promise_lost `{!JsonLib} `{!DateLib} (h : list (Z * op)) :
  let st := run h empty_store in
  (forall id, (id < nextId st)%nat ->
     is_Some (results st !! id) \/
     is_Some (timers st !! id) /\ forall now, is_Some (results (poll_timeout now id st) !! id)) /\
  NoDup (lp_id <$> pendingLongPolls st) /\
  forall q, q ∈ pendingLongPolls st -> results st !! lp_id q = None.
Proof.
  assert (Hrun : forall st, polls_kept st (run h st)).
  { induction h as [|[now x] h IH]; intros st; [reflexivity|]. cbn [run].
    etransitivity; [apply (kept_exec now x)|apply IH]. }
  intros st. pose proof (proj1 (Hrun empty_store) [] polls_ok_empty) as Hok. split_and!.
  - intros id Hid. destruct (po_promise _ _ Hok id Hid) as [?%not_elem_of_nil|[?|[q Hq]]];
      [done|by left|right]. split; [by eexists|]. intros now. by eapply timeout_settles.
  - apply (po_nodup _ _ Hok).
  - intros q Hq. by apply (po_pending _ _ Hok).
Qed.

(** ** Who is woken by an append *)

Section wake.
Context `{!JsonLib} `{!DateLib}.
Context (now : Z).

(** What [notifyLongPolls] does to one entry. *)
Definition wake (p : string) (ss : gmap string Stream) (st : StreamStore) (q : PendingLongPoll)
    : StreamStore :=
  match window (Some (lp_offset q)) (log ss p) with
  | [] => st
  | ms => settle (lp_id q) (mkLongPollResult ms false None)
            (removePendingLongPoll q (clearTimeout (lp_id q) st))
  end.

Lemma wake_streams p ss st q : streams (wake p ss st q) = streams st.
Proof. unfold wake. by destruct (window _ _). Qed.

Lemma notify_each_wakes p s l st :
  store_ok (streams st) -> live now p s st -> Forall (fun q => lp_path q = p) l ->
  notify_each now p l st = (foldl (wake p (streams st)) st l, Ok tt).
Proof.
  intros Hok Hl Hp. set (ss := streams st). assert (Hss : streams st = ss) by done. clearbody ss.
  revert st Hok Hl Hss. induction Hp as [|q l Hq _ IH]; intros st Hok Hl Hss; [done|].
  cbn [notify_each foldl]. unfold bind at 1. rewrite (read_window_any now p s) by done. rewrite Hss.
  unfold wake at 2. destruct (window (Some (lp_offset q)) (log ss p)) as [|m ms] eqn:Hw.
  - cbn [length Nat.ltb Nat.leb]. unfold bind, ret. by apply IH.
  - cbn [length Nat.ltb Nat.leb]. unfold bind, modify.
    rewrite (pending_resolve_live now q s) by (by rewrite Hq). cbn [length Nat.eqb].
    rewrite andb_false_r. by apply IH.
Qed.

(** The promise of an entry, and its being in the array, after others were woken. *)
Lemma foldl_wake_other p ss l st q :
  lp_id q ∉ (lp_id <$> l) -> q ∈ pendingLongPolls st -> NoDup (lp_id <$> pendingLongPolls st) ->
  q ∈ pendingLongPolls (foldl (wake p ss) st l) /\
  results (foldl (wake p ss) st l) !! lp_id q = results st !! lp_id q /\
  NoDup (lp_id <$> pendingLongPolls (foldl (wake p ss) st l)).
Proof.
  revert st. induction l as [|x l IH]; intros st Hx Hq Hn; [done|].
  rewrite fmap_cons in Hx. apply not_elem_of_cons in Hx as [Hx Hl]. cbn [foldl].
  assert (Hw : q ∈ pendingLongPolls (wake p ss st x) /\
    results (wake p ss st x) !! lp_id q = results st !! lp_id q /\
    NoDup (lp_id <$> pendingLongPolls (wake p ss st x))).
  { unfold wake. destruct (window _ _); [done|]. cbn. split_and!.
    - clear -Hq Hx. induction (pendingLongPolls st) as [|y k IHk]; [done|]. cbn.
      destruct (Nat.eqb_spec (lp_id y) (lp_id x)) as [He|_].
      + apply elem_of_cons in Hq as [->|Hq]; [congruence|done].
      + apply elem_of_cons in Hq as [->|Hq]; [by left|right; by apply IHk].
    - destruct (results st !! lp_id x) eqn:E; [done|]. by rewrite lookup_insert_ne.
    - by apply sublist_ids with (l := pendingLongPolls st); [apply remove_first_subseteq|]. }
  destruct Hw as (Hq' & Hr & Hn'). destruct (IH _ Hl Hq' Hn') as (? & ? & ?).
  split_and!; [done|congruence|done].
Qed.

Lemma foldl_wake_resolved p ss l st id r :
  results st !! id = Some r -> results (foldl (wake p ss) st l) !! id = Some r.
Proof.
  revert st. induction l as [|x l IH]; intros st Hr; [done|]. cbn [foldl]. apply IH.
  unfold wake. destruct (window _ _); [done|]. cbn.
  destruct (results st !! lp_id x) eqn:E; [done|]. rewrite lookup_insert_ne; [done|intros <-; congruence].
Qed.

Lemma foldl_wake_one p ss l st q ms :
  q ∈ l -> NoDup (lp_id <$> l) -> results st !! lp_id q = None ->
  window (Some (lp_offset q)) (log ss p) = ms -> ms <> [] ->
  results (foldl (wake p ss) st l) !! lp_id q = Some (mkLongPollResult ms false None).
Proof.
  revert st. induction l as [|x l IH]; intros st Hq; [by apply not_elem_of_nil in Hq|].
  rewrite fmap_cons. intros [Hx Hl]%list.NoDup_cons Hr Hw Hne. cbn [foldl].
  apply elem_of_cons in Hq as [<-|Hq].
  - apply foldl_wake_resolved. unfold wake. rewrite Hw. destruct ms as [|m ms]; [done|].
    cbn. rewrite Hr. by rewrite lookup_insert_eq.
  - apply IH; try done. unfold wake. destruct (window (Some (lp_offset x)) _); [done|]. cbn.
    assert (lp_id x <> lp_id q) by (intros He; apply Hx; rewrite He; by apply list_elem_of_fmap_2).
    destruct (results st !! lp_id x); [done|]. by rewrite lookup_insert_ne.
Qed.

Lemma notify_closed_results p s st id r :
  live now p s st -> results st !! id = Some r ->
  results (notifyLongPollsClosed now p st) !! id = Some r.
Proof.
  intros Hl Hr. unfold notifyLongPollsClosed.
  assert (Hall : Forall (fun q => lp_path q = p) (filter (fun q => lp_path q = p) (pendingLongPolls st)))
    by (apply list.Forall_forall; by intros x [? _]%list_elem_of_filter).
  generalize dependent (filter (fun q => lp_path q = p) (pendingLongPolls st)). intros l Hall.
  revert st Hl Hr. induction Hall as [|x l Hx _ IH]; intros st Hl Hr; [done|]. cbn [foldl].
  rewrite (pending_resolve_live now x s) by (by rewrite Hx). apply IH; [done|]. cbn.
  destruct (results st !! lp_id x) eqn:E; [done|]. rewrite lookup_insert_ne; [done|intros <-; congruence].
Qed.

(** C26: An append wakes the long-polls it concerns, with the right messages: a
    long-poll waiting on the stream for messages after an offset below the new
    tail is resolved with exactly the messages of the new log after its offset,
    the appended one at the end, even when the same request also closes the
    stream (the empty close notice does not overtake the data); an append that
    closes nothing leaves the long-polls on other streams waiting. *)
Theorem append_wakes (p : string) (data : bytes) (o : AppendOptions) (st st' : StreamStore)
    (r : AppendReturn) (m : StreamMessage) (q : PendingLongPoll) :
  store_ok (streams st) -> op_safe now (OAppend p data o) st -> polls_ok [] st ->
  append now p data o st = (st', Ok r) -> returned_message r = Some m ->
  q ∈ pendingLongPolls st ->
  (lp_path q = p -> wf_offset (lp_offset q) -> String.ltb (lp_offset q) (msg_offset m) = true ->
     exists ms, window (Some (lp_offset q)) (log (streams st') p) = ms ++ [m] /\
       results st' !! lp_id q = Some (mkLongPollResult (ms ++ [m]) false None)) /\
  (lp_path q <> p -> or_else (ao_close o) false = false ->
     q ∈ pendingLongPolls st' /\ results st' !! lp_id q = None).
Proof.
  intros Hok Hsafe Hpolls Happ Hm Hq.
  destruct (append_log now p data o st st' r m Hok Hsafe Happ Hm) as (_ & Hlog & _).
  assert (Hok' : store_ok (streams st')).
  { pose proof (exec_ok now (OAppend p data o) st Hok Hsafe) as Hx. cbn [exec] in Hx. by rewrite Happ in Hx. }
  destruct (append_stages now p data o st st' r m Happ Hm)
    as (s & s1 & v & b & st4 & _ & _ & _ & _ & _ & _ & _ & Hl3 & Hn & Hst').
  cbn zeta in *. set (s3 := commit_append _ _ _) in *.
  set (st3 := upd_stream p (fun _ => s3) (upd_stream p (fun _ => s1) st)) in *.
  pose proof (notifyLongPolls_live now _ _ _ _ _ Hl3 Hn) as Hst4.
  assert (Hl4 : live now p s3 st4) by (split; [rewrite Hst4|]; apply Hl3).
  assert (Hss : streams st' = streams st4).
  { rewrite Hst'. destruct (or_else _ _); [by apply (notify_closed_live now p s3)|done]. }
  rewrite Hss in *.
  set (l := filter (fun q => lp_path q = p) (pendingLongPolls st)).
  assert (Hl : NoDup (lp_id <$> l)).
  { apply (sublist_ids (pendingLongPolls st)); [apply sublist_filter|apply (po_nodup _ _ Hpolls)]. }
  assert (Hst4' : st4 = foldl (wake p (streams st4)) st3 l).
  { unfold notifyLongPolls in Hn. rewrite (notify_each_wakes p s3), <-Hst4 in Hn.
    - injection Hn as Hn. symmetry. exact Hn.
    - by rewrite <-Hst4.
    - done.
    - apply list.Forall_forall. by intros x [? _]%list_elem_of_filter. }
  split.
  - intros Hqp Hwf Hlt. exists (window (Some (lp_offset q)) (log (streams st) p)).
    assert (Hw : window (Some (lp_offset q)) (log (streams st4) p) =
                 window (Some (lp_offset q)) (log (streams st) p) ++ [m]).
    { rewrite Hlog, !window_wf, list.filter_app by done. f_equal. by rewrite filter_cons_True. }
    split; [done|].
    assert (Hres : results st4 !! lp_id q =
      Some (mkLongPollResult (window (Some (lp_offset q)) (log (streams st) p) ++ [m]) false None)).
    { rewrite Hst4'. apply foldl_wake_one; [by apply list_elem_of_filter|done| |done|].
      - by apply (po_pending _ _ Hpolls).
      - by intros [_ ?]%app_eq_nil. }
    rewrite Hst'. destruct (or_else _ _); [|done]. by apply (notify_closed_results p s3).
  - intros Hqp Hcl. rewrite Hst', Hcl, Hst4'.
    assert (Hid : lp_id q ∉ (lp_id <$> l)).
    { intros (x & Hx & [Hxp Hxl]%list_elem_of_filter)%list_elem_of_fmap. apply Hqp. rewrite <-Hxp.
      assert (q = x) as ->; [|done]. clear -Hq Hxl Hx Hpolls. pose proof (po_nodup _ _ Hpolls) as Hnd.
      induction (pendingLongPolls st) as [|y k IH]; [by apply not_elem_of_nil in Hq|].
      rewrite fmap_cons in Hnd. apply list.NoDup_cons in Hnd as [Hy Hk].
      apply elem_of_cons in Hq as [->|Hq]; apply elem_of_cons in Hxl as [->|Hxl]; try done.
      - exfalso. apply Hy. rewrite Hx. by apply list_elem_of_fmap_2.
      - exfalso. apply Hy. rewrite <-Hx. by apply list_elem_of_fmap_2.
      - by apply IH. }
    destruct (foldl_wake_other p (streams st4) l st3 q Hid Hq (po_nodup _ _ Hpolls)) as (H1' & H2' & _).
    split; [exact H1'|]. rewrite H2'. by apply (po_pending _ _ Hpolls).
Qed.
End wake.

(** ** Witnesses *)

Section witnesses.
#[local] Existing Instance integer_json.
#[local] Existing Instance decimal_date.

(** Two readers wait at the tail of ["/a"] and one on ["/b"]. *)
Definition polling_history : list (Z * op) :=
  [(0, OCreate "/a" text_stream); (0, OCreate "/b" text_stream);
   (1, OAppend "/a" (text "hello") plain_append);
   (2, OWaitForMessages "/a" (mk_offset 10)); (2, OWaitForMessages "/a" (mk_offset 10));
   (2, OWaitForMessages "/b" (mk_offset 0))].

Definition polling : StreamStore := run polling_history empty_store.

Lemma polling_safe : run_safeb polling_history empty_store = true.
Proof. vm_compute. reflexivity. Qed.

Lemma polling_ok : store_ok (streams polling) /\ polls_ok [] polling.
Proof.
  split.
  - exact (proj1 (run_ok polling_history empty_store store_ok_empty soft_ok_empty
                    (run_safeb_sound _ _ polling_safe))).
  - assert (Hrun : forall h st, polls_kept st (run h st)).
    { induction h as [|[now x] h IH]; intros st; [reflexivity|]. cbn [run].
      etransitivity; [apply (kept_exec now x)|apply IH]. }
    exact (proj1 (Hrun polling_history empty_store) [] polls_ok_empty).
Qed.

Definition goodbye : StreamMessage := mkStreamMessage (text "bye") (mk_offset 18) 3.

(** An append that also closes the stream. *)
Lemma append_wakes_witness :
  let r := append 3 "/a" (text "bye") closing_append polling in
  results r.1 !! 0%nat = Some (mkLongPollResult [goodbye] false None).
Proof.
  intros r.
  destruct (append_wakes 3 "/a" (text "bye") closing_append polling r.1
    (WithResult (mkAppendResult (Some goodbye) None (Some true))) goodbye
    (mkPendingLongPoll 0 "/a" (mk_offset 10))) as [Hw _].
  - apply polling_ok.
  - apply op_safeb_sound. vm_compute. reflexivity.
  - apply polling_ok.
  - vm_compute. reflexivity.
  - reflexivity.
  - vm_compute. left.
  - destruct Hw as (ms & Hlog & Hres).
    + reflexivity.
    + exists 10. split; [done|reflexivity].
    + vm_compute. reflexivity.
    + assert (ms = []) as ->; [|exact Hres].
      vm_compute in Hlog. destruct ms as [|x [|y ms]]; [reflexivity|discriminate Hlog..].
Defined.

(** The loop of [cancelAllWaits] skips every second entry, because resolving an
    entry removes it from the array the loop runs over: the second of these
    promises is not resolved, and its timer goes on running. *)
Example cancelAllWaits_skips :
  let st := cancelAllWaits 3 polling in
  map (fun id => results st !! id) [0; 1; 2]%nat =
    [Some (mkLongPollResult [] false None); None; Some (mkLongPollResult [] false None)] /\
  timers st !! 1%nat = Some (mkPendingLongPoll 1 "/a" (mk_offset 10)) /\
  pendingLongPolls st = [].
Proof. vm_compute. split_and!; reflexivity. Qed.
End witnesses.
