(* ===== verification/FileFrames.v ===== *)
(** * The files of the file-backed store: frames

    A stream's messages are in one append-only file, each as a frame: four
    bytes of length (big-endian), the data, a newline.  This file models the
    two functions of [packages/server/src/file-store.ts] that parse one,
    [scanFileForTrueOffset] and [readMessagesFromSegmentFile], and relates them
    to [frames], what the appends write. *)

From S2P Require Import Prelude Offsets Producer Text Types StreamStore StoreSteps.
Local Open Scope js_scope.

(** ** Numbers that may be [NaN], which is [None] *)

Definition num_add (a b : option Z) : option Z :=
  match a, b with Some a, Some b => Some (dbl (a + b)) | _, _ => None end.

(** [a > b]; a comparison with [NaN] is false. *)
Definition num_gtb (a b : option Z) : bool :=
  match a, b with Some a, Some b => b <? a | _, _ => false end.

(** [Math.min] *)
Definition num_min (a b : option Z) : option Z :=
  match a, b with Some a, Some b => Some (Z.min a b) | _, _ => None end.

(** [Number(offset.split("_")[1] ?? 0)] *)
Definition offset_byte (offset : string) : option Z :=
  match split_on "_"%char offset !! 1%nat with
  | Some b => js_Number b
  | None => Some 0
  end.

(** ** Writing a frame *)

(** [buf.writeUInt32BE(n, 0)] for [0 <= n < 2 ** 32] *)
Definition writeUInt32BE (n : Z) : bytes :=
  [char_of_code (Z.land (Z.shiftr n 24) 255); char_of_code (Z.land (Z.shiftr n 16) 255);
   char_of_code (Z.land (Z.shiftr n 8) 255); char_of_code (Z.land n 255)].

(** [buf.readUInt32BE(0)] *)
Definition readUInt32BE (buf : bytes) : Z :=
  match buf with
  | a :: b :: c :: d :: _ => code a * 2 ^ 24 + code b * 2 ^ 16 + code c * 2 ^ 8 + code d
  | _ => 0
  end.

(** [Buffer.concat([lengthBuf, data, "\n"])] *)
Definition frame (data : bytes) : bytes :=
  writeUInt32BE (Z.of_nat (length data)) ++ data ++ [LF].

#[global] Arguments frame : simpl never.

(** ** Parsing a file *)

(** The loop of [scanFileForTrueOffset]: [rest] is the file from [filePos] on. *)
Fixpoint scan_loop (fuel : nat) (rest : bytes) (filePos : Z) : Z :=
  match fuel with
  | O => filePos
  | S fuel =>
      if (length rest =? 0)%nat then filePos
      else if (length rest <? 4)%nat then filePos
      else
        let size := 4 + readUInt32BE rest + 1 in
        if Z.of_nat (length rest) <? size then filePos
        else scan_loop fuel (drop (Z.to_nat size) rest) (filePos + size)
  end.

(** [scanFileForTrueOffset] *)
Definition scanFileForTrueOffset (fileContent : bytes) : string :=
  mk_offset (scan_loop (length fileContent) fileContent 0).

(** The loop of [readMessagesFromSegmentFile]. *)
Section read_loop.
Context (startByte baseByteOffset : option Z) (capByte : option (option Z)).

Fixpoint read_loop (fuel : nat) (rest : bytes) (physicalDataOffset : Z) : list StreamMessage :=
  match fuel with
  | O => []
  | S fuel =>
      if (length rest =? 0)%nat then []
      else if (length rest <? 4)%nat then []
      else
        let messageLength := readUInt32BE rest in
        let rest := drop 4 rest in
        if Z.of_nat (length rest) <? messageLength then []
        else
          let messageData := take (Z.to_nat messageLength) rest in
          let rest := drop (Z.to_nat messageLength + 1) rest in
          let physicalDataOffset := physicalDataOffset + (messageLength + 5) in
          let logicalOffset := num_add baseByteOffset (Some physicalDataOffset) in
          if match capByte with Some cap => num_gtb logicalOffset cap | None => false end
          then []
          else
            (if num_gtb logicalOffset startByte
             then [mkStreamMessage messageData (format_offset (Some 0) logicalOffset) 0]
             else []) ++ read_loop fuel rest physicalDataOffset
  end.
End read_loop.

(** [readMessagesFromSegmentFile]; the file is [None] when it does not exist.
    [capByte] is [None] when the argument is left out. *)
Definition readMessagesFromSegmentFile (segment : option bytes)
    (startByte baseByteOffset : option Z) (capByte : option (option Z)) : list StreamMessage :=
  match segment with
  | None => []
  | Some fileContent =>
      read_loop startByte baseByteOffset capByte (length fileContent) fileContent 0
  end.

(** ** What the appends write *)

Definition frames (ds : list bytes) : bytes := concat (map frame ds).

(** Every length fits its four bytes. *)
Definition fits (ds : list bytes) : Prop :=
  List.Forall (fun d => Z.of_nat (length d) < 2 ^ 32) ds.

(** The messages of a file whose first byte is at position [b]. *)
Fixpoint file_messages (b : Z) (ds : list bytes) : list StreamMessage :=
  match ds with
  | [] => []
  | d :: ds =>
      let e := b + Z.of_nat (length (frame d)) in
      mkStreamMessage d (mk_offset e) 0 :: file_messages e ds
  end.

(** ** Lemmas *)

Lemma length_frame d : length (frame d) = (length d + 5)%nat.
Proof. unfold frame. rewrite !length_app. cbn. lia. Qed.

Lemma frames_cons d ds : frames (d :: ds) = frame d ++ frames ds.
Proof. done. Qed.

Lemma frames_app ds1 ds2 : frames (ds1 ++ ds2) = frames ds1 ++ frames ds2.
Proof. unfold frames. by rewrite map_app, concat_app. Qed.

Lemma frames_snoc ds d : frames (ds ++ [d]) = frames ds ++ frame d.
Proof. rewrite frames_app. unfold frames at 2. cbn. by rewrite app_nil_r. Qed.

Lemma readUInt32BE_write n l :
  0 <= n < 2 ^ 32 -> readUInt32BE (writeUInt32BE n ++ l) = n.
Proof.
  intros Hn. cbn [writeUInt32BE readUInt32BE app].
  rewrite !(Z.land_ones _ 8) by lia. rewrite !Z.shiftr_div_pow2 by lia.
  rewrite !code_char_of_code by (apply Z.mod_pos_bound; lia).
  change (2 ^ 24) with 16777216. change (2 ^ 16) with 65536. change (2 ^ 8) with 256.
  change (2 ^ 32) with 4294967296 in Hn.
  Z.to_euclidean_division_equations. lia.
Qed.

Lemma readUInt32BE_bound l : 0 <= readUInt32BE l < 2 ^ 32.
Proof.
  destruct l as [|a [|b [|c [|d l]]]]; cbn [readUInt32BE]; try lia.
  pose proof (code_bound a). pose proof (code_bound b). pose proof (code_bound c).
  pose proof (code_bound d). lia.
Qed.

Lemma frame_read d rest :
  Z.of_nat (length d) < 2 ^ 32 -> readUInt32BE (frame d ++ rest) = Z.of_nat (length d).
Proof. intros Hd. unfold frame. rewrite <-app_assoc. apply readUInt32BE_write. lia. Qed.

Lemma frame_data d rest :
  take (length d) (drop 4 (frame d ++ rest)) = d /\
  drop (length d + 1) (drop 4 (frame d ++ rest)) = rest.
Proof.
  unfold frame. rewrite <-!app_assoc. cbn [writeUInt32BE app drop]. rewrite drop_0. split.
  - apply take_app_length.
  - rewrite drop_app_ge by lia. by replace (length d + 1 - length d)%nat with 1%nat by lia.
Qed.

(** A file that ends inside a frame: what a crash leaves of an append. *)
Definition torn (tail : bytes) : Prop :=
  exists d n, Z.of_nat (length d) < 2 ^ 32 /\ (n < length (frame d))%nat /\ tail = take n (frame d).

Lemma torn_nil : torn [].
Proof. exists [], 0%nat. split_and!; [cbn; lia|rewrite length_frame; cbn; lia|done]. Qed.

Lemma fits_app ds1 ds2 : fits (ds1 ++ ds2) <-> fits ds1 /\ fits ds2.
Proof. apply List.Forall_app. Qed.

Lemma scan_torn fuel tail pos : torn tail -> scan_loop fuel tail pos = pos.
Proof.
  intros (d & n & Hd & Hn & ->). destruct fuel as [|fuel]; [done|]. cbn [scan_loop].
  rewrite length_frame in Hn. rewrite length_take, length_frame.
  rewrite Nat.min_l by lia.
  destruct (Nat.eqb_spec n 0); [done|]. destruct (Nat.ltb_spec n 4); [done|].
  assert (readUInt32BE (take n (frame d)) = Z.of_nat (length d)) as ->.
  { unfold frame. rewrite take_app_ge by (cbn; lia). apply readUInt32BE_write. lia. }
  destruct (Z.ltb_spec (Z.of_nat n) (4 + Z.of_nat (length d) + 1)); [done|lia].
Qed.

(** The scan finds the end of the last whole frame. *)
Lemma scan_frames ds tail fuel pos :
  fits ds -> torn tail -> (length ds < fuel)%nat ->
  scan_loop fuel (frames ds ++ tail) pos = pos + Z.of_nat (length (frames ds)).
Proof.
  intros Hds Htail. revert fuel pos. induction Hds as [|d ds Hd Hds IH]; intros fuel pos Hf.
  - rewrite scan_torn by done. cbn. lia.
  - destruct fuel as [|fuel]; [cbn in Hf; lia|].
    rewrite frames_cons, <-app_assoc. cbn [scan_loop].
    rewrite frame_read by done.
    rewrite !length_app, length_frame.
    destruct (Nat.eqb_spec (length d + 5 + (length (frames ds) + length tail)) 0); [lia|].
    destruct (Nat.ltb_spec (length d + 5 + (length (frames ds) + length tail)) 4); [lia|].
    destruct (Z.ltb_spec (Z.of_nat (length d + 5 + (length (frames ds) + length tail)))
      (4 + Z.of_nat (length d) + 1)); [lia|].
    replace (drop (Z.to_nat (4 + Z.of_nat (length d) + 1)) (frame d ++ frames ds ++ tail))
      with (frames ds ++ tail).
    + rewrite IH by (cbn in Hf; lia). lia.
    + rewrite drop_app_ge by (rewrite length_frame; lia). rewrite length_frame.
      by replace (Z.to_nat (4 + Z.of_nat (length d) + 1) - (length d + 5))%nat with 0%nat by lia.
Qed.

Lemma frames_length_ge ds : (length ds <= length (frames ds))%nat.
Proof.
  induction ds as [|d ds IH]; [done|]. rewrite frames_cons, length_app, length_frame. cbn. lia.
Qed.

Lemma scanFile_frames ds tail :
  fits ds -> torn tail ->
  scanFileForTrueOffset (frames ds ++ tail) = mk_offset (Z.of_nat (length (frames ds))).
Proof.
  intros Hds Htail. unfold scanFileForTrueOffset. f_equal.
  destruct (decide (frames ds ++ tail = [])) as [E|Hne].
  - rewrite E. apply app_nil in E as [-> _]. done.
  - destruct (decide (length ds < length (frames ds ++ tail))%nat) as [Hl|Hl].
    + rewrite scan_frames by done. lia.
    + exfalso. pose proof (frames_length_ge ds) as Hge. rewrite length_app in Hl.
      destruct ds as [|d ds].
      * cbn in *. destruct tail; [done|]. cbn in Hl. lia.
      * rewrite frames_cons, length_app, length_frame in *. pose proof (frames_length_ge ds).
        cbn in *. lia.
Qed.

(** *** Reading *)

Lemma length_file_messages b ds : length (file_messages b ds) = length ds.
Proof. revert b. induction ds as [|d ds IH]; intros b; cbn; [done|]. by rewrite IH. Qed.

Lemma file_messages_data b ds : msg_data <$> file_messages b ds = ds.
Proof. revert b. induction ds as [|d ds IH]; intros b; cbn; [done|]. by f_equal. Qed.

Lemma file_messages_app b ds1 ds2 :
  file_messages b (ds1 ++ ds2) =
  file_messages b ds1 ++ file_messages (b + Z.of_nat (length (frames ds1))) ds2.
Proof.
  revert b. induction ds1 as [|d ds1 IH]; intros b; cbn [file_messages app].
  - by rewrite Z.add_0_r.
  - f_equal. rewrite IH, frames_cons, length_app. f_equal. f_equal. lia.
Qed.

(** The messages of a file are a chain from its first position to its end. *)
Lemma file_messages_chain b ds :
  0 <= b -> b + Z.of_nat (length (frames ds)) <= MAX_SAFE_INTEGER ->
  chain (mk_offset b) (file_messages b ds) (mk_offset (b + Z.of_nat (length (frames ds)))).
Proof.
  revert b. induction ds as [|d ds IH]; intros b Hb Hmax; cbn [file_messages chain].
  - by rewrite Z.add_0_r.
  - cbn [msg_data msg_offset]. rewrite frames_cons, length_app, length_frame in *.
    unfold FRAME_OVERHEAD, MAX_SAFE_INTEGER in *.
    rewrite position_mk_offset by (unfold MAX_SAFE_INTEGER; lia).
    split_and!; [lia|..].
    + rewrite next_offset_mk by (unfold FRAME_OVERHEAD, MAX_SAFE_INTEGER; lia).
      f_equal. unfold FRAME_OVERHEAD. lia.
    + replace (b + Z.of_nat (length d + 5 + length (frames ds)))
        with (b + Z.of_nat (length d + 5) + Z.of_nat (length (frames ds))) by lia.
      apply IH; lia.
Qed.

(** The position a message ends at. *)
Definition ends (m : StreamMessage) : Z := position (msg_offset m).

Lemma ends_mk d e t : 0 <= e <= MAX_SAFE_INTEGER -> ends (mkStreamMessage d (mk_offset e) t) = e.
Proof. apply position_mk_offset. Qed.

Lemma file_messages_ends b ds m :
  0 <= b -> b + Z.of_nat (length (frames ds)) <= MAX_SAFE_INTEGER ->
  m ∈ file_messages b ds -> b < ends m <= b + Z.of_nat (length (frames ds)).
Proof.
  revert b. induction ds as [|d ds IH]; intros b Hb Hmax; cbn [file_messages].
  - by intros ?%not_elem_of_nil.
  - rewrite frames_cons, length_app, length_frame in *.
    intros [->|Hm]%elem_of_cons.
    + unfold ends. cbn [msg_offset]. rewrite position_mk_offset; lia.
    + apply IH in Hm; lia.
Qed.

Lemma num_add_safe a b :
  0 <= a + b <= MAX_SAFE_INTEGER -> num_add (Some a) (Some b) = Some (a + b).
Proof. intros H. unfold MAX_SAFE_INTEGER in H. cbn. by rewrite dbl_small by lia. Qed.

Section read.
Context (s b : Z).

(** One turn of the loop, on a whole frame. *)
Lemma read_loop_frame cap fuel d rest p :
  Z.of_nat (length d) < 2 ^ 32 -> 0 <= b + p ->
  b + p + Z.of_nat (length (frame d)) <= MAX_SAFE_INTEGER ->
  let e := b + p + Z.of_nat (length (frame d)) in
  read_loop (Some s) (Some b) cap (S fuel) (frame d ++ rest) p =
  if match cap with Some cap => num_gtb (Some e) cap | None => false end then []
  else (if s <? e then [mkStreamMessage d (mk_offset e) 0] else []) ++
       read_loop (Some s) (Some b) cap fuel rest (p + Z.of_nat (length (frame d))).
Proof.
  intros Hd Hb Hmax e. cbn [read_loop]. rewrite frame_read by done.
  destruct (frame_data d rest) as [Ht Hr]. rewrite !Nat2Z.id, Ht, Hr.
  rewrite length_drop, !length_app. unfold e in *. rewrite !length_frame in *.
  destruct (Nat.eqb_spec (length d + 5 + length rest) 0); [lia|].
  destruct (Nat.ltb_spec (length d + 5 + length rest) 4); [lia|].
  destruct (Z.ltb_spec (Z.of_nat (length d + 5 + length rest - 4)) (Z.of_nat (length d))); [lia|].
  rewrite num_add_safe by lia.
  replace (b + (p + (Z.of_nat (length d) + 5))) with (b + p + Z.of_nat (length d + 5)) by lia.
  replace (p + (Z.of_nat (length d) + 5)) with (p + Z.of_nat (length d + 5)) by lia.
  done.
Qed.

(** Past the cap, nothing is read. *)
Lemma read_loop_past c fuel tail p :
  0 <= p -> 0 <= b -> c <= b + p -> b + p + Z.of_nat (length tail) < MAX_SAFE_INTEGER ->
  read_loop (Some s) (Some b) (Some (Some c)) fuel tail p = [].
Proof.
  intros Hp Hb Hc Hmax. destruct fuel as [|fuel]; [done|]. cbn [read_loop].
  destruct (Nat.eqb_spec (length tail) 0); [done|].
  destruct (Nat.ltb_spec (length tail) 4); [done|].
  destruct (Z.ltb_spec (Z.of_nat (length (drop 4 tail))) (readUInt32BE tail)) as [|Hl]; [done|].
  rewrite length_drop in Hl. pose proof (readUInt32BE_bound tail).
  rewrite num_add_safe by lia. cbn [num_gtb].
  by rewrite (proj2 (Z.ltb_lt _ _)) by lia.
Qed.

(** Reading up to a cap. *)
Lemma read_loop_capped c ds tail fuel p :
  fits ds -> (length ds <= fuel)%nat -> 0 <= p -> 0 <= b ->
  c <= b + p + Z.of_nat (length (frames ds)) ->
  b + p + Z.of_nat (length (frames ds ++ tail)) < MAX_SAFE_INTEGER ->
  read_loop (Some s) (Some b) (Some (Some c)) fuel (frames ds ++ tail) p =
  filter (fun m => s < ends m <= c) (file_messages (b + p) ds).
Proof.
  intros Hds. revert fuel p. induction Hds as [|d ds Hd Hds IH]; intros fuel p Hf Hp Hb Hc Hmax.
  - cbn in *. rewrite read_loop_past; [done|lia..].
  - destruct fuel as [|fuel]; [cbn in Hf; lia|].
    rewrite frames_cons, <-!app_assoc in *. rewrite length_app in Hc. rewrite !length_app in Hmax.
    rewrite read_loop_frame by (done || lia). cbn [num_gtb file_messages].
    set (e := b + p + Z.of_nat (length (frame d))) in *.
    rewrite filter_cons, ends_mk by lia.
    destruct (Z.ltb_spec c e).
    + rewrite decide_False by lia. symmetry. apply filter_false_nil.
      apply list.Forall_forall. intros m Hm. apply file_messages_ends in Hm; [|lia..]. lia.
    + rewrite IH by (cbn in Hf; rewrite ?length_app; lia).
      replace (b + (p + Z.of_nat (length (frame d)))) with e by lia.
      destruct (Z.ltb_spec s e); [rewrite decide_True by lia|rewrite decide_False by lia]; done.
Qed.

(** Reading to the end. *)
Lemma read_loop_all ds fuel p :
  fits ds -> (length ds <= fuel)%nat -> 0 <= p -> 0 <= b ->
  b + p + Z.of_nat (length (frames ds)) <= MAX_SAFE_INTEGER ->
  read_loop (Some s) (Some b) None fuel (frames ds) p =
  filter (fun m => s < ends m) (file_messages (b + p) ds).
Proof.
  intros Hds. revert fuel p. induction Hds as [|d ds Hd Hds IH]; intros fuel p Hf Hp Hb Hmax.
  - by destruct fuel.
  - destruct fuel as [|fuel]; [cbn in Hf; lia|].
    rewrite frames_cons in *. rewrite length_app in Hmax.
    rewrite read_loop_frame by (done || lia). cbn [file_messages].
    set (e := b + p + Z.of_nat (length (frame d))) in *.
    rewrite filter_cons, ends_mk by lia. rewrite IH by (cbn in Hf; lia).
    replace (b + (p + Z.of_nat (length (frame d)))) with e by lia.
    destruct (Z.ltb_spec s e); [rewrite decide_True by lia|rewrite decide_False by lia]; done.
Qed.
End read.

(** The two readings of a file, as the store asks for them. *)
Lemma read_file_capped s b c ds tail :
  fits ds -> 0 <= b -> c <= b + Z.of_nat (length (frames ds)) ->
  b + Z.of_nat (length (frames ds ++ tail)) < MAX_SAFE_INTEGER ->
  readMessagesFromSegmentFile (Some (frames ds ++ tail)) (Some s) (Some b) (Some (Some c)) =
  filter (fun m => s < ends m <= c) (file_messages b ds).
Proof.
  intros Hds Hb Hc Hmax. unfold readMessagesFromSegmentFile.
  rewrite read_loop_capped; [by rewrite Z.add_0_r|done| |lia..].
  rewrite length_app. pose proof (frames_length_ge ds). lia.
Qed.

Lemma read_file_all s b ds :
  fits ds -> 0 <= b -> b + Z.of_nat (length (frames ds)) <= MAX_SAFE_INTEGER ->
  readMessagesFromSegmentFile (Some (frames ds)) (Some s) (Some b) None =
  filter (fun m => s < ends m) (file_messages b ds).
Proof.
  intros Hds Hb Hmax. unfold readMessagesFromSegmentFile.
  rewrite read_loop_all; [by rewrite Z.add_0_r|done|apply frames_length_ge|lia..].
Qed.
