(* ===== verification/FileStore.v ===== *)
(** * The file-backed store: class [FileBackedStreamStore] of [packages/server/src/file-store.ts]

    The metadata of a stream is a record of a database (LMDB), its messages
    are frames of a file (FileFrames).  A [Disk] is both; a synchronous method
    is a function of it.  What the methods that [await] do, and how they
    interleave, is FileRuns.

    The database is a map from paths to records: [db.get] and [db.putSync] are
    a lookup and an insertion, a transaction is several at once, and
    [await db.put] is one step, taken when it is durable.  A file is known by
    its name in the directory [streams]; of its bytes the first [f_synced] are
    known to be on the disk.

    Long-polls wait in memory, like those of [StreamStore].  What they do to the
    disk is to look their stream up when they are resolved, which deletes it if
    it has expired.  For a long-poll that an append or a close notifies this is
    a call of [get] of its own; but a deletion resolves the long-polls of the
    stream while its record is still there, and so calls itself.  For that,
    [LongPolls] says how many long-polls wait on a path. *)

From S2P Require Import Prelude Offsets Producer Text Json Types JsonMode StreamStore FileFrames.
Local Open Scope js_scope.

(** ** State *)

Record StreamMetadata := mkStreamMetadata {
  m_path : string;
  m_contentType : option string;
  m_currentOffset : string;
  m_lastSeq : option string;
  m_ttlSeconds : option Z;
  m_expiresAt : option string;
  m_createdAt : Z;
  m_lastAccessedAt : option Z;
  m_segmentCount : Z;
  m_totalBytes : Z;
  m_directoryName : string;
  m_producers : option (gmap string ProducerState);
  m_closed : bool;
  m_closedBy : option ClosedBy;
  m_forkedFrom : option string;
  m_forkOffset : option string;
  m_forkSubOffset : option Z;
  m_refCount : Z;
  m_softDeleted : bool;
}.

Record File := mkFile { f_content : bytes; f_synced : nat }.

Record Disk := mkDisk {
  db : gmap string StreamMetadata;
  files : gmap string File;
}.

Definition empty_disk : Disk := mkDisk ∅ ∅.

(** [{ ...meta, f: v }] *)
Definition with_currentOffset (o : string) (m : StreamMetadata) : StreamMetadata :=
  mkStreamMetadata (m_path m) (m_contentType m) o (m_lastSeq m) (m_ttlSeconds m)
    (m_expiresAt m) (m_createdAt m) (m_lastAccessedAt m) (m_segmentCount m) (m_totalBytes m)
    (m_directoryName m) (m_producers m) (m_closed m) (m_closedBy m) (m_forkedFrom m)
    (m_forkOffset m) (m_forkSubOffset m) (m_refCount m) (m_softDeleted m).
Definition with_lastAccessedAt (t : Z) (m : StreamMetadata) : StreamMetadata :=
  mkStreamMetadata (m_path m) (m_contentType m) (m_currentOffset m) (m_lastSeq m)
    (m_ttlSeconds m) (m_expiresAt m) (m_createdAt m) (Some t) (m_segmentCount m)
    (m_totalBytes m) (m_directoryName m) (m_producers m) (m_closed m) (m_closedBy m)
    (m_forkedFrom m) (m_forkOffset m) (m_forkSubOffset m) (m_refCount m) (m_softDeleted m).
Definition with_closed (b : bool) (m : StreamMetadata) : StreamMetadata :=
  mkStreamMetadata (m_path m) (m_contentType m) (m_currentOffset m) (m_lastSeq m)
    (m_ttlSeconds m) (m_expiresAt m) (m_createdAt m) (m_lastAccessedAt m) (m_segmentCount m)
    (m_totalBytes m) (m_directoryName m) (m_producers m) b (m_closedBy m) (m_forkedFrom m)
    (m_forkOffset m) (m_forkSubOffset m) (m_refCount m) (m_softDeleted m).
Definition with_forkSubOffset (n : option Z) (m : StreamMetadata) : StreamMetadata :=
  mkStreamMetadata (m_path m) (m_contentType m) (m_currentOffset m) (m_lastSeq m)
    (m_ttlSeconds m) (m_expiresAt m) (m_createdAt m) (m_lastAccessedAt m) (m_segmentCount m)
    (m_totalBytes m) (m_directoryName m) (m_producers m) (m_closed m) (m_closedBy m)
    (m_forkedFrom m) (m_forkOffset m) n (m_refCount m) (m_softDeleted m).
Definition with_refCount (n : Z) (m : StreamMetadata) : StreamMetadata :=
  mkStreamMetadata (m_path m) (m_contentType m) (m_currentOffset m) (m_lastSeq m)
    (m_ttlSeconds m) (m_expiresAt m) (m_createdAt m) (m_lastAccessedAt m) (m_segmentCount m)
    (m_totalBytes m) (m_directoryName m) (m_producers m) (m_closed m) (m_closedBy m)
    (m_forkedFrom m) (m_forkOffset m) (m_forkSubOffset m) n (m_softDeleted m).
Definition with_softDeleted (b : bool) (m : StreamMetadata) : StreamMetadata :=
  mkStreamMetadata (m_path m) (m_contentType m) (m_currentOffset m) (m_lastSeq m)
    (m_ttlSeconds m) (m_expiresAt m) (m_createdAt m) (m_lastAccessedAt m) (m_segmentCount m)
    (m_totalBytes m) (m_directoryName m) (m_producers m) (m_closed m) (m_closedBy m)
    (m_forkedFrom m) (m_forkOffset m) (m_forkSubOffset m) (m_refCount m) b.

Definition upd_db (f : gmap string StreamMetadata -> gmap string StreamMetadata) (d : Disk) : Disk :=
  mkDisk (f (db d)) (files d).
Definition upd_files (f : gmap string File -> gmap string File) (d : Disk) : Disk :=
  mkDisk (db d) (f (files d)).

(** [db.putSync(key, meta)] *)
Definition put (p : string) (m : StreamMetadata) : Disk -> Disk := upd_db (insert p m).

(** The name of the file, without the directory in front. *)
Definition segmentFile (dirName : string) : string := dirName +:+ ".log".
Definition segment (m : StreamMetadata) : string := segmentFile (m_directoryName m).

(** [fs.readFileSync]; [None] when there is no such file. *)
Definition content (d : Disk) (m : StreamMetadata) : option bytes :=
  f_content <$> files d !! segment m.

(** ** Errors *)

Inductive FileError :=
| FromStore (e : StoreError)
| SourceUnavailable
| RangeError
| TypeError
| IoError.

(** ** Results of appends *)

(** A verdict of [validateProducer]: [gap_from_nan] is a [sequence_gap] whose
    [expectedSeq] is [NaN]. *)
Inductive Verdict :=
| verdict (v : ProducerValidationResult)
| gap_from_nan (receivedSeq : Z).

Record FileAppendResult := mkFileAppendResult {
  fr_message : option StreamMessage;
  fr_producerResult : option Verdict;
  fr_streamClosed : option bool;
}.

(** [StreamMessage | AppendResult | null] *)
Inductive FileAppendReturn :=
| FilePlain (m : option StreamMessage)
| FileResult (r : FileAppendResult).

Record FileCloseResult := mkFileCloseResult {
  fc_finalOffset : string;
  fc_alreadyClosed : bool;
  fc_producerResult : option Verdict;
}.

(** ** Operations *)

(** [streamMetaToStream]: the messages stay on the disk, and [forkSubOffset]
    is not copied. *)
Definition streamMetaToStream (m : StreamMetadata) : Stream :=
  mkStream (m_path m) (m_contentType m) [] (m_currentOffset m) (m_lastSeq m) (m_ttlSeconds m)
    (m_expiresAt m) (m_createdAt m) (or_else (m_lastAccessedAt m) (m_createdAt m)) (m_producers m)
    (m_closed m) (m_closedBy m) (m_forkedFrom m) (m_forkOffset m) None (m_refCount m)
    (m_softDeleted m).

(** The names every object has from [Object.prototype]. *)
Definition OBJECT_PROTOTYPE : list string :=
  ["constructor"; "__defineGetter__"; "__defineSetter__"; "hasOwnProperty"; "__lookupGetter__";
   "__lookupSetter__"; "isPrototypeOf"; "propertyIsEnumerable"; "toString"; "valueOf"; "__proto__";
   "toLocaleString"].

(** [producers[producerId]] of a plain object. *)
Inductive Property :=
| Missing
| Own (state : ProducerState)
| Inherited.

Definition get_property (producers : gmap string ProducerState) (producerId : string) : Property :=
  match producers !! producerId with
  | Some state => Own state
  | None => if bool_decide (producerId ∈ OBJECT_PROTOTYPE) then Inherited else Missing
  end.

(** ** Deletion *)

Section cascade.
(** [isExpired], and how many long-polls wait on a path. *)
Context (expired : StreamMetadata -> bool) (polls : string -> nat).

(** The end of [deleteWithCascade]: the record is removed and the parent's count
    decremented, and the file is closed and unlinked, to which nothing refers
    once the record is gone.  [collect] is the call for the parent. *)
Definition remove_record (collect : string -> Disk -> Disk) (p : string) (m : StreamMetadata) (d : Disk) : Disk :=
  let d := upd_files (delete (segment m)) (upd_db (delete p) d) in
  if truthy (m_forkedFrom m) then
    let parentKey := or_else (m_forkedFrom m) EmptyString in
    match db d !! parentKey with
    | None => d
    | Some parent =>
        let refs := Z.max 0 (m_refCount parent - 1) in
        let d := put parentKey (with_refCount refs parent) d in
        if (refs =? 0) && m_softDeleted parent then collect parentKey d else d
    end
  else d.

(** [deleteWithCascade], when [waiting] long-polls wait on [p].
    [cancelLongPollsForStream] comes first: a long-poll that is resolved leaves
    the array and looks the stream up ([getMetaIfNotExpired]), whose record is
    still there, and if it has expired it is deleted, with the other long-polls,
    before this call goes on.  Those that [cancelLongPollsForStream] resolves
    after the first find the stream as the first has left it, and change
    nothing.  Each call removes a record or a long-poll, which bounds the depth. *)
Fixpoint deleteWithCascade_fuel (fuel : nat) (p : string) (waiting : nat) (d : Disk) : Disk :=
  match fuel with
  | O => d
  | S fuel =>
      match db d !! p with
      | None => d
      | Some m =>
          let d :=
            match waiting with
            | O => d
            | S waiting =>
                if expired m && negb (m_softDeleted m) then
                  if 0 <? m_refCount m then put p (with_softDeleted true m) d
                  else deleteWithCascade_fuel fuel p waiting d
                else d
            end in
          remove_record (fun parent => deleteWithCascade_fuel fuel parent (polls parent)) p m d
      end
  end.

Definition all_polls (d : Disk) : nat :=
  foldr (fun p n => (polls p + n)%nat) 0%nat (map_to_list (db d)).*1.

Definition cascade_from (p : string) (d : Disk) : Disk :=
  deleteWithCascade_fuel (S (size (db d) + all_polls d)) p (polls p) d.
End cascade.

(** [pendingLongPolls.filter((p) => p.path === path).length] *)
Class LongPolls := pending_polls : string -> nat.

(** Nobody waits. *)
#[export] Instance no_long_polls : LongPolls | 100 := fun _ => 0%nat.

Section store.
Context `{!JsonLib} `{!DateLib} `{!LongPolls}.
Context (now : Z).

(** [validateProducer].  Every comparison with a field of an inherited member
    is one with [undefined], and so false. *)
Definition validateProducer (m : StreamMetadata) (producerId : string) (e seq : Z) : Verdict :=
  match get_property (or_else (m_producers m) ∅) producerId with
  | Missing =>
      if negb (seq =? 0) then verdict (sequence_gap 0 seq)
      else verdict (accepted true (mkProducerState e 0 now) producerId)
  | Own state =>
      if e <? ps_epoch state then verdict (stale_epoch (ps_epoch state))
      else if ps_epoch state <? e then
        if negb (seq =? 0) then verdict invalid_epoch_seq
        else verdict (accepted true (mkProducerState e 0 now) producerId)
      else if seq <=? ps_lastSeq state then verdict (duplicate (ps_lastSeq state))
      else if seq =? ps_lastSeq state + 1 then
        verdict (accepted false (mkProducerState e seq now) producerId)
      else verdict (sequence_gap (ps_lastSeq state + 1) seq)
  | Inherited => gap_from_nan seq
  end.

(** [isExpired] *)
Definition isExpired (m : StreamMetadata) : bool :=
  let expired_at :=
    match m_expiresAt m with
    | Some e =>
        if String.eqb e EmptyString then false
        else match date_getTime e with
             | None => true
             | Some expiryTime => expiryTime <=? now
             end
    | None => false
    end in
  if expired_at then true
  else match m_ttlSeconds m with
       | Some ttl =>
           let lastAccessed := or_else (m_lastAccessedAt m) (m_createdAt m) in
           dbl (lastAccessed + dbl (ttl * 1000)) <=? now
       | None => false
       end.

(** [touchAccess] *)
Definition touchAccess (p : string) (d : Disk) : Disk :=
  match db d !! p with
  | Some m => put p (with_lastAccessedAt now m) d
  | None => d
  end.

(** [deleteWithCascade] *)
Definition deleteWithCascade : string -> Disk -> Disk := cascade_from isExpired pending_polls.

(** [delete] *)
Definition delete_ (p : string) (d : Disk) : Disk * bool :=
  match db d !! p with
  | None => (d, false)
  | Some m =>
      if m_softDeleted m then (d, true)
      else if 0 <? m_refCount m then (put p (with_softDeleted true m) d, true)
      else (deleteWithCascade p d, true)
  end.

(** [getMetaIfNotExpired] *)
Definition getMetaIfNotExpired (p : string) (d : Disk) : Disk * option StreamMetadata :=
  match db d !! p with
  | None => (d, None)
  | Some m =>
      if isExpired m then
        if 0 <? m_refCount m then
          if negb (m_softDeleted m) then
            (put p (with_softDeleted true m) d, Some (with_softDeleted true m))
          else (d, Some m)
        else ((delete_ p d).1, None)
      else (d, Some m)
  end.

(** [get] *)
Definition get (p : string) (d : Disk) : Disk * option Stream :=
  let '(d, m) := getMetaIfNotExpired p d in (d, streamMetaToStream <$> m).

(** [has] *)
Definition has (p : string) (d : Disk) : Disk * bool :=
  let '(d, m) := getMetaIfNotExpired p d in
  match m with
  | None => (d, false)
  | Some m => (d, negb (m_softDeleted m))
  end.

(** [getCurrentOffset] *)
Definition getCurrentOffset (p : string) (d : Disk) : Disk * option string :=
  let '(d, m) := getMetaIfNotExpired p d in (d, m_currentOffset <$> m).

(** [getProducerEpoch] *)
Definition getProducerEpoch (p producerId : string) (d : Disk) : Disk * option Z :=
  let '(d, m) := getMetaIfNotExpired p d in
  (d, match m ≫= m_producers with
      | Some producers =>
          match get_property producers producerId with
          | Own state => Some (ps_epoch state)
          | _ => None
          end
      | None => None
      end).

(** [list]: the keys, without their order. *)
Definition list_ (d : Disk) : gset string := dom (db d).

(** [clear]: the files stay. *)
Definition clear (d : Disk) : Disk := mkDisk ∅ (files d).

(** *** Reading *)

(** [meta.forkOffset ? Number(meta.forkOffset.split("_")[1] ?? 0) : 0] *)
Definition base_byte (m : StreamMetadata) : option Z :=
  if truthy (m_forkOffset m) then offset_byte (or_else (m_forkOffset m) EmptyString) else Some 0.

(** [readForkedMessages]; [None] when the recursion is deeper than [fuel]. *)
Fixpoint readForkedMessages_fuel (fuel : nat) (d : Disk) (sourcePath : string)
    (startByte capByte : option Z) : option (list StreamMessage) :=
  match fuel with
  | O => None
  | S fuel =>
      match db d !! sourcePath with
      | None => Some []
      | Some source =>
          inherited ←
            (if truthy (m_forkedFrom source) && truthy (m_forkOffset source) then
               let sourceForkByte := offset_byte (or_else (m_forkOffset source) EmptyString) in
               if num_gtb sourceForkByte startByte then
                 readForkedMessages_fuel fuel d (or_else (m_forkedFrom source) EmptyString)
                   startByte (num_min sourceForkByte capByte)
               else Some []
             else Some []);
          Some (inherited ++
                readMessagesFromSegmentFile (content d source) startByte (base_byte source)
                  (Some capByte))
      end
  end.

(** More calls than there are streams: the stack of the engine overflows. *)
Definition readForkedMessages (sourcePath : string) (startByte capByte : option Z) (d : Disk)
    : result FileError (list StreamMessage) :=
  match readForkedMessages_fuel (S (size (db d))) d sourcePath startByte capByte with
  | Some ms => Ok ms
  | None => Err (FromStore StackOverflow)
  end.

(** [a >= b] *)
Definition num_geb (a b : option Z) : bool :=
  match a, b with Some a, Some b => b <=? a | _, _ => false end.

(** [read], once the record is there. *)
Definition read_meta (m : StreamMetadata) (offset : option string) (d : Disk)
    : result FileError (list StreamMessage) :=
  let startByte := offset_byte (or_else offset ZERO_OFFSET) in
  let currentByte := offset_byte (m_currentOffset m) in
  if String.eqb (m_currentOffset m) ZERO_OFFSET then Ok []
  else if num_geb startByte currentByte then Ok []
  else if truthy (m_forkedFrom m) && truthy (m_forkOffset m) then
    let forkByte := offset_byte (or_else (m_forkOffset m) EmptyString) in
    match (if num_gtb forkByte startByte then
             readForkedMessages (or_else (m_forkedFrom m) EmptyString) startByte forkByte d
           else Ok []) with
    | Err e => Err e
    | Ok inherited =>
        Ok (inherited ++ readMessagesFromSegmentFile (content d m) startByte forkByte None)
    end
  else Ok (readMessagesFromSegmentFile (content d m) startByte (Some 0) None).

(** [read]: the messages; [upToDate] is always true. *)
Definition read (p : string) (offset : option string) (d : Disk)
    : Disk * result FileError (list StreamMessage) :=
  let '(d, m) := getMetaIfNotExpired p d in
  match m with
  | None => (d, Err (FromStore (StreamNotFound p)))
  | Some m => (d, read_meta m offset d)
  end.

(** [formatResponse] *)
Definition formatResponse (p : string) (ms : list StreamMessage) (d : Disk)
    : Disk * result FileError bytes :=
  let '(d, m) := getMetaIfNotExpired p d in
  match m with
  | None => (d, Err (FromStore (StreamNotFound p)))
  | Some m =>
      if String.eqb (normalizeContentType (m_contentType m)) "application/json" then
        (d, match formatJsonMessages ms with
            | Some b => Ok b
            | None => Err (FromStore InvalidJson)
            end)
      else (d, Ok (concat (map msg_data ms)))
  end.

(** *** Closing *)

(** [closeStream] *)
Definition closeStream (p : string) (d : Disk) : Disk * option FileCloseResult :=
  let '(d, m) := getMetaIfNotExpired p d in
  match m with
  | None => (d, None)
  | Some m =>
      (put p (with_closed true m) d,
       Some (mkFileCloseResult (m_currentOffset m) (m_closed m) None))
  end.

(** [{ ...producers }] with the state of an accepted request. *)
Definition commit_producers (m : StreamMetadata) (v : option Verdict) : gmap string ProducerState :=
  let updatedProducers := or_else (m_producers m) ∅ in
  match v with
  | Some (verdict (accepted _ proposedState producerId)) =>
      <[producerId := proposedState]> updatedProducers
  | _ => updatedProducers
  end.

Definition is_accepted (v : Verdict) : bool :=
  match v with verdict (accepted _ _ _) => true | _ => false end.

(** The record of a close-only request that was accepted. *)
Definition closed_meta (m : StreamMetadata) (v : Verdict) (producerId : string) (e seq : Z)
    : StreamMetadata :=
  mkStreamMetadata (m_path m) (m_contentType m) (m_currentOffset m) (m_lastSeq m)
    (m_ttlSeconds m) (m_expiresAt m) (m_createdAt m) (m_lastAccessedAt m) (m_segmentCount m)
    (m_totalBytes m) (m_directoryName m) (Some (commit_producers m (Some v))) true
    (Some (mkClosedBy producerId (Some e) (Some seq))) (m_forkedFrom m)
    (m_forkOffset m) (m_forkSubOffset m) (m_refCount m) (m_softDeleted m).

(** [closeStreamWithProducer], while the producer's lock is held. *)
Definition closeStreamWithProducer (p producerId : string) (e seq : Z) (d : Disk)
    : Disk * option FileCloseResult :=
  let '(d, m) := getMetaIfNotExpired p d in
  match m with
  | None => (d, None)
  | Some m =>
      let closed_with v := Some (mkFileCloseResult (m_currentOffset m) true (Some (verdict v))) in
      if m_closed m then
        if same_closer (m_closedBy m) (Some producerId) (Some e) (Some seq)
        then (d, closed_with (duplicate seq))
        else (d, closed_with stream_closed)
      else
        let v := validateProducer m producerId e seq in
        if negb (is_accepted v)
        then (d, Some (mkFileCloseResult (m_currentOffset m) (m_closed m) (Some v)))
        else
          (put p (closed_meta m v producerId e seq) d,
           Some (mkFileCloseResult (m_currentOffset m) false (Some v)))
  end.

(** *** Appending *)

(** What [appendInner] holds while it awaits: the record it found, the bytes of
    its frame, the verdict, the new offset. *)
Record Append := mkAppend {
  ap_path : string;
  ap_meta : StreamMetadata;
  ap_data : bytes;
  ap_options : AppendOptions;
  ap_verdict : option Verdict;
  ap_offset : string;
}.

(** How [appendInner] gets to its first [await], if it does. *)
Inductive Begun :=
| Finished (r : result FileError FileAppendReturn)
| InFlight (a : Append).

Definition validate_options (m : StreamMetadata) (o : AppendOptions) : option Verdict :=
  match ao_producerId o, ao_producerEpoch o, ao_producerSeq o with
  | Some id, Some e, Some seq => Some (validateProducer m id e seq)
  | _, _, _ => None
  end.

(** The bytes to store; [None] for nothing at all. *)
Definition processed (m : StreamMetadata) (data : bytes) (isInitialCreate : bool)
    : result StoreError (option bytes) :=
  if String.eqb (normalizeContentType (m_contentType m)) "application/json" then
    match processJsonAppend data isInitialCreate with
    | Err e => Err e
    | Ok processedData =>
        Ok (if (length processedData =? 0)%nat then None else Some processedData)
    end
  else Ok (Some data).

(** The check of [Stream-Seq]. *)
Definition seq_conflict (m : StreamMetadata) (o : AppendOptions) : option StoreError :=
  match ao_seq o, m_lastSeq m with
  | Some seq, Some last =>
      if negb (String.ltb last seq) then Some (SequenceConflict seq last) else None
  | _, _ => None
  end.

(** A file that is opened for appending is created if it is missing. *)
Definition open_file (name : string) : Disk -> Disk :=
  upd_files (fun fs =>
    match fs !! name with
    | Some _ => fs
    | None => <[name := mkFile [] 0]> fs
    end).

(** [appendInner], up to the write of the frame: [getWriteStream] opens the
    file if no handle is open. *)
Definition append_begin (p : string) (data : bytes) (o : AppendOptions) (isInitialCreate : bool)
    (d : Disk) : Disk * Begun :=
  let '(d, m) := getMetaIfNotExpired p d in
  match m with
  | None => (d, Finished (Err (FromStore (StreamNotFound p))))
  | Some m =>
      if m_softDeleted m then (d, Finished (Err (FromStore (StreamSoftDeleted p))))
      else if m_closed m then
        if truthy (ao_producerId o) &&
           same_closer (m_closedBy m) (ao_producerId o) (ao_producerEpoch o) (ao_producerSeq o)
        then (d, Finished (Ok (FileResult (mkFileAppendResult None
                (Some (verdict (duplicate (or_else (ao_producerSeq o) 0)))) (Some true)))))
        else (d, Finished (Ok (FileResult (mkFileAppendResult None None (Some true)))))
      else if truthy (ao_contentType o) && truthy (m_contentType m) &&
              negb (String.eqb (normalizeContentType (ao_contentType o))
                      (normalizeContentType (m_contentType m)))
      then (d, Finished (Err (FromStore (ContentTypeMismatch
                 (or_else (m_contentType m) EmptyString) (or_else (ao_contentType o) EmptyString)))))
      else
        let v := validate_options m o in
        if match v with Some v => negb (is_accepted v) | None => false end
        then (d, Finished (Ok (FileResult (mkFileAppendResult None v None))))
        else
          match seq_conflict m o with
          | Some e => (d, Finished (Err (FromStore e)))
          | None =>
              match processed m data isInitialCreate with
              | Err e => (d, Finished (Err (FromStore e)))
              | Ok None => (d, Finished (Ok (FilePlain None)))
              | Ok (Some processedData) =>
                  let newOffset :=
                    next_offset (m_currentOffset m) (Z.of_nat (length processedData)) in
                  (open_file (segment m) d,
                   if 2 ^ 32 <=? Z.of_nat (length processedData) then Finished (Err RangeError)
                   else InFlight (mkAppend p m processedData o v newOffset))
              end
          end
  end.

(** The frame has reached the file (the callback of [stream.write]); a file
    that is gone is still open, and what is written to it is lost. *)
Definition append_written (a : Append) : Disk -> Disk :=
  upd_files (alter (fun f => mkFile (f_content f ++ frame (ap_data a)) (f_synced f))
               (segment (ap_meta a))).

(** [fsyncFile] has returned. *)
Definition append_synced (a : Append) : Disk -> Disk :=
  upd_files (alter (fun f => mkFile (f_content f) (length (f_content f))) (segment (ap_meta a))).

(** The record after the append: what was found when it began, changed. *)
Definition updatedMeta (a : Append) : StreamMetadata :=
  let m := ap_meta a in
  let o := ap_options a in
  let close := or_else (ao_close o) false in
  let closedBy :=
    if close && truthy (ao_producerId o) then
      Some (mkClosedBy (or_else (ao_producerId o) EmptyString) (ao_producerEpoch o)
              (ao_producerSeq o))
    else None in
  mkStreamMetadata (m_path m) (m_contentType m) (ap_offset a)
    (match ao_seq o with Some seq => Some seq | None => m_lastSeq m end)
    (m_ttlSeconds m) (m_expiresAt m) (m_createdAt m) (m_lastAccessedAt m) (m_segmentCount m)
    (m_totalBytes m + Z.of_nat (length (ap_data a)) + 5) (m_directoryName m)
    (Some (commit_producers m (ap_verdict a)))
    (if close then true else m_closed m)
    (match closedBy with Some cb => Some cb | None => m_closedBy m end)
    (m_forkedFrom m) (m_forkOffset m) (m_forkSubOffset m) (m_refCount m) (m_softDeleted m).

(** [await db.put] *)
Definition append_put (a : Append) : Disk -> Disk := put (ap_path a) (updatedMeta a).

(** The value [appendInner] returns; the message was made at [now]. *)
Definition append_return (a : Append) : FileAppendReturn :=
  let message := mkStreamMessage (ap_data a) (ap_offset a) now in
  let close := ao_close (ap_options a) in
  if (if ap_verdict a then true else false) || or_else close false
  then FileResult (mkFileAppendResult (Some message) (ap_verdict a) close)
  else FilePlain (Some message).

(** [appendWithProducer] around [append] *)
Definition as_result (r : FileAppendReturn) : FileAppendResult :=
  match r with
  | FileResult r => r
  | FilePlain m => mkFileAppendResult m None None
  end.

(** *** Creating *)

(** The comparison of [createInner] with an existing stream. *)
Definition config_matches (o : CreateOptions) (existing : StreamMetadata) : bool :=
  let normalizeMimeType ct := js_lower (or_else ct "application/octet-stream") in
  let contentTypeMatches :=
    String.eqb (normalizeMimeType (co_contentType o)) (normalizeMimeType (m_contentType existing)) in
  let ttlMatches := bool_decide (co_ttlSeconds o = m_ttlSeconds existing) in
  let expiresMatches := bool_decide (co_expiresAt o = m_expiresAt existing) in
  let closedMatches := Bool.eqb (or_else (co_closed o) false) (m_closed existing) in
  let forkedFromMatches := bool_decide (co_forkedFrom o = m_forkedFrom existing) in
  let forkOffsetMatches :=
    match co_forkOffset o with
    | None => true
    | Some fo => bool_decide (Some fo = m_forkOffset existing)
    end in
  let forkSubOffsetMatches :=
    or_else (co_forkSubOffset o) 0 =? or_else (m_forkSubOffset existing) 0 in
  contentTypeMatches && ttlMatches && expiresMatches && closedMatches &&
  forkedFromMatches && forkOffsetMatches && forkSubOffsetMatches.

(** [resolveForkExpiry]: [ttlSeconds] and [expiresAt] of the fork. *)
Definition resolveForkExpiry (o : CreateOptions) (source : StreamMetadata)
    : option Z * option string :=
  match co_ttlSeconds o with
  | Some t => (Some t, None)
  | None =>
      if truthy (co_expiresAt o) then (None, co_expiresAt o)
      else match m_ttlSeconds source with
           | Some t => (Some t, None)
           | None => if truthy (m_expiresAt source) then (None, m_expiresAt source)
                     else (None, None)
           end
  end.

(** [resolveForkSubOffset] *)
Definition resolveForkSubOffset (sourcePath fork_offset : string) (subOffset : Z) (isJSON : bool)
    (d : Disk) : result FileError bytes :=
  match db d !! sourcePath with
  | None => Err (FromStore (SourceNotFound sourcePath))
  | Some source =>
      match readForkedMessages sourcePath (offset_byte fork_offset)
              (offset_byte (m_currentOffset source)) d with
      | Err e => Err e
      | Ok [] => Err (FromStore (InvalidForkSubOffset "no data past forkOffset"))
      | Ok (first :: _) =>
          match sub_offset_prefix first subOffset isJSON with
          | Ok b => Ok b
          | Err e => Err (FromStore e)
          end
      end
  end.

(** What [createInner] finds out about the source of a fork: its record, the
    fork offset and the prefix. *)
Definition resolve_fork (source : string) (o : CreateOptions) (d : Disk)
    : result FileError (StreamMetadata * string * option bytes) :=
  match db d !! source with
  | None => Err (FromStore (SourceNotFound source))
  | Some sourceMeta =>
      if m_softDeleted sourceMeta then Err (FromStore (SourceSoftDeleted source))
      else if isExpired sourceMeta then Err (FromStore (SourceNotFound source))
      else if truthy (co_contentType o) &&
              negb (String.eqb (js_trim (or_else (co_contentType o) EmptyString)) EmptyString) &&
              negb (String.eqb (normalizeContentType (co_contentType o))
                      (normalizeContentType (m_contentType sourceMeta)))
      then Err (FromStore SourceContentTypeMismatch)
      else
        let fork_offset :=
          if truthy (co_forkOffset o) then or_else (co_forkOffset o) EmptyString
          else m_currentOffset sourceMeta in
        if String.ltb fork_offset ZERO_OFFSET ||
           String.ltb (m_currentOffset sourceMeta) fork_offset
        then Err (FromStore (InvalidForkOffset fork_offset))
        else
          match co_forkSubOffset o with
          | Some n =>
              if 0 <? n then
                match resolveForkSubOffset source fork_offset n
                        (String.eqb (normalizeContentType (m_contentType sourceMeta))
                           "application/json") d with
                | Ok prefix => Ok (sourceMeta, fork_offset, Some prefix)
                | Err e => Err e
                end
              else Ok (sourceMeta, fork_offset, None)
          | None => Ok (sourceMeta, fork_offset, None)
          end
  end.

(** [streamMeta], before the prefix. *)
Definition initial_meta (p dirName : string) (o : CreateOptions)
    (fork : option (StreamMetadata * string * option bytes)) : StreamMetadata :=
  let content_type :=
    if negb (truthy (co_contentType o)) ||
       String.eqb (js_trim (or_else (co_contentType o) EmptyString)) EmptyString
    then match fork with
         | Some (sourceMeta, _, _) => m_contentType sourceMeta
         | None => co_contentType o
         end
    else co_contentType o in
  let '(ttl, expires) :=
    match fork with
    | Some (sourceMeta, _, _) => resolveForkExpiry o sourceMeta
    | None => (co_ttlSeconds o, co_expiresAt o)
    end in
  let fork_offset := match fork with Some (_, fo, _) => Some fo | None => None end in
  mkStreamMetadata p content_type (or_else fork_offset ZERO_OFFSET) None ttl expires now (Some now)
    1 0 dirName None false None
    (match fork with Some _ => co_forkedFrom o | None => None end) fork_offset None 0 false.

(** The file and the record with the prefix of a fork as the first frame. *)
Definition materialize (m : StreamMetadata) (o : CreateOptions) (prefix : option bytes) (d : Disk)
    : result FileError (Disk * StreamMetadata) :=
  match prefix with
  | Some b =>
      if (0 <? length b)%nat then
        if 2 ^ 32 <=? Z.of_nat (length b) then Err RangeError
        else
          let newOffset := prefix_offset (m_currentOffset m) (Z.of_nat (length b)) in
          Ok (upd_files (insert (segment m) (mkFile (frame b) (length (frame b)))) d,
              with_forkSubOffset (co_forkSubOffset o) (with_currentOffset newOffset m))
      else Ok (d, m)
  | None => Ok (d, m)
  end.

(** The transaction: the reference on the source and the new record. *)
Definition commit_created (p : string) (m : StreamMetadata) (d : Disk) : result FileError Disk :=
  match m_forkedFrom m with
  | Some source =>
      match db d !! source with
      | Some freshSource =>
          if m_softDeleted freshSource then Err SourceUnavailable
          else Ok (put p m (put source (with_refCount (m_refCount freshSource + 1) freshSource) d))
      | None => Err SourceUnavailable
      end
  | None => Ok (put p m d)
  end.

(** What [createInner] holds while it awaits. *)
Record Creating := mkCreating {
  cr_path : string;
  cr_meta : StreamMetadata;
  cr_options : CreateOptions;
}.

(** [createInner] past the check of an existing stream, up to the opening of
    the file; [dirName] is the name [generateUniqueDirectoryName] made. *)
Definition create_new (p dirName : string) (o : CreateOptions) (d : Disk)
    : Disk * result FileError Creating :=
  let isFork := truthy (co_forkedFrom o) in
  let fork :=
    if isFork then
      match resolve_fork (or_else (co_forkedFrom o) EmptyString) o d with
      | Ok f => Ok (Some f)
      | Err e => Err e
      end
    else Ok None in
  match fork with
  | Err e => (d, Err e)
  | Ok fork =>
      let m := initial_meta p dirName o fork in
      let prefix := match fork with Some (_, _, prefix) => prefix | None => None end in
      match materialize m o prefix d with
      | Err e => (d, Err e)
      | Ok (d', m') =>
          match commit_created p m' d' with
          | Err e => (d, Err e)
          | Ok d => (d, Ok (mkCreating p m' o))
          end
      end
  end.

(** [createInner], up to the opening of the file: [inl] is the stream that was
    there already. *)
Definition create_begin (p dirName : string) (o : CreateOptions) (d : Disk)
    : Disk * result FileError (Stream + Creating) :=
  let go d :=
    match create_new p dirName o d with
    | (d, Ok c) => (d, Ok (inr c))
    | (d, Err e) => (d, Err e)
    end in
  match db d !! p with
  | Some existingRaw =>
      if isExpired existingRaw then go (delete_ p d).1
      else if m_softDeleted existingRaw then (d, Err (FromStore (ActiveForks p)))
      else if config_matches o existingRaw then (d, Ok (inl (streamMetaToStream existingRaw)))
      else (d, Err (FromStore (ConfigMismatch p)))
  | None => go d
  end.

(** [openWriteStream] has opened the file. *)
Definition create_opened (c : Creating) : Disk -> Disk := open_file (segment (cr_meta c)).

(** [rollbackCreatedStream], and the removal of the file after it. *)
Definition rollback (c : Creating) (d : Disk) : Disk :=
  let d := upd_db (delete (cr_path c)) d in
  let d :=
    if truthy (m_forkedFrom (cr_meta c)) then
      let parentKey := or_else (m_forkedFrom (cr_meta c)) EmptyString in
      match db d !! parentKey with
      | Some parent => put parentKey (with_refCount (Z.max 0 (m_refCount parent - 1)) parent) d
      | None => d
      end
    else d in
  upd_files (delete (segment (cr_meta c))) d.

(** Whether there is initial data to append. *)
Definition has_initial_data (c : Creating) : bool :=
  match co_initialData (cr_options c) with Some data => (0 <? length data)%nat | None => false end.

Definition initial_options (c : Creating) : AppendOptions :=
  mkAppendOptions None (co_contentType (cr_options c)) None None None None.

(** The end of [createInner]. *)
Definition create_finish (c : Creating) (d : Disk) : Disk * result FileError Stream :=
  match db d !! cr_path c with
  | None => (d, Err TypeError)
  | Some m =>
      let m := if or_else (co_closed (cr_options c)) false then with_closed true m else m in
      (if or_else (co_closed (cr_options c)) false then put (cr_path c) m d else d,
       Ok (streamMetaToStream m))
  end.
End store.

(** *** Recovery *)

(** [recover] on one record: [None] when it is removed. *)
Definition recover_entry (fs : gmap string File) (m : StreamMetadata) : option StreamMetadata :=
  match fs !! segment m with
  | None => None
  | Some f =>
      let physicalOffset := scanFileForTrueOffset (f_content f) in
      let trueOffset :=
        if truthy (m_forkOffset m) then
          let forkBaseByte := offset_byte (or_else (m_forkOffset m) EmptyString) in
          format_offset (Some 0) (num_add forkBaseByte (offset_byte physicalOffset))
        else physicalOffset in
      Some (if negb (String.eqb trueOffset (m_currentOffset m))
            then with_currentOffset trueOffset m else m)
  end.

(** [expectedRefs.get(p) ?? 0] *)
Definition expectedRefs (ms : gmap string StreamMetadata) (p : string) : Z :=
  Z.of_nat (size (filter (fun kv => truthy (m_forkedFrom kv.2) = true /\
                                    m_forkedFrom kv.2 = Some p) ms)).

Definition rebuild_refs (ms : gmap string StreamMetadata) : gmap string StreamMetadata :=
  map_imap (fun p m =>
    Some (if negb (m_refCount m =? expectedRefs ms p)
          then with_refCount (expectedRefs ms p) m else m)) ms.

Definition collectible (ms : gmap string StreamMetadata) : list string :=
  fst <$> filter (fun kv => m_softDeleted kv.2 = true /\ expectedRefs ms kv.1 = 0) (map_to_list ms).

(** [deleteWithCascade] when nobody waits. *)
Definition collect : string -> Disk -> Disk := cascade_from (fun _ => false) (fun _ => 0%nat).

(** [recover]; no long-poll waits yet. *)
Definition recover (d : Disk) : Disk :=
  let surviving := omap (recover_entry (files d)) (db d) in
  let d := mkDisk (rebuild_refs surviving) (files d) in
  foldl (fun d p => collect p d) d (collectible surviving).

(** What a crash leaves of a file: the bytes known to be on the disk, and maybe
    some of those after them.  A file none of whose bytes is may be gone. *)
Definition crash_file (cut : option nat) (f : File) : option File :=
  match cut with
  | None => if (f_synced f =? 0)%nat then None else Some (mkFile (take (f_synced f) (f_content f)) (f_synced f))
  | Some n =>
      let kept := take (Nat.max n (f_synced f)) (f_content f) in
      Some (mkFile kept (length kept))
  end.

(** A crash, and the start of the process after it. *)
Definition crash (cut : string -> option nat) (d : Disk) : Disk :=
  mkDisk (db d) (map_imap (fun name f => crash_file (cut name) f) (files d)).
