(* ===== verification/FileRuns.v ===== *)
(** * The file-backed store at work: what its methods do while they await

    [append] and [create] await the write of a frame, [fsync], LMDB and the
    opening of a file; other calls run meanwhile.  A [Task] is what such a
    call still has to do, and an [Event] is what happens next: a call begins,
    what a task waits for is done ([ok]) or fails, the process restarts.  A
    call that waits for a lock begins when it gets it; until then its event
    does nothing.

    - [append] holds the lock of its stream, [create] that of all creations,
      and with a producer an append or a close holds the lock of
      [streamPath:producerId]. *)

From S2P Require Import Prelude Offsets Producer Text Json Types JsonMode StreamStore FileFrames FileStore.
Local Open Scope js_scope.

(** [after] is the creation whose initial data an append stores; [time] is when
    the message was made. *)
Inductive Task :=
| Opening (c : Creating)
| Initial (c : Creating)
| Writing (a : Append) (after : option Creating)
| Syncing (a : Append) (after : option Creating) (time : Z)
| Putting (a : Append) (after : option Creating) (time : Z).

Record FileStore := mkFileStore {
  disk : Disk;
  tasks : gmap nat Task;
  nextTask : nat;
}.

(** What an asynchronous call returns, or throws. *)
Inductive Outcome :=
| Created (r : result FileError Stream)
| Appended (r : result FileError FileAppendReturn).

(** The calls that do not await. *)
Inductive Call :=
| CGet (p : string)
| CTouchAccess (p : string)
| CDelete (p : string)
| CCloseStream (p : string)
| CRead (p : string) (offset : option string)
| CFormatResponse (p : string) (ms : list StreamMessage).

Inductive Event :=
| DoCall (now : Z) (c : Call)
| CloseWithProducer (now : Z) (p producerId : string) (e seq : Z)
| BeginCreate (now : Z) (dirName p : string) (o : CreateOptions)
| BeginAppend (now : Z) (p : string) (data : bytes) (o : AppendOptions)
| Go (now : Z) (id : nat) (ok : bool)
| Restart (cut : string -> option nat).

(** ** Locks *)

(** The append a task is about, once it has its lock. *)
Definition append_of (t : Task) : option Append :=
  match t with
  | Opening _ | Initial _ => None
  | Writing a _ | Syncing a _ _ | Putting a _ _ => Some a
  end.

Definition creating_of (t : Task) : option Creating :=
  match t with
  | Opening c | Initial c => Some c
  | Writing _ after | Syncing _ after _ | Putting _ after _ => after
  end.

(** [streamAppendLocks.has(p)] *)
Definition append_locked (p : string) (ts : gmap nat Task) : bool :=
  existsb (fun kv => match append_of kv.2 with
                     | Some a => String.eqb (ap_path a) p
                     | None => false
                     end) (map_to_list ts).

(** [mutationTail] is pending. *)
Definition mutation_locked (ts : gmap nat Task) : bool :=
  existsb (fun kv => if creating_of kv.2 then true else false) (map_to_list ts).

Definition lockKey (p producerId : string) : string := p +:+ ":" +:+ producerId.

(** [producerLocks.has(lockKey)] *)
Definition producer_locked (p producerId : string) (ts : gmap nat Task) : bool :=
  existsb (fun kv => match append_of kv.2, creating_of kv.2 with
                     | Some a, None =>
                         truthy (ao_producerId (ap_options a)) &&
                         String.eqb (lockKey (ap_path a) (or_else (ao_producerId (ap_options a)) EmptyString))
                           (lockKey p producerId)
                     | _, _ => false
                     end) (map_to_list ts).

Section runs.
Context `{!JsonLib} `{!DateLib}.

Definition exec_call (now : Z) (c : Call) (d : Disk) : Disk :=
  match c with
  | CGet p => (get now p d).1
  | CTouchAccess p => touchAccess now p d
  | CDelete p => (delete_ now p d).1
  | CCloseStream p => (closeStream now p d).1
  | CRead p offset => (read now p offset d).1
  | CFormatResponse p ms => (formatResponse now p ms d).1
  end.

(** A new task, or the next stage of one. *)
Definition spawn (d : Disk) (t : Task) (st : FileStore) : FileStore :=
  mkFileStore d (<[nextTask st := t]> (tasks st)) (S (nextTask st)).
Definition become (d : Disk) (id : nat) (t : Task) (st : FileStore) : FileStore :=
  mkFileStore d (<[id := t]> (tasks st)) (nextTask st).
Definition done_ (d : Disk) (id : nat) (st : FileStore) : FileStore :=
  mkFileStore d (delete id (tasks st)) (nextTask st).

(** [create] once its file is open and its initial data is in. *)
Definition finish_create (id : nat) (c : Creating) (d : Disk) (st : FileStore)
    : FileStore * option Outcome :=
  let '(d, r) := create_finish c d in (done_ d id st, Some (Created r)).

Definition fail_create (id : nat) (c : Creating) (e : FileError) (d : Disk) (st : FileStore)
    : FileStore * option Outcome :=
  (done_ (rollback c d) id st, Some (Created (Err e))).

(** The write, the sync or the update of an append has failed. *)
Definition fail_append (id : nat) (after : option Creating) (st : FileStore)
    : FileStore * option Outcome :=
  match after with
  | Some c => fail_create id c IoError (disk st) st
  | None => (done_ (disk st) id st, Some (Appended (Err IoError)))
  end.

(** The next stage of a task. *)
Definition go (now : Z) (id : nat) (t : Task) (ok : bool) (st : FileStore)
    : FileStore * option Outcome :=
  let d := disk st in
  match t with
  | Opening c =>
      if ok then
        let d := create_opened c d in
        if has_initial_data c then (become d id (Initial c) st, None)
        else finish_create id c d st
      else fail_create id c IoError d st
  | Initial c =>
      if append_locked (cr_path c) (tasks st) then (st, None)
      else
        match append_begin now (cr_path c) (or_else (co_initialData (cr_options c)) [])
                (initial_options c) true d with
        | (d, Finished (Ok _)) => finish_create id c d st
        | (d, Finished (Err e)) => fail_create id c e d st
        | (d, InFlight a) => (become d id (Writing a (Some c)) st, None)
        end
  | Writing a after =>
      if ok then (become (append_written a d) id (Syncing a after now) st, None)
      else fail_append id after st
  | Syncing a after time =>
      if ok then (become (append_synced a d) id (Putting a after time) st, None)
      else fail_append id after st
  | Putting a after time =>
      if ok then
        let d := append_put a d in
        match after with
        | Some c => finish_create id c d st
        | None => (done_ d id st, Some (Appended (Ok (append_return time a))))
        end
      else fail_append id after st
  end.

Definition with_disk (d : Disk) (st : FileStore) : FileStore :=
  mkFileStore d (tasks st) (nextTask st).

Definition step (ev : Event) (st : FileStore) : FileStore * option Outcome :=
  match ev with
  | DoCall now c => (with_disk (exec_call now c (disk st)) st, None)
  | CloseWithProducer now p producerId e seq =>
      if producer_locked p producerId (tasks st) then (st, None)
      else (with_disk (closeStreamWithProducer now p producerId e seq (disk st)).1 st, None)
  | BeginCreate now dirName p o =>
      if mutation_locked (tasks st) then (st, None)
      else
        match create_begin now p dirName o (disk st) with
        | (d, Ok (inl s)) => (with_disk d st, Some (Created (Ok s)))
        | (d, Ok (inr c)) => (spawn d (Opening c) st, None)
        | (d, Err e) => (with_disk d st, Some (Created (Err e)))
        end
  | BeginAppend now p data o =>
      if append_locked p (tasks st) ||
         (truthy (ao_producerId o) &&
          producer_locked p (or_else (ao_producerId o) EmptyString) (tasks st))
      then (st, None)
      else
        match append_begin now p data o false (disk st) with
        | (d, Finished r) => (with_disk d st, Some (Appended r))
        | (d, InFlight a) => (spawn d (Writing a None) st, None)
        end
  | Go now id ok =>
      match tasks st !! id with
      | Some t => go now id t ok st
      | None => (st, None)
      end
  | Restart cut => (mkFileStore (recover (crash cut (disk st))) ∅ (nextTask st), None)
  end.

Fixpoint run (evs : list Event) (st : FileStore) : FileStore * list Outcome :=
  match evs with
  | [] => (st, [])
  | ev :: evs =>
      let '(st, o) := step ev st in
      let '(st, os) := run evs st in
      (st, match o with Some o => o :: os | None => os end)
  end.
End runs.

Definition empty_file_store : FileStore := mkFileStore empty_disk ∅ 0.
