(* ===== verification/FileAbstract.v ===== *)
(** * The streams on a disk

    [abstract] reads a disk as the map of streams of the in-memory store: the
    messages of a stream are the frames of its file up to the offset of its
    record.  [disk_ok] is the invariant that makes this sensible.  [keeps] says
    that a change of records leaves the files alone. *)

From S2P Require Import Prelude Offsets Producer Text Json Types JsonMode StreamStore StoreLemmas StoreSteps FileFrames FileStore FileRuns.
Local Open Scope js_scope.

(** ** Offsets as numbers *)

Lemma offset_byte_mk n : 0 <= n <= MAX_SAFE_INTEGER -> offset_byte (mk_offset n) = Some n.
Proof.
  intros Hn. pose proof (offset_parts_mk n Hn) as E. unfold offset_parts, offset_byte in *.
  destruct (split_on _ _) as [|r [|b l]]; cbn in *; congruence.
Qed.

Lemma offset_byte_wf o : wf_offset o -> offset_byte o = Some (position o).
Proof.
  intros Ho. rewrite (wf_offset_position o Ho) at 1. apply offset_byte_mk.
  by apply wf_offset_position_bound.
Qed.

(** ** The abstraction *)

(** Where the file of a stream begins. *)
Definition m_base (m : StreamMetadata) : string := or_else (m_forkOffset m) ZERO_OFFSET.

Definition own_messages (fs : gmap string File) (m : StreamMetadata) : list StreamMessage :=
  readMessagesFromSegmentFile (f_content <$> fs !! segment m) (Some (-1)) (base_byte m)
    (Some (offset_byte (m_currentOffset m))).

Definition as_stream (fs : gmap string File) (m : StreamMetadata) : Stream :=
  set_messages (own_messages fs m) (m_currentOffset m) (streamMetaToStream m).

Definition abstract (d : Disk) : gmap string Stream := as_stream (files d) <$> db d.

(** ** The invariant *)

(** The file of [m] holds [ds], which its offset is at the end of, and then
    [tail]. *)
Definition holds (fs : gmap string File) (m : StreamMetadata) (ds : list bytes) (tail : bytes) : Prop :=
  wf_offset (m_base m) /\ fits ds /\
  or_else (f_content <$> fs !! segment m) [] = frames ds ++ tail /\
  m_currentOffset m = mk_offset (position (m_base m) + Z.of_nat (length (frames ds))) /\
  position (m_base m) + Z.of_nat (length (frames ds ++ tail)) < MAX_SAFE_INTEGER.

(** No two streams share a file. *)
Definition distinct (d : Disk) : Prop :=
  forall p q m m', db d !! p = Some m -> db d !! q = Some m' -> segment m = segment m' -> p = q.

(** How many bytes of the file are not known to be on the disk. *)
Definition unsynced (fs : gmap string File) (m : StreamMetadata) : nat :=
  match fs !! segment m with
  | Some f => length (f_content f) - f_synced f
  | None => 0
  end.

(** [T p] says which tail the file of [p] may have, and how many bytes may be
    unsynced. *)
Record disk_ok (T : string -> bytes -> nat -> Prop) (d : Disk) : Prop := {
  ok_distinct : distinct d;
  ok_path : forall p m, db d !! p = Some m ->
    m_path m = p /\ (m_forkedFrom m = None -> m_forkOffset m = None);
  ok_holds : forall p m, db d !! p = Some m -> exists ds tail,
    holds (files d) m ds tail /\ T p tail (unsynced (files d) m);
}.

(** ** Lemmas on one stream *)

Lemma base_byte_wf m : wf_offset (m_base m) -> base_byte m = Some (position (m_base m)).
Proof.
  unfold base_byte, m_base. destruct (m_forkOffset m) as [fo|]; cbn; intros Ho.
  - destruct (String.eqb_spec fo EmptyString) as [->|]; [by destruct (wf_offset_position _ Ho)|].
    by apply offset_byte_wf.
  - done.
Qed.

Section holds.
Context (fs : gmap string File) (m : StreamMetadata) (ds : list bytes) (tail : bytes).
Hypothesis Hm : holds fs m ds tail.

Lemma holds_bounds :
  0 <= position (m_base m) /\
  position (m_base m) + Z.of_nat (length (frames ds)) <= MAX_SAFE_INTEGER.
Proof using All.
  destruct Hm as (Hb & _ & _ & _ & Hmax). rewrite length_app in Hmax.
  pose proof (wf_offset_position_bound _ Hb). lia.
Qed.

Lemma holds_current :
  wf_offset (m_currentOffset m) /\
  position (m_currentOffset m) = position (m_base m) + Z.of_nat (length (frames ds)).
Proof using All.
  destruct holds_bounds. destruct Hm as (_ & _ & _ & -> & _).
  split; [eexists; split; [|done]; lia|by apply position_mk_offset; lia].
Qed.

(** A read capped at or before the offset. *)
Lemma holds_read_capped s c :
  c <= position (m_currentOffset m) ->
  readMessagesFromSegmentFile (f_content <$> fs !! segment m) (Some s) (base_byte m) (Some (Some c)) =
  filter (fun x => s < ends x <= c) (file_messages (position (m_base m)) ds).
Proof using All.
  intros Hc. destruct holds_current as [_ Hp]. rewrite Hp in Hc. clear Hp.
  destruct holds_bounds as [Hb0 _]. destruct Hm as (Hb & Hds & Hf & _ & Hmax).
  rewrite base_byte_wf by done. destruct (fs !! segment m) as [f|]; cbn in Hf |- *.
  - rewrite Hf. by apply read_file_capped.
  - symmetry in Hf. apply app_nil in Hf as [Hf _]. destruct ds as [|d ds']; [done|].
    rewrite frames_cons in Hf. apply app_nil in Hf as [Hf _].
    apply (f_equal length) in Hf. rewrite length_frame in Hf. cbn in Hf. lia.
Qed.

Lemma holds_own : own_messages fs m = file_messages (position (m_base m)) ds.
Proof using All.
  destruct holds_current as [Hw Hp]. destruct holds_bounds. unfold own_messages.
  rewrite offset_byte_wf, holds_read_capped by (done || lia).
  apply filter_true_id, list.Forall_forall. intros x Hx.
  apply file_messages_ends in Hx; lia.
Qed.

Lemma holds_stream_ok : stream_ok (as_stream fs m).
Proof using All.
  destruct holds_bounds. destruct Hm as (Hb & _ & _ & Hc & _).
  split; [done|]. change (base (as_stream fs m)) with (m_base m).
  cbn [as_stream set_messages messages currentOffset]. rewrite holds_own, Hc.
  rewrite (wf_offset_position _ Hb) at 1. apply file_messages_chain; lia.
Qed.
End holds.

(** What [as_stream] looks at. *)
Definition same_file (m m' : StreamMetadata) : Prop :=
  m_path m' = m_path m /\ m_directoryName m' = m_directoryName m /\
  m_currentOffset m' = m_currentOffset m /\ m_forkedFrom m' = m_forkedFrom m /\
  m_forkOffset m' = m_forkOffset m.

#[export] Instance same_file_preorder : PreOrder same_file.
Proof. split; [by intros m|]. unfold same_file. intros a b c. naive_solver congruence. Qed.

Lemma same_file_segment m m' : same_file m m' -> segment m' = segment m.
Proof. unfold segment. by intros (_ & -> & _). Qed.

Lemma own_messages_ext fs fs' m m' :
  same_file m m' -> fs' !! segment m = fs !! segment m -> own_messages fs' m' = own_messages fs m.
Proof.
  intros Hs Hf. pose proof (same_file_segment _ _ Hs) as E. destruct Hs as (_ & _ & Hc & _ & Hfo).
  unfold own_messages, base_byte. by rewrite E, Hf, Hc, Hfo.
Qed.

Lemma holds_ext fs fs' m m' ds tail :
  same_file m m' -> fs' !! segment m = fs !! segment m -> holds fs m ds tail -> holds fs' m' ds tail.
Proof.
  intros Hs Hf. pose proof (same_file_segment _ _ Hs) as E. destruct Hs as (_ & _ & Hc & _ & Hfo).
  unfold holds, m_base. by rewrite E, Hf, Hc, Hfo.
Qed.

Lemma unsynced_ext fs fs' m m' :
  same_file m m' -> fs' !! segment m = fs !! segment m -> unsynced fs' m' = unsynced fs m.
Proof. intros Hs Hf. unfold unsynced. by rewrite (same_file_segment _ _ Hs), Hf. Qed.

Lemma as_stream_ext fs fs' m : fs' !! segment m = fs !! segment m -> as_stream fs' m = as_stream fs m.
Proof. intros Hf. unfold as_stream. by rewrite (own_messages_ext fs fs' m m). Qed.

(** Changes of a record that are bookkeeping for the stream. *)
Definition meta_bookkeeping (m m' : StreamMetadata) : Prop :=
  same_file m m' /\ m_refCount m' = m_refCount m /\
  (m_closed m = true -> m_closed m' = true) /\ (m_softDeleted m = true -> m_softDeleted m' = true) /\
  (m_softDeleted m' = true -> m_softDeleted m = true \/ 0 < m_refCount m).

Lemma as_stream_bookkeeping fs m m' :
  meta_bookkeeping m m' -> bookkeeping (as_stream fs m) (as_stream fs m').
Proof.
  intros (Hs & Hr & Hc & Hd & Hd'). pose proof (own_messages_ext fs fs m m' Hs eq_refl).
  destruct Hs as (? & ? & ? & ? & ?). unfold bookkeeping. cbn. by split_and!.
Qed.

(** ** Lemmas on disks *)

(** Every record of [d'] comes from [d], with its file. *)
Definition keeps (d d' : Disk) : Prop :=
  forall p m', db d' !! p = Some m' -> exists m, db d !! p = Some m /\ same_file m m' /\
    files d' !! segment m = files d !! segment m.

#[export] Instance keeps_preorder : PreOrder keeps.
Proof.
  split.
  - intros d p m Hm. exists m. by split_and!.
  - intros a b c Hab Hbc p m Hm. destruct (Hbc p m Hm) as (m1 & H1 & Hs1 & Hf1).
    destruct (Hab p m1 H1) as (m2 & H2 & Hs2 & Hf2). exists m2. split_and!; [done|by etrans|].
    by rewrite <-(same_file_segment _ _ Hs2), Hf1, (same_file_segment _ _ Hs2).
Qed.

Lemma keeps_ok T d d' : keeps d d' -> disk_ok T d -> disk_ok T d'.
Proof.
  intros Hk [Hd Hp Hh]. split.
  - intros p q m m' Hm Hm' E. destruct (Hk p m Hm) as (m1 & H1 & Hs1 & _).
    destruct (Hk q m' Hm') as (m2 & H2 & Hs2 & _).
    apply (Hd p q m1 m2 H1 H2). by rewrite <-(same_file_segment _ _ Hs1), <-(same_file_segment _ _ Hs2).
  - intros p m Hm. destruct (Hk p m Hm) as (m1 & H1 & (-> & _ & _ & -> & ->) & _). by apply Hp.
  - intros p m Hm. destruct (Hk p m Hm) as (m1 & H1 & Hs1 & Hf1).
    destruct (Hh p m1 H1) as (ds & tail & Hh1 & HT). exists ds, tail.
    rewrite (unsynced_ext (files d) _ m1) by done. split; [|done]. by eapply holds_ext.
Qed.

Lemma disk_ok_weaken (T T' : string -> bytes -> nat -> Prop) d :
  (forall p m tail u, db d !! p = Some m -> T p tail u -> T' p tail u) -> disk_ok T d -> disk_ok T' d.
Proof.
  intros HT [Hd Hp Hh]. split; [done..|]. intros p m Hm.
  destruct (Hh p m Hm) as (ds & tail & ? & ?). eauto.
Qed.

Lemma lookup_abstract d p : abstract d !! p = as_stream (files d) <$> db d !! p.
Proof. apply lookup_fmap. Qed.

Lemma abstract_put p m d : abstract (put p m d) = <[p := as_stream (files d) m]> (abstract d).
Proof. apply fmap_insert. Qed.

Lemma size_abstract d : size (abstract d) = size (db d).
Proof. apply map_size_fmap. Qed.

(** Files that no record names do not matter. *)
Lemma abstract_files ms fs fs' :
  (forall p m, ms !! p = Some m -> fs' !! segment m = fs !! segment m) ->
  abstract (mkDisk ms fs') = abstract (mkDisk ms fs).
Proof.
  intros Hf. apply map_eq. intros p. rewrite !lookup_abstract. cbn.
  destruct (ms !! p) as [m|] eqn:Hm; [|done]. cbn. f_equal. apply as_stream_ext. by eapply Hf.
Qed.

Lemma keeps_put p m m' d : db d !! p = Some m -> same_file m m' -> keeps d (put p m' d).
Proof.
  intros Hm Hs i x. cbn. rewrite lookup_insert. case_decide as Hi.
  - intros [= <-]. subst i. by exists m.
  - intros Hx. by exists x.
Qed.

(** One record's bookkeeping. *)
Lemma put_step fresh p m m' d :
  db d !! p = Some m -> meta_bookkeeping m m' ->
  keeps d (put p m' d) /\ steps true fresh (abstract d) (abstract (put p m' d)).
Proof.
  intros Hm Hb. split; [eapply keeps_put; [done|apply Hb]|].
  rewrite abstract_put. apply rtc_once. apply step_book with (s := as_stream (files d) m).
  - by rewrite lookup_abstract, Hm.
  - by apply as_stream_bookkeeping.
Qed.

(** The record and the file of a stream go together. *)
Lemma remove_stream p m d :
  distinct d -> db d !! p = Some m ->
  let d' := upd_files (delete (segment m)) (upd_db (delete p) d) in
  keeps d d' /\ abstract d' = delete p (abstract d).
Proof.
  intros Hd Hm d'.
  assert (Hf : forall q x, db d' !! q = Some x -> files d' !! segment x = files d !! segment x).
  { intros q x Hx. unfold d' in Hx. cbn in Hx. apply lookup_delete_Some in Hx as [Hq Hx].
    apply lookup_delete_ne.
    intros E. apply Hq. eapply (Hd p q); eauto. }
  split.
  - intros q x Hx. pose proof (Hf q x Hx). unfold d' in Hx. cbn in Hx.
    apply lookup_delete_Some in Hx as [_ Hx]. by exists x.
  - unfold d', upd_files, upd_db. cbn [db files].
    rewrite (abstract_files _ (files d)) by (intros q x Hx; by apply (Hf q)).
    unfold abstract. cbn. apply fmap_delete.
Qed.

Lemma distinct_keeps d d' : keeps d d' -> distinct d -> distinct d'.
Proof.
  intros Hk Hd p q m m' Hm Hm' E. destruct (Hk p m Hm) as (m1 & H1 & Hs1 & _).
  destruct (Hk q m' Hm') as (m2 & H2 & Hs2 & _).
  apply (Hd p q m1 m2 H1 H2). by rewrite <-(same_file_segment _ _ Hs1), <-(same_file_segment _ _ Hs2).
Qed.

Lemma same_file_refCount n m : same_file m (with_refCount n m).
Proof. by split_and!. Qed.

(** When nobody waits, it does not matter what has expired. *)
Lemma all_polls_none d : all_polls (fun _ => 0%nat) d = 0%nat.
Proof. unfold all_polls. by induction (map_to_list (db d)).*1. Qed.

Lemma cascade_fuel_no_polls expired fuel p d :
  deleteWithCascade_fuel expired (fun _ => 0%nat) fuel p 0 d =
  deleteWithCascade_fuel (fun _ => false) (fun _ => 0%nat) fuel p 0 d.
Proof.
  revert p d. induction fuel as [|fuel IH]; intros p d; [done|]. cbn [deleteWithCascade_fuel].
  destruct (db d !! p) as [m|]; [|done]. unfold remove_record. cbn zeta.
  destruct (truthy _); [|done]. destruct (db _ !! _) as [parent|]; [|done]. by destruct (_ && _); [apply IH|].
Qed.

Lemma deleteWithCascade_collect `{!DateLib} now p d : deleteWithCascade now p d = collect p d.
Proof. unfold deleteWithCascade, collect, cascade_from. apply cascade_fuel_no_polls. Qed.

Lemma cascade_fuel_abstract fuel p d :
  distinct d ->
  let d' := deleteWithCascade_fuel (fun _ => false) (fun _ => 0%nat) fuel p 0 d in
  keeps d d' /\ abstract d' = cascade_fuel fuel p (abstract d).
Proof.
  revert p d. induction fuel as [|fuel IH]; intros p d Hd; [done|].
  cbn [deleteWithCascade_fuel cascade_fuel]. rewrite lookup_abstract.
  destruct (db d !! p) as [m|] eqn:Hm; cbn [fmap option_fmap option_map]; [|done].
  destruct (remove_stream p m d Hd Hm) as [Hk Ha]. unfold remove_record.
  set (d1 := upd_files (delete (segment m)) (upd_db (delete p) d)) in *. cbn zeta.
  rewrite <-Ha. change (forkedFrom (as_stream (files d) m)) with (m_forkedFrom m).
  destruct (truthy (m_forkedFrom m)); [|done].
  set (q := or_else (m_forkedFrom m) EmptyString). rewrite lookup_abstract.
  destruct (db d1 !! q) as [parent|] eqn:Hq; cbn [fmap option_fmap option_map]; [|done].
  change (refCount (as_stream (files d1) parent)) with (m_refCount parent).
  change (softDeleted (as_stream (files d1) parent)) with (m_softDeleted parent).
  set (refs := Z.max 0 (m_refCount parent - 1)).
  assert (Hput : abstract (put q (with_refCount refs parent) d1) =
                 alter (set_refCount refs) q (abstract d1)).
  { rewrite abstract_put. rewrite (alter_alt_Some _ _ _ (as_stream (files d1) parent));
      [done|]. by rewrite lookup_abstract, Hq. }
  assert (Hk2 : keeps d (put q (with_refCount refs parent) d1)).
  { etrans; [exact Hk|]. eapply keeps_put; [done|apply same_file_refCount]. }
  destruct (_ && _).
  - destruct (IH q (put q (with_refCount refs parent) d1)) as [Hk3 Ha3].
    { by eapply distinct_keeps. }
    split; [by etrans|]. by rewrite Ha3, Hput.
  - by rewrite Hput.
Qed.

Lemma collect_abstract p d :
  distinct d ->
  keeps d (collect p d) /\ abstract (collect p d) = cascade p (abstract d).
Proof.
  intros Hd. unfold collect, cascade_from, cascade. rewrite size_abstract, all_polls_none, Nat.add_0_r.
  by apply cascade_fuel_abstract.
Qed.

(** * The synchronous methods of the file-backed store refine the abstract store

    Each method leaves the files of the streams that remain alone ([keeps]) and
    is, on [abstract], a sequence of steps of the abstract store of StoreSteps. *)

(** ** A change of records that the abstract store allows *)

Definition refines (fresh : option string) (d d' : Disk) : Prop :=
  keeps d d' /\ steps true fresh (abstract d) (abstract d').

#[export] Instance refines_preorder fresh : PreOrder (refines fresh).
Proof.
  split.
  - intros d. split; [done|apply rtc_refl].
  - intros a b c [Hk1 Hs1] [Hk2 Hs2]. split; [by etrans|]. unfold steps in *. by etrans.
Qed.

Section store.
Context `{!JsonLib} `{!DateLib}.
Context (now : Z) (fresh : option string).

Lemma refines_put p m m' d :
  db d !! p = Some m -> meta_bookkeeping m m' -> refines fresh d (put p m' d).
Proof. apply put_step. Qed.

Lemma refines_cascade p m d :
  distinct d -> db d !! p = Some m -> m_refCount m <= 0 -> refines fresh d (collect p d).
Proof.
  intros Hd Hm Hr. destruct (collect_abstract p d Hd) as [Hk Ha]. split; [done|].
  rewrite Ha. apply rtc_once. apply step_collect with (s := as_stream (files d) m); [|done].
  by rewrite lookup_abstract, Hm.
Qed.

Lemma refines_softDelete p m d :
  db d !! p = Some m -> 0 < m_refCount m -> refines fresh d (put p (with_softDeleted true m) d).
Proof.
  intros Hm Hr. apply (refines_put p m); [done|]. unfold meta_bookkeeping. cbn.
  split_and!; [by split_and!|done|done|done|]. by right.
Qed.

Lemma refines_delete p d : distinct d -> refines fresh d (delete_ now p d).1.
Proof.
  intros Hd. unfold delete_. destruct (db d !! p) as [m|] eqn:Hm; [|done].
  destruct (m_softDeleted m); [done|]. destruct (Z.ltb_spec 0 (m_refCount m)); cbn [fst].
  - by apply refines_softDelete.
  - rewrite deleteWithCascade_collect. by eapply refines_cascade.
Qed.

(** [getMetaIfNotExpired]; a record that is not soft-deleted is as it was. *)
Lemma getMeta_spec p d d' r :
  getMetaIfNotExpired now p d = (d', r) -> distinct d ->
  refines fresh d d' /\
  forall m, r = Some m -> db d' !! p = Some m /\
    (m_softDeleted m = false -> d' = d /\ isExpired now m = false).
Proof.
  unfold getMetaIfNotExpired. intros He0 Hd. destruct (db d !! p) as [m|] eqn:Hm; cycle 1.
  { injection He0 as <- <-. by split. }
  destruct (isExpired now m) eqn:He; cycle 1.
  { injection He0 as <- <-. split; [done|]. intros x [= <-]. done. }
  destruct (Z.ltb_spec 0 (m_refCount m)).
  - destruct (m_softDeleted m) eqn:Hs; cbn in He0; injection He0 as <- <-.
    + split; [done|]. intros x [= <-]. rewrite Hs. done.
    + split; [by apply refines_softDelete|]. intros x [= <-]. cbn. by rewrite lookup_insert_eq.
  - injection He0 as <- <-. split; [by apply refines_delete|done].
Qed.

Lemma refines_getMeta p d : distinct d -> refines fresh d (getMetaIfNotExpired now p d).1.
Proof.
  intros Hd. destruct (getMetaIfNotExpired now p d) as [d' r] eqn:He0. by apply getMeta_spec in He0 as [].
Qed.

Lemma refines_touchAccess p d : refines fresh d (touchAccess now p d).
Proof.
  unfold touchAccess. destruct (db d !! p) as [m|] eqn:Hm; [|done].
  apply (refines_put p m); [done|]. by split_and!; auto.
Qed.

Lemma refines_closeStream p d : distinct d -> refines fresh d (closeStream now p d).1.
Proof.
  intros Hd. unfold closeStream. destruct (getMetaIfNotExpired now p d) as [d' r] eqn:He0.
  apply getMeta_spec in He0 as [Hr Hm]; [|done]. destruct r as [m|]; [|done]. cbn.
  destruct (Hm m eq_refl) as [Hm' _]. etrans; [exact Hr|].
  apply (refines_put p m); [done|]. by split_and!; auto.
Qed.

Lemma refines_closeWithProducer p id e seq d :
  distinct d -> refines fresh d (closeStreamWithProducer now p id e seq d).1.
Proof.
  intros Hd. unfold closeStreamWithProducer. destruct (getMetaIfNotExpired now p d) as [d' r] eqn:He0.
  apply getMeta_spec in He0 as [Hr Hm]; [|done]. destruct r as [m|]; [|done].
  destruct (Hm m eq_refl) as [Hm' _]. destruct (m_closed m).
  { by destruct (same_closer _ _ _ _). }
  destruct (negb _); [done|]. cbn. etrans; [exact Hr|].
  apply (refines_put p m); [done|]. by split_and!; auto.
Qed.

Lemma refines_call c d : distinct d -> refines fresh d (exec_call now c d).
Proof.
  intros Hd. destruct c as [p|p|p|p|p off|p ms]; cbn [exec_call].
  - pose proof (refines_getMeta p d Hd). unfold get. by destruct (getMetaIfNotExpired now p d).
  - apply refines_touchAccess.
  - by apply refines_delete.
  - by apply refines_closeStream.
  - pose proof (refines_getMeta p d Hd). unfold read.
    by destruct (getMetaIfNotExpired now p d) as [d' [m|]].
  - pose proof (refines_getMeta p d Hd). unfold formatResponse.
    destruct (getMetaIfNotExpired now p d) as [d' [m|]]; [|done].
    by destruct (String.eqb _ _).
Qed.

(** ** The beginning of an append *)

(** What an append in flight has found out. *)
Definition append_ok (a : Append) : Prop :=
  m_softDeleted (ap_meta a) = false /\ m_closed (ap_meta a) = false /\
  ap_offset a = next_offset (m_currentOffset (ap_meta a)) (Z.of_nat (length (ap_data a))) /\
  Z.of_nat (length (ap_data a)) < 2 ^ 32 /\
  position (m_currentOffset (ap_meta a)) + FRAME_OVERHEAD + Z.of_nat (length (ap_data a))
    < MAX_SAFE_INTEGER.

(** The append does not outgrow the safe integers. *)
Definition file_room (m : StreamMetadata) (data : bytes) (init : bool) : Prop :=
  match processed m data init with
  | Ok (Some b) =>
      position (m_currentOffset m) + FRAME_OVERHEAD + Z.of_nat (length b) < MAX_SAFE_INTEGER
  | _ => True
  end.

#[export] Instance file_room_dec m data init : Decision (file_room m data init).
Proof. unfold file_room. repeat case_match; apply _. Defined.

Lemma keeps_open_file name d :
  (forall p m, db d !! p = Some m -> segment m = name -> False) -> keeps d (open_file name d).
Proof.
  intros Hn p m Hm. exists m. split_and!; [done..|]. cbn. destruct (files d !! name) eqn:E; [done|].
  rewrite lookup_insert_ne; [done|]. intros E'. by apply (Hn p m Hm).
Qed.

Lemma open_file_spec name d m :
  segment m = name -> is_Some (files (open_file name d) !! segment m) /\
  or_else (f_content <$> files (open_file name d) !! segment m) [] =
  or_else (f_content <$> files d !! segment m) [].
Proof.
  intros <-. unfold open_file, upd_files. cbn [files].
  destruct (files d !! segment m) as [f|] eqn:E.
  - rewrite E. by split; [eexists|].
  - rewrite lookup_insert_eq. by split; [eexists|].
Qed.

Lemma append_begin_spec p data o init d d' r :
  append_begin now p data o init d = (d', r) -> distinct d ->
  (forall m, db d !! p = Some m -> file_room m data init) ->
  exists d1, refines fresh d d1 /\
    match r with
    | Finished _ =>
        d' = d1 \/ exists m, db d1 !! p = Some m /\ d' = open_file (segment m) d1
    | InFlight a =>
        d1 = d /\ db d !! p = Some (ap_meta a) /\ d' = open_file (segment (ap_meta a)) d /\
        ap_path a = p /\ append_ok a
    end.
Proof.
  unfold append_begin. intros He0 Hd Hroom.
  destruct (getMetaIfNotExpired now p d) as [d1 r1] eqn:Hg.
  apply getMeta_spec in Hg as [Hr Hm]; [|done]. exists d1. split; [done|].
  destruct r1 as [m|]; [|injection He0 as <- <-; by left].
  destruct (Hm m eq_refl) as [Hm1 Hlive].
  destruct (m_softDeleted m) eqn:Hs; [injection He0 as <- <-; by left|].
  destruct (m_closed m) eqn:Hc.
  { destruct (_ && _) in He0; injection He0 as <- <-; by left. }
  destruct (_ && _) in He0; [injection He0 as <- <-; by left|].
  destruct (match validate_options now m o with Some v => _ | None => _ end) in He0;
    [injection He0 as <- <-; by left|].
  destruct (seq_conflict m o); [injection He0 as <- <-; by left|].
  destruct (processed m data init) as [[b|]|e] eqn:Hp; [|injection He0 as <- <-; by left..].
  destruct (Z.leb_spec (2 ^ 32) (Z.of_nat (length b))); injection He0 as <- <-; [right; by eauto|].
  destruct (Hlive eq_refl) as [-> _]. cbn. split_and!; try done.
  unfold append_ok. cbn. split_and!; try done.
  specialize (Hroom m Hm1). unfold file_room in Hroom. by rewrite Hp in Hroom.
Qed.
End store.
