(* ===== verification/FileInvariant.v ===== *)
(** * The invariant of the file-backed store

    [runs_ok] is the invariant of the machine of FileRuns: the disk is that of
    a well-formed store of StoreSteps, and a file goes on after the offset of its
    record only with the frame of the append in flight on it.  [calm] is what the
    code takes for granted: while a call awaits, nobody changes the record that
    it is going to write back, except for the time of the last access
    (FileScenarios shows what happens otherwise). *)

From S2P Require Import Prelude Offsets Producer Text Json Types JsonMode StreamStore StoreLemmas StoreSteps StoreGraph StoreTheorems FileFrames FileStore FileRuns FileAbstract.
Local Open Scope js_scope.

(** ** Calm *)

Definition same_but_access (m m' : StreamMetadata) : Prop :=
  with_lastAccessedAt 0 m = with_lastAccessedAt 0 m'.

#[export] Instance ClosedBy_eq_dec : EqDecision ClosedBy.
Proof. solve_decision. Defined.

#[export] Instance StreamMetadata_eq_dec : EqDecision StreamMetadata.
Proof. solve_decision. Defined.

(** What a task relies on while it waits. *)
Definition undisturbed (d : Disk) (t : Task) : Prop :=
  match t with
  | Opening c | Initial c =>
      match db d !! cr_path c with
      | Some m => same_but_access m (cr_meta c)
      | None => False
      end
  | Writing a _ | Syncing a _ _ | Putting a _ _ =>
      match db d !! ap_path a with
      | Some m => same_but_access m (ap_meta a)
      | None => False
      end
  end /\
  match creating_of t with
  | Some c =>
      match m_forkedFrom (cr_meta c) with
      | Some q =>
          match db d !! q with
          | Some src => m_softDeleted src = false
          | None => False
          end
      | None => True
      end
  | None => True
  end.

#[export] Instance undisturbed_dec d t : Decision (undisturbed d t).
Proof. unfold undisturbed, same_but_access. repeat case_match; apply _. Defined.

Definition calm (st : FileStore) : Prop :=
  map_Forall (fun _ t => undisturbed (disk st) t) (tasks st).

(** ** The invariant *)

(** The append whose frame is in the file, and how much of it may be unsynced. *)
Definition written (t : Task) : option (Append * nat) :=
  match t with
  | Syncing a _ _ => Some (a, length (frame (ap_data a)))
  | Putting a _ _ => Some (a, 0%nat)
  | _ => None
  end.

Definition in_file (ts : gmap nat Task) (ab : Append * nat) : Prop :=
  exists id t, ts !! id = Some t /\ written t = Some ab.

(** What may follow the messages in the file of [p], and be unsynced. *)
Definition tail_of (ts : gmap nat Task) (p : string) (tail : bytes) (u : nat) : Prop :=
  (tail = [] /\ u = 0%nat /\ forall ab, in_file ts ab -> ap_path ab.1 <> p) \/
  exists ab, in_file ts ab /\ ap_path ab.1 = p /\ tail = frame (ap_data ab.1) /\ (u <= ab.2)%nat.

Definition creating_ok (c : Creating) : Prop :=
  m_refCount (cr_meta c) = 0 /\ m_forkedFrom (cr_meta c) <> Some EmptyString.

Record task_ok (t : Task) : Prop := {
  task_append : forall a, append_of t = Some a -> append_ok a;
  task_creating : forall c, creating_of t = Some c -> creating_ok c;
}.

Record runs_ok (st : FileStore) : Prop := {
  r_disk : disk_ok (tail_of (tasks st)) (disk st);
  r_store : store_ok (abstract (disk st));
  r_soft : soft_ok (abstract (disk st));
  r_task : forall id t, tasks st !! id = Some t -> task_ok t;
  r_calm : calm st;
  r_files : forall id t a, tasks st !! id = Some t -> append_of t = Some a ->
    is_Some (files (disk st) !! segment (ap_meta a));
  r_unique : forall i j t u a b, tasks st !! i = Some t -> tasks st !! j = Some u ->
    append_of t = Some a -> append_of u = Some b -> ap_path a = ap_path b -> i = j;
  r_next : forall id, (nextTask st <= id)%nat -> tasks st !! id = None;
}.

(** ** Records and files that survive *)

Definition grows (d d' : Disk) : Prop :=
  forall p m', db d' !! p = Some m' ->
    (exists m, db d !! p = Some m /\ segment m' = segment m /\
       (is_Some (files d !! segment m) -> is_Some (files d' !! segment m))) \/
    forall q m, db d !! q = Some m -> segment m <> segment m'.

Lemma keeps_grows d d' : keeps d d' -> grows d d'.
Proof.
  intros Hk p m' Hm. destruct (Hk p m' Hm) as (m & H1 & Hs & Hf). left. exists m.
  split_and!; [done|by apply same_file_segment|by rewrite Hf].
Qed.

Lemma grows_refl d : grows d d.
Proof. by apply keeps_grows. Qed.

Lemma same_but_access_file m m' : same_but_access m m' -> same_file m m'.
Proof. unfold same_but_access, with_lastAccessedAt. intros [= ]. by split_and!. Qed.

Lemma same_but_access_segment m m' : same_but_access m m' -> segment m = segment m'.
Proof. intros H. symmetry. by apply same_file_segment, same_but_access_file. Qed.

Lemma undisturbed_append d t a :
  undisturbed d t -> append_of t = Some a ->
  exists m, db d !! ap_path a = Some m /\ same_but_access m (ap_meta a).
Proof.
  intros [Hu _] Ha. destruct t; cbn in Ha; try done; injection Ha as ->;
    (destruct (db d !! ap_path a) as [m|]; [|done]); by exists m.
Qed.

Lemma files_grow d d' t a :
  grows d d' -> undisturbed d t -> undisturbed d' t -> append_of t = Some a ->
  is_Some (files d !! segment (ap_meta a)) -> is_Some (files d' !! segment (ap_meta a)).
Proof.
  intros Hg Hu Hu' Ha Hf. destruct (undisturbed_append d t a Hu Ha) as (m & Hm & Hs).
  destruct (undisturbed_append d' t a Hu' Ha) as (m' & Hm' & Hs').
  apply same_but_access_segment in Hs, Hs'.
  destruct (Hg _ _ Hm') as [(m0 & H0 & E & Hi)|Hno].
  - rewrite <-Hs', E. apply Hi. by rewrite <-E, Hs'.
  - exfalso. apply (Hno _ _ Hm). congruence.
Qed.

(** ** Changes of files *)

Lemma or_else_content fs fs' m :
  f_content <$> fs' !! segment m = f_content <$> fs !! segment m ->
  own_messages fs' m = own_messages fs m.
Proof. intros H. unfold own_messages. by rewrite H. Qed.

(** A file that is missing reads like an empty one. *)
Lemma own_messages_missing fs fs' m :
  or_else (f_content <$> fs' !! segment m) [] = or_else (f_content <$> fs !! segment m) [] ->
  own_messages fs' m = own_messages fs m.
Proof.
  unfold own_messages. destruct (fs !! segment m) as [f|], (fs' !! segment m) as [f'|];
    cbn [fmap option_fmap option_map or_else]; intros H; by rewrite <-?H || by rewrite ?H.
Qed.

Definition same_contents (d d' : Disk) : Prop :=
  db d' = db d /\ forall p m, db d !! p = Some m ->
    or_else (f_content <$> files d' !! segment m) [] =
    or_else (f_content <$> files d !! segment m) [] /\
    unsynced (files d') m = unsynced (files d) m.

Lemma same_contents_abstract d d' : same_contents d d' -> abstract d' = abstract d.
Proof.
  intros [Hdb Hf]. apply map_eq. intros p. rewrite !lookup_abstract, Hdb.
  destruct (db d !! p) as [m|] eqn:Hm; [|done]. cbn. f_equal. unfold as_stream.
  rewrite (own_messages_missing (files d)); [done|]. by eapply Hf.
Qed.

Lemma same_contents_ok T d d' : same_contents d d' -> disk_ok T d -> disk_ok T d'.
Proof.
  intros [Hdb Hf] [Hd Hp Hh]. split.
  - intros p q m m'. rewrite Hdb. apply Hd.
  - intros p m. rewrite Hdb. apply Hp.
  - intros p m. rewrite Hdb. intros Hm. destruct (Hh p m Hm) as (ds & tail & (? & ? & Hc & ? & ?) & HT).
    exists ds, tail. destruct (Hf p m Hm) as [Hf1 Hf2]. rewrite Hf2. split; [|done].
    split_and!; [done|done| |done|done]. by rewrite <-Hc.
Qed.

Lemma same_contents_open name d : same_contents d (open_file name d).
Proof.
  split; [done|]. intros p m _. unfold unsynced. destruct (decide (segment m = name)) as [E|Hne].
  - split; [by apply open_file_spec|]. subst name. cbn.
    destruct (files d !! segment m) as [f|] eqn:E; [by rewrite E|by rewrite lookup_insert_eq].
  - cbn. destruct (files d !! name); [done|]. by rewrite lookup_insert_ne by done.
Qed.

(** The records are the same, and no file is gone. *)
Definition survives (d d' : Disk) : Prop :=
  forall p m', db d' !! p = Some m' ->
    exists m, db d !! p = Some m /\ segment m' = segment m /\
      (is_Some (files d !! segment m) -> is_Some (files d' !! segment m)).

#[export] Instance survives_preorder : PreOrder survives.
Proof.
  split.
  - intros d p m Hm. by exists m.
  - intros a b c Hab Hbc p m Hm. destruct (Hbc p m Hm) as (m1 & H1 & E1 & F1).
    destruct (Hab p m1 H1) as (m2 & H2 & E2 & F2). exists m2. rewrite E2 in E1, F1. auto.
Qed.

Lemma survives_keeps d d' : keeps d d' -> survives d d'.
Proof.
  intros Hk p m' Hm. destruct (Hk p m' Hm) as (m & H1 & Hs & Hf). exists m.
  split_and!; [done|by apply same_file_segment|by rewrite Hf].
Qed.

Lemma survives_grows d d' : survives d d' -> grows d d'.
Proof. intros Hs p m Hm. left. by apply Hs. Qed.

Lemma survives_open name d : survives d (open_file name d).
Proof.
  intros p m Hm. exists m. split_and!; [done..|]. intros Hi. cbn. destruct (files d !! name); [done|].
  rewrite lookup_insert. by case_decide.
Qed.

Lemma survives_alter f name d : survives d (upd_files (alter f name) d).
Proof.
  intros p m Hm. exists m. split_and!; [done..|]. intros Hi. cbn. by apply lookup_alter_is_Some.
Qed.

Lemma synced_content a d x :
  or_else (f_content <$> files (append_synced a d) !! segment x) [] =
  or_else (f_content <$> files d !! segment x) [].
Proof.
  cbn. rewrite lookup_alter. case_decide as E; [|done].
  rewrite <-E. by destruct (files d !! segment (ap_meta a)).
Qed.

(** The frame of an append is written at the end of the file of its stream. *)
Section written.
Context (T : string -> bytes -> nat -> Prop) (a : Append) (m : StreamMetadata) (d : Disk).
Hypothesis Hd : disk_ok T d.
Hypothesis Ha : append_ok a.
Hypothesis Hm : db d !! ap_path a = Some m.
Hypothesis Hs : same_but_access m (ap_meta a).
Hypothesis Hf : is_Some (files d !! segment (ap_meta a)).

(** The record as it is and as the append found it agree on the file. *)
Lemma found_current : m_currentOffset m = m_currentOffset (ap_meta a).
Proof using Hs. by destruct (same_but_access_file _ _ Hs) as (_ & _ & -> & _). Qed.

Lemma written_other p x :
  db d !! p = Some x -> p <> ap_path a -> files (append_written a d) !! segment x = files d !! segment x.
Proof using Hd Hm Hs.
  intros Hx Hne. cbn. apply lookup_alter_ne. intros E. apply Hne.
  apply (ok_distinct _ _ Hd p (ap_path a) x m Hx Hm).
  rewrite (same_but_access_segment _ _ Hs). congruence.
Qed.

Lemma written_content :
  or_else (f_content <$> files (append_written a d) !! segment m) [] =
  or_else (f_content <$> files d !! segment m) [] ++ frame (ap_data a).
Proof using Hf Hs.
  rewrite (same_but_access_segment _ _ Hs). cbn. rewrite lookup_alter_eq.
  destruct Hf as [f ->]. done.
Qed.

Lemma written_holds ds :
  holds (files d) m ds [] -> holds (files (append_written a d)) m ds (frame (ap_data a)).
Proof using All.
  intros Hh. destruct (holds_current _ _ _ _ Hh) as [_ Hp].
  destruct Hh as (Hb & Hds & Hc & Ho & Hmax). rewrite app_nil_r in *.
  split_and!; [done|done|by rewrite written_content, Hc|done|].
  destruct Ha as (_ & _ & _ & _ & Hr). rewrite <-found_current, Hp in Hr.
  rewrite length_app, length_frame. unfold FRAME_OVERHEAD in Hr. lia.
Qed.

Lemma written_abstract ds :
  holds (files d) m ds [] -> abstract (append_written a d) = abstract d.
Proof using All.
  intros Hh. apply map_eq. intros p. rewrite !lookup_abstract.
  change (db (append_written a d)) with (db d).
  destruct (db d !! p) as [x|] eqn:Hx; [|done]. cbn [fmap option_fmap option_map]. f_equal.
  destruct (decide (p = ap_path a)) as [->|Hne].
  - assert (x = m) as -> by congruence. unfold as_stream.
    by rewrite (holds_own _ _ _ _ (written_holds ds Hh)), (holds_own _ _ _ _ Hh).
  - by apply as_stream_ext, (written_other p).
Qed.

Lemma written_ok (T' : string -> bytes -> nat -> Prop) :
  (forall tail u, T (ap_path a) tail u -> tail = [] /\ u = 0%nat) ->
  (forall u, (u <= length (frame (ap_data a)))%nat -> T' (ap_path a) (frame (ap_data a)) u) ->
  (forall p tail u, p <> ap_path a -> T p tail u -> T' p tail u) ->
  disk_ok T' (append_written a d) /\ abstract (append_written a d) = abstract d.
Proof using All.
  intros HT HT' Hother. destruct (ok_holds _ _ Hd _ _ Hm) as (ds & tail & Hh & Ht).
  apply HT in Ht as [-> Hu]. split; [|by eapply written_abstract]. destruct Hd as [Hdist Hpath Hholds]. split.
  - done.
  - done.
  - intros p x Hx. change (db d !! p = Some x) in Hx.
    destruct (decide (p = ap_path a)) as [->|Hne].
    + assert (x = m) as -> by congruence. exists ds, (frame (ap_data a)).
      split; [by apply written_holds|]. apply HT'. unfold unsynced in *.
      rewrite (same_but_access_segment _ _ Hs) in *. cbn. rewrite lookup_alter_eq.
      destruct Hf as [f Ef]. rewrite Ef in *. cbn [fmap option_fmap option_map f_content f_synced].
      rewrite length_app. lia.
    + destruct (Hholds p x Hx) as (ds' & tail & Hh' & Ht). exists ds', tail.
      assert (E : files (append_written a d) !! segment x = files d !! segment x) by by eapply written_other.
      rewrite (unsynced_ext (files d) _ x x) by done. split; [|by apply Hother].
      by eapply (holds_ext (files d)).
Qed.

(** The file is synced. *)
Lemma synced_ok (T' : string -> bytes -> nat -> Prop) :
  (forall tail u, T (ap_path a) tail u -> T' (ap_path a) tail 0%nat) ->
  (forall p tail u, p <> ap_path a -> T p tail u -> T' p tail u) ->
  disk_ok T' (append_synced a d) /\ abstract (append_synced a d) = abstract d.
Proof using All.
  intros HT Hother. split.
  - destruct Hd as [Hdist Hpath Hholds]. split; [done|done|]. intros p x Hx.
    change (db d !! p = Some x) in Hx. destruct (Hholds p x Hx) as (ds & tail & (H1 & H2 & H3 & H4 & H5) & Ht).
    exists ds, tail. split; [by split_and!; rewrite ?synced_content|].
    destruct (decide (p = ap_path a)) as [->|Hne].
    + assert (x = m) as -> by congruence. unfold unsynced at 1.
      rewrite (same_but_access_segment _ _ Hs). cbn. rewrite lookup_alter_eq.
      destruct Hf as [f Ef]. rewrite Ef. cbn. rewrite Nat.sub_diag. by eapply HT.
    + assert (E : files (append_synced a d) !! segment x = files d !! segment x).
      { cbn. apply lookup_alter_ne. intros E. apply Hne.
        apply (Hdist p (ap_path a) x m Hx Hm). rewrite (same_but_access_segment _ _ Hs). congruence. }
      rewrite (unsynced_ext (files d) _ x x) by done. by apply Hother.
  - apply map_eq. intros p. rewrite !lookup_abstract. change (db (append_synced a d)) with (db d).
    destruct (db d !! p) as [x|]; [|done]. cbn [fmap option_fmap option_map]. f_equal. unfold as_stream.
    rewrite (own_messages_missing (files d)); [done|]. apply synced_content.
Qed.
End written.

(** * Appends and creations of the file-backed store, stage by stage

    The end of an append is the append of the abstract store; the beginning of
    a creation is its creation, or fork; a roll-back is a deletion. *)

(** ** The end of an append *)

Lemma same_but_access_fields m m' :
  same_but_access m m' ->
  m_closed m = m_closed m' /\ m_softDeleted m = m_softDeleted m' /\ m_refCount m = m_refCount m' /\
  m_base m = m_base m'.
Proof. unfold same_but_access, with_lastAccessedAt, m_base. intros [= ]. split_and!; congruence. Qed.

Lemma updatedMeta_file a :
  m_path (updatedMeta a) = m_path (ap_meta a) /\ segment (updatedMeta a) = segment (ap_meta a) /\
  m_forkedFrom (updatedMeta a) = m_forkedFrom (ap_meta a) /\ m_base (updatedMeta a) = m_base (ap_meta a) /\
  m_currentOffset (updatedMeta a) = ap_offset a.
Proof. by split_and!. Qed.

Section put.
Context (fresh : option string) (T : string -> bytes -> nat -> Prop) (a : Append) (m : StreamMetadata) (d : Disk).
Hypothesis Hd : disk_ok T d.
Hypothesis Ha : append_ok a.
Hypothesis Hm : db d !! ap_path a = Some m.
Hypothesis Hs : same_but_access m (ap_meta a).
Hypothesis HT : forall tail u, T (ap_path a) tail u -> tail = frame (ap_data a) /\ u = 0%nat.

Lemma put_segment : segment (updatedMeta a) = segment m.
Proof using Hs. by rewrite (same_but_access_segment _ _ Hs). Qed.

Lemma put_holds :
  exists ds, holds (files d) m ds (frame (ap_data a)) /\
             holds (files d) (updatedMeta a) (ds ++ [ap_data a]) [] /\
             unsynced (files d) (updatedMeta a) = 0%nat.
Proof using All.
  destruct (ok_holds _ _ Hd _ _ Hm) as (ds & tail & Hh & [-> Hu]%HT). exists ds. split; [done|].
  split; [|unfold unsynced in *; by rewrite put_segment].
  destruct (holds_current _ _ _ _ Hh) as [_ Hp].
  destruct Ha as (_ & _ & Ho & Hlen & Hr).
  destruct (same_but_access_fields _ _ Hs) as (_ & _ & _ & Hbase).
  rewrite <-(found_current _ _ Hs) in Ho, Hr.
  destruct Hh as (Hb & Hds & Hc & Hcur & Hmax).
  assert (Eb : m_base (updatedMeta a) = m_base m) by (by rewrite Hbase).
  pose proof (wf_offset_position_bound _ Hb). unfold holds. rewrite Eb, put_segment, app_nil_r, frames_snoc.
  rewrite length_app in *. rewrite length_frame in *.
  split_and!; [done| |done| |lia].
  - apply fits_app. split; [done|]. by repeat constructor.
  - change (m_currentOffset (updatedMeta a)) with (ap_offset a). rewrite Ho, Hcur.
    rewrite next_offset_mk by (unfold FRAME_OVERHEAD; lia). f_equal. unfold FRAME_OVERHEAD. lia.
Qed.

Lemma put_grows : grows d (append_put a d).
Proof using Hm Hs.
  intros p x. cbn. rewrite lookup_insert. case_decide as E.
  - intros [= <-]. subst p. left. exists m. split_and!; [done|apply put_segment|done].
  - intros Hx. left. by exists x.
Qed.

(** The message the record now covers. *)
Definition put_message : StreamMessage := mkStreamMessage (ap_data a) (ap_offset a) 0.

Lemma put_messages :
  own_messages (files d) (updatedMeta a) = own_messages (files d) m ++ [put_message] /\
  str_lt (m_currentOffset m) (ap_offset a).
Proof using All.
  destruct put_holds as (ds & Hh & Hh' & _). destruct (holds_current _ _ _ _ Hh) as [Hw Hp].
  destruct Ha as (_ & _ & Ho & _ & Hr). rewrite <-(found_current _ _ Hs) in Ho, Hr. split.
  - rewrite (holds_own _ _ _ _ Hh'), (holds_own _ _ _ _ Hh), file_messages_app.
    destruct (same_but_access_fields _ _ Hs) as (_ & _ & _ & Hbase).
    change (m_base (updatedMeta a)) with (m_base (ap_meta a)). rewrite <-Hbase. f_equal.
    cbn [file_messages]. unfold put_message. do 2 f_equal. rewrite Ho.
    destruct Hh as (Hb & _ & _ & -> & _). pose proof (wf_offset_position_bound _ Hb).
    rewrite next_offset_mk by (unfold FRAME_OVERHEAD in *; lia). rewrite length_frame.
    f_equal. unfold FRAME_OVERHEAD. lia.
  - rewrite Ho. apply next_offset_gt; [done|apply Zle_0_nat|]. lia.
Qed.

Lemma put_steps : steps true fresh (abstract d) (abstract (append_put a d)).
Proof using All.
  destruct put_holds as (ds & Hh & Hh' & Hu).
  destruct (holds_current _ _ _ _ Hh) as [_ Hp].
  destruct (same_but_access_fields _ _ Hs) as (Hc & Hsd & Hrc & _).
  destruct Ha as (Hsd' & Hcl' & Ho & Hlen & Hr).
  rewrite <-(found_current _ _ Hs) in Ho, Hr.
  set (x := put_message). set (s := as_stream (files d) m).
  unfold append_put. rewrite abstract_put. eapply rtc_l.
  - apply (step_append true fresh _ (ap_path a) s x).
    + by rewrite lookup_abstract, Hm.
    + cbn. by rewrite Hc.
    + cbn. by rewrite Hsd.
    + done.
    + intros _. change (currentOffset s) with (m_currentOffset m). change (msg_data x) with (ap_data a). lia.
  - apply rtc_once.
    rewrite <-(insert_insert_eq (abstract d) (ap_path a) (as_stream (files d) (updatedMeta a))
                 (set_messages (messages s ++ [x]) (msg_offset x) s)).
    econstructor; [apply lookup_insert_eq|].
    destruct (same_but_access_file _ _ Hs) as (Hpath & _ & _ & Hff & Hfo).
    unfold bookkeeping. split_and!; cbn; try congruence.
    + by destruct put_messages.
Qed.

Lemma put_ok (T' : string -> bytes -> nat -> Prop) :
  T' (ap_path a) [] 0%nat -> (forall p tail u, p <> ap_path a -> T p tail u -> T' p tail u) ->
  disk_ok T' (append_put a d).
Proof using All.
  intros HT' Hother. destruct put_holds as (ds & Hh & Hh' & Hu). destruct Hd as [Hdist Hpath Hholds].
  destruct (updatedMeta_file a) as (Hp & _ & Hff' & _).
  destruct (same_but_access_file _ _ Hs) as (Hp' & _ & _ & Hff & Hfo).
  split.
  - pose proof put_segment as Es.
    assert (Ho : forall r z, r <> ap_path a -> db d !! r = Some z -> segment z <> segment m).
    { intros r z Hr Hz E'. apply Hr. by apply (Hdist r (ap_path a) z m). }
    intros p q x y. cbn. intros Hx Hy E.
    apply lookup_insert_Some in Hx as [[<- <-]|[Hp1 Hx]], Hy as [[<- <-]|[Hq1 Hy]].
    + done.
    + exfalso. apply (Ho q y (not_eq_sym Hq1) Hy). congruence.
    + exfalso. apply (Ho p x (not_eq_sym Hp1) Hx). congruence.
    + by apply (Hdist p q x y).
  - intros p x. cbn. rewrite lookup_insert. case_decide as E; [|apply Hpath].
    intros [= <-]. subst p. destruct (Hpath _ _ Hm). rewrite Hp, Hff', Hp', Hff.
    change (m_forkOffset (updatedMeta a)) with (m_forkOffset (ap_meta a)). by rewrite Hfo.
  - intros p x. cbn. rewrite lookup_insert. case_decide as E.
    + intros [= <-]. subst p. exists (ds ++ [ap_data a]), []. by rewrite Hu.
    + intros Hx. destruct (Hholds p x Hx) as (ds' & tail & ? & ?). exists ds', tail.
      split; [done|]. by apply Hother.
Qed.
End put.
