(* ===== verification/FileCreate.v ===== *)
(** * Creations of the file-backed store, and their roll-back *)

From S2P Require Import Prelude Offsets Producer Text Json Types JsonMode StreamStore StoreLemmas StoreSteps StoreGraph StoreTheorems FileFrames FileStore FileRuns FileAbstract FileInvariant.
Local Open Scope js_scope.

#[export] Instance wf_offset_dec o : Decision (wf_offset o).
Proof.
  refine (cast_if (decide (0 <= position o <= MAX_SAFE_INTEGER /\ o = mk_offset (position o)))).
  - destruct a. by eexists.
  - intros Ho. apply n. split; [by apply wf_offset_position_bound|by apply wf_offset_position].
Defined.

(** ** The file and the record of a new stream *)

Lemma materialize_spec m o prefix d d1 m1 :
  materialize m o prefix d = Ok (d1, m1) ->
  wf_offset (m_base m) -> m_currentOffset m = m_base m -> files d !! segment m = None ->
  (forall b, prefix = Some b ->
     position (m_base m) + FRAME_OVERHEAD + Z.of_nat (length b) < MAX_SAFE_INTEGER) ->
  position (m_base m) < MAX_SAFE_INTEGER ->
  db d1 = db d /\ (forall n, n <> segment m -> files d1 !! n = files d !! n) /\
  (exists ds, holds (files d1) m1 ds [] /\ unsynced (files d1) m1 = 0%nat) /\
  segment m1 = segment m /\ m_base m1 = m_base m /\ m_forkOffset m1 = m_forkOffset m /\
  m_forkedFrom m1 = m_forkedFrom m /\ m_path m1 = m_path m /\ m_refCount m1 = m_refCount m /\
  m_softDeleted m1 = m_softDeleted m.
Proof.
  intros He Hb Hc Hf Hroom Hlt.
  assert (Hempty : d1 = d -> m1 = m ->
    exists ds, holds (files d1) m1 ds [] /\ unsynced (files d1) m1 = 0%nat).
  { intros -> ->. exists []. unfold unsynced. rewrite Hf. split; [|done].
    split_and!; [done|by constructor|by rewrite Hf| |cbn; lia].
    rewrite Hc. cbn [frames map concat length]. rewrite Z.add_0_r. by apply wf_offset_position. }
  unfold materialize in He. destruct prefix as [b|]; [|injection He as <- <-; by auto 10].
  destruct (0 <? length b)%nat; [|injection He as <- <-; by auto 10].
  destruct (Z.leb_spec (2 ^ 32) (Z.of_nat (length b))); [done|]. injection He as <- <-.
  specialize (Hroom b eq_refl). pose proof (wf_offset_position_bound _ Hb) as Hb0.
  split; [done|]. split; [intros n Hn; cbn; by rewrite lookup_insert_ne|].
  split; [|by split_and!]. exists [b]. split; [|unfold unsynced; cbn; rewrite lookup_insert_eq; apply Nat.sub_diag].
  unfold holds.
  change (m_base (with_forkSubOffset _ (with_currentOffset _ m))) with (m_base m).
  change (segment (with_forkSubOffset _ (with_currentOffset _ m))) with (segment m).
  cbn [frames map concat files upd_files m_currentOffset with_forkSubOffset with_currentOffset].
  rewrite !app_nil_r, lookup_insert_eq, length_frame. cbn [fmap option_fmap option_map or_else f_content].
  unfold FRAME_OVERHEAD in Hroom. split_and!; [done|by repeat constructor|done| |lia].
  rewrite Hc, prefix_offset_wf by (done || unfold FRAME_OVERHEAD; lia).
  rewrite (wf_offset_position _ Hb) at 1.
  rewrite next_offset_mk by (unfold FRAME_OVERHEAD; lia). f_equal. unfold FRAME_OVERHEAD. lia.
Qed.

Section create.
Context `{!JsonLib} `{!DateLib}.
Context (now : Z).

Lemma resolve_file_fork_Ok q o d src fo prefix :
  resolve_fork now q o d = Ok (src, fo, prefix) ->
  db d !! q = Some src /\ m_softDeleted src = false /\ String.ltb (m_currentOffset src) fo = false /\
  (fo = m_currentOffset src \/ co_forkOffset o = Some fo /\ fo <> EmptyString).
Proof.
  unfold resolve_fork. destruct (db d !! q) as [m|]; [|done].
  destruct (m_softDeleted m) eqn:Hsd; [done|]. destruct (isExpired now m); [done|].
  destruct (_ && _); [done|].
  set (fo' := if truthy (co_forkOffset o) then _ else _).
  destruct (_ || _) eqn:Hfo; [done|]. apply orb_false_iff in Hfo as [_ Hc].
  intros Hr. assert (m = src /\ fo' = fo) as [-> <-].
  { destruct (co_forkSubOffset o) as [n|]; [|by injection Hr].
    destruct (0 <? n); [|by injection Hr].
    destruct (resolveForkSubOffset _ _ _ _ _); [by injection Hr|done]. }
  split_and!; try done. unfold fo'.
  destruct (co_forkOffset o) as [x|]; cbn; [|by left].
  destruct (String.eqb_spec x EmptyString) as [->|]; cbn; [by left|by right].
Qed.

(** The disk [createInner] creates on. *)
Definition create_disk (p : string) (d : Disk) : Disk :=
  match db d !! p with
  | Some m => if isExpired now m then (delete_ now p d).1 else d
  | None => d
  end.

(** The name of the new file is not in use. *)
Definition fresh_file (dirName : string) (d : Disk) : Prop :=
  files d !! segmentFile dirName = None /\
  map_Forall (fun _ m => segment m <> segmentFile dirName) (db d).

(** A fork offset given by the caller is in the server's notation, and the
    prefix of a fork does not outgrow the safe integers. *)
Definition create_room (o : CreateOptions) (d : Disk) : Prop :=
  match co_forkOffset o with Some fo => fo = EmptyString \/ wf_offset fo | None => True end /\
  match resolve_fork now (or_else (co_forkedFrom o) EmptyString) o d with
  | Ok (_, fo, Some b) => position fo + FRAME_OVERHEAD + Z.of_nat (length b) < MAX_SAFE_INTEGER
  | _ => True
  end.

#[export] Instance create_room_dec o d : Decision (create_room o d).
Proof. unfold create_room. repeat case_match; apply _. Defined.

#[export] Instance fresh_file_dec dirName d : Decision (fresh_file dirName d).
Proof. unfold fresh_file. apply _. Defined.

Lemma initial_meta_fields p dirName o fork :
  let m := initial_meta now p dirName o fork in
  m_path m = p /\ segment m = segmentFile dirName /\ m_refCount m = 0 /\ m_softDeleted m = false /\
  m_currentOffset m = m_base m /\
  match fork with
  | Some (_, fo, _) => m_forkedFrom m = co_forkedFrom o /\ m_forkOffset m = Some fo
  | None => m_forkedFrom m = None /\ m_forkOffset m = None
  end.
Proof.
  unfold initial_meta. destruct fork as [[[src fo] prefix]|]; [|by split_and!].
  destruct (resolveForkExpiry o src) as [ttl ex]. by split_and!.
Qed.

(** The records come from [d] with their files, but for those of the file [n]. *)
Definition grows_by (n : string) (d d' : Disk) : Prop :=
  forall p m', db d' !! p = Some m' ->
    (exists m, db d !! p = Some m /\ segment m' = segment m /\
       (is_Some (files d !! segment m) -> is_Some (files d' !! segment m))) \/
    segment m' = n.

Lemma grows_by_keeps n d d1 d2 : keeps d d1 -> grows_by n d1 d2 -> grows_by n d d2.
Proof.
  intros Hk Hg q x Hx. destruct (Hg q x Hx) as [(y & Hy & E & Hfy)|]; [|by right].
  left. destruct (Hk q y Hy) as (z & Hz & Hsz & Hfz). exists z.
  rewrite (same_file_segment _ _ Hsz), Hfz in Hfy. split_and!; [done| |done].
  rewrite E. by apply same_file_segment.
Qed.

Lemma grows_by_fresh dirName d d' :
  fresh_file dirName d -> grows_by (segmentFile dirName) d d' -> grows d d'.
Proof.
  intros [_ Hfr] Hg p x Hx. destruct (Hg p x Hx) as [|E]; [by left|]. right.
  intros q m Hm. rewrite E. by eapply Hfr.
Qed.

(** The record of a stream just created names its own file. *)
Definition new_record (dirName : string) (c : Creating) (d : Disk) : Prop :=
  db d !! cr_path c = Some (cr_meta c) /\ segment (cr_meta c) = segmentFile dirName.

(** What [create_new] needs, and how the invariant changes. *)
Section create_new.
Context (T T' : string -> bytes -> nat -> Prop) (p dirName : string) (o : CreateOptions) (d : Disk).
Hypothesis Hd : disk_ok T d.
Hypothesis Hstore : store_ok (abstract d).
Hypothesis Hp : db d !! p = None.
Hypothesis Hfresh : fresh_file dirName d.
Hypothesis Hroom : create_room o d.
Hypothesis HT : T' p [] 0%nat.
Hypothesis HT' : forall q tail u, q <> p -> T q tail u -> T' q tail u.

(** A record with its file, next to those that are there. *)
Lemma insert_ok ms fs m ds :
  (forall q x, ms !! q = Some x -> exists y, db d !! q = Some y /\ same_file y x) ->
  (forall n, n <> segmentFile dirName -> fs !! n = files d !! n) ->
  m_path m = p -> (m_forkedFrom m = None -> m_forkOffset m = None) ->
  segment m = segmentFile dirName -> holds fs m ds [] -> unsynced fs m = 0%nat ->
  disk_ok T' (mkDisk (<[p := m]> ms) fs) /\ grows_by (segmentFile dirName) d (mkDisk (<[p := m]> ms) fs).
Proof using Hd Hfresh HT HT'.
  intros Hms Hfs Hpath Hff Hseg Hh Hu. destruct Hd as [Hdist Hpaths Hholds], Hfresh as [_ Hfr].
  assert (Hother : forall q x, ms !! q = Some x ->
    exists y, db d !! q = Some y /\ same_file y x /\ segment x <> segmentFile dirName /\
      fs !! segment y = files d !! segment y).
  { intros q x Hx. destruct (Hms q x Hx) as (y & Hy & Hs). exists y.
    pose proof (Hfr q y Hy) as Hne. rewrite (same_file_segment _ _ Hs). auto. }
  split; [split|].
  - intros q r x y Hx Hy E. cbn in Hx, Hy.
    apply lookup_insert_Some in Hx as [[<- <-]|[Hq Hx]], Hy as [[<- <-]|[Hr Hy]]; [done|..].
    + exfalso. destruct (Hother _ _ Hy) as (? & _ & _ & Hne & _). congruence.
    + exfalso. destruct (Hother _ _ Hx) as (? & _ & _ & Hne & _). congruence.
    + destruct (Hother _ _ Hx) as (x' & Hx' & Hsx & _), (Hother _ _ Hy) as (y' & Hy' & Hsy & _).
      apply (Hdist q r x' y'); [done|done|].
      by rewrite <-(same_file_segment _ _ Hsx), <-(same_file_segment _ _ Hsy).
  - intros q x Hx. cbn in Hx. apply lookup_insert_Some in Hx as [[<- <-]|[Hq Hx]]; [done|].
    destruct (Hother _ _ Hx) as (y & Hy & (-> & _ & _ & -> & ->) & _). by apply Hpaths.
  - intros q x Hx. cbn in Hx. apply lookup_insert_Some in Hx as [[<- <-]|[Hq Hx]].
    + exists ds, []. cbn [files]. by rewrite Hu.
    + destruct (Hother _ _ Hx) as (y & Hy & Hs & _ & Hf).
      destruct (Hholds q y Hy) as (ds' & tail & Hh' & Ht). exists ds', tail. cbn [files].
      rewrite (unsynced_ext (files d) _ y) by done. split; [by eapply holds_ext|by apply HT'].
  - intros q x Hx. cbn in Hx. apply lookup_insert_Some in Hx as [[<- <-]|[Hq Hx]].
    + by right.
    + left. destruct (Hother _ _ Hx) as (y & Hy & Hs & _ & Hf). exists y.
      split_and!; [done|by apply same_file_segment|cbn; by rewrite Hf].
Qed.

Lemma create_new_plain m ds fs :
  m_path m = p -> segment m = segmentFile dirName -> holds fs m ds [] -> unsynced fs m = 0%nat ->
  (forall n, n <> segmentFile dirName -> fs !! n = files d !! n) ->
  m_refCount m = 0 -> m_softDeleted m = false -> m_forkedFrom m = None -> m_forkOffset m = None ->
  let d' := put p m (mkDisk (db d) fs) in
  disk_ok T' d' /\ grows_by (segmentFile dirName) d d' /\
  steps true (Some p) (abstract d) (abstract d').
Proof using All.
  intros Hpath Hseg Hh Hu Hfs Hrc Hsd Hff Hfo d'.
  destruct (insert_ok (db d) fs m ds) as [Hok Hg]; [|done..|].
  { intros q x Hx. by exists x. }
  split_and!; [done|done|]. unfold d'. rewrite abstract_put.
  rewrite (abstract_files _ (files d))
    by (intros q x Hx; apply Hfs; destruct Hfresh as [_ Hfr]; by eapply Hfr).
  replace (mkDisk (db d) (files d)) with d by (by destruct d). apply rtc_once.
  apply step_create; try done.
  - by rewrite lookup_abstract, Hp.
  - intros _. by eapply holds_stream_ok.
Qed.

Lemma create_new_fork m ds fs q src fo :
  m_path m = p -> segment m = segmentFile dirName -> holds fs m ds [] -> unsynced fs m = 0%nat ->
  (forall n, n <> segmentFile dirName -> fs !! n = files d !! n) ->
  m_refCount m = 0 -> m_softDeleted m = false -> m_forkedFrom m = Some q -> m_forkOffset m = Some fo ->
  q <> EmptyString -> db d !! q = Some src -> String.ltb (m_currentOffset src) fo = false ->
  let d' := put p m (put q (with_refCount (m_refCount src + 1) src) (mkDisk (db d) fs)) in
  disk_ok T' d' /\ grows_by (segmentFile dirName) d d' /\
  steps true (Some p) (abstract d) (abstract d').
Proof using All.
  intros Hpath Hseg Hh Hu Hfs Hrc Hsd Hff Hfo Hq Hsrc Hcur d'.
  destruct (insert_ok (<[q := with_refCount (m_refCount src + 1) src]> (db d)) fs m ds)
    as [Hok Hg]; [|done|done|by rewrite Hff|done|done|done|].
  { intros r x Hx. apply lookup_insert_Some in Hx as [[<- <-]|[Hr Hx]]; [|by exists x].
    exists src. split; [done|]. apply same_file_refCount. }
  split_and!; [done|done|]. unfold d'. rewrite !abstract_put.
  rewrite (abstract_files _ (files d))
    by (intros r x Hx; apply Hfs; destruct Hfresh as [_ Hfr]; by eapply Hfr).
  cbn [files]. assert (Hseg' : fs !! segment src = files d !! segment src).
  { apply Hfs. destruct Hfresh as [_ Hfr]. by eapply Hfr. }
  change (as_stream fs (with_refCount (m_refCount src + 1) src))
    with (set_refCount (refCount (as_stream fs src) + 1) (as_stream fs src)).
  rewrite (as_stream_ext (files d) fs src) by done.
  replace (mkDisk (db d) (files d)) with d by (by destruct d).
  apply rtc_once. apply (step_fork true (Some p) _ p _ q _ fo); try done.
  - by rewrite lookup_abstract, Hp.
  - by rewrite lookup_abstract, Hsrc.
  - intros _ _. by eapply holds_stream_ok.
Qed.

Lemma source_bound q src :
  db d !! q = Some src ->
  wf_offset (m_currentOffset src) /\ position (m_currentOffset src) < MAX_SAFE_INTEGER.
Proof using Hd.
  intros Hs. destruct (ok_holds _ _ Hd _ _ Hs) as (ds & tail & Hh & _).
  destruct (holds_current _ _ _ _ Hh) as [Hw Hpos]. split; [done|].
  destruct Hh as (_ & _ & _ & _ & Hmax). rewrite Hpos. rewrite length_app in Hmax. lia.
Qed.

Lemma create_new_spec :
  match create_new now p dirName o d with
  | (d', Err _) => d' = d
  | (d', Ok c) =>
      cr_path c = p /\ cr_options c = o /\ creating_ok c /\ new_record dirName c d' /\ disk_ok T' d' /\
      grows_by (segmentFile dirName) d d' /\ steps true (Some p) (abstract d) (abstract d')
  end.
Proof using All.
  unfold create_new. destruct Hfresh as [Hfile _]. destruct Hroom as [Hgiven Hpre].
  destruct (truthy (co_forkedFrom o)) eqn:Htr; cycle 1.
  - destruct (initial_meta_fields p dirName o None) as (Hpa & Hse & Hrc & Hsd & Hcu & Hff & Hfo).
    set (m := initial_meta now p dirName o None) in *. cbn [materialize]. unfold commit_created.
    rewrite Hff. unfold creating_ok. cbn [cr_path cr_options cr_meta]. rewrite Hrc, Hff.
    assert (Hh : holds (files d) m [] []).
    { unfold holds, m_base. rewrite Hcu. unfold m_base. rewrite Hfo, Hse, Hfile. cbn.
      split_and!; [apply wf_ZERO_OFFSET|by constructor|done..]. }
    assert (Hu : unsynced (files d) m = 0%nat) by (unfold unsynced; by rewrite Hse, Hfile).
    pose proof (create_new_plain m [] (files d) Hpa Hse Hh Hu ltac:(done) Hrc Hsd Hff Hfo) as Hc.
    cbv zeta in Hc. replace (mkDisk (db d) (files d)) with d in Hc by (by destruct d).
    assert (new_record dirName (mkCreating p m o) (put p m d))
      by (split; [apply lookup_insert_eq|done]).
    by destruct Hc as (? & ? & ?); split_and!.
  - destruct (co_forkedFrom o) as [q|] eqn:Hq; [|done]. cbn [or_else truthy] in *.
    destruct (String.eqb_spec q EmptyString) as [|Hne]; [done|].
    destruct (resolve_fork now q o d) as [[[src fo] prefix]|e] eqn:Hr; [|done].
    apply resolve_file_fork_Ok in Hr as (Hsrc & Hopen & Hcur & Hfo).
    destruct (source_bound q src Hsrc) as [Hwc Hmax].
    assert (Hwf : wf_offset fo).
    { destruct Hfo as [->|[E Hne']]; [done|]. rewrite E in Hgiven. by destruct Hgiven. }
    assert (Hlt : position fo < MAX_SAFE_INTEGER).
    { rewrite wf_offset_ltb in Hcur by done. apply Z.ltb_ge in Hcur. lia. }
    destruct (initial_meta_fields p dirName o (Some (src, fo, prefix)))
      as (Hpa & Hse & Hrc & Hsd & Hcu & Hff & Hfo').
    set (m := initial_meta now p dirName o (Some (src, fo, prefix))) in *.
    assert (Hbase : m_base m = fo) by (unfold m_base; by rewrite Hfo').
    destruct (materialize m o prefix d) as [[d1 m1]|e] eqn:Hmat; [|done].
    apply materialize_spec in Hmat as (Hdb & Hfs & [ds [Hh Hu]] & Hse1 & _ & Hfo1 & Hff1 & Hpa1 & Hrc1 & Hsd1);
      rewrite ?Hbase, ?Hse; [|done|by rewrite Hcu|done| |done].
    2: { intros b ->. done. }
    rewrite Hse in Hse1, Hfs. rewrite Hff, Hq in Hff1. unfold commit_created.
    rewrite Hff1, Hdb, Hsrc, Hopen. unfold creating_ok. cbn [cr_path cr_options cr_meta].
    rewrite Hrc1, Hrc, Hff1.
    pose proof (create_new_fork m1 ds (files d1) q src fo) as Hc.
    cbv zeta in Hc. rewrite <-Hdb in Hc at 2 3 4.
    replace (mkDisk (db d1) (files d1)) with d1 in Hc by (by destruct d1).
    destruct Hc as (? & ? & ?); try congruence; try done. split_and!; try done; [congruence|].
    split; [apply lookup_insert_eq|done].
Qed.
End create_new.

(** ** Creating over an expired stream *)

Lemma files_cascade fuel n p d :
  files d !! n = None ->
  files (deleteWithCascade_fuel (fun _ => false) (fun _ => 0%nat) fuel p 0 d) !! n = None.
Proof.
  revert p d. induction fuel as [|fuel IH]; intros p d Hn; [done|]. cbn [deleteWithCascade_fuel]. unfold remove_record.
  destruct (db d !! p) as [m|]; [|done]. cbn zeta.
  assert (Hn' : delete (segment m) (files d) !! n = None) by (apply lookup_delete_None; by right).
  destruct (truthy _); [|done]. destruct (db _ !! _) as [parent|]; [|done].
  destruct (_ && _); [by apply IH|done].
Qed.

Lemma fresh_file_cascade dirName p d :
  distinct d -> fresh_file dirName d -> fresh_file dirName (collect p d).
Proof.
  intros Hd [Hf Hm]. split; [by apply files_cascade|]. intros q x Hx.
  destruct (collect_abstract p d Hd) as [Hk _].
  destruct (Hk q x Hx) as (y & Hy & Hs & _). rewrite (same_file_segment _ _ Hs). by eapply Hm.
Qed.

(** An expired stream that is created anew has no forks. *)
Definition create_safe (p dirName : string) (o : CreateOptions) (d : Disk) : Prop :=
  match db d !! p with
  | Some m => isExpired now m = false \/ m_refCount m = 0
  | None => True
  end /\ fresh_file dirName d /\ create_room o (create_disk p d).

#[export] Instance create_safe_dec p dirName o d : Decision (create_safe p dirName o d).
Proof. unfold create_safe. repeat case_match; apply _. Defined.

Lemma create_begin_spec (T T' : string -> bytes -> nat -> Prop) p dirName o d :
  disk_ok T d -> store_ok (abstract d) -> soft_ok (abstract d) -> create_safe p dirName o d ->
  T' p [] 0%nat -> (forall q tail u, q <> p -> T q tail u -> T' q tail u) ->
  match create_begin now p dirName o d with
  | (d', Ok (inr c)) =>
      cr_path c = p /\ cr_options c = o /\ creating_ok c /\ new_record dirName c d' /\
      disk_ok T' d' /\ grows d d' /\
      steps true (Some p) (abstract d) (abstract d')
  | (d', _) => keeps d d' /\ steps true (Some p) (abstract d) (abstract d')
  end.
Proof.
  intros Hd Hst Hsoft (Hexp & Hfresh & Hroom) HT HT'. unfold create_begin.
  assert (Hrefl : keeps d d /\ steps true (Some p) (abstract d) (abstract d))
    by (split; [done|apply rtc_refl]).
  assert (Hgo : forall d1, refines (Some p) d d1 -> db d1 !! p = None -> fresh_file dirName d1 ->
    create_room o d1 ->
    match create_new now p dirName o d1 with
    | (d', Ok c) =>
        cr_path c = p /\ cr_options c = o /\ creating_ok c /\ new_record dirName c d' /\
      disk_ok T' d' /\ grows d d' /\
        steps true (Some p) (abstract d) (abstract d')
    | (d', Err _) => keeps d d' /\ steps true (Some p) (abstract d) (abstract d')
    end).
  { intros d1 [Hk Hs] Hp Hf Hr. pose proof (keeps_ok _ _ _ Hk Hd) as Hd1.
    pose proof (store_ok_steps _ _ _ Hst Hs) as Hst1.
    pose proof (create_new_spec T T' p dirName o d1 Hd1 Hst1 Hp Hf Hr HT HT') as Hc.
    destruct (create_new now p dirName o d1) as [d2 [c|e]]; [|by subst d2].
    destruct Hc as (? & ? & ? & ? & ? & Hg & Hs'). split_and!; try done.
    - eapply grows_by_fresh; [done|]. by eapply grows_by_keeps.
    - unfold steps in *. by etrans. }
  unfold create_disk in Hroom. destruct (db d !! p) as [m|] eqn:Hm; cycle 1.
  { specialize (Hgo d ltac:(done) Hm Hfresh Hroom). by destruct (create_new _ _ _ _ _) as [d2 [c|e]]. }
  destruct (isExpired now m) eqn:He; cycle 1.
  { destruct (m_softDeleted m); [done|]. by destruct (config_matches o m). }
  destruct Hexp as [|Hrc]; [done|].
  assert (Hsd : m_softDeleted m = false).
  { destruct (m_softDeleted m) eqn:Hsd; [|done].
    assert (abstract d !! p = Some (as_stream (files d) m)) as Ha by (by rewrite lookup_abstract, Hm).
    pose proof (Hsoft p _ Ha Hsd) as Hpos. cbn in Hpos. lia. }
  assert (Hdel : (delete_ now p d).1 = collect p d).
  { unfold delete_. rewrite Hm, Hsd, deleteWithCascade_collect. by rewrite (proj2 (Z.ltb_ge _ _)) by lia. }
  rewrite Hdel in *. pose proof (ok_distinct _ _ Hd) as Hdist.
  specialize (Hgo (collect p d)). destruct (create_new _ _ _ _ _) as [d2 r].
  enough (match r with Ok _ => _ | Err _ => _ end) as Hres by (by destruct r; exact Hres).
  apply Hgo; [| | |done].
  - eapply refines_cascade; [done|done|lia].
  - destruct (collect_abstract p d Hdist) as [_ Ha].
    assert (abstract (collect p d) !! p = None) as Hn by (rewrite Ha; apply cascade_gone).
    rewrite lookup_abstract in Hn. by apply fmap_None in Hn.
  - by apply fresh_file_cascade.
Qed.
End create.
