(* ===== verification/FileTasks.v ===== *)
(** * Tasks that come and go

    What the appearance, the progress and the end of a task do to the parts of
    [runs_ok], and the roll-back and the end of a creation. *)

From S2P Require Import Prelude Offsets Producer Text Json Types JsonMode StreamStore StoreLemmas StoreSteps StoreGraph StoreTheorems FileFrames FileStore FileRuns FileAbstract FileInvariant FileCreate.
Local Open Scope js_scope.

(** ** The appends in the files, as tasks come and go *)

Lemma in_file_insert id t ts ab :
  in_file (<[id := t]> ts) ab <->
  written t = Some ab \/ exists j u, j <> id /\ ts !! j = Some u /\ written u = Some ab.
Proof.
  split.
  - intros (j & u & Hj & Hu). apply lookup_insert_Some in Hj as [[<- <-]|[Hne Hj]]; [by left|].
    right. exists j, u. by split_and!.
  - intros [Ht|(j & u & Hne & Hj & Hu)].
    + exists id, t. by rewrite lookup_insert_eq.
    + exists j, u. by rewrite lookup_insert_ne.
Qed.

Lemma in_file_delete id ts ab :
  in_file (delete id ts) ab <-> exists j u, j <> id /\ ts !! j = Some u /\ written u = Some ab.
Proof.
  split.
  - intros (j & u & [Hne Hj]%lookup_delete_Some & Hu). exists j, u. by split_and!.
  - intros (j & u & Hne & Hj & Hu). exists j, u. by rewrite lookup_delete_ne.
Qed.

(** The task [id], if there is one, has written nothing. *)
Definition not_written (id : nat) (ts : gmap nat Task) : Prop :=
  forall t, ts !! id = Some t -> written t = None.

Lemma in_file_split id ts ab :
  in_file ts ab <->
  (exists t, ts !! id = Some t /\ written t = Some ab) \/
  exists j u, j <> id /\ ts !! j = Some u /\ written u = Some ab.
Proof.
  split.
  - intros (j & u & Hj & Hu). destruct (decide (j = id)) as [->|Hne]; [left; eauto|right; eauto].
  - intros [(t & ? & ?)|(j & u & _ & ? & ?)]; by eexists _, _.
Qed.

Lemma tail_of_ext ts ts' p tail u :
  (forall ab, in_file ts' ab <-> in_file ts ab) -> tail_of ts p tail u -> tail_of ts' p tail u.
Proof.
  intros H [(-> & -> & Hno)|(ab & Ha & Hp & -> & Hu)]; [left|right].
  - split_and!; [done|done|]. intros ab Ha. apply Hno. by apply H.
  - exists ab. split_and!; [by apply H|done..].
Qed.

Lemma tail_of_insert id t ts p tail u :
  not_written id ts -> written t = None -> tail_of ts p tail u -> tail_of (<[id := t]> ts) p tail u.
Proof.
  intros Hid Ht. apply tail_of_ext. intros ab. rewrite in_file_insert, (in_file_split id ts).
  split; [intros [?|?]; [congruence|by right]|].
  intros [(v & Hv & Hw)|?]; [|by right]. rewrite (Hid v Hv) in Hw. done.
Qed.

Lemma tail_of_delete id ts p tail u :
  not_written id ts -> tail_of ts p tail u -> tail_of (delete id ts) p tail u.
Proof.
  intros Hid. apply tail_of_ext. intros ab. rewrite in_file_delete, (in_file_split id ts).
  split; [by right|]. intros [(v & Hv & Hw)|?]; [|done]. rewrite (Hid v Hv) in Hw. done.
Qed.

Lemma written_append u ab : written u = Some ab -> append_of u = Some ab.1.
Proof. destruct u; cbn; [done..| |]; by intros [= <-]. Qed.

Section unique.
Context (st : FileStore) (id : nat) (t : Task) (a : Append).
Hypothesis Hst : runs_ok st.
Hypothesis Hid : tasks st !! id = Some t.
Hypothesis Ha : append_of t = Some a.

(** Nobody else appends to the stream. *)
Lemma alone j u b :
  j <> id -> tasks st !! j = Some u -> append_of u = Some b -> ap_path b <> ap_path a.
Proof using All. intros Hne Hj Hb E. apply Hne. by eapply (r_unique _ Hst). Qed.

Lemma alone_in_file ab :
  ap_path ab.1 = ap_path a -> in_file (tasks st) ab -> written t = Some ab.
Proof using All.
  intros E (j & u & Hj & Hu). destruct (decide (j = id)) as [->|Hne]; [congruence|].
  exfalso. by apply (alone j u ab.1 Hne Hj); [apply written_append|].
Qed.

(** Before the frame is written there is no tail, and afterwards it is one. *)
Lemma tail_before tail u :
  written t = None -> tail_of (tasks st) (ap_path a) tail u -> tail = [] /\ u = 0%nat.
Proof using All.
  intros Hw [(-> & -> & _)|(b & Hb & E & _)]; [done|]. apply alone_in_file in Hb; [congruence|done].
Qed.

Lemma tail_after n tail u :
  written t = Some (a, n) -> tail_of (tasks st) (ap_path a) tail u ->
  tail = frame (ap_data a) /\ (u <= n)%nat.
Proof using All.
  intros Hw [(_ & _ & Hno)|(b & Hb & E & -> & Hu)].
  - exfalso. apply (Hno (a, n)); [by exists id, t|done].
  - apply alone_in_file in Hb; [|done]. rewrite Hw in Hb. by injection Hb as <-.
Qed.

Lemma tail_written t' n u :
  written t' = Some (a, n) -> (u <= n)%nat ->
  tail_of (<[id := t']> (tasks st)) (ap_path a) (frame (ap_data a)) u.
Proof using.
  intros Hw Hu. right. exists (a, n). split_and!; [apply in_file_insert; by left|done..].
Qed.

Lemma tail_done : tail_of (delete id (tasks st)) (ap_path a) [] 0%nat.
Proof using All.
  left. split_and!; [done|done|]. intros b (j & u & Hne & Hj & Hu)%in_file_delete.
  apply (alone j u b.1 Hne Hj). by apply written_append.
Qed.

(** For the other streams nothing changes. *)
Lemma tail_other_insert t' p tail u :
  (forall b, written t' = Some b -> b.1 = a) -> p <> ap_path a ->
  tail_of (tasks st) p tail u -> tail_of (<[id := t']> (tasks st)) p tail u.
Proof using All.
  intros Hw Hp [(-> & -> & Hno)|(b & (j & v & Hj & Hv) & Hb & -> & Hu)].
  - left. split_and!; [done|done|]. intros b [Hb|(j & v & Hne & Hj & Hv)]%in_file_insert.
    + apply Hw in Hb as ->. congruence.
    + apply Hno. by exists j, v.
  - right. exists b. split_and!; [|done..]. apply in_file_insert. right. exists j, v.
    split_and!; [|done..]. intros ->. apply written_append in Hv. congruence.
Qed.

Lemma tail_other_delete p tail u :
  p <> ap_path a -> tail_of (tasks st) p tail u -> tail_of (delete id (tasks st)) p tail u.
Proof using All.
  intros Hp [(-> & -> & Hno)|(b & (j & v & Hj & Hv) & Hb & -> & Hu)].
  - left. split_and!; [done|done|]. intros b (j & v & Hne & Hj & Hv)%in_file_delete.
    apply Hno. by exists j, v.
  - right. exists b. split_and!; [|done..]. apply in_file_delete. exists j, v.
    split_and!; [|done..]. intros ->. apply written_append in Hv. congruence.
Qed.
End unique.

(** ** The invariant with other tasks *)

Section rebuild.
Context (fresh : option string) (st : FileStore) (d' : Disk).
Hypothesis Hst : runs_ok st.
Hypothesis Hg : grows (disk st) d'.
Hypothesis Hs : steps true fresh (abstract (disk st)) (abstract d').

Lemma soft_ok_steps safe ss ss' : soft_ok ss -> steps safe fresh ss ss' -> soft_ok ss'.
Proof using. intros Hsoft. induction 1; eauto using soft_step. Qed.

(** The tasks that go on. *)
Lemma rebuild_old (ts : gmap nat Task) id t a :
  map_Forall (fun _ t => undisturbed d' t) ts -> ts !! id = Some t -> tasks st !! id = Some t ->
  append_of t = Some a -> is_Some (files d' !! segment (ap_meta a)).
Proof using All.
  intros Hc Ht Ht' Ha. eapply files_grow; [done| |by eapply Hc|done|by eapply (r_files _ Hst)].
  by apply (r_calm _ Hst id t).
Qed.

Lemma rebuild_same :
  disk_ok (tail_of (tasks st)) d' -> calm (with_disk d' st) -> runs_ok (with_disk d' st).
Proof using All.
  intros Hd Hc. split; cbn; try done.
  - by eapply store_ok_steps, Hs; apply Hst.
  - by eapply soft_ok_steps, Hs; apply Hst.
  - apply Hst.
  - intros id t a Ht. by eapply rebuild_old.
  - apply Hst.
  - apply Hst.
Qed.

Lemma rebuild_insert id t n :
  let st' := mkFileStore d' (<[id := t]> (tasks st)) n in
  (nextTask st <= n)%nat -> (id < n)%nat ->
  disk_ok (tail_of (<[id := t]> (tasks st))) d' -> calm st' -> task_ok t ->
  (forall a, append_of t = Some a -> is_Some (files d' !! segment (ap_meta a)) /\
     forall j u b, j <> id -> tasks st !! j = Some u -> append_of u = Some b -> ap_path b <> ap_path a) ->
  runs_ok st'.
Proof using All.
  intros st' Hn Hid Hd Hc Ht Ha. split; cbn; try done.
  - by eapply store_ok_steps, Hs; apply Hst.
  - by eapply soft_ok_steps, Hs; apply Hst.
  - intros j u [[<- <-]|[Hne Hj]]%lookup_insert_Some; [done|by eapply r_task].
  - intros j u a Hj Hu. pose proof Hj as Hj'.
    apply lookup_insert_Some in Hj as [[<- <-]|[Hne Hj]]; [by apply Ha|]. by eapply rebuild_old.
  - intros i j u v a b Hi Hj Hu Hv E.
    apply lookup_insert_Some in Hi as [[<- <-]|[Hi' Hi]], Hj as [[<- <-]|[Hj' Hj]]; [done|..].
    + exfalso. destruct (Ha a Hu) as [_ Hx]. by apply (Hx j v b (not_eq_sym Hj')).
    + exfalso. destruct (Ha b Hv) as [_ Hx]. by apply (Hx i u a (not_eq_sym Hi')).
    + by eapply (r_unique _ Hst).
  - intros j Hj. rewrite lookup_insert_ne by lia. apply (r_next _ Hst). lia.
Qed.

Lemma rebuild_delete id :
  let st' := mkFileStore d' (delete id (tasks st)) (nextTask st) in
  disk_ok (tail_of (delete id (tasks st))) d' -> calm st' -> runs_ok st'.
Proof using All.
  intros st' Hd Hc. split; cbn; try done.
  - by eapply store_ok_steps, Hs; apply Hst.
  - by eapply soft_ok_steps, Hs; apply Hst.
  - intros j u [_ Hj]%lookup_delete_Some. by eapply r_task.
  - intros j u a Hj Hu. pose proof Hj as [_ Hj']%lookup_delete_Some. by eapply rebuild_old.
  - intros i j u v a b [_ Hi]%lookup_delete_Some [_ Hj]%lookup_delete_Some. by apply (r_unique _ Hst).
  - intros j Hj. apply lookup_delete_None. right. by apply (r_next _ Hst).
Qed.
End rebuild.

(** ** The end of a creation *)

Section creating.
Context (fresh : option string) (c : Creating).

Lemma refines_finish d : refines fresh d (create_finish c d).1.
Proof.
  unfold create_finish. destruct (db d !! cr_path c) as [m|] eqn:Hm; [|done]. cbn.
  destruct (or_else _ _); [|done]. apply (refines_put fresh (cr_path c) m); [done|].
  by split_and!; auto.
Qed.

(** Nobody has forked the new stream, and its source can still be forked: the
    roll-back is a deletion. *)
Lemma rollback_delete m d :
  db d !! cr_path c = Some m -> same_but_access m (cr_meta c) ->
  match m_forkedFrom (cr_meta c) with
  | Some q => match db d !! q with Some src => m_softDeleted src = false | None => False end
  | None => True
  end ->
  rollback c d = collect (cr_path c) d.
Proof.
  intros Hm Hs Hsrc. unfold collect, cascade_from. cbn [deleteWithCascade_fuel]. rewrite Hm. unfold remove_record.
  rewrite (same_but_access_segment _ _ Hs).
  assert (m_forkedFrom m = m_forkedFrom (cr_meta c)) as ->
    by (by destruct (same_but_access_file _ _ Hs) as (_ & _ & _ & -> & _)).
  unfold rollback. cbn zeta. destruct (m_forkedFrom (cr_meta c)) as [q|]; [|done].
  cbn [truthy or_else]. destruct (String.eqb q EmptyString); [done|]. cbn [negb db upd_db upd_files].
  destruct (decide (cr_path c = q)) as [<-|Hne]; [by rewrite lookup_delete_eq|].
  rewrite lookup_delete_ne by done. destruct (db d !! q) as [src|]; [|done].
  rewrite Hsrc, andb_false_r. done.
Qed.

Lemma refines_rollback m d :
  distinct d -> db d !! cr_path c = Some m -> same_but_access m (cr_meta c) -> creating_ok c ->
  match m_forkedFrom (cr_meta c) with
  | Some q => match db d !! q with Some src => m_softDeleted src = false | None => False end
  | None => True
  end ->
  refines fresh d (rollback c d).
Proof.
  intros Hd Hm Hs [Hrc _] Hsrc. rewrite (rollback_delete m) by done.
  apply (refines_cascade fresh _ m); [done|done|].
  destruct (same_but_access_fields _ _ Hs) as (_ & _ & -> & _). lia.
Qed.
End creating.
