(* ===== verification/FileRecovery.v ===== *)
(** * Crashes, and the recovery from them

    A crash cuts every file somewhere after the bytes that are known to be on
    the disk.  [recover] reads the files again: it sets the offset of each
    stream to the end of the last whole frame, and counts the forks.

    [crash_recovery]: what is there afterwards is what was there, possibly with
    the message of an append that was in flight.  [recover_counts]: whatever
    the reference counts were, they are right afterwards. *)

From S2P Require Import Prelude Offsets Producer Text Json Types JsonMode StreamStore StoreLemmas StoreSteps StoreGraph FileFrames FileStore FileRuns FileAbstract FileInvariant FileTasks.
Local Open Scope js_scope.

(** ** One stream *)

Lemma torn_take d n : Z.of_nat (length d) < 2 ^ 32 -> (n < length (frame d))%nat -> torn (take n (frame d)).
Proof. intros Hd Hn. by exists d, n. Qed.

(** What a crash keeps of a file. *)
Lemma crash_file_content cut f f' :
  crash_file cut f = Some f' ->
  exists n, (length (f_content f) - (length (f_content f) - f_synced f) <= n)%nat /\
    f_content f' = take n (f_content f) /\ (length (f_content f') <= f_synced f')%nat.
Proof.
  unfold crash_file. destruct cut as [n|].
  - intros [= <-]. cbn. exists (Nat.max n (f_synced f)). split_and!; [lia|done|lia].
  - destruct (f_synced f =? 0)%nat; [done|]. intros [= <-]. cbn. exists (f_synced f).
    split_and!; [lia|done|]. rewrite length_take. lia.
Qed.

(** The messages in the file of [p] after a crash. *)
Definition crashed (ts : gmap nat Task) (p : string) (ds ds' : list bytes) : Prop :=
  ds' = ds \/ exists ab, in_file ts ab /\ ap_path ab.1 = p /\ ds' = ds ++ [ap_data ab.1].

Section stream.
Context (st : FileStore) (p : string) (m : StreamMetadata) (f f' : File) (cut : option nat).
Hypothesis Hst : runs_ok st.
Hypothesis Hm : db (disk st) !! p = Some m.
Hypothesis Hf : files (disk st) !! segment m = Some f.
Hypothesis Hf' : crash_file cut f = Some f'.

Lemma in_file_task ab :
  in_file (tasks st) ab -> exists id t, tasks st !! id = Some t /\ append_of t = Some ab.1 /\ append_ok ab.1.
Proof using Hst.
  intros (id & t & Ht & Hw). apply written_append in Hw as Ha. exists id, t. split_and!; [done|done|].
  by apply (r_task _ Hst id t Ht).
Qed.

Lemma in_file_bound ab : in_file (tasks st) ab -> (ab.2 <= length (frame (ap_data ab.1)))%nat.
Proof using.
  intros (id & t & _ & Hw). destruct t; cbn [written] in Hw; try done; injection Hw as <-; done || apply Nat.le_0_l.
Qed.

Lemma crash_frames :
  exists ds tail ds' tail', holds (files (disk st)) m ds tail /\ fits ds' /\ torn tail' /\
    f_content f' = frames ds' ++ tail' /\ (length (f_content f') <= length (f_content f))%nat /\
    crashed (tasks st) p ds ds'.
Proof using All.
  destruct (ok_holds _ _ (r_disk _ Hst) p m Hm) as (ds & tail & Hh & Ht).
  destruct (crash_file_content _ _ _ Hf') as (n & Hn & Hc & _).
  exists ds, tail. unfold unsynced in Ht. rewrite Hf in Ht.
  pose proof Hh as (_ & Hds & Hcont & _ & _). rewrite Hf in Hcont.
  cbn [fmap option_fmap option_map or_else] in Hcont.
  assert (Hlen : (length (f_content f') <= length (f_content f))%nat)
    by (rewrite Hc, length_take; lia).
  destruct Ht as [(-> & Hu & _)|(ab & Hin & Hp & -> & Hu)].
  - exists ds, []. split_and!; [done|done|apply torn_nil| |done|by left].
    rewrite Hc, Hcont, app_nil_r in *. rewrite take_ge by lia. done.
  - pose proof (in_file_bound ab Hin) as Hb. destruct (in_file_task ab Hin) as (id & t & _ & _ & Hok).
    destruct Hok as (_ & _ & _ & Hsize & _).
    set (k := (n - length (frames ds))%nat).
    assert (Ec : f_content f' = frames ds ++ take k (frame (ap_data ab.1))).
    { rewrite Hc, Hcont, take_app_ge; [done|]. rewrite Hcont, !length_app in *. lia. }
    destruct (decide (k < length (frame (ap_data ab.1)))%nat) as [Hk|Hk].
    + exists ds, (take k (frame (ap_data ab.1))).
      split_and!; [done|done|by apply torn_take|done|done|by left].
    + exists (ds ++ [ap_data ab.1]), [].
      split_and!; [done| |apply torn_nil| |done|].
      * apply fits_app. split; [done|]. by repeat constructor.
      * rewrite Ec, take_ge by lia. by rewrite app_nil_r, frames_snoc.
      * right. by exists ab.
Qed.
End stream.

(** [recover] on the record of a stream, when its file holds [ds] and then
    part of a frame. *)
Lemma recover_entry_frames fs m f ds tail :
  fs !! segment m = Some f -> f_content f = frames ds ++ tail -> fits ds -> torn tail ->
  wf_offset (m_base m) -> position (m_base m) + Z.of_nat (length (frames ds)) <= MAX_SAFE_INTEGER ->
  recover_entry fs m =
  Some (with_currentOffset (mk_offset (position (m_base m) + Z.of_nat (length (frames ds)))) m).
Proof.
  intros Hf Hc Hds Ht Hb Hmax. unfold recover_entry. rewrite Hf, Hc, scanFile_frames by done.
  pose proof (wf_offset_position_bound _ Hb) as Hb0.
  set (n := Z.of_nat (length (frames ds))) in *. assert (0 <= n) by lia.
  set (o := mk_offset (position (m_base m) + n)).
  assert (E : (if truthy (m_forkOffset m) then
      format_offset (Some 0) (num_add (offset_byte (or_else (m_forkOffset m) EmptyString))
                                      (offset_byte (mk_offset n)))
    else mk_offset n) = o).
  { rewrite offset_byte_mk by lia. unfold m_base in *.
    destruct (m_forkOffset m) as [fo|]; cbn [truthy or_else] in *; [|done].
    destruct (String.eqb_spec fo EmptyString) as [->|_]; [by destruct (wf_offset_position _ Hb)|].
    cbn [negb]. rewrite offset_byte_wf, num_add_safe by (done || lia). done. }
  rewrite E. destruct (String.eqb_spec o (m_currentOffset m)) as [Eo|]; cbn [negb]; [|done].
  f_equal. rewrite Eo. by destruct m.
Qed.

(** ** Changes of several streams at once *)

(** [s'] is [s], or [s] after an append of the abstract store. *)
Definition appended (s s' : Stream) : Prop :=
  exists x, closed s = false /\ softDeleted s = false /\
    msg_offset x = next_offset (currentOffset s) (Z.of_nat (length (msg_data x))) /\
    position (currentOffset s) + FRAME_OVERHEAD + Z.of_nat (length (msg_data x)) <= MAX_SAFE_INTEGER /\
    s' = set_messages (messages s ++ [x]) (msg_offset x) s.

Definition merge (ss ss' : gmap string Stream) (l : list string) : gmap string Stream :=
  foldr (fun p acc => match ss' !! p with Some s => <[p := s]> acc | None => acc end) ss l.

Lemma lookup_merge ss ss' l q :
  merge ss ss' l !! q =
  if decide (q ∈ l) then match ss' !! q with Some s => Some s | None => ss !! q end else ss !! q.
Proof.
  induction l as [|p l IH]; [done|]. cbn [merge foldr]. fold (merge ss ss' l).
  destruct (decide (p = q)) as [->|Hne].
  - rewrite (decide_True (P := q ∈ q :: l)) by by constructor.
    destruct (ss' !! q) as [s|] eqn:Hq; [by rewrite lookup_insert_eq|].
    rewrite IH. by case_decide.
  - replace (match ss' !! p with Some s => <[p := s]> (merge ss ss' l) | None => merge ss ss' l end !! q)
      with (merge ss ss' l !! q) by (destruct (ss' !! p); [by rewrite lookup_insert_ne|done]).
    rewrite IH. destruct (decide (q ∈ l)) as [Hin|Hin].
    + by rewrite decide_True by by constructor.
    + rewrite decide_False; [done|]. intros [?|?]%elem_of_cons; [congruence|done].
Qed.

Lemma pointwise_steps safe fresh ss ss' :
  (forall p, ss !! p = ss' !! p \/
     exists s s', ss !! p = Some s /\ ss' !! p = Some s' /\ appended s s') ->
  steps safe fresh ss ss'.
Proof.
  intros Hp.
  assert (Hm : forall l, NoDup l -> steps safe fresh ss (merge ss ss' l)).
  { induction 1 as [|p l Hin Hnd IH]; [apply rtc_refl|]. cbn [merge foldr]. fold (merge ss ss' l).
    destruct (Hp p) as [E|(s & s' & Hs & Hs' & x & Hcl & Hsd & Ho & Hr & ->)].
    - destruct (ss' !! p) as [s|] eqn:Hs; [|done].
      rewrite insert_id; [done|]. rewrite lookup_merge. rewrite decide_False by done. congruence.
    - rewrite Hs'. unfold steps in *. eapply rtc_r; [exact IH|]. apply step_append; try done.
      rewrite lookup_merge. by rewrite decide_False by done. }
  replace ss' with (merge ss ss' (map_to_list ss').*1); [apply Hm, NoDup_fst_map_to_list|].
  apply map_eq. intros q. rewrite lookup_merge. case_decide as Hq.
  - destruct (ss' !! q) eqn:E; [done|]. destruct (Hp q) as [->|(? & ? & _ & ? & _)]; congruence.
  - destruct (Hp q) as [->|(s & s' & _ & Hs' & _)]; [done|]. exfalso. apply Hq.
    apply list_elem_of_fmap. exists (q, s'). split; [done|]. by apply elem_of_map_to_list.
Qed.

(** ** The whole disk *)

Lemma expectedRefs_children ms fs p :
  (forall q m, ms !! q = Some m -> m_forkedFrom m <> Some EmptyString) ->
  expectedRefs ms p = Z.of_nat (children (abstract (mkDisk ms fs)) p).
Proof.
  intros Hne. unfold expectedRefs, children, abstract. cbn [db files].
  rewrite map_filter_fmap, map_size_fmap. do 2 f_equal. apply map_filter_ext. intros q m Hm. cbn.
  unfold forks_from. cbn. split; [by intros [_ ?]|]. intros E. split; [|done]. rewrite E. cbn.
  apply negb_true_iff, String.eqb_neq. intros ->. by apply (Hne q m).
Qed.

(** The stream after the crash of an append that had reached the file. *)
Definition next_message (a : Append) (s s' : Stream) : Prop :=
  s' = set_messages (messages s ++ [mkStreamMessage (ap_data a) (ap_offset a) 0]) (ap_offset a) s.

Section crash.
Context (st : FileStore) (cut : string -> option nat).
Hypothesis Hst : runs_ok st.

Let fs' := files (crash cut (disk st)).
Let surviving := omap (recover_entry fs') (db (disk st)).

(** No file is gone. *)
Hypothesis Hall : forall p m, db (disk st) !! p = Some m -> is_Some (fs' !! segment m).

Lemma recovered_record p m :
  db (disk st) !! p = Some m ->
  exists m' ds' tail', surviving !! p = Some m' /\
    m_path m' = m_path m /\ segment m' = segment m /\ m_forkedFrom m' = m_forkedFrom m /\
    m_forkOffset m' = m_forkOffset m /\ m_refCount m' = m_refCount m /\
    holds fs' m' ds' tail' /\ torn tail' /\ unsynced fs' m' = 0%nat /\
    (as_stream fs' m' = as_stream (files (disk st)) m \/
     exists ab, in_file (tasks st) ab /\ ap_path ab.1 = p /\
       next_message ab.1 (as_stream (files (disk st)) m) (as_stream fs' m') /\
       appended (as_stream (files (disk st)) m) (as_stream fs' m')).
Proof using All.
  intros Hm. destruct (Hall p m Hm) as [f' Hf'].
  pose proof Hf' as Hcut. unfold fs', crash in Hcut. cbn in Hcut. rewrite map_lookup_imap in Hcut.
  destruct (files (disk st) !! segment m) as [f|] eqn:Hf; [|done]. cbn in Hcut.
  destruct (crash_frames st p m f f' _ Hst Hm Hf Hcut)
    as (ds & tail & ds' & tail' & Hh & Hds' & Htorn & Hc & Hlen & Hcr).
  pose proof Hh as (Hb & Hds & Hcont & Hcur & Hmax).
  pose proof (wf_offset_position_bound _ Hb) as Hb0.
  assert (Hmax' : position (m_base m) + Z.of_nat (length (f_content f')) < MAX_SAFE_INTEGER).
  { rewrite <-Hcont, Hf in Hmax. cbn in Hmax. lia. }
  assert (Hmax'' : position (m_base m) + Z.of_nat (length (frames ds')) <= MAX_SAFE_INTEGER).
  { rewrite Hc, length_app in Hmax'. lia. }
  pose proof (recover_entry_frames fs' m f' ds' tail' Hf' Hc Hds' Htorn Hb Hmax'') as He.
  set (m' := with_currentOffset _ m) in He. exists m', ds', tail'.
  assert (Hh' : holds fs' m' ds' tail').
  { split_and!; [done|done| |done|].
    - change (segment m') with (segment m). by rewrite Hf'.
    - change (m_base m') with (m_base m). by rewrite <-Hc. }
  split_and!; try done.
  { unfold surviving. by rewrite lookup_omap, Hm. }
  { unfold unsynced. change (segment m') with (segment m). rewrite Hf'.
    destruct (crash_file_content _ _ _ Hcut) as (_ & _ & _ & Hsy). lia. }
  destruct Hcr as [->|(ab & Hin & Hp & ->)].
  - left. unfold as_stream. rewrite (holds_own _ _ _ _ Hh'), (holds_own _ _ _ _ Hh).
    change (m_base m') with (m_base m). f_equal; [by rewrite Hcur|].
    unfold m'. rewrite <-Hcur. by destruct m.
  - right. exists ab. split; [done|]. split; [done|].
    destruct (in_file_task st Hst ab Hin) as (id & t & Ht & Ha & Hok).
    destruct (undisturbed_append _ _ _ (r_calm _ Hst id t Ht) Ha) as (m0 & Hm0 & Hs0).
    rewrite Hp in Hm0. assert (m0 = m) as -> by congruence.
    destruct (same_but_access_fields _ _ Hs0) as (Hcl & Hsd & _ & _).
    destruct Hok as (Hsd' & Hcl' & Ho & _ & Hr). rewrite <-(found_current _ _ Hs0) in Ho, Hr.
    assert (Hoff : mk_offset (position (m_base m) + Z.of_nat (length (frames (ds ++ [ap_data ab.1])))) =
                   ap_offset ab.1).
    { rewrite Ho, Hcur, frames_snoc, length_app, length_frame in *.
      destruct (holds_current _ _ _ _ Hh) as [_ Hpos]. rewrite Hcur in Hpos.
      rewrite next_offset_mk by (unfold FRAME_OVERHEAD; lia). f_equal. unfold FRAME_OVERHEAD. lia. }
    assert (Hnext : next_message ab.1 (as_stream (files (disk st)) m) (as_stream fs' m')).
    { unfold next_message, as_stream. rewrite (holds_own _ _ _ _ Hh'), file_messages_app.
      cbn [messages set_messages]. rewrite (holds_own _ _ _ _ Hh).
      change (m_base m') with (m_base m). cbn [file_messages].
      rewrite frames_snoc, length_app in Hoff.
      replace (position (m_base m) + Z.of_nat (length (frames ds)) + Z.of_nat (length (frame (ap_data ab.1))))
        with (position (m_base m) + Z.of_nat (length (frames ds) + length (frame (ap_data ab.1)))) by lia.
      rewrite Hoff. unfold m'. rewrite frames_snoc, length_app, Hoff. done. }
    split; [done|]. exists (mkStreamMessage (ap_data ab.1) (ap_offset ab.1) 0).
    split_and!; [by rewrite <-Hcl in Hcl'|by rewrite <-Hsd in Hsd'|done| |done].
    cbn [msg_data]. change (currentOffset (as_stream (files (disk st)) m)) with (m_currentOffset m). lia.
Qed.

Lemma surviving_inv p m' :
  surviving !! p = Some m' -> exists m, db (disk st) !! p = Some m.
Proof using. unfold surviving. rewrite lookup_omap. destruct (db (disk st) !! p); [by eexists|done]. Qed.

Lemma surviving_related p :
  abstract (disk st) !! p = abstract (mkDisk surviving fs') !! p \/
  exists s s', abstract (disk st) !! p = Some s /\ abstract (mkDisk surviving fs') !! p = Some s' /\
    appended s s' /\ exists ab, in_file (tasks st) ab /\ ap_path ab.1 = p /\ next_message ab.1 s s'.
Proof using All.
  rewrite !lookup_abstract. cbn [db files]. destruct (db (disk st) !! p) as [m|] eqn:Hm.
  - destruct (recovered_record p m Hm) as (m' & ds & tail & Hm' & _ & _ & _ & _ & _ & _ & _ & _ & Hs).
    rewrite Hm'. cbn [fmap option_fmap option_map].
    destruct Hs as [->|(ab & ? & ? & ? & ?)]; [by left|]. right.
    eexists _, _. split_and!; [done..|]. by exists ab.
  - left. unfold surviving. by rewrite lookup_omap, Hm.
Qed.

Lemma surviving_steps : steps true None (abstract (disk st)) (abstract (mkDisk surviving fs')).
Proof using All.
  apply pointwise_steps. intros p. destruct (surviving_related p) as [|(s & s' & ? & ? & ? & _)];
    [by left|right; by exists s, s'].
Qed.

(** The counts were right, and there is nothing to collect. *)
Lemma recover_surviving : recover (crash cut (disk st)) = mkDisk surviving fs'.
Proof using All.
  pose proof (store_ok_steps _ _ _ (r_store _ Hst) surviving_steps) as [Hg _].
  pose proof (soft_ok_steps _ _ _ _ (r_soft _ Hst) surviving_steps) as Hsoft.
  assert (Hrefs : forall p m, surviving !! p = Some m -> m_refCount m = expectedRefs surviving p).
  { intros p m Hm. rewrite (expectedRefs_children surviving fs').
    - assert (Ha : abstract (mkDisk surviving fs') !! p = Some (as_stream fs' m))
        by (by rewrite lookup_abstract; cbn [db files]; rewrite Hm).
      by apply (graph_refs _ Hg p _ Ha).
    - intros q x Hx E. assert (Ha : abstract (mkDisk surviving fs') !! q = Some (as_stream fs' x))
        by (by rewrite lookup_abstract; cbn [db files]; rewrite Hx).
      by destruct (graph_parent _ Hg q _ EmptyString Ha E). }
  assert (Hr : rebuild_refs surviving = surviving).
  { unfold rebuild_refs. rewrite <-(map_imap_Some surviving) at 2. apply map_imap_ext.
    intros p. destruct (surviving !! p) as [m|] eqn:Hm; [|done]. cbn.
    by rewrite (Hrefs p m Hm), Z.eqb_refl. }
  assert (Hc : collectible surviving = []).
  { unfold collectible. rewrite (filter_false_nil _ (map_to_list surviving)); [done|].
    apply list.Forall_forall. intros [p m] Hm%elem_of_map_to_list [Hsd He]. cbn in Hsd, He.
    rewrite <-(Hrefs p m Hm) in He.
    assert (Ha : abstract (mkDisk surviving fs') !! p = Some (as_stream fs' m))
      by (by rewrite lookup_abstract; cbn [db files]; rewrite Hm).
    pose proof (Hsoft p _ Ha Hsd) as Hpos. cbn in Hpos. lia. }
  unfold recover. change (omap (recover_entry (files (crash cut (disk st)))) (db (crash cut (disk st))))
    with surviving. rewrite Hc, Hr. done.
Qed.

(** Every file ends with a frame, or with part of one; all of it is on the disk. *)
Lemma recover_disk_ok : disk_ok (fun _ tail u => torn tail /\ u = 0%nat) (recover (crash cut (disk st))).
Proof using All.
  rewrite recover_surviving. destruct (r_disk _ Hst) as [Hd Hp _]. split; cbn [db files].
  - intros p q x y Hx Hy E. cbn [db] in Hx, Hy. destruct (surviving_inv p x Hx) as [m Hm], (surviving_inv q y Hy) as [n Hn].
    destruct (recovered_record p m Hm) as (x' & _ & _ & Hx' & _ & Ex & _).
    destruct (recovered_record q n Hn) as (y' & _ & _ & Hy' & _ & Ey & _).
    apply (Hd p q m n Hm Hn). congruence.
  - intros p x Hx. destruct (surviving_inv p x Hx) as [m Hm].
    destruct (recovered_record p m Hm) as (x' & _ & _ & Hx' & Epath & _ & Eff & Efo & _).
    assert (x' = x) as -> by congruence. rewrite Epath, Eff, Efo. by apply Hp.
  - intros p x Hx. destruct (surviving_inv p x Hx) as [m Hm].
    destruct (recovered_record p m Hm) as (x' & ds & tail & Hx' & _ & _ & _ & _ & _ & Hh & Ht & Hu & _).
    assert (x' = x) as -> by congruence. by exists ds, tail.
Qed.
End crash.

(** A file that a crash did not cut inside a frame. *)
Definition whole (f : File) : Prop :=
  scan_loop (length (f_content f)) (f_content f) 0 = Z.of_nat (length (f_content f)).

(** No file is gone, and none is cut inside a frame. *)
Definition clean_crash (cut : string -> option nat) (d : Disk) : Prop :=
  map_Forall (fun _ m => match files (crash cut d) !! segment m with
                         | Some f => whole f
                         | None => False
                         end) (db d).

#[export] Instance clean_crash_dec cut d : Decision (clean_crash cut d).
Proof.
  unfold clean_crash. apply map_Forall_dec. intros p m. unfold whole. case_match; apply _.
Defined.

Lemma scan_at_end f ds tail :
  f_content f = frames ds ++ tail -> fits ds -> torn tail -> whole f -> tail = [].
Proof.
  unfold whole. intros -> Hds Ht Hw.
  assert (Hs : scan_loop (length (frames ds ++ tail)) (frames ds ++ tail) 0 = Z.of_nat (length (frames ds))).
  { destruct (decide (length ds < length (frames ds ++ tail))%nat) as [Hl|Hl];
      [by rewrite scan_frames by done|].
    pose proof (frames_length_ge ds) as Hge. rewrite length_app in Hl.
    destruct ds as [|b ds].
    - rewrite scan_torn by done. done.
    - exfalso. rewrite frames_cons, length_app, length_frame in *.
      pose proof (frames_length_ge ds). cbn in *. lia. }
  rewrite Hs, length_app in Hw. destruct tail; [done|]. cbn in Hw. lia.
Qed.

(** After a clean crash, the store goes on from a good state. *)
Lemma restart_ok st cut n :
  runs_ok st -> clean_crash cut (disk st) ->
  runs_ok (mkFileStore (recover (crash cut (disk st))) ∅ n) /\
  steps true None (abstract (disk st)) (abstract (recover (crash cut (disk st)))).
Proof.
  intros Hst Hclean.
  assert (Hall : forall p m, db (disk st) !! p = Some m -> is_Some (files (crash cut (disk st)) !! segment m)).
  { intros p m Hm. specialize (Hclean p m Hm). cbn beta in Hclean.
    destruct (files (crash cut (disk st)) !! segment m); [by eexists|done]. }
  pose proof (surviving_steps st cut Hst Hall) as Hs.
  pose proof (recover_disk_ok st cut Hst Hall) as Hd.
  rewrite recover_surviving in Hd |- * by done. split; [|done].
  split; cbn [disk tasks nextTask]; try (intros; by rewrite lookup_empty in * ).
  - destruct Hd as [H1 H2 H3]. split; [done|done|]. intros p m Hm.
    destruct (H3 p m Hm) as (ds & tail & Hh & Ht & Hu). exists ds, tail. split; [done|].
    left. split_and!; [|done|by intros ab (id & t & Ht' & _)].
    destruct (surviving_inv st cut p m Hm) as [m0 Hm0].
    destruct (recovered_record st cut Hst Hall p m0 Hm0) as (m' & _ & _ & Hm' & _ & Eseg & _).
    assert (m' = m) as -> by (cbn [db] in Hm; congruence).
    specialize (Hclean p m0 Hm0). cbn beta in Hclean. rewrite <-Eseg in Hclean.
    destruct Hh as (_ & Hds & Hcont & _ & _). cbn [files] in Hcont.
    destruct (files (crash cut (disk st)) !! segment m) as [f|]; [|done].
    cbn [fmap option_fmap option_map or_else] in Hcont. by apply (scan_at_end f ds tail).
  - by eapply store_ok_steps, Hs; apply Hst.
  - by eapply soft_ok_steps, Hs; apply Hst.
  - intros id t Ht. cbn [tasks] in Ht. by rewrite lookup_empty in Ht.
Qed.

(** The abort of an append that a crash interrupts is clean for the others:
    what a crash leaves of each stream, whether or not a file is cut. *)
Definition interrupted (st : FileStore) (p : string) (a : Append) : Prop :=
  exists n, in_file (tasks st) (a, n) /\ ap_path a = p.

(** C11: a crash loses no stream and no message that was there, and shows at most
    the appends it interrupted.  In a state with the invariant [runs_ok], which the
    runs of C7 keep, let the process crash at any point, each file losing any part of
    what was not synced, inside a frame or not, but none disappearing; then after
    [recover] each stream is exactly as it was before the crash, or it is that stream
    with one more message, which is the one an append in flight had already written.
    No stream appears: the change is one the abstract store allows without a creation;
    and the store has the invariant of C1 again. *)
Theorem crash_recovery st cut :
  runs_ok st ->
  (forall p m, db (disk st) !! p = Some m -> is_Some (files (crash cut (disk st)) !! segment m)) ->
  let d' := recover (crash cut (disk st)) in
  steps true None (abstract (disk st)) (abstract d') /\ store_ok (abstract d') /\
  forall p s, abstract (disk st) !! p = Some s ->
    abstract d' !! p = Some s \/
    exists a s', interrupted st p a /\ abstract d' !! p = Some s' /\ next_message a s s'.
Proof.
  intros Hst Hall d'. unfold d'. rewrite recover_surviving by done.
  pose proof (surviving_steps st cut Hst Hall) as Hs. split_and!; [done| |].
  - by eapply store_ok_steps, Hs; apply Hst.
  - intros p s Hp. destruct (surviving_related st cut Hst Hall p) as [E|(t & t' & Ht & Ht' & _ & ab & Hin & Hpath & Hn)].
    + left. by rewrite <-E.
    + right. exists ab.1, t'. assert (t = s) as -> by congruence. split_and!; [|done|done].
      exists ab.2. by destruct ab.
Qed.

(** ** Wrong counts *)

(** The collection of streams leaves soft-deleted only what a fork needs, and
    what is still to be collected. *)
Definition soft_but (l : list string) (ss : gmap string Stream) : Prop :=
  forall p s, ss !! p = Some s -> softDeleted s = true -> 0 < refCount s \/ p ∈ l.

Lemma soft_but_cascade l ss p :
  is_Some (ss !! p) ->
  (forall i s, i <> p -> ss !! i = Some s -> softDeleted s = true -> 0 < refCount s \/ i ∈ l) ->
  soft_but l (cascade p ss).
Proof.
  remember (size ss) as n eqn:Hn. revert ss p Hn.
  induction (lt_wf n) as [n _ IH]. intros ss p -> [s Hp] Hs.
  rewrite cascade_unfold, Hp. cbn zeta.
  assert (Hd : soft_but l (delete p ss)).
  { intros i t [Hi Ht]%lookup_delete_Some. by apply (Hs i). }
  destruct (truthy _); [|done]. destruct (delete p ss !! _) as [t|] eqn:Ht; [|done].
  set (q := or_else (forkedFrom s) EmptyString) in *.
  set (refs := Z.max 0 (refCount t - 1)).
  assert (Hother : forall i u, i <> q -> alter (set_refCount refs) q (delete p ss) !! i = Some u ->
    softDeleted u = true -> 0 < refCount u \/ i ∈ l).
  { intros i u Hi Hu. rewrite lookup_alter_ne in Hu by done. by apply (Hd i). }
  destruct (_ && _) eqn:Hc.
  - eapply IH; [|reflexivity|by rewrite lookup_alter_eq, Ht; eexists|done].
    rewrite map_size_alter, map_size_delete, Hp.
    assert (size ss <> 0%nat) by (apply map_size_non_empty_iff; intros ->; by rewrite lookup_empty in Hp).
    lia.
  - intros i u Hu Hsoft. destruct (decide (i = q)) as [->|]; [|by eapply Hother].
    rewrite lookup_alter_eq, Ht in Hu. injection Hu as <-. cbn in *. rewrite Hsoft, andb_true_r in Hc.
    apply Z.eqb_neq in Hc. left. lia.
Qed.

(** The graph without its counts. *)
Record forest (ss : gmap string Stream) : Prop := {
  forest_path : forall p s, ss !! p = Some s -> path s = p;
  forest_parent : forall p s q, ss !! p = Some s -> forkedFrom s = Some q ->
    q <> EmptyString /\ is_Some (ss !! q);
  forest_rank : exists rank : string -> nat, forall p s q,
    ss !! p = Some s -> forkedFrom s = Some q -> (rank q < rank p)%nat;
}.

Lemma forest_graph ss :
  forest ss -> (forall p s, ss !! p = Some s -> refCount s = Z.of_nat (children ss p)) -> graph_ok ss.
Proof. intros [H1 H2 H3] Hr. by split. Qed.

(** A collection lowers counts. *)
Lemma cascade_refs p ss q s' :
  cascade p ss !! q = Some s' ->
  exists s, ss !! q = Some s /\ (refCount s <= 0 -> refCount s' <= 0) /\ softDeleted s' = softDeleted s.
Proof.
  unfold cascade. generalize (S (size ss)) as fuel. intros fuel. revert p ss.
  induction fuel as [|fuel IH]; intros p ss; [by eauto|]. cbn [cascade_fuel].
  destruct (ss !! p) as [s|] eqn:Hp; [|by eauto]. cbn zeta.
  assert (Hdel : delete p ss !! q = Some s' ->
    exists s, ss !! q = Some s /\ (refCount s <= 0 -> refCount s' <= 0) /\ softDeleted s' = softDeleted s).
  { intros [_ ?]%lookup_delete_Some. by exists s'. }
  destruct (truthy _); [|exact Hdel]. destruct (delete p ss !! or_else (forkedFrom s) EmptyString) as [t|] eqn:Ht; [|exact Hdel].
  assert (Halt : forall x, alter (set_refCount (Z.max 0 (refCount t - 1))) (or_else (forkedFrom s) EmptyString)
      (delete p ss) !! q = Some x ->
    exists s, ss !! q = Some s /\ (refCount s <= 0 -> refCount x <= 0) /\ softDeleted x = softDeleted s).
  { intros x. rewrite lookup_alter. case_decide as E.
    - subst q. rewrite Ht. intros [= <-]. exists t. apply lookup_delete_Some in Ht as [_ Ht].
      split_and!; [done|cbn; lia|done].
    - intros [_ ?]%lookup_delete_Some. by exists x. }
  destruct (_ && _); [|by apply Halt]. intros (x & Hx & Hr & Hs)%IH.
  destruct (Halt x Hx) as (y & Hy & Hr' & Hs'). exists y. split_and!; [done|auto|congruence].
Qed.

(** The collection at the end of a recovery. *)
Lemma collect_ok l d :
  distinct d -> graph_ok (abstract d) -> soft_but l (abstract d) ->
  (forall p s, p ∈ l -> abstract d !! p = Some s -> refCount s <= 0) ->
  let d' := foldl (fun d p => collect p d) d l in
  graph_ok (abstract d') /\ soft_ok (abstract d').
Proof.
  revert d. induction l as [|p l IH]; intros d Hd Hg Hs Hl; cbn [foldl].
  - split; [done|]. intros q s Hq Hsd. destruct (Hs q s Hq Hsd) as [|?%not_elem_of_nil]; done.
  - destruct (collect_abstract p d Hd) as [Hk Ha]. apply IH.
    + by eapply distinct_keeps.
    + rewrite Ha. destruct (abstract d !! p) as [s|] eqn:Hp; [|by rewrite cascade_unfold, Hp].
      eapply graph_cascade; [done..|]. pose proof (graph_refs _ Hg p s Hp).
      pose proof (Hl p s ltac:(by constructor) Hp). lia.
    + rewrite Ha. destruct (abstract d !! p) as [s|] eqn:Hp.
      * apply soft_but_cascade; [by eexists|]. intros i t Hi Ht Hsd.
        destruct (Hs i t Ht Hsd) as [|[?|?]%elem_of_cons]; [by left|done|by right].
      * rewrite cascade_unfold, Hp. intros i t Ht Hsd.
        destruct (Hs i t Ht Hsd) as [|[->|?]%elem_of_cons]; [by left|congruence|by right].
    + intros q s Hq. rewrite Ha. intros (t & Ht & Hr & _)%cascade_refs. apply Hr.
      apply (Hl q t); [by constructor|done].
Qed.

Section counts.
Context (d : Disk).

Let surviving := omap (recover_entry (files d)) (db d).
Let rebuilt := mkDisk (rebuild_refs surviving) (files d).

(** The records that name a file form a forest; their counts may be anything. *)
Hypothesis Hdist : distinct d.
Hypothesis Hforest : forest (abstract (mkDisk surviving (files d))).

Lemma surviving_stream p m :
  surviving !! p = Some m ->
  abstract (mkDisk surviving (files d)) !! p = Some (as_stream (files d) m).
Proof using. intros Hm. rewrite lookup_abstract. cbn [db files]. by rewrite Hm. Qed.

Lemma rebuilt_lookup p :
  rebuild_refs surviving !! p =
  (fun m => with_refCount (expectedRefs surviving p) m) <$> surviving !! p.
Proof using.
  unfold rebuild_refs. rewrite map_lookup_imap. destruct (surviving !! p) as [m|]; [|done]. cbn.
  f_equal. destruct (Z.eqb_spec (m_refCount m) (expectedRefs surviving p)) as [<-|]; [|done].
  by destruct m.
Qed.

(** A rebuilt stream is the surviving one with another count. *)
Lemma rebuilt_stream p s :
  abstract rebuilt !! p = Some s ->
  exists m, surviving !! p = Some m /\
    s = set_refCount (expectedRefs surviving p) (as_stream (files d) m).
Proof using.
  rewrite lookup_abstract. cbn [db rebuilt files]. rewrite rebuilt_lookup.
  destruct (surviving !! p) as [m|]; [|done]. intros [= <-]. by exists m.
Qed.

Lemma rebuilt_children p : Z.of_nat (children (abstract rebuilt) p) = expectedRefs surviving p.
Proof using Hforest.
  rewrite (expectedRefs_children surviving (files d)).
  - f_equal. apply children_sources. intros q. rewrite !lookup_abstract. cbn [db rebuilt files].
    rewrite rebuilt_lookup. by destruct (surviving !! q).
  - intros q m Hm E.
    by destruct (forest_parent _ Hforest q _ EmptyString (surviving_stream q m Hm) E).
Qed.

Lemma rebuilt_graph : graph_ok (abstract rebuilt).
Proof using Hforest.
  apply forest_graph.
  - destruct Hforest as [H1 H2 [rank H3]]. split.
    + intros p s (m & Hm & ->)%rebuilt_stream. apply (H1 p _ (surviving_stream p m Hm)).
    + intros p s q (m & Hm & ->)%rebuilt_stream Hq.
      destruct (H2 p _ q (surviving_stream p m Hm) Hq) as [Hne [t Ht]]. split; [done|].
      rewrite lookup_abstract in Ht |- *. cbn [db rebuilt files] in *. rewrite rebuilt_lookup.
      destruct (surviving !! q); [by eexists|done].
    + exists rank. intros p s q (m & Hm & ->)%rebuilt_stream Hq.
      apply (H3 p _ q (surviving_stream p m Hm) Hq).
  - intros p s Hs. rewrite rebuilt_children. by apply rebuilt_stream in Hs as (m & _ & ->).
Qed.

Lemma rebuilt_distinct : distinct rebuilt.
Proof using Hdist.
  assert (Hd : forall p m, db rebuilt !! p = Some m -> exists x, db d !! p = Some x /\ segment m = segment x).
  { intros p m. cbn [db rebuilt]. rewrite rebuilt_lookup. unfold surviving. rewrite lookup_omap.
    destruct (db d !! p) as [x|]; [|done]. cbn. unfold recover_entry.
    destruct (files d !! segment x); [|done]. cbn. intros [= <-]. exists x. split; [done|].
    by destruct (negb _). }
  intros p q m m' (x & Hx & Ex)%Hd (y & Hy & Ey)%Hd E. apply (Hdist p q x y Hx Hy). congruence.
Qed.

Lemma rebuilt_soft : soft_but (collectible surviving) (abstract rebuilt).
Proof using Hforest.
  intros p s Hp Hsd. pose proof (rebuilt_stream p s Hp) as (m & Hm & ->).
  cbn in Hsd |- *. rewrite <-rebuilt_children.
  destruct (decide (children (abstract rebuilt) p = 0%nat)) as [E|]; [right|left; lia].
  unfold collectible. apply list_elem_of_fmap. exists (p, m). split; [done|].
  apply list_elem_of_filter. cbn. split; [|by apply elem_of_map_to_list].
  split; [done|]. by rewrite <-rebuilt_children, E.
Qed.

Lemma recover_graph :
  graph_ok (abstract (recover d)) /\ soft_ok (abstract (recover d)).
Proof using All.
  apply (collect_ok (collectible surviving) rebuilt);
    [apply rebuilt_distinct|apply rebuilt_graph|apply rebuilt_soft|].
  intros p s Hin (m & _ & ->)%rebuilt_stream. cbn.
  unfold collectible in Hin. apply list_elem_of_fmap in Hin as ([q x] & -> & Hin).
  apply list_elem_of_filter in Hin as [[_ He] _]. cbn in *. lia.
Qed.
End counts.

(** C15: recovery restores the reference counts, whatever they were before:
    when the streams whose files are there form a forest of forks, every count
    is afterwards the number of forks, and no soft-deleted stream is kept
    without one. *)
Theorem recover_counts d :
  distinct d ->
  forest (abstract (mkDisk (omap (recover_entry (files d)) (db d)) (files d))) ->
  graph_ok (abstract (recover d)) /\ soft_ok (abstract (recover d)).
Proof. apply recover_graph. Qed.
