(* ===== verification/FileTheorems.v ===== *)
(** * The file-backed store refines the abstract store

    [step_refines]: whatever happens next, as long as nobody disturbs a call
    that awaits and no disk operation fails, the invariant is kept and the
    streams on the disk change as the abstract store of StoreSteps allows.
    With it, what is proved of the steps holds of the file-backed store. *)

From S2P Require Import Prelude Offsets Producer Text Json Types JsonMode StreamStore StoreLemmas StoreSteps StoreGraph FileFrames FileStore FileRuns FileAbstract FileInvariant FileCreate FileTasks FileRecovery.
Local Open Scope js_scope.

Section step.
Context `{!JsonLib} `{!DateLib}.

(** ** What is asked of an event *)

(** No disk operation fails; a stream stays within the safe integers; the name
    of a new file is new; a stream that is created over an expired one replaces
    one without forks; a stream does not expire while it is created; and a crash
    loses no file and cuts none inside a frame (FileRecovery says what happens
    to the streams otherwise). *)
Definition event_safe (ev : Event) (st : FileStore) : Prop :=
  match ev with
  | DoCall _ _ | CloseWithProducer _ _ _ _ _ => True
  | BeginCreate now dirName p o =>
      mutation_locked (tasks st) = true \/ create_safe now p dirName o (disk st)
  | BeginAppend _ p data _ =>
      match db (disk st) !! p with Some m => file_room m data false | None => True end
  | Go now id ok =>
      ok = true /\
      match tasks st !! id with
      | Some (Initial c) =>
          match db (disk st) !! cr_path c with
          | Some m =>
              isExpired now m = false /\
              file_room m (or_else (co_initialData (cr_options c)) []) true
          | None => True
          end
      | _ => True
      end
  | Restart cut => clean_crash cut (disk st)
  end.

#[export] Instance event_safe_dec ev st : Decision (event_safe ev st).
Proof. unfold event_safe. repeat case_match; apply _. Defined.

(** The path an event may create. *)
Definition created_by (ev : Event) : option string :=
  match ev with BeginCreate _ _ p _ => Some p | _ => None end.

Lemma locked_false (f : nat * Task -> bool) (ts : gmap nat Task) id t :
  existsb f (map_to_list ts) = false -> ts !! id = Some t -> f (id, t) = false.
Proof.
  intros He Ht. destruct (f (id, t)) eqn:Hf; [|done].
  assert (existsb f (map_to_list ts) = true); [|congruence].
  apply existsb_exists. exists (id, t). split; [|done].
  apply list_elem_of_In. by apply elem_of_map_to_list.
Qed.

Lemma append_unlocked p ts id t a :
  append_locked p ts = false -> ts !! id = Some t -> append_of t = Some a -> ap_path a <> p.
Proof.
  intros Hl Ht Ha E. pose proof (locked_false _ _ _ _ Hl Ht) as Hf. cbn in Hf.
  rewrite Ha, E, String.eqb_refl in Hf. done.
Qed.

(** ** The synchronous calls *)

Lemma step_call st d' :
  runs_ok st -> refines None (disk st) d' -> calm (with_disk d' st) ->
  runs_ok (with_disk d' st) /\ steps true None (abstract (disk st)) (abstract d').
Proof.
  intros Hst [Hk Hs] Hc. split; [|done]. eapply rebuild_same; [done|by apply keeps_grows|done| |done].
  eapply keeps_ok; [done|apply Hst].
Qed.

(** ** A task appears *)

Lemma no_task st : runs_ok st -> tasks st !! nextTask st = None.
Proof. intros Hst. by apply (r_next _ Hst). Qed.

Lemma new_not_written st : runs_ok st -> not_written (nextTask st) (tasks st).
Proof. intros Hst t Ht. rewrite no_task in Ht by done. done. Qed.

Lemma step_create now dirName p o st st' out :
  runs_ok st -> create_safe now p dirName o (disk st) ->
  step (BeginCreate now dirName p o) st = (st', out) -> calm st' ->
  runs_ok st' /\ steps true (Some p) (abstract (disk st)) (abstract (disk st')).
Proof.
  intros Hst Hsafe. cbn [step]. destruct (mutation_locked (tasks st)) eqn:Hl.
  { intros [= <- <-] _. split; [done|apply rtc_refl]. }
  set (T' := fun q tail u => (q = p /\ tail = [] /\ u = 0%nat) \/ (q <> p /\ tail_of (tasks st) q tail u)).
  pose proof (create_begin_spec now (tail_of (tasks st)) T' p dirName o (disk st) (r_disk _ Hst)
    (r_store _ Hst) (r_soft _ Hst) Hsafe ltac:(by left) ltac:(by right)) as Hb.
  assert (Hother : forall d', keeps (disk st) d' /\ steps true (Some p) (abstract (disk st)) (abstract d') ->
    calm (with_disk d' st) -> runs_ok (with_disk d' st) /\ steps true (Some p) (abstract (disk st)) (abstract d')).
  { intros d' [Hk Hs] Hc'. split; [|done]. eapply rebuild_same; [done|by apply keeps_grows|done| |done].
    eapply keeps_ok; [done|apply Hst]. }
  destruct (create_begin now p dirName o (disk st)) as [d' [[s|c]|e]]; intros [= <- <-] Hc;
    [by apply Hother| |by apply Hother].
  destruct Hb as (Hp & _ & Hcok & [Hrec Hseg] & Hd & Hg & Hs). split; [|done]. unfold spawn.
  eapply (rebuild_insert (Some p)); [done|done|done|lia|lia| |done| |done].
  - eapply disk_ok_weaken; [|done]. intros q m tail n Hm [(-> & -> & ->)|[Hq Ht]];
      [|by apply tail_of_insert; [apply new_not_written|..]].
    left. split_and!; [done|done|]. intros [a b] [[=]|(j & u & Hj & Hu & Hw)]%in_file_insert Ea.
    apply written_append in Hw as Ha.
    assert (Hj' : tasks (spawn d' (Opening c) st) !! j = Some u) by (cbn; by rewrite lookup_insert_ne).
    destruct (undisturbed_append _ _ _ (r_calm _ Hst _ _ Hu) Ha) as (m0 & Hm0 & Hs0).
    destruct (undisturbed_append _ _ _ (Hc _ _ Hj') Ha) as (m1 & Hm1 & Hs1). cbn in Hm1.
    cbn in Ea, Hm0; rewrite Ea in Hm0, Hm1. rewrite Hp in Hrec. assert (m1 = cr_meta c) as -> by congruence.
    destruct Hsafe as (_ & [_ Hfr] & _). apply (Hfr p m0 Hm0).
    rewrite (same_but_access_segment _ _ Hs0), <-(same_but_access_segment _ _ Hs1). done.
  - split; [done|]. intros c' [= <-]. done.
Qed.

(** An append begins. *)
Lemma step_append now p data o st st' out :
  runs_ok st -> event_safe (BeginAppend now p data o) st ->
  step (BeginAppend now p data o) st = (st', out) -> calm st' ->
  runs_ok st' /\ steps true None (abstract (disk st)) (abstract (disk st')).
Proof.
  intros Hst Hsafe. cbn [step]. destruct (_ || _) eqn:Hl.
  { intros [= <- <-] _. split; [done|apply rtc_refl]. }
  apply orb_false_iff in Hl as [Hl _].
  destruct (append_begin now p data o false (disk st)) as [d' r] eqn:Hb.
  apply (append_begin_spec now None) in Hb as (d1 & Hr & Hb); [|apply Hst|].
  2: { intros m Hm. cbn in Hsafe. by rewrite Hm in Hsafe. }
  destruct r as [r|a]; intros [= <- <-] Hc.
  - assert (Hd : same_contents d1 d').
    { destruct Hb as [->|(m & _ & ->)]; [by split|apply same_contents_open]. }
    destruct Hr as [Hk Hs]. cbn [disk with_disk]. rewrite (same_contents_abstract _ _ Hd).
    split; [|done]. eapply (rebuild_same None); [done| | | |done].
    + apply survives_grows. etrans; [by apply survives_keeps|].
      destruct Hb as [->|(m & _ & ->)]; [done|apply survives_open].
    + by rewrite (same_contents_abstract _ _ Hd).
    + eapply same_contents_ok; [done|]. eapply keeps_ok; [done|apply Hst].
  - destruct Hb as (-> & Hm & -> & Hp & Ha). pose proof (same_contents_open (segment (ap_meta a)) (disk st)) as Hd.
    cbn [disk spawn]. rewrite (same_contents_abstract _ _ Hd). split; [|apply rtc_refl]. unfold spawn.
    eapply (rebuild_insert None); [done| | |lia|lia| |done| |].
    + apply survives_grows, survives_open.
    + rewrite (same_contents_abstract _ _ Hd). apply rtc_refl.
    + eapply same_contents_ok; [done|]. eapply disk_ok_weaken; [|apply Hst].
      intros q m tail u _. apply tail_of_insert; [by apply new_not_written|done].
    + split; [by intros ? [= <-]|done].
    + intros b [= <-]. split; [by apply open_file_spec|]. intros j u b Hj Hu Hb. rewrite Hp.
      by eapply append_unlocked.
Qed.

(** ** A task goes on *)

Section go.
Context (st : FileStore) (id : nat) (t : Task).
Hypothesis Hst : runs_ok st.
Hypothesis Hid : tasks st !! id = Some t.

Lemma id_known : (id < nextTask st)%nat.
Proof using All.
  destruct (decide (id < nextTask st)%nat); [done|]. rewrite (r_next _ Hst) in Hid by lia. done.
Qed.

Lemma undisturbed_now : undisturbed (disk st) t.
Proof using All. by apply (r_calm _ Hst id t). Qed.

(** A creation ends, and its task with it. *)
Lemma go_finish c d st' out :
  steps true None (abstract (disk st)) (abstract d) -> survives (disk st) d ->
  disk_ok (tail_of (delete id (tasks st))) d ->
  finish_create id c d st = (st', out) -> calm st' ->
  runs_ok st' /\ steps true None (abstract (disk st)) (abstract (disk st')).
Proof using All.
  intros Hs Hg Hd. unfold finish_create. pose proof (refines_finish None c d) as Hr.
  destruct (create_finish c d) as [d' r']. intros [= <- <-] Hc. destruct Hr as [Hk Hs'].
  cbn [fst] in *. assert (steps true None (abstract (disk st)) (abstract d'))
    by (unfold steps in *; by etrans).
  split; [|done]. eapply rebuild_delete; [done| |done| |done].
  - apply survives_grows. etrans; [done|]. by apply survives_keeps.
  - by eapply keeps_ok.
Qed.

(** The initial data is refused, and the creation is undone. *)
Lemma go_rollback c e d st' out :
  creating_of t = Some c -> written t = None -> append_of t = None ->
  same_contents (disk st) d -> survives (disk st) d -> db d = db (disk st) ->
  fail_create id c e d st = (st', out) -> calm st' ->
  runs_ok st' /\ steps true None (abstract (disk st)) (abstract (disk st')).
Proof using All.
  intros Hc Hw Ha Hsame Hsurv Hdb. unfold fail_create. intros [= <- <-] Hcalm.
  destruct undisturbed_now as [Hu1 Hu2]. rewrite Hc in Hu2.
  assert (Hrec : exists m, db (disk st) !! cr_path c = Some m /\ same_but_access m (cr_meta c)).
  { destruct t as [x|x| | |]; cbn in Ha, Hc; try done; injection Hc as ->;
      (destruct (db (disk st) !! cr_path c) as [m|]; [|done]); by exists m. }
  destruct Hrec as (m & Hm & Hs). rewrite <-Hdb in Hu2, Hm.
  pose proof (same_contents_ok _ _ _ Hsame (r_disk _ Hst)) as Hok.
  destruct (refines_rollback None c m d (ok_distinct _ _ Hok) Hm Hs) as [Hk Hs'];
    [by eapply task_creating; [eapply r_task|]|done|].
  rewrite (same_contents_abstract _ _ Hsame) in Hs'. split; [|done].
  eapply rebuild_delete; [done| |done| |done].
  - apply survives_grows. etrans; [done|]. by apply survives_keeps.
  - eapply keeps_ok; [done|]. eapply disk_ok_weaken; [|done].
    intros q x tail n _. apply tail_of_delete. intros u Hu. congruence.
Qed.

(** A task moves to its next stage. *)
Lemma go_become d t' :
  steps true None (abstract (disk st)) (abstract d) -> survives (disk st) d ->
  disk_ok (tail_of (<[id := t']> (tasks st))) d -> task_ok t' ->
  (forall a, append_of t' = Some a -> is_Some (files d !! segment (ap_meta a)) /\
     forall j u b, j <> id -> tasks st !! j = Some u -> append_of u = Some b -> ap_path b <> ap_path a) ->
  calm (become d id t' st) -> runs_ok (become d id t' st).
Proof using All.
  intros Hs Hg Hd Ht Ha Hc. unfold become in *.
  eapply (rebuild_insert None); [done| |done|done|apply id_known|done..]. by apply survives_grows.
Qed.
(** The file of an append in flight, and the record it found. *)
Lemma in_flight a :
  append_of t = Some a ->
  exists m, db (disk st) !! ap_path a = Some m /\ same_but_access m (ap_meta a) /\ append_ok a /\
    is_Some (files (disk st) !! segment (ap_meta a)).
Proof using All.
  intros Ha. destruct (undisturbed_append _ _ _ undisturbed_now Ha) as (m & Hm & Hs). exists m.
  split_and!; [done..|by eapply task_append; [eapply r_task|]|by eapply (r_files _ Hst)].
Qed.

Lemma go_written a after time st' :
  t = Writing a after -> st' = become (append_written a (disk st)) id (Syncing a after time) st ->
  calm st' -> runs_ok st' /\ steps true None (abstract (disk st)) (abstract (disk st')).
Proof using All.
  intros Ht -> Hc. assert (Ha : append_of t = Some a) by (by subst t).
  destruct (in_flight a Ha) as (m & Hm & Hs & Hok & Hf).
  destruct (written_ok _ a m _ (r_disk _ Hst) Hok Hm Hs Hf
    (tail_of (<[id := Syncing a after time]> (tasks st)))) as [Hd Habs].
  - intros tail u. eapply tail_before; [done|done|done|by subst t].
  - intros u Hu. by eapply tail_written.
  - intros p tail u Hp. eapply tail_other_insert; [done|done|done| |done]. by intros b [= <-].
  - cbn [disk become] in *. rewrite Habs. split; [|apply rtc_refl].
    apply go_become; [by rewrite Habs; apply rtc_refl|apply survives_alter|done| | |done].
    + subst t. destruct (r_task _ Hst _ _ Hid) as [H1 H2]. by split.
    + intros b [= <-]. split; [by apply lookup_alter_is_Some|]. by apply (alone st id t a).
Qed.

Lemma go_synced a after time st' :
  t = Syncing a after time -> st' = become (append_synced a (disk st)) id (Putting a after time) st ->
  calm st' -> runs_ok st' /\ steps true None (abstract (disk st)) (abstract (disk st')).
Proof using All.
  intros Ht -> Hc. assert (Ha : append_of t = Some a) by (by subst t).
  destruct (in_flight a Ha) as (m & Hm & Hs & Hok & Hf).
  destruct (synced_ok _ a m _ (r_disk _ Hst) Hok Hm Hs Hf
    (tail_of (<[id := Putting a after time]> (tasks st)))) as [Hd Habs].
  { intros tail u Ht'. eapply tail_after in Ht' as [-> _]; [|done|done|done|by subst t].
    by eapply tail_written. }
  { intros p tail u Hp. eapply tail_other_insert; [done|done|done| |done]. by intros b [= <-]. }
  cbn [disk become] in *. rewrite Habs. split; [|apply rtc_refl].
  apply go_become; [by rewrite Habs; apply rtc_refl|apply survives_alter|done| | |done].
  - subst t. destruct (r_task _ Hst _ _ Hid) as [H1 H2]. by split.
  - intros b [= <-]. split; [by apply lookup_alter_is_Some|]. by apply (alone st id t a).
Qed.

Lemma go_put a after time :
  t = Putting a after time ->
  let d := append_put a (disk st) in
  steps true None (abstract (disk st)) (abstract d) /\ survives (disk st) d /\
  disk_ok (tail_of (delete id (tasks st))) d.
Proof using All.
  intros Ht d. assert (Ha : append_of t = Some a) by (by subst t).
  destruct (in_flight a Ha) as (m & Hm & Hs & Hok & Hf).
  assert (HT : forall tail u, tail_of (tasks st) (ap_path a) tail u ->
    tail = frame (ap_data a) /\ u = 0%nat).
  { intros tail u Hu. eapply tail_after in Hu as [-> Hu]; [|done|done|done|by subst t].
    split; [done|lia]. }
  split_and!.
  - by eapply (put_steps None _ a m); [apply (r_disk _ Hst)|..].
  - intros p x. cbn. rewrite lookup_insert. case_decide as E.
    + intros [= <-]. subst p. exists m. split_and!; [done|by eapply put_segment|done].
    + intros Hx. by exists x.
  - eapply (put_ok None _ a m); [apply (r_disk _ Hst)|done|done|done|done| |].
    + by eapply tail_done.
    + intros p tail u Hp. by eapply tail_other_delete.
Qed.

(** The initial data of a creation. *)
Lemma append_begin_live now p data o init m d d' r :
  db d !! p = Some m -> isExpired now m = false -> append_begin now p data o init d = (d', r) ->
  d' = d \/ d' = open_file (segment m) d.
Proof using.
  intros Hm He. unfold append_begin, getMetaIfNotExpired. rewrite Hm, He.
  repeat case_match; intros [= <- <-]; auto.
Qed.

Lemma go_initial now c st' out :
  t = Initial c -> event_safe (Go now id true) st -> go now id t true st = (st', out) -> calm st' ->
  runs_ok st' /\ steps true None (abstract (disk st)) (abstract (disk st')).
Proof using All.
  intros Ht [_ Hsafe] Hgo Hc. rewrite Hid, Ht in Hsafe. destruct undisturbed_now as [Hu Hsrc].
  rewrite Ht in Hu, Hgo. cbn [go] in Hgo.
  destruct (db (disk st) !! cr_path c) as [m|] eqn:Hm; [|done]. destruct Hsafe as [He Hroom].
  destruct (append_locked (cr_path c) (tasks st)) eqn:Hl;
    [injection Hgo as <- <-; by split; [|apply rtc_refl]|].
  destruct (append_begin _ _ _ _ _ _) as [d r] eqn:Hb.
  pose proof (append_begin_live _ _ _ _ _ _ _ _ _ Hm He Hb) as Hd.
  assert (Hsame : same_contents (disk st) d)
    by (destruct Hd as [->| ->]; [by split|apply same_contents_open]).
  assert (Hsurv : survives (disk st) d)
    by (destruct Hd as [->| ->]; [done|apply survives_open]).
  pose proof (same_contents_abstract _ _ Hsame) as Habs.
  apply (append_begin_spec now None) in Hb as (d1 & _ & Hb); [|apply Hst|];
    [|intros x Hx; by rewrite Hm in Hx; injection Hx as <-].
  destruct r as [[r|e]|a].
  - eapply go_finish; [..|done|done]; [by rewrite Habs; apply rtc_refl|done|].
    eapply same_contents_ok; [done|]. eapply disk_ok_weaken; [|apply Hst].
    intros q x tail n _. apply tail_of_delete. intros u Hu0. rewrite Hid, Ht in Hu0. by injection Hu0 as <-.
  - eapply (go_rollback c e d); [by subst t|by subst t|by subst t|done|done| |done|done].
    by destruct Hd as [->| ->].
  - injection Hgo as <- <-. destruct Hb as (_ & Hm' & Hd' & Hp & Ha).
    cbn [disk become] in *. rewrite Habs. split; [|apply rtc_refl].
    apply go_become; [by rewrite Habs; apply rtc_refl|done| | | |done].
    + eapply same_contents_ok; [done|]. eapply disk_ok_weaken; [|apply Hst].
      intros q x tail n _. apply tail_of_insert; [|done]. intros u Hu0. rewrite Hid, Ht in Hu0.
      by injection Hu0 as <-.
    + destruct (r_task _ Hst _ _ Hid) as [_ H2]. split; [by intros ? [= <-]|].
      intros c' [= <-]. apply H2. by rewrite Ht.
    + intros b [= <-]. rewrite Hd'. split; [by apply open_file_spec|]. intros j u b _ Hj Hb.
      rewrite Hp. by eapply append_unlocked.
Qed.
End go.

(** A task goes on. *)
Lemma step_go now id ok st st' out :
  runs_ok st -> event_safe (Go now id ok) st -> step (Go now id ok) st = (st', out) -> calm st' ->
  runs_ok st' /\ steps true None (abstract (disk st)) (abstract (disk st')).
Proof.
  intros Hst Hsafe Hstep Hc. pose proof Hsafe as [-> _]. cbn [step] in Hstep.
  destruct (tasks st !! id) as [t|] eqn:Hid;
    [|injection Hstep as <- <-; by split; [|apply rtc_refl]].
  destruct t as [c|c|a after|a after time|a after time].
  - cbn [go] in Hstep. pose proof (same_contents_open (segment (cr_meta c)) (disk st)) as Hsame.
    pose proof (same_contents_abstract _ _ Hsame) as Habs.
    destruct (has_initial_data c).
    + injection Hstep as <- <-. cbn [disk become]. unfold create_opened. rewrite Habs.
      split; [|apply rtc_refl].
      eapply go_become; [done|done|by rewrite Habs; apply rtc_refl|apply survives_open| | |done|done].
      * eapply same_contents_ok; [done|]. eapply disk_ok_weaken; [|apply Hst].
        intros q x tail n _. apply tail_of_insert; [|done]. intros u Hu. rewrite Hid in Hu.
        by injection Hu as <-.
      * destruct (r_task _ Hst _ _ Hid) as [H1 H2]. by split.
    + eapply (go_finish st id _ Hst Hid c); [..|exact Hstep|done];
        [by unfold create_opened; rewrite Habs; apply rtc_refl|apply survives_open|].
      eapply same_contents_ok; [done|]. eapply disk_ok_weaken; [|apply Hst].
      intros q x tail n _. apply tail_of_delete. intros u Hu. rewrite Hid in Hu. by injection Hu as <-.
  - by eapply (go_initial st id _ Hst Hid now c).
  - injection Hstep as <- <-. by eapply (go_written st id _ Hst Hid a).
  - injection Hstep as <- <-. by eapply (go_synced st id _ Hst Hid a).
  - destruct (go_put st id _ Hst Hid a after time eq_refl) as (Hs & Hg & Hd). cbn [go] in Hstep.
    destruct after as [c|]; [by eapply (go_finish st id _ Hst Hid c)|].
    injection Hstep as <- <-. split; [|done].
    eapply rebuild_delete; [done| |done|done|done]. by apply survives_grows.
Qed.

(** ** Every step *)

Lemma step_refines ev st st' out :
  runs_ok st -> event_safe ev st -> step ev st = (st', out) -> calm st' ->
  runs_ok st' /\ steps true (created_by ev) (abstract (disk st)) (abstract (disk st')).
Proof.
  intros Hst Hsafe Hstep Hc. pose proof (ok_distinct _ _ (r_disk _ Hst)) as Hd.
  destruct ev as [now c|now p id e seq|now dirName p o|now p data o|now id ok|cut].
  - injection Hstep as <- <-. by apply step_call; [|apply refines_call|].
  - cbn [step] in Hstep. destruct (producer_locked _ _ _);
      injection Hstep as <- <-; [by split; [|apply rtc_refl]|].
    by apply step_call; [|apply refines_closeWithProducer|].
  - destruct Hsafe as [Hl|Hsafe]; [|by eapply step_create].
    cbn [step] in Hstep. rewrite Hl in Hstep. injection Hstep as <- <-.
    by split; [|apply rtc_refl].
  - by eapply step_append.
  - by eapply step_go.
  - injection Hstep as <- <-. by apply restart_ok.
Qed.

(** ** Runs *)

(** Every event is safe where it happens, and leaves the tasks in peace. *)
Fixpoint run_calm (evs : list Event) (st : FileStore) : Prop :=
  match evs with
  | [] => True
  | ev :: evs => event_safe ev st /\ calm (step ev st).1 /\ run_calm evs (step ev st).1
  end.

#[export] Instance run_calm_dec evs st : Decision (run_calm evs st).
Proof.
  revert st. induction evs as [|ev evs IH]; intros st; cbn [run_calm]; [apply _|].
  unfold calm at 1. apply _.
Defined.

Lemma file_run_ok evs st : runs_ok st -> run_calm evs st -> runs_ok (run evs st).1.
Proof.
  revert st. induction evs as [|ev evs IH]; intros st Hst; [done|]. cbn [run run_calm].
  intros (Hsafe & Hc & Hrest). destruct (step ev st) as [st1 o] eqn:E. cbn [fst] in *.
  destruct (step_refines ev st st1 o Hst Hsafe E Hc) as [Hst1 _].
  specialize (IH st1 Hst1 Hrest). by destruct (run evs st1).
Qed.
End step.

Lemma runs_ok_empty : runs_ok empty_file_store.
Proof.
  assert (E : abstract (disk empty_file_store) = ∅) by apply fmap_empty.
  split; rewrite ?E; [by split|apply store_ok_empty| |done..]. intros p s Hp. by rewrite lookup_empty in Hp.
Qed.

(** C7: the refinement of the abstract store.  In a state with the invariant
    [runs_ok], an event of the file-backed store that is safe - no disk operation
    fails, a stream stays within the safe integers, a fork offset is the server's own,
    the name of a new file is new, a stream created over an expired one replaces one
    without forks, a stream does not expire while it is created, and a crash loses no
    file and cuts none inside a frame - and that leaves the tasks in flight in peace
    (the record a task has read is as it was but for its access time, and the source
    of a fork that is being created is not deleted) keeps the invariant, and the
    streams on the disk change as the abstract store allows: a call begins, what a
    task waits for is done, or the process crashes and starts again.  Nobody waits
    in a long-poll.  (The Examples of FileScenarios show what happens otherwise.) *)
Theorem file_step_refines `{!JsonLib} `{!DateLib} ev st st' out :
  runs_ok st -> event_safe ev st -> step ev st = (st', out) -> calm st' ->
  runs_ok st' /\ steps true (created_by ev) (abstract (disk st)) (abstract (disk st')).
Proof. apply step_refines. Qed.
