(* ===== verification/FileReads.v ===== *)
(** * Reads of the file-backed store

    [read] computes with byte positions where the in-memory store compares
    offsets, and parses the files again each time.  It returns the same: the
    window of the log of the stream, through its forks. *)

From S2P Require Import Prelude Offsets Producer Text Json Types JsonMode StreamStore StoreLemmas StoreSteps StoreGraph ForkRead ReaderRuns FileFrames FileStore FileRuns FileAbstract FileInvariant FileTasks FileRecovery FileTheorems.
Local Open Scope js_scope.

Lemma filter_ext_in {A} (P Q : A -> Prop) `{!forall x, Decision (P x)} `{!forall x, Decision (Q x)}
    (l : list A) :
  (forall x, x ∈ l -> P x <-> Q x) -> filter P l = filter Q l.
Proof.
  induction l as [|x l IH]; intros Hiff; [done|]. rewrite !filter_cons.
  rewrite IH by (intros; apply Hiff; by constructor).
  destruct (Hiff x ltac:(by constructor)). repeat case_decide; tauto.
Qed.

Section reads.
Context (T : string -> bytes -> nat -> Prop) (d : Disk).
Hypothesis Hd : disk_ok T d.
Hypothesis Hstore : store_ok (abstract d).

Lemma abstract_record p m : db d !! p = Some m -> abstract d !! p = Some (as_stream (files d) m).
Proof using. intros Hm. by rewrite lookup_abstract, Hm. Qed.

(** ** Positions in a log *)

Lemma record_own p m x :
  db d !! p = Some m -> x ∈ messages (as_stream (files d) m) -> 0 < ends x.
Proof using Hd.
  intros Hm Hx. destruct (ok_holds _ _ Hd _ _ Hm) as (ds & tail & Hh & _).
  cbn in Hx. rewrite (holds_own _ _ _ _ Hh) in Hx. destruct (holds_bounds _ _ _ _ Hh) as [Hb Hmax].
  apply file_messages_ends in Hx; lia.
Qed.

Lemma log_positive p x : x ∈ log (abstract d) p -> 0 < ends x.
Proof using Hd Hstore.
  destruct Hstore as [Hg Hc]. revert p. apply (fork_ind (abstract d) (fun p => x ∈ log (abstract d) p -> 0 < ends x) Hg).
  - intros p Hp. rewrite log_unfold, Hp by done. by intros ?%not_elem_of_nil.
  - intros p s Hs IH. rewrite log_unfold, Hs by done. intros [Hx|Hx]%elem_of_app.
    + destruct (forkedFrom s) as [q|]; [|by apply not_elem_of_nil in Hx].
      apply list_elem_of_filter in Hx as [_ Hx]. by apply (IH q).
    + rewrite lookup_abstract in Hs. destruct (db d !! p) as [m|] eqn:Hm; [|done].
      injection Hs as <-. by eapply record_own.
Qed.

Lemma log_wf p x : x ∈ log (abstract d) p -> wf_offset (msg_offset x).
Proof using Hstore.
  intros Hx. pose proof (log_offsets (abstract d) p Hstore) as Ho.
  rewrite list.Forall_forall in Ho. by apply Ho.
Qed.

Lemma record_current p m : db d !! p = Some m -> wf_offset (m_currentOffset m).
Proof using Hd.
  intros Hm. destruct (ok_holds _ _ Hd _ _ Hm) as (ds & tail & Hh & _).
  by destruct (holds_current _ _ _ _ Hh).
Qed.

Lemma log_bounded p m x : db d !! p = Some m -> x ∈ log (abstract d) p -> ends x <= position (m_currentOffset m).
Proof using Hd Hstore.
  intros Hm Hx. destruct (log_increasing (abstract d) p Hstore) as [_ Hb].
  specialize (Hb _ (abstract_record _ _ Hm)). rewrite list.Forall_forall in Hb. specialize (Hb x Hx).
  cbn in Hb. rewrite wf_offset_ltb in Hb by (eauto using log_wf, record_current).
  unfold ends. by apply Z.ltb_ge in Hb.
Qed.

(** ** Reading through the forks *)

(** What a fork says about its source. *)
Lemma fork_source p m q :
  db d !! p = Some m -> m_forkedFrom m = Some q ->
  truthy (m_forkedFrom m) = true /\ exists fo src,
    m_forkOffset m = Some fo /\ wf_offset fo /\ truthy (Some fo) = true /\
    db d !! q = Some src /\ position fo <= position (m_currentOffset src).
Proof using Hd Hstore.
  intros Hm Hq. destruct Hstore as [Hg Hc]. pose proof (abstract_record p m Hm) as Ha.
  destruct (graph_parent _ Hg p _ q Ha Hq) as [Hne [t Ht]].
  destruct (contents_fork _ Hc p _ q t Ha Hq Ht) as (fo & Hfo & Hcur).
  rewrite lookup_abstract in Ht. destruct (db d !! q) as [src|] eqn:Hsrc; [|done].
  injection Ht as <-. cbn in Hfo, Hcur. rewrite Hq. cbn [truthy].
  rewrite (proj2 (String.eqb_neq q EmptyString)) by done. split; [done|]. exists fo, src.
  assert (Hw : wf_offset fo).
  { destruct (ok_holds _ _ Hd _ _ Hm) as (ds & tail & (Hb & _) & _). unfold m_base in Hb.
    by rewrite Hfo in Hb. }
  rewrite wf_offset_ltb in Hcur by (eauto using record_current). apply Z.ltb_ge in Hcur.
  destruct (wf_offset_truthy fo Hw). done.
Qed.

(** Inherited messages, by position. *)
Lemma inherited_filter q fo s c :
  wf_offset fo ->
  filter (fun x => s < ends x <= c) (filter (in_bounds None (Some fo)) (log (abstract d) q)) =
  filter (fun x => s < ends x <= Z.min (position fo) c) (log (abstract d) q).
Proof using Hstore.
  intros Hfo. rewrite list_filter_filter. apply filter_ext_in. intros x Hx.
  unfold in_bounds. cbn. rewrite wf_offset_ltb by (eauto using log_wf).
  unfold ends. rewrite Z.ltb_ge.
  split; [intros [[? ?] [_ ?]]; lia|]. intros ?. split_and!; [lia..|done|lia].
Qed.

Lemma readForked_file fuel q s c :
  (size (abstract d) < fuel)%nat ->
  (forall src, db d !! q = Some src -> c <= position (m_currentOffset src)) ->
  readForkedMessages_fuel fuel d q (Some s) (Some c) =
  Some (filter (fun x => s < ends x <= c) (log (abstract d) q)).
Proof using Hd Hstore.
  destruct Hstore as [Hg Hc]. destruct (graph_rank_bounded _ Hg) as (rank & Hrank & Hle & _).
  enough (forall f q c, (rank q < f)%nat ->
    (forall src, db d !! q = Some src -> c <= position (m_currentOffset src)) ->
    readForkedMessages_fuel f d q (Some s) (Some c) =
    Some (filter (fun x => s < ends x <= c) (log (abstract d) q))) as Hst.
  { intros Hf. apply Hst. specialize (Hle q). lia. }
  clear fuel q c. induction f as [|f IH]; intros q c Hf Hcap; [lia|].
  cbn [readForkedMessages_fuel]. rewrite log_unfold, lookup_abstract by done.
  destruct (db d !! q) as [m|] eqn:Hm; [|done]. cbn [fmap option_fmap option_map].
  specialize (Hcap m eq_refl).
  destruct (ok_holds _ _ Hd _ _ Hm) as (ds & tail & Hh & _).
  unfold content. rewrite (holds_read_capped _ _ _ _ Hh) by done.
  rewrite list.filter_app. change (messages (as_stream (files d) m)) with (own_messages (files d) m).
  rewrite (holds_own _ _ _ _ Hh).
  change (forkedFrom (as_stream (files d) m)) with (m_forkedFrom m).
  change (forkOffset (as_stream (files d) m)) with (m_forkOffset m).
  destruct (m_forkedFrom m) as [r|] eqn:Hr; [|done].
  destruct (fork_source q m r Hm Hr) as (Ht & fo & src & Hfo & Hw & Htf & Hsrc & Hle').
  rewrite Hr in Ht. rewrite Ht, Hfo, Htf. cbn [andb or_else].
  rewrite offset_byte_wf by done. cbn [num_gtb num_min]. rewrite inherited_filter by done.
  specialize (Hrank q _ r (abstract_record _ _ Hm) Hr).
  destruct (Z.ltb_spec s (position fo)).
  - rewrite IH; [done|lia|]. intros src' Hs'. assert (src' = src) as -> by congruence. lia.
  - rewrite (filter_false_nil _ (log (abstract d) r)); [done|]. apply list.Forall_forall.
    intros x _. lia.
Qed.

(** ** [read] *)

Section quiet.
(** The file of [p] ends with its last message. *)
Context (p : string) (m : StreamMetadata).
Hypothesis Hm : db d !! p = Some m.
Hypothesis Hquiet : forall tail u, T p tail u -> tail = [].

Lemma read_own s :
  readMessagesFromSegmentFile (content d m) (Some s) (base_byte m) None =
  filter (fun x => s < ends x) (own_messages (files d) m).
Proof using Hd Hquiet Hm.
  destruct (ok_holds _ _ Hd _ _ Hm) as (ds & tail & Hh & Ht). apply Hquiet in Ht as ->.
  rewrite (holds_own _ _ _ _ Hh). destruct (holds_bounds _ _ _ _ Hh) as [Hb0 Hmax].
  destruct Hh as (Hb & Hds & Hcont & _ & _). rewrite app_nil_r in Hcont.
  rewrite base_byte_wf by done. unfold content.
  destruct (files d !! segment m) as [f|]; cbn in Hcont |- *.
  - rewrite Hcont. by apply read_file_all.
  - symmetry in Hcont. destruct ds as [|b ds]; [done|]. rewrite frames_cons in Hcont.
    apply (f_equal length) in Hcont. rewrite length_app, length_frame in Hcont. cbn in Hcont. lia.
Qed.

(** By position, a read is a filter of the log. *)
Lemma read_positions off s :
  offset_byte (or_else off ZERO_OFFSET) = Some s ->
  read_meta m off d = Ok (filter (fun x => s < ends x) (log (abstract d) p)).
Proof using All.
  intros Hs. pose proof Hstore as [Hg Hc]. pose proof (record_current p m Hm) as Hw.
  unfold read_meta. rewrite Hs, offset_byte_wf by done.
  destruct (String.eqb_spec (m_currentOffset m) ZERO_OFFSET) as [E|_].
  { rewrite filter_false_nil; [done|]. apply list.Forall_forall. intros x Hx.
    pose proof (log_positive p x Hx). pose proof (log_bounded p m x Hm Hx) as Hb.
    rewrite E in Hb. change (position ZERO_OFFSET) with 0 in Hb. lia. }
  cbn [num_geb]. destruct (Z.leb_spec (position (m_currentOffset m)) s).
  { rewrite filter_false_nil; [done|]. apply list.Forall_forall. intros x Hx.
    pose proof (log_bounded p m x Hm Hx). lia. }
  rewrite log_unfold, (abstract_record p m Hm), list.filter_app by done.
  change (forkedFrom (as_stream (files d) m)) with (m_forkedFrom m).
  change (forkOffset (as_stream (files d) m)) with (m_forkOffset m).
  change (messages (as_stream (files d) m)) with (own_messages (files d) m).
  rewrite <-read_own.
  destruct (m_forkedFrom m) as [q|] eqn:Hq.
  - destruct (fork_source p m q Hm Hq) as (Ht & fo & src & Hfo & Hwf & Htf & Hsrc & Hle).
    rewrite Hq in Ht. unfold base_byte. rewrite Ht, Hfo, Htf. cbn [andb or_else].
    rewrite offset_byte_wf by done. cbn [num_gtb].
    assert (Einh : filter (fun x => s < ends x) (filter (in_bounds None (Some fo)) (log (abstract d) q)) =
                   filter (fun x => s < ends x <= position fo) (log (abstract d) q)).
    { rewrite list_filter_filter. apply filter_ext_in. intros x Hx. unfold in_bounds. cbn.
      rewrite wf_offset_ltb by (eauto using log_wf). unfold ends. rewrite Z.ltb_ge. naive_solver lia. }
    rewrite Einh. destruct (Z.ltb_spec s (position fo)).
    + unfold readForkedMessages. rewrite readForked_file; [done| |].
      * rewrite size_abstract. lia.
      * intros src' Hs'. assert (src' = src) as -> by congruence. lia.
    + rewrite (filter_false_nil _ (log (abstract d) q)); [done|].
      apply list.Forall_forall. intros x _. lia.
  - destruct (ok_path _ _ Hd p m Hm) as [_ Hfo]. unfold base_byte. by rewrite Hfo.
Qed.

(** As the readers of ReaderRuns see it. *)
Lemma read_meta_window off :
  match off with
  | None => True
  | Some o => o = EmptyString \/ o = "-1"%string \/ wf_offset o
  end ->
  read_meta m off d = Ok (window off (log (abstract d) p)).
Proof using All.
  intros Hoff.
  assert (Hall : offset_byte (or_else off ZERO_OFFSET) = Some 0 ->
    read_meta m off d = Ok (log (abstract d) p)).
  { intros Hz. rewrite (read_positions off 0) by done. f_equal. apply filter_true_id.
    apply list.Forall_forall. intros x Hx. by eapply log_positive. }
  destruct off as [o|]; [|by apply Hall].
  destruct Hoff as [->|[->|Ho]]; [by apply Hall|by apply Hall|].
  rewrite window_wf by done. rewrite (read_positions _ (position o)) by by apply offset_byte_wf.
  f_equal. apply filter_ext_in. intros x Hx. unfold str_lt.
  rewrite wf_offset_ltb by (eauto using log_wf). unfold ends. by rewrite Z.ltb_lt.
Qed.
End quiet.
End reads.

(** No append to [p] has written its frame and not yet its record. *)
Definition quiet (p : string) (st : FileStore) : Prop :=
  map_Forall (fun _ t => match written t with Some ab => ap_path ab.1 <> p | None => True end) (tasks st).

#[export] Instance quiet_dec p st : Decision (quiet p st).
Proof.
  unfold quiet. apply map_Forall_dec. intros _ t. destruct (written t); apply _.
Defined.

(** C14: a read of the file-backed store returns exactly the messages of the
    stream's log after the offset, inherited ones included, in order, and leaves the
    disk as it is.  The state has the invariant [runs_ok], the stream has not expired,
    no append to it is between its write and its record, and the offset is missing,
    empty, -1, or in the server's own notation. *)
Theorem file_read_window `{!JsonLib} `{!DateLib} now p m off st :
  runs_ok st -> db (disk st) !! p = Some m -> isExpired now m = false -> quiet p st ->
  match off with
  | None => True
  | Some o => o = EmptyString \/ o = "-1"%string \/ wf_offset o
  end ->
  read now p off (disk st) = (disk st, Ok (window off (log (abstract (disk st)) p))).
Proof.
  intros Hst Hm He Hq Hoff. unfold read, getMetaIfNotExpired. rewrite Hm, He. f_equal.
  eapply read_meta_window; [apply Hst|apply Hst|done| |done].
  intros tail u [[-> _]|(a & (id & t & Ht & Hw) & Hp & _)]; [done|].
  specialize (Hq id t Ht). cbn in Hq. rewrite Hw in Hq. done.
Qed.

(** * What the file-backed store answers, it keeps

    The last stage of an append writes the record and answers.  From then on
    the message is in the log of its stream and stays there, whatever runs
    next: other appends, forks, closes and deletions of others, and clean
    crashes with the recovery after them. *)

Lemma present_steps safe fresh ss ss' q :
  steps safe fresh ss ss' -> fresh <> Some q -> is_Some (ss' !! q) -> is_Some (ss !! q).
Proof.
  intros Hs Hq Hin. induction Hs as [|a b c Hab _ IH]; [done|]. specialize (IH Hin).
  destruct (a !! q) eqn:Ha; [by eexists|]. rewrite (absent_step _ _ _ _ _ Hab Hq Ha) in IH.
  by destruct IH.
Qed.

Lemma abstract_known d q : is_Some (abstract d !! q) <-> is_Some (db d !! q).
Proof. rewrite lookup_abstract. apply fmap_is_Some. Qed.

Section durability.
Context `{!JsonLib} `{!DateLib}.

(** No run shortens the log of a stream that stays. *)
Lemma run_log evs st q :
  runs_ok st -> run_calm evs st -> (forall ev, ev ∈ evs -> created_by ev <> Some q) ->
  is_Some (db (disk (run evs st).1) !! q) ->
  is_Some (db (disk st) !! q) /\
  log (abstract (disk st)) q `prefix_of` log (abstract (disk (run evs st).1)) q.
Proof.
  revert st. induction evs as [|ev evs IH]; intros st Hst; [done|]. cbn [run run_calm].
  intros (Hsafe & Hc & Hrest) Hq. destruct (step ev st) as [st1 o] eqn:E. cbn [fst] in *.
  destruct (step_refines ev st st1 o Hst Hsafe E Hc) as [Hst1 Hs].
  destruct (run evs st1) as [st2 os] eqn:E2. cbn [fst]. intros Hin.
  specialize (IH st1 Hst1 Hrest). rewrite E2 in IH. cbn [fst] in IH.
  destruct IH as [Hin1 Hp]; [intros ev' ?; apply Hq; by constructor|done|].
  assert (Hev : created_by ev <> Some q) by (apply Hq; constructor).
  rewrite <-abstract_known in *. split; [by eapply present_steps|].
  etransitivity; [|done]. by eapply log_steps; [apply Hst|..].
Qed.

(** The last stage of an append. *)
Lemma put_log id a after time st :
  runs_ok st -> tasks st !! id = Some (Putting a after time) ->
  forall q, log (abstract (append_put a (disk st))) q =
    log (abstract (disk st)) q ++ (if decide (q = ap_path a) then [put_message a] else []).
Proof.
  intros Hst Hid q. destruct (in_flight st id _ Hst Hid a eq_refl) as (m & Hm & Hs & Ha & _).
  assert (HT : forall tail u, tail_of (tasks st) (ap_path a) tail u ->
    tail = frame (ap_data a) /\ u = 0%nat).
  { intros tail u Hu. eapply tail_after in Hu as [-> Hu]; [|done|done|done|done]. split; [done|lia]. }
  destruct (put_messages None _ a m (disk st) (r_disk _ Hst) Ha Hm Hs HT) as [Hown Hlt].
  pose proof (put_steps None _ a m (disk st) (r_disk _ Hst) Ha Hm Hs HT) as Hsteps.
  pose proof (store_ok_steps _ _ _ (r_store _ Hst) Hsteps) as [Hg _].
  destruct (same_but_access_file _ _ Hs) as (_ & _ & _ & Hff & Hfo).
  unfold append_put in *. rewrite abstract_put in *.
  apply (log_append _ _ (as_stream (files (disk st)) m)); [apply Hst| |done|done|done|done|done].
  by rewrite lookup_abstract, Hm.
Qed.

End durability.

(** C10: an answer is kept.  In a state with the invariant [runs_ok], the last stage
    of an append answers with the message, which it has put at the end of the log of
    its stream and of no other; the record has the state of its producer; and through
    any run after it of events that are safe and leave the tasks in flight in peace
    (those of C7: no disk operation fails, crashes are clean, no record is changed
    under an append or a creation, nobody waits in a long-poll) and that do not create
    the path anew, the log of the stream goes on from there, as long as the stream
    exists; crashes and recoveries included.  (A fork that is made under an append in
    flight can lose messages: [append_forgets_fork].) *)
Theorem acknowledged_is_kept `{!JsonLib} `{!DateLib} now id a time st evs :
  runs_ok st -> tasks st !! id = Some (Putting a None time) ->
  run_calm (Go now id true :: evs) st ->
  (forall ev, ev ∈ evs -> created_by ev <> Some (ap_path a)) ->
  let '(st1, answer) := step (Go now id true) st in
  let st2 := (run evs st1).1 in
  answer = Some (Appended (Ok (append_return time a))) /\
  log (abstract (disk st1)) (ap_path a) =
    log (abstract (disk st)) (ap_path a) ++ [mkStreamMessage (ap_data a) (ap_offset a) 0] /\
  (forall q, q <> ap_path a -> log (abstract (disk st1)) q = log (abstract (disk st)) q) /\
  (forall isNew state producerId, ap_verdict a = Some (verdict (accepted isNew state producerId)) ->
     (m ← db (disk st1) !! ap_path a; ps ← m_producers m; ps !! producerId) = Some state) /\
  (is_Some (db (disk st2) !! ap_path a) ->
   log (abstract (disk st1)) (ap_path a) `prefix_of` log (abstract (disk st2)) (ap_path a)).
Proof.
  intros Hst Hid [Hsafe [Hc Hrest]] Hnew. pose proof (put_log id a None time st Hst Hid) as Hlog.
  assert (Hst1 : runs_ok (step (Go now id true) st).1).
  { destruct (step (Go now id true) st) as [st1 o] eqn:E. by eapply step_refines. }
  cbn [step] in *. rewrite Hid in *. cbn [go fst done_ disk] in *. split_and!.
  - done.
  - by rewrite Hlog, decide_True.
  - intros q Hq. by rewrite Hlog, decide_False, app_nil_r.
  - intros isNew state pid Hv. cbn. rewrite lookup_insert_eq. cbn. rewrite Hv. apply lookup_insert_eq.
  - intros Hin. by apply run_log.
Qed.
