(* ===== verification/FileScenarios.v ===== *)
(** * The theorems of the file-backed store at work

    One run of the store serves every witness: a stream, a fork of it, and an
    append to the fork that a crash finds between its write and its sync. *)

From S2P Require Import Prelude Offsets Producer Text Json Types JsonInstance JsonMode StreamStore StoreSteps StoreGraph ForkRead StoreTheorems ReaderRuns FileFrames FileStore FileRuns FileAbstract FileInvariant FileCreate FileTasks FileRecovery FileTheorems FileReads.
Local Open Scope js_scope.

(** A decidable statement about a concrete state. *)
Ltac by_computing :=
  match goal with |- ?P => refine (bool_decide_eq_true_1 P _) end; vm_compute; reflexivity.

#[local] Existing Instance integer_json.
#[local] Existing Instance decimal_date.

Section scenarios.

(** Task 0 creates [/a], task 1 appends to it, task 2 creates the fork [/b],
    and task 3 has written its frame. *)
Definition working : list Event :=
  [BeginCreate 10 "a1" "/a" text_stream; Go 11 0 true;
   BeginAppend 12 "/a" (text "hello") plain_append; Go 13 1 true; Go 14 1 true; Go 15 1 true;
   BeginCreate 16 "b1" "/b" (fork_at "/a" None); Go 16 2 true;
   BeginAppend 17 "/b" (text "xy") plain_append; Go 18 3 true].

Definition at_work : FileStore := (run working empty_file_store).1.

Lemma at_work_ok : runs_ok at_work.
Proof.
  apply file_run_ok; [apply runs_ok_empty|]. by_computing.
Qed.

(** The disk the append leaves, and its next two steps. *)
Definition done_work : FileStore := (run [Go 19 3 true; Go 20 3 true] at_work).1.

Lemma done_work_ok : runs_ok done_work.
Proof.
  apply file_run_ok; [apply at_work_ok|]. by_computing.
Qed.

(** The append's record is written. *)
Lemma file_step_refines_witness :
  let st := (step (Go 19 3 true) at_work).1 in
  let st' := (step (Go 20 3 true) st).1 in
  runs_ok st' /\ steps true None (abstract (disk st)) (abstract (disk st')).
Proof.
  intros st st'. destruct (step (Go 20 3 true) st) as [st1 out] eqn:E.
  apply (file_step_refines (Go 20 3 true) st st1 out).
  - apply (file_run_ok [Go 19 3 true] at_work at_work_ok).
    by_computing.
  - by_computing.
  - exact E.
  - replace st1 with (step (Go 20 3 true) st).1 by (by rewrite E).
    unfold calm. by_computing.
Defined.

(** The crash leaves five of the seven bytes of the append's frame: the
    recovery shows the streams as they were. *)
Definition five (name : string) : option nat := Some 5%nat.

Lemma crash_recovery_witness :
  let d := recover (crash five (disk at_work)) in
  steps true None (abstract (disk at_work)) (abstract d) /\
  abstract d = abstract (disk at_work).
Proof.
  intros d. destruct (crash_recovery at_work five at_work_ok) as (H1 & _ & _).
  - intros p m Hm.
    assert (Hall : bool_decide (map_Forall (fun _ m => is_Some (files (crash five (disk at_work)) !! segment m))
      (db (disk at_work))) = true) by (vm_compute; reflexivity).
    apply bool_decide_eq_true_1 in Hall. by apply (Hall p m Hm).
  - split; [exact H1|]. vm_compute. reflexivity.
Defined.

(** The fork is read from before its frames. *)
Lemma file_read_window_witness :
  read 21 "/b" (Some "0000000000000000_0000000000000004") (disk done_work) =
    (disk done_work,
     Ok [mkStreamMessage (text "hello") (mk_offset 10) 0; mkStreamMessage (text "xy") (mk_offset 17) 0]).
Proof.
  assert (Hb : exists m, db (disk done_work) !! "/b" = Some m /\ isExpired 21 m = false).
  { destruct (db (disk done_work) !! "/b") as [m|] eqn:Hm; vm_compute in Hm; [|done].
    injection Hm as <-. eexists. split; [reflexivity|]. vm_compute. reflexivity. }
  destruct Hb as (m & Hm & He).
  refine (eq_trans (file_read_window 21 "/b" m (Some "0000000000000000_0000000000000004") done_work
            done_work_ok Hm He _ _) _).
  - by_computing.
  - right. right. by exists 4.
  - reflexivity.
Defined.

(** The append is answered; then the source is deleted, the process crashes
    and loses what is not synced, and another append follows. *)
Definition synced_work : FileStore := (run [Go 19 3 true] at_work).1.

Lemma synced_work_ok : runs_ok synced_work.
Proof. apply file_run_ok; [apply at_work_ok|by_computing]. Qed.

Definition afterwards : list Event :=
  [DoCall 21 (CDelete "/a"); Restart (fun _ => None);
   BeginAppend 22 "/b" (text "z") plain_append; Go 23 4 true; Go 24 4 true; Go 25 4 true].

Lemma synced_task : exists a, tasks synced_work !! 3%nat = Some (Putting a None 18) /\
  ap_path a = "/b" /\
  append_return 18 a = FilePlain (Some (mkStreamMessage (text "xy") (mk_offset 17) 18)).
Proof.
  destruct (tasks synced_work !! 3%nat) as [t|] eqn:Ht; vm_compute in Ht; [|done].
  injection Ht as <-. eexists. split_and!; [reflexivity|reflexivity|vm_compute; reflexivity].
Qed.

Lemma acknowledged_is_kept_witness :
  (step (Go 20 3 true) synced_work).2 =
    Some (Appended (Ok (FilePlain (Some (mkStreamMessage (text "xy") (mk_offset 17) 18))))) /\
  log (abstract (disk (step (Go 20 3 true) synced_work).1)) "/b"
    `prefix_of` log (abstract (disk (run afterwards (step (Go 20 3 true) synced_work).1).1)) "/b".
Proof.
  destruct synced_task as (a & Ha & Hp & Hr).
  pose proof (acknowledged_is_kept 20 3 a 18 synced_work afterwards synced_work_ok Ha) as Hk.
  destruct (step (Go 20 3 true) synced_work) as [st1 answer] eqn:E.
  rewrite Hp, Hr in Hk. destruct Hk as (-> & _ & _ & _ & Hlog).
  - by_computing.
  - unfold afterwards. intros ev Hev. repeat (apply elem_of_cons in Hev as [->|Hev]; [done|]).
    by apply elem_of_nil in Hev.
  - split; [reflexivity|]. apply Hlog. replace st1 with (step (Go 20 3 true) synced_work).1 by (by rewrite E).
    by_computing.
Defined.

(** The counts on the disk are lost: the recovery finds them again. *)
Definition miscounted : Disk :=
  mkDisk (with_refCount 7 <$> db (disk at_work)) (files (disk at_work)).

Lemma recover_counts_witness :
  graph_ok (abstract (recover miscounted)) /\ soft_ok (abstract (recover miscounted)) /\
  m_refCount <$> db (recover miscounted) !! "/a" = Some 1.
Proof.
  assert (Hab : forall p m, db miscounted !! p = Some m -> p = "/a" \/ p = "/b").
  { intros p m Hm. assert (Hin : p ∈ (map_to_list (db miscounted)).*1)
      by (apply list_elem_of_fmap; exists (p, m); by rewrite elem_of_map_to_list).
    replace ((map_to_list (db miscounted)).*1) with ["/a"; "/b"] in Hin by (vm_compute; reflexivity).
    set_solver. }
  destruct (recover_counts miscounted) as [H1 H2].
  - intros p q m m' Hp Hq E. destruct (Hab p m Hp) as [->| ->], (Hab q m' Hq) as [->| ->]; [done| | |done].
    all: vm_compute in Hp, Hq; injection Hp as <-; injection Hq as <-; done.
  - assert (Hs : forall p s, abstract (mkDisk (omap (recover_entry (files miscounted)) (db miscounted)) (files miscounted)) !! p = Some s ->
      (p = "/a" /\ path s = p /\ forkedFrom s = None) \/ (p = "/b" /\ path s = p /\ forkedFrom s = Some "/a")).
    { intros p s. rewrite lookup_abstract. cbn [db files]. rewrite lookup_omap.
      destruct (db miscounted !! p) as [m|] eqn:Hm; [|done].
      destruct (Hab p m Hm) as [->| ->]; vm_compute in Hm; injection Hm as <-; vm_compute; intros [= <-];
        [left|right]; done. }
    split.
    + by intros p s [(_ & ? & _)|(_ & ? & _)]%Hs.
    + intros p s q [(_ & _ & E)|(_ & _ & E)]%Hs Hq; rewrite E in Hq; [done|].
      injection Hq as <-. split; [done|]. vm_compute. eexists. reflexivity.
    + exists (fun p => if String.eqb p "/b" then 1%nat else 0%nat).
      intros p s q [(_ & _ & E)|(-> & _ & E)]%Hs Hq; rewrite E in Hq; [done|]. injection Hq as <-. cbn. lia.
  - split_and!; [exact H1|exact H2|]. vm_compute. reflexivity.
Defined.
End scenarios.

(** * What the file-backed store does not do right

    Runs the theorems exclude: a call that disturbs another while it awaits, a
    crash at the wrong moment, a disk operation that fails. *)

Definition after (evs : list Event) : FileStore := (run evs empty_file_store).1.
Definition outcomes (evs : list Event) : list Outcome := (run evs empty_file_store).2.

(** What a reader is given, and what the record says of the stream. *)
Definition contents (now : Z) (p : string) (st : FileStore) : result FileError (list (bytes * string)) :=
  match (read now p None (disk st)).2 with
  | Ok ms => Ok ((fun m => (msg_data m, msg_offset m)) <$> ms)
  | Err e => Err e
  end.
Definition tail_offset (p : string) (st : FileStore) : option string :=
  m_currentOffset <$> db (disk st) !! p.

Definition create (now : Z) (id : nat) (dir p : string) (o : CreateOptions) : list Event :=
  [BeginCreate now dir p o; Go now id true].
Definition append_ (now : Z) (id : nat) (p : string) (data : bytes) (o : AppendOptions) : list Event :=
  [BeginAppend now p data o; Go now id true; Go now id true; Go now id true].

Definition as_producer (id : string) (epoch seq : Z) : AppendOptions :=
  mkAppendOptions None None (Some id) (Some epoch) (Some seq) None.

Definition one_message : list Event :=
  create 10 0 "a1" "/a" text_stream ++ append_ 11 1 "/a" (text "one") plain_append.

(** *** A torn frame *)

Definition keep (n : nat) (name : string) : option nat := Some n.

(** A crash leaves part of a frame in the file.  The recovery counts the whole
    frames, but does not cut the file: the frame of the next append comes after
    the torn one, and a reader takes its first bytes for the rest of that. *)
Definition torn_run : list Event :=
  create 10 0 "a1" "/a" text_stream ++
  [BeginAppend 11 "/a" (text "hello") plain_append; Go 12 1 true; Restart (keep 7)] ++
  append_ 13 2 "/a" (text "world") plain_append.

Example torn_frame_swallows_append :
  contents 14 "/a" (after (take 5 torn_run)) = Ok [] /\
  list.last (outcomes torn_run) =
    Some (Appended (Ok (FilePlain (Some (mkStreamMessage (text "world") (mk_offset 10) 13))))) /\
  contents 14 "/a" (after torn_run) = Ok [(text "hel" ++ [Ascii.zero; Ascii.zero], mk_offset 10)].
Proof. vm_compute. split_and!; reflexivity. Qed.

(** *** A crash between the file and the record *)

(** The message is on the disk, the state of its producer is not: the recovery
    takes the message into the stream, and the retry is taken for a new one. *)
Definition twice_run : list Event :=
  create 10 0 "a1" "/a" text_stream ++
  [BeginAppend 11 "/a" (text "one") (as_producer "p" 0 0); Go 12 1 true; Go 13 1 true; Restart (keep 0)] ++
  append_ 13 2 "/a" (text "one") (as_producer "p" 0 0).

Example crash_stores_retry_twice :
  contents 14 "/a" (after twice_run) = Ok [(text "one", mk_offset 8); (text "one", mk_offset 16)].
Proof. vm_compute. reflexivity. Qed.

(** *** Records written back *)

(** What happens to the record while an append awaits is undone. *)
Definition meanwhile (evs : list Event) : FileStore :=
  after (one_message ++ [BeginAppend 12 "/a" (text "two") plain_append; Go 13 2 true] ++ evs ++
         [Go 15 2 true; Go 16 2 true]).

(** A fork: its source no longer counts it, and its deletion takes with it what
    the fork has inherited. *)
Example append_forgets_fork :
  let st := meanwhile (create 14 3 "b1" "/b" (fork_at "/a" None)) in
  contents 17 "/b" st = Ok [(text "one", mk_offset 8)] /\
  m_refCount <$> db (disk st) !! "/a" = Some 0 /\
  contents 19 "/b" (step (DoCall 18 (CDelete "/a")) st).1 = Ok [].
Proof. vm_compute. split_and!; reflexivity. Qed.

(** A close, and a deletion. *)
Example append_reopens :
  (closeStream 14 "/a" (disk (after one_message))).2 =
    Some (mkFileCloseResult (mk_offset 8) false None) /\
  m_closed <$> db (disk (meanwhile [DoCall 14 (CCloseStream "/a")])) !! "/a" = Some false.
Proof. vm_compute. split_and!; reflexivity. Qed.

Example append_revives :
  (delete_ 0 "/a" (disk (after one_message))).2 = true /\
  let st := meanwhile [DoCall 14 (CDelete "/a")] in
  tail_offset "/a" st = Some (mk_offset 16) /\ contents 17 "/a" st = Ok [].
Proof. vm_compute. split_and!; reflexivity. Qed.

(** *** Frames beyond the record *)

(** A message that is written and not yet synced is read, and a crash takes it
    back. *)
Definition unsynced_run : list Event :=
  one_message ++ [BeginAppend 12 "/a" (text "two") plain_append; Go 13 2 true].

Example unsynced_is_read :
  contents 14 "/a" (after unsynced_run) = Ok [(text "one", mk_offset 8); (text "two", mk_offset 16)] /\
  tail_offset "/a" (after unsynced_run) = Some (mk_offset 8) /\
  contents 15 "/a" (step (Restart (fun _ => None)) (after unsynced_run)).1 = Ok [(text "one", mk_offset 8)].
Proof. vm_compute. split_and!; reflexivity. Qed.

(** The sync fails, and with it the append: its message stays, and the offsets
    of those after it are no longer where their frames are. *)
Definition failed_run : list Event :=
  unsynced_run ++ [Go 14 2 false] ++ append_ 15 3 "/a" (text "three") plain_append.

Example failed_append_stays :
  list.last (outcomes (take 9 failed_run)) = Some (Appended (Err IoError)) /\
  contents 16 "/a" (after failed_run) =
    Ok [(text "one", mk_offset 8); (text "two", mk_offset 16); (text "three", mk_offset 26)] /\
  list.last (outcomes failed_run) =
    Some (Appended (Ok (FilePlain (Some (mkStreamMessage (text "three") (mk_offset 18) 15))))) /\
  tail_offset "/a" (after failed_run) = Some (mk_offset 18).
Proof. vm_compute. split_and!; reflexivity. Qed.

(** *** Names every object has *)

(** The producers of a record are a plain object. *)
Example constructor_is_no_producer :
  list.last (outcomes (create 10 0 "a1" "/a" text_stream ++
                  append_ 11 1 "/a" (text "x") (as_producer "constructor" 0 0))) =
  Some (Appended (Ok (FileResult (mkFileAppendResult None (Some (gap_from_nan 0)) None)))).
Proof. vm_compute. reflexivity. Qed.

(** *** An expired fork *)

(** The fork that is created has expired: the append of its initial data
    deletes it, and the rollback of the creation takes a second reference from
    its source.  Another fork loses what it has inherited. *)
Definition expired_fork : CreateOptions :=
  mkCreateOptions None None (Some "5") (Some (text "x")) None (Some "/a") None None.

Example rollback_counts_twice :
  let st := after (one_message ++ create 12 2 "b1" "/b" (fork_at "/a" None) ++
                   [BeginCreate 13 "c1" "/c" expired_fork; Go 13 3 true; Go 13 3 true]) in
  db (disk st) !! "/c" = None /\
  m_refCount <$> db (disk st) !! "/a" = Some 0 /\
  contents 19 "/b" (step (DoCall 18 (CDelete "/a")) st).1 = Ok [].
Proof. vm_compute. split_and!; reflexivity. Qed.

(** The source is deleted and kept for its two forks.  One of them expires while a
    long-poll waits on it: the deletion of the fork resolves the long-poll, which
    finds the fork expired and deletes it first, and both take a reference from the
    source.  It is removed, and the other fork loses what it has inherited. *)
Definition expiring_fork : CreateOptions :=
  mkCreateOptions None None (Some "15") None None (Some "/a") None None.

Definition two_forks : FileStore :=
  after (one_message ++ create 12 2 "b1" "/b" expiring_fork ++ create 12 3 "c1" "/c" (fork_at "/a" None) ++
         [DoCall 13 (CDelete "/a")]).

Definition one_waits_on_b : LongPolls := fun p => if String.eqb p "/b" then 1%nat else 0%nat.

Example waiting_poll_counts_twice :
  contents 14 "/c" two_forks = Ok [(text "one", mk_offset 8)] /\
  m_refCount <$> db (getMetaIfNotExpired 16 "/b" (disk two_forks)).1 !! "/a" = Some 1 /\
  db (getMetaIfNotExpired (H1 := one_waits_on_b) 16 "/b" (disk two_forks)).1 !! "/a" = None.
Proof. vm_compute. split_and!; reflexivity. Qed.

(** *** A stream created over an expired one *)

(** The expired stream has a fork, so its deletion only marks it; the creation
    puts a new record over it, and the fork reads the new stream. *)
Definition expiring_stream : CreateOptions :=
  mkCreateOptions (Some "text/plain") None (Some "20") None None None None None.

Definition permanent_fork : CreateOptions :=
  mkCreateOptions None None (Some "90") None None (Some "/a") None None.

Example creation_over_expired_source :
  let st := after (create 10 0 "a1" "/a" expiring_stream ++ append_ 11 1 "/a" (text "one") plain_append ++
                   create 12 2 "b1" "/b" permanent_fork) in
  let st' := (run (create 30 3 "a2" "/a" text_stream ++ append_ 31 4 "/a" (text "new") plain_append) st).1 in
  contents 13 "/b" st = Ok [(text "one", mk_offset 8)] /\
  contents 32 "/b" st' = Ok [(text "new", mk_offset 8)] /\
  m_refCount <$> db (disk st') !! "/a" = Some 0.
Proof. vm_compute. split_and!; reflexivity. Qed.
