(* ===== verification/Cursor.v ===== *)
(** * Cursors: [packages/server/src/cursor.ts] and the Cloudflare copy

    Times are milliseconds and intervals whole seconds.  [rnd] is the value of
    [Math.floor(Math.random() * 3600)], so [0 <= rnd < 3600]. *)

From S2P Require Import Prelude.

(** ** Definitions *)

(** Digits at the front of a string. *)
Fixpoint leading_digits (s : string) : string :=
  match s with
  | String c s => if is_digit c then String c (leading_digits s) else EmptyString
  | EmptyString => EmptyString
  end.

Definition parse_unsigned (s : string) : option Z :=
  let d := leading_digits s in
  if String.eqb d EmptyString then None else Some (dbl (digits_value d)).

(** [parseInt(s, 10)]; [None] is [NaN]. *)
Definition js_parseInt (s : string) : option Z :=
  match of_chars (trim_start (chars s)) with
  | String "-" s => Z.opp <$> parse_unsigned s
  | String "+" s => parse_unsigned s
  | s => parse_unsigned s
  end.

(** October 9, 2024 00:00:00 UTC. *)
Definition DEFAULT_CURSOR_EPOCH : Z := 1728432000000.
Definition DEFAULT_CURSOR_INTERVAL_SECONDS : Z := 20.
Definition MAX_JITTER_SECONDS : Z := 3600.
Definition MIN_JITTER_SECONDS : Z := 1.

Record CursorOptions := mkCursorOptions {
  intervalSeconds : option Z;
  epoch : option Z;
}.

Section cursor.
Context (now rnd : Z).

(** [calculateCursor] *)
Definition calculateCursor (options : CursorOptions) : string :=
  let intervalSeconds := or_else (intervalSeconds options) DEFAULT_CURSOR_INTERVAL_SECONDS in
  let epochMs := or_else (epoch options) DEFAULT_CURSOR_EPOCH in
  let intervalMs := intervalSeconds * 1000 in
  let intervalNumber := (now - epochMs) / intervalMs in
  js_String intervalNumber.

(** [Math.ceil(a / b)] *)
Definition ceil_div (a b : Z) : Z := - ((- a) / b).

(** [generateJitterIntervals] *)
Definition generateJitterIntervals (intervalSeconds : Z) : Z :=
  let jitterSeconds := MIN_JITTER_SECONDS + rnd in
  Z.max 1 (ceil_div jitterSeconds intervalSeconds).

(** [generateResponseCursor] *)
Definition generateResponseCursor (clientCursor : option string) (options : CursorOptions)
    : string :=
  let intervalSeconds := or_else (intervalSeconds options) DEFAULT_CURSOR_INTERVAL_SECONDS in
  let currentCursor := calculateCursor options in
  let currentInterval := js_parseInt currentCursor in
  if negb (truthy clientCursor) then currentCursor
  else
    match js_parseInt (or_else clientCursor EmptyString) with
    | None => currentCursor
    | Some clientInterval =>
        if match currentInterval with Some c => clientInterval <? c | None => false end
        then currentCursor
        else js_String (dbl (clientInterval + generateJitterIntervals intervalSeconds))
    end.

(** [handleCursorCollision] *)
Definition handleCursorCollision (currentCursor : string) (previousCursor : option string)
    (options : CursorOptions) : string :=
  generateResponseCursor previousCursor options.
End cursor.

Module Cloudflare.
(** [VALID_CLIENT_CURSOR.test(s)] *)
Definition valid_client_cursor (s : string) : bool :=
  all_digits s && (String.length s <=? 15)%nat.

(** [calculateCursor] *)
Definition calculateCursor (now : Z) : string :=
  let intervalMs := DEFAULT_CURSOR_INTERVAL_SECONDS * 1000 in
  js_String ((now - DEFAULT_CURSOR_EPOCH) / intervalMs).

(** [generateJitterIntervals] *)
Definition generateJitterIntervals (rnd intervalSeconds : Z) : Z :=
  Z.max 1 (ceil_div (MIN_JITTER_SECONDS + rnd) intervalSeconds).

(** [generateResponseCursor] *)
Definition generateResponseCursor (now rnd : Z) (clientCursor : option string) : string :=
  let currentCursor := calculateCursor now in
  if negb (truthy clientCursor) ||
     negb (valid_client_cursor (or_else clientCursor EmptyString))
  then currentCursor
  else
    match js_parseInt (or_else clientCursor EmptyString), js_parseInt currentCursor with
    | Some clientInterval, Some currentInterval =>
        if clientInterval <? currentInterval then currentCursor
        else js_String (dbl (clientInterval
               + generateJitterIntervals rnd DEFAULT_CURSOR_INTERVAL_SECONDS))
    | None, _ => currentCursor
    | Some clientInterval, None =>
        js_String (dbl (clientInterval
          + generateJitterIntervals rnd DEFAULT_CURSOR_INTERVAL_SECONDS))
    end.
End Cloudflare.

(** ** Lemmas *)

Lemma leading_digits_all s : all_chars is_digit s = true -> leading_digits s = s.
Proof.
  induction s as [|c s IH]; [done|]. rewrite all_chars_cons. intros [Hc Hs]%andb_true_iff.
  cbn. by rewrite Hc, IH.
Qed.

Lemma digit_not_space c : is_digit c = true -> is_space c = false.
Proof. unfold is_digit, is_space. rewrite andb_true_iff, !Z.leb_le. intros. lia. Qed.

(** [parseInt] of a string of digits. *)
Lemma js_parseInt_digits s :
  all_digits s = true -> js_parseInt s = Some (dbl (digits_value s)).
Proof.
  unfold all_digits. rewrite andb_true_iff. intros [Hne Hd]. unfold js_parseInt.
  destruct s as [|c s]; [done|]. pose proof Hd as Hd'. rewrite all_chars_cons in Hd.
  apply andb_true_iff in Hd as [Hc Hs].
  assert (Ht : of_chars (trim_start (chars (String c s))) = String c s).
  { cbn [chars trim_start]. rewrite digit_not_space by done. apply (of_chars_chars (String c s)). }
  rewrite Ht. transitivity (parse_unsigned (String c s)).
  - destruct c as [[] [] [] [] [] [] [] []]; first [discriminate Hc|reflexivity].
  - unfold parse_unsigned. by rewrite leading_digits_all.
Qed.

(** [parseInt] undoes [String] on safe integers. *)
Lemma js_parseInt_String n :
  0 <= n <= MAX_SAFE_INTEGER -> js_parseInt (js_String n) = Some n.
Proof.
  intros Hn. destruct (js_String_digits n) as [Hd Hv]; [lia|].
  rewrite js_parseInt_digits, Hv by done. unfold MAX_SAFE_INTEGER in Hn.
  by rewrite dbl_small by lia.
Qed.

Lemma jitter_bounds rnd iv :
  0 <= rnd < MAX_JITTER_SECONDS -> 0 < iv -> 1 <= generateJitterIntervals rnd iv <= MAX_JITTER_SECONDS.
Proof.
  unfold generateJitterIntervals, ceil_div, MIN_JITTER_SECONDS, MAX_JITTER_SECONDS. intros Hr Hi.
  assert (- (1 + rnd) <= - (1 + rnd) / iv); [|lia].
  apply Z.div_le_lower_bound; [done|]. nia.
Qed.

Lemma digits_value_small s : (String.length s <= 15)%nat -> all_digits s = true ->
  0 <= digits_value s < 10 ^ 15.
Proof.
  intros Hl Hd. unfold all_digits in Hd. apply andb_true_iff in Hd as [_ Hd].
  pose proof (digits_value_bound s Hd) as [H0 H1]. split; [done|].
  eapply Z.lt_le_trans; [exact H1|]. apply Z.pow_le_mono_r; lia.
Qed.

(** ** Properties *)

(** C40: cursors only go forward: the cursor of a response is never behind the
    current interval, and strictly ahead of the cursor the client sent, as long
    as that one leaves room below the largest safe integer. *)
Theorem response_cursor_progress (now rnd : Z) (client : option string) (options : CursorOptions) :
  let iv := or_else (intervalSeconds options) DEFAULT_CURSOR_INTERVAL_SECONDS in
  let current := (now - or_else (epoch options) DEFAULT_CURSOR_EPOCH) / (iv * 1000) in
  0 <= rnd < MAX_JITTER_SECONDS -> 0 < iv -> 0 <= current <= MAX_SAFE_INTEGER ->
  (forall c n, client = Some c -> js_parseInt c = Some n -> n + MAX_JITTER_SECONDS <= MAX_SAFE_INTEGER) ->
  exists v, js_parseInt (generateResponseCursor now rnd client options) = Some v /\
    current <= v /\
    forall c n, client = Some c -> js_parseInt c = Some n -> n < v.
Proof.
  intros iv current Hr Hi Hcur Hclient. unfold generateResponseCursor, calculateCursor.
  fold iv. fold current. rewrite js_parseInt_String by done.
  destruct client as [c|]; cbn [truthy negb or_else].
  2: { exists current. rewrite js_parseInt_String by done. split_and!; [done|lia|done]. }
  destruct (String.eqb_spec c EmptyString) as [->|Hc]; cbn [negb].
  { exists current. rewrite js_parseInt_String by done. split_and!; [done|lia|].
    intros c' n' [= <-]. done. }
  destruct (js_parseInt c) as [n|] eqn:Hn; cycle 1.
  { exists current. rewrite js_parseInt_String by done. split_and!; [done|lia|].
    intros c' n' [= <-]. congruence. }
  specialize (Hclient c n eq_refl Hn). destruct (Z.ltb_spec n current).
  { exists current. rewrite js_parseInt_String by done. split_and!; [done|lia|].
    intros c' n' [= <-]. rewrite Hn. by intros [= <-]. }
  pose proof (jitter_bounds rnd iv Hr Hi).
  assert (Hd : dbl (n + generateJitterIntervals rnd iv) = n + generateJitterIntervals rnd iv)
    by (apply dbl_small; unfold MAX_SAFE_INTEGER, MAX_JITTER_SECONDS in *; lia).
  rewrite Hd. exists (n + generateJitterIntervals rnd iv). rewrite js_parseInt_String by lia.
  split_and!; [done|lia|]. intros c' n' [= <-]. rewrite Hn. intros [= <-]. lia.
Qed.

Lemma response_cursor_progress_witness :
  exists v, js_parseInt (generateResponseCursor (DEFAULT_CURSOR_EPOCH + 60000) 25 (Some "3")
                           (mkCursorOptions None None)) = Some v /\
    3 <= v /\ forall c n, Some "3"%string = Some c -> js_parseInt c = Some n -> n < v.
Proof.
  apply (response_cursor_progress (DEFAULT_CURSOR_EPOCH + 60000) 25 (Some "3"%string)
           (mkCursorOptions None None)); cbn [or_else intervalSeconds epoch].
  - unfold MAX_JITTER_SECONDS. lia.
  - reflexivity.
  - vm_compute. split; discriminate.
  - intros c n [= <-] Hn. vm_compute in Hn. injection Hn as <-. vm_compute. discriminate.
Defined.

(** the Cloudflare server needs no such proviso: it reads a client's cursor
    only when it has at most 15 digits, so every response is strictly ahead of
    every cursor it read, whatever the client sends. *)
Theorem cloudflare_cursor_progress (now rnd : Z) (client : option string) :
  0 <= rnd < MAX_JITTER_SECONDS ->
  DEFAULT_CURSOR_EPOCH <= now <= MAX_SAFE_INTEGER ->
  exists v, js_parseInt (Cloudflare.generateResponseCursor now rnd client) = Some v /\
    (now - DEFAULT_CURSOR_EPOCH) / 20000 <= v /\
    forall c, client = Some c -> Cloudflare.valid_client_cursor c = true -> digits_value c < v.
Proof.
  intros Hr Hnow. unfold Cloudflare.generateResponseCursor, Cloudflare.calculateCursor,
    DEFAULT_CURSOR_INTERVAL_SECONDS.
  change (20 * 1000) with 20000.
  assert (Hcur : 0 <= (now - DEFAULT_CURSOR_EPOCH) / 20000 <= MAX_SAFE_INTEGER).
  { unfold DEFAULT_CURSOR_EPOCH, MAX_SAFE_INTEGER in *. split; [apply Z.div_pos; lia|].
    apply Z.div_le_upper_bound; lia. }
  set (current := (now - DEFAULT_CURSOR_EPOCH) / 20000) in *.
  rewrite js_parseInt_String by done.
  destruct client as [c|]; cbn [truthy negb or_else orb].
  2: { exists current. rewrite js_parseInt_String by done. split_and!; [done|lia|done]. }
  destruct (Cloudflare.valid_client_cursor c) eqn:Hv; cycle 1.
  { rewrite orb_true_r. exists current. rewrite js_parseInt_String by done.
    split_and!; [done|lia|]. intros c' [= <-]. congruence. }
  unfold Cloudflare.valid_client_cursor in Hv. apply andb_true_iff in Hv as [Hd Hl%Nat.leb_le].
  pose proof (digits_value_small c Hl Hd) as Hb.
  assert (Hdbl : dbl (digits_value c) = digits_value c) by (apply dbl_small; lia).
  rewrite (js_parseInt_digits c Hd), Hdbl.
  destruct (String.eqb_spec c EmptyString) as [->|]; [done|]. cbn [negb orb].
  destruct (Z.ltb_spec (digits_value c) current).
  { exists current. rewrite js_parseInt_String by done. split_and!; [done|lia|].
    intros c' [= <-] _. done. }
  unfold Cloudflare.generateJitterIntervals. fold (generateJitterIntervals rnd 20).
  pose proof (jitter_bounds rnd 20 Hr ltac:(lia)) as Hj.
  unfold MAX_JITTER_SECONDS in *.
  rewrite (dbl_small (_ + _)) by lia. exists (digits_value c + generateJitterIntervals rnd 20).
  rewrite js_parseInt_String by (unfold MAX_SAFE_INTEGER; lia).
  split_and!; [done|lia|]. intros c' [= <-] _. lia.
Qed.

Lemma cloudflare_cursor_progress_witness :
  exists v, js_parseInt (Cloudflare.generateResponseCursor 1800000000000 0 (Some "999999999999999")) = Some v /\
    (1800000000000 - DEFAULT_CURSOR_EPOCH) / 20000 <= v /\
    forall c, Some "999999999999999"%string = Some c -> Cloudflare.valid_client_cursor c = true ->
      digits_value c < v.
Proof.
  apply (cloudflare_cursor_progress 1800000000000 0 (Some "999999999999999"%string)).
  - unfold MAX_JITTER_SECONDS. lia.
  - vm_compute. split; discriminate.
Defined.

(** Without that guard the proviso is needed: the reference server answers
    a client that sends 2^53 with the same cursor, although a response is meant
    to be strictly greater than the cursor the client sent. *)
Theorem response_cursor_stuck :
  generateResponseCursor 1800000000000 0 (Some "9007199254740992") (mkCursorOptions None None)
  = "9007199254740992"%string.
Proof. vm_compute. reflexivity. Qed.
