(* ===== verification/Glob.v ===== *)
(** * Glob patterns: [packages/server/src/glob.ts]

    [matchParts] walks two arrays with two indices; here the arguments are
    what is left of the arrays. *)

From S2P Require Import Prelude.

(** ** Definitions *)

Fixpoint drop_leading (c : ascii) (s : string) : string :=
  match s with
  | String a s' => if Ascii.eqb a c then drop_leading c s' else s
  | EmptyString => EmptyString
  end.

Definition drop_trailing (c : ascii) (s : string) : string :=
  of_chars (reverse (chars (drop_leading c (of_chars (reverse (chars s)))))).

(** [splitPath] *)
Definition splitPath (p : string) : list string :=
  List.filter (fun s => (0 <? String.length s)%nat)
    (split_on "/"%char (drop_trailing "/"%char (drop_leading "/"%char p))).

(** [seg.replace(/%2[Aa]/g, "*")] *)
Fixpoint decode_star (s : string) : string :=
  match s with
  | String "%" (String "2" (String a s' as t)) =>
      if Ascii.eqb a "A" || Ascii.eqb a "a" then String "*" (decode_star s')
      else String "%" (String "2" (decode_star t))
  | String c s' => String c (decode_star s')
  | EmptyString => EmptyString
  end.

Definition is_double_star (s : string) : bool := String.eqb s "**".

(** The suffixes of a list, the list itself first. *)
Fixpoint suffixes {A} (l : list A) : list (list A) :=
  match l with
  | [] => [[]]
  | _ :: l' => l :: suffixes l'
  end.

(** [matchParts] *)
Fixpoint matchParts (pattern path : list string) : bool :=
  match pattern with
  | [] => (length path =? 0)%nat
  | seg :: pattern' =>
      match path with
      | [] => forallb is_double_star pattern
      | s :: path' =>
          if is_double_star seg then existsb (matchParts pattern') (suffixes path)
          else if String.eqb seg "*" then matchParts pattern' path'
          else if negb (String.eqb (decode_star seg) s) then false
          else matchParts pattern' path'
      end
  end.

(** [globMatch] *)
Definition globMatch (pattern path : string) : bool :=
  matchParts (splitPath pattern) (splitPath path).

(** ** What a pattern means *)

Inductive seg_matches : string -> string -> Prop :=
| seg_star s : seg_matches "*" s
| seg_literal seg s : seg <> "*" -> seg <> "**" -> decode_star seg = s -> seg_matches seg s.

(** [**] stands for any number of segments, any other segment for one. *)
Inductive matches : list string -> list string -> Prop :=
| matches_nil : matches [] []
| matches_seg seg s pattern path :
    seg_matches seg s -> matches pattern path -> matches (seg :: pattern) (s :: path)
| matches_double_star skipped pattern path :
    matches pattern path -> matches ("**" :: pattern) (skipped ++ path).

(** ** Lemmas *)

Lemma suffixes_spec {A} (l k : list A) : In k (suffixes l) <-> exists skipped, l = skipped ++ k.
Proof.
  induction l as [|x l IH]; cbn [suffixes In].
  - split.
    + intros [<-|[]]. by exists [].
    + intros [[|] H]; [by left|discriminate].
  - rewrite IH. split.
    + intros [<-|[sk ->]]; [by exists []|by exists (x :: sk)].
    + intros [[|y sk] H]; [by left|]. injection H as <- ->. right. by exists sk.
Qed.

Lemma matches_nil_path pattern :
  matches pattern [] <-> forallb is_double_star pattern = true.
Proof.
  induction pattern as [|seg pattern IH]; cbn [forallb].
  - split; [done|constructor].
  - rewrite andb_true_iff, <-IH. unfold is_double_star. rewrite String.eqb_eq. split.
    + intros H. inversion H as [| |skipped pattern' path H' E Hpath]; subst.
      apply app_eq_nil in Hpath as [-> ->]. done.
    + intros [-> H]. by apply (matches_double_star []).
Qed.

Lemma decode_star_star : decode_star "**" = "**".
Proof. reflexivity. Qed.

(** The matcher is sound and complete on segments. *)
Lemma matchParts_spec pattern path : matchParts pattern path = true <-> matches pattern path.
Proof.
  revert path. induction pattern as [|seg pattern IH]; intros path; cbn [matchParts].
  { destruct path; split; try done; [constructor|]. intros H. inversion H. }
  destruct path as [|s path]; [symmetry; apply (matches_nil_path (seg :: pattern))|].
  unfold is_double_star at 1. destruct (String.eqb_spec seg "**") as [->|Hd].
  - rewrite existsb_exists. split.
    + intros (k & Hk%suffixes_spec & Hm%IH). destruct Hk as [sk ->].
      by apply matches_double_star.
    + intros H. inversion H as [|? ? ? ? Hseg Hm|sk ? p Hm E Hp]; subst.
      * inversion Hseg; subst; done.
      * exists p. rewrite suffixes_spec, IH. split; [by exists sk|done].
  - assert (Hcons : matches (seg :: pattern) (s :: path) <->
                    seg_matches seg s /\ matches pattern path).
    { split; [|intros []; by constructor]. intros H. inversion H; subst; done. }
    rewrite Hcons, <-IH. destruct (String.eqb_spec seg "*") as [->|Hs].
    + split; [|by intros []]. split; [constructor|done].
    + destruct (String.eqb_spec (decode_star seg) s) as [<-|Hne]; cbn [negb].
      * split; [|by intros []]. split; [by constructor|done].
      * split; [done|]. intros [Hseg _]. inversion Hseg; subst; done.
Qed.

(** ** Properties *)

(** A path matches a pattern exactly when its segments do: [*] stands for
    one segment, [**] for any number of them, anything else for itself with
    [%2A] read as [*]. *)
Theorem globMatch_spec (pattern path : string) :
  globMatch pattern path = true <-> matches (splitPath pattern) (splitPath path).
Proof. apply matchParts_spec. Qed.
