(* ===== verification/PathEncoding.v ===== *)
(** * Base64, and [packages/server/src/path-encoding.ts]

    [base64] is [Buffer.toString("base64")] and [base64_decode] is
    [Buffer.from(s, "base64")].  SHA-256 is a parameter. *)

From S2P Require Import Prelude Text.

(** ** Base64 *)

Definition b64_digit (n : Z) : ascii :=
  if n <? 26 then char_of_code (65 + n)
  else if n <? 52 then char_of_code (97 + (n - 26))
  else if n <? 62 then char_of_code (48 + (n - 52))
  else if n =? 62 then "+" else "/".

Definition b64_value (c : ascii) : option Z :=
  let n := code c in
  if (65 <=? n) && (n <=? 90) then Some (n - 65)
  else if (97 <=? n) && (n <=? 122) then Some (n - 97 + 26)
  else if (48 <=? n) && (n <=? 57) then Some (n - 48 + 52)
  else if n =? 43 then Some 62
  else if n =? 47 then Some 63
  else None.

Fixpoint base64 (l : bytes) : list ascii :=
  match l with
  | a :: b :: c :: l =>
      b64_digit (code a / 4) :: b64_digit (code a mod 4 * 16 + code b / 16) ::
      b64_digit (code b mod 16 * 4 + code c / 64) :: b64_digit (code c mod 64) :: base64 l
  | [a; b] =>
      [b64_digit (code a / 4); b64_digit (code a mod 4 * 16 + code b / 16);
       b64_digit (code b mod 16 * 4); "="%char]
  | [a] => [b64_digit (code a / 4); b64_digit (code a mod 4 * 16); "="%char; "="%char]
  | [] => []
  end.

(** The digits up to the padding; other characters are skipped. *)
Fixpoint b64_values (l : list ascii) : list Z :=
  match l with
  | [] => []
  | c :: l =>
      if Ascii.eqb c "=" then []
      else match b64_value c with Some v => v :: b64_values l | None => b64_values l end
  end.

Fixpoint b64_bytes (l : list Z) : bytes :=
  match l with
  | a :: b :: c :: d :: l =>
      char_of_code (a * 4 + b / 16) :: char_of_code (b mod 16 * 16 + c / 4) ::
      char_of_code (c mod 4 * 64 + d) :: b64_bytes l
  | [a; b; c] => [char_of_code (a * 4 + b / 16); char_of_code (b mod 16 * 16 + c / 4)]
  | [a; b] => [char_of_code (a * 4 + b / 16)]
  | _ => []
  end.

Definition base64_decode (s : list ascii) : bytes := b64_bytes (b64_values s).

(** ** Stream paths as directory names *)

Definition MAX_ENCODED_LENGTH : Z := 200.

(** [s.replace(/a/g, b)] for one character. *)
Definition replace_char (a b : ascii) (l : list ascii) : list ascii :=
  (fun c => if Ascii.eqb c a then b else c) <$> l.

Definition remove_char (a : ascii) (l : list ascii) : list ascii :=
  List.filter (fun c => negb (Ascii.eqb c a)) l.

Definition is_hex (c : ascii) : bool :=
  is_digit c || ((97 <=? code c) && (code c <=? 102)).

(** The parts of a list around the last occurrence of a character. *)
Fixpoint split_last (a : ascii) (l : list ascii) : option (list ascii * list ascii) :=
  match l with
  | [] => None
  | c :: l' =>
      match split_last a l' with
      | Some (x, y) => Some (c :: x, y)
      | None => if Ascii.eqb c a then Some ([], l') else None
      end
  end.

Section path_encoding.
(** The hexadecimal SHA-256 digest of a string. *)
Context (sha256_hex : string -> string).

(** [encodeStreamPath] *)
Definition encodeStreamPath (path : string) : string :=
  let base64 :=
    remove_char "=" (replace_char "/" "_" (replace_char "+" "-" (base64 (chars path)))) in
  if MAX_ENCODED_LENGTH <? Z.of_nat (length base64) then
    let hash := str_take 16 (sha256_hex path) in
    of_chars (take 180 base64) +:+ "~" +:+ hash
  else of_chars base64.

(** [decodeStreamPath] *)
Definition decodeStreamPath (encoded : string) : string :=
  let encoded := chars encoded in
  let base :=
    match split_last "~" encoded with
    | Some (before, possibleHash) =>
        if (length possibleHash =? 16)%nat && forallb is_hex possibleHash then before else encoded
    | None => encoded
    end in
  let normalized := replace_char "_" "/" (replace_char "-" "+" base) in
  let padded :=
    normalized ++ repeat "="%char (Z.to_nat ((4 - Z.of_nat (length normalized) mod 4) mod 4)) in
  of_chars (utf8_decode (base64_decode padded)).
End path_encoding.

(** ** Lemmas *)

Definition b64_char (c : ascii) : bool :=
  match b64_value c with Some _ => true | None => false end.

(** A finite check for every value of a small range. *)
Lemma Z_range_check (P : Z -> bool) n :
  forallb (fun i => P (Z.of_nat i)) (seq 0 n) = true -> forall z, 0 <= z < Z.of_nat n -> P z = true.
Proof.
  rewrite forallb_forall. intros H z Hz. specialize (H (Z.to_nat z)).
  rewrite Z2Nat.id in H by lia. apply H. apply in_seq. lia.
Qed.

Definition b64_good (n : Z) : bool :=
  let c := b64_digit n in
  match b64_value c with Some m => m =? n | None => false end &&
  negb (Ascii.eqb c "=") && negb (Ascii.eqb c "~") && negb (Ascii.eqb c "-") &&
  negb (Ascii.eqb c "_").

Lemma b64_digit_good n : 0 <= n < 64 -> b64_good n = true.
Proof. intros Hn. apply (Z_range_check b64_good 64); [vm_compute; reflexivity|done]. Qed.

(** The values of the digits of some bytes. *)
Fixpoint b64_groups (l : bytes) : list Z :=
  match l with
  | a :: b :: c :: l =>
      code a / 4 :: code a mod 4 * 16 + code b / 16 :: code b mod 16 * 4 + code c / 64 ::
      code c mod 64 :: b64_groups l
  | [a; b] => [code a / 4; code a mod 4 * 16 + code b / 16; code b mod 16 * 4]
  | [a] => [code a / 4; code a mod 4 * 16]
  | [] => []
  end.

Definition b64_pad (l : bytes) : list ascii :=
  repeat "="%char (Z.to_nat ((3 - Z.of_nat (length l) mod 3) mod 3)).

(** Induction three bytes at a time. *)
Lemma triples_ind {A} (P : list A -> Prop) :
  P [] -> (forall a, P [a]) -> (forall a b, P [a; b]) ->
  (forall a b c l, P l -> P (a :: b :: c :: l)) -> forall l, P l.
Proof.
  intros H0 H1 H2 H3. enough (forall l, P l /\ (forall a, P (a :: l)) /\ forall a b, P (a :: b :: l))
    as H by apply H.
  induction l as [|x l (IH0 & IH1 & IH2)]; [by auto|]. split_and!; auto.
Qed.

Lemma b64_groups_range l : Forall (fun n => 0 <= n < 64) (b64_groups l).
Proof.
  induction l as [|a|a b|a b c l IH] using triples_ind; cbn [b64_groups];
    [constructor|pose proof (code_bound a)|pose proof (code_bound a); pose proof (code_bound b)
    |pose proof (code_bound a); pose proof (code_bound b); pose proof (code_bound c)];
    repeat apply List.Forall_cons; try done; Z.to_euclidean_division_equations; lia.
Qed.

Lemma base64_groups l : base64 l = (b64_digit <$> b64_groups l) ++ b64_pad l.
Proof.
  unfold b64_pad. induction l as [|a|a b|a b c l IH] using triples_ind; [reflexivity..|].
  cbn [base64 b64_groups fmap list_fmap app length]. rewrite IH. do 5 f_equal.
  do 3 f_equal. rewrite !Nat2Z.inj_succ. Z.to_euclidean_division_equations. lia.
Qed.

Lemma char_of_code_eq z c : z = code c -> char_of_code z = c.
Proof. intros ->. apply char_of_code_code. Qed.

Lemma b64_bytes_groups l : b64_bytes (b64_groups l) = l.
Proof.
  induction l as [|a|a b|a b c l IH] using triples_ind; cbn [b64_groups b64_bytes]; [done|..];
    rewrite ?IH; repeat f_equal;
    apply char_of_code_eq;
    repeat match goal with |- context [code ?a] =>
      lazymatch goal with H : 0 <= code a < 256 |- _ => fail | _ => pose proof (code_bound a) end end;
    Z.to_euclidean_division_equations; lia.
Qed.

Lemma b64_values_digits l k :
  Forall (fun n => 0 <= n < 64) l -> b64_values ((b64_digit <$> l) ++ repeat "="%char k) = l.
Proof.
  induction 1 as [|n l Hn Hl IH]; cbn [fmap list_fmap app].
  - by destruct k.
  - pose proof (b64_digit_good n Hn) as Hg. unfold b64_good in Hg. cbn [b64_values].
    rewrite !andb_true_iff, !negb_true_iff in Hg. destruct Hg as [[[[Hv ->] _] _] _].
    destruct (b64_value (b64_digit n)) as [m|]; [|done]. apply Z.eqb_eq in Hv as ->. by f_equal.
Qed.

(** Base64 is undone by its decoder. *)
Lemma base64_decode_base64 l : base64_decode (base64 l) = l.
Proof.
  unfold base64_decode. rewrite base64_groups. unfold b64_pad.
  rewrite b64_values_digits by apply b64_groups_range. apply b64_bytes_groups.
Qed.

(** The base64url form of some bytes: digits only. *)
Definition url_digits (l : bytes) : list ascii :=
  replace_char "/" "_" (replace_char "+" "-" (b64_digit <$> b64_groups l)).

Lemma replace_char_app a b l k : replace_char a b (l ++ k) = replace_char a b l ++ replace_char a b k.
Proof. apply fmap_app. Qed.

Lemma remove_char_id a l :
  Forall (fun c => Ascii.eqb c a = false) l -> remove_char a l = l.
Proof.
  induction 1 as [|c l Hc Hl IH]; [done|]. cbn. rewrite Hc. cbn. f_equal. exact IH.
Qed.

(** A digit in base64url notation, and back. *)
Definition url_digit (n : Z) : ascii :=
  let c := b64_digit n in
  let c := if Ascii.eqb c "+" then "-"%char else c in
  if Ascii.eqb c "/" then "_"%char else c.

Definition url_char (c : ascii) : bool :=
  is_digit c || ((65 <=? code c) && (code c <=? 90)) || ((97 <=? code c) && (code c <=? 122)) ||
  Ascii.eqb c "-" || Ascii.eqb c "_".

Definition url_good (n : Z) : bool :=
  let c := url_digit n in
  let c' := if Ascii.eqb c "-" then "+"%char else c in
  let c' := if Ascii.eqb c' "_" then "/"%char else c' in
  Ascii.eqb c' (b64_digit n) && url_char c && negb (Ascii.eqb c "=") && negb (Ascii.eqb c "~").

Lemma url_digit_good n : 0 <= n < 64 -> url_good n = true.
Proof. intros Hn. apply (Z_range_check url_good 64); [vm_compute; reflexivity|done]. Qed.

Lemma url_digits_map l : url_digits l = url_digit <$> b64_groups l.
Proof. unfold url_digits, replace_char. by rewrite <-!list_fmap_compose. Qed.

Lemma url_digits_chars l :
  Forall (fun c => url_char c = true /\ Ascii.eqb c "=" = false /\ Ascii.eqb c "~" = false)
    (url_digits l).
Proof.
  rewrite url_digits_map. apply Forall_fmap. eapply List.Forall_impl; [|apply b64_groups_range].
  intros n Hn%url_digit_good. unfold url_good in Hn. cbn.
  rewrite !andb_true_iff, !negb_true_iff in Hn. by destruct Hn as [[[_ ?] ?] ?].
Qed.

(** What [encodeStreamPath] keeps of the base64 text. *)
Lemma encoded_digits l :
  remove_char "=" (replace_char "/" "_" (replace_char "+" "-" (base64 l))) = url_digits l.
Proof.
  rewrite base64_groups, !replace_char_app. fold (url_digits l).
  unfold remove_char. rewrite filter_app. fold (remove_char "=" (url_digits l)).
  rewrite remove_char_id.
  - unfold b64_pad. generalize (Z.to_nat ((3 - Z.of_nat (length l) mod 3) mod 3)) as k.
    intros k. assert (List.filter (fun c => negb (Ascii.eqb c "="))
      (replace_char "/" "_" (replace_char "+" "-" (repeat "="%char k))) = []) as ->;
      [|apply app_nil_r]. induction k as [|k IH]; [done|]. cbn. exact IH.
  - eapply List.Forall_impl; [|apply url_digits_chars]. by intros c (_ & ? & _).
Qed.

Lemma restored_digits l :
  replace_char "_" "/" (replace_char "-" "+" (url_digits l)) = b64_digit <$> b64_groups l.
Proof.
  rewrite url_digits_map. unfold replace_char. rewrite <-!list_fmap_compose.
  apply list_fmap_ext. intros i n Hn.
  assert (0 <= n < 64) as Hr.
  { pose proof (b64_groups_range l) as Hall. rewrite list.Forall_forall in Hall.
    apply Hall. by eapply list_elem_of_lookup_2. }
  apply url_digit_good in Hr. unfold url_good in Hr. cbn.
  rewrite !andb_true_iff in Hr. destruct Hr as [[[Hr _] _] _]. by apply Ascii.eqb_eq in Hr.
Qed.

Lemma split_last_none a l : Forall (fun c => Ascii.eqb c a = false) l -> split_last a l = None.
Proof. induction 1 as [|c l Hc Hl IH]; [done|]. cbn. by rewrite IH, Hc. Qed.

Lemma url_digits_decode l k :
  base64_decode (replace_char "_" "/" (replace_char "-" "+" (url_digits l)) ++ repeat "="%char k) = l.
Proof.
  rewrite restored_digits. unfold base64_decode.
  rewrite b64_values_digits by apply b64_groups_range. apply b64_bytes_groups.
Qed.

(** ** Properties *)

Section properties.
Context (sha256_hex : string -> string).

(** The directory name of a stream whose encoding needs at most 200
    characters decodes back to its path. *)
Theorem decode_encode_path (path : string) :
  utf8_valid (chars path) = true ->
  Z.of_nat (length (url_digits (chars path))) <= MAX_ENCODED_LENGTH ->
  decodeStreamPath (encodeStreamPath sha256_hex path) = path.
Proof.
  intros Hu Hlen. unfold encodeStreamPath. rewrite encoded_digits.
  destruct (Z.ltb_spec MAX_ENCODED_LENGTH (Z.of_nat (length (url_digits (chars path))))); [lia|].
  unfold decodeStreamPath. rewrite chars_of_chars, split_last_none.
  - rewrite url_digits_decode. unfold utf8_valid in Hu. apply bool_decide_eq_true in Hu.
    by rewrite Hu, of_chars_chars.
  - eapply List.Forall_impl; [|apply url_digits_chars]. by intros c (_ & _ & ?).
Qed.

(** Every directory name has at most 200 characters and holds only letters,
    digits, [-], [_] and [~], whatever the path: there is no separator or dot
    in it that could lead out of the data directory. *)
Theorem encoded_path_is_safe (path : string) :
  String.length (sha256_hex path) = 64%nat -> all_chars is_hex (sha256_hex path) = true ->
  (String.length (encodeStreamPath sha256_hex path) <= 200)%nat /\
  all_chars (fun c => url_char c || Ascii.eqb c "~") (encodeStreamPath sha256_hex path) = true.
Proof.
  intros Hlen Hhex. unfold encodeStreamPath. rewrite encoded_digits.
  assert (Hd : forall l, Forall (fun c => url_char c = true) l ->
    all_chars (fun c => url_char c || Ascii.eqb c "~") (of_chars l) = true).
  { intros l Hl. unfold all_chars. rewrite chars_of_chars, forallb_forall.
    rewrite List.Forall_forall in Hl. intros c Hc. by rewrite Hl. }
  pose proof (url_digits_chars (chars path)) as Hall.
  assert (Hall' : Forall (fun c => url_char c = true) (url_digits (chars path)))
    by (eapply List.Forall_impl; [|exact Hall]; by intros c (? & _)).
  destruct (Z.ltb_spec MAX_ENCODED_LENGTH (Z.of_nat (length (url_digits (chars path))))) as [Hl|Hl].
  - split.
    + rewrite !string_length_app, <-!length_chars, chars_of_chars, length_take.
      assert (length (chars (str_take 16 (sha256_hex path))) <= 16)%nat; [|cbn [chars length]; lia].
      rewrite length_chars. generalize (sha256_hex path) as s. generalize 16%nat as n. clear.
      induction n as [|n IH]; intros [|c s]; cbn; [lia..|]. specialize (IH s). lia.
    + rewrite !all_chars_app, Hd by (by apply Forall_take). cbn [andb].
      apply andb_true_iff. split; [reflexivity|].
      unfold all_chars in *. rewrite forallb_forall in *. intros c Hc.
      assert (Hin : In c (chars (sha256_hex path))).
      { revert Hc. generalize (sha256_hex path) as s. generalize 16%nat as n. clear.
        induction n as [|n IH]; intros [|d s]; cbn; try done. intros [->|Hc]; [by left|right].
        by apply IH. }
      apply Hhex in Hin. unfold is_hex in Hin. unfold url_char.
      rewrite !orb_true_iff in *. rewrite !andb_true_iff, !Z.leb_le in *. destruct Hin as [?|?]; [by auto 10|].
      left. left. left. right. lia.
  - split; [|by apply Hd]. rewrite <-length_chars, chars_of_chars. unfold MAX_ENCODED_LENGTH in Hl. lia.
Qed.
End properties.

(** A stand-in digest for the witnesses. *)
Definition toy_digest (s : string) : string := fixed_digits 64 (Z.of_nat (String.length s)).

Lemma decode_encode_path_witness :
  decodeStreamPath (encodeStreamPath toy_digest "/stream/users:created") = "/stream/users:created"%string.
Proof. apply decode_encode_path; [vm_compute; reflexivity|vm_compute; discriminate]. Defined.

Definition long_path : string := of_chars ("/"%char :: repeat "a"%char 300).

Lemma encoded_path_is_safe_witness :
  (String.length (encodeStreamPath toy_digest long_path) <= 200)%nat /\
  all_chars (fun c => url_char c || Ascii.eqb c "~") (encodeStreamPath toy_digest long_path) = true.
Proof. apply encoded_path_is_safe; vm_compute; reflexivity. Defined.
