(* ===== verification/Sse.v ===== *)
(** * Server-Sent Events: what the server writes and what the client parses

    [encodeSSEData] is from [packages/server/src/server.ts], [parseSSEStream]
    from [packages/client/src/sse.ts].  The parser runs on the strings its
    [TextDecoder] hands out, one per chunk read. *)

From S2P Require Import Prelude Text Json JsonInstance.

(** ** The server's side *)

(** [payload.split(/\r\n|\r|\n/)] *)
Fixpoint sse_split (s : string) : list string :=
  match s with
  | EmptyString => [EmptyString]
  | String c s' =>
      if Ascii.eqb c CR then
        match s' with
        | String c' s'' =>
            if Ascii.eqb c' LF then EmptyString :: sse_split s'' else EmptyString :: sse_split s'
        | EmptyString => EmptyString :: sse_split s'
        end
      else if Ascii.eqb c LF then EmptyString :: sse_split s'
      else match sse_split s' with
           | h :: t => String c h :: t
           | [] => [String c EmptyString]
           end
  end.

Definition NL : string := String LF EmptyString.

(** [encodeSSEData] *)
Definition encodeSSEData (payload : string) : string :=
  let lines := sse_split payload in
  join NL (map (fun line => "data:" +:+ line) lines) +:+ NL +:+ NL.

(** One event as [handleSSE] writes it. *)
Definition sse_event (type payload : string) : string :=
  "event: " +:+ type +:+ NL +:+ encodeSSEData payload.

(** ** The client's side *)

(** A parsed event; the fields of a control event are those of its JSON. *)
Inductive SSEEvent :=
| SSEData (data : string)
| SSEControl (streamNextOffset streamCursor upToDate streamClosed : option json).

(** [buffer.replace(/\r\n/g, "\n").replace(/\r/g, "\n")] *)
Fixpoint crlf_to_lf (s : string) : string :=
  match s with
  | EmptyString => EmptyString
  | String c s' =>
      if Ascii.eqb c CR then
        match s' with
        | String c' s'' => if Ascii.eqb c' LF then String LF (crlf_to_lf s'') else String c (crlf_to_lf s')
        | EmptyString => String c EmptyString
        end
      else String c (crlf_to_lf s')
  end.

Definition cr_to_lf (s : string) : string :=
  of_chars ((fun c => if Ascii.eqb c CR then LF else c) <$> chars s).

Definition normalize_lines (s : string) : string := cr_to_lf (crlf_to_lf s).

(** [currentEvent] *)
Record EventState := mkEventState {
  ev_type : option string;
  ev_data : list string;
}.

Definition no_event : EventState := mkEventState None [].

(** Strip one leading space. *)
Definition strip_space (s : string) : string := if starts_with " " s then str_drop 1 s else s.

Section parser.
Context `{!JsonLib}.

(** The fields read from [JSON.parse] of a control event.  A value that is not
    an object has none; reading a field of [null] throws, inside the [try]. *)
Definition control_event (v : json) : option SSEEvent :=
  match v with
  | JNull => None
  | JObj kvs =>
      Some (SSEControl (obj_get "streamNextOffset" kvs) (obj_get "streamCursor" kvs)
              (obj_get "upToDate" kvs) (obj_get "streamClosed" kvs))
  | _ => Some (SSEControl None None None None)
  end.

(** The end of an event: what is yielded, or the [PARSE_ERROR] that is thrown
    with the text that could not be parsed. *)
Definition dispatch (ev : EventState) : result string (list SSEEvent) :=
  match ev_type ev with
  | Some type =>
      if negb (String.eqb type EmptyString) && (0 <? length (ev_data ev))%nat then
        let dataStr := join NL (ev_data ev) in
        if String.eqb type "data" then Ok [SSEData dataStr]
        else if String.eqb type "control" then
          match JSON_parse dataStr ≫= control_event with
          | Some e => Ok [e]
          | None => Err dataStr
          end
        else Ok []
      else Ok []
  | None => Ok []
  end.

(** One complete line. *)
Definition parse_line (ev : EventState) (line : string) : result string (EventState * list SSEEvent) :=
  if String.eqb line EmptyString then
    match dispatch ev with
    | Ok es => Ok (no_event, es)
    | Err e => Err e
    end
  else if starts_with "event:" line then
    Ok (mkEventState (Some (strip_space (str_drop 6 line))) (ev_data ev), [])
  else if starts_with "data:" line then
    Ok (mkEventState (ev_type ev) (ev_data ev ++ [strip_space (str_drop 5 line)]), [])
  else Ok (ev, []).

(** [for (const line of lines)]: the events yielded, and how the loop ended. *)
Fixpoint parse_lines (ev : EventState) (lines : list string)
    : list SSEEvent * result string EventState :=
  match lines with
  | [] => ([], Ok ev)
  | line :: lines =>
      match parse_line ev line with
      | Err e => ([], Err e)
      | Ok (ev, es) => let '(es', r) := parse_lines ev lines in (es ++ es', r)
      end
  end.

(** [lines.pop()]: the lines before the last one, and the last one. *)
Definition pop_line (s : string) : list string * string :=
  let lines := split_on LF s in (removelast lines, List.last lines EmptyString).

(** One turn of the [while] loop, for one decoded chunk. *)
Definition parse_chunk (buffer : string) (ev : EventState) (chunk : string)
    : list SSEEvent * result string (string * EventState) :=
  let buffer := normalize_lines (buffer +:+ chunk) in
  let '(lines, buffer) := pop_line buffer in
  let '(es, r) := parse_lines ev lines in
  (es, match r with Ok ev => Ok (buffer, ev) | Err e => Err e end).

(** [parseSSEStream] on the chunks; [remaining] is what the decoder flushes at
    the end. *)
Fixpoint parse_from (buffer : string) (ev : EventState) (chunks : list string)
    (remaining : string) : list SSEEvent * result string unit :=
  match chunks with
  | [] =>
      let buffer := buffer +:+ remaining in
      if negb (String.eqb buffer EmptyString) then
        match dispatch ev with
        | Ok es => (es, Ok tt)
        | Err e => ([], Err e)
        end
      else ([], Ok tt)
  | chunk :: chunks =>
      match parse_chunk buffer ev chunk with
      | (es, Ok (buffer, ev)) =>
          let '(es', r) := parse_from buffer ev chunks remaining in (es ++ es', r)
      | (es, Err e) => (es, Err e)
      end
  end.

Definition parseSSEStream (chunks : list string) (remaining : string)
    : list SSEEvent * result string unit :=
  parse_from EmptyString no_event chunks remaining.
End parser.

(** ** Lines *)

Definition no_char (c : ascii) (s : string) : bool := all_chars (fun a => negb (Ascii.eqb a c)) s.

Lemma no_char_app c s t : no_char c (s +:+ t) = no_char c s && no_char c t.
Proof. apply all_chars_app. Qed.

Lemma crlf_to_lf_id s : no_char CR s = true -> crlf_to_lf s = s.
Proof.
  induction s as [|c s IH]; [done|]. unfold no_char. rewrite all_chars_cons.
  intros [Hc%negb_true_iff Hs]%andb_true_iff. cbn. by rewrite Hc, IH.
Qed.

Lemma cr_to_lf_id s : no_char CR s = true -> cr_to_lf s = s.
Proof.
  unfold cr_to_lf, no_char, all_chars. intros Hs. rewrite <-(of_chars_chars s) at 2. f_equal.
  rewrite forallb_forall in Hs. induction (chars s) as [|c l IH]; [done|]. cbn.
  pose proof (Hs c ltac:(by left)) as Hc%negb_true_iff. rewrite Hc. f_equal.
  apply IH. intros a Ha. apply Hs. by right.
Qed.

Lemma normalize_lines_id s : no_char CR s = true -> normalize_lines s = s.
Proof. intros Hs. unfold normalize_lines. by rewrite crlf_to_lf_id, cr_to_lf_id. Qed.

Lemma split_on_ne c s : split_on c s <> [].
Proof. destruct s as [|a s]; cbn; [done|]. destruct (Ascii.eqb a c); [done|]. by destruct (split_on c s). Qed.

Lemma split_on_app c s t :
  split_on c (s +:+ t) =
  removelast (split_on c s) ++ split_on c (List.last (split_on c s) EmptyString +:+ t).
Proof.
  induction s as [|a s IH]; [done|]. rewrite string_app_cons. cbn [split_on].
  pose proof (split_on_ne c s) as Hne. destruct (Ascii.eqb a c) eqn:Ha.
  - rewrite IH. destruct (split_on c s) as [|h l] eqn:Hs; [done|]. done.
  - rewrite IH. destruct (split_on c s) as [|h l] eqn:Hs; [done|].
    destruct l as [|h' l].
    + cbn [removelast List.last app]. rewrite string_app_cons. cbn [split_on]. by rewrite Ha.
    + cbn. reflexivity.
Qed.

Lemma split_on_sep c s t :
  no_char c s = true -> split_on c (s +:+ String c t) = s :: split_on c t.
Proof.
  intros Hs. revert t. induction s as [|a s IH]; intros t.
  - rewrite string_app_nil_l. cbn. by rewrite Ascii.eqb_refl.
  - unfold no_char in *. rewrite all_chars_cons in Hs.
    apply andb_true_iff in Hs as [Ha%negb_true_iff Hs].
    rewrite string_app_cons. cbn [split_on]. by rewrite Ha, IH.
Qed.

Lemma split_on_last_no_sep c s : no_char c (List.last (split_on c s) EmptyString) = true.
Proof.
  induction s as [|a s IH]; [done|]. cbn [split_on]. destruct (Ascii.eqb a c) eqn:Ha.
  - pose proof (split_on_ne c s). by destruct (split_on c s).
  - destruct (split_on c s) as [|h [|h' l]]; cbn [List.last] in *.
    + unfold no_char. by rewrite all_chars_cons, Ha.
    + unfold no_char in *. by rewrite all_chars_cons, Ha, IH.
    + exact IH.
Qed.

Lemma split_on_no_char c d s : no_char d s = true -> Forall (fun l => no_char d l = true) (split_on c s).
Proof.
  induction s as [|a s IH]; [by repeat constructor|]. unfold no_char in *. rewrite all_chars_cons.
  intros [Ha Hs]%andb_true_iff. specialize (IH Hs). cbn [split_on].
  destruct (Ascii.eqb a c); [by constructor|].
  destruct IH as [|h l Hh Hl]; [constructor; [|constructor]|constructor; [|done]];
    by rewrite all_chars_cons, Ha.
Qed.

Lemma List_last_app {A} (l k : list A) d : k <> [] -> List.last (l ++ k) d = List.last k d.
Proof.
  intros Hk. induction l as [|x l IH]; [done|]. cbn [app]. rewrite <-IH.
  by destruct (l ++ k) eqn:E; [apply app_eq_nil in E as [_ ?]|].
Qed.

Lemma Forall_List_last {A} (P : A -> Prop) (l : list A) d : Forall P l -> l <> [] -> P (List.last l d).
Proof.
  induction 1 as [|x l Hx Hl IH]; [done|]. intros _. destruct l as [|y l]; [done|].
  by apply IH.
Qed.

(** [lines.pop()] on a longer buffer. *)
Lemma pop_line_app s t :
  pop_line (s +:+ t) =
  ((pop_line s).1 ++ (pop_line ((pop_line s).2 +:+ t)).1, (pop_line ((pop_line s).2 +:+ t)).2).
Proof.
  unfold pop_line. cbn [fst snd]. rewrite split_on_app.
  pose proof (split_on_ne LF (List.last (split_on LF s) EmptyString +:+ t)) as Hne. f_equal.
  - by apply removelast_app.
  - destruct (split_on LF (List.last (split_on LF s) "" +:+ t)) as [|h l] eqn:E; [done|].
    by rewrite List_last_app.
Qed.

Section parser_lemmas.
Context `{!JsonLib}.

Lemma parse_lines_app ev l1 l2 :
  parse_lines ev (l1 ++ l2) =
  match parse_lines ev l1 with
  | (es1, Ok ev1) => let '(es2, r) := parse_lines ev1 l2 in (es1 ++ es2, r)
  | (es1, Err e) => (es1, Err e)
  end.
Proof.
  revert ev. induction l1 as [|l l1 IH]; intros ev; cbn [app parse_lines].
  - by destruct (parse_lines ev l2).
  - destruct (parse_line ev l) as [[ev1 es]|e]; [|done]. rewrite IH.
    destruct (parse_lines ev1 l1) as [es1 [ev2|e]]; [|done].
    destruct (parse_lines ev2 l2) as [es2 r]. by rewrite (assoc_L (++)).
Qed.

(** Two chunks are read as one. *)
Lemma parse_chunk_app b ev c1 c2 :
  no_char CR b = true -> no_char CR c1 = true -> no_char CR c2 = true ->
  parse_chunk b ev (c1 +:+ c2) =
  match parse_chunk b ev c1 with
  | (es, Ok (b1, ev1)) => let '(es', r) := parse_chunk b1 ev1 c2 in (es ++ es', r)
  | (es, Err e) => (es, Err e)
  end.
Proof.
  intros Hb H1 H2. unfold parse_chunk.
  rewrite !normalize_lines_id by (rewrite !no_char_app, ?Hb, ?H1, ?H2; done).
  rewrite <-string_app_assoc, pop_line_app.
  destruct (pop_line (b +:+ c1)) as [L1 b1] eqn:Hp1. cbn [fst snd].
  rewrite parse_lines_app. destruct (parse_lines ev L1) as [es1 [ev1|e]]; [|done].
  assert (Hb1 : no_char CR b1 = true).
  { unfold pop_line in Hp1. injection Hp1 as _ <-.
    apply (Forall_List_last (fun l => no_char CR l = true)); [|apply split_on_ne].
    apply split_on_no_char. by rewrite no_char_app, Hb, H1. }
  rewrite normalize_lines_id by (by rewrite no_char_app, Hb1, H2).
  destruct (pop_line (b1 +:+ c2)) as [L2 b2]. cbn [fst snd].
  by destruct (parse_lines ev1 L2) as [es2 [ev2|e]].
Qed.

Lemma parse_chunk_no_cr b ev c es b' ev' :
  no_char CR b = true -> no_char CR c = true ->
  parse_chunk b ev c = (es, Ok (b', ev')) -> no_char CR b' = true /\ no_char LF b' = true.
Proof.
  intros Hb Hc. unfold parse_chunk. rewrite normalize_lines_id by (by rewrite no_char_app, Hb, Hc).
  unfold pop_line. destruct (parse_lines _ _) as [es' [ev1|e]]; [|done]. intros [= _ <- _].
  split; [|apply split_on_last_no_sep].
  apply (Forall_List_last (fun l => no_char CR l = true)); [|apply split_on_ne].
  apply split_on_no_char. by rewrite no_char_app, Hb, Hc.
Qed.

Definition concat_chunks (chunks : list string) : string := join EmptyString chunks.

Lemma concat_chunks_cons c cs : concat_chunks (c :: cs) = c +:+ concat_chunks cs.
Proof. destruct cs as [|c' cs]; [by rewrite string_app_nil_r|]. done. Qed.

(** However the text is cut, it is parsed like one chunk. *)
Lemma parse_from_chunks b ev chunks remaining :
  no_char CR b = true -> no_char LF b = true ->
  Forall (fun c => no_char CR c = true) chunks ->
  parse_from b ev chunks remaining = parse_from b ev [concat_chunks chunks] remaining.
Proof.
  intros Hb Hl Hc. revert b ev Hb Hl. induction Hc as [|c cs Hc Hcs IH]; intros b ev Hb Hl.
  - cbn [parse_from concat_chunks join]. unfold parse_chunk. rewrite string_app_nil_r.
    rewrite normalize_lines_id by done. unfold pop_line.
    assert (split_on LF b = [b]) as ->.
    { clear -Hl. induction b as [|a b IHb]; [done|]. unfold no_char in *.
      rewrite all_chars_cons in Hl. apply andb_true_iff in Hl as [Ha%negb_true_iff Hl].
      cbn. by rewrite Ha, IHb. }
    cbn. by destruct (if negb (String.eqb (b +:+ remaining) "") then _ else _).
  - rewrite concat_chunks_cons. cbn [parse_from].
    assert (Hcc : no_char CR (concat_chunks cs) = true).
    { clear -Hcs. induction Hcs as [|c cs Hc Hcs IH]; [done|].
      by rewrite concat_chunks_cons, no_char_app, Hc, IH. }
    rewrite parse_chunk_app by done.
    destruct (parse_chunk b ev c) as [es [[b1 ev1]|e]] eqn:Hp; [|done].
    destruct (parse_chunk_no_cr _ _ _ _ _ _ Hb Hc Hp) as [Hb1 Hl1].
    rewrite (IH b1 ev1 Hb1 Hl1). cbn [parse_from].
    destruct (parse_chunk b1 ev1 (concat_chunks cs)) as [es1 [[b2 ev2]|e]]; [|done].
    destruct (if negb (String.eqb (b2 +:+ remaining) "") then _ else _) as [es2 r].
    by rewrite (assoc_L (++)).
Qed.
End parser_lemmas.

(** ** Reading back what was written *)

(** The payload as the client reports it: each line loses one leading space,
    and every line terminator becomes a line feed. *)
Definition sse_text (payload : string) : string := join NL (map strip_space (sse_split payload)).

(** A line the client does not shorten. *)
Definition kept_line (line : string) : bool := negb (starts_with " " line).

Lemma sse_split_lines p :
  Forall (fun l => no_char CR l = true /\ no_char LF l = true) (sse_split p).
Proof.
  remember (String.length p) as n eqn:Hn. revert p Hn.
  induction (lt_wf n) as [n _ IH]. intros p ->.
  assert (Hrec : forall q, (String.length q < String.length p)%nat ->
    Forall (fun l => no_char CR l = true /\ no_char LF l = true) (sse_split q))
    by (intros q Hq; by eapply IH).
  destruct p as [|c p]; [by repeat constructor|]. cbn [sse_split].
  destruct (Ascii.eqb c CR) eqn:Hc.
  - destruct p as [|c' p]; [by repeat constructor|]. destruct (Ascii.eqb c' LF);
      (constructor; [done|apply Hrec; cbn; lia]).
  - destruct (Ascii.eqb c LF) eqn:Hl; [constructor; [done|apply Hrec; cbn; lia]|].
    specialize (Hrec p ltac:(cbn; lia)). unfold no_char.
    destruct Hrec as [|h l [Hh1 Hh2] Hrest]; constructor; try done;
      rewrite !all_chars_cons, Hc, Hl; done.
Qed.

Lemma sse_split_ne p : sse_split p <> [].
Proof.
  destruct p as [|c p]; [done|]. cbn. destruct (Ascii.eqb c CR).
  - destruct p as [|c' p]; [done|]. by destruct (Ascii.eqb c' LF).
  - destruct (Ascii.eqb c LF); [done|]. by destruct (sse_split p).
Qed.

Lemma sse_split_id p : no_char CR p = true -> join NL (sse_split p) = p.
Proof.
  induction p as [|c p IH]; [done|]. unfold no_char. rewrite all_chars_cons.
  intros [Hc%negb_true_iff Hp]%andb_true_iff. specialize (IH Hp). cbn [sse_split]. rewrite Hc.
  destruct (Ascii.eqb_spec c LF) as [->|Hl].
  - pose proof (sse_split_ne p). destruct (sse_split p) as [|h l] eqn:E; [done|].
    change (join NL (EmptyString :: h :: l)) with (EmptyString +:+ NL +:+ join NL (h :: l)).
    by rewrite IH.
  - pose proof (sse_split_ne p). destruct (sse_split p) as [|h [|h' l]] eqn:E; [done|..].
    + cbn in *. by rewrite IH.
    + change (join NL (String c h :: h' :: l)) with (String c h +:+ NL +:+ join NL (h' :: l)).
      change (join NL (h :: h' :: l)) with (h +:+ NL +:+ join NL (h' :: l)) in IH.
      by rewrite string_app_cons, IH.
Qed.

Lemma sse_text_id p :
  no_char CR p = true -> forallb kept_line (sse_split p) = true -> sse_text p = p.
Proof.
  intros Hc Hk. unfold sse_text. rewrite <-(sse_split_id p Hc) at 2. f_equal.
  rewrite <-(map_id (sse_split p)) at 2. apply map_ext_in. intros l Hl.
  rewrite forallb_forall in Hk. specialize (Hk l Hl). unfold kept_line, strip_space in *.
  apply negb_true_iff in Hk. by rewrite Hk.
Qed.

Lemma NL_app t : NL +:+ t = String LF t.
Proof. reflexivity. Qed.

Lemma split_on_join ls t :
  ls <> [] -> Forall (fun l => no_char LF l = true) ls ->
  split_on LF (join NL ls +:+ NL +:+ t) = ls ++ split_on LF t.
Proof.
  intros Hne Hls. induction Hls as [|l ls Hl Hls IH]; [done|]. destruct ls as [|l' ls].
  - cbn [join app]. unfold NL. rewrite string_app_cons, string_app_nil_l. by apply split_on_sep.
  - change (join NL (l :: l' :: ls)) with (l +:+ NL +:+ join NL (l' :: ls)).
    rewrite !string_app_assoc. unfold NL at 1. rewrite string_app_cons, string_app_nil_l.
    rewrite split_on_sep by done. by rewrite IH.
Qed.

(** The lines of one event. *)
Definition event_lines (type payload : string) : list string :=
  ("event: " +:+ type) :: map (fun line => "data:" +:+ line) (sse_split payload) ++ [EmptyString].

Lemma split_on_event type payload t :
  no_char LF type = true ->
  split_on LF (sse_event type payload +:+ t) = event_lines type payload ++ split_on LF t.
Proof.
  intros Ht. unfold sse_event, encodeSSEData, event_lines. rewrite !string_app_assoc.
  rewrite <-(string_app_assoc "event: " type), (NL_app (join _ _ +:+ _)).
  rewrite split_on_sep by (by rewrite no_char_app, Ht). cbn [app]. f_equal.
  rewrite split_on_join.
  - rewrite <-(assoc_L (++)). f_equal.
  - pose proof (sse_split_ne payload). by destruct (sse_split payload).
  - apply List.Forall_map. eapply List.Forall_impl; [|apply sse_split_lines].
    intros l [_ Hl]. by rewrite no_char_app, Hl.
Qed.

Section roundtrip_lemmas.
Context `{!JsonLib}.

Lemma parse_data_lines ev ls :
  parse_lines ev (map (fun line => "data:" +:+ line) ls) =
  ([], Ok (mkEventState (ev_type ev) (ev_data ev ++ map strip_space ls))).
Proof.
  revert ev. induction ls as [|l ls IH]; intros ev; cbn [map parse_lines].
  - rewrite app_nil_r. by destruct ev.
  - assert (parse_line ev ("data:" +:+ l) =
      Ok (mkEventState (ev_type ev) (ev_data ev ++ [strip_space l]), [])) as -> by reflexivity.
    rewrite IH. cbn. by rewrite <-(assoc_L (++)).
Qed.

(** The lines of an event, from a clean state, dispatch it. *)
Lemma parse_event_lines type payload :
  parse_lines no_event (event_lines type payload) =
  match dispatch (mkEventState (Some type) (map strip_space (sse_split payload))) with
  | Ok es => (es, Ok no_event)
  | Err e => ([], Err e)
  end.
Proof.
  unfold event_lines. cbn [parse_lines].
  assert (parse_line no_event ("event: " +:+ type) = Ok (mkEventState (Some type) [], []))
    as -> by reflexivity.
  rewrite parse_lines_app, parse_data_lines. cbn [ev_type ev_data app parse_lines].
  set (ev := mkEventState _ _).
  change (parse_line ev "") with
    (match dispatch ev with Ok es => Ok (no_event, es) | Err e => Err e end).
  destruct (dispatch ev) as [es|e]; [|done]. by rewrite app_nil_r.
Qed.

Lemma dispatch_lines type payload :
  type <> EmptyString ->
  dispatch (mkEventState (Some type) (map strip_space (sse_split payload))) =
  (if String.eqb type "data" then Ok [SSEData (sse_text payload)]
   else if String.eqb type "control" then
     match JSON_parse (sse_text payload) ≫= control_event with
     | Some e => Ok [e]
     | None => Err (sse_text payload)
     end
   else Ok []).
Proof.
  intros Ht. unfold dispatch. cbn [ev_type ev_data].
  rewrite (proj2 (String.eqb_neq type EmptyString)) by done. rewrite length_map.
  pose proof (sse_split_ne payload). destruct (sse_split payload) as [|h l] eqn:E; [done|].
  cbn [length negb andb]. unfold sse_text. by rewrite E.
Qed.
End roundtrip_lemmas.

(** *** A printed value has no line breaks *)

Lemma escape_char_no_breaks c :
  no_char CR (escape_char c) = true /\ no_char LF (escape_char c) = true.
Proof. destruct c as [[] [] [] [] [] [] [] []]; split; reflexivity. Qed.

Lemma escape_no_breaks s : no_char CR (escape s) = true /\ no_char LF (escape s) = true.
Proof.
  induction s as [|c s [H1 H2]]; [done|]. cbn [escape]. rewrite !no_char_app, H1, H2.
  by destruct (escape_char_no_breaks c) as [-> ->].
Qed.

Lemma quote_no_breaks s : no_char CR (quote s) = true /\ no_char LF (quote s) = true.
Proof.
  destruct (escape_no_breaks s) as [H1 H2]. unfold quote, no_char in *.
  by rewrite !all_chars_cons, !all_chars_app, H1, H2.
Qed.

Lemma join_no_char c sep l :
  no_char c sep = true -> Forall (fun s => no_char c s = true) l -> no_char c (join sep l) = true.
Proof.
  intros Hsep. induction 1 as [|s l Hs Hl IH]; [done|]. destruct l as [|s' l]; [done|].
  change (join sep (s :: s' :: l)) with (s +:+ sep +:+ join sep (s' :: l)).
  by rewrite !no_char_app, Hs, Hsep, IH.
Qed.

Lemma stringify_no_breaks `{JsonLaws} v :
  json_wf v = true -> no_char CR (stringify v) = true /\ no_char LF (stringify v) = true.
Proof.
  induction v as [|[]|n|s|l IH|kvs IH] using json_ind'; cbn [json_wf stringify]; intros Hwf;
    try done.
  - apply number_text_chars in Hwf as [_ Hn]. unfold no_char, all_chars in *.
    rewrite !forallb_forall in *. split; intros c Hc; specialize (Hn c Hc);
      (destruct (Ascii.eqb_spec c CR) as [->|]; [done|]) || (destruct (Ascii.eqb_spec c LF) as [->|]; [done|]);
      try done; by destruct (Ascii.eqb_spec c LF) as [->|].
  - apply quote_no_breaks.
  - rewrite !no_char_app. rewrite forallb_forall in Hwf. rewrite List.Forall_forall in IH.
    split; rewrite join_no_char; try done; apply List.Forall_map, List.Forall_forall;
      intros v Hv; by apply IH, Hwf.
  - rewrite !no_char_app. rewrite !andb_true_iff in Hwf. destruct Hwf as [_ Hwf].
    rewrite forallb_forall in Hwf. rewrite List.Forall_forall in IH.
    split; rewrite join_no_char; try done; apply List.Forall_map, List.Forall_forall;
      intros kv Hkv; rewrite !no_char_app; destruct (quote_no_breaks kv.1) as [H1 H2];
      specialize (Hwf kv Hkv); apply andb_true_iff in Hwf as [_ Hwf];
      destruct (IH kv Hkv Hwf) as [H3 H4]; by rewrite ?H1, ?H2, ?H3, ?H4.
Qed.

(** ** The round trip *)

(** What [handleSSE] writes: a [data] event with a text, or a [control] event
    with the members of an object. *)
Inductive Frame :=
| DataFrame (payload : string)
| ControlFrame (kvs : list (string * json)).

Section frames.
Context `{!JsonLib}.

Definition frame_type (f : Frame) : string :=
  match f with DataFrame _ => "data" | ControlFrame _ => "control" end.

Definition frame_payload (f : Frame) : string :=
  match f with DataFrame p => p | ControlFrame kvs => stringify (JObj kvs) end.

Definition frame_text (f : Frame) : string := sse_event (frame_type f) (frame_payload f).

Definition frames_text (fs : list Frame) : string := concat_chunks (map frame_text fs).

Definition frame_wf (f : Frame) : bool :=
  match f with DataFrame _ => true | ControlFrame kvs => json_wf (JObj kvs) end.

(** The event a frame is read back as. *)
Definition frame_event (f : Frame) : SSEEvent :=
  match f with
  | DataFrame p => SSEData (sse_text p)
  | ControlFrame kvs =>
      SSEControl (obj_get "streamNextOffset" kvs) (obj_get "streamCursor" kvs)
        (obj_get "upToDate" kvs) (obj_get "streamClosed" kvs)
  end.

Lemma frame_type_no_breaks f :
  no_char CR (frame_type f) = true /\ no_char LF (frame_type f) = true /\ frame_type f <> EmptyString.
Proof. by destruct f. Qed.

End frames.

(** A text without breaks is one line, and an object's text starts with a brace. *)
Lemma sse_text_object `{JsonLaws} kvs :
  json_wf (JObj kvs) = true -> sse_text (stringify (JObj kvs)) = stringify (JObj kvs).
Proof.
  intros Hwf. destruct (stringify_no_breaks _ Hwf) as [Hc Hl].
  assert (sse_split (stringify (JObj kvs)) = [stringify (JObj kvs)]) as Hs.
  { clear Hwf. induction (stringify (JObj kvs)) as [|c s IH]; [done|]. unfold no_char in *.
    rewrite all_chars_cons in Hc, Hl. apply andb_true_iff in Hc as [Hc%negb_true_iff Hc'].
    apply andb_true_iff in Hl as [Hl%negb_true_iff Hl'].
    cbn [sse_split]. by rewrite Hc, Hl, (IH Hc' Hl'). }
  apply sse_text_id; [done|]. rewrite Hs. reflexivity.
Qed.

Lemma dispatch_frame `{JsonLaws} f :
  frame_wf f = true ->
  dispatch (mkEventState (Some (frame_type f)) (map strip_space (sse_split (frame_payload f)))) =
  Ok [frame_event f].
Proof.
  intros Hwf. destruct (frame_type_no_breaks f) as (_ & _ & Hne).
  rewrite dispatch_lines by done. destruct f as [p|kvs]; [done|].
  cbn [frame_type frame_payload frame_event]. cbn [frame_wf] in Hwf.
  rewrite sse_text_object by done. rewrite JSON_parse_stringify by done. done.
Qed.

Lemma frames_lines fs t :
  split_on LF (frames_text fs +:+ t) =
  concat (map (fun f => event_lines (frame_type f) (frame_payload f)) fs) ++ split_on LF t.
Proof.
  induction fs as [|f fs IH]; [done|]. unfold frames_text in *. cbn [map].
  rewrite concat_chunks_cons, string_app_assoc. unfold frame_text at 1.
  rewrite split_on_event by apply frame_type_no_breaks. rewrite IH. cbn [concat].
  by rewrite (assoc_L (++)).
Qed.

Lemma parse_frames `{JsonLaws} fs :
  forallb frame_wf fs = true ->
  parse_lines no_event (concat (map (fun f => event_lines (frame_type f) (frame_payload f)) fs)) =
  (map frame_event fs, Ok no_event).
Proof.
  induction fs as [|f fs IH]; [done|]. cbn [forallb]. intros [Hf Hfs]%andb_true_iff.
  cbn [map concat]. rewrite parse_lines_app, parse_event_lines, dispatch_frame by done.
  by rewrite IH.
Qed.

Lemma sse_event_no_cr type payload :
  no_char CR type = true -> no_char CR (sse_event type payload) = true.
Proof.
  intros Ht. unfold sse_event, encodeSSEData. rewrite !no_char_app, Ht, join_no_char; try done.
  apply List.Forall_map. eapply List.Forall_impl; [|apply sse_split_lines].
  intros l [Hc _]. by rewrite no_char_app, Hc.
Qed.

Lemma frames_text_no_cr fs : no_char CR (frames_text fs) = true.
Proof.
  unfold frames_text. induction fs as [|f fs IH]; [done|]. cbn [map].
  rewrite concat_chunks_cons, no_char_app, IH. unfold frame_text. rewrite sse_event_no_cr; [done|].
  apply frame_type_no_breaks.
Qed.

Lemma concat_no_char c cs :
  no_char c (concat_chunks cs) = true -> Forall (fun s => no_char c s = true) cs.
Proof.
  induction cs as [|s cs IH]; [constructor|]. rewrite concat_chunks_cons, no_char_app.
  intros [Hs Hcs]%andb_true_iff. constructor; auto.
Qed.

(** C35: Whatever the network does to the bytes, the client reads what the server
    wrote: a response of [data] and [control] events that [encodeSSEData] framed,
    cut into chunks anywhere, is parsed by [parseSSEStream] into exactly those
    events, in order and without a parse error; a data text comes back as
    [sse_text] gives it (line breaks as LF, and one leading space of each line
    gone: unchanged when it has no CR and no line starting with a space), a
    control event with the fields of the object that was printed. *)
Theorem sse_roundtrip `{JsonLaws} (fs : list Frame) (chunks : list string)
  (Hwf : forallb frame_wf fs = true)
  (Hcut : concat_chunks chunks = frames_text fs) :
  parseSSEStream chunks EmptyString = (map frame_event fs, Ok tt) /\
  (forall p, no_char CR p = true -> forallb kept_line (sse_split p) = true -> sse_text p = p).
Proof.
  split; [|apply sse_text_id]. unfold parseSSEStream. rewrite parse_from_chunks; [|done|done|].
  2: { apply concat_no_char. rewrite Hcut. apply frames_text_no_cr. }
  rewrite Hcut. cbn [parse_from]. unfold parse_chunk. rewrite string_app_nil_l.
  rewrite normalize_lines_id by apply frames_text_no_cr. unfold pop_line.
  rewrite <-(string_app_nil_r (frames_text fs)), frames_lines. cbn [split_on].
  rewrite removelast_last, last_last, parse_frames by done. cbn. by rewrite string_app_nil_l; cbn; rewrite app_nil_r.
Qed.

(** A response of two events, cut inside both. *)
Definition frames_example : list Frame :=
  [DataFrame (json_text "[{'a':1}]"); ControlFrame [("streamNextOffset", JStr "0_9"); ("upToDate", JBool true)]].

Definition chunks_example : list string :=
  let text := frames_text frames_example in
  [str_take 10 text; str_drop 10 (str_take 45 text); str_drop 45 text].

Lemma sse_roundtrip_witness :
  forallb (@frame_wf integer_json) frames_example = true /\
  concat_chunks chunks_example = frames_text frames_example /\
  @parseSSEStream integer_json chunks_example EmptyString =
    ([SSEData (json_text "[{'a':1}]"); SSEControl (Some (JStr "0_9")) None (Some (JBool true)) None], Ok tt).
Proof.
  split; [vm_compute; reflexivity|]. split; [vm_compute; reflexivity|].
  exact (proj1 (@sse_roundtrip integer_json integer_json_laws frames_example chunks_example
    ltac:(vm_compute; reflexivity) ltac:(vm_compute; reflexivity))).
Defined.

(** Outside those texts: [encodeSSEData] puts no space after [data:], so a space
    the line starts with is taken for the optional one. *)
Example leading_space_lost :
  @parseSSEStream integer_json [frame_text (DataFrame "  x")] EmptyString =
  ([SSEData " x"], Ok tt).
Proof. vm_compute. reflexivity. Qed.

(** A CRLF cut between two chunks (a proxy may rewrite the line ends) is read as
    two line ends: the event is cut short, here before its data. *)
Definition CRLF : string := String CR (String LF EmptyString).

Example crlf_cut_loses_event :
  let line := "event: data" in
  @parseSSEStream integer_json [line +:+ CRLF +:+ "data:x" +:+ CRLF +:+ CRLF] EmptyString =
    ([SSEData "x"], Ok tt) /\
  @parseSSEStream integer_json
    [line +:+ String CR EmptyString; NL +:+ "data:x" +:+ CRLF +:+ CRLF] EmptyString = ([], Ok tt).
Proof. vm_compute. split; reflexivity. Qed.
