(* ===== verification/Http.v ===== *)
(** * Requests, responses, and the tests on header values of
    [packages/server/src/server.ts]

    A [Request] is what Node's HTTP parser and [URL] give the handlers: an upper
    case method, the path, the pairs of the query, and the headers under their
    lower case names.  A [Response] is what the handler passes to [writeHead]
    and [end], with [setHeader]'s headers first. *)

From S2P Require Import Prelude Offsets Text PathEncoding.

(** ** Data *)

Record Request := mkRequest {
  rq_method : string;
  rq_path : string;
  rq_query : list (string * string);
  rq_headers : gmap string string;
  rq_body : bytes;
}.

Record Response := mkResponse {
  rs_status : Z;
  rs_headers : list (string * string);
  rs_body : bytes;
}.

(** [url.searchParams.getAll(k)] and [get(k) ?? undefined] *)
Definition query_all (k : string) (req : Request) : list string :=
  snd <$> filter (fun kv => kv.1 = k) (rq_query req).

Definition query_get (k : string) (req : Request) : option string := head (query_all k req).

(** [req.headers[k]] *)
Definition req_header (k : string) (req : Request) : option string := rq_headers req !! k.

(** The header a client finds in a response. *)
Fixpoint assoc (k : string) (l : list (string * string)) : option string :=
  match l with
  | [] => None
  | (k', v) :: l => if String.eqb k k' then Some v else assoc k l
  end.

Definition rs_header (k : string) (r : Response) : option string := assoc k (rs_headers r).

(** ** Header names *)

Definition STREAM_OFFSET_HEADER : string := "Stream-Next-Offset".
Definition STREAM_CURSOR_HEADER : string := "Stream-Cursor".
Definition STREAM_UP_TO_DATE_HEADER : string := "Stream-Up-To-Date".
Definition STREAM_CLOSED_HEADER : string := "Stream-Closed".
Definition STREAM_TTL_HEADER : string := "Stream-TTL".
Definition STREAM_EXPIRES_AT_HEADER : string := "Stream-Expires-At".
Definition PRODUCER_EPOCH_HEADER : string := "Producer-Epoch".
Definition PRODUCER_SEQ_HEADER : string := "Producer-Seq".
Definition PRODUCER_EXPECTED_SEQ_HEADER : string := "Producer-Expected-Seq".
Definition PRODUCER_RECEIVED_SEQ_HEADER : string := "Producer-Received-Seq".
Definition STREAM_SSE_DATA_ENCODING_HEADER : string := "Stream-SSE-Data-Encoding".

Definition TEXT_PLAIN : list (string * string) := [("content-type", "text/plain")].

(** [res.writeHead(status, { "content-type": "text/plain" }); res.end(text)] *)
Definition plain (status : Z) (text : string) : Response :=
  mkResponse status TEXT_PLAIN (encode_text text).

(** An optional header of a response. *)
Definition when (b : bool) (kv : string * string) : list (string * string) := if b then [kv] else [].

Definition when_some (k : string) (v : option string) : list (string * string) :=
  match v with Some v => [(k, v)] | None => [] end.

(** ** Tests on values *)

Definition to_upper_char (c : ascii) : ascii :=
  if (97 <=? code c) && (code c <=? 122) then char_of_code (code c - 32) else c.

(** [s.toUpperCase()], on ASCII. *)
Definition js_upper (s : string) : string := of_chars (to_upper_char <$> chars s).

(** [[\w-]] *)
Definition word_char (c : ascii) : bool :=
  is_digit c || ((65 <=? code c) && (code c <=? 90)) || ((97 <=? code c) && (code c <=? 122))
  || (code c =? 95) || (code c =? 45).

(** [/^[\w-]+\/[\w-]+/] *)
Definition media_type (s : string) : bool :=
  match split_on "/" s with
  | a :: b :: _ =>
      negb (String.eqb a EmptyString) && all_chars word_char a &&
      match b with String c _ => word_char c | EmptyString => false end
  | _ => false
  end.

(** The pattern of a decimal integer without leading zeros. *)
Definition plain_integer (s : string) : bool :=
  all_digits s && (String.eqb s "0" || negb (starts_with "0" s)).

(** [/^(-1|now|\d+_\d+)$/] *)
Definition valid_offset (s : string) : bool :=
  String.eqb s "-1" || String.eqb s "now" || valid_offset_format s.

(** [Number.isSafeInteger] of a number read from digits. *)
Definition is_safe_integer (n : Z) : bool := Z.abs n <=? MAX_SAFE_INTEGER.

(** An entity tag: the path in base64, the two offsets, and [:c] when closed. *)
Definition etag (path start stop : string) (closed : bool) : string :=
  String DQUOTE (of_chars (base64 (encode_text path)) +:+ ":" +:+ start +:+ ":" +:+ stop +:+
    (if closed then ":c" else "") +:+ String DQUOTE EmptyString).

(** [getCompressionEncoding] *)
Definition encoding_name (e : string) : string :=
  js_trim (or_else (head (split_on ";" e)) EmptyString).

Inductive Encoding := gzip | deflate.

Definition encoding_text (e : Encoding) : string :=
  match e with gzip => "gzip" | deflate => "deflate" end.

Definition getCompressionEncoding (acceptEncoding : option string) : option Encoding :=
  if negb (truthy acceptEncoding) then None
  else
    let encodings := map js_trim (split_on "," (js_lower (or_else acceptEncoding EmptyString))) in
    if existsb (fun e => String.eqb (encoding_name e) "gzip") encodings then Some gzip
    else if existsb (fun e => String.eqb (encoding_name e) "deflate") encodings then Some deflate
    else None.

Definition COMPRESSION_THRESHOLD : Z := 1024.

(** [gzipSync] and [deflateSync] of [node:zlib]. *)
Class ZlibLib := compress : Encoding -> bytes -> bytes.
