(* ===== verification/SqliteStore.v ===== *)
(** * The tables of one Durable Object: class [SqliteStore] of
    [packages/server-cloudflare/src/store.ts]

    A stream is one object with a database of its own.  A table is the map of
    its rows under their primary key; the rows of [messages], which is read in
    the order of the key, are kept in that order.  What the code writes as JSON
    text into a column and reads back ([closed_by], [params_key]) is kept as
    what it stands for.  An [INSERT] that breaks a constraint, or finds the
    database full, throws. *)

From S2P Require Import Prelude Offsets Producer Text Json Types JsonMode StreamStore.
Local Open Scope js_scope.

(** ** Rows *)

Record StreamMeta := mkStreamMeta {
  sm_generation : string;
  sm_contentType : option string;
  sm_ttlSeconds : option Z;
  sm_expiresAt : option string;
  sm_closed : bool;
  sm_closedBy : option ClosedBy;
  sm_currentOffset : string;
  sm_lastSeq : option string;
  sm_createdAt : Z;
  sm_lastAccessedAt : Z;
  sm_forkedFrom : option string;
  sm_forkOffset : option string;
  sm_forkSubOffset : option Z;
  sm_forkEdgeId : option string;
  sm_forkSourceGen : option string;
  sm_softDeleted : bool;
}.

Record StoredMessage := mkStoredMessage { sd_data : bytes; sd_offset : string }.

Record ReadBatch := mkReadBatch { rb_messages : list StoredMessage; rb_capped : bool }.

Record ForkIntent := mkForkIntent {
  in_parentPath : string;
  in_forkedFrom : string;         (* the two parts of [params_key] *)
  in_forkOffset : option string;
}.

Record GcRelease := mkGcRelease { gc_parentPath : string; gc_sourceGen : option string }.

(** The six tables; [meta] has at most one row. *)
Record Tables := mkTables {
  t_meta : option StreamMeta;
  t_messages : list StreamMessage;
  t_producers : gmap string ProducerState;
  t_fork_edges : gmap string string;
  t_fork_intents : gmap string ForkIntent;
  t_gc_releases : gmap string GcRelease;
}.

Definition empty_tables : Tables := mkTables None [] ∅ ∅ ∅ ∅.

Definition set_meta (m : option StreamMeta) (t : Tables) : Tables :=
  mkTables m (t_messages t) (t_producers t) (t_fork_edges t) (t_fork_intents t) (t_gc_releases t).
Definition set_rows (ms : list StreamMessage) (t : Tables) : Tables :=
  mkTables (t_meta t) ms (t_producers t) (t_fork_edges t) (t_fork_intents t) (t_gc_releases t).
Definition set_producer_rows (ps : gmap string ProducerState) (t : Tables) : Tables :=
  mkTables (t_meta t) (t_messages t) ps (t_fork_edges t) (t_fork_intents t) (t_gc_releases t).
Definition upd_edges (f : gmap string string -> gmap string string) (t : Tables) : Tables :=
  mkTables (t_meta t) (t_messages t) (t_producers t) (f (t_fork_edges t)) (t_fork_intents t)
    (t_gc_releases t).
Definition upd_intents (f : gmap string ForkIntent -> gmap string ForkIntent) (t : Tables) : Tables :=
  mkTables (t_meta t) (t_messages t) (t_producers t) (t_fork_edges t) (f (t_fork_intents t))
    (t_gc_releases t).
Definition upd_releases (f : gmap string GcRelease -> gmap string GcRelease) (t : Tables) : Tables :=
  mkTables (t_meta t) (t_messages t) (t_producers t) (t_fork_edges t) (t_fork_intents t)
    (f (t_gc_releases t)).

(** [UPDATE meta SET ... WHERE id = 1] *)
Definition update_meta (f : StreamMeta -> StreamMeta) (t : Tables) : Tables :=
  set_meta (f <$> t_meta t) t.

Definition with_currentOffset (o : string) (m : StreamMeta) : StreamMeta :=
  mkStreamMeta (sm_generation m) (sm_contentType m) (sm_ttlSeconds m) (sm_expiresAt m) (sm_closed m)
    (sm_closedBy m) o (sm_lastSeq m) (sm_createdAt m) (sm_lastAccessedAt m) (sm_forkedFrom m)
    (sm_forkOffset m) (sm_forkSubOffset m) (sm_forkEdgeId m) (sm_forkSourceGen m) (sm_softDeleted m).
Definition with_lastSeq (s : option string) (m : StreamMeta) : StreamMeta :=
  mkStreamMeta (sm_generation m) (sm_contentType m) (sm_ttlSeconds m) (sm_expiresAt m) (sm_closed m)
    (sm_closedBy m) (sm_currentOffset m) s (sm_createdAt m) (sm_lastAccessedAt m) (sm_forkedFrom m)
    (sm_forkOffset m) (sm_forkSubOffset m) (sm_forkEdgeId m) (sm_forkSourceGen m) (sm_softDeleted m).
Definition with_lastAccessedAt (n : Z) (m : StreamMeta) : StreamMeta :=
  mkStreamMeta (sm_generation m) (sm_contentType m) (sm_ttlSeconds m) (sm_expiresAt m) (sm_closed m)
    (sm_closedBy m) (sm_currentOffset m) (sm_lastSeq m) (sm_createdAt m) n (sm_forkedFrom m)
    (sm_forkOffset m) (sm_forkSubOffset m) (sm_forkEdgeId m) (sm_forkSourceGen m) (sm_softDeleted m).
Definition with_closed (by_ : option ClosedBy) (m : StreamMeta) : StreamMeta :=
  mkStreamMeta (sm_generation m) (sm_contentType m) (sm_ttlSeconds m) (sm_expiresAt m) true
    by_ (sm_currentOffset m) (sm_lastSeq m) (sm_createdAt m) (sm_lastAccessedAt m) (sm_forkedFrom m)
    (sm_forkOffset m) (sm_forkSubOffset m) (sm_forkEdgeId m) (sm_forkSourceGen m) (sm_softDeleted m).
Definition with_softDeleted (m : StreamMeta) : StreamMeta :=
  mkStreamMeta (sm_generation m) (sm_contentType m) (sm_ttlSeconds m) (sm_expiresAt m) (sm_closed m)
    (sm_closedBy m) (sm_currentOffset m) (sm_lastSeq m) (sm_createdAt m) (sm_lastAccessedAt m)
    (sm_forkedFrom m) (sm_forkOffset m) (sm_forkSubOffset m) (sm_forkEdgeId m) (sm_forkSourceGen m) true.

(** ** Methods *)

Definition forkEdgeCount (t : Tables) : Z := Z.of_nat (size (t_fork_edges t)).

(** [purge] leaves the intents and the releases. *)
Definition purge (t : Tables) : Tables :=
  mkTables None [] ∅ ∅ (t_fork_intents t) (t_gc_releases t).

Definition touchAccess (now : Z) : Tables -> Tables := update_meta (with_lastAccessedAt now).
Definition setSoftDeleted : Tables -> Tables := update_meta with_softDeleted.
Definition setLastSeq (seq : string) : Tables -> Tables := update_meta (with_lastSeq (Some seq)).

(** [COALESCE(?, closed_by)] *)
Definition setClosed (closedBy : option ClosedBy) : Tables -> Tables :=
  update_meta (fun m => with_closed (match closedBy with Some c => Some c | None => sm_closedBy m end) m).

Section store.
Context `{!DateLib}.

Definition isExpired (m : StreamMeta) (now : Z) : bool :=
  match sm_expiresAt m with
  | Some e =>
      match date_getTime e with
      | None => true
      | Some expiryTime => expiryTime <=? now
      end
  | None => false
  end ||
  match sm_ttlSeconds m with
  | Some ttl => dbl (sm_lastAccessedAt m + dbl (ttl * 1000)) <=? now
  | None => false
  end.

Definition expiryTime (m : StreamMeta) : option Z :=
  let expiry := sm_expiresAt m ≫= date_getTime in
  match sm_ttlSeconds m with
  | Some ttl =>
      let t := dbl (sm_lastAccessedAt m + dbl (ttl * 1000)) in
      match expiry with
      | Some e => Some (if t <? e then t else e)
      | None => Some t
      end
  | None => expiry
  end.
End store.

Record CreateMeta := mkCreateMeta {
  cm_contentType : option string;
  cm_ttlSeconds : option Z;
  cm_expiresAt : option string;
  cm_closed : bool;
  cm_now : Z;
  cm_forkedFrom : option string;
  cm_forkOffset : option string;
  cm_forkSubOffset : option Z;
  cm_forkEdgeId : option string;
  cm_forkSourceGen : option string;
}.

(** [createMeta]; [gen] is [crypto.randomUUID()].  [None]: there is a row. *)
Definition createMeta (gen : string) (o : CreateMeta) (t : Tables) : option Tables :=
  match t_meta t with
  | Some _ => None
  | None =>
      let current_offset :=
        match cm_forkedFrom o, cm_forkOffset o with
        | Some _, Some forkOffset => forkOffset
        | _, _ => ZERO_OFFSET
        end in
      Some (set_meta (Some (mkStreamMeta gen (cm_contentType o) (cm_ttlSeconds o) (cm_expiresAt o)
        (cm_closed o) None current_offset None (cm_now o) (cm_now o) (cm_forkedFrom o) (cm_forkOffset o)
        (cm_forkSubOffset o) (cm_forkEdgeId o) (cm_forkSourceGen o) false)) t)
  end.

(** ** Messages *)

(** [INSERT INTO messages]; [None]: there is a row with the key. *)
Fixpoint insert_row (r : StreamMessage) (rows : list StreamMessage) : option (list StreamMessage) :=
  match rows with
  | [] => Some [r]
  | x :: rest =>
      if String.eqb (msg_offset r) (msg_offset x) then None
      else if String.ltb (msg_offset r) (msg_offset x) then Some (r :: rows)
      else cons x <$> insert_row r rest
  end.

(** [appendMessage]; [full] is whether the database takes no more.  [None] is
    the error of the first statement. *)
Definition appendMessage (full : bool) (currentOffset : string) (payload : bytes) (now : Z) (t : Tables)
    : option (Tables * string) :=
  let newOffset := advanceOffset currentOffset (Z.of_nat (length payload)) in
  if full then None
  else
    rows ← insert_row (mkStreamMessage payload newOffset now) (t_messages t);
    Some (update_meta (with_currentOffset newOffset) (set_rows rows t), newOffset).

(** The offset [readMessagesRange] reads after. *)
Definition after_offset (afterOffset : option string) : string :=
  match afterOffset with
  | None => EmptyString
  | Some o => if String.eqb o "-1" then EmptyString else o
  end.

Definition stored_of (m : StreamMessage) : StoredMessage := mkStoredMessage (msg_data m) (msg_offset m).

(** The loop of [readMessagesRange] over the rows of the query. *)
Section read_rows.
Context (limit : option nat) (byteBudget : option Z) (allowOversizedFirst : bool).

Fixpoint read_rows (rows : list StreamMessage) (count : nat) (bytes_ : Z) : ReadBatch :=
  match rows with
  | [] => mkReadBatch [] false
  | row :: rows =>
      if match limit with Some limit => (limit <=? count)%nat | None => false end
      then mkReadBatch [] true
      else
        let size_ := Z.of_nat (length (msg_data row)) in
        if match byteBudget with
           | Some byteBudget =>
               ((0 <? count)%nat || negb allowOversizedFirst) && (byteBudget <? bytes_ + size_)
           | None => false
           end
        then mkReadBatch [] true
        else
          let rest := read_rows rows (S count) (bytes_ + size_) in
          mkReadBatch (stored_of row :: rb_messages rest) (rb_capped rest)
  end.
End read_rows.

(** The rows of the query. *)
Definition selected (afterOffset capOffset : option string) (rows : list StreamMessage)
    : list StreamMessage :=
  filter (fun row => String.ltb (after_offset afterOffset) (msg_offset row) = true /\
                     gtb_opt (msg_offset row) capOffset = false) rows.

Definition readMessagesRange (afterOffset capOffset : option string) (limit : option nat)
    (byteBudget : option Z) (allowOversizedFirst : bool) (t : Tables) : ReadBatch :=
  read_rows limit byteBudget allowOversizedFirst (selected afterOffset capOffset (t_messages t)) 0 0.

Definition readMessages (afterOffset : option string) (byteBudget : Z) (t : Tables) : ReadBatch :=
  readMessagesRange afterOffset None None (Some byteBudget) true t.

(** ** Fork edges, intents and releases *)

(** [INSERT OR IGNORE] *)
Definition insert_new {A} (k : string) (v : A) (m : gmap string A) : gmap string A :=
  match m !! k with Some _ => m | None => <[k := v]> m end.

Definition insertForkEdge (edgeId forkOffset : string) (t : Tables) : Tables * string :=
  let t := upd_edges (insert_new edgeId forkOffset) t in
  (t, or_else (t_fork_edges t !! edgeId) forkOffset).

Definition getForkEdge (edgeId : string) (t : Tables) : option string := t_fork_edges t !! edgeId.

Definition deleteForkEdge (edgeId : string) : Tables -> Tables := upd_edges (delete edgeId).

(** [getForkIntent]; [params_key] is the pair of the source and the offset. *)
Definition getForkIntent (forkedFrom : string) (forkOffset : option string) (t : Tables) : option string :=
  fst <$> list.head (filter (fun kv => in_forkedFrom kv.2 = forkedFrom /\ in_forkOffset kv.2 = forkOffset)
                       (map_to_list (t_fork_intents t))).

Definition putForkIntent (edgeId parentPath : string) (forkOffset : option string) : Tables -> Tables :=
  upd_intents (insert_new edgeId (mkForkIntent parentPath parentPath forkOffset)).

Definition deleteForkIntent (edgeId : string) : Tables -> Tables := upd_intents (delete edgeId).

Definition pendingForkIntents (t : Tables) : list (string * ForkIntent) := map_to_list (t_fork_intents t).

Definition enqueueGcRelease (edgeId parentPath : string) (sourceGen : option string) : Tables -> Tables :=
  upd_releases (insert_new edgeId (mkGcRelease parentPath sourceGen)).

Definition dequeueGcRelease (edgeId : string) : Tables -> Tables := upd_releases (delete edgeId).

Definition pendingGcReleases (t : Tables) : list (string * GcRelease) := map_to_list (t_gc_releases t).

(** ** Producers *)

Definition getProducerState (producerId : string) (now : Z) (t : Tables) : Tables * option ProducerState :=
  let '(rows, state) := Cloudflare.getProducerState (t_producers t) producerId now in
  (set_producer_rows rows t, state).

Definition commitProducerState (producerId : string) (state : ProducerState) (t : Tables) : Tables :=
  set_producer_rows (<[producerId := state]> (t_producers t)) t.
