(* ===== verification/StreamObject.v ===== *)
(** * One stream of the Cloudflare server: class [StreamObject] of
    [packages/server-cloudflare/src/stream-object.ts]

    A Durable Object runs one turn at a time: it reads and writes its tables
    until it has to wait for another object, for its lock or for messages.  A
    method is a function from the object to the object and a [Turn]: what it
    answers, or what it waits for and how it goes on.  The network of objects is
    CloudflareWorld. *)

From S2P Require Import Prelude Offsets Producer Text Json Types JsonMode StreamStore Cursor PathEncoding Sse Http SqliteStore.
Local Open Scope js_scope.

(** ** JSON mode: [server-cloudflare/src/json.ts] *)

(** [processJsonAppend]; the error is the message of a [JsonAppendError]. *)
Definition processJsonAppend `{!JsonLib} (data : bytes) (isInitialCreate : bool) : result string bytes :=
  match JSON_parse (decode_text data) with
  | None => Err "Invalid JSON"%string
  | Some (JArr parsed) =>
      if (length parsed =? 0)%nat then
        if isInitialCreate then Ok [] else Err "Empty arrays are not allowed"%string
      else Ok (encode_text (join "," (map stringify parsed) +:+ ","))
  | Some parsed => Ok (encode_text (stringify parsed +:+ ","))
  end.

Definition is_json (contentType : option string) : bool :=
  String.eqb (Cloudflare.normalizeContentType contentType) "application/json".

(** ** State *)

Record WaitResult := mkWaitResult {
  wr_messages : list StoredMessage;
  wr_timedOut : bool;
  wr_streamClosed : bool;
  wr_capped : bool;
}.

(** The tables and the alarm are durable.  A waiter is a request that waits
    after an offset; [ob_settled] are the results of promises. *)
Record Object := mkObject {
  ob_tables : Tables;
  ob_alarm : option Z;
  ob_lastArmedAlarm : option Z;
  ob_waiters : list (nat * string);
  ob_settled : list (nat * WaitResult);
}.

Definition new_object : Object := mkObject empty_tables None None [] [].

Definition upd_tables (f : Tables -> Tables) (o : Object) : Object :=
  mkObject (f (ob_tables o)) (ob_alarm o) (ob_lastArmedAlarm o) (ob_waiters o) (ob_settled o).

Definition getMetaRaw (o : Object) : option StreamMeta := t_meta (ob_tables o).

(** ** Messages between objects *)

Record Grant := mkGrant {
  gr_forkOffset : string;
  gr_contentType : option string;
  gr_ttlSeconds : option Z;
  gr_expiresAt : option string;
  gr_sourceGeneration : string;
}.

Inductive AcquireError := not_found | soft_deleted | content_type_mismatch | invalid_offset.

Inductive ForkAcquireResult :=
| Refused (e : AcquireError)
| Granted (g : Grant).

Inductive Rpc :=
| forkAcquire (edgeId : string) (forkOffset contentTypeProvided : option string)
| forkRelease (edgeId : string) (sourceGeneration : option string)
| readRange (afterOffset : option string) (capOffset : string) (limit : option nat) (byteBudget : option Z).

(** [Thrown]: the method has thrown, or the call has failed. *)
Inductive RpcResult :=
| Acquired (r : ForkAcquireResult)
| Released
| Range (b : ReadBatch)
| Thrown.

(** ** Requests under way *)

Record CreateConfig := mkCreateConfig {
  cc_contentType : option string;
  cc_ttlSeconds : option Z;
  cc_expiresAt : option string;
  cc_createClosed : bool;
  cc_forkedFrom : option string;
  cc_forkOffsetHeader : option string;
  cc_forkSubOffset : option Z;
}.

(** A PUT after its headers and its body are read, at [pa_now]. *)
Record PutArgs := mkPutArgs {
  pa_path : string;
  pa_origin : string;
  pa_config : CreateConfig;
  pa_body : bytes;
  pa_now : Z;
}.

(** A GET after its query is read, and the record it has found. *)
Record GetArgs := mkGetArgs {
  ga_offsetParam : option string;
  ga_live : option string;
  ga_cursor : option string;
  ga_ifNoneMatch : option string;
  ga_now : Z;
  ga_meta : StreamMeta;
}.

(** The variables of the loop of [pumpSse]. *)
Record SseArgs := mkSseArgs {
  ss_generation : string;
  ss_currentOffset : string;
  ss_cursor : option string;
  ss_useBase64 : bool;
  ss_isJson : bool;
  ss_startedAt : Z;
}.

(** Who calls [waitForMessages]. *)
Inductive Waiter :=
| WaitGet (g : GetArgs)
| WaitSse (s : SseArgs).

(** What a stitched read is for. *)
Inductive AfterRead :=
| RangeK                      (* the result of [readRange] *)
| GetK (g : GetArgs)          (* the catch-up read of a GET *)
| SseK (s : SseArgs)          (* the read of a turn of [pumpSse] *)
| WaitInheritedK (w : Waiter) (* [waitForMessages] below the fork offset *)
| WaitStartK (w : Waiter).    (* [waitForMessages] from the start *)

Record StitchArgs := mkStitchArgs {
  sa_meta : StreamMeta;
  sa_afterOffset : option string;
  sa_capOffset : option string;
  sa_limit : option nat;
  sa_byteBudget : Z;
  sa_then : AfterRead;
}.

(** What a turn ends with. *)
Inductive After :=
| Respond (r : Response)
| OpenSse (r : Response) (s : SseArgs)
| Wrote (frame : list Frame)   (* a chunk of an SSE response *)
| Return (v : RpcResult)
| Throw                        (* the request ends in an error of the platform *)
| AfterGetMeta (a : PutArgs)   (* the rest of [handlePut] *)
| AfterReleases                (* the rest of [alarm] *)
| Finished.

(** How a method goes on after an [await]. *)
Inductive Kont :=
| FlushK (r : string * GcRelease) (rest : list (string * GcRelease)) (after : After)
| AcquireK (a : PutArgs) (forkedFrom edgeId : string)
| SubOffsetK (a : PutArgs) (forkedFrom edgeId : string) (g : Grant)
| IntentK (i : string * ForkIntent) (rest : list (string * ForkIntent))
| InheritedK (s : StitchArgs).

(** How [pumpSse] goes on: from the top of its loop, with [waitForMessages], or
    not at all. *)
Inductive SseNext :=
| SseRead (s : SseArgs)
| SseWait (s : SseArgs)
| SseEnd.

Inductive Job :=
| CreateForkJob (a : PutArgs) (forkedFrom : string)
| IntentsJob.

Inductive Turn :=
| Now (a : After)
| Await (target : string) (rpc : Rpc) (k : Kont)
| AwaitLock (j : Job)
| AwaitMessages (w : Waiter) (waitOffset : string)
| Pump (frame : list Frame) (next : SseNext).

(** ** Constants *)

Definition MAX_BODY_BYTES : Z := 1900000.
Definition MAX_TTL_SECONDS : Z := 3153600000.
Definition MAX_READ_BATCH_BYTES : Z := 4 * 1024 * 1024.
Definition MAX_SSE_LIFETIME_MS : Z := 60000.
Definition MAX_OFFSET_CAP : string := "9999999999999999_9999999999999999".

(** ** Helpers *)

(** The headers [respond] sets on every response. *)
Definition STANDARD_HEADERS : list (string * string) :=
  [("access-control-allow-origin", "*");
   ("access-control-allow-methods", "GET, POST, PUT, DELETE, HEAD, OPTIONS");
   ("access-control-allow-headers", "content-type, authorization, If-None-Match, Stream-Seq, Stream-TTL, Stream-Expires-At, Stream-Closed, Producer-Id, Producer-Epoch, Producer-Seq, Stream-Forked-From, Stream-Fork-Offset, Stream-Fork-Sub-Offset");
   ("access-control-expose-headers", "Stream-Next-Offset, Stream-Cursor, Stream-Up-To-Date, Stream-Closed, Producer-Epoch, Producer-Seq, Producer-Expected-Seq, Producer-Received-Seq, etag, content-type, content-encoding, vary");
   ("x-content-type-options", "nosniff");
   ("cross-origin-resource-policy", "cross-origin")]%string.

Definition respond (status : Z) (headers : list (string * string)) (body : bytes) : Response :=
  mkResponse status (headers ++ STANDARD_HEADERS) (if (status =? 204) || (status =? 304) then [] else body).

Definition text_ (status : Z) (message : string) (extraHeaders : list (string * string)) : Response :=
  respond status (TEXT_PLAIN ++ extraHeaders) (encode_text message).

(** The body of a request, or [None] for [too_large]. *)
Definition readBody (req : Request) : option bytes :=
  if match req_header "content-length" req ≫= js_Number with
     | Some length_ => MAX_BODY_BYTES <? length_
     | None => false
     end then None
  else if MAX_BODY_BYTES <? Z.of_nat (length (rq_body req)) then None
  else Some (rq_body req).

(** ** The alarm *)

(** [armAlarmAt] at the time [now]. *)
Definition armAlarmAt (now target : Z) (o : Object) : Object :=
  let pending :=
    match ob_lastArmedAlarm o with
    | Some armed => if now <? armed then Some armed else None
    | None => None
    end in
  if match pending with Some armed => armed <=? target + 500 | None => false end then o
  else mkObject (ob_tables o) (Some target) (Some target) (ob_waiters o) (ob_settled o).

Section object.
Context `{!JsonLib} `{!DateLib}.

(** The name of the object, the clock, the random number of a cursor, and
    [crypto.randomUUID()], during one turn; [full]: the database takes no
    more messages. *)
Context (object_id : string) (now rnd : Z) (uuid : string) (full : bool).

Definition syncExpiryAlarm (o : Object) : Object :=
  match getMetaRaw o with
  | None => o
  | Some m => match expiryTime m with Some expiry => armAlarmAt now expiry o | None => o end
  end.

(** ** Waiters *)

(** [waiter.resolve(batch)] *)
Definition resolve_waiter (id : nat) (batch : ReadBatch) (o : Object) : Object :=
  let streamClosed :=
    match getMetaRaw o with Some m => sm_closed m | None => false end &&
    (length (rb_messages batch) =? 0)%nat in
  mkObject (ob_tables o) (ob_alarm o) (ob_lastArmedAlarm o)
    (filter (fun w => w.1 <> id) (ob_waiters o))
    (ob_settled o ++ [(id, mkWaitResult (rb_messages batch) false streamClosed (rb_capped batch))]).

Definition notifyAppend (o : Object) : Object :=
  foldl (fun o w =>
    let batch := readMessages (if String.eqb w.2 "-1" then None else Some w.2) MAX_READ_BATCH_BYTES (ob_tables o) in
    if (0 <? length (rb_messages batch))%nat then resolve_waiter w.1 batch o else o) o (ob_waiters o).

Definition notifyClosed (o : Object) : Object :=
  foldl (fun o w => resolve_waiter w.1 (mkReadBatch [] false) o) o (ob_waiters o).

(** [cancelWaiters]; every waiter has removed itself when it was resolved. *)
Definition cancelWaiters (o : Object) : Object := notifyClosed o.

(** ** Expiry *)

(** [flushGcReleases] and [processGcReleases] call one parent after the other. *)
Definition flush (todo : list (string * GcRelease)) (after : After) : Turn :=
  match todo with
  | [] => Now after
  | r :: rest => Await (gc_parentPath r.2) (forkRelease r.1 (gc_sourceGen r.2)) (FlushK r rest after)
  end.

Definition flushGcReleases (o : Object) : Object * list (string * GcRelease) :=
  match pendingGcReleases (ob_tables o) with
  | [] => (o, [])
  | todo => (armAlarmAt now (now + 5000) o, todo)
  end.

(** [purgeStream] up to its calls: the releases it delivers. *)
Definition purgeStream (m : StreamMeta) (o : Object) : Object * list (string * GcRelease) :=
  let o := cancelWaiters (upd_tables purge o) in
  let o := mkObject (ob_tables o) None None (ob_waiters o) (ob_settled o) in
  let o :=
    match sm_forkedFrom m, sm_forkEdgeId m with
    | Some forkedFrom, Some forkEdgeId =>
        upd_tables (enqueueGcRelease forkEdgeId forkedFrom (sm_forkSourceGen m)) o
    | _, _ => o
    end in
  flushGcReleases o.

(** [getMeta]: the record, or the releases to deliver before [undefined]. *)
Definition getMeta (o : Object) : Object * (StreamMeta + list (string * GcRelease)) :=
  match getMetaRaw o with
  | None => (o, inr [])
  | Some m =>
      if isExpired m now then
        if 0 <? forkEdgeCount (ob_tables o) then
          (if sm_softDeleted m then o else upd_tables setSoftDeleted o, inl (with_softDeleted m))
        else let '(o, todo) := purgeStream m o in (o, inr todo)
      else (o, inl m)
  end.

(** Most handlers answer [404] when there is no record, and [410] when it is
    soft-deleted. *)
Definition with_meta (absent gone : After) (k : StreamMeta -> Object -> Object * Turn) (o : Object)
    : Object * Turn :=
  match getMeta o with
  | (o, inr todo) => (o, flush todo absent)
  | (o, inl m) => if sm_softDeleted m then (o, Now gone) else k m o
  end.

Definition missing_response : After := Respond (text_ 404 "Stream not found" []).
Definition gone_response : After := Respond (text_ 410 "Stream is gone" []).

(** ** The methods other objects call *)

(** [forkAcquire] *)
Definition handle_forkAcquire (edgeId : string) (fork_offset contentTypeProvided : option string) (o : Object)
    : Object * Turn :=
  if String.eqb edgeId EmptyString then (o, Now (Return Thrown))
  else
    let granted m offset :=
      Now (Return (Acquired (Granted (mkGrant offset (sm_contentType m) (sm_ttlSeconds m) (sm_expiresAt m)
                                        (sm_generation m))))) in
    let refused e := Return (Acquired (Refused e)) in
    match getForkEdge edgeId (ob_tables o), getMetaRaw o with
    | Some existing, Some rawMeta => (o, granted rawMeta existing)
    | _, _ =>
        with_meta (refused not_found) (refused soft_deleted) (fun m o =>
          if match contentTypeProvided with
             | Some ct =>
                 negb (String.eqb (js_trim ct) EmptyString) &&
                 negb (String.eqb (Cloudflare.normalizeContentType (Some ct))
                         (Cloudflare.normalizeContentType (sm_contentType m)))
             | None => false
             end
          then (o, Now (refused content_type_mismatch))
          else
            let offset := or_else fork_offset (sm_currentOffset m) in
            if String.ltb offset ZERO_OFFSET || String.ltb (sm_currentOffset m) offset
            then (o, Now (refused invalid_offset))
            else
              let '(t, recordedOffset) := insertForkEdge edgeId offset (ob_tables o) in
              (upd_tables (fun _ => t) o, granted m recordedOffset)) o
    end.

(** [forkRelease] *)
Definition handle_forkRelease (edgeId : string) (sourceGeneration : option string) (o : Object)
    : Object * Turn :=
  if String.eqb edgeId EmptyString then (o, Now (Return Thrown))
  else
    match getMetaRaw o with
    | None => (o, Now (Return Released))
    | Some m =>
        if match sourceGeneration with
           | Some g => negb (String.eqb g (sm_generation m))
           | None => false
           end
        then (o, Now (Return Released))
        else
          match getForkEdge edgeId (ob_tables o) with
          | None => (o, Now (Return Released))
          | Some _ =>
              let o := upd_tables (deleteForkEdge edgeId) o in
              if (forkEdgeCount (ob_tables o) =? 0) && sm_softDeleted m then
                let '(o, todo) := purgeStream m o in (o, flush todo (Return Released))
              else (o, Now (Return Released))
          end
    end.
End object.
