(* ===== verification/ObjectCreate.v ===== *)
(** * PUT, forks and the alarm of class [StreamObject]
    ([packages/server-cloudflare/src/stream-object.ts])

    A fork takes its reference on the source before it exists itself: the edge
    is announced in [fork_intents], acquired at the source, and owned by the
    record that is then made.  Whatever fails in between is made up for by a
    release, which [gc_releases] keeps until it is delivered. *)

From S2P Require Import Prelude Offsets Producer Text Json Types JsonMode StreamStore Cursor PathEncoding Sse Http SqliteStore StreamObject.
Local Open Scope js_scope.

Section object.
Context `{!JsonLib} `{!DateLib}.
Context (now : Z) (uuid : string) (full : bool).

(** ** The headers of a PUT *)

(** Up to the check for an existing stream; [Err] is the reply of 400 or 413. *)
Definition parse_put (req : Request) : result Response (CreateConfig * bytes) :=
  match readBody req with
  | None => Err (text_ 413 "Payload too large" [])
  | Some body =>
      let forkedFrom := req_header "stream-forked-from" req in
      let forkOffsetHeader := req_header "stream-fork-offset" req in
      let contentType :=
        match req_header "content-type" req with
        | Some ct =>
            if String.eqb (js_trim ct) EmptyString || negb (media_type ct)
            then if forkedFrom then None else Some "application/octet-stream"%string
            else Some ct
        | None => if forkedFrom then None else Some "application/octet-stream"%string
        end in
      let ttlHeader := req_header "stream-ttl" req in
      let expiresAtHeader := req_header "stream-expires-at" req in
      let createClosed :=
        String.eqb (js_lower (or_else (req_header "stream-closed" req) EmptyString)) "true" in
      if (if ttlHeader then true else false) && (if expiresAtHeader then true else false)
      then Err (text_ 400 "Cannot specify both Stream-TTL and Stream-Expires-At" [])
      else
        let ttl :=
          match ttlHeader with
          | None => Ok None
          | Some h =>
              if negb (plain_integer h) then Err (text_ 400 "Invalid Stream-TTL value" [])
              else
                match js_parseInt h with
                | Some n =>
                    if negb (is_safe_integer n) || (MAX_TTL_SECONDS <? n)
                    then Err (text_ 400 "Invalid Stream-TTL value" []) else Ok (Some n)
                | None => Err (text_ 400 "Invalid Stream-TTL value" [])
                end
          end in
        match ttl with
        | Err r => Err r
        | Ok ttlSeconds =>
            if match expiresAtHeader with
               | Some e => bool_decide (date_getTime e = None)
               | None => false
               end
            then Err (text_ 400 "Invalid Stream-Expires-At timestamp" [])
            else if match forkOffsetHeader with
                    | Some fo => negb (valid_offset_format fo)
                    | None => false
                    end
            then Err (text_ 400 "Invalid Stream-Fork-Offset format" [])
            else
              let config sub :=
                Ok (mkCreateConfig contentType ttlSeconds expiresAtHeader createClosed forkedFrom
                      forkOffsetHeader sub, body) in
              match req_header "stream-fork-sub-offset" req with
              | None => config None
              | Some sub =>
                  match forkedFrom with
                  | None => Err (text_ 400 "Stream-Fork-Sub-Offset requires Stream-Forked-From" [])
                  | Some _ =>
                      if negb (plain_integer sub)
                      then Err (text_ 400 "Invalid Stream-Fork-Sub-Offset format" [])
                      else config (js_parseInt sub)
                  end
              end
        end
  end.

(** ** A stream that exists *)

(** The media type for the comparison: [normalize(ct) || default]. *)
Definition media_type_or_default (ct : option string) : string :=
  let n := Cloudflare.normalizeContentType ct in
  if String.eqb n EmptyString then "application/octet-stream"%string else n.

Definition config_matches (req : CreateConfig) (existing : StreamMeta) : bool :=
  let contentTypeMatches :=
    match cc_contentType req, cc_forkedFrom req with
    | None, Some f =>
        if bool_decide (sm_forkedFrom existing = Some f) then true
        else String.eqb (media_type_or_default None) (media_type_or_default (sm_contentType existing))
    | ct, _ => String.eqb (media_type_or_default ct) (media_type_or_default (sm_contentType existing))
    end in
  let ttlMatches := bool_decide (cc_ttlSeconds req = sm_ttlSeconds existing) in
  let expiresMatches := bool_decide (cc_expiresAt req = sm_expiresAt existing) in
  let closedMatches := Bool.eqb (cc_createClosed req) (sm_closed existing) in
  let forkedFromMatches := bool_decide (cc_forkedFrom req = sm_forkedFrom existing) in
  let forkOffsetMatches :=
    match cc_forkOffsetHeader req with
    | None => true
    | Some fo => bool_decide (sm_forkOffset existing = Some fo)
    end in
  let forkSubOffsetMatches := or_else (cc_forkSubOffset req) 0 =? or_else (sm_forkSubOffset existing) 0 in
  contentTypeMatches && ttlMatches && expiresMatches && closedMatches && forkedFromMatches &&
  forkOffsetMatches && forkSubOffsetMatches.

Definition closed_header (b : bool) : list (string * string) := when b (STREAM_CLOSED_HEADER, "true"%string).

Definition existingStreamResponse (existing : StreamMeta) (req : CreateConfig) : Response :=
  if sm_softDeleted existing then
    text_ 409 "stream was deleted but still has active forks — path cannot be reused until all forks are removed" []
  else if config_matches req existing then
    let ct :=
      match sm_contentType existing, cc_contentType req with
      | Some ct, _ => ct
      | None, Some ct => ct
      | None, None => "application/octet-stream"%string
      end in
    respond 200 ([("content-type"%string, ct); (STREAM_OFFSET_HEADER, sm_currentOffset existing)] ++
                 closed_header (sm_closed existing)) []
  else text_ 409 "Stream already exists with different configuration" [].

Definition created_response (a : PutArgs) (contentType currentOffset : string) : Response :=
  respond 201 ([("content-type"%string, contentType); (STREAM_OFFSET_HEADER, currentOffset);
                ("location"%string, pa_origin a +:+ pa_path a)] ++
               closed_header (cc_createClosed (pa_config a))) [].

(** The body of a PUT as it is stored: [Err] is the reply. *)
Definition initial_payload (json_mode : bool) (body : bytes) : result Response (option bytes) :=
  if (length body =? 0)%nat then Ok None
  else if json_mode then
    match processJsonAppend body true with
    | Err message => Err (text_ 400 message [])
    | Ok payload =>
        if MAX_BODY_BYTES <? Z.of_nat (length payload) then Err (text_ 413 "Payload too large" [])
        else Ok (Some payload)
    end
  else Ok (Some body).

(** [appendMessage] of a payload, when there is one. *)
Definition append_payload (currentOffset : string) (payload : option bytes) (time : Z) (t : Tables)
    : option (Tables * string) :=
  match payload with
  | Some (b :: payload) => appendMessage full currentOffset (b :: payload) time t
  | _ => Some (t, currentOffset)
  end.

(** ** PUT *)

(** [handlePut] without a source, from where the body is processed. *)
Definition create_plain (a : PutArgs) (o : Object) : Object * Turn :=
  let c := pa_config a in
  let resolvedContentType := or_else (cc_contentType c) "application/octet-stream"%string in
  match initial_payload (is_json (Some resolvedContentType)) (pa_body a) with
  | Err r => (o, Now (Respond r))
  | Ok initialPayload =>
      match createMeta uuid (mkCreateMeta (Some resolvedContentType) (cc_ttlSeconds c) (cc_expiresAt c)
              (cc_createClosed c) (pa_now a) None None None None None) (ob_tables o) with
      | None => (o, Now Throw)
      | Some t =>
          let currentOffset :=
            match t_meta t with Some m => sm_currentOffset m | None => EmptyString end in
          match append_payload currentOffset initialPayload (pa_now a) t with
          | None => (upd_tables (fun _ => t) o, Now Throw)
          | Some (t, currentOffset) =>
              (syncExpiryAlarm now (upd_tables (fun _ => t) o),
               Now (Respond (created_response a resolvedContentType currentOffset)))
          end
      end
  end.

(** After [getMeta]: the raw record is read again. *)
Definition put_continue (a : PutArgs) (o : Object) : Object * Turn :=
  match getMetaRaw o with
  | Some existing => (o, Now (Respond (existingStreamResponse existing (pa_config a))))
  | None =>
      match cc_forkedFrom (pa_config a) with
      | Some forkedFrom => (o, AwaitLock (CreateForkJob a forkedFrom))
      | None => create_plain a o
      end
  end.

Definition handlePut (path origin : string) (req : Request) (o : Object) : Object * Turn :=
  match parse_put req with
  | Err r => (o, Now (Respond r))
  | Ok (config, body) =>
      let a := mkPutArgs path origin config body now in
      match getMeta now o with
      | (o, inl existing) => (o, Now (Respond (existingStreamResponse existing config)))
      | (o, inr []) => put_continue a o
      | (o, inr todo) => (o, flush todo (AfterGetMeta a))
      end
  end.

(** ** [createFork] *)

(** Up to the call of [forkAcquire]. *)
Definition createFork (a : PutArgs) (forkedFrom : string) (o : Object) : Object * Turn :=
  let c := pa_config a in
  if String.eqb forkedFrom (pa_path a) then (o, Now (Respond (text_ 404 "Source stream not found" [])))
  else
    let '(o, edgeId) :=
      match getForkIntent forkedFrom (cc_forkOffsetHeader c) (ob_tables o) with
      | Some edgeId => (o, edgeId)
      | None =>
          (armAlarmAt now (now + 5000)
             (upd_tables (putForkIntent uuid forkedFrom (cc_forkOffsetHeader c)) o), uuid)
      end in
    (o, Await forkedFrom (forkAcquire edgeId (cc_forkOffsetHeader c) (cc_contentType c))
          (AcquireK a forkedFrom edgeId)).

(** [release()], and the reply after it. *)
Definition release (forkedFrom edgeId : string) (g : Grant) (after : After) (o : Object) : Object * Turn :=
  let o := upd_tables (fun t => deleteForkIntent edgeId
             (enqueueGcRelease edgeId forkedFrom (Some (gr_sourceGeneration g)) t)) o in
  let '(o, todo) := flushGcReleases now o in
  (o, flush todo after).

Definition resolved_content_type (a : PutArgs) (g : Grant) : option string :=
  match cc_contentType (pa_config a) with
  | Some ct => if String.eqb (js_trim ct) EmptyString then gr_contentType g else Some ct
  | None => gr_contentType g
  end.

(** The expiry of a fork: its own, or that of its source. *)
Definition fork_expiry (c : CreateConfig) (g : Grant) : option Z * option string :=
  match cc_ttlSeconds c, cc_expiresAt c with
  | None, None =>
      match gr_ttlSeconds g, gr_expiresAt g with
      | Some ttl, _ => (Some ttl, None)
      | None, e => (None, e)
      end
  | ttl, e => (ttl, e)
  end.

(** The record of a fork, and its first messages.  [inr] are the tables when a
    statement throws. *)
Definition insert_fork (a : PutArgs) (forkedFrom edgeId : string) (g : Grant)
    (prefix initialPayload : option bytes) (t : Tables) : (Tables * string) + Tables :=
  let c := pa_config a in
  let '(effectiveTtl, effectiveExpiresAt) := fork_expiry c g in
  match createMeta uuid (mkCreateMeta (resolved_content_type a g) effectiveTtl effectiveExpiresAt
          (cc_createClosed c) (pa_now a) (Some forkedFrom) (Some (gr_forkOffset g))
          (match cc_forkSubOffset c with
           | Some n => if 0 <? n then Some n else None
           | None => None
           end) (Some edgeId) (Some (gr_sourceGeneration g))) t with
  | None => inr t
  | Some t1 =>
      match append_payload (gr_forkOffset g) prefix (pa_now a) t1 with
      | None => inr t1
      | Some (t2, currentOffset) =>
          match append_payload currentOffset initialPayload (pa_now a) t2 with
          | None => inr t2
          | Some r => inl r
          end
      end
  end.

(** [createFork] from where the body is processed. *)
Definition fork_finish (a : PutArgs) (forkedFrom edgeId : string) (g : Grant) (prefix : option bytes)
    (o : Object) : Object * Turn :=
  let ct := resolved_content_type a g in
  match initial_payload (is_json ct) (pa_body a) with
  | Err r => release forkedFrom edgeId g (Respond r) o
  | Ok initialPayload =>
      match getMetaRaw o with
      | Some raced =>
          let reply := Respond (existingStreamResponse raced (pa_config a)) in
          if bool_decide (sm_forkEdgeId raced = Some edgeId)
          then (upd_tables (deleteForkIntent edgeId) o, Now reply)
          else release forkedFrom edgeId g reply o
      | None =>
          match insert_fork a forkedFrom edgeId g prefix initialPayload (ob_tables o) with
          | inr t => release forkedFrom edgeId g Throw (upd_tables (fun _ => t) o)
          | inl (t, currentOffset) =>
              let o := upd_tables (deleteForkIntent edgeId) (upd_tables (fun _ => t) o) in
              (syncExpiryAlarm now o,
               Now (Respond (created_response a (or_else ct "application/octet-stream"%string) currentOffset)))
          end
      end
  end.

(** The first bytes, or values, of the message at the fork offset; [None] is
    the reply [Invalid fork sub-offset]. *)
Definition sub_offset_prefix (json_mode : bool) (subOffset : Z) (past : ReadBatch) : option bytes :=
  match rb_messages past with
  | [] => None
  | first :: _ =>
      if json_mode then
        let text := decode_text (sd_data first) in
        let trimmed := if ends_with "," text then str_drop_end 1 text else text in
        match JSON_parse ("[" +:+ trimmed +:+ "]") with
        | Some (JArr values) =>
            if Z.of_nat (length values) <? subOffset then None
            else Some (encode_text (join "," (map stringify (take (Z.to_nat subOffset) values)) +:+ ","))
        | _ => None
        end
      else if Z.of_nat (length (sd_data first)) <? subOffset then None
      else Some (take (Z.to_nat subOffset) (sd_data first))
  end.

(** After [forkAcquire]. *)
Definition fork_acquired (a : PutArgs) (forkedFrom edgeId : string) (r : RpcResult) (o : Object)
    : Object * Turn :=
  match r with
  | Acquired (Refused e) =>
      let r :=
        match e with
        | not_found => text_ 404 "Source stream not found" []
        | soft_deleted => text_ 409 "source stream was deleted but still has active forks" []
        | content_type_mismatch => text_ 409 "Content type mismatch with source stream" []
        | invalid_offset => text_ 400 "Fork offset beyond source stream length" []
        end in
      (upd_tables (deleteForkIntent edgeId) o, Now (Respond r))
  | Acquired (Granted g) =>
      if match cc_forkSubOffset (pa_config a) with Some n => 0 <? n | None => false end
      then (o, Await forkedFrom
                 (readRange (Some (gr_forkOffset g)) MAX_OFFSET_CAP (Some 1%nat) None)
                 (SubOffsetK a forkedFrom edgeId g))
      else fork_finish a forkedFrom edgeId g None o
  | _ => (o, Now Throw)
  end.

(** After [readRange] for the sub-offset. *)
Definition fork_sub_offset_read (a : PutArgs) (forkedFrom edgeId : string) (g : Grant) (r : RpcResult)
    (o : Object) : Object * Turn :=
  match r with
  | Range past =>
      match sub_offset_prefix (is_json (resolved_content_type a g))
              (or_else (cc_forkSubOffset (pa_config a)) 0) past with
      | None => release forkedFrom edgeId g (Respond (text_ 400 "Invalid fork sub-offset" [])) o
      | Some prefix => fork_finish a forkedFrom edgeId g (Some prefix) o
      end
  | _ => (o, Now Throw)
  end.

(** ** The alarm *)

(** [processForkIntents] calls one source after the other, and then the alarm
    goes on with the releases. *)
Definition process_intents (todo : list (string * ForkIntent)) (o : Object) : Object * Turn :=
  match todo with
  | [] => (o, flush (pendingGcReleases (ob_tables o)) AfterReleases)
  | i :: rest =>
      (o, Await (in_parentPath i.2) (forkAcquire i.1 (in_forkOffset i.2) None) (IntentK i rest))
  end.

Definition processForkIntents (o : Object) : Object * Turn :=
  match getMetaRaw o with
  | Some _ => process_intents [] o
  | None => process_intents (pendingForkIntents (ob_tables o)) o
  end.

(** After [forkAcquire] of an intent. *)
Definition intent_acquired (i : string * ForkIntent) (rest : list (string * ForkIntent)) (r : RpcResult)
    (o : Object) : Object * Turn :=
  match r with
  | Acquired r =>
      let enqueue :=
        match r with
        | Granted g => enqueueGcRelease i.1 (in_parentPath i.2) (Some (gr_sourceGeneration g))
        | Refused _ => id
        end in
      process_intents rest (upd_tables (fun t => deleteForkIntent i.1 (enqueue t)) o)
  | _ => process_intents rest (armAlarmAt now (now + 5000) o)
  end.

(** The alarm goes off. *)
Definition alarm (o : Object) : Object * Turn :=
  (mkObject (ob_tables o) None None (ob_waiters o) (ob_settled o), AwaitLock IntentsJob).

(** [alarm] after the releases. *)
Definition alarm_expiry (o : Object) : Object * Turn :=
  match getMetaRaw o with
  | None => (o, Now Finished)
  | Some m =>
      if isExpired m now then
        if 0 <? forkEdgeCount (ob_tables o) then
          (if sm_softDeleted m then o else upd_tables setSoftDeleted o, Now Finished)
        else let '(o, todo) := purgeStream now m o in (o, flush todo Finished)
      else (syncExpiryAlarm now o, Now Finished)
  end.

(** After a [forkRelease]: it is taken off the queue, or tried again later. *)
Definition release_delivered (r : string * GcRelease) (rest : list (string * GcRelease)) (after : After)
    (v : RpcResult) (o : Object) : Object * Turn :=
  (match v with
   | Released => upd_tables (dequeueGcRelease r.1) o
   | _ => armAlarmAt now (now + 5000) o
   end, flush rest after).
End object.
