(* ===== verification/ObjectRead.v ===== *)
(** * HEAD, GET and reads through forks of class [StreamObject]
    ([packages/server-cloudflare/src/stream-object.ts])

    A read of a fork asks the source for what lies below the fork offset
    ([readRange]), and then reads its own rows.  A GET that follows the stream
    waits for messages when it is at the tail; the pump of an SSE response reads
    and waits in turn. *)

From S2P Require Import Prelude Offsets Producer Text Json Types JsonMode StreamStore Cursor PathEncoding Sse Http SqliteStore StreamObject.
Local Open Scope js_scope.

Section object.
Context `{!JsonLib} `{!DateLib}.
Context (object_id : string) (now rnd : Z).

(** ** HEAD *)

Definition handleHead (o : Object) : Object * Turn :=
  with_meta now (Respond (respond 404 TEXT_PLAIN [])) (Respond (respond 410 TEXT_PLAIN [])) (fun m o =>
    (o, Now (Respond (respond 200
      ([(STREAM_OFFSET_HEADER, sm_currentOffset m); ("cache-control"%string, "no-store"%string)] ++
       when_some "content-type" (sm_contentType m) ++
       when (sm_closed m) (STREAM_CLOSED_HEADER, "true"%string) ++
       when_some STREAM_TTL_HEADER (js_String <$> sm_ttlSeconds m) ++
       when_some STREAM_EXPIRES_AT_HEADER (sm_expiresAt m) ++
       [("etag"%string, etag object_id "-1" (sm_currentOffset m) (sm_closed m))]) [])))) o.

(** ** Stitched reads *)

Definition normalized_after (afterOffset : option string) : option string :=
  match afterOffset with
  | Some o => if String.eqb o "-1" then None else Some o
  | None => None
  end.

Definition is_live (live : option string) (mode : string) : bool := bool_decide (live = Some mode).

Definition concat_messages (ms : list StoredMessage) : bytes := Cloudflare.concatBytes (sd_data <$> ms).

(** The end of [handleGet]: the response with the messages of a batch. *)
Definition get_response (g : GetArgs) (messages : list StoredMessage) (upToDate : bool) (o : Object) : Response :=
  let freshMeta := or_else (getMetaRaw o) (ga_meta g) in
  let responseOffset := or_else (sd_offset <$> list.last messages) (sm_currentOffset freshMeta) in
  let clientAtTail := String.eqb responseOffset (sm_currentOffset freshMeta) in
  let closedSuffix := sm_closed freshMeta && clientAtTail && upToDate in
  let tag := etag object_id (or_else (ga_offsetParam g) "-1"%string) responseOffset closedSuffix in
  if bool_decide (ga_ifNoneMatch g = Some tag) then respond 304 [("etag"%string, tag)] []
  else
    respond 200
      (when_some "content-type" (sm_contentType freshMeta) ++ [(STREAM_OFFSET_HEADER, responseOffset)] ++
       when (is_live (ga_live g) "long-poll")
         (STREAM_CURSOR_HEADER, Cloudflare.generateResponseCursor now rnd (ga_cursor g)) ++
       when upToDate (STREAM_UP_TO_DATE_HEADER, "true"%string) ++
       when closedSuffix (STREAM_CLOSED_HEADER, "true"%string) ++
       [("etag"%string, tag)] ++
       when (negb (is_live (ga_live g) "long-poll"))
         ("cache-control"%string, "public, max-age=60, stale-while-revalidate=300"%string))
      (if is_json (sm_contentType freshMeta) then Cloudflare.formatJsonMessages (sd_data <$> messages)
       else concat_messages messages).

(** [handleGet] after [waitForMessages]. *)
Definition poll_result (g : GetArgs) (waitOffset : string) (result : WaitResult) (o : Object) : Object * Turn :=
  let o := syncExpiryAlarm now (upd_tables (touchAccess now) o) in
  let headers :=
    [(STREAM_OFFSET_HEADER, waitOffset); (STREAM_UP_TO_DATE_HEADER, "true"%string);
     (STREAM_CURSOR_HEADER, Cloudflare.generateResponseCursor now rnd (ga_cursor g))] in
  if wr_streamClosed result && (length (wr_messages result) =? 0)%nat
  then (o, Now (Respond (respond 204 (headers ++ [(STREAM_CLOSED_HEADER, "true"%string)]) [])))
  else if wr_timedOut result then
    (o, Now (Respond (respond 204
       (headers ++ when (match getMetaRaw o with Some m => sm_closed m | None => false end)
                     (STREAM_CLOSED_HEADER, "true"%string)) [])))
  else (o, Now (Respond (get_response g (wr_messages result) (negb (wr_capped result)) o))).

(** *** The events of an SSE response *)

Definition control_closed (offset : string) : Frame :=
  ControlFrame [("streamNextOffset"%string, JStr offset); ("streamClosed"%string, JBool true)].

Definition control_open (s : SseArgs) (offset : string) (upToDate : bool) : Frame :=
  ControlFrame
    ([("streamNextOffset"%string, JStr offset);
      ("streamCursor"%string, JStr (Cloudflare.generateResponseCursor now rnd (ss_cursor s)))] ++
     (if upToDate then [("upToDate"%string, JBool true)] else [])).

(** One data event for the whole batch. *)
Definition data_frames (s : SseArgs) (messages : list StoredMessage) : list Frame :=
  if (0 <? length messages)%nat then
    [DataFrame
       (if ss_useBase64 s then of_chars (base64 (concat_messages messages))
        else if ss_isJson s then decode_text (Cloudflare.formatJsonMessages (sd_data <$> messages))
        else decode_text (concat_messages messages))]
  else [].

Definition sse_at (offset : string) (s : SseArgs) : SseArgs :=
  mkSseArgs (ss_generation s) offset (ss_cursor s) (ss_useBase64 s) (ss_isJson s) (ss_startedAt s).

(** The record, if it is still that of the connection. *)
Definition sse_meta (s : SseArgs) (o : Object) : option StreamMeta :=
  match getMetaRaw o with
  | Some m => if String.eqb (sm_generation m) (ss_generation s) then Some m else None
  | None => None
  end.

(** A turn of [pumpSse] after its read: one chunk is written. *)
Definition sse_batch (s : SseArgs) (batch : ReadBatch) (o : Object) : Object * Turn :=
  match sse_meta s o with
  | None => (o, Now Finished)
  | Some freshMeta =>
      let o := syncExpiryAlarm now (upd_tables (touchAccess now) o) in
      let controlOffset := or_else (sd_offset <$> list.last (rb_messages batch)) (sm_currentOffset freshMeta) in
      let clientAtTail := negb (rb_capped batch) && String.eqb controlOffset (sm_currentOffset freshMeta) in
      let ended := sm_closed freshMeta && clientAtTail in
      (o, Pump
            (data_frames s (rb_messages batch) ++
             [if ended then control_closed controlOffset
              else control_open s controlOffset (negb (rb_capped batch))])
            (if ended then SseEnd
             else if rb_capped batch then SseRead (sse_at controlOffset s)
             else SseWait (sse_at controlOffset s)))
  end.

(** [pumpSse] after [waitForMessages]. *)
Definition sse_result (s : SseArgs) (result : WaitResult) (o : Object) : Object * Turn :=
  let o := syncExpiryAlarm now (upd_tables (touchAccess now) o) in
  let closed := Pump [control_closed (ss_currentOffset s)] SseEnd in
  if wr_streamClosed result && (length (wr_messages result) =? 0)%nat then (o, closed)
  else if wr_timedOut result then
    match sse_meta s o with
    | None => (o, Now Finished)
    | Some afterWait =>
        (o, if sm_closed afterWait then closed
            else Pump [control_open s (ss_currentOffset s) true] (SseRead s))
    end
  else (o, Pump [] (SseRead s)).

(** *** [waitForMessages] *)

Definition wait_result (w : Waiter) (offset : string) (result : WaitResult) (o : Object) : Object * Turn :=
  match w with
  | WaitGet g => poll_result g offset result o
  | WaitSse s => sse_result s result o
  end.

(** [waitForMessages] once the inherited messages are out of the way. *)
Definition wait_rest (w : Waiter) (offset : string) (o : Object) : Object * Turn :=
  let initial := readMessages (normalized_after (Some offset)) MAX_READ_BATCH_BYTES (ob_tables o) in
  if (0 <? length (rb_messages initial))%nat
  then wait_result w offset (mkWaitResult (rb_messages initial) false false (rb_capped initial)) o
  else
    match getMetaRaw o with
    | None => wait_result w offset (mkWaitResult [] false false false) o
    | Some m =>
        if sm_closed m && String.eqb offset (sm_currentOffset m)
        then wait_result w offset (mkWaitResult [] false true false) o
        else (o, AwaitMessages w offset)
    end.

(** The offset it waits after. *)
Definition wait_offset (w : Waiter) : string :=
  match w with
  | WaitGet g =>
      let effectiveOffset :=
        if bool_decide (ga_offsetParam g = Some "now"%string) then Some (sm_currentOffset (ga_meta g))
        else ga_offsetParam g in
      or_else effectiveOffset (sm_currentOffset (ga_meta g))
  | WaitSse s => ss_currentOffset s
  end.

(** [waitForMessages] *)
Definition waitForMessages (w : Waiter) (o : Object) : Object * Turn :=
  let offset := wait_offset w in
  match getMetaRaw o with
  | Some forkMeta =>
      let read k := mkStitchArgs forkMeta (Some offset) None None MAX_READ_BATCH_BYTES k in
      match sm_forkedFrom forkMeta, sm_forkOffset forkMeta with
      | Some forkedFrom, Some forkOffset =>
          if negb (String.eqb offset "-1") && String.ltb offset forkOffset
          then (o, Await forkedFrom (readRange (Some offset) forkOffset None (Some MAX_READ_BATCH_BYTES))
                     (InheritedK (read (WaitInheritedK w))))
          else if String.eqb offset "-1"
          then (o, Await forkedFrom (readRange None forkOffset None (Some MAX_READ_BATCH_BYTES))
                     (InheritedK (read (WaitStartK w))))
          else wait_rest w offset o
      | _, _ => wait_rest w offset o
      end
  | None => wait_rest w offset o
  end.

(** What a stitched read was for: its batch is complete. *)
Definition read_done (s : StitchArgs) (batch : ReadBatch) (get : GetArgs -> ReadBatch -> Object -> Object * Turn)
    (o : Object) : Object * Turn :=
  match sa_then s with
  | RangeK => (o, Now (Return (Range batch)))
  | GetK g => get g batch o
  | SseK s => sse_batch s batch o
  | WaitInheritedK w =>
      wait_result w (wait_offset w) (mkWaitResult (rb_messages batch) false false (rb_capped batch)) o
  | WaitStartK w =>
      if (0 <? length (rb_messages batch))%nat
      then wait_result w (wait_offset w) (mkWaitResult (rb_messages batch) false false (rb_capped batch)) o
      else wait_rest w (wait_offset w) o
  end.

(** The own rows of a stitched read, after the inherited messages [out]. *)
Definition read_own (s : StitchArgs) (out : list StoredMessage) (remainingBytes : Z) (o : Object) : ReadBatch :=
  let remaining := (fun limit => (limit - length out)%nat) <$> sa_limit s in
  let own := readMessagesRange (normalized_after (sa_afterOffset s)) (sa_capOffset s) remaining
               (Some remainingBytes) (length out =? 0)%nat (ob_tables o) in
  mkReadBatch (out ++ rb_messages own) (rb_capped own).

(** Whether a read from [afterOffset] begins in the source, and up to where. *)
Definition inherits (m : StreamMeta) (afterOffset capOffset : option string) : option (string * string) :=
  match sm_forkedFrom m, sm_forkOffset m with
  | Some forkedFrom, Some forkOffset =>
      if match normalized_after afterOffset with
         | None => true
         | Some after_ => String.ltb after_ forkOffset
         end
      then Some (forkedFrom,
                 match capOffset with
                 | None => forkOffset
                 | Some cap => if String.ltb forkOffset cap then forkOffset else cap
                 end)
      else None
  | _, _ => None
  end.

Section stitched.
Context (get : GetArgs -> ReadBatch -> Object -> Object * Turn).

(** [readStitched] *)
Definition readStitched (s : StitchArgs) (o : Object) : Object * Turn :=
  match inherits (sa_meta s) (sa_afterOffset s) (sa_capOffset s) with
  | Some (forkedFrom, cap) =>
      (o, Await forkedFrom
            (readRange (normalized_after (sa_afterOffset s)) cap (sa_limit s) (Some (sa_byteBudget s)))
            (InheritedK s))
  | None => read_done s (read_own s [] (sa_byteBudget s) o) get o
  end.

Definition total_bytes (ms : list StoredMessage) : Z :=
  foldr (fun m n => Z.of_nat (length (sd_data m)) + n) 0 ms.

(** [readStitched] after the source has answered. *)
Definition inherited_read (s : StitchArgs) (r : RpcResult) (o : Object) : Object * Turn :=
  match r with
  | Range inherited =>
      match getMetaRaw o with
      | None => read_done s (mkReadBatch [] false) get o
      | Some current =>
          if negb (String.eqb (sm_generation current) (sm_generation (sa_meta s))) then
            readStitched (mkStitchArgs current (sa_afterOffset s) (sa_capOffset s) (sa_limit s)
                            (sa_byteBudget s) (sa_then s)) o
          else
            let out := rb_messages inherited in
            let remainingBytes := sa_byteBudget s - total_bytes out in
            if rb_capped inherited then read_done s (mkReadBatch out true) get o
            else if match sa_limit s with Some limit => (limit <=? length out)%nat | None => false end
            then read_done s (mkReadBatch (take (or_else (sa_limit s) 0%nat) out) true) get o
            else if (remainingBytes <=? 0) && (0 <? length out)%nat
            then read_done s (mkReadBatch out true) get o
            else read_done s (read_own s out remainingBytes o) get o
      end
  | _ => (o, Now Throw)
  end.
End stitched.

(** ** GET *)

(** [handleGet] after its read: the tail is waited at, or the batch answered. *)
Definition get_batch (g : GetArgs) (batch : ReadBatch) (o : Object) : Object * Turn :=
  let m := ga_meta g in
  let o := syncExpiryAlarm now (upd_tables (touchAccess (ga_now g)) o) in
  let at_now := bool_decide (ga_offsetParam g = Some "now"%string) in
  let clientIsCaughtUp := at_now || bool_decide (ga_offsetParam g = Some (sm_currentOffset m)) in
  if is_live (ga_live g) "long-poll" && clientIsCaughtUp && (length (rb_messages batch) =? 0)%nat then
    if sm_closed m then
      (o, Now (Respond (respond 204
         [(STREAM_OFFSET_HEADER, sm_currentOffset m); (STREAM_UP_TO_DATE_HEADER, "true"%string);
          (STREAM_CLOSED_HEADER, "true"%string)] [])))
    else waitForMessages (WaitGet g) o
  else (o, Now (Respond (get_response g (rb_messages batch) (negb (rb_capped batch)) o))).

(** The checks of the query: the reply of 400. *)
Definition parse_get (req : Request) : option Response :=
  let offsetParam := query_get "offset" req in
  let live := query_get "live" req in
  match offsetParam with
  | Some o =>
      if String.eqb o EmptyString then Some (text_ 400 "Empty offset parameter" [])
      else if (1 <? length (query_all "offset" req))%nat
      then Some (text_ 400 "Multiple offset parameters not allowed" [])
      else if negb (valid_offset o) then Some (text_ 400 "Invalid offset format" [])
      else None
  | None =>
      if is_live live "sse" then Some (text_ 400 "SSE requires offset parameter" [])
      else if is_live live "long-poll" then Some (text_ 400 "Long-poll requires offset parameter" [])
      else None
  end.

(** [handleSse]; the pump begins with a turn of its own. *)
Definition handleSse (m : StreamMeta) (initialOffset : string) (cursor : option string) (useBase64 : bool) : After :=
  OpenSse
    (respond 200
       ([("content-type", "text/event-stream"); ("cache-control", "no-cache"); ("connection", "keep-alive");
         ("content-encoding", "identity")]%string ++
        when useBase64 ("stream-sse-data-encoding", "base64")%string) [])
    (mkSseArgs (sm_generation m) initialOffset cursor useBase64 (is_json (sm_contentType m)) now).

Definition handleGet (req : Request) (o : Object) : Object * Turn :=
  with_meta now missing_response gone_response (fun m o =>
    match parse_get req with
    | Some r => (o, Now (Respond r))
    | None =>
        let offsetParam := query_get "offset" req in
        let live := query_get "live" req in
        let g := mkGetArgs offsetParam live (query_get "cursor" req) (req_header "if-none-match" req) now m in
        let at_now := bool_decide (offsetParam = Some "now"%string) in
        if is_live live "sse" then
          let ct := Cloudflare.normalizeContentType (sm_contentType m) in
          let useBase64 := negb (starts_with "text/" ct || String.eqb ct "application/json") in
          let sseOffset := if at_now then sm_currentOffset m else or_else offsetParam "-1"%string in
          (o, Now (handleSse m sseOffset (query_get "cursor" req) useBase64))
        else if at_now && negb (is_live live "long-poll") then
          (syncExpiryAlarm now (upd_tables (touchAccess now) o),
           Now (Respond (respond 200
             ([(STREAM_OFFSET_HEADER, sm_currentOffset m); (STREAM_UP_TO_DATE_HEADER, "true"%string);
               ("cache-control"%string, "no-store"%string)] ++
              when_some "content-type" (sm_contentType m) ++
              when (sm_closed m) (STREAM_CLOSED_HEADER, "true"%string))
             (if is_json (sm_contentType m) then encode_text "[]" else []))))
        else
          let effectiveOffset := if at_now then Some (sm_currentOffset m) else offsetParam in
          readStitched get_batch
            (mkStitchArgs m effectiveOffset None None MAX_READ_BATCH_BYTES (GetK g)) o
    end) o.

(** [pumpSse]: the top of its loop, and after a chunk was written. *)
Definition sse_read (s : SseArgs) (o : Object) : Object * Turn :=
  match sse_meta s o with
  | None => (o, Now Finished)
  | Some loopMeta =>
      readStitched get_batch
        (mkStitchArgs loopMeta
           (if String.eqb (ss_currentOffset s) "-1" then None else Some (ss_currentOffset s))
           None None MAX_READ_BATCH_BYTES (SseK s)) o
  end.

Definition pumpSse (n : SseNext) (o : Object) : Object * Turn :=
  match n with
  | SseRead s => sse_read s o
  | SseWait s =>
      if MAX_SSE_LIFETIME_MS <=? now - ss_startedAt s then (o, Now Finished)
      else waitForMessages (WaitSse s) o
  | SseEnd => (o, Now Finished)
  end.

(** [readRange], called by a fork. *)
Definition handle_readRange (afterOffset : option string) (capOffset : string) (limit : option nat)
    (byteBudget : option Z) (o : Object) : Object * Turn :=
  match getMetaRaw o with
  | None => (o, Now (Return (Range (mkReadBatch [] false))))
  | Some m =>
      readStitched get_batch
        (mkStitchArgs m afterOffset (Some capOffset) limit (or_else byteBudget MAX_READ_BATCH_BYTES) RangeK) o
  end.
End object.
