(* ===== verification/ObjectWrite.v ===== *)
(** * POST and DELETE of class [StreamObject]
    ([packages/server-cloudflare/src/stream-object.ts])

    After its body is read, and unless it finds the stream expired, an append is
    one turn: it is validated, stored, and the state of its producer with it. *)

From S2P Require Import Prelude Offsets Producer Text Json Types JsonMode StreamStore Cursor PathEncoding Sse Http SqliteStore StreamObject ObjectCreate.
Local Open Scope js_scope.

Record ProducerHeaders := mkProducerHeaders { ph_producerId : string; ph_epoch : Z; ph_seq : Z }.

(** The headers of a POST. *)
Record PostArgs := mkPostArgs {
  po_contentType : option string;
  po_seq : option string;
  po_close : bool;
  po_producer : option ProducerHeaders;
}.

(** A producer header that must be a non-negative integer. *)
Definition parse_number (name s : string) : result Response Z :=
  let bad := Err (text_ 400 ("Invalid " +:+ name +:+ ": must be a non-negative integer") []) in
  if negb (all_digits s) then bad
  else
    match js_Number s with
    | Some n => if is_safe_integer n then Ok n else bad
    | None => bad
    end.

Definition parse_post (req : Request) : result Response PostArgs :=
  let args := mkPostArgs (req_header "content-type" req) (req_header "stream-seq" req)
    (String.eqb (js_lower (or_else (req_header "stream-closed" req) EmptyString)) "true") in
  match req_header "producer-id" req, req_header "producer-epoch" req, req_header "producer-seq" req with
  | None, None, None => Ok (args None)
  | Some producerId, Some epochStr, Some seqStr =>
      if String.eqb producerId EmptyString
      then Err (text_ 400 "Invalid Producer-Id: must not be empty" [])
      else
        match parse_number "Producer-Epoch" epochStr, parse_number "Producer-Seq" seqStr with
        | Err r, _ => Err r
        | _, Err r => Err r
        | Ok e, Ok seq => Ok (args (Some (mkProducerHeaders producerId e seq)))
        end
  | _, _, _ =>
      Err (text_ 400
        "All producer headers (Producer-Id, Producer-Epoch, Producer-Seq) must be provided together" [])
  end.

(** The headers that repeat those of the producer. *)
Definition producer_headers (p : ProducerHeaders) : list (string * string) :=
  [(PRODUCER_EPOCH_HEADER, js_String (ph_epoch p)); (PRODUCER_SEQ_HEADER, js_String (ph_seq p))].

(** The request that has closed the stream, once more. *)
Definition same_close (m : StreamMeta) (p : ProducerHeaders) : bool :=
  match sm_closedBy m with
  | Some c => String.eqb (cb_producerId c) (ph_producerId p) &&
              bool_decide (cb_epoch c = Some (ph_epoch p)) && bool_decide (cb_seq c = Some (ph_seq p))
  | None => false
  end.

Definition closed_by (p : ProducerHeaders) : ClosedBy :=
  mkClosedBy (ph_producerId p) (Some (ph_epoch p)) (Some (ph_seq p)).

Definition tail_headers (m : StreamMeta) : list (string * string) :=
  [(STREAM_OFFSET_HEADER, sm_currentOffset m); (STREAM_CLOSED_HEADER, "true"%string)].

(** The reply to a request on a closed stream. *)
Definition closed_response (m : StreamMeta) (p : option ProducerHeaders) : Response :=
  let conflict := text_ 409 "Stream is closed"
    [(STREAM_CLOSED_HEADER, "true"%string); (STREAM_OFFSET_HEADER, sm_currentOffset m)] in
  match p with
  | Some p => if same_close m p then respond 204 (tail_headers m ++ producer_headers p) [] else conflict
  | None => conflict
  end.

(** [producerFailureResponse]; an accepted result does not come here. *)
Definition producerFailureResponse (result : ProducerValidationResult) (p : ProducerHeaders) (isCloseOnly : bool)
    (o : Object) : Response :=
  let tail := or_else (sm_currentOffset <$> getMetaRaw o) EmptyString in
  match result with
  | duplicate lastSeq =>
      respond 204
        ([(PRODUCER_EPOCH_HEADER, js_String (ph_epoch p)); (PRODUCER_SEQ_HEADER, js_String lastSeq)] ++
         if isCloseOnly then
           (STREAM_OFFSET_HEADER, tail) ::
           when (match getMetaRaw o with Some m => sm_closed m | None => false end)
             (STREAM_CLOSED_HEADER, "true"%string)
         else []) []
  | stale_epoch currentEpoch =>
      text_ 403 "Stale producer epoch" [(PRODUCER_EPOCH_HEADER, js_String currentEpoch)]
  | invalid_epoch_seq => text_ 400 "New epoch must start with sequence 0" []
  | sequence_gap expectedSeq receivedSeq =>
      text_ 409 "Producer sequence gap"
        [(PRODUCER_EXPECTED_SEQ_HEADER, js_String expectedSeq);
         (PRODUCER_RECEIVED_SEQ_HEADER, js_String receivedSeq)]
  | stream_closed | accepted _ _ _ =>
      text_ 409 "Stream is closed" [(STREAM_CLOSED_HEADER, "true"%string); (STREAM_OFFSET_HEADER, tail)]
  end.

Section object.
Context `{!JsonLib} `{!DateLib}.
Context (now : Z) (full : bool).

(** [getProducerState] and [validateProducer] *)
Definition validate (p : ProducerHeaders) (t : Tables) : Tables * ProducerValidationResult :=
  let '(t, state) := getProducerState (ph_producerId p) now t in
  (t, Cloudflare.validateProducer state (ph_producerId p) (ph_epoch p) (ph_seq p) now).

Definition touch (o : Object) : Object := syncExpiryAlarm now (upd_tables (touchAccess now) o).

(** [handleCloseOnly] *)
Definition handleCloseOnly (producer : option ProducerHeaders) (o : Object) : Object * Turn :=
  with_meta now missing_response gone_response (fun m o =>
    match producer with
    | None =>
        (notifyClosed (touch (upd_tables (setClosed None) o)), Now (Respond (respond 204 (tail_headers m) [])))
    | Some p =>
        if sm_closed m then (o, Now (Respond (closed_response m producer)))
        else
          let '(t, result) := validate p (ob_tables o) in
          let o := upd_tables (fun _ => t) o in
          match result with
          | accepted _ proposedState producerId =>
              let o := upd_tables (fun t => setClosed (Some (closed_by p))
                         (commitProducerState producerId proposedState t)) o in
              (notifyClosed (touch o), Now (Respond (respond 204 (tail_headers m ++ producer_headers p) [])))
          | _ => (o, Now (Respond (producerFailureResponse result p true o)))
          end
    end) o.

(** The payload of an append, or the reply. *)
Definition post_payload (m : StreamMeta) (body : bytes) : result Response bytes :=
  if is_json (sm_contentType m) then
    match processJsonAppend body false with
    | Err message => Err (text_ 400 message [])
    | Ok payload =>
        if MAX_BODY_BYTES <? Z.of_nat (length payload) then Err (text_ 413 "Payload too large" [])
        else Ok payload
    end
  else Ok body.

(** [handlePost] once the request is validated. *)
Definition post_commit (a : PostArgs) (proposed : option ProducerState) (m : StreamMeta)
    (payload : bytes) (o : Object) : Object * Turn :=
  match appendMessage full (sm_currentOffset m) payload now (ob_tables o) with
  | None => (o, Now Throw)
  | Some (t, newOffset) =>
      let t :=
        match po_producer a, proposed with
        | Some p, Some proposedState => commitProducerState (ph_producerId p) proposedState t
        | _, _ => t
        end in
      let t := match po_seq a with Some seq => setLastSeq seq t | None => t end in
      let t := if po_close a then setClosed (closed_by <$> po_producer a) t else t in
      let o := notifyAppend (touch (upd_tables (fun _ => t) o)) in
      let o := if po_close a then notifyClosed o else o in
      (o, Now (Respond (respond (if po_producer a then 200 else 204)
         ([(STREAM_OFFSET_HEADER, newOffset)] ++
          match po_producer a with Some p => producer_headers p | None => [] end ++
          when (po_close a) (STREAM_CLOSED_HEADER, "true"%string)) [])))
  end.

(** [handlePost] on a stream that is there and open. *)
Definition post_append (a : PostArgs) (contentType : string) (body : bytes) (m : StreamMeta) (o : Object)
    : Object * Turn :=
  if match sm_contentType m with
     | Some ct => negb (String.eqb (Cloudflare.normalizeContentType (Some contentType))
                          (Cloudflare.normalizeContentType (Some ct)))
     | None => false
     end
  then (o, Now (Respond (text_ 409 "Content-type mismatch" [])))
  else
    let '(o, result) :=
      match po_producer a with
      | Some p =>
          let '(t, r) := validate p (ob_tables o) in
          (upd_tables (fun _ => t) o,
           Some (p, match r with accepted _ proposedState _ => inl proposedState | _ => inr r end))
      | None => (o, None)
      end in
    match result with
    | Some (p, inr r) => (o, Now (Respond (producerFailureResponse r p false o)))
    | _ =>
        if match po_seq a, sm_lastSeq m with
           | Some seq, Some lastSeq => negb (String.ltb lastSeq seq)
           | _, _ => false
           end
        then (o, Now (Respond (text_ 409 "Sequence conflict" [])))
        else
          match post_payload m body with
          | Err r => (o, Now (Respond r))
          | Ok payload =>
              let proposed := match result with Some (_, inl proposedState) => Some proposedState | _ => None end in
              post_commit a proposed m payload o
          end
    end.

Definition handlePost (req : Request) (o : Object) : Object * Turn :=
  match readBody req with
  | None => (o, Now (Respond (text_ 413 "Payload too large" [])))
  | Some body =>
      match parse_post req with
      | Err r => (o, Now (Respond r))
      | Ok a =>
          if (length body =? 0)%nat && po_close a then handleCloseOnly (po_producer a) o
          else if (length body =? 0)%nat then (o, Now (Respond (text_ 400 "Empty body" [])))
          else
            match po_contentType a with
            | None => (o, Now (Respond (text_ 400 "Content-Type header is required" [])))
            | Some contentType =>
                with_meta now missing_response gone_response (fun m o =>
                  if sm_closed m then (o, Now (Respond (closed_response m (po_producer a))))
                  else post_append a contentType body m o) o
            end
      end
  end.

(** [handleDelete] *)
Definition handleDelete (o : Object) : Object * Turn :=
  with_meta now missing_response gone_response (fun m o =>
    if 0 <? forkEdgeCount (ob_tables o) then
      (notifyClosed (upd_tables setSoftDeleted o), Now (Respond (respond 204 [] [])))
    else
      let '(o, todo) := purgeStream now m o in (o, flush todo (Respond (respond 204 [] [])))) o.
End object.
