(* ===== verification/CloudflareWorld.v ===== *)
(** * The network of Durable Objects

    Each stream is an object of its own; a fork and its source work together by
    calls ([stub.forkAcquire], [forkRelease], [readRange]).  A [Task] is a
    request, an alarm or such a call, while it waits; an [Event] is what happens
    next anywhere: a request arrives, an alarm goes off, a call is run by its
    target, is answered, or fails, a lock is free, messages are there, a
    chunk of an SSE response is written or its client is gone, an object is
    thrown out of memory.  Calls and answers may be delayed for as
    long as the network likes, and a call that fails may have been run.

    What the platform promises, and the model with it: between two waits a turn
    is atomic and durable (the input and output gates); there is an object for
    every name; the calls of an object that is thrown out are not run any more. *)

From S2P Require Import Prelude Offsets Producer Text Json Types JsonMode StreamStore Cursor PathEncoding Sse Http SqliteStore StreamObject ObjectCreate ObjectRead ObjectWrite.
Local Open Scope js_scope.

(** ** State *)

(** Who waits for a task's end: a client, the call of another task, nobody. *)
Inductive Origin :=
| Client
| Caller (id : nat)
| Alarm.

Inductive CallState :=
| Sent
| Running
| Answered (v : RpcResult).

Inductive TaskState :=
| Calling (target : string) (rpc : Rpc) (st : CallState) (k : Kont)
| WaitingLock (j : Job)
| WaitingMessages (w : Waiter) (waitOffset : string)
| Pumping (n : SseNext).

(** [tk_locked]: the task holds the [forkCreateLock] of its object. *)
Record Task := mkTask {
  tk_path : string;
  tk_origin : Origin;
  tk_locked : bool;
  tk_state : TaskState;
}.

Record World := mkWorld {
  objects : gmap string Object;
  tasks : gmap nat Task;
  next : nat;
}.

Definition empty_world : World := mkWorld ∅ ∅ 0.

(** [env.STREAMS.get(env.STREAMS.idFromName(path))] *)
Definition object_of (p : string) (w : World) : Object := or_else (objects w !! p) new_object.

Definition set_object (p : string) (o : Object) (w : World) : World :=
  mkWorld (<[p := o]> (objects w)) (tasks w) (next w).
Definition upd_tasks (f : gmap nat Task -> gmap nat Task) (w : World) : World :=
  mkWorld (objects w) (f (tasks w)) (next w).

(** What a task ends with, for its client. *)
Definition Output : Type := option (nat * After).

(** ** Turns *)

(** [return] of a call: it is answered, if the caller is still there. *)
Definition answer (id : nat) (v : RpcResult) (w : World) : World :=
  match tasks w !! id with
  | Some (mkTask p origin locked (Calling target rpc Running k)) =>
      upd_tasks <[id := mkTask p origin locked (Calling target rpc (Answered v) k)]> w
  | _ => w
  end.

(** The lock is held until [createFork] or [processForkIntents] is done. *)
Definition still_locked (t : Turn) : bool :=
  match t with Await _ _ (FlushK _ _ AfterReleases) => false | _ => true end.

(** The end of a turn of task [id] on the object [p]. *)
Definition end_turn (id : nat) (p : string) (origin : Origin) (locked : bool) (r : Object * Turn) (w : World)
    : World * Output :=
  let '(o, t) := r in
  let w := set_object p o w in
  let wait st := upd_tasks <[id := mkTask p origin (locked && still_locked t) st]> w in
  match t with
  | Now (Return v) =>
      (match origin with Caller c => answer c v w | _ => w end, None)
  | Now Throw =>
      (match origin with Caller c => answer c Thrown w | _ => w end, Some (id, Throw))
  | Now (OpenSse r s) => (wait (Pumping (SseRead s)), Some (id, OpenSse r s))
  | Now after => (w, Some (id, after))
  | Await target rpc k => (wait (Calling target rpc Sent k), None)
  | AwaitLock j => (wait (WaitingLock j), None)
  | Pump frame n =>
      (wait (Pumping n), match frame with [] => None | _ => Some (id, Wrote frame) end)
  | AwaitMessages waiter offset =>
      (set_object p (mkObject (ob_tables o) (ob_alarm o) (ob_lastArmedAlarm o)
                       (ob_waiters o ++ [(id, offset)]) (ob_settled o))
         (wait (WaitingMessages waiter offset)), None)
  end.

(** ** Events *)

(** The clock, the random number and the new UUID of a turn. *)
Record Env := mkEnv { en_now : Z; en_rnd : Z; en_uuid : string; en_full : bool }.

Inductive Event :=
| Arrive (e : Env) (p origin : string) (req : Request)
| AlarmFires (e : Env) (p : string)
| Run (e : Env) (id : nat)
| Resume (e : Env) (id : nat)
| Lose (id : nat)
| Start (e : Env) (id : nat)
| Wake (e : Env) (id : nat)
| Timeout (e : Env) (id : nat)
| Written (e : Env) (id : nat)
| Disconnect (id : nat)
| Evict (p : string).

Section world.
Context `{!JsonLib} `{!DateLib}.

(** [idFromName(path).toString()] *)
Context (do_id : string -> string).

(** What follows the releases of [getMeta] and of the alarm goes on at once. *)
Definition proceed (e : Env) (r : Object * Turn) : Object * Turn :=
  let '(o, t) := r in
  match t with
  | Now (AfterGetMeta a) => put_continue (en_now e) (en_uuid e) (en_full e) a o
  | Now AfterReleases => alarm_expiry (en_now e) o
  | _ => (o, t)
  end.

(** [fetch] *)
Definition fetch (e : Env) (p origin : string) (req : Request) (o : Object) : Object * Turn :=
  let now := en_now e in
  if String.eqb (rq_method req) "PUT" then handlePut now (en_uuid e) (en_full e) p origin req o
  else if String.eqb (rq_method req) "HEAD" then handleHead (do_id p) now o
  else if String.eqb (rq_method req) "GET" then handleGet (do_id p) now (en_rnd e) req o
  else if String.eqb (rq_method req) "POST" then handlePost now (en_full e) req o
  else if String.eqb (rq_method req) "DELETE" then handleDelete now o
  else (o, Now (Respond (text_ 405 "Method not allowed" []))).

(** A call, run by its target. *)
Definition run_call (e : Env) (target : string) (rpc : Rpc) (o : Object) : Object * Turn :=
  match rpc with
  | forkAcquire edgeId offset ct => handle_forkAcquire (en_now e) edgeId offset ct o
  | forkRelease edgeId gen => handle_forkRelease (en_now e) edgeId gen o
  | readRange after_ cap limit budget =>
      handle_readRange (do_id target) (en_now e) (en_rnd e) after_ cap limit budget o
  end.

(** After an [await] of a call. *)
Definition resume (e : Env) (p : string) (k : Kont) (v : RpcResult) (o : Object) : Object * Turn :=
  let now := en_now e in
  match k with
  | FlushK r rest after => release_delivered now r rest after v o
  | AcquireK a forkedFrom edgeId => fork_acquired now (en_uuid e) (en_full e) a forkedFrom edgeId v o
  | SubOffsetK a forkedFrom edgeId g =>
      fork_sub_offset_read now (en_uuid e) (en_full e) a forkedFrom edgeId g v o
  | IntentK i rest => intent_acquired now i rest v o
  | InheritedK s => inherited_read (do_id p) now (en_rnd e) (get_batch (do_id p) now (en_rnd e)) s v o
  end.

Definition run_job (e : Env) (j : Job) (o : Object) : Object * Turn :=
  match j with
  | CreateForkJob a forkedFrom => createFork (en_now e) (en_uuid e) a forkedFrom o
  | IntentsJob => processForkIntents o
  end.

(** Some task of [p] holds the lock. *)
Definition lock_held (p : string) (w : World) : bool :=
  existsb (fun kv => String.eqb (tk_path kv.2) p && tk_locked kv.2) (map_to_list (tasks w)).

(** A turn of a task that goes on. *)
Definition go_on (e : Env) (id : nat) (t : Task) (locked : bool) (f : Object -> Object * Turn) (w : World)
    : World * Output :=
  end_turn id (tk_path t) (tk_origin t) locked (proceed e (f (object_of (tk_path t) w)))
    (upd_tasks (delete id) w).

(** A new task. *)
Definition spawn (e : Env) (p : string) (origin : Origin) (f : Object -> Object * Turn) (w : World)
    : World * Output :=
  end_turn (next w) p origin false (proceed e (f (object_of p w)))
    (mkWorld (objects w) (tasks w) (S (next w))).

(** The promise of a waiter is settled. *)
Definition wake (e : Env) (id : nat) (t : Task) (waiter : Waiter) (offset : string) (v : WaitResult) (w : World)
    : World * Output :=
  go_on e id t false (fun o =>
    wait_result (do_id (tk_path t)) (en_now e) (en_rnd e) waiter offset v
      (mkObject (ob_tables o) (ob_alarm o) (ob_lastArmedAlarm o)
         (filter (fun x => x.1 <> id) (ob_waiters o)) (filter (fun x => x.1 <> id) (ob_settled o)))) w.

Definition step (ev : Event) (w : World) : World * Output :=
  match ev with
  | Arrive e p origin req => spawn e p Client (fetch e p origin req) w
  | AlarmFires e p => spawn e p Alarm alarm w
  | Run e id =>
      match tasks w !! id with
      | Some (mkTask p origin locked (Calling target rpc Sent k)) =>
          spawn e target (Caller id) (run_call e target rpc)
            (upd_tasks <[id := mkTask p origin locked (Calling target rpc Running k)]> w)
      | _ => (w, None)
      end
  | Resume e id =>
      match tasks w !! id with
      | Some (mkTask _ _ locked (Calling _ _ (Answered v) k) as t) =>
          go_on e id t locked (resume e (tk_path t) k v) w
      | _ => (w, None)
      end
  | Lose id =>
      match tasks w !! id with
      | Some (mkTask p origin locked (Calling target rpc (Sent | Running) k)) =>
          (upd_tasks <[id := mkTask p origin locked (Calling target rpc (Answered Thrown) k)]> w, None)
      | _ => (w, None)
      end
  | Start e id =>
      match tasks w !! id with
      | Some (mkTask _ _ _ (WaitingLock j) as t) =>
          if lock_held (tk_path t) w then (w, None) else go_on e id t true (run_job e j) w
      | _ => (w, None)
      end
  | Wake e id =>
      match tasks w !! id with
      | Some (mkTask _ _ _ (WaitingMessages waiter offset) as t) =>
          match list.head (filter (fun x => x.1 = id) (ob_settled (object_of (tk_path t) w))) with
          | Some (_, v) => wake e id t waiter offset v w
          | None => (w, None)
          end
      | _ => (w, None)
      end
  | Timeout e id =>
      match tasks w !! id with
      | Some (mkTask _ _ _ (WaitingMessages waiter offset) as t) =>
          let o := object_of (tk_path t) w in
          if bool_decide (id ∈ (ob_waiters o).*1) then
            let streamClosed := match getMetaRaw o with Some m => sm_closed m | None => false end in
            wake e id t waiter offset (mkWaitResult [] true streamClosed false) w
          else (w, None)
      | _ => (w, None)
      end
  | Written e id =>
      match tasks w !! id with
      | Some (mkTask _ _ _ (Pumping n) as t) =>
          go_on e id t false (pumpSse (do_id (tk_path t)) (en_now e) (en_rnd e) n) w
      | _ => (w, None)
      end
  | Disconnect id =>
      match tasks w !! id with
      | Some (mkTask _ _ _ (Pumping _)) => (upd_tasks (delete id) w, None)
      | _ => (w, None)
      end
  | Evict p =>
      let o := object_of p w in
      (mkWorld (<[p := mkObject (ob_tables o) (ob_alarm o) None [] []]> (objects w))
         (filter (fun kv => tk_path kv.2 <> p) (tasks w)) (next w), None)
  end.

Fixpoint run (evs : list Event) (w : World) : World * list (nat * After) :=
  match evs with
  | [] => (w, [])
  | ev :: evs =>
      let '(w, out) := step ev w in
      let '(w, outs) := run evs w in
      (w, match out with Some x => x :: outs | None => outs end)
  end.
End world.
