(* ===== verification/WorkerHandler.v ===== *)
(** * The router of the Cloudflare server
    ([packages/server-cloudflare/src/handler.ts])

    The Worker answers some requests itself - preflights, those the hook
    rejects, the reserved paths - and forwards the others to the object of their
    path, whose response it finalizes.  A hook of the user's is a function; it is
    awaited, but nothing is shared with what runs meanwhile. *)

From S2P Require Import Prelude Offsets Text PathEncoding Http.
Local Open Scope js_scope.

(** ** [Headers] of the platform: names are compared in lower case *)

Definition has_name (name : string) (kv : string * string) : bool := String.eqb (js_lower kv.1) (js_lower name).

Definition headers_has (name : string) (hs : list (string * string)) : bool := existsb (has_name name) hs.
Definition headers_delete (name : string) (hs : list (string * string)) : list (string * string) :=
  filter (fun kv => has_name name kv = false) hs.
Definition headers_set (name value : string) (hs : list (string * string)) : list (string * string) :=
  headers_delete name hs ++ [(name, value)].

(** [get] joins the values of a name. *)
Definition headers_get (name : string) (hs : list (string * string)) : option string :=
  match filter (fun kv => has_name name kv = true) hs with
  | [] => None
  | found => Some (join ", " (snd <$> found))
  end.

(** ** Options *)

Definition CORS_HEADERS : list (string * string) :=
  [("access-control-allow-origin", "*");
   ("access-control-allow-methods", "GET, POST, PUT, DELETE, HEAD, OPTIONS");
   ("access-control-allow-headers", "content-type, authorization, If-None-Match, Stream-Seq, Stream-TTL, Stream-Expires-At, Stream-Closed, Producer-Id, Producer-Epoch, Producer-Seq, Stream-Forked-From, Stream-Fork-Offset, Stream-Fork-Sub-Offset");
   ("access-control-expose-headers", "Stream-Next-Offset, Stream-Cursor, Stream-Up-To-Date, Stream-Closed, Producer-Epoch, Producer-Seq, Producer-Expected-Seq, Producer-Received-Seq, etag, content-type, content-encoding, vary");
   ("x-content-type-options", "nosniff");
   ("cross-origin-resource-policy", "cross-origin")]%string.

Record StreamsHandlerOptions := mkStreamsHandlerOptions {
  ho_auth : option (Request -> option Response);
  ho_cors : option bool;
}.

(** [env.AUTH_TOKEN] is an argument. *)
Definition defaultAuth (AUTH_TOKEN : option string) (request : Request) : option Response :=
  match AUTH_TOKEN with
  | None => None
  | Some token =>
      if String.eqb token EmptyString then None
      else if bool_decide (req_header "authorization" request = Some ("Bearer " +:+ token)) then None
      else Some (mkResponse 401 TEXT_PLAIN (encode_text "Unauthorized"))
  end.

(** ** The handler *)

(** What becomes of a request: a response, or the object it goes to and what is
    made of the object's response. *)
Inductive Routed :=
| Answer (r : Response)
| Forward (streamPath : string) (finish : Response -> Response).

Section handler.
Context (options : StreamsHandlerOptions) (AUTH_TOKEN : option string).

Definition corsEnabled : bool := negb (bool_decide (ho_cors options = Some false)).
Definition cors : list (string * string) := if corsEnabled then CORS_HEADERS else [].
Definition auth (request : Request) : option Response :=
  match ho_auth options with Some hook => hook request | None => defaultAuth AUTH_TOKEN request end.

(** A rejection gets the headers it does not have. *)
Definition reject (rejection : Response) : Response :=
  mkResponse (rs_status rejection)
    (foldl (fun hs kv => if headers_has kv.1 hs then hs else headers_set kv.1 kv.2 hs) (rs_headers rejection) cors)
    (rs_body rejection).

Definition authActive : bool :=
  match ho_auth options with Some _ => true | None => truthy AUTH_TOKEN end.

Definition publiclyCacheable (response : Response) : bool :=
  includes "public" (or_else (headers_get "cache-control" (rs_headers response)) EmptyString).

(** After [stub.fetch]. *)
Definition finalize (response : Response) : Response :=
  let public := publiclyCacheable response in
  if corsEnabled && negb (authActive && public) then response
  else
    let headers :=
      if corsEnabled then rs_headers response
      else
        headers_delete "access-control-expose-headers" (headers_delete "access-control-allow-headers"
          (headers_delete "access-control-allow-methods" (headers_delete "access-control-allow-origin"
             (rs_headers response)))) in
    let headers := if authActive && public then headers_set "cache-control" "no-store" headers else headers in
    mkResponse (rs_status response) headers (rs_body response).

Definition streams_handler (request : Request) : Routed :=
  if String.eqb (rq_method request) "OPTIONS" then Answer (mkResponse 204 cors [])
  else
    match auth request with
    | Some rejection => Answer (reject rejection)
    | None =>
        let streamPath := rq_path request in
        if ends_with "/__ds" streamPath || includes "/__ds/" streamPath then
          Answer (mkResponse 404 (cors ++ TEXT_PLAIN) (encode_text "Subscription APIs are not supported"))
        else if String.eqb streamPath "/" || String.eqb streamPath EmptyString then
          Answer (mkResponse 200 (cors ++ TEXT_PLAIN)
                    (encode_text "Durable Streams server. Streams live at /<path>."))
        else Forward streamPath finalize
    end.
End handler.

(** ** Lemmas on headers *)

Lemma headers_get_filter name hs hs' :
  filter (fun kv => has_name name kv = true) hs = filter (fun kv => has_name name kv = true) hs' ->
  headers_get name hs = headers_get name hs'.
Proof. intros E. unfold headers_get. by rewrite E. Qed.

Lemma headers_get_delete_ne name name' hs :
  js_lower name <> js_lower name' -> headers_get name (headers_delete name' hs) = headers_get name hs.
Proof.
  intros Hne. apply headers_get_filter. unfold headers_delete. rewrite list_filter_filter.
  apply list_filter_iff. intros [k v]. unfold has_name. cbn [fst]. rewrite !String.eqb_eq, String.eqb_neq.
  split; [tauto|]. intros E. split; [done|]. congruence.
Qed.

Lemma headers_get_delete name hs : headers_get name (headers_delete name hs) = None.
Proof.
  unfold headers_get, headers_delete. rewrite list_filter_filter.
  rewrite filter_false_nil; [done|]. apply list.Forall_forall. intros x _ [? ?]. congruence.
Qed.

Lemma headers_get_set name value hs : headers_get name (headers_set name value hs) = Some value.
Proof.
  unfold headers_get, headers_set. rewrite list.filter_app.
  unfold headers_delete. rewrite list_filter_filter, (filter_false_nil _ hs).
  2:{ apply list.Forall_forall. intros x _ [? ?]. congruence. }
  rewrite filter_cons_True; [done|]. unfold has_name. cbn. apply String.eqb_refl.
Qed.

Lemma truthy_some t : t <> EmptyString -> truthy (Some t) = true.
Proof. intros Ht. unfold truthy. by apply negb_true_iff, String.eqb_neq. Qed.

Lemma finalize_private options AUTH_TOKEN r :
  authActive options AUTH_TOKEN = true -> publiclyCacheable (finalize options AUTH_TOKEN r) = false.
Proof.
  intros Ha. unfold finalize. rewrite Ha. cbn [andb].
  destruct (publiclyCacheable r) eqn:Hp; cbn [negb].
  - rewrite andb_false_r. unfold publiclyCacheable. cbn [rs_headers]. by rewrite headers_get_set.
  - destruct (corsEnabled options); cbn [andb]; [done|].
    unfold publiclyCacheable in *. cbn [rs_headers]. by rewrite !headers_get_delete_ne.
Qed.

(** ** The claim *)

(** With a token in the environment and no hook, nothing gets past the Worker
    without it, and what it guards is not cached in public: a request whose
    [Authorization] is not that bearer token is answered by the Worker itself,
    with 401 unless it is a preflight; one that is forwarded goes to the object
    of its path, which is not empty, and the object's response reaches the
    client with its status and body, but never with a [Cache-Control] that lets
    shared caches keep it. *)
Theorem worker_guards_streams (options : StreamsHandlerOptions) (token : string) (req : Request) :
  ho_auth options = None -> token <> EmptyString ->
  (req_header "authorization" req <> Some ("Bearer " +:+ token) ->
     exists r, streams_handler options (Some token) req = Answer r /\
       (rq_method req = "OPTIONS"%string \/ rs_status r = 401)) /\
  (forall path finish r, streams_handler options (Some token) req = Forward path finish ->
     path = rq_path req /\ path <> EmptyString /\ publiclyCacheable (finish r) = false /\
     rs_status (finish r) = rs_status r /\ rs_body (finish r) = rs_body r).
Proof.
  intros Hn Ht. unfold streams_handler, auth. rewrite Hn. cbn [defaultAuth].
  assert (Ht' : String.eqb token EmptyString = false) by (by apply String.eqb_neq). rewrite Ht'. split.
  - intros Hb. rewrite bool_decide_eq_false_2 by done.
    destruct (String.eqb (rq_method req) "OPTIONS") eqn:Ho; eexists; (split; [reflexivity|]).
    + left. by apply String.eqb_eq.
    + by right.
  - intros path finish r. destruct (String.eqb _ "OPTIONS"); [done|]. destruct (bool_decide _); [|done].
    destruct (_ || _); [done|]. destruct (String.eqb (rq_path req) "/" || _) eqn:He; [done|].
    apply orb_false_iff in He as [_ He%String.eqb_neq]. intros [= <- <-]. split_and!; try done.
    + apply finalize_private. unfold authActive. rewrite Hn. by apply truthy_some.
    + unfold finalize. by destruct (corsEnabled options && _).
    + unfold finalize. by destruct (corsEnabled options && _).
Qed.

Definition no_options : StreamsHandlerOptions := mkStreamsHandlerOptions None None.

Definition secret_request (authorization : string) : Request :=
  mkRequest "GET" "/a" [] {["authorization" := authorization]} [].

Definition cacheable_response : Response :=
  mkResponse 200 [("etag", "x"); ("cache-control", "public, max-age=60, stale-while-revalidate=300")]%string [].

Lemma worker_guards_streams_witness :
  (exists r, streams_handler no_options (Some "s"%string) (secret_request "Bearer t") = Answer r /\ rs_status r = 401) /\
  publiclyCacheable cacheable_response = true /\
  exists finish, streams_handler no_options (Some "s"%string) (secret_request "Bearer s") = Forward "/a" finish /\
    publiclyCacheable (finish cacheable_response) = false.
Proof.
  split; [|split; [reflexivity|]].
  - destruct (worker_guards_streams no_options "s" (secret_request "Bearer t")) as [Hr _]; [reflexivity|discriminate|].
    destruct Hr as (r & E & [Ho|Hs]); [vm_compute; discriminate|discriminate Ho|]. exists r. by split.
  - eexists. split; [reflexivity|].
    destruct (worker_guards_streams no_options "s" (secret_request "Bearer s")) as [_ Hf]; [reflexivity|discriminate|].
    destruct (Hf "/a"%string (finalize no_options (Some "s"%string)) cacheable_response) as (_ & _ & Hp & _); [reflexivity|].
    exact Hp.
Defined.
