(* ===== verification/CloudflareErrors.v ===== *)
(** * A refused request leaves no trace

    What a stream's object does with a request that it answers with an error. *)

From S2P Require Import Prelude Offsets Producer Text Json Types JsonInstance JsonMode StreamStore StoreLemmas StoreSteps StoreGraph ForkRead StoreTheorems Cursor PathEncoding Sse Http SqliteStore StreamObject ObjectCreate ObjectRead ObjectWrite CloudflareWorld.
Local Open Scope js_scope.

(** Only rows of producers, which have expired, are gone. *)
Definition drops_old (now : Z) (rows rows' : gmap string ProducerState) : Prop :=
  rows' ⊆ rows /\
  forall id s, rows !! id = Some s -> now - PRODUCER_STATE_TTL_MS <= ps_lastUpdated s -> rows' !! id = Some s.

Definition untouched (now : Z) (o o' : Object) : Prop :=
  exists rows, drops_old now (t_producers (ob_tables o)) rows /\ o' = upd_tables (set_producer_rows rows) o.

(** An error response comes with an object that is [untouched]. *)
Definition refuses (now : Z) (o : Object) (x : Object * Turn) : Prop :=
  forall r, x.2 = Now (Respond r) -> 400 <= rs_status r -> untouched now o x.1.

Lemma untouched_refl now o : untouched now o o.
Proof. exists (t_producers (ob_tables o)). split; [by split|]. destruct o as [[] ? ? ? ?]. done. Qed.

Lemma refuses_same now o t : refuses now o (o, t).
Proof. intros r _ _. apply untouched_refl. Qed.

Lemma refuses_ok now o o' r : rs_status r < 400 -> refuses now o (o', Now (Respond r)).
Proof. intros Hr r' [= <-] ?. lia. Qed.

Lemma refuses_other now o o' t : (forall r, t <> Now (Respond r)) -> refuses now o (o', t).
Proof. intros Ht r E. by destruct (Ht r). Qed.

#[local] Hint Resolve refuses_same refuses_ok : core.

Lemma refuses_rows now o rows t :
  drops_old now (t_producers (ob_tables o)) rows -> refuses now o (upd_tables (set_producer_rows rows) o, t).
Proof. intros Hr r _ _. by exists rows. Qed.

Section handlers.
Context `{!JsonLib} `{!DateLib}.

(** The record, if there is one, has not expired. *)
Definition in_time (now : Z) (o : Object) : Prop := forall m, getMetaRaw o = Some m -> isExpired m now = false.

Lemma getMeta_in_time now o :
  in_time now o -> getMeta now o = (o, match getMetaRaw o with Some m => inl m | None => inr [] end).
Proof. unfold in_time, getMeta. intros Ht. destruct (getMetaRaw o) as [m|]; [|done]. by rewrite (Ht m). Qed.

Lemma refuses_with_meta now absent gone k o :
  in_time now o -> (forall m, getMetaRaw o = Some m -> refuses now o (k m o)) -> refuses now o (with_meta now absent gone k o).
Proof.
  intros Ht Hk. unfold with_meta. rewrite getMeta_in_time by done. destruct (getMetaRaw o) as [m|]; [|apply refuses_same].
  destruct (sm_softDeleted m); [apply refuses_same|by apply Hk].
Qed.

(** *** GET *)

Lemma get_response_status id now rnd g ms up o : rs_status (get_response id now rnd g ms up o) < 400.
Proof. unfold get_response. by destruct (bool_decide _). Qed.
#[local] Hint Resolve get_response_status : core.

Lemma refuses_poll id now rnd g off res o o' : refuses now o (poll_result id now rnd g off res o').
Proof.
  unfold poll_result. destruct (_ && _); [by apply refuses_ok|]. destruct (wr_timedOut res); [by apply refuses_ok|].
  by apply refuses_ok.
Qed.

Lemma refuses_wait_result id now rnd w off res o o' : refuses now o (wait_result id now rnd w off res o').
Proof.
  destruct w as [g|s]; [apply refuses_poll|]. cbn. unfold sse_result. destruct (_ && _); [by apply refuses_other|].
  destruct (wr_timedOut res); [|by apply refuses_other]. destruct (sse_meta _ _); [|by apply refuses_other].
  apply refuses_other. by destruct (sm_closed _).
Qed.

Lemma refuses_wait_rest id now rnd w off o o' : refuses now o (wait_rest id now rnd w off o').
Proof.
  unfold wait_rest. destruct (0 <? _)%nat; [apply refuses_wait_result|].
  destruct (getMetaRaw o') as [m|]; [|apply refuses_wait_result]. destruct (_ && _); [apply refuses_wait_result|].
  by apply refuses_other.
Qed.

Lemma refuses_wait id now rnd w o o' : refuses now o (waitForMessages id now rnd w o').
Proof.
  unfold waitForMessages. destruct (getMetaRaw _) as [m|]; [|apply refuses_wait_rest].
  destruct (sm_forkedFrom m), (sm_forkOffset m); try apply refuses_wait_rest.
  destruct (_ && _); [by apply refuses_other|]. destruct (String.eqb _ _); [by apply refuses_other|].
  apply refuses_wait_rest.
Qed.

Lemma refuses_get_batch id now rnd g b o o' : refuses now o (get_batch id now rnd g b o').
Proof.
  unfold get_batch. destruct (_ && _); [|by apply refuses_ok]. destruct (sm_closed _); [by apply refuses_ok|].
  apply refuses_wait.
Qed.

Lemma refuses_handleGet id now rnd req o : in_time now o -> refuses now o (handleGet id now rnd req o).
Proof.
  intros Ht. apply refuses_with_meta; [done|]. intros m _. destruct (parse_get req); [apply refuses_same|].
  cbn zeta. destruct (is_live _ "sse"); [by apply refuses_other|]. destruct (_ && _); [by apply refuses_ok|].
  unfold readStitched. destruct (inherits (sa_meta _) (sa_afterOffset _) (sa_capOffset _)) as [[? ?]|]; [by apply refuses_other|]. apply refuses_get_batch.
Qed.

(** *** POST *)

Lemma validate_drops now p t t' r :
  validate now p t = (t', r) -> exists rows, drops_old now (t_producers t) rows /\ t' = set_producer_rows rows t.
Proof.
  unfold validate, getProducerState, Cloudflare.getProducerState. intros [= <- _]. eexists.
  split; [|reflexivity]. split; [apply map_filter_subseteq|]. intros id s Hs Hf.
  apply map_lookup_filter_Some. split; [done|]. cbn. lia.
Qed.

Lemma refuses_post_commit now full a proposed m payload o o' :
  refuses now o (o', Now Throw) -> refuses now o (post_commit now full a proposed m payload o').
Proof.
  intros Hthrow. unfold post_commit. destruct (appendMessage _ _ _ _ _) as [[t off]|]; [|done].
  apply refuses_ok. cbn. by destruct (po_producer a).
Qed.

Lemma refuses_post_append now full a ct body m o : refuses now o (post_append now full a ct body m o).
Proof.
  unfold post_append. destruct (match sm_contentType m with Some _ => _ | None => _ end); [apply refuses_same|].
  set (validated := match po_producer a with Some pr => let '(t, r) := validate now pr (ob_tables o) in _ | None => _ end).
  assert (Hv : untouched now o validated.1).
  { unfold validated. destruct (po_producer a) as [pr|]; [|apply untouched_refl].
    destruct (validate now pr (ob_tables o)) as [t r] eqn:Ev. apply validate_drops in Ev as (rows & Hr & ->).
    by exists rows. }
  destruct validated as [o' result]. cbn [fst] in Hv.
  assert (Hsame : forall t, refuses now o (o', t)) by by intros t r _ _.
  assert (Hrest : forall proposed, refuses now o (
    if match po_seq a, sm_lastSeq m with Some seq, Some lastSeq => negb (String.ltb lastSeq seq) | _, _ => false end
    then (o', Now (Respond (text_ 409 "Sequence conflict" [])))
    else match post_payload m body with
         | Err r => (o', Now (Respond r))
         | Ok payload => post_commit now full a proposed m payload o'
         end)).
  { intros proposed. destruct (match po_seq a with Some _ => _ | None => _ end); [apply Hsame|].
    destruct (post_payload m body); [|apply Hsame]. apply refuses_post_commit, Hsame. }
  destruct result as [[pr [st|r]]|]; [apply Hrest|apply Hsame|apply Hrest].
Qed.

Lemma refuses_closeOnly now pr o : in_time now o -> refuses now o (handleCloseOnly now pr o).
Proof.
  intros Ht. apply refuses_with_meta; [done|]. intros m _. destruct pr as [pr|]; [|by apply refuses_ok].
  destruct (sm_closed m); [apply refuses_same|]. destruct (validate now pr (ob_tables o)) as [t r] eqn:Ev.
  apply validate_drops in Ev as (rows & Hr & ->).
  destruct r; [by apply refuses_ok|by apply refuses_rows..].
Qed.

Lemma refuses_handlePost now full req o : in_time now o -> refuses now o (handlePost now full req o).
Proof.
  intros Ht. unfold handlePost. destruct (readBody req) as [body|]; [|apply refuses_same].
  destruct (parse_post req) as [a|]; [|apply refuses_same]. destruct (_ && _); [by apply refuses_closeOnly|].
  destruct (_ =? _)%nat; [apply refuses_same|]. destruct (po_contentType a); [|apply refuses_same].
  apply refuses_with_meta; [done|]. intros m _. destruct (sm_closed m); [apply refuses_same|]. apply refuses_post_append.
Qed.

(** *** PUT, DELETE *)

Lemma refuses_create_plain now uuid full a o : refuses now o (create_plain now uuid full a o).
Proof.
  unfold create_plain. destruct (initial_payload _ _) as [payload|]; [|apply refuses_same].
  destruct (createMeta _ _ _) as [t|]; [|apply refuses_same].
  destruct (append_payload _ _ _ _ _) as [[t' off]|]; [by apply refuses_ok|by apply refuses_other].
Qed.

Lemma refuses_handlePut now uuid full p origin req o :
  in_time now o -> refuses now o (handlePut now uuid full p origin req o).
Proof.
  intros Ht. unfold handlePut. destruct (parse_put req) as [[c body]|]; [|apply refuses_same].
  rewrite getMeta_in_time by done. destruct (getMetaRaw o) as [m|] eqn:Hm; [apply refuses_same|].
  unfold put_continue. rewrite Hm. destruct (cc_forkedFrom _); [by apply refuses_other|]. apply refuses_create_plain.
Qed.

Lemma refuses_handleDelete now o : in_time now o -> refuses now o (handleDelete now o).
Proof.
  intros Ht. apply refuses_with_meta; [done|]. intros m _. destruct (0 <? _); [by apply refuses_ok|].
  destruct (purgeStream now m o) as [o' [|x todo]]; [by apply refuses_ok|by apply refuses_other].
Qed.

(** C23: a request that a stream's object refuses leaves no trace: whatever the
    method, the headers and the body, when the answer of the turn is an error
    (400 or more) and the record had not expired, the object is exactly as it
    was - record, messages, edges, intents, releases, alarm and waiters - but
    for rows of producers, of which some may have been dropped. *)
Theorem refused_request_leaves_no_trace (do_id : string -> string) (e : Env) (p origin : string) (req : Request)
    (o o' : Object) (r : Response) :
  (forall m, getMetaRaw o = Some m -> isExpired m (en_now e) = false) ->
  fetch do_id e p origin req o = (o', Now (Respond r)) -> 400 <= rs_status r ->
  exists rows, drops_old (en_now e) (t_producers (ob_tables o)) rows /\ o' = upd_tables (set_producer_rows rows) o.
Proof.
  intros Ht Hf Hr. fold (in_time (en_now e) o) in Ht.
  enough (refuses (en_now e) o (fetch do_id e p origin req o)) as Hn by (rewrite Hf in Hn; exact (Hn r eq_refl Hr)).
  unfold fetch. destruct (String.eqb _ "PUT"); [by apply refuses_handlePut|].
  destruct (String.eqb _ "HEAD"). { apply refuses_with_meta; [done|]. intros. apply refuses_same. }
  destruct (String.eqb _ "GET"); [by apply refuses_handleGet|].
  destruct (String.eqb _ "POST"); [by apply refuses_handlePost|].
  destruct (String.eqb _ "DELETE"); [by apply refuses_handleDelete|apply refuses_same].
Qed.
End handlers.

(** A producer's request with a gap, to a stream that has the row of an older
    producer. *)
#[local] Existing Instance integer_json.
#[local] Existing Instance decimal_date.

Definition at_clock (now : Z) : Env := mkEnv now 0 "u" false.

Definition producer_post (id seq : string) : Request :=
  mkRequest "POST" "/a" [] (list_to_map [("content-type", "text/plain"); ("producer-id", id);
    ("producer-epoch", "0"); ("producer-seq", seq)]%string) (encode_text "x").

Definition with_producer : Object :=
  (fetch (fun p => p) (at_clock 2) "/a" "" (producer_post "old" "0")
     (fetch (fun p => p) (at_clock 1) "/a" ""
        (mkRequest "PUT" "/a" [] {["content-type"%string := "text/plain"%string]} []) new_object).1).1.

Definition much_later : Env := at_clock (3 + PRODUCER_STATE_TTL_MS).

Lemma refused_request_leaves_no_trace_witness :
  exists o' r rows, fetch (fun p => p) much_later "/a" "" (producer_post "new" "7") with_producer = (o', Now (Respond r)) /\
    rs_status r = 409 /\ o' = upd_tables (set_producer_rows rows) with_producer /\
    is_Some (t_producers (ob_tables with_producer) !! "old"%string) /\ t_producers (ob_tables o') !! "old"%string = None.
Proof.
  destruct (fetch (fun p => p) much_later "/a" "" (producer_post "new" "7") with_producer) as [o' t] eqn:E.
  assert (exists r, t = Now (Respond r) /\ rs_status r = 409 /\ t_producers (ob_tables o') !! "old"%string = None)
    as (r & Ht & Hr & Hn).
  { replace o' with (fetch (fun p => p) much_later "/a" "" (producer_post "new" "7") with_producer).1 by (by rewrite E).
    replace t with (fetch (fun p => p) much_later "/a" "" (producer_post "new" "7") with_producer).2 by (by rewrite E).
    clear E. vm_compute. eexists. repeat split. }
  subst t.
  destruct (refused_request_leaves_no_trace (fun p => p) much_later "/a" "" (producer_post "new" "7") with_producer o' r)
    as (rows & _ & Ho).
  - intros m Hm.
    assert (Hx : option_map (fun m => isExpired m (en_now much_later)) (getMetaRaw with_producer) = Some false)
      by (vm_compute; reflexivity).
    rewrite Hm in Hx. injection Hx as Hx. exact Hx.
  - exact E.
  - rewrite Hr. discriminate.
  - exists o', r, rows. split; [reflexivity|]. split; [exact Hr|]. split; [exact Ho|]. split; [|exact Hn].
    vm_compute. eexists. reflexivity.
Defined.
