(* ===== verification/CloudflareInvariant.v ===== *)
(** * The streams of the objects, as one abstract store

    [abs] forgets how the Cloudflare server keeps its references: the reference
    count of a stream is the number of forks that name it.  What the lemmas
    show is how this store changes when the tables of one object do. *)

From S2P Require Import Prelude Offsets Producer Text Json Types JsonMode StreamStore StoreLemmas StoreSteps StoreGraph SqliteStore.

(** ** Views of the tables *)

Implicit Types (D : gmap string Tables) (T : Tables) (p q e : string) (U : gset string).

Definition tab D p : Tables := or_else (D !! p) empty_tables.
Definition meta_of D p : option StreamMeta := t_meta (tab D p).
Definition rows_of D p : list StreamMessage := t_messages (tab D p).
Definition edge D q e : option string := t_fork_edges (tab D q) !! e.
Definition intent D p e : option ForkIntent := t_fork_intents (tab D p) !! e.
Definition queued D p e : option GcRelease := t_gc_releases (tab D p) !! e.
Definition gen_of D p : option string := sm_generation <$> meta_of D p.

Lemma tab_insert D p T q : tab (<[p := T]> D) q = if decide (p = q) then T else tab D q.
Proof. unfold tab. rewrite lookup_insert. by case_decide. Qed.

Section same.
Context (D : gmap string Tables) (p : string) (T : Tables).

(** A table that has not changed. *)
Lemma meta_insert q : meta_of (<[p := T]> D) q = if decide (p = q) then t_meta T else meta_of D q.
Proof. unfold meta_of. rewrite tab_insert. by case_decide. Qed.
Lemma rows_insert q : rows_of (<[p := T]> D) q = if decide (p = q) then t_messages T else rows_of D q.
Proof. unfold rows_of. rewrite tab_insert. by case_decide. Qed.
Lemma edge_insert q e :
  edge (<[p := T]> D) q e = if decide (p = q) then t_fork_edges T !! e else edge D q e.
Proof. unfold edge. rewrite tab_insert. by case_decide. Qed.
Lemma intent_insert q e :
  intent (<[p := T]> D) q e = if decide (p = q) then t_fork_intents T !! e else intent D q e.
Proof. unfold intent. rewrite tab_insert. by case_decide. Qed.
Lemma queued_insert q e :
  queued (<[p := T]> D) q e = if decide (p = q) then t_gc_releases T !! e else queued D q e.
Proof. unfold queued. rewrite tab_insert. by case_decide. Qed.

Lemma meta_same q : t_meta T = meta_of D p -> meta_of (<[p := T]> D) q = meta_of D q.
Proof. intros E. rewrite meta_insert. case_decide; congruence. Qed.
Lemma rows_same q : t_messages T = rows_of D p -> rows_of (<[p := T]> D) q = rows_of D q.
Proof. intros E. rewrite rows_insert. case_decide; congruence. Qed.
Lemma edge_same q e : t_fork_edges T = t_fork_edges (tab D p) -> edge (<[p := T]> D) q e = edge D q e.
Proof. intros E. rewrite edge_insert. case_decide; [subst; by rewrite E|done]. Qed.
Lemma intent_same q e :
  t_fork_intents T = t_fork_intents (tab D p) -> intent (<[p := T]> D) q e = intent D q e.
Proof. intros E. rewrite intent_insert. case_decide; [subst; by rewrite E|done]. Qed.
Lemma queued_same q e :
  t_gc_releases T = t_gc_releases (tab D p) -> queued (<[p := T]> D) q e = queued D q e.
Proof. intros E. rewrite queued_insert. case_decide; [subst; by rewrite E|done]. Qed.
End same.

(** ** The store *)

Definition stream_view p T (m : StreamMeta) : Stream :=
  mkStream p (sm_contentType m) (t_messages T) (sm_currentOffset m) (sm_lastSeq m)
    (sm_ttlSeconds m) (sm_expiresAt m) (sm_createdAt m) (sm_lastAccessedAt m) (Some (t_producers T))
    (sm_closed m) (sm_closedBy m) (sm_forkedFrom m) (sm_forkOffset m) (sm_forkSubOffset m) 0 false.

Definition as_stream p T : option Stream := stream_view p T <$> t_meta T.

Lemma as_stream_Some p T m : t_meta T = Some m -> as_stream p T = Some (stream_view p T m).
Proof. unfold as_stream. by intros ->. Qed.

Lemma as_stream_None p T : t_meta T = None -> as_stream p T = None.
Proof. unfold as_stream. by intros ->. Qed.

Definition streams0 D : gmap string Stream := map_imap as_stream D.

(** The forks of [p]. *)
Definition forks D p : nat := children (streams0 D) p.

Definition abs D : gmap string Stream :=
  map_imap (fun p s => Some (set_refCount (Z.of_nat (forks D p)) s)) (streams0 D).

Lemma lookup_streams0 D p : streams0 D !! p = as_stream p (tab D p).
Proof. unfold streams0, tab. rewrite map_lookup_imap. by destruct (D !! p). Qed.

Lemma lookup_abs D p : abs D !! p = set_refCount (Z.of_nat (forks D p)) <$> as_stream p (tab D p).
Proof. unfold abs. rewrite map_lookup_imap, lookup_streams0. by destruct (as_stream p (tab D p)). Qed.

Lemma forks_sources D D' p :
  (forall q, sm_forkedFrom <$> meta_of D' q = sm_forkedFrom <$> meta_of D q) -> forks D' p = forks D p.
Proof.
  intros E. apply children_sources. intros q. rewrite !lookup_streams0. specialize (E q).
  unfold meta_of, as_stream in *. by destruct (t_meta (tab D' q)), (t_meta (tab D q)).
Qed.

Lemma forks_abs D p : children (abs D) p = forks D p.
Proof.
  apply children_sources. intros q. rewrite lookup_abs, lookup_streams0.
  by destruct (as_stream q (tab D q)).
Qed.

Lemma abs_meta D p s :
  abs D !! p = Some s ->
  exists m, meta_of D p = Some m /\ forkedFrom s = sm_forkedFrom m /\ forkOffset s = sm_forkOffset m /\
    currentOffset s = sm_currentOffset m /\ messages s = rows_of D p /\ closed s = sm_closed m /\
    refCount s = Z.of_nat (forks D p) /\ softDeleted s = false.
Proof.
  rewrite lookup_abs. unfold as_stream, meta_of, rows_of. destruct (t_meta (tab D p)) as [m|]; [|done].
  cbn. intros [= <-]. by exists m.
Qed.

Lemma meta_abs D p m : meta_of D p = Some m -> is_Some (abs D !! p).
Proof. rewrite lookup_abs. unfold meta_of, as_stream. intros ->. cbn. by eexists. Qed.

Lemma abs_none D p : meta_of D p = None -> abs D !! p = None.
Proof. rewrite lookup_abs. unfold meta_of, as_stream. by intros ->. Qed.

Lemma forks_zero D p :
  (forall q m, meta_of D q = Some m -> sm_forkedFrom m <> Some p) -> forks D p = 0%nat.
Proof.
  intros Hno. unfold forks, children. apply map_size_empty_iff, map_empty. intros q.
  apply map_lookup_filter_None. right. intros s. rewrite lookup_streams0. unfold as_stream.
  destruct (t_meta (tab D q)) as [m|] eqn:E; [|done]. intros [= <-]. by apply (Hno q m).
Qed.

(** ** How it changes *)

Section change.
Context (D : gmap string Tables) (p : string) (T : Tables).
Notation D' := (<[p := T]> D).

Lemma abs_same : as_stream p T = as_stream p (tab D p) -> abs D' = abs D.
Proof.
  intros E. apply map_eq. intros q. rewrite !lookup_abs.
  assert (forks D' q = forks D q) as ->.
  { apply children_sources. intros r. rewrite !lookup_streams0, tab_insert. case_decide; [|done].
    subst. by rewrite E. }
  rewrite tab_insert. case_decide; [|done]. subst. by rewrite E.
Qed.

(** The stream at [p] changes, but not where it was forked from. *)
Lemma abs_replace s s' :
  as_stream p (tab D p) = Some s -> as_stream p T = Some s' -> forkedFrom s' = forkedFrom s ->
  let n := Z.of_nat (forks D p) in
  abs D !! p = Some (set_refCount n s) /\ abs D' = <[p := set_refCount n s']> (abs D).
Proof.
  intros Hs Hs' Hf n. split; [by rewrite lookup_abs, Hs|].
  assert (Hforks : forall q, forks D' q = forks D q).
  { intros q. apply children_sources. intros r. rewrite !lookup_streams0, tab_insert.
    case_decide; [|done]. subst. rewrite Hs, Hs'. cbn. by rewrite Hf. }
  apply map_eq. intros q. rewrite lookup_insert, !lookup_abs, Hforks, tab_insert.
  case_decide; [|done]. subst. by rewrite Hs'.
Qed.

Lemma streams0_delete : as_stream p T = None -> streams0 D' = delete p (streams0 D).
Proof.
  intros E. apply map_eq. intros q. rewrite lookup_delete, !lookup_streams0, tab_insert.
  case_decide; [by subst|done].
Qed.

Lemma streams0_insert s : as_stream p T = Some s -> streams0 D' = <[p := s]> (streams0 D).
Proof.
  intros E. apply map_eq. intros q. rewrite lookup_insert, !lookup_streams0, tab_insert.
  case_decide; [by subst|done].
Qed.

(** A stream without forks goes. *)
Lemma abs_delete s :
  graph_ok (abs D) -> as_stream p (tab D p) = Some s -> forks D p = 0%nat -> as_stream p T = None ->
  abs D' = cascade p (abs D).
Proof.
  intros Hg Hs Hz HT. rewrite cascade_unfold, lookup_abs, Hs. cbn [fmap option_fmap option_map]. cbn zeta.
  assert (Hforks : forall q, forks D q =
    ((if decide (forkedFrom s = Some q) then 1 else 0) + forks D' q)%nat).
  { intros q. unfold forks. rewrite (streams0_delete HT). apply children_delete.
    by rewrite lookup_streams0. }
  assert (Hdel : forall q, abs D' !! q = (if decide (p = q) then None
    else set_refCount (Z.of_nat (forks D' q)) <$> as_stream q (tab D q))).
  { intros q. rewrite lookup_abs, tab_insert. case_decide; [subst; by rewrite HT|done]. }
  assert (Hff : forkedFrom (set_refCount (Z.of_nat (forks D p)) s) = forkedFrom s) by done.
  rewrite Hff. clear Hff.
  assert (Hplain : forkedFrom s = None -> abs D' = delete p (abs D)).
  { intros E. apply map_eq. intros q. rewrite Hdel, lookup_delete, lookup_abs, (Hforks q), E.
    by rewrite (decide_False (P := None = Some q)) by done. }
  destruct (forkedFrom s) as [q|] eqn:Hq; cbn [truthy or_else]; [|by apply Hplain].
  destruct (graph_parent _ Hg p (set_refCount (Z.of_nat (forks D p)) s) q) as [Hne [u Hu]];
    [by rewrite lookup_abs, Hs|done|].
  assert (Hpq : p <> q) by (intros <-; specialize (Hforks p); rewrite decide_True in Hforks by done; lia).
  rewrite (proj2 (String.eqb_neq q EmptyString)) by done. cbn [negb].
  rewrite lookup_delete_ne, Hu by done.
  destruct (abs_meta D q u Hu) as (_ & _ & _ & _ & _ & _ & _ & Hr & Hsd).
  rewrite Hsd, andb_false_r. apply map_eq. intros i. rewrite Hdel, lookup_alter, !lookup_delete.
  pose proof (Hforks i) as Hi. destruct (decide (q = i)) as [<-|Hqi].
  - rewrite (decide_False (P := p = q)), (decide_False (P := p = q)), lookup_abs by done.
    rewrite lookup_abs in Hu. destruct (as_stream q (tab D q)) as [v|]; [|done].
    injection Hu as <-. rewrite decide_True in Hi by done. cbn [refCount set_refCount fmap option_fmap option_map].
    replace (Z.max 0 (Z.of_nat (forks D q) - 1)) with (Z.of_nat (forks D' q)) by lia. done.
  - rewrite decide_False in Hi by (intros [=]; congruence). case_decide; [done|]. by rewrite lookup_abs, Hi.
Qed.

(** A new stream, and the reference it takes when it is a fork. *)
Lemma abs_insert s :
  graph_ok (abs D) -> as_stream p (tab D p) = None -> as_stream p T = Some s ->
  abs D !! p = None /\
  match forkedFrom s with
  | None => abs D' = <[p := set_refCount 0 s]> (abs D)
  | Some q => forall src, abs D !! q = Some src ->
      abs D' = <[p := set_refCount 0 s]> (<[q := set_refCount (refCount src + 1) src]> (abs D))
  end.
Proof.
  intros Hg Hs HT. assert (Hnone : abs D !! p = None) by (by rewrite lookup_abs, Hs). split; [done|].
  assert (Hforks : forall q, forks D' q =
    ((if decide (forkedFrom s = Some q) then 1 else 0) + forks D q)%nat).
  { intros q. unfold forks. rewrite (streams0_insert s HT). apply children_insert_new.
    by rewrite lookup_streams0. }
  pose proof (children_absent _ p Hg Hnone) as Hz. rewrite forks_abs in Hz.
  destruct (forkedFrom s) as [q|] eqn:Hq; [intros src Hsrc|];
    apply map_eq; intros i; rewrite lookup_insert, !lookup_abs, tab_insert, Hforks.
  - assert (Hpq : p <> q) by (intros <-; congruence). destruct (decide (p = i)) as [<-|Hpi].
    + rewrite HT. rewrite (decide_False (P := Some q = Some p)) by congruence. by rewrite Hz.
    + rewrite lookup_insert. destruct (decide (q = i)) as [<-|Hqi].
      * rewrite (decide_True (P := Some q = Some q)) by done. rewrite lookup_abs in Hsrc.
        destruct (as_stream q (tab D q)) as [v|]; [|done]. injection Hsrc as <-.
        cbn [refCount set_refCount fmap option_fmap option_map].
        replace (Z.of_nat (forks D q) + 1) with (Z.of_nat (1 + forks D q)) by lia. done.
      * rewrite (decide_False (P := Some q = Some i)) by congruence. by rewrite lookup_abs.
  - destruct (decide (p = i)) as [<-|Hpi].
    + rewrite HT, (decide_False (P := None = Some p)), Hz by done. done.
    + rewrite (decide_False (P := None = Some i)) by done. done.
Qed.
End change.

(** * The fork protocol between the objects

    A fork names a source that another object owns, and the two can only talk.
    [tables_ok] is what holds of the tables of all objects between two turns;
    [evolve] is what a turn of one object may do to what the others rely on.
    Each statement of a turn is shown to keep the first and to be one of the
    second. *)

(** ** The invariant *)

(** [p] holds the edge [e], or is about to: it is announced, or its record names it. *)
Definition holds D p e : Prop :=
  is_Some (intent D p e) \/ exists m, meta_of D p = Some m /\ sm_forkEdgeId m = Some e.

(** The id has been drawn, and is done with. *)
Definition dead U D e : Prop := e ∈ U /\ forall p, ~ holds D p e.

(** The reference [e] at [q]: its offset, and the generation it is for. *)
Definition granted D q e fo g : Prop := edge D q e = Some fo /\ gen_of D q = Some g.

(** What a fork's record names is there. *)
Definition fork_ok D (m : StreamMeta) : Prop :=
  match sm_forkedFrom m with
  | Some q => exists e g fo, sm_forkEdgeId m = Some e /\ sm_forkSourceGen m = Some g /\
                sm_forkOffset m = Some fo /\ granted D q e fo g
  | None => sm_forkEdgeId m = None /\ sm_forkOffset m = None
  end.

(** A release that is still to be delivered is for an id that is done with,
    and if the edge is there, for its generation. *)
Definition release_ok U D e (r : GcRelease) : Prop :=
  dead U D e /\
  forall fo, edge D (gc_parentPath r) e = Some fo -> gc_sourceGen r = gen_of D (gc_parentPath r).

(** [p] answers for the edge [e] at [q]: by an intent, a record, or a release. *)
Definition accounts D p e q : Prop :=
  (exists i, intent D p e = Some i /\ in_parentPath i = q) \/
  (exists m, meta_of D p = Some m /\ sm_forkEdgeId m = Some e /\ sm_forkedFrom m = Some q) \/
  (exists r, queued D p e = Some r /\ gc_parentPath r = q).

Record tables_ok U D : Prop := {
  ok_store : store_ok (abs D);
  ok_path : forall p m, meta_of D p = Some m -> p <> EmptyString;
  ok_rows : forall p, meta_of D p = None -> rows_of D p = [];
  ok_edge : forall q e fo, edge D q e = Some fo ->
    e ∈ U /\ wf_offset fo /\
    exists m, meta_of D q = Some m /\ String.ltb (sm_currentOffset m) fo = false;
  ok_fork : forall p m, meta_of D p = Some m -> fork_ok D m;
  ok_unique : forall p p' e, holds D p e -> holds D p' e -> p = p';
  ok_intent : forall p e i, intent D p e = Some i ->
    e ∈ U /\ forall m, meta_of D p = Some m -> sm_forkEdgeId m <> Some e;
  ok_queued : forall p e r, queued D p e = Some r -> release_ok U D e r;
  ok_params : forall p e i, intent D p e = Some i -> in_forkedFrom i = in_parentPath i;
  ok_accounted : forall q e fo, edge D q e = Some fo -> exists p, accounts D p e q;
}.

(** ** What the others rely on

    A turn of [p], which has the lock of [p] if [lk]; [acq] is the edge it has
    been asked for. *)
Record evolve p (lk : bool) (acq : option string) U D U' D' : Prop := {
  ev_ids : U ⊆ U';
  ev_dead : forall e, dead U D e -> dead U' D' e;
  ev_edge : forall q e fo, edge D q e = Some fo ->
    edge D' q e = Some fo /\ gen_of D' q = gen_of D q \/ dead U' D' e /\ edge D' q e = None;
  ev_absent : forall q e, edge D q e = None ->
    edge D' q e = None \/ acq = Some e /\ ~ dead U D e;
  ev_intent : forall p' e i, intent D p' e = Some i -> intent D' p' e = Some i \/ p' = p /\ lk = true;
  ev_queued : forall p' e r, queued D' p' e = Some r -> queued D p' e = Some r \/ ~ dead U D e;
}.

Lemma evolve_refl p lk acq U D : evolve p lk acq U D U D.
Proof. split; auto. Qed.

Lemma evolve_trans p lk acq U0 D0 U1 D1 U2 D2 :
  evolve p lk acq U0 D0 U1 D1 -> evolve p lk acq U1 D1 U2 D2 -> evolve p lk acq U0 D0 U2 D2.
Proof.
  intros [H1 H2 H3 H4 H5 H6] [K1 K2 K3 K4 K5 K6]. split.
  - by etrans.
  - auto.
  - intros q e fo Hq. destruct (H3 q e fo Hq) as [[Hq' E]|[Hd Hn]].
    + destruct (K3 q e fo Hq') as [[? E']|?]; [left; split; [done|congruence]|by right].
    + right. split; [by apply K2|]. by destruct (K4 q e Hn) as [?|[_ ?]].
  - intros q e Hq. destruct (H4 q e Hq) as [Hn|?]; [|by right].
    destruct (K4 q e Hn) as [?|[? Hd]]; [by left|right; split; [done|auto]].
  - intros p' e i Hi. destruct (H5 p' e i Hi) as [Hi'|?]; [by apply K5|by right].
  - intros p' e r Hr. destruct (K6 p' e r Hr) as [Hr'|Hd]; [by apply H6|auto].
Qed.
