(* ===== verification/CloudflareMoves.v ===== *)
(** * The statements of a turn keep the fork protocol

    A statement changes the tables of the one object whose turn it is.  Each
    lemma is for one of them: what it needs, and that it keeps the invariant, is
    a step of the abstract store, and takes nothing from the other objects. *)

From S2P Require Import Prelude Offsets Producer Text Json Types JsonMode StreamStore StoreLemmas StoreSteps StoreGraph SqliteStore CloudflareInvariant.

Implicit Types (D : gmap string Tables) (U : gset string) (T : Tables) (p q e : string).

Record move p (lk : bool) (acq : option string) U D U' T : Prop := {
  mv_ok : tables_ok U' (<[p := T]> D);
  mv_evolve : evolve p lk acq U D U' (<[p := T]> D);
  mv_steps : steps true (Some p) (abs D) (abs (<[p := T]> D));
}.

Lemma move_trans p lk acq U0 D U1 T1 U2 T2 :
  move p lk acq U0 D U1 T1 -> move p lk acq U1 (<[p := T1]> D) U2 T2 -> move p lk acq U0 D U2 T2.
Proof.
  intros [H1 H2 H3] [K1 K2 K3]. rewrite insert_insert_eq in K1, K2, K3. split; [done| |].
  - by eapply evolve_trans.
  - by etransitivity.
Qed.

(** ** Records that keep their references *)

Definition same_refs (m m' : StreamMeta) : Prop :=
  sm_generation m' = sm_generation m /\ sm_forkedFrom m' = sm_forkedFrom m /\
  sm_forkOffset m' = sm_forkOffset m /\ sm_forkEdgeId m' = sm_forkEdgeId m /\
  sm_forkSourceGen m' = sm_forkSourceGen m /\
  forall fo, wf_offset fo -> String.ltb (sm_currentOffset m) fo = false ->
    String.ltb (sm_currentOffset m') fo = false.

(** Nothing but the record, the rows and the producers changes. *)
Record quiet T T' : Prop := {
  qt_edges : t_fork_edges T' = t_fork_edges T;
  qt_intents : t_fork_intents T' = t_fork_intents T;
  qt_releases : t_gc_releases T' = t_gc_releases T;
  qt_meta : match t_meta T, t_meta T' with
            | Some m, Some m' => same_refs m m'
            | None, None => t_messages T' = t_messages T
            | _, _ => False
            end;
}.

Lemma same_refs_refl m : same_refs m m.
Proof. by repeat split. Qed.

Lemma fork_ok_mono D D' m m' :
  same_refs m m' ->
  (forall q e fo g, sm_forkedFrom m = Some q -> sm_forkEdgeId m = Some e ->
     granted D q e fo g -> granted D' q e fo g) -> fork_ok D m -> fork_ok D' m'.
Proof.
  intros (_ & E1 & E2 & E3 & E4 & _) Hg. unfold fork_ok. rewrite E1, E2, E3, E4.
  destruct (sm_forkedFrom m) as [q|]; [|done].
  intros (e & g & fo & He & Hgn & Hfo & Hgr). exists e, g, fo. split_and!; auto.
Qed.

Section moves.
Context (U : gset string) (D : gmap string Tables) (p : string).
Hypothesis Hok : tables_ok U D.
Notation T0 := (tab D p).

Lemma edge_id e m : meta_of D p = Some m -> sm_forkEdgeId m = Some e ->
  exists q g fo, sm_forkedFrom m = Some q /\ sm_forkSourceGen m = Some g /\
    sm_forkOffset m = Some fo /\ granted D q e fo g.
Proof using Hok.
  intros Hm He. pose proof (ok_fork _ _ Hok p m Hm) as Hf. unfold fork_ok in Hf.
  destruct (sm_forkedFrom m) as [q|]; [|by destruct Hf; congruence].
  destruct Hf as (e' & g & fo & ? & ? & ? & ?). exists q, g, fo. naive_solver.
Qed.

Lemma holds_known q e : holds D q e -> e ∈ U.
Proof using Hok.
  intros [[i Hi]|(m & Hm & He)]; [by eapply ok_intent|].
  pose proof (ok_fork _ _ Hok q m Hm) as Hf. unfold fork_ok in Hf.
  destruct (sm_forkedFrom m) as [r|]; [|by destruct Hf; congruence].
  destruct Hf as (e' & g & fo & He' & _ & _ & [Hg _]). rewrite He in He'. injection He' as <-.
  by eapply ok_edge.
Qed.

Lemma quiet_meta T q :
  quiet T0 T ->
  match meta_of D q, meta_of (<[p := T]> D) q with
  | Some m, Some m' => same_refs m m'
  | None, None => True
  | _, _ => False
  end.
Proof.
  intros [_ _ _ Hm]. rewrite meta_insert. case_decide as E.
  - destruct E. unfold meta_of. by destruct (t_meta T0), (t_meta T).
  - destruct (meta_of D q); [apply same_refs_refl|done].
Qed.

Lemma move_quiet lk acq T :
  quiet T0 T -> steps true (Some p) (abs D) (abs (<[p := T]> D)) -> move p lk acq U D U T.
Proof using Hok.
  intros HT Hsteps. set (D' := <[p := T]> D) in *.
  assert (He : forall q e, edge D' q e = edge D q e) by (intros; apply edge_same, HT).
  assert (Hi : forall q e, intent D' q e = intent D q e) by (intros; apply intent_same, HT).
  assert (Hq : forall q e, queued D' q e = queued D q e) by (intros; apply queued_same, HT).
  pose proof (fun q => quiet_meta T q HT) as Hm. fold D' in Hm.
  assert (Hgen : forall q, gen_of D' q = gen_of D q).
  { intros q. specialize (Hm q). unfold gen_of. destruct (meta_of D q), (meta_of D' q); [|done..].
    cbn. f_equal. by destruct Hm as [-> _]. }
  assert (Hid : forall q e, (exists m, meta_of D' q = Some m /\ sm_forkEdgeId m = Some e) <->
                            exists m, meta_of D q = Some m /\ sm_forkEdgeId m = Some e).
  { intros q e. specialize (Hm q). destruct (meta_of D q) as [m|], (meta_of D' q) as [m'|]; [|done..].
    destruct Hm as (_ & _ & _ & E & _). split; intros (? & [= <-] & ?); eexists; (split; [done|congruence]). }
  assert (Hholds : forall q e, holds D' q e <-> holds D q e).
  { intros q e. unfold holds. by rewrite Hi, Hid. }
  assert (Hdead : forall e, dead U D' e <-> dead U D e).
  { intros e. unfold dead. by setoid_rewrite Hholds. }
  assert (Hback : forall q m', meta_of D' q = Some m' -> exists m, meta_of D q = Some m /\ same_refs m m').
  { intros q m' E. specialize (Hm q). rewrite E in Hm. destruct (meta_of D q); [by eexists|done]. }
  enough (tables_ok U D' /\ evolve p lk acq U D U D') as [] by by split.
  split; split.
  - eapply store_ok_steps, Hsteps. apply Hok.
  - intros q m' (m & E & _)%Hback. by eapply ok_path.
  - intros q E. unfold D'. rewrite rows_insert. case_decide as Hpq.
    + destruct Hpq. assert (E1 : t_meta T = None).
      { rewrite <-E. unfold D'. by rewrite meta_insert, decide_True. }
      clear E. rename E1 into E.
      pose proof (qt_meta _ _ HT) as Hmt. rewrite E in Hmt. destruct (t_meta T0) eqn:E0; [done|].
      rewrite Hmt. by apply (ok_rows _ _ Hok).
    + apply (ok_rows _ _ Hok). specialize (Hm q). rewrite E in Hm.
      by destruct (meta_of D q).
  - intros q e fo. rewrite He. intros E. destruct (ok_edge _ _ Hok q e fo E) as (? & Hw & m & Em & Hc).
    split_and!; [done..|]. specialize (Hm q). rewrite Em in Hm. destruct (meta_of D' q) as [m'|]; [|done].
    exists m'. split; [done|]. by apply Hm.
  - intros q m' (m & Em & Hs)%Hback. eapply fork_ok_mono, (ok_fork _ _ Hok q m Em); [done|].
    unfold granted. intros. by rewrite He, Hgen.
  - intros q r e. rewrite !Hholds. apply (ok_unique _ _ Hok).
  - intros q e i. rewrite Hi. intros E. destruct (ok_intent _ _ Hok q e i E) as [? Hne]. split; [done|].
    intros m' (m & Em & (_ & _ & _ & -> & _))%Hback. by apply Hne.
  - intros q e r. rewrite Hq. intros [Hd Hr]%(ok_queued _ _ Hok). split; [by apply Hdead|].
    intros fo. rewrite He, Hgen. apply Hr.
  - intros q e i. rewrite Hi. apply (ok_params _ _ Hok).
  - intros q e fo. rewrite He. intros E. destruct (ok_accounted _ _ Hok q e fo E) as [r Hr].
    exists r. unfold accounts in *. setoid_rewrite Hi. setoid_rewrite Hq.
    destruct Hr as [?|[(m & Em & Ee & Ef)|?]]; [by left| |by right; right]. right. left.
    specialize (Hm r). rewrite Em in Hm. destruct (meta_of D' r) as [m'|]; [|done].
    exists m'. destruct Hm as (_ & -> & _ & -> & _). done.
  - done.
  - intros e. by rewrite Hdead.
  - intros q e fo. rewrite He, Hgen. auto.
  - intros q e. rewrite He. auto.
  - intros q e i. rewrite Hi. auto.
  - intros q e r. rewrite Hq. auto.
Qed.

(** ** The record and its rows *)

(** [m'] is [m] but for bookkeeping. *)
Definition kept_fields (m m' : StreamMeta) : Prop :=
  same_refs m m' /\ sm_currentOffset m' = sm_currentOffset m /\
  (sm_closed m = true -> sm_closed m' = true).

Lemma move_book lk acq T m m' :
  t_meta T0 = Some m -> t_meta T = Some m' -> kept_fields m m' -> t_messages T = t_messages T0 ->
  t_fork_edges T = t_fork_edges T0 -> t_fork_intents T = t_fork_intents T0 ->
  t_gc_releases T = t_gc_releases T0 -> move p lk acq U D U T.
Proof using Hok.
  intros Hm Hm' (Hr & Hc & Hcl) Hrows He Hi Hq. apply move_quiet.
  { split; [done..|]. by rewrite Hm, Hm'. }
  destruct Hr as (_ & Hf & Hfo & _).
  destruct (abs_replace D p T (stream_view p T0 m) (stream_view p T m')) as [Ha Hd];
    [by apply as_stream_Some..|done|].
  rewrite Hd. apply rtc_once. eapply step_book; [exact Ha|]. unfold bookkeeping. cbn.
  rewrite Hrows, Hc, Hf, Hfo. split_and!; auto.
Qed.

Lemma move_same lk acq T :
  t_meta T = t_meta T0 -> t_messages T = t_messages T0 -> t_fork_edges T = t_fork_edges T0 ->
  t_fork_intents T = t_fork_intents T0 -> t_gc_releases T = t_gc_releases T0 -> move p lk acq U D U T.
Proof using Hok.
  intros Hm Hrows He Hi Hq. destruct (t_meta T0) as [m|] eqn:E.
  - apply (move_book lk acq T m m); first [done|by repeat split].
  - apply move_quiet; [split; [done..|by rewrite E, Hm]|]. rewrite abs_same; [apply rtc_refl|].
    unfold as_stream. by rewrite E, Hm.
Qed.

Lemma move_update lk acq f :
  (forall m, kept_fields m (f m)) -> move p lk acq U D U (update_meta f T0).
Proof using Hok.
  intros Hf. unfold update_meta. destruct (t_meta T0) as [m|] eqn:E.
  - by apply (move_book lk acq _ m (f m)).
  - apply move_same; rewrite ?E; done.
Qed.

Lemma insert_row_last r rows :
  Forall (fun x => str_lt (msg_offset x) (msg_offset r)) rows -> insert_row r rows = Some (rows ++ [r]).
Proof.
  induction 1 as [|x rows Hx Hrows IH]; [done|]. cbn [insert_row app]. unfold str_lt in Hx.
  destruct (String.eqb_spec (msg_offset r) (msg_offset x)) as [E|_].
  { rewrite E, str_ltb_irrefl in Hx. discriminate Hx. }
  rewrite (str_ltb_asym _ _ Hx), IH. done.
Qed.

Lemma stream_of m : t_meta T0 = Some m -> stream_ok (stream_view p T0 m).
Proof using Hok.
  intros Hm. assert (Hs : abs D !! p = Some (set_refCount (Z.of_nat (forks D p)) (stream_view p T0 m)))
    by (by rewrite lookup_abs, (as_stream_Some p T0 m)).
  apply (contents_stream _ (ok_contents _ (ok_store _ _ Hok)) p _ Hs).
Qed.

(** *** An append *)

Definition room_for (cur : string) (len : Z) : Prop :=
  position cur + FRAME_OVERHEAD + len <= MAX_SAFE_INTEGER.

Lemma append_rows (s : Stream) payload now :
  stream_ok s -> room_for (currentOffset s) (Z.of_nat (length payload)) ->
  let r := mkStreamMessage payload (next_offset (currentOffset s) (Z.of_nat (length payload))) now in
  insert_row r (messages s) = Some (messages s ++ [r]) /\ stream_ok (set_messages (messages s ++ [r]) (msg_offset r) s).
Proof.
  intros Hs Hroom r. split; [|by apply stream_ok_append].
  apply insert_row_last. destruct (stream_increasing s Hs) as [_ Hf]. destruct Hs as [Hb Hc].
  destruct (chain_wf _ _ _ Hb Hc) as [Hw _].
  eapply List.Forall_impl; [|exact Hf]. intros x [_ Hx]. unfold str_lt. cbn [msg_offset r].
  eapply str_le_ltb_trans; [exact Hx|]. by apply next_offset_gt; [done|lia|].
Qed.

Lemma move_append lk acq m payload now :
  t_meta T0 = Some m -> sm_closed m = false ->
  room_for (sm_currentOffset m) (Z.of_nat (length payload)) ->
  exists o T, appendMessage false (sm_currentOffset m) payload now T0 = Some (T, o) /\
    t_meta T = Some (with_currentOffset o m) /\ move p lk acq U D U T.
Proof using Hok.
  intros Hm Hcl Hroom. pose proof (stream_of m Hm) as Hs.
  destruct (append_rows _ payload now Hs Hroom) as [Hi _]. cbn [messages stream_view currentOffset] in Hi.
  unfold appendMessage. rewrite advanceOffset_next_offset, Hi.
  set (o := next_offset _ _) in *. set (r := mkStreamMessage payload o now) in *.
  eexists o, _. split; [reflexivity|]. unfold update_meta. cbn. rewrite Hm. split; [done|].
  assert (Hgt : String.ltb (sm_currentOffset m) o = true).
  { apply next_offset_gt; [|lia|done]. destruct Hs as [Hb Hc]. by eapply chain_wf. }
  apply move_quiet.
  - split; [done..|]. rewrite Hm. cbn. split_and!; try done. cbn. intros fo _ Hfo.
    apply str_ltb_asym. by eapply str_le_ltb_trans.
  - destruct (abs_replace D p (set_meta (with_currentOffset o <$> Some m) (set_rows (t_messages T0 ++ [r]) T0))
      (stream_view p T0 m) (stream_view p (set_rows (t_messages T0 ++ [r]) T0) (with_currentOffset o m)))
      as [Ha Hd]; [by apply as_stream_Some|done..|].
    cbn [fmap option_fmap option_map] in Hd. cbn. rewrite Hd. apply rtc_once.
    apply (step_append _ _ _ p _ r Ha); [done..|]. by intros _.
Qed.
End moves.

(** * Intents, edges and releases keep the fork protocol

    The statements on the three tables of the protocol, and the two that make
    and drop a whole stream. *)

Lemma lookup_insert_new {A} (k i : string) (v : A) (m : gmap string A) :
  insert_new k v m !! i = if decide (k = i) then Some (or_else (m !! k) v) else m !! i.
Proof.
  unfold insert_new. destruct (m !! k) as [x|] eqn:E.
  - case_decide; [by subst|done].
  - rewrite lookup_insert. by case_decide.
Qed.

Section moves.
Context (U : gset string) (D : gmap string Tables) (p : string).
Hypothesis Hok : tables_ok U D.
Notation T0 := (tab D p).

(** *** Nothing but one of the three tables changes *)

Section one_table.
Context (T : Tables).
Hypothesis Hmeta : t_meta T = t_meta T0.
Hypothesis Hrows : t_messages T = t_messages T0.
Hypothesis Hprods : t_producers T = t_producers T0.
Notation D' := (<[p := T]> D).

Lemma kept_store : abs D' = abs D.
Proof using Hmeta Hrows Hprods.
  apply abs_same. unfold as_stream, stream_view. by rewrite Hmeta, Hrows, Hprods.
Qed.

Lemma kept_meta q : meta_of D' q = meta_of D q.
Proof using Hmeta. by apply meta_same. Qed.

Lemma kept_gen q : gen_of D' q = gen_of D q.
Proof using Hmeta. unfold gen_of. by rewrite kept_meta. Qed.

(** The parts of the invariant that are to be shown. *)
Lemma move_tables lk acq U' :
  evolve p lk acq U D U' D' ->
  (forall q e fo, edge D' q e = Some fo ->
     e ∈ U' /\ (edge D q e = Some fo \/
       wf_offset fo /\ exists m, meta_of D q = Some m /\ String.ltb (sm_currentOffset m) fo = false)) ->
  (forall q e fo r m, meta_of D r = Some m -> sm_forkEdgeId m = Some e -> edge D q e = Some fo ->
     edge D' q e = Some fo) ->
  (forall q q' e, holds D' q e -> holds D' q' e -> q = q') ->
  (forall q e i, intent D' q e = Some i -> e ∈ U' /\ forall m, meta_of D q = Some m -> sm_forkEdgeId m <> Some e) ->
  (forall q e r, queued D' q e = Some r -> release_ok U' D' e r) ->
  (forall q e i, intent D' q e = Some i -> intent D q e = Some i \/ in_forkedFrom i = in_parentPath i) ->
  (forall q e fo, edge D' q e = Some fo -> exists r, accounts D' r e q) ->
  move p lk acq U D U' T.
Proof using Hok Hmeta Hrows Hprods.
  intros Hev He Hf Hu Hi Hq Hpar Ha. split; [|done|rewrite kept_store; apply rtc_refl]. split.
  - rewrite kept_store. apply Hok.
  - intros q m. rewrite kept_meta. apply (ok_path _ _ Hok).
  - intros q. rewrite kept_meta, rows_same by done. apply (ok_rows _ _ Hok).
  - intros q e fo E. destruct (He q e fo E) as [HU [E'|[? ?]]]; [|by rewrite kept_meta].
    rewrite kept_meta. by destruct (ok_edge _ _ Hok q e fo E').
  - intros q m. rewrite kept_meta. intros Em. pose proof (ok_fork _ _ Hok q m Em) as Hm.
    eapply fork_ok_mono, Hm; [apply same_refs_refl|]. intros r e fo g Er Ee [? ?].
    split; [by eapply Hf|by rewrite kept_gen].
  - done.
  - intros q e i. rewrite kept_meta. apply Hi.
  - done.
  - intros q e i [?|?]%Hpar; [by eapply ok_params|done].
  - done.
Qed.

Lemma kept_holds :
  t_fork_intents T = t_fork_intents T0 -> forall q e, holds D' q e <-> holds D q e.
Proof using Hmeta.
  intros Hi q e. unfold holds. rewrite kept_meta, intent_same by done. done.
Qed.

Lemma kept_dead :
  t_fork_intents T = t_fork_intents T0 -> forall e, dead U D' e <-> dead U D e.
Proof using Hmeta. intros Hi e. unfold dead. by setoid_rewrite (kept_holds Hi). Qed.
End one_table.

(** An intent is announced, under a new id. *)
Lemma move_intent_put lk acq e q fo :
  e ∉ U -> move p lk acq U D ({[e]} ∪ U) (putForkIntent e q fo T0).
Proof using Hok.
  intros He. set (T := putForkIntent e q fo T0).
  assert (Hi : forall r x, intent (<[p := T]> D) r x =
    if decide (p = r /\ e = x) then Some (mkForkIntent q q fo) else intent D r x).
  { intros r x. rewrite intent_insert. destruct (decide (p = r)) as [<-|].
    - cbn. rewrite lookup_insert_new. fold (intent D p e) (intent D p x). destruct (decide (e = x)) as [<-|].
      + rewrite decide_True by done. destruct (intent D p e) as [i|] eqn:E; [|done].
        by destruct (ok_intent _ _ Hok p e i E).
      + by rewrite decide_False by naive_solver.
    - by rewrite decide_False by naive_solver. }
  assert (Hed : forall r x, edge (<[p := T]> D) r x = edge D r x) by (intros; by apply edge_same).
  assert (Hqu : forall r x, queued (<[p := T]> D) r x = queued D r x) by (intros; by apply queued_same).
  assert (Hme : forall r, meta_of (<[p := T]> D) r = meta_of D r) by (intros; by apply meta_same).
  assert (Hgen : forall r, gen_of (<[p := T]> D) r = gen_of D r) by (intros; by apply kept_gen).
  assert (Hh : forall r x, holds (<[p := T]> D) r x -> x <> e -> holds D r x).
  { intros r x [[i Hx]|(m & Hm & Hx)] Hne.
    - rewrite Hi, decide_False in Hx by naive_solver. left. by eexists.
    - rewrite Hme in Hm. right. eauto. }
  assert (Hfresh : forall r, ~ holds D r e).
  { intros r Hr. apply He. by eapply holds_known. }
  assert (Hhe : forall r, holds (<[p := T]> D) r e -> r = p).
  { intros r Hr. destruct (decide (r = p)); [done|]. exfalso.
    destruct Hr as [[i Hx]|(m & Hm & Hx)].
    - rewrite Hi, decide_False in Hx by naive_solver. apply (Hfresh r). left. by eexists.
    - rewrite Hme in Hm. apply (Hfresh r). right. eauto. }
  assert (Hdead : forall x, dead U D x -> dead ({[e]} ∪ U) (<[p := T]> D) x).
  { intros x [Hx Hd]. split; [set_solver|]. intros r Hr. apply (Hd r), Hh; [done|]. intros ->. set_solver. }
  apply move_tables; [done..| | | | | | | |].
  - split; [set_solver|done| | | |]; intros; rewrite ?Hed, ?Hgen; auto.
    + left. rewrite Hi. destruct (decide _) as [[<- <-]|]; [|done].
      exfalso. apply (Hfresh p). left. by eexists.
    + left. by rewrite <-Hqu.
  - intros r x fo'. rewrite Hed. intros E. split; [|by left].
    destruct (ok_edge _ _ Hok r x fo' E). set_solver.
  - intros r x fo' r' m _ _. by rewrite Hed.
  - intros r r' x Hr Hr'. destruct (decide (x = e)) as [->|Hne].
    + by rewrite (Hhe r Hr), (Hhe r' Hr').
    + eapply (ok_unique _ _ Hok); eauto.
  - intros r x i. rewrite Hi. destruct (decide _) as [[<- <-]|].
    + intros _. split; [set_solver|]. intros m Hm Hx. apply (Hfresh p). right. eauto.
    + intros E. destruct (ok_intent _ _ Hok r x i E). split; [set_solver|done].
  - intros r x i. rewrite Hqu. intros [Hd Hr]%(ok_queued _ _ Hok). split; [by apply Hdead|].
    intros fo'. rewrite Hed, Hgen. apply Hr.
  - intros r x i. rewrite Hi. destruct (decide _); [intros [= <-]; by right|by left].
  - intros r x fo'. rewrite Hed. intros E. destruct (ok_accounted _ _ Hok r x fo' E) as [s Hs].
    exists s. destruct Hs as [(i & Ei & Hs)|[(m & Em & Hs)|(i & Ei & Hs)]].
    + left. exists i. split; [|done]. rewrite Hi, decide_False; [done|]. intros [<- <-].
      apply (Hfresh p). left. by eexists.
    + right; left. exists m. by rewrite Hme.
    + right; right. exists i. by rewrite Hqu.
Qed.

(** An intent is done with: its edge was not taken, or a release for it is queued. *)
Lemma move_intent_done acq e i T :
  intent D p e = Some i ->
  t_meta T = t_meta T0 -> t_messages T = t_messages T0 -> t_producers T = t_producers T0 ->
  t_fork_edges T = t_fork_edges T0 -> t_fork_intents T = delete e (t_fork_intents T0) ->
  (t_gc_releases T = t_gc_releases T0 /\ edge D (in_parentPath i) e = None \/
   exists g, t_gc_releases T = insert_new e (mkGcRelease (in_parentPath i) g) (t_gc_releases T0) /\
     forall fo, edge D (in_parentPath i) e = Some fo -> g = gen_of D (in_parentPath i)) ->
  move p true acq U D U T.
Proof using Hok.
  intros Hint Hm Hrows Hprods Hedges Hi Hcase.
  assert (HI : forall r x, intent (<[p := T]> D) r x =
    if decide (p = r /\ e = x) then None else intent D r x).
  { intros r x. rewrite intent_insert. destruct (decide (p = r)) as [<-|].
    - rewrite Hi. destruct (decide (e = x)) as [<-|].
      + by rewrite decide_True, lookup_delete_eq.
      + by rewrite decide_False, lookup_delete_ne by naive_solver.
    - by rewrite decide_False by naive_solver. }
  assert (Hed : forall r x, edge (<[p := T]> D) r x = edge D r x) by (intros; by apply edge_same).
  assert (Hme : forall r, meta_of (<[p := T]> D) r = meta_of D r) by (intros; by apply meta_same).
  assert (Hgen : forall r, gen_of (<[p := T]> D) r = gen_of D r) by (intros; by apply kept_gen).
  assert (Hholds : forall r x, holds (<[p := T]> D) r x -> holds D r x).
  { intros r x [[j Hx]|(m & Em & Hx)].
    - rewrite HI in Hx. destruct (decide _); [done|]. left. by eexists.
    - rewrite Hme in Em. right. eauto. }
  assert (Hpe : holds D p e) by (left; by eexists).
  assert (Hno : forall r, ~ holds (<[p := T]> D) r e).
  { intros r Hr. pose proof (ok_unique _ _ Hok _ _ _ (Hholds _ _ Hr) Hpe) as ->.
    destruct Hr as [[j Hx]|(m & Em & Hx)]; [by rewrite HI, decide_True in Hx|].
    rewrite Hme in Em. by destruct (ok_intent _ _ Hok p e i Hint) as [_ Hn]; apply (Hn m). }
  assert (Hdead : forall x, dead U D x -> dead U (<[p := T]> D) x).
  { intros x [Hx Hd]. split; [done|]. intros r Hr. by apply (Hd r), Hholds. }
  assert (Hqu : forall r x rel, queued (<[p := T]> D) r x = Some rel ->
    queued D r x = Some rel \/ r = p /\ x = e /\ gc_parentPath rel = in_parentPath i /\
      forall fo, edge D (in_parentPath i) e = Some fo -> gc_sourceGen rel = gen_of D (in_parentPath i)).
  { intros r x rel. rewrite queued_insert. destruct (decide (p = r)) as [<-|]; [|by left].
    destruct Hcase as [[-> _]|(g & -> & Hg)]; [by left|]. rewrite lookup_insert_new.
    fold (queued D p e) (queued D p x). destruct (decide (e = x)) as [<-|]; [|by left].
    intros [= <-]. destruct (queued D p e) as [old|]; [by left|]. by right. }
  assert (Hkeep : forall r x rel, queued D r x = Some rel -> queued (<[p := T]> D) r x = Some rel).
  { intros r x rel E. rewrite queued_insert. destruct (decide (p = r)) as [<-|]; [|done].
    destruct Hcase as [[-> _]|(g & -> & Hg)]; [done|]. rewrite lookup_insert_new.
    unfold queued in E. case_decide; [subst; by rewrite E|done]. }
  apply move_tables; [done..| | | | | | | |].
  - split; [done|done| | | |]; intros *; rewrite ?Hed, ?Hgen; auto.
    + rewrite HI. destruct (decide _) as [[<- <-]|]; auto.
    + intros [?|(-> & -> & _)]%Hqu; [by left|right]. intros [_ Hd]. by apply (Hd p).
  - intros r x fo. rewrite Hed. intros E. split; [by eapply ok_edge|by left].
  - intros r x fo r' m _ _. by rewrite Hed.
  - intros r r' x Hr Hr'. eapply (ok_unique _ _ Hok); eauto.
  - intros r x j. rewrite HI. destruct (decide _); [done|]. apply (ok_intent _ _ Hok).
  - intros r x rel [[Hd Hr]%(ok_queued _ _ Hok)|(-> & -> & Hpar & Hg)]%Hqu.
    + split; [by apply Hdead|]. intros fo. rewrite Hed, Hgen. apply Hr.
    + split; [split; [by eapply ok_intent|done]|]. intros fo. rewrite Hed, Hgen, Hpar. apply Hg.
  - intros r x j. rewrite HI. destruct (decide _); [done|by left].
  - intros r x fo. rewrite Hed. intros E. destruct (ok_accounted _ _ Hok r x fo E) as [s Hs].
    destruct (decide (p = s /\ e = x)) as [[<- <-]|Hne].
    + destruct Hs as [(j & Ej & Hs)|[(m & Em & Ee & _)|(j & Ej & Hs)]].
      * rewrite Hint in Ej. injection Ej as <-. destruct Hcase as [[_ Hn]|(g & Hg & _)]; [by subst; congruence|].
        exists p. right; right. destruct (queued D p e) as [old|] eqn:Eq.
        { exfalso. destruct (ok_queued _ _ Hok p e old Eq) as [[_ Hd] _]. by apply (Hd p). }
        exists (mkGcRelease (in_parentPath i) g). split; [|done].
        rewrite queued_insert, decide_True, Hg, lookup_insert_new, decide_True by done.
        unfold queued in Eq. by rewrite Eq.
      * destruct (ok_intent _ _ Hok p e i Hint) as [_ Hn]. by destruct (Hn m Em).
      * exfalso. destruct (ok_queued _ _ Hok p e j Ej) as [[_ Hd] _]. by apply (Hd p).
    + exists s. destruct Hs as [(j & Ej & Hs)|[(m & Em & Hs)|(j & Ej & Hs)]].
      * left. exists j. by rewrite HI, decide_False.
      * right; left. exists m. by rewrite Hme.
      * right; right. exists j. split; [by apply Hkeep|done].
Qed.

(** An edge is taken, for an intent that announces it. *)
Lemma move_edge_put lk e fo m r i :
  meta_of D p = Some m -> wf_offset fo -> String.ltb (sm_currentOffset m) fo = false ->
  intent D r e = Some i -> in_parentPath i = p -> edge D p e = None ->
  move p lk (Some e) U D U (upd_edges (insert_new e fo) T0).
Proof using Hok.
  intros Hm Hw Hc Hint Hpar Hnone. set (T := upd_edges (insert_new e fo) T0).
  assert (Hed : forall q x, edge (<[p := T]> D) q x = if decide (p = q /\ e = x) then Some fo else edge D q x).
  { intros q x. rewrite edge_insert. destruct (decide (p = q)) as [<-|].
    - cbn. rewrite lookup_insert_new. fold (edge D p e) (edge D p x). destruct (decide (e = x)) as [<-|].
      + by rewrite decide_True, Hnone.
      + by rewrite decide_False by naive_solver.
    - by rewrite decide_False by naive_solver. }
  assert (HI : forall q x, intent (<[p := T]> D) q x = intent D q x) by (intros; by apply intent_same).
  assert (Hqu : forall q x, queued (<[p := T]> D) q x = queued D q x) by (intros; by apply queued_same).
  assert (Hme : forall q, meta_of (<[p := T]> D) q = meta_of D q) by (intros; by apply meta_same).
  assert (Hgen : forall q, gen_of (<[p := T]> D) q = gen_of D q) by (intros; by apply kept_gen).
  assert (Hre : holds D r e) by (left; by eexists).
  assert (Hold : forall q x fo', edge D q x = Some fo' -> edge (<[p := T]> D) q x = Some fo').
  { intros q x fo' E. rewrite Hed, decide_False; [done|]. intros [<- <-]. congruence. }
  apply move_tables; [done..| | | | | | | |].
  - split; [done| | | | |]; intros *; rewrite ?HI, ?Hqu; auto.
    + by apply kept_dead.
    + intros E. rewrite Hed. destruct (decide _) as [[<- <-]|]; [|by left]. right.
      split; [done|]. intros [_ Hd]. by apply (Hd r).
  - intros q x fo'. rewrite Hed. destruct (decide _) as [[<- <-]|].
    + intros [= <-]. split; [by eapply ok_intent|]. right. eauto.
    + intros E. split; [by eapply ok_edge|by left].
  - intros. by apply Hold.
  - intros q q' x. rewrite !kept_holds by done. apply (ok_unique _ _ Hok).
  - intros q x j. rewrite HI. apply (ok_intent _ _ Hok).
  - intros q x rel. rewrite Hqu. intros [Hd Hr]%(ok_queued _ _ Hok). split; [by apply kept_dead|].
    intros fo'. rewrite Hed, Hgen. destruct (decide _) as [[_ <-]|]; [|apply Hr].
    destruct Hd as [_ Hd]. by destruct (Hd r).
  - intros q x j. rewrite HI. by left.
  - intros q x fo'. rewrite Hed. destruct (decide _) as [[<- <-]|]; intros E.
    + exists r. left. exists i. by rewrite HI.
    + destruct (ok_accounted _ _ Hok q x fo' E) as [s Hs]. exists s. unfold accounts.
      setoid_rewrite HI. setoid_rewrite Hqu. by setoid_rewrite Hme.
Qed.

(** An edge is given back, when its id is done with. *)
Lemma move_edge_del lk acq e : dead U D e -> move p lk acq U D U (deleteForkEdge e T0).
Proof using Hok.
  intros Hde. set (T := deleteForkEdge e T0).
  assert (Hed : forall q x, edge (<[p := T]> D) q x = if decide (p = q /\ e = x) then None else edge D q x).
  { intros q x. rewrite edge_insert. destruct (decide (p = q)) as [<-|].
    - cbn. destruct (decide (e = x)) as [<-|].
      + by rewrite decide_True, lookup_delete_eq.
      + by rewrite decide_False, lookup_delete_ne by naive_solver.
    - by rewrite decide_False by naive_solver. }
  assert (HI : forall q x, intent (<[p := T]> D) q x = intent D q x) by (intros; by apply intent_same).
  assert (Hqu : forall q x, queued (<[p := T]> D) q x = queued D q x) by (intros; by apply queued_same).
  assert (Hme : forall q, meta_of (<[p := T]> D) q = meta_of D q) by (intros; by apply meta_same).
  assert (Hgen : forall q, gen_of (<[p := T]> D) q = gen_of D q) by (intros; by apply kept_gen).
  assert (Hback : forall q x fo, edge (<[p := T]> D) q x = Some fo -> edge D q x = Some fo).
  { intros q x fo. rewrite Hed. by destruct (decide _). }
  apply move_tables; [done..| | | | | | | |].
  - split; [done| | | | |]; intros *; rewrite ?HI, ?Hqu; auto.
    + by apply kept_dead.
    + intros E. rewrite Hgen, Hed. destruct (decide _) as [[<- <-]|]; [|by left].
      right. split; [by apply kept_dead|done].
    + intros E. left. rewrite Hed. by destruct (decide _).
  - intros q x fo E%Hback. split; [by eapply ok_edge|by left].
  - intros q x fo r m Hm Hx E. rewrite Hed, decide_False; [done|]. intros [_ <-].
    destruct Hde as [_ Hd]. apply (Hd r). right. eauto.
  - intros q q' x. rewrite !kept_holds by done. apply (ok_unique _ _ Hok).
  - intros q x j. rewrite HI. apply (ok_intent _ _ Hok).
  - intros q x rel. rewrite Hqu. intros [Hd Hr]%(ok_queued _ _ Hok). split; [by apply kept_dead|].
    intros fo E%Hback. rewrite Hgen. by eapply Hr.
  - intros q x j. rewrite HI. by left.
  - intros q x fo E%Hback. destruct (ok_accounted _ _ Hok q x fo E) as [s Hs]. exists s. unfold accounts.
    setoid_rewrite HI. setoid_rewrite Hqu. by setoid_rewrite Hme.
Qed.

(** A release is delivered. *)
Lemma move_dequeue lk acq e :
  (forall r, queued D p e = Some r -> edge D (gc_parentPath r) e = None) ->
  move p lk acq U D U (dequeueGcRelease e T0).
Proof using Hok.
  intros Hgone. set (T := dequeueGcRelease e T0).
  assert (Hqu : forall q x, queued (<[p := T]> D) q x = if decide (p = q /\ e = x) then None else queued D q x).
  { intros q x. rewrite queued_insert. destruct (decide (p = q)) as [<-|].
    - cbn. destruct (decide (e = x)) as [<-|].
      + by rewrite decide_True, lookup_delete_eq.
      + by rewrite decide_False, lookup_delete_ne by naive_solver.
    - by rewrite decide_False by naive_solver. }
  assert (HI : forall q x, intent (<[p := T]> D) q x = intent D q x) by (intros; by apply intent_same).
  assert (Hed : forall q x, edge (<[p := T]> D) q x = edge D q x) by (intros; by apply edge_same).
  assert (Hme : forall q, meta_of (<[p := T]> D) q = meta_of D q) by (intros; by apply meta_same).
  assert (Hgen : forall q, gen_of (<[p := T]> D) q = gen_of D q) by (intros; by apply kept_gen).
  assert (Hback : forall q x r, queued (<[p := T]> D) q x = Some r -> queued D q x = Some r).
  { intros q x r. rewrite Hqu. by destruct (decide _). }
  apply move_tables; [done..| | | | | | | |].
  - split; [done| | | | |]; intros *; rewrite ?HI, ?Hed, ?Hgen; auto. by apply kept_dead.
  - intros q x fo. rewrite Hed. intros E. split; [by eapply ok_edge|by left].
  - intros q x fo r m _ _. by rewrite Hed.
  - intros q q' x. rewrite !kept_holds by done. apply (ok_unique _ _ Hok).
  - intros q x j. rewrite HI. apply (ok_intent _ _ Hok).
  - intros q x r [Hd Hr]%Hback%(ok_queued _ _ Hok). split; [by apply kept_dead|].
    intros fo. rewrite Hed, Hgen. apply Hr.
  - intros q x j. rewrite HI. by left.
  - intros q x fo. rewrite Hed. intros E. destruct (ok_accounted _ _ Hok q x fo E) as [s Hs]. exists s.
    unfold accounts. setoid_rewrite HI. setoid_rewrite Hme.
    destruct Hs as [?|[?|(r & Hr & Hpar)]]; [by left|by right; left|]. right; right. exists r. split; [|done].
    rewrite Hqu, decide_False; [done|]. intros [<- <-]. specialize (Hgone r Hr). congruence.
Qed.
End moves.

(** * Making and dropping a stream keeps the fork protocol

    A stream is dropped when nobody holds an edge at it; what it holds itself is
    queued for release.  A fork comes to be under the edge its intent has
    announced. *)

(** The tables after [purgeStream]. *)
Definition purged (m : StreamMeta) T : Tables :=
  match sm_forkedFrom m, sm_forkEdgeId m with
  | Some q, Some e => enqueueGcRelease e q (sm_forkSourceGen m) (purge T)
  | _, _ => purge T
  end.

Section moves.
Context (U : gset string) (D : gmap string Tables) (p : string).
Hypothesis Hok : tables_ok U D.
Notation T0 := (tab D p).

Section purge.
Context (m : StreamMeta).
Hypothesis Hm : meta_of D p = Some m.
Hypothesis Hempty : t_fork_edges T0 = ∅.
Notation D' := (<[p := purged m T0]> D).

Lemma purged_tables :
  t_meta (purged m T0) = None /\ t_messages (purged m T0) = [] /\ t_fork_edges (purged m T0) = ∅ /\
  t_fork_intents (purged m T0) = t_fork_intents T0 /\
  forall x r, t_gc_releases (purged m T0) !! x = Some r ->
    queued D p x = Some r \/ sm_forkEdgeId m = Some x /\ sm_forkedFrom m = Some (gc_parentPath r) /\
      gc_sourceGen r = sm_forkSourceGen m.
Proof using Type.
  unfold purged, purge, queued. destruct (sm_forkedFrom m) as [q|], (sm_forkEdgeId m) as [e|];
    cbn; split_and!; try done; intros x r; try (by left).
  rewrite lookup_insert_new. destruct (decide (e = x)) as [<-|]; [|by left].
  intros [= <-]. destruct (t_gc_releases T0 !! e); [by left|by right].
Qed.

Lemma purge_edge q x : edge D' q x = edge D q x.
Proof using Hempty.
  rewrite edge_insert. case_decide as E; [|done]. destruct E. destruct purged_tables as (_ & _ & -> & _).
  unfold edge. by rewrite Hempty.
Qed.

Lemma purge_no_edge x : edge D p x = None.
Proof using Hempty. unfold edge. by rewrite Hempty. Qed.

Lemma purge_meta q : meta_of D' q = if decide (p = q) then None else meta_of D q.
Proof using Type. rewrite meta_insert. by destruct purged_tables as (-> & _). Qed.

Lemma purge_intent q x : intent D' q x = intent D q x.
Proof using Type. apply intent_same. by destruct purged_tables as (_ & _ & _ & -> & _). Qed.

Lemma purge_gen q x fo : edge D q x = Some fo -> gen_of D' q = gen_of D q.
Proof using Hempty.
  intros E. unfold gen_of. rewrite purge_meta. case_decide as Hp; [|done].
  destruct Hp. by rewrite purge_no_edge in E.
Qed.

Lemma purge_holds q x : holds D' q x -> holds D q x.
Proof using Type.
  intros [[i Hi]|(m' & Hm' & Hx)].
  - rewrite purge_intent in Hi. left. by eexists.
  - rewrite purge_meta in Hm'. destruct (decide _); [done|]. right. eauto.
Qed.

Lemma purge_own e : sm_forkEdgeId m = Some e -> holds D p e /\ dead U D' e.
Proof using Hok Hm.
  intros He. assert (Hpe : holds D p e) by (right; eauto). split; [done|].
  split; [by eapply holds_known|]. intros q Hq.
  pose proof (ok_unique _ _ Hok _ _ _ (purge_holds _ _ Hq) Hpe) as ->.
  destruct Hq as [[i Hi]|(m' & Hm' & Hx)].
  - rewrite purge_intent in Hi. by destruct (ok_intent _ _ Hok p e i Hi) as [_ Hn]; apply (Hn m).
  - by rewrite purge_meta, decide_True in Hm'.
Qed.

Lemma purge_dead x : dead U D x -> dead U D' x.
Proof using Type. intros [? Hd]. split; [done|]. intros q Hq. by apply (Hd q), purge_holds. Qed.

Lemma purge_queued q x r :
  queued D' q x = Some r ->
  queued D q x = Some r \/ q = p /\ sm_forkEdgeId m = Some x /\ sm_forkedFrom m = Some (gc_parentPath r) /\
    gc_sourceGen r = sm_forkSourceGen m.
Proof using Type.
  rewrite queued_insert. case_decide as E; [|by left]. destruct E.
  destruct purged_tables as (_ & _ & _ & _ & Hq). intros [?|?]%Hq; [by left|by right].
Qed.

Lemma purge_keeps q x r : queued D q x = Some r -> queued D' q x = Some r.
Proof using Type.
  rewrite queued_insert. case_decide as E; [|done]. destruct E. unfold queued, purged.
  destruct (sm_forkedFrom m), (sm_forkEdgeId m) as [e|]; try done. cbn. rewrite lookup_insert_new.
  case_decide; [subst|done]. by intros ->.
Qed.

Lemma purge_steps fresh : steps true fresh (abs D) (abs D').
Proof using Hok Hm Hempty.
  assert (Hz : forks D p = 0%nat).
  { apply forks_zero. intros q m' Hm' Hq. pose proof (ok_fork _ _ Hok q m' Hm') as Hf.
    unfold fork_ok in Hf. rewrite Hq in Hf. destruct Hf as (e & g & fo & _ & _ & _ & Hg & _).
    by rewrite purge_no_edge in Hg. }
  rewrite (abs_delete D p (purged m T0) (stream_view p T0 m)); [|apply Hok|by apply as_stream_Some|done|].
  - apply rtc_once. eapply step_collect; [by rewrite lookup_abs, (as_stream_Some p T0 m)|]. cbn. lia.
  - apply as_stream_None, purged_tables.
Qed.

Lemma move_purge lk acq : move p lk acq U D U (purged m T0).
Proof using Hok Hm Hempty.
  assert (Hgr : forall q e fo g, granted D q e fo g -> granted D' q e fo g).
  { intros q e fo g [He Hg]. split; [by rewrite purge_edge|]. by rewrite (purge_gen q e fo). }
  split; [split|split|apply purge_steps].
  - eapply store_ok_steps, (purge_steps None). apply Hok.
  - intros q m'. rewrite purge_meta. destruct (decide _); [done|apply (ok_path _ _ Hok)].
  - intros q. rewrite purge_meta, rows_insert. case_decide; [intros _; apply purged_tables|apply (ok_rows _ _ Hok)].
  - intros q e fo. rewrite purge_edge. intros E. destruct (ok_edge _ _ Hok q e fo E) as (? & ? & m' & Hm' & ?).
    split_and!; [done..|]. exists m'. rewrite purge_meta, decide_False; [done|]. intros <-.
    by rewrite purge_no_edge in E.
  - intros q m'. rewrite purge_meta. destruct (decide _); [done|]. intros Hm'.
    eapply fork_ok_mono, (ok_fork _ _ Hok q m' Hm'); [apply same_refs_refl|]. intros. by apply Hgr.
  - intros q q' e ?%purge_holds ?%purge_holds. eapply (ok_unique _ _ Hok); eauto.
  - intros q e i. rewrite purge_intent. intros Hi. destruct (ok_intent _ _ Hok q e i Hi) as [? Hn].
    split; [done|]. intros m'. rewrite purge_meta. destruct (decide _); [done|apply Hn].
  - intros q e r [[Hd Hr]%(ok_queued _ _ Hok)|(-> & He & Hf & Hg)]%purge_queued.
    + split; [by apply purge_dead|]. intros fo. rewrite purge_edge. intros E.
      rewrite (purge_gen _ _ _ E). by eapply Hr.
    + split; [by apply purge_own|]. intros fo. rewrite purge_edge. intros E.
      rewrite (purge_gen _ _ _ E), Hg. destruct (edge_id U D p Hok e m Hm He) as (q & g & fo' & Hq & -> & _ & [_ Hgn]).
      by simplify_eq.
  - intros q e i. rewrite purge_intent. apply (ok_params _ _ Hok).
  - intros q e fo. rewrite purge_edge. intros E. destruct (ok_accounted _ _ Hok q e fo E) as [s Hs]. exists s.
    destruct Hs as [(i & Hi & Hs)|[(m' & Hm' & He & Hf)|(r & Hr & Hs)]].
    + left. exists i. by rewrite purge_intent.
    + destruct (decide (p = s)) as [<-|Hne].
      * right; right. rewrite Hm in Hm'. injection Hm' as <-. exists (mkGcRelease q (sm_forkSourceGen m)).
        split; [|done]. rewrite queued_insert, decide_True by done. unfold purged. rewrite Hf, He. cbn.
        rewrite lookup_insert_new, decide_True by done. fold (queued D p e).
        destruct (queued D p e) as [r|] eqn:Er; [|done]. exfalso.
        destruct (ok_queued _ _ Hok p e r Er) as [[_ Hd] _]. apply (Hd p). right. eauto.
      * right; left. exists m'. by rewrite purge_meta, decide_False.
    + right; right. exists r. split; [by apply purge_keeps|done].
  - done.
  - apply purge_dead.
  - intros q e fo E. left. by rewrite purge_edge, (purge_gen q e fo).
  - intros q e. rewrite purge_edge. by left.
  - intros q e i. rewrite purge_intent. by left.
  - intros q e r [?|(-> & He & _)]%purge_queued; [by left|right]. intros [_ Hd].
    apply (Hd p). right. eauto.
Qed.
End purge.

(** ** A new record *)

Section create.
Context (T : Tables) (m : StreamMeta).
Hypothesis Hnone : meta_of D p = None.
Hypothesis Hp : p <> EmptyString.
Hypothesis HT : t_meta T = Some m.
Hypothesis Hedges : t_fork_edges T = t_fork_edges T0.
Hypothesis Hrels : t_gc_releases T = t_gc_releases T0.
Hypothesis Hstream : stream_ok (stream_view p T m).
Notation D' := (<[p := T]> D).

Lemma create_no_edge x : edge D p x = None.
Proof using Hok Hnone.
  destruct (edge D p x) as [fo|] eqn:E; [|done].
  destruct (ok_edge _ _ Hok p x fo E) as (_ & _ & m' & ? & _). congruence.
Qed.

Lemma create_edge q x : edge D' q x = edge D q x.
Proof using Hedges. by apply edge_same. Qed.

Lemma create_queued q x : queued D' q x = queued D q x.
Proof using Hrels. by apply queued_same. Qed.

Lemma create_meta q : meta_of D' q = if decide (p = q) then Some m else meta_of D q.
Proof using HT. by rewrite meta_insert, HT. Qed.

Lemma create_gen q x fo : edge D q x = Some fo -> gen_of D' q = gen_of D q.
Proof using Hok Hnone HT.
  intros E. unfold gen_of. rewrite create_meta. case_decide as Hq; [|done].
  destruct Hq. by rewrite create_no_edge in E.
Qed.

(** The ids that are held stay the same. *)
Section held.
Context (lk : bool) (acq : option string).
Hypothesis Hholds : forall q x, holds D' q x <-> holds D q x.
Hypothesis Hfork : fork_ok D m.
Hypothesis Hintent : forall q x i, intent D' q x = Some i -> intent D q x = Some i /\
  (q = p -> sm_forkEdgeId m <> Some x).
Hypothesis Hlock : forall q x i, intent D q x = Some i -> intent D' q x = Some i \/ q = p /\ lk = true.
Hypothesis Haccounts : forall q x, accounts D p x q -> accounts D' p x q.
Hypothesis Hsteps : steps true (Some p) (abs D) (abs D').

Lemma create_dead x : dead U D' x <-> dead U D x.
Proof using Hholds. unfold dead. by setoid_rewrite Hholds. Qed.

Lemma create_granted q x fo g : granted D q x fo g -> granted D' q x fo g.
Proof using Hok Hnone HT Hedges.
  intros [E ?]. split; [by rewrite create_edge|]. by rewrite (create_gen _ _ _ E).
Qed.

Lemma move_create : move p lk acq U D U T.
Proof using All.
  split; [split|split|exact Hsteps].
  - eapply store_ok_steps, Hsteps. apply Hok.
  - intros q m'. rewrite create_meta. destruct (decide _) as [<-|]; [done|apply (ok_path _ _ Hok)].
  - intros q. rewrite create_meta, rows_insert. case_decide; [done|apply (ok_rows _ _ Hok)].
  - intros q x fo. rewrite create_edge. intros E. destruct (ok_edge _ _ Hok q x fo E) as (? & ? & m' & ? & ?).
    split_and!; [done..|]. exists m'. rewrite create_meta, decide_False; [done|]. congruence.
  - intros q m'. rewrite create_meta. destruct (decide _) as [<-|].
    + intros [= <-]. eapply fork_ok_mono, Hfork; [apply same_refs_refl|]. intros. by apply create_granted.
    + intros Hm'. eapply fork_ok_mono, (ok_fork _ _ Hok q m' Hm'); [apply same_refs_refl|].
      intros. by apply create_granted.
  - intros q q' x. rewrite !Hholds. apply (ok_unique _ _ Hok).
  - intros q x i [Hi Hn]%Hintent. destruct (ok_intent _ _ Hok q x i Hi) as [? Hn']. split; [done|].
    intros m'. rewrite create_meta. destruct (decide _) as [<-|]; [|apply Hn'].
    intros [= <-]. by apply Hn.
  - intros q x r. rewrite create_queued. intros [Hd Hr]%(ok_queued _ _ Hok). split; [by apply create_dead|].
    intros fo. rewrite create_edge. intros E. rewrite (create_gen _ _ _ E). by eapply Hr.
  - intros q x i [Hi _]%Hintent. by eapply ok_params.
  - intros q x fo. rewrite create_edge. intros E. destruct (ok_accounted _ _ Hok q x fo E) as [s Hs]. exists s.
    destruct (decide (p = s)) as [<-|Hne]; [by apply Haccounts|].
    unfold accounts in *. rewrite create_queued, create_meta, decide_False by done.
    assert (intent D' s x = intent D s x) as ->; [|done].
    rewrite intent_insert. by rewrite decide_False.
  - done.
  - intros x. apply create_dead.
  - intros q x fo E. left. by rewrite create_edge, (create_gen _ _ _ E).
  - intros q x. rewrite create_edge. by left.
  - apply Hlock.
  - intros q x r. rewrite create_queued. by left.
Qed.
End held.

Lemma move_create_plain lk acq :
  t_fork_intents T = t_fork_intents T0 ->
  sm_forkedFrom m = None -> sm_forkOffset m = None -> sm_forkEdgeId m = None -> move p lk acq U D U T.
Proof using Hok Hnone Hp HT Hedges Hrels Hstream.
  intros Hi Hf Hfo He. assert (HI : forall q x, intent D' q x = intent D q x) by (intros; by apply intent_same).
  apply move_create.
  - intros q x. unfold holds. rewrite HI, create_meta. case_decide as E; [|done]. destruct E.
    split; (intros [?|(m0 & E & ?)]; [by left|congruence]).
  - unfold fork_ok. by rewrite Hf.
  - intros q x i. rewrite HI. split; [done|]. congruence.
  - intros q x i. rewrite HI. auto.
  - intros q x. unfold accounts. rewrite HI, create_queued. intros [?|[(m0 & E & _)|?]]; [by left|congruence|by right; right].
  - pose proof (abs_insert D p T (stream_view p T m) (ok_graph _ (ok_store _ _ Hok))
      (as_stream_None p T0 Hnone) (as_stream_Some p T m HT)) as [Hn Ha].
    cbn [forkedFrom stream_view] in Ha. rewrite Hf in Ha. rewrite Ha.
    apply rtc_once. apply step_create; try done.
Qed.

(** A fork, under the edge that has been granted to its intent. *)
Lemma move_create_fork acq e q g fo i :
  t_fork_intents T = delete e (t_fork_intents T0) -> intent D p e = Some i -> in_parentPath i = q ->
  sm_forkedFrom m = Some q -> sm_forkOffset m = Some fo -> sm_forkEdgeId m = Some e ->
  sm_forkSourceGen m = Some g -> granted D q e fo g -> move p true acq U D U T.
Proof using Hok Hnone Hp HT Hedges Hrels Hstream.
  intros Hi Hint Hpar Hf Hfo He Hg Hgr.
  assert (HI : forall r x, intent D' r x = if decide (p = r /\ e = x) then None else intent D r x).
  { intros r x. rewrite intent_insert. destruct (decide (p = r)) as [<-|].
    - rewrite Hi. destruct (decide (e = x)) as [<-|].
      + by rewrite decide_True, lookup_delete_eq.
      + by rewrite decide_False, lookup_delete_ne by naive_solver.
    - by rewrite decide_False by naive_solver. }
  apply move_create.
  - intros r x. unfold holds. rewrite HI, create_meta. destruct (decide (p = r)) as [<-|Hne].
    + destruct (decide _) as [[_ <-]|Hx].
      * split; [intros _; left; by eexists|intros _; right; eauto].
      * split; (intros [?|(m0 & E & ?)]; [by left|]); [naive_solver|congruence].
    + by rewrite decide_False by naive_solver.
  - unfold fork_ok. rewrite Hf. exists e, g, fo. done.
  - intros r x j. rewrite HI. destruct (decide _); [done|]. intros Hj. split; [done|].
    intros -> E. naive_solver.
  - intros r x j. rewrite HI. destruct (decide _) as [[<- <-]|]; auto.
  - intros r x. unfold accounts. rewrite HI, create_queued. intros [(j & Hj & Hr)|[(m0 & E & _)|?]].
    + destruct (decide _) as [[_ <-]|].
      * right; left. exists m. rewrite create_meta, decide_True by done. split_and!; [done..|]. congruence.
      * left. eauto.
    + congruence.
    + by right; right.
  - pose proof (abs_insert D p T (stream_view p T m) (ok_graph _ (ok_store _ _ Hok))
      (as_stream_None p T0 Hnone) (as_stream_Some p T m HT)) as [Hn Ha].
    cbn [forkedFrom stream_view] in Ha. rewrite Hf in Ha. destruct Hgr as [Hgr _].
    destruct (ok_edge _ _ Hok q e fo Hgr) as (_ & _ & mq & Hmq & Hc).
    destruct (meta_abs D q mq Hmq) as [src Hsrc]. rewrite (Ha src Hsrc).
    destruct (abs_meta D q src Hsrc) as (mq' & Hmq' & _ & _ & Hcur & _). rewrite Hmq in Hmq'. injection Hmq' as <-.
    apply rtc_once. eapply (step_fork _ _ _ p _ q src fo); try done.
    + by eapply ok_path.
    + by rewrite Hcur.
Qed.
End create.
End moves.
