(* ===== verification/CloudflareHandlers.v ===== *)
(** * What a waiting task relies on

    Between its turns a task depends on what other objects do: the edge it has
    been granted stays, a refused one does not come back, the releases it
    delivers stay due.  [calling_ok] states this for each continuation;
    [calling_ok_evolve] is that no turn of another task breaks it. *)

From S2P Require Import Prelude Offsets Producer Text Json Types JsonMode StreamStore StoreLemmas StoreSteps StoreGraph Cursor PathEncoding Sse Http SqliteStore StreamObject ObjectCreate ObjectRead ObjectWrite CloudflareWorld CloudflareInvariant CloudflareMoves.

Implicit Types (D : gmap string Tables) (U : gset string) (T : Tables) (p q e : string).

(** ** Tasks *)

Definition put_ok p (a : PutArgs) : Prop :=
  p <> EmptyString /\ Z.of_nat (length (pa_body a)) <= MAX_BODY_BYTES.

(** An edge is not granted late. *)
Definition after_ok p (a : After) : Prop :=
  match a with
  | Return (Acquired (Granted _)) => False
  | AfterGetMeta a => put_ok p a
  | _ => True
  end.

Definition answer_ok D q e (st : CallState) : Prop :=
  match st with
  | Running | Answered (Acquired (Refused _)) => edge D q e = None
  | Answered (Acquired (Granted g)) => granted D q e (gr_forkOffset g) (gr_sourceGeneration g)
  | _ => True
  end.

Definition release_answer D q e (st : CallState) : Prop :=
  match st with
  | Running | Answered Released => edge D q e = None
  | _ => True
  end.

(** A release that is being delivered is the one in the table, or done. *)
Definition item_ok U D p (x : string * GcRelease) : Prop :=
  release_ok U D x.1 x.2 /\ forall r, queued D p x.1 = Some r -> r = x.2.

Definition announced D p q e : Prop := exists i, intent D p e = Some i /\ in_parentPath i = q.

Definition calling_ok U D p (lk : bool) (target : string) (rpc : Rpc) (st : CallState) (k : Kont) : Prop :=
  match k with
  | FlushK x rest after =>
      target = gc_parentPath x.2 /\ rpc = forkRelease x.1 (gc_sourceGen x.2) /\
      Forall (item_ok U D p) (x :: rest) /\ after_ok p after /\ release_answer D target x.1 st
  | AcquireK a q e =>
      lk = true /\ target = q /\ (exists off ct, rpc = forkAcquire e off ct) /\ announced D p q e /\
      put_ok p a /\ answer_ok D q e st
  | SubOffsetK a q e g =>
      lk = true /\ (exists x1 x2 x3 x4, rpc = readRange x1 x2 x3 x4) /\ announced D p q e /\ put_ok p a /\
      granted D q e (gr_forkOffset g) (gr_sourceGeneration g)
  | IntentK i rest =>
      lk = true /\ target = in_parentPath i.2 /\ (exists off ct, rpc = forkAcquire i.1 off ct) /\
      NoDup (i :: rest).*1 /\ Forall (fun j => intent D p j.1 = Some j.2) (i :: rest) /\
      answer_ok D target i.1 st
  | InheritedK _ => exists x1 x2 x3 x4, rpc = readRange x1 x2 x3 x4
  end.

Definition state_ok U D p (lk : bool) (st : TaskState) : Prop :=
  match st with
  | Calling target rpc st k => calling_ok U D p lk target rpc st k
  | WaitingLock (CreateForkJob a _) => put_ok p a
  | _ => True
  end.

Definition task_ok U D (t : Task) : Prop := state_ok U D (tk_path t) (tk_locked t) (tk_state t).

(** The edge a task has asked for. *)
Definition waits_for (k : Kont) e : Prop :=
  match k with
  | AcquireK _ _ e' => e' = e
  | IntentK i _ => i.1 = e
  | _ => False
  end.

(** ** Stability *)

Section stable.
Context (p : string) (lk : bool) (acq : option string) (U U' : gset string) (D D' : gmap string Tables).
Hypothesis Hev : evolve p lk acq U D U' D'.

Lemma edge_stays q e : edge D q e = None -> acq <> Some e -> edge D' q e = None.
Proof using Hev. intros Hn Ha. by destruct (ev_absent _ _ _ _ _ _ _ Hev q e Hn) as [?|[? _]]. Qed.

Lemma edge_stays_dead q e : edge D q e = None -> dead U D e -> edge D' q e = None.
Proof using Hev. intros Hn Ha. by destruct (ev_absent _ _ _ _ _ _ _ Hev q e Hn) as [?|[_ ?]]. Qed.

Lemma granted_stays q e fo g : granted D q e fo g -> (exists p', holds D' p' e) -> granted D' q e fo g.
Proof using Hev.
  intros [He Hg] [p' Hh]. destruct (ev_edge _ _ _ _ _ _ _ Hev q e fo He) as [[? Hgen]|[[_ Hd] _]].
  - split; [done|]. by rewrite Hgen.
  - by destruct (Hd p').
Qed.

Lemma release_ok_stays e r : release_ok U D e r -> release_ok U' D' e r.
Proof using Hev.
  intros [Hd Hr]. split; [by apply (ev_dead _ _ _ _ _ _ _ Hev)|]. intros fo He'.
  destruct (edge D (gc_parentPath r) e) as [fo0|] eqn:He.
  - destruct (ev_edge _ _ _ _ _ _ _ Hev _ _ _ He) as [[_ ->]|[_ ?]]; [by eapply Hr|congruence].
  - rewrite (edge_stays_dead _ _ He Hd) in He'. done.
Qed.

Lemma item_ok_stays p' x : item_ok U D p' x -> item_ok U' D' p' x.
Proof using Hev.
  intros [Hr Hq]. split; [by apply release_ok_stays|]. intros r Hr'.
  destruct (ev_queued _ _ _ _ _ _ _ Hev _ _ _ Hr') as [?|Hd]; [by apply Hq|]. by destruct Hr.
Qed.

Section others.
Context (p' : string) (lk' : bool).
Hypothesis Hlock : lk = true -> p' = p -> lk' = true -> False.

Lemma intent_stays e i : lk' = true -> intent D p' e = Some i -> intent D' p' e = Some i.
Proof using Hev Hlock.
  intros Hl Hi. destruct (ev_intent _ _ _ _ _ _ _ Hev _ _ _ Hi) as [?|[-> ?]]; [done|].
  by destruct Hlock.
Qed.

Lemma announced_stays q e : lk' = true -> announced D p' q e -> announced D' p' q e.
Proof using Hev Hlock. intros Hl (i & Hi & ?). exists i. split; [by apply intent_stays|done]. Qed.

Lemma announced_holds q e : announced D' p' q e -> exists r, holds D' r e.
Proof using Type. intros (i & Hi & _). exists p'. left. by eexists. Qed.

Lemma answer_ok_stays q e st :
  acq <> Some e -> (exists r, holds D' r e) -> answer_ok D q e st -> answer_ok D' q e st.
Proof using Hev.
  intros Ha Hh. destruct st as [| |[[?|g]| | |]]; cbn; try done; intros.
  - by apply edge_stays.
  - by apply edge_stays.
  - by apply granted_stays.
Qed.

Lemma calling_ok_stays target rpc st k :
  (forall e, acq = Some e -> ~ waits_for k e) ->
  calling_ok U D p' lk' target rpc st k -> calling_ok U' D' p' lk' target rpc st k.
Proof using Hev Hlock.
  intros Ha. destruct k as [x rest after|a q e|a q e g|i rest|s]; cbn.
  - intros (Ht & Hr & Hi & Hk & Hst). split_and!; try done.
    + eapply List.Forall_impl; [|exact Hi]. apply item_ok_stays.
    + apply list.Forall_cons in Hi as [[[Hd _] _] _].
      destruct st as [| |[| | |]]; cbn in *; try done; by apply edge_stays_dead.
  - intros (Hl & Ht & Hr & Hn & Hp & Hst).
    pose proof (announced_stays q e Hl Hn) as Hn'. split_and!; try done.
    apply answer_ok_stays; [intros E; by apply (Ha e)|by eapply announced_holds|done].
  - intros (Hl & Hr & Hn & Hp & Hg). pose proof (announced_stays q e Hl Hn) as Hn'.
    split_and!; try done. apply granted_stays; [done|by eapply announced_holds].
  - intros (Hl & Ht & Hr & Hnd & Hi & Hst).
    assert (Hi' : Forall (fun j => intent D' p' j.1 = Some j.2) (i :: rest)).
    { eapply List.Forall_impl; [|exact Hi]. intros j. by apply intent_stays. }
    split_and!; try done. apply answer_ok_stays; [intros E; by apply (Ha i.1)| |done].
    apply list.Forall_cons in Hi' as [Hi' _]. exists p'. left. by eexists.
  - done.
Qed.
End others.

Lemma task_ok_stays t :
  (lk = true -> tk_path t = p -> tk_locked t = true -> False) ->
  (forall e target rpc st k, acq = Some e -> tk_state t = Calling target rpc st k -> ~ waits_for k e) ->
  task_ok U D t -> task_ok U' D' t.
Proof using Hev.
  intros Hl Ha. unfold task_ok, state_ok. destruct (tk_state t) as [target rpc st k|j|g o|n]; [|done..].
  apply calling_ok_stays; [done|]. intros e E. by eapply Ha.
Qed.
End stable.

(** ** Turns *)

(** The task a turn leaves behind. *)
Definition turn_ok U D p (lk : bool) (t : Turn) : Prop :=
  match t with
  | Now a => after_ok p a
  | Await target rpc k => calling_ok U D p (lk && still_locked t) target rpc Sent k
  | AwaitLock (CreateForkJob a _) => put_ok p a
  | _ => True
  end.

(** A turn of the object [p] that keeps the invariant: [uuid] is the only id
    it may have drawn. *)
Definition good (uuid : string) U D p lk acq (r : Object * Turn) : Prop :=
  exists U', U' ⊆ {[uuid]} ∪ U /\ move p lk acq U D U' (ob_tables r.1) /\
    turn_ok U' (<[p := ob_tables r.1]> D) p lk r.2.

(** The object [o] is the one at [p]. *)
Definition at_ D p (o : Object) : Prop := ob_tables o = tab D p.

Lemma at_insert D p o : at_ (<[p := ob_tables o]> D) p o.
Proof. unfold at_. by rewrite tab_insert, decide_True. Qed.

(** A turn goes on after some statements. *)
Lemma good_after uuid U D p lk acq U1 T1 r :
  U1 ⊆ {[uuid]} ∪ U -> move p lk acq U D U1 T1 ->
  (tables_ok U1 (<[p := T1]> D) -> good uuid U1 (<[p := T1]> D) p lk acq r) -> good uuid U D p lk acq r.
Proof.
  intros HU Hm Hr. destruct (Hr (mv_ok _ _ _ _ _ _ _ Hm)) as (U2 & HU2 & Hm2 & Ht).
  rewrite insert_insert_eq in Ht. exists U2. split_and!; [set_solver| |done]. by eapply move_trans.
Qed.

Section turns.
Context (uuid : string) (U : gset string) (D : gmap string Tables) (p : string) (lk : bool) (acq : option string).
Hypothesis Hok : tables_ok U D.
Notation good := (good uuid U D p lk acq).

Lemma good_move o t T :
  ob_tables o = T -> move p lk acq U D U T -> turn_ok U (<[p := T]> D) p lk t -> good (o, t).
Proof using Type. intros <- Hm Ht. exists U. split; [clear; set_solver|by split]. Qed.

(** The tables stay as they are. *)
Lemma move_refl : move p lk acq U D U (tab D p).
Proof using Hok. by apply move_same. Qed.

Lemma good_same o t : at_ D p o -> turn_ok U (<[p := tab D p]> D) p lk t -> good (o, t).
Proof using Hok. intros Ho. apply good_move; [done|]. apply move_refl. Qed.

Lemma good_now o a : at_ D p o -> after_ok p a -> good (o, Now a).
Proof using Hok. intros. by apply good_same. Qed.
End turns.

(** * The handlers keep the fork protocol: reads, appends, deletions

    Each method of [StreamObject] is a [good] turn: a sequence of the moves of
    CloudflareMoves. *)

(** ** What alarms and waiters leave alone *)

Create HintDb objs.

Lemma tables_armAlarmAt now target o : ob_tables (armAlarmAt now target o) = ob_tables o.
Proof.
  unfold armAlarmAt. destruct (ob_lastArmedAlarm o) as [a|]; [|done]. destruct (now <? a); [|done].
  by destruct (a <=? _).
Qed.
#[export] Hint Rewrite tables_armAlarmAt : objs.

Lemma tables_resolve_all (f : string -> ReadBatch) (keep : string -> bool) l o :
  ob_tables (foldl (fun o w => if keep w.2 then resolve_waiter w.1 (f w.2) o else o) o l) = ob_tables o.
Proof.
  revert o. induction l as [|w l IH]; intros o; [done|]. cbn [foldl]. rewrite IH. by destruct (keep w.2).
Qed.

Lemma tables_notifyClosed o : ob_tables (notifyClosed o) = ob_tables o.
Proof. apply (tables_resolve_all (fun _ => mkReadBatch [] false) (fun _ => true)). Qed.
#[export] Hint Rewrite tables_notifyClosed : objs.

Lemma tables_notifyAppend o : ob_tables (notifyAppend o) = ob_tables o.
Proof.
  unfold notifyAppend. generalize (ob_waiters o) as l. intros l. revert o.
  induction l as [|w l IH]; intros o; [done|]. cbn [foldl]. rewrite IH. by destruct (_ <? _)%nat.
Qed.
#[export] Hint Rewrite tables_notifyAppend : objs.

Lemma tables_flushGcReleases now o : ob_tables (flushGcReleases now o).1 = ob_tables o.
Proof.
  unfold flushGcReleases. destruct (pendingGcReleases _); [done|]. cbn [fst]. apply tables_armAlarmAt.
Qed.
#[export] Hint Rewrite tables_flushGcReleases : objs.

Lemma flushGcReleases_items now o : (flushGcReleases now o).2 = pendingGcReleases (ob_tables o).
Proof. unfold flushGcReleases. by destruct (pendingGcReleases _). Qed.

Section dates.
Context `{!DateLib}.

Lemma tables_syncExpiryAlarm now o : ob_tables (syncExpiryAlarm now o) = ob_tables o.
Proof.
  unfold syncExpiryAlarm. destruct (getMetaRaw o); [|done]. destruct (expiryTime _); [|done].
  apply tables_armAlarmAt.
Qed.

(** The queue of a purge. *)
Lemma purgeStream_tables now m o :
  ob_tables (purgeStream now m o).1 = purged m (ob_tables o) /\
  (purgeStream now m o).2 = pendingGcReleases (purged m (ob_tables o)).
Proof.
  unfold purgeStream, purged.
  destruct (sm_forkedFrom m), (sm_forkEdgeId m); rewrite tables_flushGcReleases, flushGcReleases_items;
    cbn [upd_tables ob_tables]; unfold cancelWaiters; by rewrite tables_notifyClosed.
Qed.
End dates.
#[export] Hint Rewrite @tables_syncExpiryAlarm : objs.

Lemma edges_empty t : 0 <? forkEdgeCount t = false -> t_fork_edges t = ∅.
Proof. unfold forkEdgeCount. intros E%Z.ltb_ge. apply map_size_empty_iff. lia. Qed.

(** ** Releases that are flushed *)

Lemma pending_items U D p :
  tables_ok U D -> Forall (item_ok U D p) (pendingGcReleases (tab D p)).
Proof.
  intros Hok. apply list.Forall_forall. intros [e r] Hr%elem_of_map_to_list.
  split; [by eapply ok_queued|]. cbn. unfold queued. intros r'. cbn in Hr. congruence.
Qed.

Lemma flush_ok U D p lk todo after :
  Forall (item_ok U D p) todo -> after_ok p after -> turn_ok U D p lk (flush todo after).
Proof.
  intros Hi Ha. destruct todo as [|x rest]; [done|]. cbn. by split_and!.
Qed.

Section handlers.
Context `{!JsonLib} `{!DateLib}.
Context (uuid : string) (now : Z).

(** ** [getMeta] *)

Lemma kept_softDeleted m : kept_fields m (with_softDeleted m).
Proof. by repeat split. Qed.

Lemma purge_turn U D p lk acq m o :
  tables_ok U D -> at_ D p o -> meta_of D p = Some m -> 0 <? forkEdgeCount (ob_tables o) = false ->
  let '(o', todo) := purgeStream now m o in
  move p lk acq U D U (ob_tables o') /\ t_meta (ob_tables o') = None /\
  Forall (item_ok U (<[p := ob_tables o']> D) p) todo.
Proof.
  intros Hok Ho Hm He. unfold at_ in Ho. destruct (purgeStream_tables now m o) as [Ht Hi].
  destruct (purgeStream now m o) as [o' todo]. cbn in Ht, Hi. rewrite Ht, Hi, Ho in *.
  pose proof (move_purge U D p Hok m Hm (edges_empty _ He) lk acq) as Hmv.
  split_and!; [done|apply purged_tables|].
  pose proof (pending_items U _ p (mv_ok _ _ _ _ _ _ _ Hmv)) as Hp.
  by rewrite tab_insert, decide_True in Hp.
Qed.

Lemma getMeta_turn U D p lk acq o :
  tables_ok U D -> at_ D p o ->
  let '(o', r) := getMeta now o in
  move p lk acq U D U (ob_tables o') /\
  (forall e, edge D p e = None -> edge (<[p := ob_tables o']> D) p e = None) /\
  match r with
  | inl m => t_meta (ob_tables o') = Some m /\ (sm_softDeleted m = false -> o' = o)
  | inr todo => t_meta (ob_tables o') = None /\ Forall (item_ok U (<[p := ob_tables o']> D) p) todo
  end.
Proof.
  intros Hok Ho. unfold at_ in Ho. unfold getMeta. destruct (getMetaRaw o) as [m|] eqn:Hm; cycle 1.
  { rewrite Ho. split_and!; [by apply move_same| |by rewrite <-Ho|done].
    intros e. by rewrite edge_same. }
  unfold getMetaRaw in Hm. rewrite Ho in Hm. destruct (isExpired m now).
  - destruct (0 <? forkEdgeCount (ob_tables o)) eqn:Hc.
    + assert (sm_softDeleted (with_softDeleted m) = false -> False) as Hsd by done.
      destruct (sm_softDeleted m) eqn:Hs.
      * rewrite Ho. split_and!; [by apply move_same|intros e; by rewrite edge_same| |done].
        rewrite Hm. f_equal. destruct m. cbn in Hs. by subst.
      * cbn [ob_tables upd_tables]. unfold setSoftDeleted. rewrite Ho. split_and!; [|intros e|by unfold update_meta; cbn; rewrite Hm|done].
        -- apply move_update; [done|]. apply kept_softDeleted.
        -- by rewrite edge_same.
    + pose proof (purge_turn U D p lk acq m o Hok Ho Hm Hc) as Hp.
      destruct (purgeStream now m o) as [o' todo] eqn:Ep. destruct Hp as (Hmv & Hn & Hi).
      split_and!; [done| |done|done]. intros e _.
      destruct (edge _ p e) as [fo|] eqn:Ee; [|done].
      destruct (ok_edge _ _ (mv_ok _ _ _ _ _ _ _ Hmv) p e fo Ee) as (_ & _ & m' & Hm' & _).
      rewrite meta_insert, decide_True in Hm' by done. congruence.
  - rewrite Ho. split_and!; [by apply move_same|intros e; by rewrite edge_same|done|done].
Qed.

(** [with_meta]: the rest of the handler runs on a record that is there. *)
Lemma with_meta_good U D p lk acq absent gone k o :
  tables_ok U D -> at_ D p o -> after_ok p absent -> after_ok p gone ->
  (forall m, meta_of D p = Some m -> sm_softDeleted m = false -> good uuid U D p lk acq (k m o)) ->
  good uuid U D p lk acq (with_meta now absent gone k o).
Proof.
  intros Hok Ho Ha Hg Hk. unfold with_meta. pose proof (getMeta_turn U D p lk acq o Hok Ho) as Hget.
  destruct (getMeta now o) as [o' [m|todo]]; destruct Hget as (Hmv & _ & Hm & Hr).
  - destruct (sm_softDeleted m) eqn:Hs; [by eapply good_move|].
    rewrite Hr in Hm |- * by done. apply Hk; [|done]. unfold meta_of. by rewrite <-Ho.
  - eapply good_move; [done..|]. by apply flush_ok.
Qed.

(** ** Bookkeeping *)

Lemma kept_lastAccessedAt n m : kept_fields m (with_lastAccessedAt n m).
Proof. by repeat split. Qed.
Lemma kept_lastSeq s m : kept_fields m (with_lastSeq s m).
Proof. by repeat split. Qed.
Lemma kept_closed c m : kept_fields m (with_closed c m).
Proof. by repeat split. Qed.

(** A turn goes on after the record was updated. *)
Lemma good_book f U D p lk acq o o' r :
  tables_ok U D -> at_ D p o -> (forall m, kept_fields m (f m)) ->
  ob_tables o' = update_meta f (ob_tables o) ->
  (forall D', tables_ok U D' -> at_ D' p o' -> (forall m, meta_of D p = Some m -> meta_of D' p = Some (f m)) ->
     good uuid U D' p lk acq r) -> good uuid U D p lk acq r.
Proof.
  intros Hok Ho Hf Ho' Hr. unfold at_ in Ho. rewrite Ho in Ho'.
  eapply good_after; [|by apply (move_update U D p Hok lk acq f)|]; [set_solver|].
  intros Hok'. rewrite <-Ho' in *. apply Hr; [done|apply at_insert|].
  intros m Hm. rewrite meta_insert, decide_True by done. rewrite Ho'. unfold update_meta. cbn.
  unfold meta_of in Hm. by rewrite Hm.
Qed.

Section reads.
Context (U : gset string) (object_id : string) (rnd : Z) (p : string) (lk : bool) (acq : option string).
Implicit Types o : Object.

(** A handler that is good at any object. *)
Definition good_at (f : Object -> Object * Turn) : Prop :=
  forall D o, tables_ok U D -> at_ D p o -> good uuid U D p lk acq (f o).

Lemma good_at_now a : after_ok p a -> good_at (fun o => (o, Now a)).
Proof. intros Ha D o Hok Ho. by apply good_now. Qed.

(** The record is touched, and the alarm set. *)
Lemma good_touch n D o r :
  tables_ok U D -> at_ D p o ->
  (forall D', tables_ok U D' -> at_ D' p (syncExpiryAlarm now (upd_tables (touchAccess n) o)) ->
     good uuid U D' p lk acq r) -> good uuid U D p lk acq r.
Proof.
  intros Hok Ho Hr. eapply (good_book (with_lastAccessedAt n) _ _ _ _ _ o
    (syncExpiryAlarm now (upd_tables (touchAccess n) o))); [done..|apply kept_lastAccessedAt| |].
  - by rewrite tables_syncExpiryAlarm.
  - intros D' Hok' Ho' _. by apply Hr.
Qed.

Lemma good_poll_result g offset v : good_at (poll_result object_id now rnd g offset v).
Proof.
  intros D o Hok Ho. unfold poll_result. eapply (good_touch now); [done..|]. intros D' Hok' Ho'.
  destruct (_ && _); [|destruct (wr_timedOut v)]; by apply good_now.
Qed.

Lemma good_sse_result s v : good_at (sse_result now rnd s v).
Proof.
  intros D o Hok Ho. unfold sse_result. eapply (good_touch now); [done..|]. intros D' Hok' Ho'.
  destruct (_ && _); [by apply good_same|]. destruct (wr_timedOut v); [|by apply good_same].
  destruct (sse_meta _ _) as [m|]; [|by apply good_now]. apply good_same; [done..|]. by destruct (sm_closed m).
Qed.

Lemma good_wait_result w offset v : good_at (wait_result object_id now rnd w offset v).
Proof. destruct w as [g|s]; [apply good_poll_result|apply good_sse_result]. Qed.

Lemma good_wait_rest w offset : good_at (wait_rest object_id now rnd w offset).
Proof.
  intros D o Hok Ho. unfold wait_rest. destruct (_ <? _)%nat; [by apply good_wait_result|].
  destruct (getMetaRaw o); [|by apply good_wait_result].
  destruct (_ && _); [by apply good_wait_result|by apply good_same].
Qed.

Lemma good_sse_batch s b : good_at (sse_batch now rnd s b).
Proof.
  intros D o Hok Ho. unfold sse_batch. destruct (sse_meta _ _) as [m|]; [|by apply good_now].
  eapply (good_touch now); [done..|]. intros D' Hok' Ho'. by apply good_same.
Qed.

Lemma good_inherited_await (o : Object) D target x1 x2 x3 x4 s :
  tables_ok U D -> at_ D p o -> good uuid U D p lk acq (o, Await target (readRange x1 x2 x3 x4) (InheritedK s)).
Proof. intros Hok Ho. apply good_same; [done..|]. cbn. by exists x1, x2, x3, x4. Qed.

Lemma good_waitForMessages w : good_at (waitForMessages object_id now rnd w).
Proof.
  intros D o Hok Ho. unfold waitForMessages. destruct (getMetaRaw _) as [m|]; [|by apply good_wait_rest].
  destruct (sm_forkedFrom m), (sm_forkOffset m); try (by apply good_wait_rest).
  destruct (_ && _); [by apply good_inherited_await|].
  destruct (String.eqb _ _); [by apply good_inherited_await|by apply good_wait_rest].
Qed.

Section stitched.
Context (get : GetArgs -> ReadBatch -> Object -> Object * Turn).
Hypothesis Hget : forall g b, good_at (get g b).

Lemma good_read_done s b : good_at (read_done object_id now rnd s b get).
Proof.
  intros D o Hok Ho. unfold read_done. destruct (sa_then s).
  - by apply good_now.
  - by apply Hget.
  - by apply good_sse_batch.
  - by apply good_wait_result.
  - destruct (_ <? _)%nat; [by apply good_wait_result|by apply good_wait_rest].
Qed.

Lemma good_readStitched s : good_at (readStitched object_id now rnd get s).
Proof.
  intros D o Hok Ho. unfold readStitched. destruct (inherits _ _ _) as [[q cap]|].
  - by apply good_inherited_await.
  - by apply good_read_done.
Qed.

Lemma good_inherited_read s v : good_at (inherited_read object_id now rnd get s v).
Proof.
  intros D o Hok Ho. unfold inherited_read. destruct v as [r| |inherited|]; try (by apply good_now).
  destruct (getMetaRaw o); [|by apply good_read_done].
  destruct (negb _); [by apply good_readStitched|].
  destruct (rb_capped inherited); [by apply good_read_done|].
  destruct (match sa_limit s with Some _ => _ | None => _ end); [by apply good_read_done|].
  destruct (_ && _); by apply good_read_done.
Qed.
End stitched.

Lemma good_get_batch g b : good_at (get_batch object_id now rnd g b).
Proof.
  intros D o Hok Ho. unfold get_batch. eapply (good_touch (ga_now g)); [done..|]. intros D' Hok' Ho'.
  destruct (_ && _); [|by apply good_now].
  destruct (sm_closed (ga_meta g)); [by apply good_now|by apply good_waitForMessages].
Qed.

Lemma good_pumpSse n : good_at (pumpSse object_id now rnd n).
Proof.
  intros D o Hok Ho. destruct n as [s|s|]; cbn [pumpSse]; [| |by apply good_now].
  - unfold sse_read. destruct (sse_meta _ _); [|by apply good_now].
    by apply good_readStitched; [apply good_get_batch|..].
  - destruct (_ <=? _); [by apply good_now|by apply good_waitForMessages].
Qed.

Lemma good_handleGet req : good_at (handleGet object_id now rnd req).
Proof.
  intros D o Hok Ho. apply with_meta_good; [done..|]. intros m Hm Hs.
  destruct (parse_get req); [by apply good_now|]. cbn zeta.
  destruct (is_live (query_get "live" req) "sse"); [by apply good_now|].
  destruct (_ && _).
  - eapply (good_touch now); [done..|]. intros D' Hok' Ho'. by apply good_now.
  - by apply good_readStitched; [apply good_get_batch|..].
Qed.

Lemma good_handle_readRange a c l b : good_at (handle_readRange object_id now rnd a c l b).
Proof.
  intros D o Hok Ho. unfold handle_readRange. destruct (getMetaRaw o); [|by apply good_now].
  by apply good_readStitched; [apply good_get_batch|..].
Qed.

Lemma good_handleHead : good_at (handleHead object_id now).
Proof. intros D o Hok Ho. apply with_meta_good; [done..|]. intros m Hm Hs. by apply good_now. Qed.

Lemma good_handleDelete : good_at (handleDelete now).
Proof.
  intros D o Hok Ho. apply with_meta_good; [done..|]. intros m Hm Hs.
  destruct (0 <? _) eqn:Hc.
  - eapply (good_book with_softDeleted _ _ _ _ _ o (notifyClosed (upd_tables setSoftDeleted o)));
      [done..|apply kept_softDeleted| |].
    + by rewrite tables_notifyClosed.
    + intros D' Hok' Ho' _. by apply good_now.
  - pose proof (purge_turn U D p lk acq m o Hok Ho Hm Hc) as Hp.
    destruct (purgeStream now m o) as [o' todo]. destruct Hp as (Hmv & _ & Hi).
    eapply good_move; [done..|]. by apply flush_ok.
Qed.
End reads.
End handlers.

(** * POST keeps the fork protocol

    An append is one turn of moves: the producer's row, the message, the
    record. *)

(** No stream is about to outgrow the safe integers. *)
Definition roomy D : Prop :=
  forall p m, meta_of D p = Some m ->
    position (sm_currentOffset m) + 2 * (MAX_BODY_BYTES + FRAME_OVERHEAD) <= MAX_SAFE_INTEGER.

Section handlers.
Context `{!JsonLib} `{!DateLib}.
Context (uuid : string) (now : Z) (U : gset string) (p : string) (lk : bool) (acq : option string).
Implicit Types o : Object.
Notation good := (good uuid U).

(** A turn goes on after a statement. *)
Lemma good_then D T r :
  move p lk acq U D U T ->
  (forall D', tables_ok U D' -> tab D' p = T -> good D' p lk acq r) -> good D p lk acq r.
Proof.
  intros Hm Hr. eapply good_after; [|exact Hm|]; [set_solver|]. intros Hok'. apply Hr; [done|].
  by rewrite tab_insert, decide_True.
Qed.

Lemma good_end D o a : tables_ok U D -> at_ D p o -> after_ok p a -> good D p lk acq (o, Now a).
Proof. intros. by apply good_now. Qed.

Lemma move_rows D ps : tables_ok U D -> move p lk acq U D U (set_producer_rows ps (tab D p)).
Proof. intros Hok. by apply move_same. Qed.

Lemma validate_rows pr t t' r :
  validate now pr t = (t', r) -> exists ps, t' = set_producer_rows ps t.
Proof.
  unfold validate, getProducerState. destruct (Cloudflare.getProducerState _ _ _) as [rows state].
  intros [= <- _]. by eexists.
Qed.

Lemma good_post_commit a proposed m payload D o :
  tables_ok U D -> at_ D p o -> meta_of D p = Some m -> sm_closed m = false ->
  room_for (sm_currentOffset m) (Z.of_nat (length payload)) ->
  good D p lk acq (post_commit now false a proposed m payload o).
Proof.
  intros Hok Ho Hm Hcl Hroom. unfold at_ in Ho. unfold post_commit.
  destruct (move_append U D p Hok lk acq m payload now Hm Hcl Hroom) as (off & T1 & Ha & _ & Hmv).
  rewrite Ho, Ha. eapply good_then; [exact Hmv|]. intros D1 Hok1 H1.
  set (T2 := match po_producer a, proposed with Some pr, Some st => _ | _, _ => T1 end).
  eapply (good_then _ T2).
  { unfold T2. rewrite <-H1. destruct (po_producer a), proposed; by apply move_same. }
  intros D2 Hok2 H2. set (T3 := match po_seq a with Some seq => setLastSeq seq T2 | None => T2 end).
  eapply (good_then _ T3).
  { unfold T3. rewrite <-H2. destruct (po_seq a); [|by apply move_same].
    apply move_update; [done|]. intros. apply kept_lastSeq. }
  intros D3 Hok3 H3. set (T4 := if po_close a then setClosed _ T3 else T3). eapply (good_then _ T4).
  { unfold T4. rewrite <-H3. destruct (po_close a); [|by apply move_same].
    apply move_update; [done|]. intros. apply kept_closed. }
  intros D4 Hok4 H4. eapply (good_then _ (touchAccess now T4)).
  { rewrite <-H4. apply move_update; [done|]. intros. apply kept_lastAccessedAt. }
  intros D5 Hok5 H5. apply good_end; [done| |done]. unfold at_. rewrite H5.
  destruct (po_close a); autorewrite with objs; unfold touch; by rewrite tables_syncExpiryAlarm.
Qed.

Lemma post_payload_bound m body payload :
  Z.of_nat (length body) <= MAX_BODY_BYTES -> post_payload m body = Ok payload ->
  Z.of_nat (length payload) <= MAX_BODY_BYTES.
Proof.
  unfold post_payload. intros Hb. destruct (is_json _); [|by intros [= <-]].
  destruct (processJsonAppend body false) as [b|]; [|done].
  destruct (Z.ltb_spec MAX_BODY_BYTES (Z.of_nat (length b))); [done|]. by intros [= <-].
Qed.

Lemma good_post_append a ct body m D o :
  tables_ok U D -> at_ D p o -> meta_of D p = Some m -> sm_closed m = false ->
  position (sm_currentOffset m) + 2 * (MAX_BODY_BYTES + FRAME_OVERHEAD) <= MAX_SAFE_INTEGER ->
  Z.of_nat (length body) <= MAX_BODY_BYTES ->
  good D p lk acq (post_append now false a ct body m o).
Proof.
  intros Hok Ho Hm Hcl Hroom Hbody. unfold post_append.
  destruct (match sm_contentType m with Some _ => _ | None => _ end); [by apply good_end|].
  set (validated := match po_producer a with Some pr => let '(t, r) := validate now pr (ob_tables o) in _ | None => _ end).
  assert (Hv : exists ps, ob_tables validated.1 = set_producer_rows ps (tab D p)).
  { unfold at_ in Ho. unfold validated. destruct (po_producer a) as [pr|].
    - destruct (validate now pr (ob_tables o)) as [t r] eqn:Ev. apply validate_rows in Ev as [ps ->].
      exists ps. cbn. by rewrite Ho.
    - exists (t_producers (tab D p)). cbn. rewrite Ho. by destruct (tab D p). }
  destruct validated as [o' result]. destruct Hv as [ps Hps]. cbn in Hps.
  eapply good_then; [by apply (move_rows D ps)|]. intros D1 Hok1 H1.
  assert (Ho1 : at_ D1 p o') by (unfold at_; congruence).
  assert (Hm1 : meta_of D1 p = Some m) by (unfold meta_of; by rewrite H1).
  assert (Hrest : forall proposed, good D1 p lk acq (
    if match po_seq a, sm_lastSeq m with Some seq, Some lastSeq => negb (String.ltb lastSeq seq) | _, _ => false end
    then (o', Now (Respond (text_ 409 "Sequence conflict" [])))
    else match post_payload m body with
         | Err r => (o', Now (Respond r))
         | Ok payload => post_commit now false a proposed m payload o'
         end)).
  { intros proposed. destruct (match po_seq a with Some _ => _ | None => _ end); [by apply good_end|].
    destruct (post_payload m body) as [payload|r] eqn:Epl; [|by apply good_end].
    apply good_post_commit; [done..|]. pose proof (post_payload_bound _ _ _ Hbody Epl).
    unfold room_for, FRAME_OVERHEAD, MAX_BODY_BYTES in *. lia. }
  destruct result as [[pr [st|r]]|]; [apply Hrest|by apply good_end|apply Hrest].
Qed.

Lemma good_handleCloseOnly pr D o : tables_ok U D -> at_ D p o -> good D p lk acq (handleCloseOnly now pr o).
Proof.
  intros Hok Ho. apply with_meta_good; [done..|]. intros m Hm Hs. unfold at_ in Ho. destruct pr as [pr|].
  - destruct (sm_closed m); [by apply good_end|]. destruct (validate now pr (ob_tables o)) as [t r] eqn:Ev.
    apply validate_rows in Ev as [ps ->]. rewrite Ho. cbn zeta.
    eapply good_then; [by apply (move_rows D ps)|]. intros D1 Hok1 H1.
    destruct r as [isNew st id|?|?| |? ?|]; try (by apply good_end).
    eapply good_then; [by apply (move_rows D1 (<[id := st]> (t_producers (tab D1 p))))|].
    intros D2 Hok2 H2. eapply (good_then _ (setClosed (Some (closed_by pr)) (tab D2 p))).
    { apply move_update; [done|]. intros. apply kept_closed. }
    intros D3 Hok3 H3. eapply (good_then _ (touchAccess now (tab D3 p))).
    { apply move_update; [done|]. intros. apply kept_lastAccessedAt. }
    intros D4 Hok4 H4. apply good_end; [done| |done]. unfold at_. rewrite tables_notifyClosed.
    unfold touch. rewrite tables_syncExpiryAlarm. rewrite H4, H3, H2, H1. done.
  - eapply (good_then _ (setClosed None (tab D p))).
    { apply move_update; [done|]. intros. apply kept_closed. }
    intros D3 Hok3 H3. eapply (good_then _ (touchAccess now (tab D3 p))).
    { apply move_update; [done|]. intros. apply kept_lastAccessedAt. }
    intros D4 Hok4 H4. apply good_end; [done| |done]. unfold at_. rewrite tables_notifyClosed.
    unfold touch. rewrite tables_syncExpiryAlarm. rewrite H4, H3. cbn. by rewrite Ho.
Qed.

Lemma readBody_bound req body : readBody req = Some body -> Z.of_nat (length body) <= MAX_BODY_BYTES.
Proof.
  unfold readBody. destruct (match _ with Some length_ => MAX_BODY_BYTES <? length_ | None => false end); [done|].
  destruct (Z.ltb_spec MAX_BODY_BYTES (Z.of_nat (length (rq_body req)))); [done|]. by intros [= <-].
Qed.

Lemma good_handlePost req D o :
  tables_ok U D -> at_ D p o -> roomy D -> good D p lk acq (handlePost now false req o).
Proof.
  intros Hok Ho Hroom. unfold handlePost. destruct (readBody req) as [body|] eqn:Eb; [|by apply good_end].
  apply readBody_bound in Eb. destruct (parse_post req) as [a|r]; [|by apply good_end].
  destruct (_ && _); [by apply good_handleCloseOnly|]. destruct (_ =? _)%nat; [by apply good_end|].
  destruct (po_contentType a) as [ct|]; [|by apply good_end].
  apply with_meta_good; [done..|]. intros m Hm Hs. destruct (sm_closed m) eqn:Hcl; [by apply good_end|].
  apply good_post_append; try done. by apply (Hroom p).
Qed.
End handlers.
