(* ===== verification/CloudflareForks.v ===== *)
(** * PUT, forks and the alarm keep the fork protocol *)

From S2P Require Import Prelude Offsets Producer Text Json Types JsonMode StreamStore StoreLemmas StoreSteps StoreGraph Cursor PathEncoding Sse Http SqliteStore StreamObject ObjectCreate ObjectRead ObjectWrite CloudflareWorld CloudflareInvariant CloudflareMoves CloudflareHandlers.

Implicit Types (D : gmap string Tables) (U : gset string) (T : Tables) (p q e : string).

Lemma current_wf U D q m : tables_ok U D -> meta_of D q = Some m -> wf_offset (sm_currentOffset m).
Proof.
  intros Hok Hm. destruct (stream_of U D q Hok m Hm) as [Hb Hc]. by eapply chain_wf.
Qed.

Lemma granted_room U D q e fo g :
  tables_ok U D -> roomy D -> granted D q e fo g ->
  wf_offset fo /\ position fo + 2 * (MAX_BODY_BYTES + FRAME_OVERHEAD) <= MAX_SAFE_INTEGER.
Proof.
  intros Hok Hroom [He _]. destruct (ok_edge _ _ Hok q e fo He) as (_ & Hw & m & Hm & Hc).
  split; [done|]. pose proof (current_wf U D q m Hok Hm) as Hcw. rewrite wf_offset_ltb in Hc by done.
  apply Z.ltb_ge in Hc. specialize (Hroom q m Hm). lia.
Qed.

(** An edge is at a record. *)
Lemma no_edge U D q e : tables_ok U D -> meta_of D q = None -> edge D q e = None.
Proof.
  intros Hok Hn. destruct (edge D q e) as [fo|] eqn:E; [|done].
  destruct (ok_edge _ _ Hok q e fo E) as (_ & _ & m & ? & _). congruence.
Qed.

(** ** New rows *)

Lemma append_payload_ok p T m payload now :
  t_meta T = Some m -> stream_ok (stream_view p T m) ->
  position (sm_currentOffset m) + MAX_BODY_BYTES + FRAME_OVERHEAD <= MAX_SAFE_INTEGER ->
  (forall b, payload = Some b -> Z.of_nat (length b) <= MAX_BODY_BYTES) ->
  exists T' off, append_payload false (sm_currentOffset m) payload now T = Some (T', off) /\
    t_meta T' = Some (with_currentOffset off m) /\ stream_ok (stream_view p T' (with_currentOffset off m)) /\
    position off <= position (sm_currentOffset m) + MAX_BODY_BYTES + FRAME_OVERHEAD /\
    t_fork_edges T' = t_fork_edges T /\ t_fork_intents T' = t_fork_intents T /\
    t_gc_releases T' = t_gc_releases T.
Proof.
  intros Hm Hs Hroom Hb. unfold append_payload.
  assert (Hsame : with_currentOffset (sm_currentOffset m) m = m) by (by destruct m).
  destruct payload as [[|x b]|].
  1, 3: exists T, (sm_currentOffset m); rewrite Hsame; split_and!; try done;
    unfold FRAME_OVERHEAD, MAX_BODY_BYTES; lia.
  specialize (Hb _ eq_refl). set (b' := x :: b) in *.
  assert (Hfit : room_for (sm_currentOffset m) (Z.of_nat (length b'))) by (unfold room_for; lia).
  destruct (append_rows _ b' now Hs Hfit) as [Hi Hs']. cbn [messages stream_view currentOffset] in Hi, Hs'.
  unfold appendMessage. rewrite advanceOffset_next_offset, Hi.
  set (off := next_offset _ _) in *. eexists _, off. split; [reflexivity|].
  unfold update_meta. cbn. rewrite Hm. split_and!; try done.
  unfold off. destruct Hs as [Hbase Hch]. cbn in Hch.
  rewrite next_offset_position; [lia|by eapply chain_wf|lia|done].
Qed.

Section handlers.
Context `{!JsonLib} `{!DateLib}.
Context (uuid : string) (now : Z).
Implicit Types o : Object.
Notation good := (good uuid).

Lemma initial_payload_bound js body payload b :
  Z.of_nat (length body) <= MAX_BODY_BYTES -> initial_payload js body = Ok payload -> payload = Some b ->
  Z.of_nat (length b) <= MAX_BODY_BYTES.
Proof.
  unfold initial_payload. intros Hb. destruct (_ =? _)%nat; [by intros [= <-]|].
  destruct js; [|intros [= <-] [= <-]; done].
  destruct (processJsonAppend body true) as [x|]; [|done].
  destruct (Z.ltb_spec MAX_BODY_BYTES (Z.of_nat (length x))); [done|]. by intros [= <-] [= <-].
Qed.

(** ** A stream that is not a fork *)

Lemma good_create_plain U p lk acq a D o :
  tables_ok U D -> at_ D p o -> meta_of D p = None -> put_ok p a ->
  good U D p lk acq (create_plain now uuid false a o).
Proof.
  intros Hok Ho Hm [Hp Hbody]. unfold at_ in Ho. unfold create_plain.
  destruct (initial_payload _ (pa_body a)) as [payload|r] eqn:Epl; [|by apply good_now].
  unfold createMeta. rewrite Ho. fold (meta_of D p). rewrite Hm.
  cbn [cm_forkedFrom cm_forkOffset t_meta set_meta sm_currentOffset].
  set (m := mkStreamMeta _ _ _ _ _ _ _ _ _ _ _ _ _ _ _ _). set (T1 := set_meta (Some m) (tab D p)).
  assert (Hrows : t_messages T1 = []) by (by apply (ok_rows _ _ Hok)).
  assert (Hs1 : stream_ok (stream_view p T1 m)) by (split; [apply wf_ZERO_OFFSET|cbn; fold (rows_of D p); by rewrite (ok_rows _ _ Hok)]).
  destruct (append_payload_ok p T1 m payload (pa_now a) eq_refl Hs1) as (T' & off & Ha & Hm' & Hs' & _ & He & Hi & Hr).
  { cbn. unfold FRAME_OVERHEAD, MAX_BODY_BYTES. vm_compute. discriminate. }
  { intros b. by eapply initial_payload_bound. }
  cbn [sm_currentOffset m] in Ha. rewrite Ha. eapply good_move; [reflexivity| |done].
  rewrite tables_syncExpiryAlarm. cbn [ob_tables upd_tables].
  apply (move_create_plain U D p Hok T' (with_currentOffset off m)); done.
Qed.

Lemma good_put_continue U p lk acq a D o :
  tables_ok U D -> at_ D p o -> put_ok p a -> good U D p lk acq (put_continue now uuid false a o).
Proof.
  intros Hok Ho Ha. unfold put_continue. destruct (getMetaRaw o) as [m|] eqn:Hm; [by apply good_now|].
  unfold getMetaRaw in Hm. unfold at_ in Ho. rewrite Ho in Hm.
  destruct (cc_forkedFrom (pa_config a)); [by apply good_same|by apply good_create_plain].
Qed.

Lemma parse_put_bound req c body : parse_put req = Ok (c, body) -> Z.of_nat (length body) <= MAX_BODY_BYTES.
Proof.
  unfold parse_put. destruct (readBody req) as [b|] eqn:Eb; [|done]. apply readBody_bound in Eb.
  intros Hp. enough (body = b) as -> by done. clear Eb. revert Hp. cbn zeta.
  repeat (case_match; try done); by intros [= _ <-].
Qed.

Lemma good_handlePut U p lk acq origin req D o :
  tables_ok U D -> at_ D p o -> p <> EmptyString ->
  good U D p lk acq (handlePut now uuid false p origin req o).
Proof.
  intros Hok Ho Hp. unfold handlePut. destruct (parse_put req) as [[c body]|r] eqn:Epp; [|by apply good_now].
  apply parse_put_bound in Epp. set (a := mkPutArgs _ _ _ _ _).
  assert (Ha : put_ok p a) by done.
  pose proof (getMeta_turn now U D p lk acq o Hok Ho) as Hg.
  destruct (getMeta now o) as [o' [m|todo]]; destruct Hg as (Hmv & _ & Hr).
  - by eapply good_move.
  - destruct Hr as [Hn Hi]. destruct todo as [|x todo].
    + eapply good_then; [exact Hmv|]. intros D' Hok' HT. by apply good_put_continue.
    + eapply good_move; [done..|]. by apply flush_ok.
Qed.

(** ** The alarm *)

Lemma good_alarm_expiry U p lk acq D o :
  tables_ok U D -> at_ D p o -> good U D p lk acq (alarm_expiry now o).
Proof.
  intros Hok Ho. unfold alarm_expiry. destruct (getMetaRaw o) as [m|] eqn:Hm; [|by apply good_now].
  unfold getMetaRaw in Hm. pose proof Ho as Ho'. unfold at_ in Ho'. rewrite Ho' in Hm.
  destruct (isExpired m now).
  - destruct (0 <? _) eqn:Hc.
    + destruct (sm_softDeleted m); [by apply good_now|].
      eapply (good_book uuid with_softDeleted _ _ _ _ _ o (upd_tables setSoftDeleted o));
        [done..|apply kept_softDeleted|done|]. intros D' Hok' Ho2 _. by apply good_now.
    + pose proof (purge_turn now U D p lk acq m o Hok Ho Hm Hc) as Hp.
      destruct (purgeStream now m o) as [o' todo]. destruct Hp as (Hmv & _ & Hi).
      eapply good_move; [done..|]. by apply flush_ok.
  - apply good_now; [done| |done]. unfold at_. by rewrite tables_syncExpiryAlarm.
Qed.

(** What follows a flush goes on at once. *)
Lemma good_proceed U p lk acq D (ev : Env) r :
  tables_ok U D -> en_now ev = now -> en_uuid ev = uuid -> en_full ev = false ->
  good U D p lk acq r -> good U D p lk acq (proceed ev r).
Proof.
  intros Hok Hn Hu Hf Hr. destruct r as [o t]. unfold proceed.
  destruct t as [[| | | | |a| |]| | | |]; try done; rewrite ?Hn, ?Hu, ?Hf.
  - destruct Hr as (U' & HU & Hmv & Ht). eapply good_after; [done|exact Hmv|]. intros Hok'.
    apply good_put_continue; [done|apply at_insert|done].
  - destruct Hr as (U' & HU & Hmv & Ht). eapply good_after; [done|exact Hmv|]. intros Hok'.
    apply good_alarm_expiry; [done|apply at_insert].
Qed.

(** ** Intents *)

Lemma move_refuse U D p acq e i :
  tables_ok U D -> intent D p e = Some i -> edge D (in_parentPath i) e = None ->
  move p true acq U D U (deleteForkIntent e (tab D p)).
Proof. intros Hok Hi He. apply (move_intent_done U D p Hok acq e i); try done. by left. Qed.

Lemma move_release U D p acq e i g :
  tables_ok U D -> intent D p e = Some i ->
  (forall fo, edge D (in_parentPath i) e = Some fo -> gen_of D (in_parentPath i) = Some g) ->
  move p true acq U D U (deleteForkIntent e (enqueueGcRelease e (in_parentPath i) (Some g) (tab D p))).
Proof.
  intros Hok Hi Hg. apply (move_intent_done U D p Hok acq e i); try done. right. exists (Some g).
  split; [done|]. intros fo Hfo. symmetry. by eapply Hg.
Qed.

(** The queue of a release is flushed in the same turn. *)
Lemma good_flush U p lk acq D o after :
  tables_ok U D -> at_ D p o -> after_ok p after ->
  good U D p lk acq (let '(o, todo) := flushGcReleases now o in (o, flush todo after)).
Proof.
  intros Hok Ho Ha. pose proof (tables_flushGcReleases now o) as Ht. pose proof (flushGcReleases_items now o) as Hi.
  unfold at_ in Ho. destruct (flushGcReleases now o) as [o' todo]. cbn in Ht, Hi. rewrite Ho in Ht, Hi.
  pose proof (move_refl U D p lk acq Hok) as Hmv.
  eapply good_move; [exact Ht|exact Hmv|]. apply flush_ok; [|done]. rewrite Hi.
  pose proof (pending_items U _ p (mv_ok _ _ _ _ _ _ _ Hmv)) as Hp. by rewrite tab_insert, decide_True in Hp.
Qed.

Lemma good_release U p acq D o q e g after :
  tables_ok U D -> at_ D p o -> announced D p q e ->
  granted D q e (gr_forkOffset g) (gr_sourceGeneration g) -> after_ok p after ->
  good U D p true acq (release now q e g after o).
Proof.
  intros Hok Ho (i & Hi & <-) [Hg Hgen] Ha. unfold at_ in Ho. unfold release.
  eapply good_then; [by apply (move_release U D p acq e i (gr_sourceGeneration g))|].
  intros D' Hok' HT. apply good_flush; [done| |done]. unfold at_. cbn. by rewrite HT, Ho.
Qed.

Lemma good_process_intents U p acq rest D o :
  tables_ok U D -> at_ D p o -> NoDup rest.*1 -> Forall (fun j => intent D p j.1 = Some j.2) rest ->
  good U D p true acq (process_intents rest o).
Proof.
  intros Hok Ho Hnd Hi. unfold process_intents. destruct rest as [|i rest].
  - apply good_same; [done..|]. apply flush_ok; [|done]. unfold at_ in Ho. rewrite Ho.
    pose proof (pending_items U _ p (mv_ok _ _ _ _ _ _ _ (move_refl U D p true None Hok))) as Hp.
    by rewrite tab_insert, decide_True in Hp.
  - apply good_same; [done..|]. cbn. split_and!; try done; [by eexists _, _|].
    eapply List.Forall_impl; [|exact Hi]. intros j Hj. rewrite intent_insert. by rewrite decide_True.
Qed.

Lemma good_processForkIntents U p acq D o :
  tables_ok U D -> at_ D p o -> good U D p true acq (processForkIntents o).
Proof.
  intros Hok Ho. unfold processForkIntents. destruct (getMetaRaw o).
  - apply good_process_intents; [done..|constructor|constructor].
  - unfold pendingForkIntents. unfold at_ in Ho. rewrite Ho. apply good_process_intents; [done..| |].
    + apply NoDup_fst_map_to_list.
    + apply list.Forall_forall. intros [e i] Hj%elem_of_map_to_list. done.
Qed.

(** The rest of the intents are still there. *)
Lemma rest_stays D p e T rest :
  t_fork_intents T = delete e (t_fork_intents (tab D p)) -> e ∉ rest.*1 ->
  Forall (fun j => intent D p j.1 = Some j.2) rest ->
  Forall (fun j => t_fork_intents T !! j.1 = Some j.2) rest.
Proof.
  intros HT Hne. rewrite !list.Forall_forall. intros Hr j Hj. rewrite HT, lookup_delete_ne; [by apply Hr|].
  intros ->. apply Hne. apply list_elem_of_fmap. by exists j.
Qed.

Lemma good_intent_acquired U p acq i rest v D o :
  tables_ok U D -> at_ D p o -> NoDup (i :: rest).*1 ->
  Forall (fun j => intent D p j.1 = Some j.2) (i :: rest) -> answer_ok D (in_parentPath i.2) i.1 (Answered v) ->
  good U D p true acq (intent_acquired now i rest v o).
Proof.
  intros Hok Ho Hnd Hi Hv. unfold at_ in Ho. rewrite fmap_cons, list.NoDup_cons in Hnd.
  apply list.Forall_cons in Hi as [Hi Hrest]. destruct Hnd as [Hnot Hnd].
  unfold intent_acquired. destruct v as [r| | |].
  2, 3, 4: apply good_process_intents; try done; unfold at_; by rewrite tables_armAlarmAt.
  set (f := match r with Granted g => _ | Refused _ => _ end).
  assert (Hmv : move p true acq U D U (deleteForkIntent i.1 (f (tab D p)))).
  { unfold f. destruct r as [err|g]; cbn in Hv.
    - by apply (move_refuse U D p acq i.1 i.2).
    - apply (move_release U D p acq i.1 i.2 (gr_sourceGeneration g)); [done..|]. by intros _ _; destruct Hv. }
  eapply good_then; [exact Hmv|]. intros D' Hok' HT. apply good_process_intents; [done| |done|].
  - unfold at_. cbn. by rewrite HT, Ho.
  - unfold intent. rewrite HT. eapply rest_stays; [|done..]. unfold f. by destruct r.
Qed.

Lemma good_release_delivered U p lk acq x rest after v D o :
  tables_ok U D -> at_ D p o -> Forall (item_ok U D p) (x :: rest) -> after_ok p after ->
  release_answer D (gc_parentPath x.2) x.1 (Answered v) ->
  good U D p lk acq (release_delivered now x rest after v o).
Proof.
  intros Hok Ho Hi Ha Hv. unfold at_ in Ho. apply list.Forall_cons in Hi as [Hx Hrest].
  set (T := match v with Released => dequeueGcRelease x.1 (tab D p) | _ => tab D p end).
  assert (Hmv : move p lk acq U D U T).
  { unfold T. destruct v; try by apply move_refl. apply move_dequeue; [done|].
    intros r Hr. destruct Hx as [_ Hx]. by rewrite (Hx r Hr). }
  unfold release_delivered. apply (good_move uuid U D p lk acq _ _ T); [|done|].
  - unfold T. destruct v; rewrite ?tables_armAlarmAt; cbn; by rewrite ?Ho.
  - apply flush_ok; [|done]. eapply List.Forall_impl; [|exact Hrest]. intros y.
    by apply (item_ok_stays p lk acq U U D), Hmv.
Qed.

(** ** [createFork] *)

Lemma good_createFork U p acq a q D o :
  tables_ok U D -> at_ D p o -> put_ok p a -> uuid ∉ U -> good U D p true acq (createFork now uuid a q o).
Proof.
  intros Hok Ho Ha Hu. unfold createFork. destruct (String.eqb q (pa_path a)); [by apply good_now|].
  unfold at_ in Ho. destruct (getForkIntent q _ (ob_tables o)) as [e|] eqn:Eg; cbn zeta.
  - apply good_same; [done..|]. cbn. split_and!; try done; [by eexists _, _|].
    rewrite Ho in Eg. unfold getForkIntent in Eg.
    destruct (list.head _) as [[e' i]|] eqn:Eh; [|done]. injection Eg as <-.
    apply head_Some_elem_of, list_elem_of_filter in Eh as [[Hq _] Hin%elem_of_map_to_list].
    exists i. rewrite intent_insert, decide_True by done. split; [done|].
    cbn in Hq. rewrite <-(ok_params _ _ Hok p _ _ Hin). done.
  - exists ({[uuid]} ∪ U). split; [done|]. cbn [fst snd]. rewrite tables_armAlarmAt. cbn [ob_tables upd_tables].
    rewrite Ho. split; [by apply move_intent_put|]. cbn. split_and!; try done; [by eexists _, _|].
    exists (mkForkIntent q q (cc_forkOffsetHeader (pa_config a))). split; [|done].
    rewrite intent_insert, decide_True by done. cbn. rewrite lookup_insert_new, decide_True by done.
    destruct (t_fork_intents (tab D p) !! uuid) as [i|] eqn:Ei; [|done].
    by destruct (ok_intent _ _ Hok p uuid i Ei).
Qed.

(** The record and the rows of a fork. *)
Lemma insert_fork_ok U p acq a q e g prefix payload D i :
  tables_ok U D -> roomy D -> meta_of D p = None -> put_ok p a ->
  intent D p e = Some i -> in_parentPath i = q ->
  granted D q e (gr_forkOffset g) (gr_sourceGeneration g) ->
  (forall b, prefix = Some b -> Z.of_nat (length b) <= MAX_BODY_BYTES) ->
  (forall b, payload = Some b -> Z.of_nat (length b) <= MAX_BODY_BYTES) ->
  exists T cur, insert_fork uuid false a q e g prefix payload (tab D p) = inl (T, cur) /\
    move p true acq U D U (deleteForkIntent e T).
Proof.
  intros Hok Hroom Hm [Hp _] Hi Hpar Hg Hpre Hpay.
  destruct (granted_room U D q e _ _ Hok Hroom Hg) as [Hw Hfit].
  unfold insert_fork. destruct (fork_expiry _ _) as [ttl ex]. unfold createMeta. fold (meta_of D p). rewrite Hm.
  cbn [cm_forkedFrom cm_forkOffset cm_contentType cm_ttlSeconds cm_expiresAt cm_closed cm_now cm_forkSubOffset
       cm_forkEdgeId cm_forkSourceGen].
  set (m := mkStreamMeta _ _ _ _ _ _ _ _ _ _ _ _ _ _ _ _). set (T1 := set_meta (Some m) (tab D p)).
  assert (Hs1 : stream_ok (stream_view p T1 m)) by (split; [done|cbn; fold (rows_of D p); by rewrite (ok_rows _ _ Hok)]).
  destruct (append_payload_ok p T1 m prefix (pa_now a) eq_refl Hs1) as (T2 & cur2 & Ha2 & Hm2 & Hs2 & Hb2 & He2 & Hi2 & Hr2).
  { cbn. unfold FRAME_OVERHEAD, MAX_BODY_BYTES in *. lia. }
  { done. }
  cbn [sm_currentOffset m] in Ha2, Hb2. rewrite Ha2.
  destruct (append_payload_ok p T2 _ payload (pa_now a) Hm2 Hs2) as (T3 & cur3 & Ha3 & Hm3 & Hs3 & _ & He3 & Hi3 & Hr3).
  { cbn. unfold FRAME_OVERHEAD, MAX_BODY_BYTES in *. lia. }
  { done. }
  cbn [sm_currentOffset with_currentOffset] in Ha3. rewrite Ha3.
  exists T3, cur3. split; [done|].
  apply (move_create_fork U D p Hok (deleteForkIntent e T3) (with_currentOffset cur3 (with_currentOffset cur2 m)))
    with (e := e) (q := q) (g := gr_sourceGeneration g) (fo := gr_forkOffset g) (i := i); try done.
  - cbn. by rewrite He3, He2.
  - cbn. by rewrite Hr3, Hr2.
  - cbn. by rewrite Hi3, Hi2.
Qed.

Lemma good_fork_finish U p acq a q e g prefix D o :
  tables_ok U D -> at_ D p o -> roomy D -> put_ok p a -> announced D p q e ->
  granted D q e (gr_forkOffset g) (gr_sourceGeneration g) ->
  (forall b, prefix = Some b -> Z.of_nat (length b) <= MAX_BODY_BYTES) ->
  good U D p true acq (fork_finish now uuid false a q e g prefix o).
Proof.
  intros Hok Ho Hroom Ha Hn Hg Hpre. unfold fork_finish.
  destruct (initial_payload _ (pa_body a)) as [payload|r] eqn:Epl; [|by apply good_release].
  destruct (getMetaRaw o) as [raced|] eqn:Hm; unfold getMetaRaw in Hm; pose proof Ho as Ho'; unfold at_ in Ho';
    rewrite Ho' in Hm.
  - destruct (bool_decide _) eqn:Eb; [|by apply good_release]. apply bool_decide_eq_true in Eb.
    destruct Hn as (i & Hi & _). destruct (ok_intent _ _ Hok p e i Hi) as [_ Hne]. by destruct (Hne raced).
  - destruct Hn as (i & Hi & Hpar).
    destruct (insert_fork_ok U p acq a q e g prefix payload D i) as (T & cur & Hins & Hmv); try done.
    { intros b. eapply initial_payload_bound; [|done]. by destruct Ha. }
    rewrite Ho', Hins. eapply good_move; [|exact Hmv|done]. by rewrite tables_syncExpiryAlarm.
Qed.

Lemma good_fork_acquired U p acq a q e v D o :
  tables_ok U D -> at_ D p o -> roomy D -> put_ok p a -> announced D p q e ->
  answer_ok D q e (Answered v) -> good U D p true acq (fork_acquired now uuid false a q e v o).
Proof.
  intros Hok Ho Hroom Ha Hn Hv. unfold fork_acquired. destruct v as [[err|g]| | |]; try by apply good_now.
  - destruct Hn as (i & Hi & <-). unfold at_ in Ho. eapply good_then; [by apply (move_refuse U D p acq e i)|].
    intros D' Hok' HT. apply good_now; [done| |done]. unfold at_. cbn. by rewrite HT, Ho.
  - cbn in Hv. destruct (match cc_forkSubOffset (pa_config a) with Some n => 0 <? n | None => false end).
    + apply good_same; [done..|]. cbn. split_and!; try done; [by eexists _, _, _, _| |].
      * destruct Hn as (i & Hi & Hpar). exists i. by rewrite intent_insert, decide_True.
      * destruct Hv as [He Hgen]. split; [by rewrite edge_same|]. unfold gen_of. by rewrite meta_same.
    + by apply good_fork_finish.
Qed.

Lemma good_fork_sub_offset_read U p acq a q e g v D o :
  tables_ok U D -> at_ D p o -> roomy D -> put_ok p a -> announced D p q e ->
  granted D q e (gr_forkOffset g) (gr_sourceGeneration g) ->
  (forall past b, v = Range past -> sub_offset_prefix (is_json (resolved_content_type a g))
     (or_else (cc_forkSubOffset (pa_config a)) 0) past = Some b -> Z.of_nat (length b) <= MAX_BODY_BYTES) ->
  good U D p true acq (fork_sub_offset_read now uuid false a q e g v o).
Proof.
  intros Hok Ho Hroom Ha Hn Hg Hpre. unfold fork_sub_offset_read. destruct v as [| |past|]; try by apply good_now.
  destruct (sub_offset_prefix _ _ past) as [b|] eqn:Es; [|by apply good_release].
  apply good_fork_finish; try done. intros b' [= <-]. by eapply Hpre.
Qed.

(** ** The calls *)

(** What the caller of [forkAcquire] can tell from its end. *)
Definition acquire_end D p e (t : Turn) : Prop :=
  match t with
  | Now (Return v) => answer_ok D p e (Answered v)
  | Now _ => False
  | _ => edge D p e = None
  end.

Definition release_end D p e (t : Turn) : Prop :=
  match t with
  | Now (Return v) => release_answer D p e (Answered v)
  | Now _ => False
  | _ => edge D p e = None
  end.

(** A call is answered, or its task goes on with releases. *)
Definition call_turn_ok U D p (t : Turn) : Prop :=
  match t with
  | Now (Return _) => True
  | t => turn_ok U D p false t
  end.

Lemma forkRelease_turn U p lk acq e gen D o :
  tables_ok U D -> at_ D p o -> release_ok U D e (mkGcRelease p gen) ->
  let '(o', t) := handle_forkRelease now e gen o in
  let D' := <[p := ob_tables o']> D in
  move p lk acq U D U (ob_tables o') /\ call_turn_ok U D' p t /\ release_end D' p e t.
Proof.
  intros Hok Ho [Hd Hg]. cbn in Hg. unfold at_ in Ho. unfold handle_forkRelease.
  pose proof (move_refl U D p lk acq Hok) as Hrefl.
  destruct (String.eqb e EmptyString); [by rewrite Ho|].
  destruct (getMetaRaw o) as [m|] eqn:Hm; unfold getMetaRaw in Hm; rewrite Ho in Hm; cycle 1.
  { rewrite Ho. split_and!; [done..|]. cbn. rewrite edge_same by done.
    by eapply no_edge. }
  assert (Hgen : gen_of D p = Some (sm_generation m)) by (unfold gen_of, meta_of; by rewrite Hm).
  destruct (match gen with Some g => _ | None => false end) eqn:Hmis.
  { rewrite Ho. split_and!; [done..|]. cbn. rewrite edge_same by done.
    destruct (edge D p e) as [fo|] eqn:Ee; [|done]. rewrite (Hg fo eq_refl), Hgen in Hmis.
    rewrite String.eqb_refl in Hmis. discriminate Hmis. }
  unfold getForkEdge. rewrite Ho. fold (edge D p e). destruct (edge D p e) as [fo|] eqn:Ee; cycle 1.
  { rewrite Ho. split_and!; [done..|]. cbn. by rewrite edge_same. }
  pose proof (move_edge_del U D p Hok lk acq e Hd) as Hmv. set (T := deleteForkEdge e (tab D p)) in *.
  set (o1 := upd_tables (deleteForkEdge e) o). assert (Ho1 : ob_tables o1 = T) by (cbn; by rewrite Ho).
  assert (Hgone : edge (<[p := T]> D) p e = None) by (rewrite edge_insert, decide_True by done; cbn; apply lookup_delete_eq).
  destruct (_ && _) eqn:Hc; cycle 1.
  { rewrite Ho1. by split_and!. }
  apply andb_true_iff in Hc as [Hc%Z.eqb_eq _].
  pose proof (mv_ok _ _ _ _ _ _ _ Hmv) as Hok1.
  assert (Hm1 : meta_of (<[p := T]> D) p = Some m) by (rewrite meta_insert, decide_True; done).
  assert (Hat1 : at_ (<[p := T]> D) p o1) by (rewrite <-Ho1; apply at_insert).
  pose proof (purge_turn now U _ p lk acq m o1 Hok1 Hat1 Hm1) as Hp.
  destruct (purgeStream now m o1) as [o2 todo]. destruct Hp as (Hmv2 & Hn2 & Hi2); [by rewrite Hc|].
  rewrite insert_insert_eq in Hi2. pose proof (move_trans _ _ _ _ _ _ _ _ _ Hmv Hmv2) as Hmv3.
  assert (Hgone2 : edge (<[p := ob_tables o2]> D) p e = None).
  { apply (no_edge U); [apply Hmv3|]. by rewrite meta_insert, decide_True. }
  split_and!; [done| |].
  - destruct todo as [|x todo]; [done|]. by apply (flush_ok U _ p false (x :: todo) (Return Released)).
  - by destruct todo.
Qed.

Lemma forkAcquire_turn U p lk e offset ct D o r i :
  tables_ok U D -> at_ D p o -> intent D r e = Some i -> in_parentPath i = p ->
  (forall fo, offset = Some fo -> wf_offset fo) ->
  let '(o', t) := handle_forkAcquire now e offset ct o in
  let D' := <[p := ob_tables o']> D in
  move p lk (Some e) U D U (ob_tables o') /\ call_turn_ok U D' p t /\ acquire_end D' p e t.
Proof.
  intros Hok Ho Hi Hpar Hwf. pose proof Ho as Ho'. unfold at_ in Ho'. unfold handle_forkAcquire.
  pose proof (move_refl U D p lk (Some e) Hok) as Hrefl.
  destruct (String.eqb e EmptyString); [by rewrite Ho'|]. cbn zeta.
  destruct (getForkEdge e (ob_tables o)) as [fo|] eqn:Ee, (getMetaRaw o) as [m|] eqn:Hm;
    unfold getForkEdge in Ee; unfold getMetaRaw in Hm; rewrite Ho' in Ee, Hm; fold (edge D p e) in Ee;
    fold (meta_of D p) in Hm.
  { rewrite Ho'. split_and!; [done..|]. split; [by rewrite edge_same|]. unfold gen_of.
    rewrite meta_same by done. by rewrite Hm. }
  { by rewrite (no_edge U D p e Hok Hm) in Ee. }
  all: unfold with_meta; pose proof (getMeta_turn now U D p lk (Some e) o Hok Ho) as Hget;
    destruct (getMeta now o) as [o' [m'|todo]]; destruct Hget as (Hmv & Hedge & Hmeta); specialize (Hedge e Ee).
  2, 4: destruct Hmeta as [Hn Hitems];
    pose proof (flush_ok U _ p false todo (Return (Acquired (Refused not_found))) Hitems I) as Hf;
    by destruct todo.
  all: destruct Hmeta as [Hm' Heq]; destruct (sm_softDeleted m') eqn:Hsd; [by split_and!|];
    rewrite (Heq eq_refl), Ho' in *; fold (meta_of D p) in Hm'; try congruence.
  destruct (match ct with Some _ => _ | None => false end); [by rewrite Ho'; split_and!|].
  destruct (_ || _) eqn:Hrange; [by rewrite Ho'; split_and!|]. apply orb_false_iff in Hrange as [_ Hc].
  set (fo := or_else offset (sm_currentOffset m')) in *.
  assert (Hfo : wf_offset fo).
  { unfold fo. destruct offset; [by apply Hwf|]. by eapply current_wf. }
  pose proof (move_edge_put U D p Hok lk e fo m' r i Hm' Hfo Hc Hi Hpar Ee) as Hput.
  unfold insertForkEdge. cbn [fst snd ob_tables upd_tables].
  assert (Hins : t_fork_edges (upd_edges (insert_new e fo) (tab D p)) !! e = Some fo).
  { cbn. rewrite lookup_insert_new, decide_True by done. unfold edge in Ee. by rewrite Ee. }
  rewrite Hins. cbn [or_else]. split_and!; [done..|]. split; [by rewrite edge_insert, decide_True|].
  unfold gen_of. rewrite meta_same by done. cbn. by rewrite Hm'.
Qed.
End handlers.
