(* ===== verification/CloudflareEvents.v ===== *)
(** * Every event keeps the fork protocol, and is a step of the abstract store

    [world_ok] is the invariant of the network: of the tables of all objects,
    and of every task that waits.  The events are those of CloudflareWorld;
    calls may be delayed, fail after they were run, and objects may be thrown
    out of memory, at any point. *)

From S2P Require Import Prelude Offsets Producer Text Json Types JsonMode StreamStore StoreLemmas StoreSteps StoreGraph ForkRead Cursor PathEncoding Sse Http SqliteStore StreamObject ObjectCreate ObjectRead ObjectWrite CloudflareWorld CloudflareInvariant CloudflareMoves CloudflareHandlers CloudflareForks.

Implicit Types (D : gmap string Tables) (U : gset string) (T : Tables) (p q e : string) (w : World).

(** ** The invariant *)

Definition db_of w : gmap string Tables := ob_tables <$> objects w.

(** The tasks at [p] that hold its lock. *)
Definition locks w p (id : nat) : Prop :=
  exists t, tasks w !! id = Some t /\ tk_path t = p /\ tk_locked t = true.

Record world_ok U w : Prop := {
  wo_tables : tables_ok U (db_of w);
  wo_tasks : forall id t, tasks w !! id = Some t -> task_ok U (db_of w) t;
  wo_lock : forall p id id', locks w p id -> locks w p id' -> id = id';
  wo_next : forall id, (next w <= id)%nat -> tasks w !! id = None;
}.

Lemma at_object w p : at_ (db_of w) p (object_of p w).
Proof. unfold at_, tab, db_of, object_of. rewrite lookup_fmap. by destruct (objects w !! p). Qed.

Lemma db_set p o w : db_of (set_object p o w) = <[p := ob_tables o]> (db_of w).
Proof. apply fmap_insert. Qed.

Lemma db_tasks f w : db_of (upd_tasks f w) = db_of w.
Proof. done. Qed.

(** *** More ids *)

Section more.
Context (U U' : gset string) (HU : U ⊆ U').

Lemma dead_more D e : dead U D e -> dead U' D e.
Proof using HU. intros [? ?]. split; [set_solver|done]. Qed.

Lemma release_ok_more D e r : release_ok U D e r -> release_ok U' D e r.
Proof using HU. intros [? ?]. split; [by apply dead_more|done]. Qed.

Lemma tables_ok_more D : tables_ok U D -> tables_ok U' D.
Proof using HU.
  intros Hok. split; try apply Hok.
  - intros q e fo E. destruct (ok_edge _ _ Hok q e fo E) as [? ?]. split; [set_solver|done].
  - intros q e i E. destruct (ok_intent _ _ Hok q e i E) as [? ?]. split; [set_solver|done].
  - intros q e r E. apply release_ok_more. by eapply ok_queued.
Qed.

Lemma task_ok_more D t : task_ok U D t -> task_ok U' D t.
Proof using HU.
  unfold task_ok, state_ok. destruct (tk_state t) as [target rpc st k|j|g o|n]; [|done..].
  destruct k as [x rest after|a q e|a q e g|i rest|s]; cbn; try done.
  intros (? & ? & Hi & ? & ?). split_and!; try done. eapply List.Forall_impl; [|exact Hi].
  intros y [? ?]. split; [by apply release_ok_more|done].
Qed.

Lemma world_ok_more w : world_ok U w -> world_ok U' w.
Proof using HU.
  intros [H1 H2 H3 H4]. split; [by apply tables_ok_more| |done..]. intros. apply task_ok_more. eauto.
Qed.
End more.

(** *** Tasks come and go *)

Lemma world_ok_empty : world_ok ∅ empty_world.
Proof.
  assert (Ht : forall p, tab (db_of empty_world) p = empty_tables).
  { intros p. unfold tab, db_of. rewrite lookup_fmap. cbn [objects empty_world].
    by rewrite lookup_empty. }
  assert (Hm : forall p, meta_of (db_of empty_world) p = None) by (intros; unfold meta_of; by rewrite Ht).
  assert (He : forall p e, edge (db_of empty_world) p e = None) by (intros; unfold edge; by rewrite Ht).
  assert (Hi : forall p e, intent (db_of empty_world) p e = None) by (intros; unfold intent; by rewrite Ht).
  split; [split| | |done]; try (intros *; rewrite ?Hm, ?He, ?Hi; done).
  - replace (abs (db_of empty_world)) with (∅ : gmap string Stream); [apply store_ok_empty|].
    apply map_eq. intros p. by rewrite abs_none, lookup_empty.
  - intros p p' e [[i E]|(m & E & _)]; rewrite ?Hi, ?Hm in E; done.
  - intros p id id' (t & E & _). cbn [tasks empty_world] in E. by rewrite lookup_empty in E.
Qed.

Lemma world_ok_delete U w id : world_ok U w -> world_ok U (upd_tasks (delete id) w).
Proof.
  intros [H1 H2 H3 H4]. unfold upd_tasks. split; unfold locks; cbn [tasks next]; [done| | |].
  - intros i t [_ E]%lookup_delete_Some. by eapply H2.
  - intros p i j (t & [_ E]%lookup_delete_Some & ?) (u & [_ F]%lookup_delete_Some & ?).
    apply (H3 p); by eexists.
  - intros i Hi. apply lookup_delete_None. right. by apply H4.
Qed.

Lemma world_ok_filter U w (P : nat * Task -> Prop) `{!forall x, Decision (P x)} :
  world_ok U w -> world_ok U (upd_tasks (filter P) w).
Proof.
  intros [H1 H2 H3 H4]. unfold upd_tasks. split; unfold locks; cbn [tasks next]; [done| | |].
  - intros i t [E _]%map_lookup_filter_Some. by eapply H2.
  - intros p i j (t & [E _]%map_lookup_filter_Some & ?) (u & [F _]%map_lookup_filter_Some & ?).
    apply (H3 p); by eexists.
  - intros i Hi. apply map_lookup_filter_None. left. by apply H4.
Qed.

Lemma world_ok_insert U w id t :
  world_ok U w -> (id < next w)%nat -> task_ok U (db_of w) t ->
  (tk_locked t = true -> forall id', locks w (tk_path t) id' -> id' = id) ->
  world_ok U (upd_tasks <[id := t]> w).
Proof.
  intros [H1 H2 H3 H4] Hid Ht Hl. split; [done| | |].
  - intros i u E. cbn in E. rewrite lookup_insert in E. case_decide; [by simplify_eq|]. by eapply H2.
  - assert (Hcase : forall p i, locks (upd_tasks <[id := t]> w) p i ->
      i = id /\ p = tk_path t /\ tk_locked t = true \/ i <> id /\ locks w p i).
    { intros p i (u & E & ? & ?). cbn in E. rewrite lookup_insert in E.
      case_decide; [left; by simplify_eq|right]. split; [done|]. by exists u. }
    intros p i j [(-> & -> & Hlk)|[Hi Hli]]%Hcase [(-> & Hp & Hlk')|[Hj Hlj]]%Hcase.
    + done.
    + symmetry. by apply Hl.
    + subst. by apply Hl.
    + by eapply H3.
  - intros i Hi. cbn in Hi |- *. rewrite lookup_insert_ne by lia. by apply H4.
Qed.

(** A turn of an object, seen from the tasks that wait. *)
Lemma world_ok_set U U' w p lk acq o :
  world_ok U w -> move p lk acq U (db_of w) U' (ob_tables o) ->
  (lk = true -> forall id, locks w p id -> False) ->
  (forall e id t target rpc st k, acq = Some e -> tasks w !! id = Some t ->
     tk_state t = Calling target rpc st k -> ~ waits_for k e) ->
  world_ok U' (set_object p o w).
Proof.
  intros [H1 H2 H3 H4] [Hok Hev _] Hl Ha. split; rewrite ?db_set; [done| |done|done].
  intros id t E. cbn in E. eapply task_ok_stays; [exact Hev| | |by eapply H2].
  - intros Hlk Hp Ht. apply (Hl Hlk id). by exists t.
  - intros e target rpc st k E' Es. by eapply Ha.
Qed.

(** The tables of [p] stay as they are. *)
Lemma world_ok_same U w p o :
  world_ok U w -> at_ (db_of w) p o ->
  world_ok U (set_object p o w) /\ abs (db_of (set_object p o w)) = abs (db_of w).
Proof.
  intros Hw Ho. unfold at_ in Ho. split.
  - apply (world_ok_set U U w p false None); [done| |done..]. rewrite Ho. apply move_refl, Hw.
  - rewrite db_set, Ho. by apply abs_same.
Qed.

(** *** Answers *)

Lemma calling_ok_answer U D p lk target rpc k v :
  (forall g, v <> Acquired (Granted g)) ->
  calling_ok U D p lk target rpc Running k -> calling_ok U D p lk target rpc (Answered v) k.
Proof.
  intros Hv. destruct k as [x rest after|a q e|a q e g|i rest|s]; cbn; try done.
  - intros (? & ? & ? & ? & ?). split_and!; try done. by destruct v.
  - intros (? & ? & ? & ? & ? & ?). split_and!; try done. destruct v as [[|g]| | |]; try done. by destruct (Hv g).
  - intros (? & ? & ? & ? & ? & ?). split_and!; try done. destruct v as [[|g]| | |]; try done. by destruct (Hv g).
Qed.

Lemma db_answer c v w : db_of (answer c v w) = db_of w.
Proof. unfold answer. by destruct (tasks w !! c) as [[p origin lk [target rpc [| |] k|j|g o|n0]]|]. Qed.

Lemma world_ok_answer U c v w :
  (forall g, v <> Acquired (Granted g)) -> world_ok U w -> world_ok U (answer c v w).
Proof.
  intros Hv Hw. unfold answer.
  destruct (tasks w !! c) as [[p origin lk [target rpc [| |] k|j|g o|n0]]|] eqn:E; try done.
  assert (Hc : (c < next w)%nat).
  { destruct (decide (c < next w)%nat); [done|]. rewrite (wo_next _ _ Hw c) in E by lia. done. }
  apply world_ok_insert; [done..| |].
  - apply calling_ok_answer; [done|]. by apply (wo_tasks _ _ Hw c _ E).
  - cbn. intros -> id' Hl. apply (wo_lock _ _ Hw p id' c); [done|]. by eexists.
Qed.

(** ** The end of a turn *)

Lemma after_not_granted p v : after_ok p (Return v) -> forall g, v <> Acquired (Granted g).
Proof. intros Hv g ->. exact Hv. Qed.

(** A turn without a caller that waits for just this turn. *)
Lemma end_turn_ok uuid U w id p origin lk r :
  world_ok U w -> (id < next w)%nat -> (lk = true -> forall id', locks w p id' -> False) ->
  good uuid U (db_of w) p lk None r ->
  let w' := (end_turn id p origin lk r w).1 in
  world_ok ({[uuid]} ∪ U) w' /\ steps true (Some p) (abs (db_of w)) (abs (db_of w')).
Proof.
  intros Hw Hid Hl (U' & HU & Hmv & Ht). destruct r as [o t]. cbn [fst snd] in *.
  pose proof (world_ok_set U U' w p lk None o Hw Hmv Hl ltac:(done)) as Hw1.
  rewrite <-db_set in Ht. pose proof (mv_steps _ _ _ _ _ _ _ Hmv) as Hs. rewrite <-db_set in Hs.
  assert (Hl1 : lk = true -> forall id', locks (set_object p o w) p id' -> False) by done.
  assert (Hwait : forall st, state_ok U' (db_of (set_object p o w)) p (lk && still_locked t) st ->
    let w' := upd_tasks <[id := mkTask p origin (lk && still_locked t) st]> (set_object p o w) in
    world_ok ({[uuid]} ∪ U) w' /\ steps true (Some p) (abs (db_of w)) (abs (db_of w'))).
  { intros st Hst w'. split; [|done]. apply (world_ok_more _ _ HU), world_ok_insert; [done..|].
    cbn. intros [Hlk _]%andb_true_iff id' Hid'. by destruct (Hl1 Hlk id'). }
  assert (Hans : forall v, (forall g, v <> Acquired (Granted g)) ->
    let w' := match origin with Caller c => answer c v (set_object p o w) | _ => set_object p o w end in
    world_ok ({[uuid]} ∪ U) w' /\ steps true (Some p) (abs (db_of w)) (abs (db_of w'))).
  { intros v Hv. cbn zeta. destruct origin; rewrite ?db_answer; (split; [|done]); apply (world_ok_more _ _ HU);
      [done|by apply world_ok_answer|done]. }
  unfold end_turn. destruct t as [[r|? ?|?|v| |a| |]|target rpc k|j|g offset|frame n]; cbn [fst]; cbn in Ht.
  - split; [by apply (world_ok_more _ _ HU)|done].
  - by apply Hwait.
  - split; [by apply (world_ok_more _ _ HU)|done].
  - apply Hans. by apply (after_not_granted p).
  - by apply Hans.
  - split; [by apply (world_ok_more _ _ HU)|done].
  - split; [by apply (world_ok_more _ _ HU)|done].
  - split; [by apply (world_ok_more _ _ HU)|done].
  - by apply Hwait.
  - apply Hwait. by destruct j.
  - destruct (Hwait (WaitingMessages g offset) I) as [Hw2 Hs2]. cbn zeta in Hw2, Hs2.
    set (w2 := upd_tasks _ _) in *.
    destruct (world_ok_same ({[uuid]} ∪ U) w2 p (mkObject (ob_tables o) (ob_alarm o) (ob_lastArmedAlarm o)
      (ob_waiters o ++ [(id, offset)]) (ob_settled o)) Hw2) as [Hw3 Ha].
    { unfold at_, w2. by rewrite db_tasks, db_set, tab_insert, decide_True. }
    split; [exact Hw3|]. rewrite Ha. exact Hs2.
  - by apply Hwait.
Qed.

(** A call: its caller [c] is answered at once, or waits. *)
Lemma end_call_ok U U' w n c target acq o t p origin lk q rpc k :
  let mk st := mkTask p origin lk (Calling q rpc st k) in
  world_ok U w -> (n < next w)%nat -> (c < next w)%nat -> n <> c ->
  tasks w !! c = None ->
  move target false acq U (db_of w) U' (ob_tables o) ->
  (forall e id t target rpc st k, acq = Some e -> tasks w !! id = Some t ->
     tk_state t = Calling target rpc st k -> ~ waits_for k e) ->
  call_turn_ok U' (<[target := ob_tables o]> (db_of w)) target t ->
  task_ok U' (<[target := ob_tables o]> (db_of w))
    (mk (match t with Now (Return v) => Answered v | Now Throw => Answered Thrown | _ => Running end)) ->
  (lk = true -> forall id', locks w p id' -> False) ->
  let w' := (end_turn n target (Caller c) false (o, t) (upd_tasks <[c := mk Running]> w)).1 in
  world_ok U' w' /\ steps true (Some target) (abs (db_of w)) (abs (db_of w')).
Proof.
  intros mk Hw Hn Hc Hnc Hnone Hmv Ha Ht Htask Hl.
  pose proof (world_ok_set U U' w target false acq o Hw Hmv ltac:(done) Ha) as Hw1.
  rewrite <-db_set in Ht, Htask. pose proof (mv_steps _ _ _ _ _ _ _ Hmv) as Hs. rewrite <-db_set in Hs.
  set (w1 := set_object target o w) in *.
  assert (Hput : forall st, task_ok U' (db_of w1) (mk st) -> world_ok U' (upd_tasks <[c := mk st]> w1)).
  { intros st Hst. apply world_ok_insert; [done..|]. cbn. intros Hlk id' Hid'. by destruct (Hl Hlk id'). }
  assert (Hans : forall v, task_ok U' (db_of w1) (mk (Answered v)) ->
    let w' := answer c v (set_object target o (upd_tasks <[c := mk Running]> w)) in
    world_ok U' w' /\ steps true (Some target) (abs (db_of w)) (abs (db_of w'))).
  { intros v Hv. cbn zeta. unfold answer. cbn [tasks set_object upd_tasks]. rewrite lookup_insert_eq. cbn.
    split; [|exact Hs]. specialize (Hput _ Hv). unfold upd_tasks in *. cbn in *. by rewrite insert_insert_eq. }
  assert (Hrun : task_ok U' (db_of w1) (mk Running) ->
    let w' := set_object target o (upd_tasks <[c := mk Running]> w) in
    world_ok U' w' /\ steps true (Some target) (abs (db_of w)) (abs (db_of w'))).
  { intros Hst. split; [|exact Hs]. by apply Hput. }
  assert (Hwait : forall st, task_ok U' (db_of w1) (mk Running) -> state_ok U' (db_of w1) target false st ->
    let w' := upd_tasks <[n := mkTask target (Caller c) (false && still_locked t) st]>
      (set_object target o (upd_tasks <[c := mk Running]> w)) in
    world_ok U' w' /\ steps true (Some target) (abs (db_of w)) (abs (db_of w'))).
  { intros st Hst Hcallee. destruct (Hrun Hst) as [Hw2 Hs2]. split; [|exact Hs2].
    by apply world_ok_insert. }
  unfold end_turn. destruct t as [[r|? ?|?|v| |a| |]|q2 rpc2 k2|j|g offset|frame n']; cbn [fst];
    try (by apply Hrun); try (by apply Hans); cbn in Ht; try (by apply Hwait).
  - destruct (Hwait (WaitingMessages g offset) Htask I) as [Hw2 Hs2]. cbn zeta in Hw2, Hs2.
    set (w2 := upd_tasks <[n := _]> _) in *.
    destruct (world_ok_same U' w2 target (mkObject (ob_tables o) (ob_alarm o) (ob_lastArmedAlarm o)
      (ob_waiters o ++ [(n, offset)]) (ob_settled o)) Hw2) as [Hw3 Habs].
    { unfold at_, w2. by rewrite db_tasks, db_set, tab_insert, decide_True. }
    split; [exact Hw3|]. rewrite Habs. exact Hs2.
Qed.

(** * The network of objects refines the abstract store

    [step_good] is the refinement, for one event; [run_good] for any sequence of
    events from the empty network. *)

(** What is drawn during an event. *)
Definition env_of (ev : Event) : option Env :=
  match ev with
  | Arrive e _ _ _ | AlarmFires e _ | Run e _ | Resume e _ | Start e _ | Wake e _ | Timeout e _
  | Written e _ => Some e
  | Lose _ | Disconnect _ | Evict _ => None
  end.

Definition ids (ev : Event) : gset string :=
  match env_of ev with Some e => {[en_uuid e]} | None => ∅ end.

(** The object whose turn it is. *)
Definition acting (ev : Event) w : option string :=
  match ev with
  | Arrive _ p _ _ | AlarmFires _ p => Some p
  | Run _ id =>
      match tasks w !! id with
      | Some (mkTask _ _ _ (Calling target _ _ _)) => Some target
      | _ => None
      end
  | Resume _ id | Start _ id | Wake _ id | Timeout _ id | Written _ id => tk_path <$> tasks w !! id
  | Lose _ | Disconnect _ | Evict _ => None
  end.

Section world.
Context `{!JsonLib} `{!DateLib}.
Context (do_id : string -> string).

(** What is asked of an event: the UUID is new; no table is full, and no
    stream about to outgrow the safe integers; the path is not empty; an offset
    a fork is made at is in the server's own notation; the part of a message a
    fork starts with is not longer than a body. *)
Definition event_safe U (ev : Event) w : Prop :=
  (forall e : Env, env_of ev = Some e -> en_full e = false /\ en_uuid e ∉ U) /\
  roomy (db_of w) /\
  match ev with
  | Arrive _ p _ _ => p <> EmptyString
  | Run _ id =>
      forall p origin lk target edgeId fo ct k,
        tasks w !! id = Some (mkTask p origin lk (Calling target (forkAcquire edgeId (Some fo) ct) Sent k)) ->
        wf_offset fo
  | Resume _ id =>
      forall p origin lk target rpc past a q edgeId g b,
        tasks w !! id = Some (mkTask p origin lk
          (Calling target rpc (Answered (Range past)) (SubOffsetK a q edgeId g))) ->
        sub_offset_prefix (is_json (resolved_content_type a g))
          (or_else (cc_forkSubOffset (pa_config a)) 0) past = Some b ->
        Z.of_nat (length b) <= MAX_BODY_BYTES
  | _ => True
  end.

(** What an event promises. *)
Definition step_promise U (ev : Event) w w' : Prop :=
  world_ok (ids ev ∪ U) w' /\ steps true (acting ev w) (abs (db_of w)) (abs (db_of w')).

Lemma promise_same U ev w w' :
  world_ok U w' -> abs (db_of w') = abs (db_of w) -> step_promise U ev w w'.
Proof.
  intros Hw Ha. split; [|rewrite Ha; apply rtc_refl]. eapply world_ok_more; [|done]. set_solver.
Qed.

(** *** New tasks *)

Lemma world_ok_next U w : world_ok U w -> world_ok U (mkWorld (objects w) (tasks w) (S (next w))).
Proof. intros [H1 H2 H3 H4]. split; [done..|]. cbn. intros id Hid. apply H4. lia. Qed.

Lemma spawn_good U w (e : Env) p f :
  world_ok U w -> en_full e = false ->
  good (en_uuid e) U (db_of w) p false None (f (object_of p w)) ->
  forall origin, let w' := (spawn e p origin f w).1 in
  world_ok ({[en_uuid e]} ∪ U) w' /\ steps true (Some p) (abs (db_of w)) (abs (db_of w')).
Proof.
  intros Hw Hf Hg origin. unfold spawn.
  apply (end_turn_ok (en_uuid e) U (mkWorld (objects w) (tasks w) (S (next w)))); [by apply world_ok_next|cbn; lia|done|].
  apply (good_proceed (en_uuid e) (en_now e)); try done. by apply Hw.
Qed.

Lemma fetch_good U w (e : Env) p origin req :
  world_ok U w -> en_full e = false -> roomy (db_of w) -> p <> EmptyString ->
  good (en_uuid e) U (db_of w) p false None (fetch do_id e p origin req (object_of p w)).
Proof.
  intros Hw Hf Hroom Hp. pose proof (wo_tables _ _ Hw) as Hok. pose proof (at_object w p) as Ho.
  unfold fetch. rewrite Hf.
  destruct (String.eqb _ "PUT"); [by apply good_handlePut|].
  destruct (String.eqb _ "HEAD"); [by apply good_handleHead|].
  destruct (String.eqb _ "GET"); [by apply good_handleGet|].
  destruct (String.eqb _ "POST"); [by apply good_handlePost|].
  destruct (String.eqb _ "DELETE"); [by apply good_handleDelete|]. by apply good_now.
Qed.

(** *** Tasks that go on *)

Lemma go_on_good U w (e : Env) id t lk f :
  world_ok U w -> tasks w !! id = Some t -> en_full e = false ->
  (lk = true -> forall id', locks w (tk_path t) id' -> id' = id) ->
  good (en_uuid e) U (db_of w) (tk_path t) lk None (f (object_of (tk_path t) w)) ->
  let w' := (go_on e id t lk f w).1 in
  world_ok ({[en_uuid e]} ∪ U) w' /\ steps true (Some (tk_path t)) (abs (db_of w)) (abs (db_of w')).
Proof.
  intros Hw Ht Hf Hl Hg. unfold go_on.
  assert (Hid : (id < next w)%nat).
  { destruct (decide (id < next w)%nat); [done|]. by rewrite (wo_next _ _ Hw id) in Ht by lia. }
  apply (end_turn_ok (en_uuid e) U (upd_tasks (delete id) w)); [by apply world_ok_delete|done| |].
  - intros Hlk id' (u & Hu & Hp). cbn in Hu. apply lookup_delete_Some in Hu as [Hne Hu].
    apply Hne. symmetry. apply (Hl Hlk id'). by exists u.
  - apply (good_proceed (en_uuid e) (en_now e)); try done. by apply Hw.
Qed.

Lemma resume_good U w (e : Env) p lk target rpc v k :
  world_ok U w -> en_full e = false -> roomy (db_of w) ->
  calling_ok U (db_of w) p lk target rpc (Answered v) k ->
  (forall past a q edgeId g b, v = Range past -> k = SubOffsetK a q edgeId g ->
     sub_offset_prefix (is_json (resolved_content_type a g))
       (or_else (cc_forkSubOffset (pa_config a)) 0) past = Some b -> Z.of_nat (length b) <= MAX_BODY_BYTES) ->
  good (en_uuid e) U (db_of w) p lk None (resume do_id e p k v (object_of p w)).
Proof.
  intros Hw Hf Hroom Hk Hpre. pose proof (wo_tables _ _ Hw) as Hok. pose proof (at_object w p) as Ho.
  unfold resume. rewrite Hf. destruct k as [x rest after|a q edgeId|a q edgeId g|i rest|s]; cbn in Hk.
  - destruct Hk as (-> & _ & Hi & Ha & Hst). by apply good_release_delivered.
  - destruct Hk as (-> & -> & _ & Hn & Ha & Hst). by apply good_fork_acquired.
  - destruct Hk as (-> & _ & Hn & Ha & Hg). apply good_fork_sub_offset_read; try done.
    intros past b -> Hs. by eapply Hpre.
  - destruct Hk as (-> & -> & _ & Hnd & Hi & Hst). by apply good_intent_acquired.
  - by apply good_inherited_read; [apply good_get_batch|..].
Qed.

(** *** Calls *)

(** Another task that has asked for the same edge would hold the same lock. *)
Lemma waits_unique U w c p origin lk target rpc k edgeId :
  world_ok U w -> tasks w !! c = Some (mkTask p origin lk (Calling target rpc Sent k)) -> waits_for k edgeId ->
  forall id t target' rpc' st' k', tasks (upd_tasks (delete c) w) !! id = Some t ->
    tk_state t = Calling target' rpc' st' k' -> ~ waits_for k' edgeId.
Proof.
  intros Hw Hc Hk id t target' rpc' st' k' Hid Hst Hk'. cbn in Hid.
  apply lookup_delete_Some in Hid as [Hne Hid]. apply Hne.
  assert (Hown : forall i u tg r s kk, tasks w !! i = Some u -> tk_state u = Calling tg r s kk -> waits_for kk edgeId ->
    tk_locked u = true /\ holds (db_of w) (tk_path u) edgeId).
  { intros i u tg r s kk Hu Hs Hwf. pose proof (wo_tasks _ _ Hw i u Hu) as Hok. unfold task_ok in Hok.
    rewrite Hs in Hok. destruct kk as [| a q' e'| |j rest|]; cbn in Hwf, Hok; try done; subst.
    - destruct Hok as (? & _ & _ & (x & Hx & _) & _). split; [done|]. left. by eexists.
    - destruct Hok as (? & _ & _ & _ & Hi & _). apply list.Forall_cons in Hi as [Hi _].
      split; [done|]. left. by eexists. }
  destruct (Hown _ _ _ _ _ _ Hc eq_refl Hk) as [Hl1 Hh1]. destruct (Hown _ _ _ _ _ _ Hid Hst Hk') as [Hl2 Hh2].
  pose proof (ok_unique _ _ (wo_tables _ _ Hw) _ _ _ Hh1 Hh2) as Hp. cbn in Hl1, Hp.
  apply (wo_lock _ _ Hw p c id); [by eexists|by exists t].
Qed.

Lemma run_call_good U w (e : Env) c p origin lk target rpc k :
  world_ok U w -> en_full e = false ->
  tasks w !! c = Some (mkTask p origin lk (Calling target rpc Sent k)) ->
  (forall edgeId fo ct, rpc = forkAcquire edgeId (Some fo) ct -> wf_offset fo) ->
  let '(o, t) := proceed e (run_call do_id e target rpc (object_of target w)) in
  let D' := <[target := ob_tables o]> (db_of w) in
  exists acq U', U' ⊆ {[en_uuid e]} ∪ U /\
    move target false acq U (db_of w) U' (ob_tables o) /\
    (forall edgeId, acq = Some edgeId -> waits_for k edgeId) /\ call_turn_ok U' D' target t /\
    task_ok U' D' (mkTask p origin lk (Calling target rpc
      (match t with Now (Return v) => Answered v | Now Throw => Answered Thrown | _ => Running end) k)).
Proof.
  intros Hw Hf Hc Hwf. pose proof (wo_tables _ _ Hw) as Hok. pose proof (at_object w target) as Ho.
  pose proof (wo_tasks _ _ Hw c _ Hc) as Hk. unfold task_ok in Hk |- *. cbn [tk_path tk_locked tk_state state_ok] in Hk |- *.
  assert (Hacq : forall e0 off ct, rpc = forkAcquire e0 off ct -> announced (db_of w) p target e0 -> waits_for k e0 ->
    (forall U' D' st, answer_ok D' target e0 st -> (forall q x i, intent (db_of w) q x = Some i -> intent D' q x = Some i) ->
       calling_ok U' D' p lk target rpc st k) ->
    let '(o, t) := proceed e (run_call do_id e target rpc (object_of target w)) in
    let D' := <[target := ob_tables o]> (db_of w) in
    exists acq U', U' ⊆ {[en_uuid e]} ∪ U /\
      move target false acq U (db_of w) U' (ob_tables o) /\
      (forall edgeId, acq = Some edgeId -> waits_for k edgeId) /\ call_turn_ok U' D' target t /\
      calling_ok U' D' p lk target rpc
        (match t with Now (Return v) => Answered v | Now Throw => Answered Thrown | _ => Running end) k).
  { intros e0 off ct Hrpc (i & Hi & Hpar) Hwait Hput. subst rpc. cbn [run_call].
    pose proof (forkAcquire_turn (en_now e) U target false e0 off ct (db_of w) (object_of target w) p i Hok Ho Hi Hpar)
      as Hturn.
    destruct (handle_forkAcquire _ _ _ _ _) as [o t]. destruct Hturn as (Hmv & Ht & Hend).
    { intros fo ->. by eapply Hwf. }
    assert (proceed e (o, t) = (o, t)) as ->.
    { unfold proceed. by destruct t as [[| | |v| |a| |]| | | |]. }
    exists (Some e0), U. split_and!; [set_solver|done|by intros ? [= <-]|done|]. apply Hput.
    - by destruct t as [[| | |v| |a| |]| | | |].
    - intros q x j Hj. destruct (ev_intent _ _ _ _ _ _ _ (mv_evolve _ _ _ _ _ _ _ Hmv) q x j Hj) as [?|[_ ?]]; done. }
  assert (Hread : forall x1 x2 x3 x4, rpc = readRange x1 x2 x3 x4 ->
    (forall st, calling_ok U (db_of w) p lk target rpc st k) ->
    (forall edgeId, ~ waits_for k edgeId) ->
    let '(o, t) := proceed e (run_call do_id e target rpc (object_of target w)) in
    let D' := <[target := ob_tables o]> (db_of w) in
    exists acq U', U' ⊆ {[en_uuid e]} ∪ U /\
      move target false acq U (db_of w) U' (ob_tables o) /\
      (forall edgeId, acq = Some edgeId -> waits_for k edgeId) /\ call_turn_ok U' D' target t /\
      calling_ok U' D' p lk target rpc
        (match t with Now (Return v) => Answered v | Now Throw => Answered Thrown | _ => Running end) k).
  { intros x1 x2 x3 x4 Hrpc Hall Hnw. subst rpc. cbn [run_call].
    assert (Hg : good (en_uuid e) U (db_of w) target false None
      (proceed e (handle_readRange (do_id target) (en_now e) (en_rnd e) x1 x2 x3 x4 (object_of target w)))).
    { apply (good_proceed (en_uuid e) (en_now e)); try done. by apply good_handle_readRange. }
    destruct (proceed e _) as [o t]. destruct Hg as (U' & HU & Hmv & Ht). cbn [fst snd] in Hmv, Ht.
    exists None, U'. split_and!; [done..| |].
    - by destruct t as [[| | |v| |a| |]| | | |].
    - eapply (calling_ok_stays target false None U U'); [exact (mv_evolve _ _ _ _ _ _ _ Hmv)|done|done|apply Hall]. }
  destruct k as [x rest after|a q e0|a q e0 g|i rest|s]; cbn in Hk.
  - destruct Hk as (Htg & -> & Hi & Ha & _). cbn [run_call]. pose proof Hi as Hi0.
    apply list.Forall_cons in Hi as [[[Hd Hgen] _] _]. subst target.
    pose proof (forkRelease_turn (en_now e) U (gc_parentPath x.2) false None x.1 (gc_sourceGen x.2) (db_of w) _ Hok Ho
      (conj Hd Hgen)) as Hturn.
    destruct (handle_forkRelease _ _ _ _) as [o t]. destruct Hturn as (Hmv & Ht & Hend).
    assert (proceed e (o, t) = (o, t)) as ->.
    { unfold proceed. by destruct t as [[| | |v| |a| |]| | | |]. }
    exists None, U. split_and!; [set_solver|done..|]. cbn. split_and!; try done.
    + eapply List.Forall_impl; [|exact Hi0]. intros y. by eapply item_ok_stays, Hmv.
    + by destruct t as [[| | |v| |a| |]| | | |].
  - destruct Hk as (Hl & Htg & (off & ct & Hrpc) & Hn & Ha & _). subst target.
    apply (Hacq e0 off ct); try done. intros U' D' st Hst Hin. cbn. split_and!; try done; [by eexists _, _|].
    destruct Hn as (j & Hj & ?). exists j. auto.
  - destruct Hk as (Hl & (x1 & x2 & x3 & x4 & Hrpc) & Hn & Ha & Hg). apply (Hread x1 x2 x3 x4); [done| |by intros ? []].
    intros st. cbn. split_and!; try done. by eexists _, _, _, _.
  - destruct Hk as (Hl & Htg & (off & ct & Hrpc) & Hnd & Hi & _). apply (Hacq i.1 off ct); try done.
    + apply list.Forall_cons in Hi as [Hi _]. exists i.2. split; [done|]. by subst.
    + intros U' D' st Hst Hin. cbn. split_and!; try done; [by eexists _, _|].
      eapply List.Forall_impl; [|exact Hi]. intros j. apply Hin.
  - destruct Hk as (x1 & x2 & x3 & x4 & Hrpc). apply (Hread x1 x2 x3 x4); [done| |by intros ? []].
    intros st. cbn. by eexists _, _, _, _.
Qed.

Lemma promise_act U ev w w' (e : Env) p :
  env_of ev = Some e -> acting ev w = Some p ->
  world_ok ({[en_uuid e]} ∪ U) w' /\ steps true (Some p) (abs (db_of w)) (abs (db_of w')) ->
  step_promise U ev w w'.
Proof. intros He Ha Hw. unfold step_promise, ids. by rewrite He, Ha. Qed.

Lemma promise_idle U ev w : world_ok U w -> step_promise U ev w w.
Proof. intros Hw. by apply promise_same. Qed.

(** ** Each kind of event *)

Lemma run_event_good U w (e : Env) c :
  world_ok U w -> event_safe U (Run e c) w -> step_promise U (Run e c) w (step do_id (Run e c) w).1.
Proof.
  intros Hw (Henv & _ & Hwf). destruct (Henv e eq_refl) as [Hf _]. cbn [step].
  destruct (tasks w !! c) as [[p origin lk [target rpc [| |v] k|j|g o|n]]|] eqn:Hc; try by apply promise_idle.
  apply (promise_act U _ w _ e target); [done|cbn; by rewrite Hc|].
  pose proof (run_call_good U w e c p origin lk target rpc k Hw Hf Hc) as Hrun.
  assert (Hlt : (c < next w)%nat).
  { destruct (decide (c < next w)%nat); [done|]. by rewrite (wo_next _ _ Hw c) in Hc by lia. }
  assert (Hlock : lk = true -> forall id', locks (upd_tasks (delete c) w) p id' -> False).
  { intros -> id' (u & Hu & Hp & Hl). cbn in Hu. apply lookup_delete_Some in Hu as [Hne Hu]. apply Hne.
    apply (wo_lock _ _ Hw p c id'); [by eexists|by exists u]. }
  unfold spawn. cbn [next upd_tasks].
  change (object_of target (upd_tasks _ w)) with (object_of target w).
  destruct (proceed e (run_call do_id e target rpc (object_of target w))) as [o t].
  destruct Hrun as (acq & U' & HU & Hmv & Hacq & Ht & Htask).
  { intros e0 fo ct ->. by eapply Hwf. }
  pose proof (end_call_ok U U' (mkWorld (objects w) (delete c (tasks w)) (S (next w))) (next w) c target acq o t
    p origin lk target rpc k) as Hend. cbn zeta in Hend.
  replace (mkWorld (objects (upd_tasks _ w)) _ (S (next w))) with
    (upd_tasks <[c := mkTask p origin lk (Calling target rpc Running k)]>
       (mkWorld (objects w) (delete c (tasks w)) (S (next w)))).
  2: { unfold upd_tasks. cbn. by rewrite insert_delete_eq. }
  destruct Hend as [Hw' Hs]; try done.
  - exact (world_ok_next U _ (world_ok_delete U w c Hw)).
  - cbn. lia.
  - cbn. lia.
  - lia.
  - apply lookup_delete_eq.
  - intros e0 id t' tg rpc' st' k' Ha. apply (waits_unique U w c p origin lk target rpc k e0 Hw Hc). by apply Hacq.
  - split; [by eapply world_ok_more|done].
Qed.

Lemma resume_event_good U w (e : Env) id :
  world_ok U w -> event_safe U (Resume e id) w -> step_promise U (Resume e id) w (step do_id (Resume e id) w).1.
Proof.
  intros Hw (Henv & Hroom & Hpre). destruct (Henv e eq_refl) as [Hf _]. cbn [step].
  destruct (tasks w !! id) as [[p origin lk [target rpc [| |v] k|j|g o|n]]|] eqn:Hc; try by apply promise_idle.
  apply (promise_act U _ w _ e p); [done|cbn; by rewrite Hc|].
  apply (go_on_good U w e id (mkTask p origin lk (Calling target rpc (Answered v) k)) lk); [done..| |].
  - intros -> id' Hl. apply (wo_lock _ _ Hw p id' id); [done|by eexists].
  - apply (resume_good U w e p lk target rpc v k); [done..|exact (wo_tasks _ _ Hw id _ Hc)|].
    intros past a q edgeId g b -> -> Hs. eapply Hpre; [reflexivity|exact Hs].
Qed.

Lemma lock_held_false w p : lock_held p w = false -> forall id, ~ locks w p id.
Proof.
  intros Hl id (t & Ht & Hp & Hk). unfold lock_held in Hl.
  apply not_true_iff_false in Hl. apply Hl. apply existsb_exists. exists (id, t).
  split; [by apply list_elem_of_In, elem_of_map_to_list|]. cbn. rewrite Hp, String.eqb_refl, Hk. done.
Qed.

Lemma start_event_good U w (e : Env) id :
  world_ok U w -> event_safe U (Start e id) w -> step_promise U (Start e id) w (step do_id (Start e id) w).1.
Proof.
  intros Hw (Henv & _ & _). destruct (Henv e eq_refl) as [Hf Hu]. cbn [step].
  destruct (tasks w !! id) as [[p origin lk [target rpc st k|j|g o|n]]|] eqn:Hc; try by apply promise_idle.
  cbn [tk_path]. destruct (lock_held p w) eqn:Hlk; [by apply promise_idle|].
  apply (promise_act U _ w _ e p); [done|cbn; by rewrite Hc|].
  apply (go_on_good U w e id (mkTask p origin lk (WaitingLock j)) true); [done..| |].
  - intros _ id' Hl. by destruct (lock_held_false w p Hlk id').
  - pose proof (wo_tasks _ _ Hw id _ Hc) as Hj. unfold task_ok in Hj. cbn in Hj.
    pose proof (wo_tables _ _ Hw) as Hok. pose proof (at_object w p) as Ho.
    destruct j as [a q|]; cbn [run_job].
    + by apply good_createFork.
    + by apply good_processForkIntents.
Qed.

(** A waiter goes on, with what has been settled. *)
Lemma wake_good U w (e : Env) id t g offset v :
  world_ok U w -> tasks w !! id = Some t -> en_full e = false ->
  let w' := (wake do_id e id t g offset v w).1 in
  world_ok ({[en_uuid e]} ∪ U) w' /\ steps true (Some (tk_path t)) (abs (db_of w)) (abs (db_of w')).
Proof.
  intros Hw Ht Hf. apply (go_on_good U w e id t false); [done..|].
  apply good_wait_result; [apply Hw|]. exact (at_object w (tk_path t)).
Qed.

Lemma evict_event_good U w p : world_ok U w -> step_promise U (Evict p) w (step do_id (Evict p) w).1.
Proof.
  intros Hw. cbn [step fst]. set (o := mkObject _ _ None [] []).
  destruct (world_ok_same U w p o Hw (at_object w p)) as [Hw1 Ha].
  apply promise_same; [|exact Ha]. by apply (world_ok_filter U (set_object p o w)).
Qed.

Lemma lose_event_good U w id : world_ok U w -> step_promise U (Lose id) w (step do_id (Lose id) w).1.
Proof.
  intros Hw. cbn [step].
  destruct (tasks w !! id) as [[p origin lk [target rpc [| |v] k|j|g o|n]]|] eqn:Hc; try by apply promise_idle.
  all: apply promise_same; [|done]; apply world_ok_insert; [done| | |].
  1, 4: destruct (decide (id < next w)%nat); [done|]; by rewrite (wo_next _ _ Hw id) in Hc by lia.
  2, 4: cbn; intros -> id' Hl; apply (wo_lock _ _ Hw p id' id); [done|by eexists].
  all: pose proof (wo_tasks _ _ Hw id _ Hc) as Hk; unfold task_ok in Hk |- *; cbn [tk_path tk_locked tk_state state_ok] in Hk |- *;
    destruct k; cbn in *; naive_solver.
Qed.

(** Every event keeps the invariant and refines the store. *)
Lemma step_good U ev w :
  world_ok U w -> event_safe U ev w -> step_promise U ev w (step do_id ev w).1.
Proof.
  intros Hw Hsafe. pose proof Hsafe as (Henv & Hroom & Hev). destruct ev as [e p origin req|e p|e id|e id|id|e id|e id|e id|e id|id|p].
  - apply (promise_act U _ w _ e p); [done..|]. destruct (Henv e eq_refl) as [Hf _].
    apply spawn_good; [done..|]. by apply fetch_good.
  - apply (promise_act U _ w _ e p); [done..|]. destruct (Henv e eq_refl) as [Hf _].
    apply spawn_good; [done..|]. apply good_same; [apply Hw|exact (at_object w p)|done].
  - by apply run_event_good.
  - by apply resume_event_good.
  - by apply lose_event_good.
  - by apply start_event_good.
  - destruct (Henv e eq_refl) as [Hf _]. cbn [step].
    destruct (tasks w !! id) as [[p origin lk [target rpc st k|j|g o|n]]|] eqn:Hc; try by apply promise_idle.
    destruct (list.head _) as [[i v]|]; [|by apply promise_idle].
    apply (promise_act U _ w _ e p); [done|cbn; by rewrite Hc|].
    by apply (wake_good U w e id (mkTask p origin lk (WaitingMessages g o))).
  - destruct (Henv e eq_refl) as [Hf _]. cbn [step].
    destruct (tasks w !! id) as [[p origin lk [target rpc st k|j|g o|n]]|] eqn:Hc; try by apply promise_idle.
    cbn zeta. destruct (bool_decide _); [|by apply promise_idle].
    apply (promise_act U _ w _ e p); [done|cbn; by rewrite Hc|].
    by apply (wake_good U w e id (mkTask p origin lk (WaitingMessages g o))).
  - destruct (Henv e eq_refl) as [Hf _]. cbn [step].
    destruct (tasks w !! id) as [[p origin lk [target rpc st k|j|g o|n]]|] eqn:Hc; try by apply promise_idle.
    apply (promise_act U _ w _ e p); [done|cbn; by rewrite Hc|].
    apply (go_on_good U w e id (mkTask p origin lk (Pumping n)) false); [done..|].
    apply good_pumpSse; [apply Hw|]. exact (at_object w p).
  - cbn [step]. destruct (tasks w !! id) as [[p origin lk [target rpc st k|j|g o|n]]|]; try by apply promise_idle.
    apply promise_same; [|done]. by apply world_ok_delete.
  - by apply evict_event_good.
Qed.

(** ** Runs *)

Fixpoint run_safe U (evs : list Event) w : Prop :=
  match evs with
  | [] => True
  | ev :: evs => event_safe U ev w /\ run_safe (ids ev ∪ U) evs (step do_id ev w).1
  end.

(** The ids that have been drawn. *)
Fixpoint drawn U (evs : list Event) : gset string :=
  match evs with
  | [] => U
  | ev :: evs => drawn (ids ev ∪ U) evs
  end.

Lemma run_good U evs w : world_ok U w -> run_safe U evs w -> world_ok (drawn U evs) (run do_id evs w).1.
Proof.
  revert U w. induction evs as [|ev evs IH]; intros U w Hw Hs; [done|]. destruct Hs as [Hev Hs].
  destruct (step_good U ev w Hw Hev) as [Hw' _]. specialize (IH _ _ Hw' Hs).
  cbn [run drawn]. destruct (step do_id ev w) as [w1 out]. cbn in IH.
  by destruct (run do_id evs w1) as [w2 outs].
Qed.

(** Other streams' logs only grow. *)
Lemma step_log U ev w q :
  world_ok U w -> event_safe U ev w -> acting ev w <> Some q ->
  is_Some (abs (db_of (step do_id ev w).1) !! q) ->
  log (abs (db_of w)) q `prefix_of` log (abs (db_of (step do_id ev w).1)) q.
Proof.
  intros Hw Hs Hne Hin. destruct (step_good U ev w Hw Hs) as [_ Hsteps].
  eapply log_steps; [apply Hw|exact Hsteps|done|done].
Qed.
End world.
