(* ===== verification/CloudflareTheorems.v ===== *)
(** * Properties of the network of objects

    The invariant and the refinement, for any order of requests, calls, lost
    answers, alarms and evictions; what they say about a fork and its source. *)

From S2P Require Import Prelude Offsets Producer Text Json Types JsonMode StreamStore StoreLemmas StoreSteps StoreGraph ForkRead Cursor PathEncoding Sse Http SqliteStore StreamObject ObjectCreate ObjectRead ObjectWrite CloudflareWorld CloudflareInvariant CloudflareMoves CloudflareHandlers CloudflareForks CloudflareEvents.
Local Open Scope js_scope.

(** ** Checking an execution

    [event_safe] as a test, for concrete executions. *)

Definition wf_offsetb (o : string) : bool :=
  (0 <=? position o) && (position o <=? MAX_SAFE_INTEGER) && String.eqb o (mk_offset (position o)).

Lemma wf_offsetb_sound o : wf_offsetb o = true -> wf_offset o.
Proof.
  unfold wf_offsetb. intros [[Hl%Z.leb_le Hu%Z.leb_le]%andb_true_iff E%String.eqb_eq]%andb_true_iff.
  by exists (position o).
Qed.

Definition roomyb (D : gmap string Tables) : bool :=
  forallb (fun kv => match t_meta kv.2 with
    | Some m => position (sm_currentOffset m) + 2 * (MAX_BODY_BYTES + FRAME_OVERHEAD) <=? MAX_SAFE_INTEGER
    | None => true
    end) (map_to_list D).

Lemma roomyb_sound D : roomyb D = true -> roomy D.
Proof.
  unfold roomyb. rewrite forallb_forall. intros Hall p m Hm. unfold meta_of, tab in Hm.
  destruct (D !! p) as [T|] eqn:E; [|done].
  specialize (Hall (p, T)). cbn in Hm, Hall. rewrite Hm in Hall.
  apply Z.leb_le, Hall, list_elem_of_In, elem_of_map_to_list, E.
Qed.

Section check.
Context `{!JsonLib} `{!DateLib}.
Context (do_id : string -> string).

Definition event_safeb (U : gset string) (ev : Event) (w : World) : bool :=
  match env_of ev with
  | Some e => negb (en_full e) && negb (bool_decide (en_uuid e ∈ U))
  | None => true
  end &&
  roomyb (db_of w) &&
  match ev with
  | Arrive _ p _ _ => negb (String.eqb p EmptyString)
  | Run _ id =>
      match tasks w !! id with
      | Some (mkTask _ _ _ (Calling _ (forkAcquire _ (Some fo) _) Sent _)) => wf_offsetb fo
      | _ => true
      end
  | Resume _ id =>
      match tasks w !! id with
      | Some (mkTask _ _ _ (Calling _ _ (Answered (Range past)) (SubOffsetK a _ _ g))) =>
          match sub_offset_prefix (is_json (resolved_content_type a g))
                  (or_else (cc_forkSubOffset (pa_config a)) 0) past with
          | Some b => Z.of_nat (length b) <=? MAX_BODY_BYTES
          | None => true
          end
      | _ => true
      end
  | _ => true
  end.

Lemma event_safeb_sound U ev w : event_safeb U ev w = true -> event_safe U ev w.
Proof.
  intros [[Henv Hroom]%andb_true_iff Hev]%andb_true_iff. split_and!.
  - intros e He. rewrite He in Henv. apply andb_true_iff in Henv as [Hf%negb_true_iff Hu%negb_true_iff].
    by apply bool_decide_eq_false in Hu.
  - by apply roomyb_sound.
  - destruct ev as [e p origin req|e p|e id|e id|id|e id|e id|e id|e id|id|p]; try done.
    + by apply String.eqb_neq, negb_true_iff.
    + intros p origin lk target edgeId fo ct k E. rewrite E in Hev. by apply wf_offsetb_sound.
    + intros p origin lk target rpc past a q edgeId g b E Hb. rewrite E, Hb in Hev. by apply Z.leb_le.
Qed.

Fixpoint run_safeb (U : gset string) (evs : list Event) (w : World) : bool :=
  match evs with
  | [] => true
  | ev :: evs => event_safeb U ev w && run_safeb (ids ev ∪ U) evs (step do_id ev w).1
  end.

Lemma cloudflare_run_safeb_sound U evs w : run_safeb U evs w = true -> run_safe do_id U evs w.
Proof.
  revert U w. induction evs as [|ev evs IH]; intros U w; [done|].
  intros [He Hs]%andb_true_iff. split; [by apply event_safeb_sound|by apply IH].
Qed.
End check.

(** ** The claims *)

Section theorems.
Context `{!JsonLib} `{!DateLib}.
Context (do_id : string -> string).

(** The record of the stream at [p]. *)
Definition record_of (p : string) (w : World) : option StreamMeta := getMetaRaw (object_of p w).

Lemma record_meta p w : record_of p w = meta_of (db_of w) p.
Proof. unfold record_of, getMetaRaw. by rewrite (at_object w p). Qed.

Lemma edges_of q w e : t_fork_edges (ob_tables (object_of q w)) !! e = edge (db_of w) q e.
Proof. by rewrite (at_object w q). Qed.

(** C8: one event anywhere in the network of objects - a request, an
    alarm, a call that is run, answered or lost, a lock that is free, a waiter
    that wakes, an object that is thrown out of memory - keeps the invariant of the
    fork protocol, and the streams of all objects together change as the
    abstract store of the reference server does: by the bookkeeping, appends to
    open streams, creations, forks and collections of [StoreSteps.step], and only
    the object whose turn it is may get a new stream.  The event is safe: no table is
    full (no statement of SQLite fails), no stream is about to outgrow the safe
    integers, the UUID it draws is new, the path of a request is not empty, the offset
    of a fork that is acquired is in the server's own notation, and the part of a
    message a fork starts with is not longer than a body. *)
Theorem cloudflare_step_refines (U : gset string) (ev : Event) (w : World) :
  world_ok U w -> event_safe U ev w ->
  world_ok (ids ev ∪ U) (step do_id ev w).1 /\
  steps true (acting ev w) (abs (db_of w)) (abs (db_of (step do_id ev w).1)).
Proof. apply step_good. Qed.

(** C9: a fork can always be read: in every state the network of objects
    reaches by safe events (those of C8: above all, the database is never full), the
    source of a fork is still there, of the generation the fork was
    made from, holds the fork's reference with its fork offset, and has not
    fallen behind it; whatever was deleted, expired, lost or evicted on the way.
    (With a full database it fails: [failed_fork_keeps_record].) *)
Theorem cloudflare_fork_source_kept (evs : list Event) (p q : string) (m : StreamMeta) :
  run_safe do_id ∅ evs empty_world ->
  record_of p (run do_id evs empty_world).1 = Some m -> sm_forkedFrom m = Some q ->
  exists s e fo,
    record_of q (run do_id evs empty_world).1 = Some s /\ sm_forkSourceGen m = Some (sm_generation s) /\
    sm_forkEdgeId m = Some e /\ sm_forkOffset m = Some fo /\
    t_fork_edges (ob_tables (object_of q (run do_id evs empty_world).1)) !! e = Some fo /\
    String.ltb (sm_currentOffset s) fo = false.
Proof.
  intros Hs Hm Hq. pose proof (run_good do_id ∅ evs empty_world world_ok_empty Hs) as Hw.
  set (w := (run do_id evs empty_world).1) in *. rewrite record_meta in Hm.
  pose proof (ok_fork _ _ (wo_tables _ _ Hw) p m Hm) as Hf. unfold fork_ok in Hf. rewrite Hq in Hf.
  destruct Hf as (e & g & fo & He & Hg & Hfo & Hed & Hgen).
  destruct (ok_edge _ _ (wo_tables _ _ Hw) q e fo Hed) as (_ & _ & s & Hs' & Hc).
  exists s, e, fo. rewrite record_meta, edges_of. split_and!; try done.
  unfold gen_of in Hgen. rewrite Hs' in Hgen. cbn in Hgen. congruence.
Qed.

(** C17: every reference is accounted for: in every state the network reaches by
    safe events (those of C8), for each edge a source holds there is an object that
    has it in its tables - it has announced the edge in an intent, its record owns it,
    or a release for it is queued.  (An intent counts whether or not an alarm will
    still work it off; [intent_outlives_its_path] shows one that none will.) *)
Theorem cloudflare_edges_accounted (evs : list Event) (q e fo : string) :
  run_safe do_id ∅ evs empty_world ->
  t_fork_edges (ob_tables (object_of q (run do_id evs empty_world).1)) !! e = Some fo ->
  exists p, let o := object_of p (run do_id evs empty_world).1 in
    (exists i, t_fork_intents (ob_tables o) !! e = Some i /\ in_parentPath i = q) \/
    (exists m, getMetaRaw o = Some m /\ sm_forkEdgeId m = Some e /\ sm_forkedFrom m = Some q) \/
    (exists r, t_gc_releases (ob_tables o) !! e = Some r /\ gc_parentPath r = q).
Proof.
  intros Hs He. pose proof (run_good do_id ∅ evs empty_world world_ok_empty Hs) as Hw.
  set (w := (run do_id evs empty_world).1) in *. rewrite edges_of in He.
  destruct (ok_accounted _ _ (wo_tables _ _ Hw) q e fo He) as [p Hp]. exists p. cbn zeta.
  unfold getMetaRaw. rewrite (at_object w p). exact Hp.
Qed.

(** What the tables of one object are, whatever their past. *)
Definition well_typed (t : Tables) : Prop :=
  match t_meta t with
  | Some m => wf_offset (or_else (sm_forkOffset m) ZERO_OFFSET) /\
              chain (or_else (sm_forkOffset m) ZERO_OFFSET) (t_messages t) (sm_currentOffset m)
  | None => t_messages t = [] /\ t_fork_edges t = ∅
  end.

Lemma tables_well_typed U w p : world_ok U w -> well_typed (ob_tables (object_of p w)).
Proof.
  intros Hw. pose proof (wo_tables _ _ Hw) as Hok. pose proof (at_object w p) as Ho. unfold at_ in Ho. rewrite Ho.
  unfold well_typed. destruct (t_meta (tab (db_of w) p)) as [m|] eqn:Hm.
  - apply (stream_of U (db_of w) p Hok m Hm).
  - split; [by apply (ok_rows _ _ Hok)|]. apply map_empty. intros e.
    destruct (t_fork_edges (tab (db_of w) p) !! e) as [fo|] eqn:E; [|done].
    destruct (ok_edge _ _ Hok p e fo E) as (_ & _ & m & Hm' & _). unfold meta_of in Hm'. congruence.
Qed.

(** C24: the tables of every object are well typed in every state the network of
    objects reaches by safe events (those of C8; a fork offset of the client's has
    the 16-digit form): where there is a record, each row's offset is that of the
    row before it (the first row's that of the fork offset, or zero) advanced by
    the length of the row's data and its frame, in the 16-digit form and within
    the safe integers, and the record's offset is that of the last row; where
    there is no record, there are no rows and no edges. *)
Theorem cloudflare_tables_well_typed (evs : list Event) (p : string) :
  run_safe do_id ∅ evs empty_world ->
  well_typed (ob_tables (object_of p (run do_id evs empty_world).1)).
Proof. intros Hs. eapply tables_well_typed, run_good; [apply world_ok_empty|exact Hs]. Qed.
End theorems.
