(* ===== verification/CloudflareReads.v ===== *)
(** * A read through forks is a window of the log

    [readRange] calls the source of a fork, which calls its own, and so on.  When
    nothing interferes, the calls come back, and what the reader gets is the
    beginning of the window of the stream's log it has asked for: all of it,
    unless the batch says it is capped. *)

From S2P Require Import Prelude Offsets Producer Text Json Types JsonMode StreamStore StoreLemmas StoreSteps StoreGraph ForkRead Cursor PathEncoding Sse Http SqliteStore StreamObject ObjectCreate ObjectRead ObjectWrite CloudflareWorld CloudflareInvariant CloudflareMoves CloudflareHandlers CloudflareForks CloudflareEvents CloudflareTheorems.
Local Open Scope js_scope.

Implicit Types (D : gmap string Tables) (p q e : string) (w : World).

(** ** Rows *)

(** [b] is the beginning of [W], within the limit. *)
Record batch_of (limit : option nat) (W : list StoredMessage) (b : ReadBatch) : Prop := {
  bo_prefix : rb_messages b `prefix_of` W;
  bo_complete : rb_capped b = false -> rb_messages b = W;
  bo_progress : W <> [] -> limit <> Some 0%nat -> rb_messages b <> [];
  bo_capped : rb_capped b = true -> limit <> Some 0%nat -> rb_messages b <> [];
  bo_limit : forall n, limit = Some n -> (length (rb_messages b) <= n)%nat;
}.

Lemma read_rows_spec limit budget allow rows count bytes_ :
  let b := read_rows limit budget allow rows count bytes_ in
  rb_messages b `prefix_of` (stored_of <$> rows) /\
  (rb_capped b = false -> rb_messages b = stored_of <$> rows) /\
  (forall n, limit = Some n -> (count <= n)%nat -> (count + length (rb_messages b) <= n)%nat) /\
  (rb_messages b = [] -> rows <> [] \/ rb_capped b = true ->
     (exists n, limit = Some n /\ (n <= count)%nat) \/ (0 < count)%nat \/ allow = false).
Proof.
  revert count bytes_. induction rows as [|row rows IH]; intros count bytes_; cbn [read_rows].
  { cbn. split_and!; [done|done|lia|]. by intros _ [?|?]. }
  destruct (match limit with Some l => (l <=? count)%nat | None => false end) eqn:El.
  { cbn. split_and!; [apply prefix_nil|done|lia|]. intros _ _. left. destruct limit as [n|]; [|done].
    exists n. split; [done|]. by apply Nat.leb_le. }
  destruct (match budget with Some _ => _ | None => false end) eqn:Eb.
  { cbn. split_and!; [apply prefix_nil|done|lia|]. intros _ _. right. destruct budget as [x|]; [|done].
    apply andb_true_iff in Eb as [Ea _]. apply orb_true_iff in Ea as [?%Nat.ltb_lt|?%negb_true_iff]; auto. }
  cbn zeta. destruct (IH (S count) (bytes_ + Z.of_nat (length (msg_data row)))) as (H1 & H2 & H3 & _).
  cbn. split_and!.
  - by apply prefix_cons.
  - intros Hc. by rewrite H2.
  - intros n -> Hn. apply Nat.leb_gt in El. specialize (H3 n eq_refl). lia.
  - done.
Qed.

(** The own rows of a stream. *)
Lemma readMessagesRange_spec after cap limit budget T :
  batch_of limit (stored_of <$> selected after cap (t_messages T))
    (readMessagesRange after cap limit budget true T).
Proof.
  unfold readMessagesRange.
  destruct (read_rows_spec limit budget true (selected after cap (t_messages T)) 0 0) as (H1 & H2 & H3 & H4).
  assert (Hno : limit <> Some 0%nat -> ~ ((exists n, limit = Some n /\ (n <= 0)%nat) \/ (0 < 0)%nat \/ true = false)).
  { intros Hl [(n & -> & Hn)|[?|?]]; [apply Hl; f_equal; lia|lia|done]. }
  split; [done|done| | |].
  - intros HW Hl Hn. destruct (Hno Hl). apply H4; [done|]. left. by intros E; rewrite E in HW.
  - intros Hc Hl Hn. destruct (Hno Hl). apply H4; [done|]. by right.
  - intros n ->. specialize (H3 n eq_refl). lia.
Qed.

(** What was inherited is complete, and own rows follow. *)
Lemma batch_append limit W1 W2 out after cap budget T :
  W2 = stored_of <$> selected after cap (t_messages T) -> out = W1 ->
  (forall n, limit = Some n -> (length out < n)%nat) ->
  let own := readMessagesRange after cap ((fun l => (l - length out)%nat) <$> limit) budget (length out =? 0)%nat T in
  batch_of limit (W1 ++ W2) (mkReadBatch (out ++ rb_messages own) (rb_capped own)).
Proof.
  intros -> -> Hl. cbn zeta. set (lim := _ <$> limit). set (rows := selected after cap (t_messages T)).
  unfold readMessagesRange. fold rows.
  destruct (read_rows_spec lim budget (length W1 =? 0)%nat rows 0 0) as (H1 & H2 & H3 & H4).
  assert (Hlim : ~ exists n, lim = Some n /\ (n <= 0)%nat).
  { intros (n & E & Hn). unfold lim in E. destruct limit as [l|]; [|done]. specialize (Hl l eq_refl).
    injection E as <-. lia. }
  assert (Hne : rows <> [] \/ rb_capped (read_rows lim budget (length W1 =? 0)%nat rows 0 0) = true ->
    W1 ++ rb_messages (read_rows lim budget (length W1 =? 0)%nat rows 0 0) <> []).
  { intros Hr. destruct W1 as [|x W1]; [|done]. cbn. intros E. destruct (H4 E Hr) as [?|[?|?]]; [done|lia|done]. }
  split; cbn [rb_messages rb_capped].
  - by apply prefix_app.
  - intros Hc. by rewrite H2.
  - intros HW _. destruct W1 as [|x W1]; [|done]. apply Hne. left. intros E. by rewrite E in HW.
  - intros Hc _. apply Hne. by right.
  - intros n ->. rewrite length_app. specialize (Hl n eq_refl). specialize (H3 (n - length W1)%nat eq_refl). lia.
Qed.

(** What was inherited is all there is room for. *)
Lemma batch_stop limit W1 W2 out b :
  batch_of limit W1 b -> out = rb_messages b -> (out <> [] \/ limit = Some 0%nat) ->
  batch_of limit (W1 ++ W2) (mkReadBatch out true).
Proof.
  intros [H1 H2 H3 H4 H5] -> Hne. split; cbn.
  - by apply prefix_app_r.
  - done.
  - intros _ Hl. by destruct Hne.
  - intros _ Hl. by destruct Hne.
  - done.
Qed.

(** ** Windows *)

(** What a reader of [q] asks for. *)
Definition window D q (after cap : option string) : list StoredMessage :=
  stored_of <$> selected after cap (log (abs D) q).

Lemma selected_normalized after cap rows : selected (normalized_after after) cap rows = selected after cap rows.
Proof.
  unfold selected, normalized_after, after_offset. destruct after as [o|]; [|done].
  by destruct (String.eqb o "-1") eqn:E; rewrite ?E.
Qed.

Lemma normalized_idem after : normalized_after (normalized_after after) = normalized_after after.
Proof. unfold normalized_after. destruct after as [o|]; [|done]. by destruct (String.eqb o "-1") eqn:E; rewrite ?E. Qed.

Lemma window_normalized D q after cap : window D q (normalized_after after) cap = window D q after cap.
Proof. unfold window. by rewrite selected_normalized. Qed.

Section log.
Context (U : gset string) (D : gmap string Tables).
Hypothesis Hok : tables_ok U D.

Lemma window_none q after cap : meta_of D q = None -> window D q after cap = [].
Proof using Hok.
  intros Hn. unfold window. rewrite log_unfold by apply (ok_store _ _ Hok). by rewrite abs_none.
Qed.

Lemma log_record q m :
  meta_of D q = Some m ->
  log (abs D) q =
    match sm_forkedFrom m with
    | Some r => filter (in_bounds None (sm_forkOffset m)) (log (abs D) r)
    | None => []
    end ++ rows_of D q.
Proof using Hok.
  intros Hm. rewrite log_unfold by apply (ok_store _ _ Hok). destruct (meta_abs D q m Hm) as [s Hs].
  destruct (abs_meta D q s Hs) as (m' & Hm' & Hf & Hfo & _ & Hr & _). rewrite Hm in Hm'. injection Hm' as <-.
  by rewrite Hs, Hf, Hfo, Hr.
Qed.

(** The own rows of a fork come after its fork offset. *)
Lemma rows_above q m fo r :
  meta_of D q = Some m -> sm_forkOffset m = Some fo -> r ∈ rows_of D q -> str_lt fo (msg_offset r).
Proof using Hok.
  intros Hm Hfo Hr. destruct (stream_increasing _ (stream_of U D q Hok m Hm)) as [_ Hf].
  rewrite list.Forall_forall in Hf. destruct (Hf r Hr) as [Hb _]. unfold base, stream_view in Hb. cbn in Hb.
  by rewrite Hfo in Hb.
Qed.

Lemma selected_app after cap l1 l2 : selected after cap (l1 ++ l2) = selected after cap l1 ++ selected after cap l2.
Proof. apply list.filter_app. Qed.

Definition lower_cap (fo : string) (cap : option string) : string :=
  match cap with
  | None => fo
  | Some c => if String.ltb fo c then fo else c
  end.

Lemma selected_inherited after cap fo l :
  selected after cap (filter (in_bounds None (Some fo)) l) = selected after (Some (lower_cap fo cap)) l.
Proof.
  unfold selected. rewrite list_filter_filter. apply list_filter_iff. intros m. unfold in_bounds, lower_cap. cbn [gtb_opt].
  destruct cap as [c|]; cbn; [|naive_solver]. destruct (String.ltb fo c) eqn:E; split.
  - intros ([? ?] & _ & ?). done.
  - intros [? Hm]. split_and!; try done. apply not_true_iff_false. intros Hc.
    apply not_true_iff_false in Hm. apply Hm. by eapply str_ltb_trans.
  - intros ([? ?] & _ & ?). done.
  - intros [? Hm]. split_and!; try done. apply not_true_iff_false. intros Hc.
    apply not_true_iff_false in Hm. apply Hm. by eapply str_le_ltb_trans.
Qed.

(** The window of a fork is that of its source, up to the fork offset, and then
    its own. *)
Lemma window_below q r m after cap fo :
  meta_of D q = Some m -> sm_forkedFrom m = Some r -> sm_forkOffset m = Some fo ->
  window D q after cap =
    window D r after (Some (lower_cap fo cap)) ++ (stored_of <$> selected after cap (rows_of D q)).
Proof using Hok.
  intros Hm Hr Hfo. unfold window. rewrite (log_record q m Hm), Hr, Hfo, selected_app, fmap_app.
  by rewrite selected_inherited.
Qed.

Lemma window_above q m after cap :
  meta_of D q = Some m -> inherits m after cap = None ->
  window D q after cap = stored_of <$> selected after cap (rows_of D q).
Proof using Hok.
  intros Hm Hi. unfold window. rewrite (log_record q m Hm). pose proof (ok_fork _ _ Hok q m Hm) as Hf.
  unfold fork_ok in Hf. unfold inherits in Hi. destruct (sm_forkedFrom m) as [r|]; [|done].
  destruct Hf as (_ & _ & fo & _ & _ & Hfo & _). rewrite Hfo in *. rewrite selected_app, selected_inherited.
  enough (selected after (Some (lower_cap fo cap)) (log (abs D) r) = []) as -> by done.
  rewrite <-selected_normalized. destruct (normalized_after after) as [a|] eqn:Ha; [|done].
  destruct (String.ltb a fo) eqn:Hlt; [done|]. apply filter_false_nil, list.Forall_forall. intros x _ [Hx1 Hx2].
  cbn [gtb_opt] in Hx2. assert (Ha' : after_offset (Some a) = a).
  { unfold normalized_after in Ha. destruct after as [o|]; [|done]. destruct (String.eqb o "-1") eqn:E; [done|].
    injection Ha as <-. cbn. by rewrite E. }
  assert (Hle : String.ltb fo (lower_cap fo cap) = false).
  { unfold lower_cap. destruct cap as [c|]; [|apply str_ltb_irrefl]. destruct (String.ltb fo c) eqn:E; [apply str_ltb_irrefl|done]. }
  rewrite Ha' in Hx1. pose proof (str_le_ltb_trans _ _ _ Hlt Hx1) as Hfx.
  pose proof (str_le_ltb_trans _ _ _ Hle Hfx). congruence.
Qed.

(** *** The batch of a stitched read *)

Lemma inherits_some q m after cap r c :
  meta_of D q = Some m -> inherits m after cap = Some (r, c) ->
  exists fo, sm_forkedFrom m = Some r /\ sm_forkOffset m = Some fo /\ c = lower_cap fo cap.
Proof using Type.
  unfold inherits. intros Hm. destruct (sm_forkedFrom m) as [r'|], (sm_forkOffset m) as [fo|]; try done.
  destruct (match normalized_after after with Some _ => _ | None => _ end); [|done].
  intros [= <- <-]. by exists fo.
Qed.

Section stitched.
Context `{!JsonLib} `{!DateLib}.
Context (object_id : string) (now rnd : Z) (get : GetArgs -> ReadBatch -> Object -> Object * Turn).

Lemma read_own_batch s o q m :
  meta_of D q = Some m -> at_ D q o -> inherits m (sa_afterOffset s) (sa_capOffset s) = None ->
  batch_of (sa_limit s) (window D q (sa_afterOffset s) (sa_capOffset s)) (read_own s [] (sa_byteBudget s) o).
Proof using Hok.
  intros Hm Ho Hi. rewrite (window_above q m) by done. unfold at_ in Ho. unfold read_own. rewrite Ho.
  assert (Hlim : (fun l => (l - length (@nil StoredMessage))%nat) <$> sa_limit s = sa_limit s).
  { destruct (sa_limit s) as [n|]; [|done]. cbn. f_equal. lia. }
  rewrite Hlim. pose proof (readMessagesRange_spec (normalized_after (sa_afterOffset s)) (sa_capOffset s) (sa_limit s)
    (Some (sa_byteBudget s)) (tab D q)) as Hb. rewrite selected_normalized in Hb.
  cbn [length]. rewrite Nat.eqb_refl. by destruct (readMessagesRange _ _ _ _ _ _).
Qed.

Lemma inherited_batch s o q m r c inh :
  meta_of D q = Some m -> at_ D q o -> sa_meta s = m ->
  inherits m (sa_afterOffset s) (sa_capOffset s) = Some (r, c) ->
  batch_of (sa_limit s) (window D r (sa_afterOffset s) (Some c)) inh ->
  exists b, inherited_read object_id now rnd get s (Range inh) o = read_done object_id now rnd s b get o /\
    batch_of (sa_limit s) (window D q (sa_afterOffset s) (sa_capOffset s)) b.
Proof using Hok.
  intros Hm Ho Hs Hi Hinh. destruct (inherits_some q m _ _ r c Hm Hi) as (fo & Hr & Hfo & ->).
  rewrite (window_below q r m _ _ fo Hm Hr Hfo). unfold inherited_read, getMetaRaw. unfold at_ in Ho. rewrite Ho.
  fold (meta_of D q). rewrite Hm, Hs, String.eqb_refl. cbn [negb].
  destruct (rb_capped inh) eqn:Hc.
  { eexists. split; [done|]. eapply batch_stop; [exact Hinh|done|].
    destruct (decide (sa_limit s = Some 0%nat)); [by right|left]. by apply (bo_capped _ _ _ Hinh). }
  pose proof (bo_complete _ _ _ Hinh Hc) as Hall.
  destruct (match sa_limit s with Some limit => (limit <=? length (rb_messages inh))%nat | None => false end) eqn:El.
  { eexists. split; [done|]. destruct (sa_limit s) as [n|] eqn:Es; [|done]. apply Nat.leb_le in El.
    pose proof (bo_limit _ _ _ Hinh n eq_refl) as Hle. cbn [or_else]. rewrite take_ge by lia.
    eapply batch_stop; [exact Hinh|done|]. destruct (rb_messages inh); [|by left]. right. f_equal. cbn in El. lia. }
  destruct (_ && _) eqn:Eb.
  { eexists. split; [done|]. eapply batch_stop; [exact Hinh|done|]. left.
    apply andb_true_iff in Eb as [_ Hlen%Nat.ltb_lt]. intros E. rewrite E in Hlen. cbn in Hlen. lia. }
  eexists. split; [done|]. unfold read_own. rewrite Ho.
  apply batch_append; [by rewrite selected_normalized|done|].
  intros n Hn. rewrite Hn in El. apply Nat.leb_gt in El. exact El.
Qed.
End stitched.
End log.

(** * The calls of a read come back

    A read of a fork is a chain of calls.  By induction along the chain: when the
    calls are run and answered one after the other, nothing else happening, the
    read ends, no stream has changed, and the batch is the beginning of the window. *)

(** The objects are as they were. *)
Definition same_objects w w' : Prop := forall p, object_of p w' = object_of p w.

#[export] Instance same_objects_preorder : PreOrder same_objects.
Proof. split; [done|]. intros a b c H1 H2 p. by rewrite H2, H1. Qed.

Lemma same_objects_set w w' q :
  objects w' = <[q := object_of q w]> (objects w) -> same_objects w w'.
Proof.
  intros E p. unfold object_of. rewrite E, lookup_insert. case_decide; [|done]. subst.
  unfold object_of. by destruct (objects w !! p).
Qed.

Lemma same_objects_tab w w' p : same_objects w w' -> tab (db_of w') p = tab (db_of w) p.
Proof. intros Hs. rewrite <-!at_object. by rewrite Hs. Qed.

Lemma same_objects_meta w w' p : same_objects w w' -> meta_of (db_of w') p = meta_of (db_of w) p.
Proof. intros Hs. unfold meta_of. by rewrite (same_objects_tab w w'). Qed.

Lemma same_objects_abs w w' : same_objects w w' -> abs (db_of w') = abs (db_of w).
Proof.
  intros Hs. apply map_eq. intros p. rewrite !lookup_abs, (same_objects_tab w w') by done.
  rewrite (forks_sources (db_of w) (db_of w')); [done|]. intros q. by rewrite (same_objects_meta w w').
Qed.

Lemma same_objects_window w w' q after cap :
  same_objects w w' -> window (db_of w') q after cap = window (db_of w) q after cap.
Proof. intros Hs. unfold window. by rewrite (same_objects_abs w w'). Qed.

(** Ids from [next w] on are free. *)
Definition next_free w : Prop := forall id, (next w <= id)%nat -> tasks w !! id = None.

Section calls.
Context `{!JsonLib} `{!DateLib}.
Context (do_id : string -> string) (e : Env).

(** Events that only move a call forward. *)
Definition forwards (ev : Event) : Prop :=
  match ev with Run e' _ | Resume e' _ => e' = e | _ => False end.

(** From [w], by such events alone and without an output, to [w']. *)
Definition leads w w' : Prop := exists evs, Forall forwards evs /\ run do_id evs w = (w', []).

Lemma leads_step ev w w' w'' :
  forwards ev -> step do_id ev w = (w', None) -> leads w' w'' -> leads w w''.
Proof.
  intros Hf Hs (evs & Hall & Hr). exists (ev :: evs). split; [by constructor|]. cbn [run]. by rewrite Hs, Hr.
Qed.

Lemma leads_refl w : leads w w.
Proof. exists []. by split. Qed.

Lemma leads_trans w w' w'' : leads w w' -> leads w' w'' -> leads w w''.
Proof.
  intros (evs & Hall & Hr) Hl. revert w Hr. induction Hall as [|ev evs Hf _ IH]; intros w.
  { by intros [= ->]. }
  cbn [run]. destruct (step do_id ev w) as [w1 out] eqn:Hs. destruct (run do_id evs w1) as [w2 outs] eqn:Hr.
  intros [= -> Hout]. destruct out; [done|]. subst outs. eapply leads_step; [exact Hf|exact Hs|]. by apply IH.
Qed.

(** *** The three kinds of event of a read *)

Lemma run_answered w c p origin lk q rpc k v :
  tasks w !! c = Some (mkTask p origin lk (Calling q rpc Sent k)) ->
  run_call do_id e q rpc (object_of q w) = (object_of q w, Now (Return v)) ->
  step do_id (Run e c) w =
    (mkWorld (<[q := object_of q w]> (objects w))
       (<[c := mkTask p origin lk (Calling q rpc (Answered v) k)]> (tasks w)) (S (next w)), None).
Proof.
  intros Hc Hr. cbn [step]. rewrite Hc. unfold spawn. cbn [objects tasks next upd_tasks].
  change (object_of q (upd_tasks _ w)) with (object_of q w). rewrite Hr. unfold proceed, end_turn, answer.
  cbn [tasks set_object]. rewrite lookup_insert_eq. unfold upd_tasks, set_object. cbn. by rewrite insert_insert_eq.
Qed.

Lemma run_waits w c p origin lk q rpc k q' rpc' s :
  tasks w !! c = Some (mkTask p origin lk (Calling q rpc Sent k)) ->
  run_call do_id e q rpc (object_of q w) = (object_of q w, Await q' rpc' (InheritedK s)) ->
  step do_id (Run e c) w =
    (mkWorld (<[q := object_of q w]> (objects w))
       (<[next w := mkTask q (Caller c) false (Calling q' rpc' Sent (InheritedK s))]>
          (<[c := mkTask p origin lk (Calling q rpc Running k)]> (tasks w))) (S (next w)), None).
Proof.
  intros Hc Hr. cbn [step]. rewrite Hc. unfold spawn. cbn [objects tasks next upd_tasks].
  change (object_of q (upd_tasks _ w)) with (object_of q w). rewrite Hr. done.
Qed.

Lemma resume_answers w n c q p origin lk q' rpc' v s q0 rpc k v2 :
  n <> c ->
  tasks w !! n = Some (mkTask q (Caller c) false (Calling q' rpc' (Answered v) (InheritedK s))) ->
  tasks w !! c = Some (mkTask p origin lk (Calling q0 rpc Running k)) ->
  resume do_id e q (InheritedK s) v (object_of q w) = (object_of q w, Now (Return v2)) ->
  step do_id (Resume e n) w =
    (mkWorld (<[q := object_of q w]> (objects w))
       (<[c := mkTask p origin lk (Calling q0 rpc (Answered v2) k)]> (delete n (tasks w))) (next w), None).
Proof.
  intros Hne Hn Hc Hr. cbn [step]. rewrite Hn. unfold go_on. cbn [tk_path tk_origin]. rewrite Hr.
  unfold proceed, end_turn, answer. cbn [tasks set_object upd_tasks]. rewrite lookup_delete_ne, Hc by done. done.
Qed.

(** *** The induction *)

(** A call of [readRange] that is under way can be answered. *)
Definition answered w c p origin lk q after cap limit budget k : Prop :=
  exists w' b, leads w w' /\ same_objects w w' /\ (next w <= next w')%nat /\
    tasks w' = <[c := mkTask p origin lk (Calling q (readRange after cap limit budget) (Answered (Range b)) k)]> (tasks w) /\
    batch_of limit (window (db_of w) q after (Some cap)) b.

Lemma handle_readRange_none q after cap limit budget w :
  meta_of (db_of w) q = None ->
  run_call do_id e q (readRange after cap limit budget) (object_of q w) =
    (object_of q w, Now (Return (Range (mkReadBatch [] false)))).
Proof.
  intros Hn. cbn [run_call]. unfold handle_readRange, getMetaRaw. rewrite (at_object w q).
  fold (meta_of (db_of w) q). by rewrite Hn.
Qed.

Definition range_args (m : StreamMeta) (after : option string) (cap : string) limit budget : StitchArgs :=
  mkStitchArgs m after (Some cap) limit (or_else budget MAX_READ_BATCH_BYTES) RangeK.

Lemma handle_readRange_some q m after cap limit budget w :
  meta_of (db_of w) q = Some m ->
  run_call do_id e q (readRange after cap limit budget) (object_of q w) =
    match inherits m after (Some cap) with
    | Some (r, c) =>
        (object_of q w, Await r (readRange (normalized_after after) c limit (Some (or_else budget MAX_READ_BATCH_BYTES)))
                          (InheritedK (range_args m after cap limit budget)))
    | None => (object_of q w, Now (Return (Range (read_own (range_args m after cap limit budget) []
                 (or_else budget MAX_READ_BATCH_BYTES) (object_of q w)))))
    end.
Proof.
  intros Hm. cbn [run_call]. unfold handle_readRange, getMetaRaw. rewrite (at_object w q).
  fold (meta_of (db_of w) q). rewrite Hm. unfold readStitched. cbn [sa_meta sa_afterOffset sa_capOffset].
  by destruct (inherits m after (Some cap)) as [[r c]|].
Qed.

Lemma tables_ok_same U w w' : tables_ok U (db_of w) -> same_objects w w' -> tables_ok U (db_of w').
Proof.
  intros Hok Hs. assert (Ht : forall p, tab (db_of w') p = tab (db_of w) p) by (intros; by apply same_objects_tab).
  assert (Hm : forall p, meta_of (db_of w') p = meta_of (db_of w) p) by (intros; unfold meta_of; by rewrite Ht).
  assert (Hr : forall p, rows_of (db_of w') p = rows_of (db_of w) p) by (intros; unfold rows_of; by rewrite Ht).
  assert (He : forall p x, edge (db_of w') p x = edge (db_of w) p x) by (intros; unfold edge; by rewrite Ht).
  assert (Hi : forall p x, intent (db_of w') p x = intent (db_of w) p x) by (intros; unfold intent; by rewrite Ht).
  assert (Hq : forall p x, queued (db_of w') p x = queued (db_of w) p x) by (intros; unfold queued; by rewrite Ht).
  assert (Hh : forall p x, holds (db_of w') p x <-> holds (db_of w) p x).
  { intros p x. unfold holds. by rewrite Hi, Hm. }
  assert (Hd : forall x, dead U (db_of w) x -> dead U (db_of w') x).
  { intros x [? Hx]. split; [done|]. intros p Hp%Hh. by apply (Hx p). }
  split.
  - rewrite (same_objects_abs w w') by done. apply Hok.
  - intros p m. rewrite Hm. apply (ok_path _ _ Hok).
  - intros p. rewrite Hm, Hr. apply (ok_rows _ _ Hok).
  - intros p x fo. rewrite He, Hm. apply (ok_edge _ _ Hok).
  - intros p m. rewrite Hm. intros E. eapply fork_ok_mono, (ok_fork _ _ Hok p m E); [apply same_refs_refl|].
    intros r x fo g _ _. unfold granted, gen_of. by rewrite He, Hm.
  - intros p p' x. rewrite !Hh. apply (ok_unique _ _ Hok).
  - intros p x i. rewrite Hi. intros [? Hx]%(ok_intent _ _ Hok). split; [done|]. intros m. rewrite Hm. apply Hx.
  - intros p x r. rewrite Hq. intros [Hx Hg]%(ok_queued _ _ Hok). split; [by apply Hd|].
    intros fo. unfold gen_of. rewrite He, Hm. apply Hg.
  - intros p x i. rewrite Hi. apply (ok_params _ _ Hok).
  - intros p x fo. rewrite He. intros E. destruct (ok_accounted _ _ Hok p x fo E) as [r Ha]. exists r.
    unfold accounts in *. by rewrite Hi, Hq, Hm.
Qed.

(** The call is answered in the turn that runs it. *)
Lemma answered_now w c p origin lk q after cap limit budget k b :
  next_free w ->
  tasks w !! c = Some (mkTask p origin lk (Calling q (readRange after cap limit budget) Sent k)) ->
  run_call do_id e q (readRange after cap limit budget) (object_of q w) = (object_of q w, Now (Return (Range b))) ->
  batch_of limit (window (db_of w) q after (Some cap)) b ->
  answered w c p origin lk q after cap limit budget k.
Proof.
  intros Hnf Hc Hr Hb. eexists _, b. split; [eapply leads_step; [|exact (run_answered _ _ _ _ _ _ _ _ _ Hc Hr)|apply leads_refl]; done|].
  split; [by apply (same_objects_set w _ q)|]. cbn. split_and!; [lia|done|done].
Qed.

Lemma read_call_answered_in U ss q : graph_ok ss -> forall w c p origin lk after cap limit budget k,
  abs (db_of w) = ss -> tables_ok U (db_of w) -> next_free w ->
  tasks w !! c = Some (mkTask p origin lk (Calling q (readRange after cap limit budget) Sent k)) ->
  answered w c p origin lk q after cap limit budget k.
Proof.
  intros Hg. pattern q. apply (fork_ind ss); [done|..]; clear q; cbv beta.
  - intros q Hq w c p origin lk after cap limit budget k <- Hok Hnf Hc.
    assert (Hm : meta_of (db_of w) q = None).
    { destruct (meta_of (db_of w) q) as [m|] eqn:E; [|done]. destruct (meta_abs _ _ _ E) as [? ?]. congruence. }
    eapply answered_now; [done|done|by apply handle_readRange_none|].
    rewrite (window_none U) by done. split; cbn; try done. lia.
  - intros q s Hq IH w c p origin lk after cap limit budget k Hss Hok Hnf Hc.
    assert (exists m, meta_of (db_of w) q = Some m /\ forkedFrom s = sm_forkedFrom m) as (m & Hm & Hf).
    { rewrite <-Hss in Hq. destruct (abs_meta _ _ _ Hq) as (m & ? & ? & _). by exists m. }
    pose proof (handle_readRange_some q m after cap limit budget w Hm) as Hcall.
    set (sa := range_args m after cap limit budget) in *.
    destruct (inherits m after (Some cap)) as [[r cc]|] eqn:Hi; cycle 1.
    { eapply answered_now; [done|done|exact Hcall|].
      exact (read_own_batch U (db_of w) Hok sa _ q m Hm (at_object w q) Hi). }
    destruct (inherits_some (db_of w) q m after (Some cap) r cc Hm Hi) as (fo & Hr & _ & _).
    set (n := next w). assert (Hcn : n <> c).
    { intros E. rewrite <-E, (Hnf n) in Hc by (unfold n; lia). done. }
    pose proof (run_waits w c p origin lk q _ k r _ sa Hc Hcall) as Hrun.
    set (w1 := mkWorld _ _ _) in Hrun. assert (Hsame1 : same_objects w w1) by (by apply (same_objects_set w w1 q)).
    destruct (IH r) with (w := w1) (c := n) (p := q) (origin := Caller c) (lk := false)
      (after := normalized_after after) (cap := cc) (limit := limit)
      (budget := Some (or_else budget MAX_READ_BATCH_BYTES)) (k := InheritedK sa)
      as (w2 & inh & Hlead2 & Hsame2 & Hnext2 & Htasks2 & Hinh).
    { congruence. }
    { rewrite <-Hss. by apply same_objects_abs. }
    { by eapply tables_ok_same. }
    { intros id Hid. cbn in Hid |- *. assert (next w <= id)%nat by lia.
      rewrite !lookup_insert_ne; [by apply Hnf|intros ->; rewrite (Hnf id) in Hc; [done|lia]|unfold n in *; lia]. }
    { apply lookup_insert_eq. }
    assert (Hsame : same_objects w w2) by (by transitivity w1).
    rewrite (same_objects_window w w1), window_normalized in Hinh by done.
    destruct (inherited_batch U (db_of w) Hok (do_id q) (en_now e) (en_rnd e)
      (get_batch (do_id q) (en_now e) (en_rnd e)) sa (object_of q w) q m r cc inh Hm (at_object w q) eq_refl Hi Hinh)
      as (b & Hread & Hb).
    exists (mkWorld (<[q := object_of q w2]> (objects w2))
      (<[c := mkTask p origin lk (Calling q (readRange after cap limit budget) (Answered (Range b)) k)]>
         (delete n (tasks w2))) (next w2)), b. split_and!.
    + eapply leads_step; [|exact Hrun|]; [done|]. eapply leads_trans; [exact Hlead2|].
      eapply leads_step; [|eapply (resume_answers w2 n c q p origin lk r _ (Range inh) sa)|apply leads_refl]; try done.
      * rewrite Htasks2. apply lookup_insert_eq.
      * rewrite Htasks2, lookup_insert_ne by done. cbn. rewrite lookup_insert_ne by done. apply lookup_insert_eq.
      * rewrite (Hsame q). exact Hread.
    + transitivity w2; [done|]. by apply (same_objects_set w2 _ q).
    + cbn. cbn in Hnext2. lia.
    + cbn. rewrite Htasks2. unfold w1. cbn [tasks]. fold n.
      rewrite insert_insert_eq, delete_insert_id; [by rewrite insert_insert_eq|].
      rewrite lookup_insert_ne by done. apply Hnf. unfold n. lia.
    + exact Hb.
Qed.

Lemma read_call_answered U q w c p origin lk after cap limit budget k :
  tables_ok U (db_of w) -> next_free w ->
  tasks w !! c = Some (mkTask p origin lk (Calling q (readRange after cap limit budget) Sent k)) ->
  answered w c p origin lk q after cap limit budget k.
Proof.
  intros Hok. eapply (read_call_answered_in U (abs (db_of w))); [|done|done].
  apply (ok_graph _ (ok_store _ _ Hok)).
Qed.
End calls.

(** * A GET of a fork is answered

    A GET without [live] is a stitched read.  When the calls it makes are run
    and answered, it ends with the beginning of the window of the stream's log
    that the client has asked for. *)

Section get.
Context `{!JsonLib} `{!DateLib}.
Context (do_id : string -> string) (e : Env).

Lemma run_app evs evs' w w1 w2 outs outs' :
  run do_id evs w = (w1, outs) -> run do_id evs' w1 = (w2, outs') ->
  run do_id (evs ++ evs') w = (w2, outs ++ outs').
Proof.
  revert w outs. induction evs as [|ev evs IH]; intros w outs; cbn [run app].
  { by intros [= -> <-]. }
  destruct (step do_id ev w) as [wa out]. destruct (run do_id evs wa) as [wb outs1] eqn:Hr.
  intros [= -> <-] Hr'. rewrite (IH wa outs1) by done. by destruct out.
Qed.

Definition get_args (req : Request) (m : StreamMeta) : GetArgs :=
  mkGetArgs (query_get "offset" req) (query_get "live" req) (query_get "cursor" req)
    (req_header "if-none-match" req) (en_now e) m.

Definition get_stitch (req : Request) (m : StreamMeta) : StitchArgs :=
  mkStitchArgs m (query_get "offset" req) None None MAX_READ_BATCH_BYTES (GetK (get_args req m)).

(** The object after a GET: the access is recorded, the alarm set. *)
Definition accessed (o : Object) : Object :=
  syncExpiryAlarm (en_now e) (upd_tables (touchAccess (en_now e)) o).

(** A catch-up GET the object would answer. *)
Record plain_get (req : Request) (m : StreamMeta) : Prop := {
  pg_method : rq_method req = "GET"%string;
  pg_query : parse_get req = None;
  pg_live : query_get "live" req = None;
  pg_offset : query_get "offset" req <> Some "now"%string;
  pg_there : sm_softDeleted m = false;
  pg_alive : isExpired m (en_now e) = false;
}.

Lemma fetch_get p origin req m o :
  plain_get req m -> getMetaRaw o = Some m ->
  fetch do_id e p origin req o =
    readStitched (do_id p) (en_now e) (en_rnd e) (get_batch (do_id p) (en_now e) (en_rnd e)) (get_stitch req m) o.
Proof.
  intros [Hmt Hq Hl Hn Hs Ha] Hm. unfold fetch. rewrite Hmt. cbn [String.eqb Ascii.eqb Bool.eqb].
  unfold handleGet, with_meta, getMeta. rewrite Hm, Ha, Hs, Hq, Hl.
  rewrite (bool_decide_eq_false_2 (query_get "offset" req = _)) by done.
  unfold get_stitch, get_args. rewrite Hl. done.
Qed.

Lemma get_read_done p req m b o :
  plain_get req m ->
  read_done (do_id p) (en_now e) (en_rnd e) (get_stitch req m) b (get_batch (do_id p) (en_now e) (en_rnd e)) o =
    (accessed o, Now (Respond (get_response (do_id p) (en_now e) (en_rnd e) (get_args req m) (rb_messages b)
                                 (negb (rb_capped b)) (accessed o)))).
Proof. intros [_ _ Hl _ _ _]. cbn [read_done get_stitch sa_then]. unfold get_batch. cbn [ga_live get_args]. by rewrite Hl. Qed.

(** A GET comes to an end with a batch. *)
Lemma get_answered U p origin req m w :
  tables_ok U (db_of w) -> next_free w -> record_of p w = Some m -> plain_get req m ->
  exists evs w' b, Forall (forwards e) evs /\
    run do_id (Arrive e p origin req :: evs) w =
      (w', [(next w, Respond (get_response (do_id p) (en_now e) (en_rnd e) (get_args req m) (rb_messages b)
                                (negb (rb_capped b)) (accessed (object_of p w))))]) /\
    batch_of None (window (db_of w) p (query_get "offset" req) None) b.
Proof.
  intros Hok Hnf Hm Hg. pose proof Hm as Hmeta. rewrite record_meta in Hmeta.
  pose proof (fetch_get p origin req m (object_of p w) Hg Hm) as Hf. unfold readStitched in Hf.
  cbn [get_stitch sa_meta sa_afterOffset sa_capOffset] in Hf.
  destruct (inherits m (query_get "offset" req) None) as [[r c]|] eqn:Hi; cycle 1.
  { rewrite get_read_done in Hf by done. eexists [], _, _. split; [done|]. split.
    - cbn [run step]. unfold spawn. rewrite Hf. cbn [proceed end_turn]. reflexivity.
    - exact (read_own_batch U (db_of w) Hok (get_stitch req m) (object_of p w) p m Hmeta (at_object w p) Hi). }
  set (n := next w). set (rpc := readRange _ _ _ _) in Hf.
  set (w1 := mkWorld (<[p := object_of p w]> (objects w))
    (<[n := mkTask p Client false (Calling r rpc Sent (InheritedK (get_stitch req m)))]> (tasks w)) (S n)).
  assert (Hstep : step do_id (Arrive e p origin req) w = (w1, None)).
  { cbn [step]. unfold spawn. rewrite Hf. reflexivity. }
  assert (Hsame1 : same_objects w w1) by (by apply (same_objects_set w w1 p)).
  destruct (read_call_answered do_id e U r w1 n p Client false (normalized_after (query_get "offset" req)) c None
    (Some MAX_READ_BATCH_BYTES) (InheritedK (get_stitch req m))
    (tables_ok_same U w w1 Hok Hsame1)) as (w2 & inh & (evs & Hall & Hrun) & Hsame2 & _ & Htasks & Hinh).
  { intros id Hid. cbn in Hid |- *. rewrite lookup_insert_ne by lia. apply Hnf. lia. }
  { apply lookup_insert_eq. }
  rewrite (same_objects_window w w1), window_normalized in Hinh by done.
  assert (Hsame : same_objects w w2) by (by transitivity w1).
  destruct (inherited_batch U (db_of w) Hok (do_id p) (en_now e) (en_rnd e)
    (get_batch (do_id p) (en_now e) (en_rnd e)) (get_stitch req m) (object_of p w) p m r c inh Hmeta
    (at_object w p) eq_refl Hi Hinh) as (b & Hread & Hb).
  rewrite get_read_done in Hread by done.
  eexists (evs ++ [Resume e n]), _, b. split; [apply list.Forall_app; split; [done|by repeat constructor]|]. split; [|exact Hb].
  cbn [run]. rewrite Hstep. erewrite run_app; [|exact Hrun|]; cycle 1.
  { cbn [run step]. rewrite Htasks, lookup_insert_eq. unfold go_on. cbn [tk_path tk_origin resume].
    rewrite (Hsame p), Hread. cbn [proceed end_turn]. reflexivity. }
  reflexivity.
Qed.

(** ** The response *)

Lemma touched_meta now o m :
  getMetaRaw o = Some m -> getMetaRaw (upd_tables (touchAccess now) o) = Some (with_lastAccessedAt now m).
Proof. unfold getMetaRaw. cbn. by intros ->. Qed.

Lemma accessed_meta o m :
  getMetaRaw o = Some m -> getMetaRaw (accessed o) = Some (with_lastAccessedAt (en_now e) m).
Proof.
  intros Hm. unfold accessed, getMetaRaw at 1. rewrite tables_syncExpiryAlarm.
  exact (touched_meta (en_now e) o m Hm).
Qed.

Definition body_of (m : StreamMeta) (ms : list StoredMessage) : bytes :=
  if is_json (sm_contentType m) then Cloudflare.formatJsonMessages (sd_data <$> ms) else concat_messages ms.

Lemma get_response_fields p req m b o :
  query_get "live" req = None -> req_header "if-none-match" req = None -> getMetaRaw o = Some m ->
  let r := get_response (do_id p) (en_now e) (en_rnd e) (get_args req m) (rb_messages b) (negb (rb_capped b)) (accessed o) in
  rs_status r = 200 /\ rs_body r = body_of m (rb_messages b) /\
  rs_header STREAM_OFFSET_HEADER r = Some (or_else (sd_offset <$> list.last (rb_messages b)) (sm_currentOffset m)) /\
  rs_header STREAM_UP_TO_DATE_HEADER r = (if rb_capped b then None else Some "true"%string).
Proof.
  intros Hl Hi Hm. cbn zeta. unfold get_response. rewrite (accessed_meta o m Hm).
  cbn [or_else ga_ifNoneMatch get_args]. rewrite Hi, bool_decide_eq_false_2 by done.
  unfold is_live. cbn [ga_live get_args]. rewrite Hl, bool_decide_eq_false_2 by done.
  split_and!; [done|done| |]; unfold rs_header, respond; cbn [rs_headers].
  - by destruct (sm_contentType _).
  - destruct (sm_contentType _), (rb_capped b); cbn [negb when]; try done;
      by destruct (sm_closed _ && _ && _).
Qed.

(** C18: a GET can always be answered, however long the chain of forks below its
    stream: in every state the network of objects reaches by safe events (those of
    C8), for a stream that is there, neither marked as deleted nor expired, from the
    arrival of a well-formed catch-up GET on, without If-None-Match and not from the
    offset now, it takes only running and answering the calls it makes to get the
    response, status 200, whose body is the beginning of what the
    stream's log, inherited messages included, holds after the requested offset:
    not empty unless nothing is there, complete if the response says it is up to
    date, and with the offset to go on from. *)
Theorem cloudflare_get_window (evs : list Event) (p origin : string) (req : Request) (m : StreamMeta) :
  let w := (run do_id evs empty_world).1 in
  run_safe do_id ∅ evs empty_world -> record_of p w = Some m -> plain_get req m ->
  req_header "if-none-match" req = None ->
  exists calls w' r ms rest,
    Forall (forwards e) calls /\
    run do_id (Arrive e p origin req :: calls) w = (w', [(next w, Respond r)]) /\
    stored_of <$> selected (query_get "offset" req) None (log (abs (db_of w)) p) = ms ++ rest /\
    rs_status r = 200 /\ rs_body r = body_of m ms /\
    rs_header STREAM_OFFSET_HEADER r = Some (or_else (sd_offset <$> list.last ms) (sm_currentOffset m)) /\
    (ms = [] -> rest = []) /\
    (rs_header STREAM_UP_TO_DATE_HEADER r = Some "true"%string -> rest = []).
Proof.
  intros w Hs Hm Hg Hi. pose proof (run_good do_id ∅ evs empty_world world_ok_empty Hs) as Hw. fold w in Hw.
  destruct (get_answered (drawn ∅ evs) p origin req m w (wo_tables _ _ Hw) (wo_next _ _ Hw) Hm Hg)
    as (calls & w' & b & Hall & Hrun & [[rest Hw1] Hw2 Hw3 _ _]).
  destruct (get_response_fields p req m b (object_of p w) (pg_live _ _ Hg) Hi Hm) as (Hst & Hbo & Ho & Hu).
  eexists calls, w', _, (rb_messages b), rest. fold (window (db_of w) p (query_get "offset" req) None).
  split_and!; [done|exact Hrun|done|done|done|done| |].
  - intros E. rewrite E in Hw1. cbn in Hw1. destruct rest as [|x rest]; [done|].
    destruct Hw3; [by rewrite Hw1|done|done].
  - rewrite Hu. destruct (rb_capped b); [done|]. intros _. specialize (Hw2 eq_refl). rewrite Hw1 in Hw2.
    apply (f_equal length) in Hw2. rewrite length_app in Hw2. destruct rest; [done|cbn in Hw2; lia].
Qed.
End get.
