(* ===== verification/CloudflareScenarios.v ===== *)
(** * A scripted session of the Cloudflare server

    ["/a"] is created and forked in the middle as ["/b"], whose answer to the
    acquire is delayed; ["/a"] is deleted, which only marks it; ["/b"] is read
    through its source, the source is thrown out of memory; deleting ["/b"]
    releases the edge, and ["/a"] goes.  Then ["/b"] is followed by an SSE
    connection, and there are sessions that go wrong. *)

From S2P Require Import Prelude Offsets Producer Text Json Types JsonInstance JsonMode StreamStore StoreLemmas StoreSteps StoreGraph ForkRead StoreTheorems Cursor PathEncoding Sse Http SqliteStore StreamObject ObjectCreate ObjectRead ObjectWrite CloudflareWorld CloudflareInvariant CloudflareMoves CloudflareHandlers CloudflareForks CloudflareEvents CloudflareTheorems CloudflareReads.
Local Open Scope js_scope.

#[local] Existing Instance integer_json.
#[local] Existing Instance decimal_date.

Definition object_id (p : string) : string := p.

Definition cf_request (method path : string) (query headers : list (string * string)) (body : string) : Request :=
  mkRequest method path query (list_to_map headers) (text body).

Definition at_time (now : Z) (uuid : string) : Env := mkEnv now 0 uuid false.

Definition arrive (now : Z) (uuid method path : string) (query headers : list (string * string)) (body : string) : Event :=
  Arrive (at_time now uuid) path "https://s.example" (cf_request method path query headers body).

(** ["/a"] with two messages, and its fork. *)
Definition create_and_fork : list Event :=
  [arrive 1 "u1" "PUT" "/a" [] [("content-type", "text/plain")] "hello";
   arrive 2 "u2" "POST" "/a" [] [("content-type", "text/plain")] "there";
   arrive 3 "u3" "PUT" "/b" [] [("stream-forked-from", "/a"); ("stream-fork-offset", mk_offset 10)] "";
   Start (at_time 4 "u4") 2;
   Run (at_time 5 "u5") 2;
   Evict "/a";
   Resume (at_time 6 "u6") 2]%string.

(** Appends to both, and ["/a"] is deleted. *)
Definition use_and_delete : list Event :=
  [arrive 7 "u7" "POST" "/b" [] [("content-type", "text/plain")] "own";
   arrive 8 "u8" "POST" "/a" [] [("content-type", "text/plain")] "later";
   arrive 9 "u9" "DELETE" "/a" [] [] "";
   arrive 10 "u10" "GET" "/b" [("offset", "-1")] [] "";
   Run (at_time 11 "u11") 7;
   Resume (at_time 12 "u12") 7]%string.

(** ["/b"] is deleted: its release is lost once, and delivered by the alarm. *)
Definition release_source : list Event :=
  [arrive 13 "u13" "DELETE" "/b" [] [] "";
   Run (at_time 14 "u14") 9;
   Resume (at_time 15 "u15") 9]%string.

Definition session : list Event := create_and_fork ++ use_and_delete ++ release_source.

Definition replies (outs : list (nat * After)) : list (nat * Z) :=
  omap (fun x => match x.2 with Respond r => Some (x.1, rs_status r) | _ => None end) outs.

Lemma session_replies :
  replies (run object_id session empty_world).2 =
    [(0%nat, 201); (1%nat, 204); (2%nat, 201); (4%nat, 204); (5%nat, 204); (6%nat, 204); (7%nat, 200); (9%nat, 204)].
Proof. vm_compute. reflexivity. Qed.

Lemma session_safe : run_safeb object_id ∅ session empty_world = true.
Proof. vm_compute. reflexivity. Qed.

(** ** The claims, at this session *)

Definition before_fork : World := (run object_id (take 6 create_and_fork) empty_world).1.
Definition fork_resumes : Event := Resume (at_time 6 "u6") 2.
Definition after_fork : World := (step object_id fork_resumes before_fork).1.

Lemma before_fork_ok : world_ok (drawn ∅ (take 6 create_and_fork)) before_fork.
Proof. apply run_good; [apply world_ok_empty|]. apply cloudflare_run_safeb_sound. vm_compute. reflexivity. Qed.

Lemma cloudflare_step_refines_witness :
  world_ok (ids fork_resumes ∪ drawn ∅ (take 6 create_and_fork)) after_fork /\
  steps true (Some "/b") (abs (db_of before_fork)) (abs (db_of after_fork)) /\
  abs (db_of before_fork) !! "/b" = None /\ msg_data <$> log (abs (db_of after_fork)) "/b" = [text "hello"].
Proof.
  destruct (cloudflare_step_refines object_id (drawn ∅ (take 6 create_and_fork)) fork_resumes before_fork)
    as [Hw Hs].
  - exact before_fork_ok.
  - apply event_safeb_sound. vm_compute. reflexivity.
  - split; [exact Hw|]. split; [|split; vm_compute; reflexivity].
    assert (Ha : acting fork_resumes before_fork = Some "/b"%string) by (vm_compute; reflexivity).
    rewrite Ha in Hs. exact Hs.
Defined.

(** After the source was deleted and thrown out of memory. *)
Definition kept : list Event := create_and_fork ++ use_and_delete.

Lemma kept_safe : run_safe object_id ∅ kept empty_world.
Proof. apply cloudflare_run_safeb_sound. vm_compute. reflexivity. Qed.

Definition fork_record : StreamMeta :=
  Eval vm_compute in or_else (record_of "/b" (run object_id kept empty_world).1)
    (mkStreamMeta "" None None None false None "" None 0 0 None None None None None false).

Lemma cloudflare_fork_source_kept_witness :
  exists s, record_of "/a" (run object_id kept empty_world).1 = Some s /\ sm_softDeleted s = true /\
    sm_forkSourceGen fork_record = Some (sm_generation s).
Proof.
  destruct (cloudflare_fork_source_kept object_id kept "/b" "/a" fork_record kept_safe)
    as (s & e & fo & Hs & Hg & _).
  - vm_compute. reflexivity.
  - reflexivity.
  - exists s. split; [exact Hs|]. split; [|exact Hg].
    assert (E : record_of "/a" (run object_id kept empty_world).1 = Some s) by exact Hs.
    revert E. vm_compute. intros [= <-]. reflexivity.
Defined.

Lemma cloudflare_edges_accounted_witness :
  exists p, let o := object_of p (run object_id (create_and_fork ++ use_and_delete ++ take 1 release_source) empty_world).1 in
    (exists i, t_fork_intents (ob_tables o) !! "u4" = Some i /\ in_parentPath i = "/a") \/
    (exists m, getMetaRaw o = Some m /\ sm_forkEdgeId m = Some "u4" /\ sm_forkedFrom m = Some "/a") \/
    (exists r, t_gc_releases (ob_tables o) !! "u4" = Some r /\ gc_parentPath r = "/a").
Proof.
  apply (cloudflare_edges_accounted object_id (create_and_fork ++ use_and_delete ++ take 1 release_source)
    "/a" "u4" (mk_offset 10)).
  - apply cloudflare_run_safeb_sound. vm_compute. reflexivity.
  - vm_compute. reflexivity.
Defined.

(** A GET of the fork, whose source is deleted and not in memory. *)
Definition get_fork : Request := cf_request "GET" "/b" [("offset", "-1")] [] "".

Lemma get_fork_plain : plain_get (at_time 13 "u13") get_fork fork_record.
Proof. split; vm_compute; congruence. Qed.

Lemma cloudflare_get_window_witness :
  exists calls w' r ms rest,
    run object_id (Arrive (at_time 13 "u13") "/b" "https://s.example" get_fork :: calls)
      (run object_id kept empty_world).1 = (w', [(9%nat, Respond r)]) /\
    sd_data <$> (ms ++ rest) = [text "hello"; text "own"] /\ rs_status r = 200 /\
    rs_body r = concat_messages ms /\ (ms = [] -> rest = []).
Proof.
  destruct (cloudflare_get_window object_id (at_time 13 "u13") kept "/b" "https://s.example" get_fork fork_record)
    as (calls & w' & r & ms & rest & _ & Hrun & Hw & Hs & Hb & _ & Hne & _).
  - exact kept_safe.
  - vm_compute. reflexivity.
  - exact get_fork_plain.
  - reflexivity.
  - exists calls, w', r, ms, rest. split; [|split; [|split; [exact Hs|split; [exact Hb|exact Hne]]]].
    + assert (En : next (run object_id kept empty_world).1 = 9%nat) by (vm_compute; reflexivity).
      rewrite En in Hrun. exact Hrun.
    + rewrite <-Hw. vm_compute. reflexivity.
Defined.

Lemma cloudflare_tables_well_typed_witness :
  well_typed (ob_tables (object_of "/b" (run object_id kept empty_world).1)) /\
  (msg_offset <$> t_messages (ob_tables (object_of "/b" (run object_id kept empty_world).1))) = [mk_offset 18] /\
  sm_forkOffset fork_record = Some (mk_offset 10).
Proof.
  split; [|split; [vm_compute; reflexivity|reflexivity]].
  apply (cloudflare_tables_well_typed object_id kept "/b"). exact kept_safe.
Defined.

(** ** A connection of Server-Sent Events

    The fork is followed from its start: the first chunk holds the inherited
    message and its own, an append wakes the connection, a quiet time makes a
    keep-alive, and the close is the last chunk. *)
Definition follow : list Event :=
  [arrive 7 "u7" "POST" "/b" [] [("content-type", "text/plain")] "own";
   arrive 10 "u10" "GET" "/b" [("offset", "-1"); ("live", "sse")] [] "";
   Written (at_time 11 "u11") 5;
   Run (at_time 12 "u12") 5;
   Resume (at_time 13 "u13") 5;
   Written (at_time 14 "u14") 5;
   arrive 15 "u15" "POST" "/b" [] [("content-type", "text/plain")] "more";
   Wake (at_time 16 "u16") 5;
   Written (at_time 17 "u17") 5;
   Written (at_time 18 "u18") 5;
   Timeout (at_time 30018 "u19") 5;
   Written (at_time 30019 "u20") 5;
   Written (at_time 30020 "u21") 5;
   arrive 30021 "u22" "POST" "/b" [] [("stream-closed", "true")] "";
   Wake (at_time 30022 "u23") 5;
   Written (at_time 30023 "u24") 5]%string.

Definition chunks (id : nat) (outs : list (nat * After)) : list (list Frame) :=
  omap (fun x => match x.2 with Wrote fs => if Nat.eqb x.1 id then Some fs else None | _ => None end) outs.

Definition control_at (offset : Z) (rest : list (string * json)) : Frame :=
  ControlFrame (("streamNextOffset"%string, JStr (mk_offset offset)) :: rest).

Definition up_to_date (cursor : string) : list (string * json) :=
  [("streamCursor"%string, JStr cursor); ("upToDate"%string, JBool true)].

Example fork_followed :
  run_safeb object_id ∅ (create_and_fork ++ follow) empty_world = true /\
  chunks 5 (run object_id (create_and_fork ++ follow) empty_world).2 =
    [[DataFrame "helloown"; control_at 18 (up_to_date "-86421600")];
     [DataFrame "more"; control_at 27 (up_to_date "-86421600")];
     [control_at 27 (up_to_date "-86421599")];
     [control_at 27 (up_to_date "-86421599")];
     [control_at 27 [("streamClosed"%string, JBool true)]]] /\
  list.last (run object_id (create_and_fork ++ follow) empty_world).2 = Some (5%nat, Finished).
Proof. vm_compute. by split_and!. Qed.

(** * Sessions of the Cloudflare server that go wrong

    Each is a run of CloudflareWorld whose end the code does not mean. *)

Definition put (now : Z) (uuid path : string) (headers : list (string * string)) (body : string) : Event :=
  arrive now uuid "PUT" path [] headers body.
Definition delete_at (now : Z) (uuid path : string) : Event := arrive now uuid "DELETE" path [] [] "".

Definition text_plain : string * string := ("content-type", "text/plain")%string.

Definition object_after (p : string) (evs : list Event) : Object :=
  object_of p (run object_id evs empty_world).1.

(** ** An intent that outlives its path

    ["/b"] is thrown out of memory between the acquire of its edge and its
    answer.  Before the alarm goes off, ["/b"] is created as a stream of its
    own; [processForkIntents] returns early because the path is there, and
    nothing arms the alarm again.  The deletion of ["/b"] leaves the intent. *)
Definition interrupted_fork : list Event :=
  [put 1 "u1" "/a" [text_plain] "hello";
   put 3 "u3" "/b" [("stream-forked-from", "/a")] "";
   Start (at_time 4 "u4") 1;
   Run (at_time 5 "u5") 1;
   Evict "/b";
   put 6 "u6" "/b" [text_plain] "";
   AlarmFires (at_time 5004 "u7") "/b";
   Start (at_time 5005 "u8") 4;
   delete_at 5006 "u9" "/b";
   delete_at 5007 "u10" "/a"]%string.

Example intent_outlives_its_path :
  let w := (run object_id interrupted_fork empty_world).1 in
  let a := object_of "/a" w in
  let b := object_of "/b" w in
  (** no request, call or alarm is left, and both deletions were answered *)
  map_to_list (tasks w) = [] /\ ob_alarm a = None /\ ob_alarm b = None /\
  replies (run object_id interrupted_fork empty_world).2 =
    [(0%nat, 201); (3%nat, 201); (5%nat, 204); (6%nat, 204)] /\
  (** but ["/a"] is kept, for an edge that nobody will release *)
  option_map sm_softDeleted (getMetaRaw a) = Some true /\ t_fork_edges (ob_tables a) !! "u4" = Some (mk_offset 10) /\
  getMetaRaw b = None /\ (map_to_list (t_fork_intents (ob_tables b))).*1 = ["u4"%string] /\ map_to_list (t_gc_releases (ob_tables b)) = [].
Proof. vm_compute. by split_and!. Qed.

(** ** A retry that is put off

    ["/b"], a fork of ["/a"], is deleted; the release does not get through, and
    is due again in five seconds.  ["/b"] is thrown out of memory and created
    anew with a time to live of a day: [armAlarmAt], which no longer knows of
    the pending alarm, replaces it. *)
Definition put_off : list Event :=
  [put 1 "u1" "/a" [text_plain] "hello";
   put 3 "u3" "/b" [("stream-forked-from", "/a")] "";
   Start (at_time 4 "u4") 1;
   Run (at_time 5 "u5") 1;
   Resume (at_time 6 "u6") 1;
   delete_at 7 "u7" "/b";
   Lose 3;
   Resume (at_time 8 "u8") 3;
   delete_at 9 "u9" "/a"]%string.

Definition recreated : Event := put 12 "u12" "/b" [text_plain; ("stream-ttl", "86400")]%string "".

Example retry_alarm_overwritten :
  let pending := object_after "/b" put_off in
  let kept := object_after "/b" (put_off ++ [recreated]) in
  let evicted := object_after "/b" (put_off ++ [Evict "/b"; recreated]) in
  ob_alarm pending = Some 5007 /\ ob_alarm kept = Some 5007 /\
  ob_alarm evicted = Some 86400012 /\ (map_to_list (t_gc_releases (ob_tables evicted))).*1 = ["u4"%string] /\
  option_map sm_softDeleted (getMetaRaw (object_after "/a" put_off)) = Some true.
Proof. vm_compute. by split_and!. Qed.

(** ** A fork without its reference

    The database is full when the first message of a fork is stored: the
    [catch] of [createFork] releases the edge and throws, but the row that
    [createMeta] has made stays.  The source can then be deleted for good, and
    the fork has lost what it has inherited. *)
Definition full_at (now : Z) (uuid : string) : Env := mkEnv now 0 uuid true.

Definition full_fork : list Event :=
  [put 1 "u1" "/a" [text_plain] "hello";
   put 3 "u3" "/b" [("stream-forked-from", "/a")] "own";
   Start (at_time 4 "u4") 1;
   Run (at_time 5 "u5") 1;
   Resume (full_at 6 "u6") 1;
   Run (at_time 7 "u7") 1;
   Resume (at_time 8 "u8") 1;
   delete_at 9 "u9" "/a"]%string.

Example failed_fork_keeps_record :
  let w := (run object_id full_fork empty_world).1 in
  In (1%nat, Throw) (run object_id full_fork empty_world).2 /\
  getMetaRaw (object_of "/a" w) = None /\
  option_map sm_forkedFrom (getMetaRaw (object_of "/b" w)) = Some (Some "/a"%string) /\
  option_map sm_softDeleted (getMetaRaw (object_of "/b" w)) = Some false.
Proof. vm_compute. split_and!; auto. Qed.

(** ** An ETag of another stream

    The tag is made of the object and the offsets.  A stream that is deleted and
    created again with a first message of the same length has the same tag. *)
Definition get_again (tag : string) : Request := cf_request "GET" "/a" [("offset", "-1")]%string [("if-none-match", tag)]%string "".

Definition tag_of (p : string) (evs : list Event) : string :=
  match (run object_id (evs ++ [arrive 20 "u20" "GET" p [("offset", "-1")]%string [] ""]) empty_world).2 with
  | [_; (_, Respond r)] => or_else (rs_header "etag" r) EmptyString
  | _ => EmptyString
  end.

Definition first_tag : string := tag_of "/a" [put 1 "u1" "/a" [text_plain] "hello"].

Example etag_survives_deletion :
  let evs := [put 1 "u1" "/a" [text_plain] "hello"; delete_at 21 "u21" "/a"; put 22 "u22" "/a" [text_plain] "other";
              Arrive (at_time 23 "u23") "/a" "https://s.example" (get_again first_tag)] in
  replies (run object_id evs empty_world).2 = [(0%nat, 201); (1%nat, 204); (2%nat, 201); (3%nat, 304)] /\
  msg_data <$> t_messages (ob_tables (object_after "/a" evs)) = [text "other"].
Proof. vm_compute. by split_and!. Qed.
