(* ===== verification/Server.v ===== *)
(** * The HTTP handlers: class [DurableStreamTestServer] of
    [packages/server/src/server.ts]

    A handler is a function of the server in the monad [M].  The handlers run to
    their end at once, except where they wait for messages: a long-poll and an
    SSE connection return what they go on with when the promise of
    [waitForMessages] is settled.  The store is the in-memory one.

    The parts of the server the handlers call and that keep no stream data, the
    lifecycle hooks and the subscription manager, are the list of the calls
    made to them. *)

From S2P Require Import Prelude Offsets Producer Text Json Types JsonMode StreamStore Cursor PathEncoding Sse Http.
Local Open Scope js_scope.

(** ** State *)

(** What [handleRequest] catches: an error of the store, or the [TypeError] of
    a property of [undefined]. *)
Inductive HandlerError :=
| Thrown (e : StoreError)
| TypeError.

Definition handler_message (e : HandlerError) : string :=
  match e with
  | Thrown e => error_message e
  | TypeError => "Cannot read properties of undefined"
  end.

Inductive Call :=
| StreamCreatedHook (path contentType : string) (timestamp : Z)
| StreamDeletedHook (path : string) (timestamp : Z)
| onStreamAppend (path : string)
| onStreamDeleted (path : string).

Record InjectedFault := mkInjectedFault {
  f_status : option Z;
  f_count : Z;
  f_retryAfter : option Z;
  f_dropConnection : bool;
  f_truncateBodyBytes : option Z;
  f_probability : bool;
  f_method : option string;
  f_corruptBody : bool;
  f_injectSseEvent : option (string * string);
}.

Record Server := mkServer {
  store : StreamStore;
  injectedFaults : gmap string InjectedFault;
  calls : list Call;
}.

Record ServerOptions := mkServerOptions {
  opt_compression : bool;
  opt_cursorOptions : CursorOptions;
  opt_onStreamCreated : bool;
  opt_onStreamDeleted : bool;
  opt_url : string;
}.

Definition HM (A : Type) : Type := M Server HandlerError A.

Definition set_store (st : StreamStore) (sv : Server) : Server :=
  mkServer st (injectedFaults sv) (calls sv).

(** A method of the store, called by a handler. *)
Definition on_store {A} (m : M StreamStore StoreError A) : HM A := fun sv =>
  let '(st, r) := m (store sv) in
  (set_store st sv, match r with Ok a => Ok a | Err e => Err (Thrown e) end).

Definition on_store_call {A} (f : StreamStore -> StreamStore * A) : HM A := on_store (call f).

Definition on_store_do (f : StreamStore -> StreamStore) : HM unit := on_store (modify f).

Definition notify (c : Call) : HM unit :=
  modify (fun sv => mkServer (store sv) (injectedFaults sv) (calls sv ++ [c])).

(** ** Injected faults *)

(** [consumeInjectedFault]; [unlucky] is [Math.random() > fault.probability]. *)
Definition consumeInjectedFault (unlucky : bool) (path method : string) (sv : Server)
    : Server * option InjectedFault :=
  match injectedFaults sv !! path with
  | None => (sv, None)
  | Some fault =>
      if truthy (f_method fault) &&
         negb (String.eqb (js_upper (or_else (f_method fault) EmptyString)) (js_upper method))
      then (sv, None)
      else if f_probability fault && unlucky then (sv, None)
      else
        let fault := mkInjectedFault (f_status fault) (f_count fault - 1) (f_retryAfter fault)
          (f_dropConnection fault) (f_truncateBodyBytes fault) (f_probability fault)
          (f_method fault) (f_corruptBody fault) (f_injectSseEvent fault) in
        (mkServer (store sv)
           (if f_count fault <=? 0 then delete path (injectedFaults sv)
            else <[path := fault]> (injectedFaults sv)) (calls sv), Some fault)
  end.

(** [modified.slice(0, n)] *)
Definition js_slice_to (n : Z) (l : bytes) : bytes :=
  if n <? 0 then take (Z.to_nat (Z.of_nat (length l) + n)) l else take (Z.to_nat n) l.

(** [applyFaultBodyModification]; [positions] are the random positions drawn. *)
Definition applyFaultBodyModification (positions : list nat) (fault : option InjectedFault)
    (body : bytes) : bytes :=
  match fault with
  | None => body
  | Some fault =>
      let modified :=
        match f_truncateBodyBytes fault with
        | Some n => if n <? Z.of_nat (length body) then js_slice_to n body else body
        | None => body
        end in
      if f_corruptBody fault && (0 <? length modified)%nat then
        let modified := <[0%nat := "X"%char]> modified in
        let modified :=
          if (1 <? length modified)%nat then <[1%nat := "Y"%char]> modified else modified in
        let numCorrupt := Nat.max 1 (length modified / 10) in
        foldl (fun m pos => <[pos := "Z"%char]> m) modified (take numCorrupt positions)
      else modified
  end.

Section server.
Context `{!JsonLib} `{!DateLib} `{!ZlibLib}.
Context (options : ServerOptions).

(** The clock, the random number of the cursor's jitter, and the positions
    drawn by a fault, during one run of a handler. *)
Context (now rnd : Z) (positions : list nat).

(** ** PUT *)

(** The headers of a PUT: the options for [create], or the reply of 400. *)
Definition parse_create (req : Request) : result Response CreateOptions :=
  let content_type := req_header "content-type" req in
  let forkedFromHeader := req_header "stream-forked-from" req in
  let forkOffsetHeader := req_header "stream-fork-offset" req in
  let forkSubOffsetHeader := req_header "stream-fork-sub-offset" req in
  let content_type :=
    if negb (truthy content_type) ||
       String.eqb (js_trim (or_else content_type EmptyString)) EmptyString ||
       negb (media_type (or_else content_type EmptyString))
    then if truthy forkedFromHeader then None else Some "application/octet-stream"%string
    else content_type in
  let ttlHeader := req_header "stream-ttl" req in
  let expiresAtHeader := req_header "stream-expires-at" req in
  let createClosed := bool_decide (req_header "stream-closed" req = Some "true"%string) in
  if truthy ttlHeader && truthy expiresAtHeader
  then Err (plain 400 "Cannot specify both Stream-TTL and Stream-Expires-At")
  else if truthy ttlHeader && negb (plain_integer (or_else ttlHeader EmptyString))
  then Err (plain 400 "Invalid Stream-TTL value")
  else
    let ttl_seconds := if truthy ttlHeader then js_parseInt (or_else ttlHeader EmptyString) else None in
    if truthy expiresAtHeader &&
       bool_decide (date_getTime (or_else expiresAtHeader EmptyString) = None)
    then Err (plain 400 "Invalid Stream-Expires-At timestamp")
    else if truthy forkOffsetHeader && negb (valid_offset_format (or_else forkOffsetHeader EmptyString))
    then Err (plain 400 "Invalid Stream-Fork-Offset format")
    else
      let options fork_sub_offset :=
        mkCreateOptions content_type ttl_seconds expiresAtHeader
          (if (0 <? length (rq_body req))%nat then Some (rq_body req) else None)
          (Some createClosed) forkedFromHeader forkOffsetHeader fork_sub_offset in
      match forkSubOffsetHeader with
      | None => Ok (options None)
      | Some sub =>
          if negb (truthy forkedFromHeader)
          then Err (plain 400 "Stream-Fork-Sub-Offset requires Stream-Forked-From")
          else if negb (plain_integer sub)
          then Err (plain 400 "Invalid Stream-Fork-Sub-Offset format")
          else Ok (options (js_parseInt sub))
      end.

(** The errors of [create] that [handleCreate] answers itself. *)
Definition create_error (e : HandlerError) : option Response :=
  let message := handler_message e in
  if includes "Source stream not found" message then Some (plain 404 "Source stream not found")
  else if includes "Invalid fork sub-offset" message then Some (plain 400 "Invalid fork sub-offset")
  else if includes "Invalid fork offset" message
  then Some (plain 400 "Fork offset beyond source stream length")
  else if includes "soft-deleted" message
  then Some (plain 409 "source stream was deleted but still has active forks")
  else if includes "Content type mismatch" message
  then Some (plain 409 "Content type mismatch with source stream")
  else None.

(** What follows a successful [create]. *)
Definition finish_create (path : string) (o : CreateOptions) (isNew : bool) : HM Response :=
  let* stream := on_store_call (get now path) in
  match stream with
  | None => throw TypeError
  | Some stream =>
      let resolvedContentType :=
        match contentType stream, co_contentType o with
        | Some ct, _ => ct
        | None, Some ct => ct
        | None, None => "application/octet-stream"%string
        end in
      do (if isNew && opt_onStreamCreated options
          then notify (StreamCreatedHook path resolvedContentType now) else ret tt) ;;
      do (if isNew && (if co_initialData o then true else false)
          then notify (onStreamAppend path) else ret tt) ;;
      ret (mkResponse (if isNew then 201 else 200)
        ([("content-type", resolvedContentType); (STREAM_OFFSET_HEADER, currentOffset stream)] ++
         when isNew ("location", opt_url options +:+ path) ++
         when (closed stream) (STREAM_CLOSED_HEADER, "true")) []) 
  end.

(** [handleCreate] *)
Definition handleCreate (path : string) (req : Request) : HM Response :=
  match parse_create req with
  | Err r => ret r
  | Ok o =>
      let* present := on_store_call (has now path) in
      let isNew := negb present in
      let* created :=
        try_catch (let* _ := on_store (create now path o) in ret None)
          (fun e => match create_error e with Some r => ret (Some r) | None => throw e end) in
      match created with
      | Some r => ret r
      | None => finish_create path o isNew
      end
  end.

(** ** HEAD *)

(** [handleHead] *)
Definition handleHead (path : string) : HM Response :=
  let* stream := on_store_call (get now path) in
  match stream with
  | None => ret (mkResponse 404 TEXT_PLAIN [])
  | Some stream =>
      if softDeleted stream then ret (mkResponse 410 TEXT_PLAIN [])
      else
        ret (mkResponse 200
          ([(STREAM_OFFSET_HEADER, currentOffset stream); ("cache-control", "no-store"%string)] ++
           (if truthy (contentType stream) then when_some "content-type" (contentType stream) else []) ++
           when (closed stream) (STREAM_CLOSED_HEADER, "true") ++
           when_some STREAM_TTL_HEADER (js_String <$> ttlSeconds stream) ++
           (if truthy (expiresAt stream) then when_some STREAM_EXPIRES_AT_HEADER (expiresAt stream) else []) ++
           [("etag", etag path "-1" (currentOffset stream) (closed stream))]) [])
  end.

(** ** GET *)

(** What a read keeps across its [await]. *)
Record ReadCont := mkReadCont {
  rc_path : string;
  rc_offset : option string;
  rc_effectiveOffset : option string;
  rc_live : option string;
  rc_cursor : option string;
  rc_ifNoneMatch : option string;
  rc_acceptEncoding : option string;
  rc_fault : option InjectedFault;
}.

(** An SSE connection. *)
Record SSEConn := mkSSEConn {
  sc_path : string;
  sc_cursor : option string;
  sc_useBase64 : bool;
  sc_json : bool;
}.

Inductive ReadStep :=
| Replied (r : Response)
| Polling (id : nat) (c : ReadCont)
| StartSSE (c : SSEConn) (initialOffset : string).

Definition is_live (live : option string) (mode : string) : bool :=
  bool_decide (live = Some mode).

(** The query of a GET: [offset], [live] and [cursor], or the reply of 400. *)
Definition parse_read (req : Request)
    : result Response (option string * option string * option string) :=
  let offset := query_get "offset" req in
  let live := query_get "live" req in
  let cursor := query_get "cursor" req in
  let bad :=
    match offset with
    | Some o =>
        if String.eqb o EmptyString then Some (plain 400 "Empty offset parameter")
        else if (1 <? length (query_all "offset" req))%nat
        then Some (plain 400 "Multiple offset parameters not allowed")
        else if negb (valid_offset o) then Some (plain 400 "Invalid offset format")
        else None
    | None => None
    end in
  match bad with
  | Some r => Err r
  | None =>
      if (is_live live "long-poll" || is_live live "sse") && negb (truthy offset)
      then Err (plain 400 ((if is_live live "sse" then "SSE" else "Long-poll") +:+
                           " requires offset parameter"))
      else Ok (offset, live, cursor)
  end.

(** Whether the data of a stream is sent in base64 over SSE. *)
Definition needs_base64 (content_type : option string) : bool :=
  let ct :=
    js_trim (or_else (head (split_on ";" (js_lower (or_else content_type EmptyString)))) EmptyString) in
  negb (starts_with "text/" ct || String.eqb ct "application/json").

Definition includes_json (content_type : option string) : bool :=
  match content_type with Some ct => includes "application/json" ct | None => false end.

Definition response_cursor (c : option string) : string :=
  generateResponseCursor now rnd c (opt_cursorOptions options).

(** The end of [handleRead]: the reply with [messages]; [stream] is the object
    fetched at the start, as it is now. *)
Definition finish_read (c : ReadCont) (stream : Stream) (messages : list StreamMessage)
    : HM Response :=
  let upToDate := true in
  let responseOffset := or_else (msg_offset <$> list.last messages) (currentOffset stream) in
  let* currentStream := on_store_call (get now (rc_path c)) in
  let clientAtTail := bool_decide (Some responseOffset = (currentOffset <$> currentStream)) in
  let closed_at_tail :=
    match currentStream with Some s => closed s | None => false end && clientAtTail && upToDate in
  let tag := etag (rc_path c) (or_else (rc_offset c) "-1"%string) responseOffset closed_at_tail in
  let headers :=
    (if truthy (contentType stream) then when_some "content-type" (contentType stream) else []) ++
    [(STREAM_OFFSET_HEADER, responseOffset)] ++
    when (is_live (rc_live c) "long-poll") (STREAM_CURSOR_HEADER, response_cursor (rc_cursor c)) ++
    when upToDate (STREAM_UP_TO_DATE_HEADER, "true"%string) ++
    when closed_at_tail (STREAM_CLOSED_HEADER, "true"%string) ++
    [("etag"%string, tag)] in
  if truthy (rc_ifNoneMatch c) && bool_decide (rc_ifNoneMatch c = Some tag)
  then ret (mkResponse 304 [("etag"%string, tag)] [])
  else
    let* responseData := on_store (formatResponse now (rc_path c) messages) in
    let enc :=
      if opt_compression options && (COMPRESSION_THRESHOLD <=? Z.of_nat (length responseData))
      then getCompressionEncoding (rc_acceptEncoding c) else None in
    let '(finalData, enc_headers) :=
      match enc with
      | Some e => (compress e responseData,
          [("content-encoding", encoding_text e); ("vary", "accept-encoding")]%string)
      | None => (responseData, [])
      end in
    let finalData := applyFaultBodyModification positions (rc_fault c) finalData in
    ret (mkResponse 200 (headers ++ enc_headers) finalData).

(** [handleRead] from the [await] of [waitForMessages] on. *)
Definition after_wait (c : ReadCont) (stream : Stream) (r : LongPollResult) : HM Response :=
  do on_store_do (touchAccess now (rc_path c)) ;;
  let tail := or_else (rc_effectiveOffset c) (currentOffset stream) in
  if or_else (lr_streamClosed r) false then
    ret (mkResponse 204
      [(STREAM_OFFSET_HEADER, tail); (STREAM_UP_TO_DATE_HEADER, "true"%string);
       (STREAM_CURSOR_HEADER, response_cursor (rc_cursor c));
       (STREAM_CLOSED_HEADER, "true"%string)] [])
  else if lr_timedOut r then
    let* currentStream := on_store_call (get now (rc_path c)) in
    ret (mkResponse 204
      ([(STREAM_OFFSET_HEADER, tail); (STREAM_UP_TO_DATE_HEADER, "true"%string);
        (STREAM_CURSOR_HEADER, response_cursor (rc_cursor c))] ++
       when (match currentStream with Some s => closed s | None => false end)
         (STREAM_CLOSED_HEADER, "true"%string)) [])
  else finish_read c stream (lr_messages r).

(** The reply to [offset=now] without long-poll. *)
Definition reply_now (stream : Stream) : Response :=
  mkResponse 200
    ([(STREAM_OFFSET_HEADER, currentOffset stream); (STREAM_UP_TO_DATE_HEADER, "true"%string);
      ("cache-control", "no-store")%string] ++
     (if truthy (contentType stream) then when_some "content-type" (contentType stream) else []) ++
     when (closed stream) (STREAM_CLOSED_HEADER, "true"%string))
    (if includes_json (contentType stream) then encode_text "[]" else []).

(** The reply to a long-poll at the tail of a closed stream. *)
Definition reply_closed (stream : Stream) : Response :=
  mkResponse 204
    [(STREAM_OFFSET_HEADER, currentOffset stream); (STREAM_UP_TO_DATE_HEADER, "true"%string);
     (STREAM_CLOSED_HEADER, "true"%string)] [].

(** [handleRead] past the checks of its query, for a catch-up read or a
    long-poll. *)
Definition read_or_poll (c : ReadCont) (stream : Stream) : HM ReadStep :=
  let path := rc_path c in
  let* messages := on_store (read now path (rc_effectiveOffset c)) in
  do on_store_do (touchAccess now path) ;;
  let clientIsCaughtUp :=
    (truthy (rc_effectiveOffset c) &&
     bool_decide (rc_effectiveOffset c = Some (currentOffset stream))) ||
    bool_decide (rc_offset c = Some "now"%string) in
  if is_live (rc_live c) "long-poll" && clientIsCaughtUp && (length messages =? 0)%nat then
    if closed stream then ret (Replied (reply_closed stream))
    else
      let* outcome :=
        on_store (waitForMessages now path (or_else (rc_effectiveOffset c) (currentOffset stream))) in
      match outcome with
      | Immediate r => let* reply := after_wait c stream r in ret (Replied reply)
      | Waiting id => ret (Polling id c)
      end
  else let* reply := finish_read c stream messages in ret (Replied reply).

(** [handleRead] *)
Definition handleRead (path : string) (req : Request) (fault : option InjectedFault) : HM ReadStep :=
  let* stream := on_store_call (get now path) in
  match stream with
  | None => ret (Replied (plain 404 "Stream not found"))
  | Some stream =>
      if softDeleted stream then ret (Replied (plain 410 "Stream is gone"))
      else
        match parse_read req with
        | Err r => ret (Replied r)
        | Ok (offset, live, cursor) =>
            let now_ := bool_decide (offset = Some "now"%string) in
            if is_live live "sse" then
              ret (StartSSE
                (mkSSEConn path cursor (needs_base64 (contentType stream))
                   (includes_json (contentType stream)))
                (if now_ then currentOffset stream else or_else offset EmptyString))
            else
              let effectiveOffset := if now_ then Some (currentOffset stream) else offset in
              if now_ && negb (is_live live "long-poll") then
                do on_store_do (touchAccess now path) ;;
                ret (Replied (reply_now stream))
              else
                read_or_poll
                  (mkReadCont path offset effectiveOffset live cursor
                     (req_header "if-none-match" req) (req_header "accept-encoding" req) fault)
                  stream
        end
  end.

(** *** Server-Sent Events *)

(** The headers of the stream of events. *)
Definition sse_headers (c : SSEConn) : list (string * string) :=
  [("content-type", "text/event-stream"); ("cache-control", "no-cache");
   ("connection", "keep-alive"); ("access-control-allow-origin", "*");
   ("x-content-type-options", "nosniff"); ("cross-origin-resource-policy", "cross-origin")]%string ++
  when (sc_useBase64 c) (STREAM_SSE_DATA_ENCODING_HEADER, "base64"%string).

(** What an injected fault writes before the stream's own events. *)
Definition sse_preamble (fault : option InjectedFault) : list string :=
  match fault ≫= f_injectSseEvent with
  | Some (eventType, data) =>
      ["event: " +:+ eventType +:+ NL; "data: " +:+ data +:+ NL +:+ NL]
  | None => []
  end.

(** How the loop goes on. *)
Inductive SSENext :=
| SSEEnd
| SSETurn (offset : string)
| SSEAwait (id : nat) (offset : string).

(** The events of a connection are part of the state, so that what was written
    before an error stays written. *)
Definition SM (A : Type) : Type := M (Server * list Frame) HandlerError A.

Definition on_server {A} (m : HM A) : SM A := fun s =>
  let '(sv, r) := m s.1 in ((sv, s.2), r).

Definition write (f : Frame) : SM unit := modify (fun s => (s.1, s.2 ++ [f])).

(** The members of a control event. *)
Definition control_closed (offset : string) : Frame :=
  ControlFrame [("streamNextOffset"%string, JStr offset); ("streamClosed"%string, JBool true)].

Definition control_open (offset cursor : string) (upToDate : bool) : Frame :=
  ControlFrame
    ([("streamNextOffset"%string, JStr offset); ("streamCursor"%string, JStr cursor)] ++
     (if upToDate then [("upToDate"%string, JBool true)] else [])).

(** The payload of a data event. *)
Definition data_payload (c : SSEConn) (messages : list StreamMessage) : HM string :=
  if sc_useBase64 c then ret (of_chars (base64 (concat (map msg_data messages))))
  else if sc_json c then
    let* jsonBytes := on_store (formatResponse now (sc_path c) messages) in
    ret (decode_text jsonBytes)
  else ret (decode_text (concat (map msg_data messages))).

(** The loop of [handleSSE] from the [await] of [waitForMessages] on; [stop] is
    [this.isShuttingDown || !isConnected]. *)
Definition sse_after_wait (c : SSEConn) (currentOffset : string) (stop : bool)
    (result : LongPollResult) : SM SSENext :=
  do on_server (on_store_do (touchAccess now (sc_path c))) ;;
  if stop then ret SSEEnd
  else if or_else (lr_streamClosed result) false && (length (lr_messages result) =? 0)%nat then
    do write (control_closed currentOffset) ;;
    ret SSEEnd
  else if lr_timedOut result then
    let keepAliveCursor := response_cursor (sc_cursor c) in
    let* streamAfterWait := on_server (on_store_call (get now (sc_path c))) in
    if match streamAfterWait with Some s => closed s | None => false end then
      do write (control_closed currentOffset) ;;
      ret SSEEnd
    else
      do write (control_open currentOffset keepAliveCursor true) ;;
      ret (SSETurn currentOffset)
  else ret (SSETurn currentOffset).

(** One turn of the loop of [handleSSE]; [read] always says [upToDate]. *)
Definition sse_turn (c : SSEConn) (current_offset : string) (stop : bool) : SM SSENext :=
  let path := sc_path c in
  let* messages := on_server (on_store (read now path (Some current_offset))) in
  let upToDate := true in
  do on_server (on_store_do (touchAccess now path)) ;;
  do (if (0 <? length messages)%nat then
        let* dataPayload := on_server (data_payload c messages) in
        write (DataFrame dataPayload)
      else ret tt) ;;
  let* currentStream := on_server (on_store_call (get now path)) in
  match currentStream with
  | None => throw TypeError
  | Some currentStream =>
      let controlOffset := or_else (msg_offset <$> list.last messages) (currentOffset currentStream) in
      let streamIsClosed := closed currentStream in
      let clientAtTail := String.eqb controlOffset (currentOffset currentStream) in
      let responseCursor := response_cursor (sc_cursor c) in
      if streamIsClosed && clientAtTail then
        do write (control_closed controlOffset) ;;
        ret SSEEnd
      else
        do write (control_open controlOffset responseCursor upToDate) ;;
        if upToDate then
          if closed currentStream then
            do write (control_closed controlOffset) ;;
            ret SSEEnd
          else
            let* outcome := on_server (on_store (waitForMessages now path controlOffset)) in
            match outcome with
            | Immediate r => sse_after_wait c controlOffset stop r
            | Waiting id => ret (SSEAwait id controlOffset)
            end
        else ret (SSETurn controlOffset)
  end.

(** ** POST *)

(** The headers of a POST. *)
Record AppendRequest := mkAppendRequest {
  ap_contentType : option string;
  ap_seq : option string;
  ap_close : bool;
  ap_producer : option (string * Z * Z);
}.

(** A producer header that must be a non-negative integer. *)
Definition parse_producer_number (name s : string) : result Response Z :=
  let bad := Err (plain 400 ("Invalid " +:+ name +:+ ": must be a non-negative integer")) in
  if negb (all_digits s) then bad
  else
    match js_Number s with
    | Some n => if is_safe_integer n then Ok n else bad
    | None => bad
    end.

(** The headers of a POST, or the reply of 400. *)
Definition parse_append (req : Request) : result Response AppendRequest :=
  let content_type := req_header "content-type" req in
  let seq := req_header "stream-seq" req in
  let closeStream := bool_decide (req_header "stream-closed" req = Some "true"%string) in
  match req_header "producer-id" req, req_header "producer-epoch" req, req_header "producer-seq" req with
  | None, None, None => Ok (mkAppendRequest content_type seq closeStream None)
  | Some producerId, Some producerEpochStr, Some producerSeqStr =>
      if String.eqb producerId EmptyString
      then Err (plain 400 "Invalid Producer-Id: must not be empty")
      else
        match parse_producer_number "Producer-Epoch" producerEpochStr with
        | Err r => Err r
        | Ok producerEpoch =>
            match parse_producer_number "Producer-Seq" producerSeqStr with
            | Err r => Err r
            | Ok producerSeq =>
                Ok (mkAppendRequest content_type seq closeStream
                      (Some (producerId, producerEpoch, producerSeq)))
            end
        end
  | _, _, _ =>
      Err (plain 400
        "All producer headers (Producer-Id, Producer-Epoch, Producer-Seq) must be provided together")
  end.

(** The current offset for a reply, or the empty string. *)
Definition tail_or_empty (path : string) : HM string :=
  let* stream := on_store_call (get now path) in
  ret (or_else (currentOffset <$> stream) EmptyString).

(** The replies that both kinds of POST give to a producer's failure. *)
Definition stale_epoch_reply (currentEpoch : Z) : Response :=
  mkResponse 403 (TEXT_PLAIN ++ [(PRODUCER_EPOCH_HEADER, js_String currentEpoch)])
    (encode_text "Stale producer epoch").

Definition sequence_gap_reply (expectedSeq receivedSeq : Z) : Response :=
  mkResponse 409
    (TEXT_PLAIN ++ [(PRODUCER_EXPECTED_SEQ_HEADER, js_String expectedSeq);
                    (PRODUCER_RECEIVED_SEQ_HEADER, js_String receivedSeq)])
    (encode_text "Producer sequence gap").

Definition invalid_epoch_reply : Response := plain 400 "New epoch must start with sequence 0".

Definition closed_reply (tail : string) : Response :=
  mkResponse 409
    (TEXT_PLAIN ++ [(STREAM_CLOSED_HEADER, "true"%string); (STREAM_OFFSET_HEADER, tail)])
    (encode_text "Stream is closed").

(** The close-only request: an empty body with [Stream-Closed: true]. *)
Definition close_only (path : string) (a : AppendRequest) : HM Response :=
  match ap_producer a with
  | Some (producerId, producerEpoch, producerSeq) =>
      let* closeResult :=
        on_store (closeStreamWithProducer now path producerId producerEpoch producerSeq) in
      match closeResult with
      | None => ret (plain 404 "Stream not found")
      | Some res =>
          match cr_producerResult res with
          | Some (duplicate lastSeq) =>
              ret (mkResponse 204
                [(STREAM_OFFSET_HEADER, cr_finalOffset res); (STREAM_CLOSED_HEADER, "true"%string);
                 (PRODUCER_EPOCH_HEADER, js_String producerEpoch);
                 (PRODUCER_SEQ_HEADER, js_String lastSeq)] [])
          | Some (stale_epoch currentEpoch) => ret (stale_epoch_reply currentEpoch)
          | Some invalid_epoch_seq => ret invalid_epoch_reply
          | Some (sequence_gap expectedSeq receivedSeq) =>
              ret (sequence_gap_reply expectedSeq receivedSeq)
          | Some stream_closed => let* tail := tail_or_empty path in ret (closed_reply tail)
          | Some (accepted _ _ _) | None =>
              do on_store_do (touchAccess now path) ;;
              ret (mkResponse 204
                [(STREAM_OFFSET_HEADER, cr_finalOffset res); (STREAM_CLOSED_HEADER, "true"%string);
                 (PRODUCER_EPOCH_HEADER, js_String producerEpoch);
                 (PRODUCER_SEQ_HEADER, js_String producerSeq)] [])
          end
      end
  | None =>
      let* closeResult := on_store (closeStream now path) in
      match closeResult with
      | None => ret (plain 404 "Stream not found")
      | Some res =>
          do on_store_do (touchAccess now path) ;;
          ret (mkResponse 204
            [(STREAM_OFFSET_HEADER, cr_finalOffset res); (STREAM_CLOSED_HEADER, "true"%string)] [])
      end
  end.

(** The reply to a result of [append]. *)
Definition append_reply (path : string) (a : AppendRequest) (r : AppendReturn) : HM Response :=
  let epoch_header := (fun p => js_String p.1.2) <$> ap_producer a in
  let seq_header := (fun p => js_String p.2) <$> ap_producer a in
  match r with
  | WithResult r =>
      let streamClosed := or_else (ar_streamClosed r) false in
      match ar_message r with
      | None =>
          if streamClosed then
            match ar_producerResult r with
            | Some (duplicate lastSeq) =>
                let* tail := tail_or_empty path in
                ret (mkResponse 204
                  ([(STREAM_OFFSET_HEADER, tail); (STREAM_CLOSED_HEADER, "true"%string)] ++
                   when_some PRODUCER_EPOCH_HEADER epoch_header ++
                   [(PRODUCER_SEQ_HEADER, js_String lastSeq)]) [])
            | _ => let* tail := tail_or_empty path in ret (closed_reply tail)
            end
          else
            match ar_producerResult r with
            | Some (duplicate lastSeq) =>
                ret (mkResponse 204
                  (when_some PRODUCER_EPOCH_HEADER epoch_header ++
                   [(PRODUCER_SEQ_HEADER, js_String lastSeq)]) [])
            | Some (stale_epoch currentEpoch) => ret (stale_epoch_reply currentEpoch)
            | Some invalid_epoch_seq => ret invalid_epoch_reply
            | Some (sequence_gap expectedSeq receivedSeq) =>
                ret (sequence_gap_reply expectedSeq receivedSeq)
            | Some (accepted _ _ _) | Some stream_closed | None => throw TypeError
            end
      | Some message =>
          do notify (onStreamAppend path) ;;
          ret (mkResponse (if ap_producer a then 200 else 204)
            ([(STREAM_OFFSET_HEADER, msg_offset message)] ++
             when_some PRODUCER_EPOCH_HEADER epoch_header ++
             when_some PRODUCER_SEQ_HEADER seq_header ++
             when streamClosed (STREAM_CLOSED_HEADER, "true"%string)) [])
      end
  | PlainMessage (Some message) =>
      do notify (onStreamAppend path) ;;
      ret (mkResponse 204
        ([(STREAM_OFFSET_HEADER, msg_offset message)] ++
         when (ap_close a) (STREAM_CLOSED_HEADER, "true"%string)) [])
  | PlainMessage None => throw TypeError
  end.

(** The options [handleAppend] passes to the store. *)
Definition append_options (a : AppendRequest) : AppendOptions :=
  mkAppendOptions (ap_seq a) (ap_contentType a)
    ((fun p => p.1.1) <$> ap_producer a) ((fun p => p.1.2) <$> ap_producer a)
    ((fun p => p.2) <$> ap_producer a) (Some (ap_close a)).

(** [handleAppend] *)
Definition handleAppend (path : string) (req : Request) : HM Response :=
  match parse_append req with
  | Err r => ret r
  | Ok a =>
      if (length (rq_body req) =? 0)%nat && ap_close a then close_only path a
      else if (length (rq_body req) =? 0)%nat then ret (plain 400 "Empty body")
      else if negb (truthy (ap_contentType a))
      then ret (plain 400 "Content-Type header is required")
      else
        let* r :=
          (if ap_producer a then
             let* r := on_store (appendWithProducer now path (rq_body req) (append_options a)) in
             ret (WithResult r)
           else on_store (append now path (rq_body req) (append_options a))) in
        do on_store_do (touchAccess now path) ;;
        append_reply path a r
  end.

(** ** DELETE *)

(** [handleDelete] *)
Definition handleDelete (path : string) : HM Response :=
  let* existing := on_store_call (get now path) in
  if match existing with Some s => softDeleted s | None => false end
  then ret (plain 410 "Stream is gone")
  else
    let* deleted := on_store_call (delete_ now path) in
    if negb deleted then ret (plain 404 "Stream not found")
    else
      do (if opt_onStreamDeleted options then notify (StreamDeletedHook path now) else ret tt) ;;
      do notify (onStreamDeleted path) ;;
      ret (mkResponse 204 [] []).

(** ** Dispatch *)

(** The headers set on every response. *)
Definition common_headers : list (string * string) :=
  [("access-control-allow-origin", "*");
   ("access-control-allow-methods", "GET, POST, PUT, DELETE, HEAD, OPTIONS");
   ("access-control-allow-headers",
    "content-type, authorization, If-None-Match, Stream-Seq, Stream-TTL, Stream-Expires-At, Stream-Closed, Producer-Id, Producer-Epoch, Producer-Seq, Stream-Forked-From, Stream-Fork-Offset, Stream-Fork-Sub-Offset");
   ("access-control-expose-headers",
    "Stream-Next-Offset, Stream-Cursor, Stream-Up-To-Date, Stream-Closed, Producer-Epoch, Producer-Seq, Producer-Expected-Seq, Producer-Received-Seq, etag, content-type, content-encoding, vary");
   ("x-content-type-options", "nosniff"); ("cross-origin-resource-policy", "cross-origin")]%string.

(** The [catch] of [handleRequest]; [None] rethrows. *)
Definition classify (e : HandlerError) : option Response :=
  let message := handler_message e in
  if includes "active forks" message then
    Some (plain 409 ("stream was deleted but still has active forks " +:+ EM_DASH +:+
                     " path cannot be reused until all forks are removed"))
  else if includes "soft-deleted" message then Some (plain 410 "Stream is gone")
  else if includes "not found" message then Some (plain 404 "Stream not found")
  else if includes "already exists with different configuration" message
  then Some (plain 409 "Stream already exists with different configuration")
  else if includes "Sequence conflict" message then Some (plain 409 "Sequence conflict")
  else if includes "Content-type mismatch" message then Some (plain 409 "Content-type mismatch")
  else if includes "Invalid JSON" message then Some (plain 400 "Invalid JSON")
  else if includes "Empty arrays are not allowed" message
  then Some (plain 400 "Empty arrays are not allowed")
  else None.

(** The reply to an error: its classification, or the 500 of [start]. *)
Definition error_reply (e : HandlerError) : Response :=
  or_else (classify e) (plain 500 "Internal server error").

(** What a request has led to when [handleRequest] yields for the first time;
    a dropped connection has no response. *)
Inductive Outcome :=
| Reply (r : Response)
| Dropped
| Suspended (id : nat) (c : ReadCont)
| Streaming (c : SSEConn) (initialOffset : string) (preamble : list string).

Definition with_common (r : Response) : Response :=
  mkResponse (rs_status r) (common_headers ++ rs_headers r) (rs_body r).

(** The [switch] on the method. *)
Definition dispatch_method (req : Request) (fault : option InjectedFault) : HM Outcome :=
  let path := rq_path req in
  let reply (m : HM Response) : HM Outcome := let* r := m in ret (Reply r) in
  let method := js_upper (rq_method req) in
  if String.eqb method "PUT" then reply (handleCreate path req)
  else if String.eqb method "HEAD" then reply (handleHead path)
  else if String.eqb method "GET" then
    let* r := handleRead path req fault in
    match r with
    | Replied r => ret (Reply r)
    | Polling id c => ret (Suspended id c)
    | StartSSE c offset => ret (Streaming c offset (sse_preamble fault))
    end
  else if String.eqb method "POST" then reply (handleAppend path req)
  else if String.eqb method "DELETE" then reply (handleDelete path)
  else ret (Reply (plain 405 "Method not allowed")).

(** The reply of an injected fault, when it replies itself. *)
Definition fault_outcome (fault : InjectedFault) : option Outcome :=
  if f_dropConnection fault then Some Dropped
  else
    match f_status fault with
    | Some status =>
        Some (Reply (mkResponse status
          (TEXT_PLAIN ++ when_some "retry-after" (js_String <$> f_retryAfter fault))
          (encode_text "Injected error for testing")))
    | None => None
    end.

(** [res._injectedFault] *)
Definition stored_fault (fault : InjectedFault) : option InjectedFault :=
  if (if f_truncateBodyBytes fault then true else false) || f_corruptBody fault ||
     (if f_injectSseEvent fault then true else false)
  then Some fault else None.

(** [handleRequest].  [control] are the routes in front of the streams, the
    test endpoint and [SubscriptionRoutes]: the reply of one that handles the
    request.  The test endpoint comes before the faults, the subscriptions
    after them. *)
Definition handleRequest (test_endpoint subscriptions : Request -> HM (option Response))
    (unlucky : bool) (req : Request) : HM Outcome :=
  let outcome : HM Outcome :=
    if String.eqb (js_upper (rq_method req)) "OPTIONS" then ret (Reply (mkResponse 204 [] []))
    else
      let* tested := test_endpoint req in
      match tested with
      | Some r => ret (Reply r)
      | None =>
          let* fault := call (consumeInjectedFault unlucky (rq_path req) (js_upper (rq_method req))) in
          match fault ≫= fault_outcome with
          | Some o => ret o
          | None =>
              let* handled := subscriptions req in
              match handled with
              | Some r => ret (Reply r)
              | None =>
                  try_catch (dispatch_method req (fault ≫= stored_fault))
                    (fun e => ret (Reply (error_reply e)))
              end
          end
      end in
  let* o := outcome in
  ret (match o with Reply r => Reply (with_common r) | o => o end).

(** A suspended long-poll goes on when its promise is settled; [stream] is the
    object it fetched, as it is now. *)
Definition resume_poll (c : ReadCont) (stream : Stream) (r : LongPollResult) : HM Response :=
  let* reply := try_catch (after_wait c stream r) (fun e => ret (error_reply e)) in
  ret (with_common reply).
End server.
