(* ===== verification/ServerReads.v ===== *)
(** * GET and SSE implement the reader of ReaderRuns.v *)

From S2P Require Import Prelude Offsets Producer Text Json Types JsonInstance JsonMode StreamStore StoreLemmas StoreSteps StoreGraph ForkRead StoreTheorems ReaderRuns Cursor PathEncoding Sse Http Server.
Local Open Scope js_scope.

(** ** Calls on a live stream *)

Section live.
Context `{!JsonLib} `{!DateLib} `{!ZlibLib}.
Context (options : ServerOptions) (now rnd : Z) (positions : list nat).

Lemma get_live p s st : live now p s st -> get now p st = (st, Some s).
Proof. intros [Hs He]. unfold get. by rewrite Hs, He. Qed.

Lemma has_live p s st : live now p s st -> has now p st = (st, negb (softDeleted s)).
Proof. intros Hl. unfold has. by rewrite (get_live p s). Qed.

(** A stream that a request can read: there, not expired, not soft-deleted, and
    not expired either once it has been touched (a TTL is not 0). *)
Definition readable (p : string) (s : Stream) (st : StreamStore) : Prop :=
  live now p s st /\ softDeleted s = false /\ isExpired now (set_lastAccessedAt now s) = false.

Lemma live_touch p s st :
  readable p s st -> live now p (set_lastAccessedAt now s) (touchAccess now p st).
Proof.
  intros ([Hs _] & _ & He). split; [|done]. cbn. by rewrite lookup_alter_eq, Hs.
Qed.

(** What [formatResponse] makes of messages of [s]. *)
Definition format_body (s : Stream) (ms : list StreamMessage) : option bytes :=
  if String.eqb (normalizeContentType (contentType s)) "application/json"
  then formatJsonMessages ms else Some (concat (map msg_data ms)).

Lemma formatResponse_live p s ms body st :
  live now p s st -> format_body s ms = Some body ->
  formatResponse now p ms st = (st, Ok body).
Proof.
  intros Hl. unfold formatResponse, format_body, bind, call.
  rewrite (getIfNotExpired_live now p s) by done.
  destruct (String.eqb _ _); [intros ->; done|by intros [= <-]].
Qed.

End live.

(** ** Running a handler *)

Lemma set_store_same sv : set_store (store sv) sv = sv.
Proof. by destruct sv. Qed.

Lemma bind_on_store {A B} (m : M StreamStore StoreError A) (k : A -> HM B) sv st a :
  m (store sv) = (st, Ok a) -> bind (on_store m) k sv = k a (set_store st sv).
Proof. intros Hm. unfold bind, on_store. by rewrite Hm. Qed.

Lemma bind_on_store_err {A B} (m : M StreamStore StoreError A) (k : A -> HM B) sv st e :
  m (store sv) = (st, Err e) -> bind (on_store m) k sv = (set_store st sv, Err (Thrown e)).
Proof. intros Hm. unfold bind, on_store. by rewrite Hm. Qed.

Lemma bind_on_store_call {A B} (f : StreamStore -> StreamStore * A) (k : A -> HM B) sv st a :
  f (store sv) = (st, a) -> bind (on_store_call f) k sv = k a (set_store st sv).
Proof. intros Hf. apply bind_on_store. unfold call. by rewrite Hf. Qed.

Lemma bind_on_store_do {B} (f : StreamStore -> StreamStore) (k : unit -> HM B) sv :
  bind (on_store_do f) k sv = k tt (set_store (f (store sv)) sv).
Proof. done. Qed.

Lemma assoc_app k l1 l2 :
  assoc k (l1 ++ l2) = match assoc k l1 with Some v => Some v | None => assoc k l2 end.
Proof.
  induction l1 as [|[k' v] l1 IH]; [done|]. cbn [app assoc]. by destruct (String.eqb k k').
Qed.

Lemma assoc_when k b k' v :
  assoc k (when b (k', v)) = if b && String.eqb k k' then Some v else None.
Proof. destruct b; cbn; [by destruct (String.eqb k k')|done]. Qed.

Lemma assoc_when_some k k' v :
  assoc k (when_some k' v) = if String.eqb k k' then v else None.
Proof. destruct v; cbn; by destruct (String.eqb k k'). Qed.

Lemma assoc_one k k' (v : string) : assoc k [(k', v)] = if String.eqb k k' then Some v else None.
Proof. done. Qed.

(** Look a header up in a list of headers made of parts. *)
Ltac find_header :=
  repeat first
    [ rewrite assoc_app | rewrite assoc_when | rewrite assoc_when_some | rewrite assoc_one
    | progress cbn [assoc String.eqb Ascii.eqb Bool.eqb andb app] ];
  rewrite ?andb_false_r, ?andb_true_r.

Section replies.
Context `{!JsonLib} `{!DateLib} `{!ZlibLib}.
Context (options : ServerOptions) (now rnd : Z) (positions : list nat).

(** The entity tag of a reply about [s]. *)
Definition read_tag (p : string) (off : option string) (off' : string) (s : Stream) : string :=
  etag p (or_else off "-1"%string) off' (closed s && bool_decide (off' = currentOffset s)).

(** What the reply to a read has to say: the messages' body, and the offset to
    go on from. *)
Definition is_reply (c : ReadCont) (s : Stream) (off' : string) (body : bytes) (r : Response) : Prop :=
  let tag := read_tag (rc_path c) (rc_offset c) off' s in
  rs_header "etag" r = Some tag /\
  if bool_decide (rc_ifNoneMatch c = Some tag) then rs_status r = 304 /\ rs_body r = []
  else
    rs_status r = 200 /\ rs_header STREAM_OFFSET_HEADER r = Some off' /\
    rs_header STREAM_UP_TO_DATE_HEADER r = Some "true"%string /\
    rs_header STREAM_CLOSED_HEADER r =
      (if closed s && bool_decide (off' = currentOffset s) then Some "true"%string else None) /\
    match rs_header "content-encoding" r with
    | None => rs_body r = body
    | Some e => exists enc, e = encoding_text enc /\ rs_body r = compress enc body
    end.

Lemma finish_read_reply c s0 s ms body sv :
  live now (rc_path c) s (store sv) -> currentOffset s0 = currentOffset s ->
  contentType s0 = contentType s -> rc_fault c = None -> format_body s ms = Some body ->
  exists r, finish_read options now rnd positions c s0 ms sv = (sv, Ok r) /\
    is_reply c s (next_of ms s) body r.
Proof.
  intros Hl Hcur Hct Hf Hb. unfold finish_read.
  rewrite (bind_on_store_call _ _ sv (store sv) (Some s)) by (by apply get_live).
  rewrite set_store_same, Hcur. fold (next_of ms s). cbn [fmap option_fmap option_map].
  rewrite (bool_decide_ext (Some (next_of ms s) = Some (currentOffset s)) (next_of ms s = currentOffset s))
    by (split; congruence).
  rewrite !andb_true_r. fold (read_tag (rc_path c) (rc_offset c) (next_of ms s) s).
  unfold is_reply. set (tag := read_tag _ _ _ _). set (atTail := closed s && _).
  destruct (bool_decide (rc_ifNoneMatch c = Some tag)) eqn:Hn.
  - apply bool_decide_eq_true in Hn. rewrite Hn. cbn [truthy].
    assert (String.eqb tag EmptyString = false) as -> by done. cbn [negb andb]. eexists.
    split; [done|]. split; [done|]. done.
  - rewrite andb_false_r.
    rewrite (bind_on_store _ _ sv (store sv) body) by (by apply (formatResponse_live _ _ s)).
    rewrite set_store_same, Hf. cbn [applyFaultBodyModification].
    set (enc := if opt_compression options && _ then _ else _).
    set (h := if truthy (contentType s0) then _ else _).
    assert (Hh : forall k, String.eqb k "content-type" = false -> assoc k h = None).
    { intros k Hk. unfold h. destruct (truthy _); [|done]. by rewrite assoc_when_some, Hk. }
    clearbody h. unfold rs_header.
    destruct enc as [e|]; eexists; (split; [done|]); cbn [rs_headers rs_status rs_body];
      rewrite !assoc_app, !Hh by done;
      destruct (is_live (rc_live c) "long-poll"), atTail; cbn; eauto 10.
Qed.

(** The state after a read: the stream has been touched. *)
Definition touched (p : string) (sv : Server) : Server :=
  set_store (touchAccess now p (store sv)) sv.

(** The continuation of a request without an injected fault. *)
Definition cont_of (p : string) (req : Request) (off effective l cursor : option string) : ReadCont :=
  mkReadCont p off effective l cursor (req_header "if-none-match" req)
    (req_header "accept-encoding" req) None.

Lemma handleRead_reply (p : string) (req : Request) (sv : Server) (s : Stream)
    (off l cursor : option string) (body : bytes) :
  store_ok (streams (store sv)) -> readable now p s (store sv) ->
  parse_read req = Ok (off, l, cursor) -> is_live l "sse" = false -> off <> Some "now"%string ->
  let ms := window off (log (streams (store sv)) p) in
  is_live l "long-poll" = false \/ ms <> [] ->
  format_body s ms = Some body ->
  exists off' r,
    handleRead options now rnd positions p req None sv = (touched p sv, Ok (Replied r)) /\
    reader_step p (streams (store sv)) off ms off' /\
    is_reply (cont_of p req off off l cursor) s off' body r.
Proof.
  intros Hok Hr Hparse Hsse Hnow ms Hpoll Hbody. pose proof Hr as (Hl & Hsd & _).
  unfold handleRead. rewrite (bind_on_store_call _ _ sv (store sv) (Some s)) by (by apply get_live).
  rewrite set_store_same, Hsd, Hparse, (bool_decide_eq_false_2 (off = Some "now"%string)) by done.
  rewrite Hsse. cbn [andb]. unfold read_or_poll. cbn [rc_path rc_effectiveOffset rc_offset rc_live].
  rewrite (bind_on_store _ _ sv (store sv) ms) by (by apply (read_window_any now p s)).
  rewrite set_store_same, bind_on_store_do. fold (touched p sv).
  rewrite (bool_decide_eq_false_2 (off = Some "now"%string)), orb_false_r by done.
  match goal with |- context [if ?b then _ else _] => assert (b = false) as -> end.
  { destruct Hpoll as [->|Hne]; [done|]. destruct ms as [|m ms']; [done|]. by rewrite andb_false_r. }
  destruct (finish_read_reply (cont_of p req off off l cursor) s (set_lastAccessedAt now s) ms body
    (touched p sv)) as (r & Hfin & Hrep); try done.
  { apply live_touch. exact Hr. }
  unfold bind. unfold cont_of in Hfin. rewrite Hfin. exists (next_of ms s), r.
  split_and!; [done| |exact Hrep]. exists s. by destruct Hl as [Hs _].
Qed.

(** C20: GET implements the reader: a catch-up GET (or a long-poll that finds
    messages) of a readable stream answers at once with exactly the messages of
    the stream's log after the requested offset, formatted for the stream's
    content type, with [Stream-Next-Offset] from which to go on,
    [Stream-Up-To-Date], [Stream-Closed] exactly when the reply ends at the
    tail of a closed stream, and an ETag made of the two offsets; or, when the
    client sent that very ETag, with 304 and no body.  All it does to the
    server is touching the stream. *)
Theorem get_implements_reader (p : string) (req : Request) (sv : Server) (s : Stream)
    (off l cursor : option string) (body : bytes) :
  store_ok (streams (store sv)) -> readable now p s (store sv) ->
  parse_read req = Ok (off, l, cursor) -> is_live l "sse" = false -> off <> Some "now"%string ->
  let ms := window off (log (streams (store sv)) p) in
  is_live l "long-poll" = false \/ ms <> [] ->
  format_body s ms = Some body ->
  exists off' r,
    handleRead options now rnd positions p req None sv = (touched p sv, Ok (Replied r)) /\
    reader_step p (streams (store sv)) off ms off' /\
    is_reply (cont_of p req off off l cursor) s off' body r.
Proof. apply handleRead_reply. Qed.
End replies.

(** ** Entity tags *)

Lemma string_app_inj s t u v :
  String.length s = String.length t -> s +:+ u = t +:+ v -> s = t /\ u = v.
Proof.
  rewrite <-!length_chars. intros Hl Heq. apply (f_equal chars) in Heq. rewrite !chars_app in Heq.
  apply app_inj_1 in Heq as [H1 H2]; [|done]. by split; apply (inj chars).
Qed.

Lemma wf_offset_length o : wf_offset o -> String.length o = 33%nat.
Proof.
  intros (n & Hn & ->). by rewrite mk_offset_fixed, string_length_app, fixed_digits_length by done.
Qed.

Lemma etag_inj p start o1 o2 c1 c2 :
  wf_offset o1 -> wf_offset o2 -> etag p start o1 c1 = etag p start o2 c2 -> o1 = o2.
Proof.
  intros H1%wf_offset_length H2%wf_offset_length. unfold etag. intros [= Heq].
  apply string_app_inj in Heq as [_ Heq]; [|done]. apply string_app_inj in Heq as [_ Heq]; [|done].
  apply string_app_inj in Heq as [_ Heq]; [|done]. apply string_app_inj in Heq as [_ Heq]; [|done].
  by apply string_app_inj in Heq as [? _]; [|congruence].
Qed.

Section etags.
Context `{!JsonLib} `{!DateLib} `{!ZlibLib}.
Context (options : ServerOptions).

(** A 304 is right: when a GET of a stream was answered with an ETag, and
    the same offset is asked for later with that ETag in [If-None-Match], after
    operations that do not create the path anew, a 304 is only sent when the
    messages a fresh reply would carry are those of the first reply. *)
Theorem not_modified_sound (p : string) (off l l' cursor cursor' : option string)
    (now rnd now' rnd' : Z) (positions positions' : list nat) (fresh : option string)
    (req req' : Request) (sv sv1 sv' sv1' : Server) (s s' : Stream) (r r' : Response)
    (body body' : bytes) (tag : string) :
  store_ok (streams (store sv)) -> start_ok p (streams (store sv)) off ->
  steps true fresh (streams (store sv)) (streams (store sv')) -> fresh <> Some p ->
  readable now p s (store sv) -> readable now' p s' (store sv') ->
  parse_read req = Ok (off, l, cursor) -> parse_read req' = Ok (off, l', cursor') ->
  is_live l "sse" = false -> is_live l' "sse" = false -> off <> Some "now"%string ->
  is_live l "long-poll" = false -> is_live l' "long-poll" = false ->
  let ms := window off (log (streams (store sv)) p) in
  let ms' := window off (log (streams (store sv')) p) in
  format_body s ms = Some body -> format_body s' ms' = Some body' ->
  handleRead options now rnd positions p req None sv = (sv1, Ok (Replied r)) ->
  rs_header "etag" r = Some tag -> req_header "if-none-match" req' = Some tag ->
  handleRead options now' rnd' positions' p req' None sv' = (sv1', Ok (Replied r')) ->
  rs_status r' = 304 ->
  ms' = ms.
Proof.
  intros Hok Hstart Hst Hf Hr Hr' Hp Hp' Hs1 Hs2 Hnow Hl1 Hl2 ms ms' Hb Hb' HA Htag Hinm HB H304.
  pose proof (store_ok_steps _ _ _ Hok Hst) as Hok'.
  destruct (handleRead_reply options now rnd positions p req sv s off l cursor body
    Hok Hr Hp Hs1 Hnow (or_introl Hl1) Hb) as (o & r1 & E1 & Hstep & Hrep).
  destruct (handleRead_reply options now' rnd' positions' p req' sv' s' off l' cursor' body'
    Hok' Hr' Hp' Hs2 Hnow (or_introl Hl2) Hb') as (o' & r2 & E2 & Hstep' & Hrep').
  rewrite E1 in HA. rewrite E2 in HB. simplify_eq.
  destruct Hrep as [Ht _]. destruct Hrep' as [_ Hst2].
  cbn [rc_ifNoneMatch cont_of rc_path rc_offset] in *. rewrite Ht in Htag. injection Htag as <-.
  case_bool_decide as Heq; [|destruct Hst2 as [? _]; congruence].
  rewrite Hinm in Heq. apply (inj Some) in Heq. unfold read_tag in Heq.
  pose proof (caught_up_read p _ off _ o Hok Hstep Hstart) as (Hwf & _).
  assert (Hwf' : wf_offset o').
  { destruct Hstep' as (t & Ht' & Hms & ->). unfold next_of.
    destruct (list.last _) as [m|] eqn:Hlast; cbn.
    - apply last_Some_elem_of in Hlast. try rewrite Hms in Hlast. apply elem_of_window in Hlast.
      pose proof (log_offsets _ p Hok') as Hall. rewrite list.Forall_forall in Hall. by apply Hall.
    - apply stream_offset_wf. by eapply contents_stream; [apply Hok'|]. }
  apply etag_inj in Heq; [|done..]. subst o'.
  exact (reply_determined p off fresh _ _ _ _ o Hok Hstart Hst Hf Hstep Hstep').
Qed.
End etags.

(** * The SSE connection implements the reader of ReaderRuns.v *)

Section sse.
Context `{!JsonLib} `{!DateLib} `{!ZlibLib}.
Context (options : ServerOptions) (now rnd : Z).

Lemma bind_on_server {A B} (m : HM A) (k : A -> SM B) sv out sv' a :
  m sv = (sv', Ok a) -> bind (on_server m) k (sv, out) = k a (sv', out).
Proof. intros Hm. unfold bind, on_server. cbn [fst snd]. by rewrite Hm. Qed.

Lemma on_store_eq {A} (m : M StreamStore StoreError A) sv st a :
  m (store sv) = (st, Ok a) -> on_store m sv = (set_store st sv, Ok a).
Proof. intros Hm. unfold on_store. by rewrite Hm. Qed.

Lemma on_store_call_eq {A} (f : StreamStore -> StreamStore * A) sv st a :
  f (store sv) = (st, a) -> on_store_call f sv = (set_store st sv, Ok a).
Proof. intros Hf. apply on_store_eq. unfold call. by rewrite Hf. Qed.

(** The payload of the data event of a batch. *)
Definition sse_payload (c : SSEConn) (s : Stream) (ms : list StreamMessage) : option string :=
  if sc_useBase64 c then Some (of_chars (base64 (concat (map msg_data ms))))
  else if sc_json c then decode_text <$> format_body s ms
  else Some (decode_text (concat (map msg_data ms))).

Definition data_frames (ms : list StreamMessage) (payload : string) : list Frame :=
  match ms with [] => [] | _ => [DataFrame payload] end.

Lemma data_payload_live c s ms payload sv :
  live now (sc_path c) s (store sv) -> sse_payload c s ms = Some payload ->
  data_payload now c ms sv = (sv, Ok payload).
Proof.
  intros Hl. unfold data_payload, sse_payload. destruct (sc_useBase64 c); [by intros [= <-]|].
  destruct (sc_json c); [|by intros [= <-]].
  destruct (format_body s ms) as [body|] eqn:Hb; [|done]. intros [= <-].
  rewrite (bind_on_store _ _ sv (store sv) body) by (by apply (formatResponse_live _ _ s)).
  by rewrite set_store_same.
Qed.

(** A caught-up reader of an open stream is made to wait, or, inside the
    inherited part of a fork, sent round once more. *)
Lemma wait_caught_up p s off st :
  store_ok (streams st) -> live now p s st -> closed s = false ->
  caught_up p (streams st) off ->
  waitForMessages now p off st =
  if truthy (forkedFrom s) && ltb_opt off (forkOffset s)
  then (st, Ok (Immediate (mkLongPollResult [] false None)))
  else let '(st', id) := register_poll p off st in (st', Ok (Waiting id)).
Proof.
  intros Hok Hl Hcl (Hwf & Hall & _). unfold waitForMessages, bind at 1, call.
  rewrite (getIfNotExpired_live now p s) by done.
  assert (Hread : read now p (Some off) st = (st, Ok [])).
  { rewrite (read_window_any now p s), window_wf by done. rewrite filter_false_nil; [done|].
    eapply list.Forall_impl; [exact Hall|]. intros m Hm. unfold str_lt. by rewrite Hm. }
  destruct (_ && _); unfold bind; rewrite Hread; [done|]. cbn [length Nat.ltb Nat.leb].
  by rewrite Hcl.
Qed.

Lemma store_ok_touch p st :
  store_ok (streams st) -> store_ok (streams (touchAccess now p st)).
Proof.
  intros Hok. eapply (store_ok_steps None); [exact Hok|]. apply step_alter. intros s _. book.
Qed.

Lemma log_touch p st q :
  store_ok (streams st) -> log (streams (touchAccess now p st)) q = log (streams st) q.
Proof.
  intros Hok. pose proof (store_ok_touch p st Hok) as Hok'.
  destruct (streams st !! q) as [t|] eqn:Hq.
  - apply log_derives; [by destruct Hok|by destruct Hok'| |].
    + cbn. intros i t' Ht'. apply lookup_alter_Some in Ht' as [(-> & u & Hu & ->)|[_ Hu]];
        [exists u|exists t']; split; try done; by unfold same_log.
    + cbn. destruct (decide (p = q)) as [->|];
        [rewrite lookup_alter_eq, Hq|rewrite lookup_alter_ne by done]; by eexists.
  - rewrite !log_unfold; [|by destruct Hok|by destruct Hok']. cbn. rewrite Hq.
    destruct (decide (p = q)) as [->|];
        [rewrite lookup_alter_eq, Hq|rewrite lookup_alter_ne, Hq by done]; done.
Qed.

Lemma caught_up_touch p st q off :
  store_ok (streams st) -> caught_up q (streams st) off -> caught_up q (streams (touchAccess now p st)) off.
Proof.
  intros Hok (Hwf & Hall & Htail). split_and!; [done|by rewrite log_touch|].
  cbn. intros s [(-> & u & Hu & ->)|[_ Hu]]%lookup_alter_Some; [by apply (Htail u)|by apply Htail].
Qed.

(** How a turn ends. *)
Definition turn_end (c : SSEConn) (s : Stream) (off' : string) (stop : bool) (st st' : StreamStore)
    (controls : list Frame) (next : SSENext) : Prop :=
  let open := control_open off' (response_cursor options now rnd (sc_cursor c)) true in
  if closed s then
    next = SSEEnd /\
    controls = (if bool_decide (off' = currentOffset s) then [] else [open]) ++ [control_closed off']
  else
    controls = [open] /\
    ((exists id, next = SSEAwait id off' /\
        pendingLongPolls st' = pendingLongPolls st ++ [mkPendingLongPoll id (sc_path c) off']) \/
     (truthy (forkedFrom s) = true /\ ltb_opt off' (forkOffset s) = true /\
      next = if stop then SSEEnd else SSETurn off')).

(** C34: SSE implements the reader: each turn of the loop on a readable stream
    writes one data event with exactly the messages of the log after the
    connection's offset (none when there are none) and then a control event
    with the offset to go on from; on a closed stream the last event says
    [streamClosed] and the connection ends, otherwise it is up to date and
    waits for messages after that very offset (or, inside the inherited part of
    a fork, takes another turn from it). *)
Theorem sse_implements_reader (c : SSEConn) (off : string) (stop : bool) (sv : Server)
    (out : list Frame) (s : Stream) (payload : string) :
  let p := sc_path c in
  let ms := window (Some off) (log (streams (store sv)) p) in
  store_ok (streams (store sv)) -> readable now p s (store sv) ->
  start_ok p (streams (store sv)) (Some off) -> sse_payload c s ms = Some payload ->
  exists off' sv' controls next,
    sse_turn options now rnd c off stop (sv, out) =
      ((sv', out ++ data_frames ms payload ++ controls), Ok next) /\
    reader_step p (streams (store sv)) (Some off) ms off' /\
    turn_end c s off' stop (store sv) (store sv') controls next /\
    streams (store sv') = streams (store (touched now p sv)).
Proof.
  intros p ms Hok Hr Hstart Hpay. pose proof Hr as (Hl & Hsd & _).
  assert (Hstep : reader_step p (streams (store sv)) (Some off) ms (next_of ms s))
    by (exists s; by destruct Hl as [Hs _]).
  pose proof (caught_up_read _ _ _ _ _ Hok Hstep Hstart) as Hcu.
  exists (next_of ms s).
  set (sv1 := touched now p sv). set (s1 := set_lastAccessedAt now s).
  assert (Hl1 : live now p s1 (store sv1)) by (by apply live_touch).
  unfold sse_turn. fold p.
  rewrite (bind_on_server _ _ sv out sv ms); cycle 1.
  { rewrite <-(set_store_same sv) at 2. apply on_store_eq. by apply (read_window_any now p s). }
  rewrite (bind_on_server _ _ sv out sv1 tt) by done.
  assert (Hdata : forall k : unit -> SM SSENext,
    bind (if (0 <? length ms)%nat then bind (on_server (data_payload now c ms)) (fun d => write (DataFrame d)) else ret tt)
      k (sv1, out) = k tt (sv1, out ++ data_frames ms payload)).
  { intros k. destruct ms as [|m ms']; [cbn; by rewrite app_nil_r|].
    cbn [length Nat.ltb Nat.leb data_frames]. unfold bind at 1.
    rewrite (bind_on_server _ _ sv1 out sv1 payload); [done|].
    by apply (data_payload_live c s1). }
  rewrite Hdata. clear Hdata. set (out1 := out ++ data_frames ms payload).
  rewrite (bind_on_server _ _ sv1 out1 sv1 (Some s1)); cycle 1.
  { rewrite <-(set_store_same sv1) at 2. apply on_store_call_eq. by apply get_live. }
  change (currentOffset s1) with (currentOffset s). fold (next_of ms s).
  set (off' := next_of ms s) in *. change (closed s1) with (closed s).
  unfold turn_end. destruct (closed s) eqn:Hcl.
  - destruct (String.eqb_spec off' (currentOffset s)) as [Heq|Hne].
    + rewrite bool_decide_eq_true_2 by done. cbn [andb]. eexists _, _, _.
      split; [unfold bind, write, modify, ret, out1; cbn [fst snd]; rewrite <-(assoc_L (++)); reflexivity|].
      split; [done|]. done.
    + rewrite bool_decide_eq_false_2 by done. cbn [andb]. eexists _, _, _.
      split; [unfold bind, write, modify, ret, out1; cbn [fst snd]; rewrite <-!(assoc_L (++)); reflexivity|].
      split; [done|]. done.
  - cbn [andb].
    assert (Hwait := wait_caught_up p s1 off' (store sv1) (store_ok_touch p _ Hok) Hl1 Hcl
      (caught_up_touch p _ p off' Hok Hcu)).
    change (forkedFrom s1) with (forkedFrom s) in Hwait. change (forkOffset s1) with (forkOffset s) in Hwait.
    destruct (truthy (forkedFrom s) && ltb_opt off' (forkOffset s)) eqn:Hfork.
    + apply andb_true_iff in Hfork as [Hf1 Hf2].
      set (open := control_open off' (response_cursor options now rnd (sc_cursor c)) true).
      unfold bind at 1. cbn [write modify fst snd].
      rewrite (bind_on_server _ _ sv1 (out1 ++ [open]) sv1 (Immediate (mkLongPollResult [] false None))); cycle 1.
      { rewrite <-(set_store_same sv1) at 2. by apply on_store_eq. }
      unfold sse_after_wait. rewrite (bind_on_server _ _ sv1 _ (touched now p sv1) tt) by done.
      cbn [or_else lr_streamClosed lr_timedOut andb].
      exists (touched now p sv1), [open], (if stop then SSEEnd else SSETurn off'). split_and!; try done.
      * unfold out1. rewrite <-(assoc_L (++)). by destruct stop.
      * right. by split_and!.
      * cbn. rewrite alter_alter_eq. by apply alter_ext.
    + set (open := control_open off' (response_cursor options now rnd (sc_cursor c)) true).
      unfold bind at 1. cbn [write modify fst snd].
      destruct (register_poll p off' (store sv1)) as [st' id] eqn:Hreg.
      rewrite (bind_on_server _ _ sv1 (out1 ++ [open]) (set_store st' sv1) (Waiting id)) by (by apply on_store_eq).
      unfold register_poll in Hreg. injection Hreg as <- <-.
      eexists _, [open], _. split_and!; [unfold out1; rewrite <-(assoc_L (++)); reflexivity|done|done| |done].
      left. eexists. split; [done|]. done.
Qed.
End sse.
