(* ===== verification/ServerWrites.v ===== *)
(** * PUT, POST and DELETE over HTTP: what is stored, and what a retry does *)

From S2P Require Import Prelude Offsets Producer Text Json Types JsonInstance JsonMode StreamStore StoreLemmas StoreSteps StoreGraph ForkRead StoreTheorems ReaderRuns LongPoll Cursor PathEncoding Sse Http Server ServerReads.
Local Open Scope js_scope.

(** ** Methods that leave the logs alone *)

(** Every stream that is still there has the contents it had. *)
Definition quiet (st st' : StreamStore) : Prop := derives (streams st) (streams st').

#[export] Instance quiet_preorder : PreOrder quiet.
Proof. split; [intros st; unfold quiet; reflexivity|intros a b c H1 H2; unfold quiet in *; by etransitivity]. Qed.

Lemma quiet_streams st st' : streams st' = streams st -> quiet st st'.
Proof. unfold quiet. intros ->. reflexivity. Qed.

Lemma quiet_alter p f st : (forall s, same_log s (f s)) -> quiet st (upd_stream p f st).
Proof.
  intros Hf i t'. cbn. intros [(-> & u & Hu & ->)|[_ Hu]]%lookup_alter_Some; [by exists u|].
  exists t'. by unfold same_log.
Qed.

Lemma quiet_store p s s' st :
  streams st !! p = Some s -> same_log s s' -> quiet st (upd_stream p (fun _ => s') st).
Proof.
  intros Hs Hl. unfold quiet. rewrite (streams_upd_const p s) by done. by eapply derives_insert.
Qed.

Section quiet.
Context `{!JsonLib} `{!DateLib}.
Context (now : Z).

Lemma quiet_getIfNotExpired p st : quiet st (getIfNotExpired now p st).1.
Proof.
  unfold quiet. rewrite getIfNotExpired_streams. unfold expire.
  destruct (streams st !! p) as [s|] eqn:Hs; [|reflexivity].
  destruct (isExpired now s); [|reflexivity]. destruct (_ <? _).
  - rewrite (alter_alt_Some _ _ _ s) by done. by eapply derives_insert.
  - destruct (softDeleted s); [reflexivity|apply derives_cascade].
Qed.

#[local] Hint Extern 0 (monotone quiet (call (getIfNotExpired _ _))) =>
  apply mono_call, quiet_getIfNotExpired : mono.

Lemma quiet_pending_resolve q msgs st : quiet st (pending_resolve now q msgs st).
Proof.
  unfold pending_resolve, pending_resolve_step.
  pose proof (quiet_getIfNotExpired (lp_path q)
    (removePendingLongPoll q (clearTimeout (lp_id q) st))) as Hg.
  destruct (getIfNotExpired _ _ _) as [st' r]. exact Hg.
Qed.

Lemma quiet_notify_closed p st : quiet st (notifyLongPollsClosed now p st).
Proof. apply (mono_foldl quiet). intros. apply quiet_pending_resolve. Qed.

#[local] Hint Extern 0 (monotone quiet (modify (notifyLongPollsClosed _ _))) =>
  apply mono_modify, quiet_notify_closed : mono.
#[local] Hint Extern 0 (monotone quiet (modify (pending_resolve _ _ _))) =>
  apply mono_modify, quiet_pending_resolve : mono.
#[local] Hint Extern 0 (monotone quiet (modify (upd_stream _ (set_closed _)))) =>
  apply mono_modify; intros; apply quiet_alter; done : mono.

Lemma quiet_readForked q off cap : monotone quiet (readForkedMessages q off cap).
Proof. intros st. rewrite readForkedMessages_state. reflexivity. Qed.
#[local] Hint Resolve quiet_readForked : mono.

Lemma quiet_read p off : monotone quiet (read now p off).
Proof. unfold read, readFromFork. mono_steps. Qed.
#[local] Hint Resolve quiet_read : mono.

Lemma quiet_notifyLongPolls p : monotone quiet (notifyLongPolls now p).
Proof.
  intros st. unfold notifyLongPolls. revert st.
  enough (forall l, monotone quiet (notify_each now p l)) as Hl by (intros st; apply Hl).
  induction l as [|q l IH]; cbn [notify_each]; mono_steps.
Qed.
#[local] Hint Resolve quiet_notifyLongPolls : mono.

Lemma quiet_closeStream p : monotone quiet (closeStream now p).
Proof. unfold closeStream. mono_steps. Qed.

(** What [call (getIfNotExpired p)] found is in the map. *)
Lemma call_getIfNotExpired_Some p st st1 s :
  call (E := StoreError) (getIfNotExpired now p) st = (st1, Ok (Some s)) ->
  streams st1 !! p = Some s.
Proof.
  unfold call. destruct (getIfNotExpired now p st) as [st2 r] eqn:Hr. intros [= <- ->].
  by apply getIfNotExpired_Some in Hr as [? _].
Qed.

Lemma quiet_closeStreamWithProducer p id e seq : monotone quiet (closeStreamWithProducer now p id e seq).
Proof.
  intros st. unfold closeStreamWithProducer. apply (mono_bind_strong _).
  - apply mono_call, quiet_getIfNotExpired.
  - intros st1 [s|] Hg; [|reflexivity]. apply call_getIfNotExpired_Some in Hg as Hs.
    destruct (closed s); [destruct (same_closer _ _ _ _); reflexivity|].
    destruct (validateProducer _ _ _ _ _) as [m v].
    apply (mono_bind_strong _); [by apply (quiet_store p s)|]. intros st2 [] [= <-].
    destruct (negb _); [reflexivity|].
    apply (mono_bind_strong _); [|intros; apply (mono_bind _); mono_auto].
    apply (quiet_store p (set_producers m s)); [|done].
    rewrite (streams_upd_const p s) by done. apply lookup_insert_eq.
Qed.

(** What follows the commit of a message returns it. *)
Lemma append_commits p s m (o : AppendOptions) (v : option ProducerValidationResult) st st' res :
  live now p s st -> store_ok (streams st') ->
  (do notifyLongPolls now p ;;
   do (if or_else (ao_close o) false then modify (notifyLongPollsClosed now p) else ret tt) ;;
   if (if v then true else false) || or_else (ao_close o) false
   then ret (WithResult (mkAppendResult (Some m) v (ao_close o)))
   else ret (PlainMessage (Some m)) : M StreamStore StoreError AppendReturn) st = (st', res) ->
  exists r, res = Ok r /\ returned_message r = Some m.
Proof.
  intros Hl Hok Happ. apply bind_inv in Happ as [(st4 & [] & Hn & Happ)|(e & Hn & _)].
  - apply bind_inv in Happ as [(st5 & [] & Hn5 & Happ)|(e & Hn5 & _)].
    + destruct (_ || _); injection Happ as _ <-; eexists; by split.
    + by destruct (or_else (ao_close o) false).
  - pose proof (notifyLongPolls_live _ _ _ _ _ _ Hl Hn) as Hst. unfold notifyLongPolls in Hn.
    rewrite (notify_each_wakes now p s) in Hn; [done|by rewrite <-Hst|done|].
    apply list.Forall_forall. by intros x [? _]%list_elem_of_filter.
Qed.

(** An append that returns no message has stored none. *)
Lemma quiet_append p data o st st' res :
  store_ok (streams st) -> op_safe now (OAppend p data o) st ->
  append now p data o st = (st', res) ->
  (forall r m, res = Ok r -> returned_message r <> Some m) -> quiet st st'.
Proof.
  intros Hok Hsafe Happ Hno.
  pose proof (exec_ok now (OAppend p data o) st Hok Hsafe) as Hok'. cbn [exec] in Hok'.
  rewrite Happ in Hok'. cbn [fst] in Hok'. unfold append in Happ.
  assert (Hq1 : quiet st (call (E := StoreError) (getIfNotExpired now p) st).1)
    by apply mono_call, quiet_getIfNotExpired.
  apply bind_inv in Happ as [(st1 & [s|] & Hg & Happ)|(e & Hg & _)]; rewrite Hg in Hq1; cbn [fst] in Hq1;
    [|by injection Happ as <- _|done].
  apply call_getIfNotExpired_Some in Hg as Hs.
  destruct (softDeleted s) eqn:Hsd; [by injection Happ as <- _|].
  destruct (closed s); [by destruct (_ && _); injection Happ as <- _|].
  destruct (_ && _); [by injection Happ as <- _|].
  assert (Hl : live now p s st1).
  { unfold call in Hg. destruct (getIfNotExpired now p st) as [st2 g] eqn:Hr. injection Hg as -> ->.
    apply getIfNotExpired_Some in Hr as (_ & Hlive & _). by destruct (Hlive Hsd) as [? ->]. }
  destruct (validate_options now s o) as [s1 v] eqn:Hv.
  assert (Hs1 : same_log s s1 /\ same_expiry s s1)
    by (apply validate_options_book in Hv as [->|[mm ->]]; by split).
  destruct Hs1 as [Hlog1 Hexp1].
  apply bind_inv in Happ as [(st2 & [] & [= <-] & Happ)|(e & [=] & _)].
  assert (Hq2 : quiet st (upd_stream p (fun _ => s1) st1)).
  { etransitivity; [exact Hq1|]. by apply (quiet_store p s). }
  assert (Hl2 : live now p s1 (upd_stream p (fun _ => s1) st1)).
  { split; [rewrite (streams_upd_const p s) by done; apply lookup_insert_eq|].
    rewrite (isExpired_same now s s1) by done. apply Hl. }
  revert Hq2 Hl2 Happ. generalize (upd_stream p (fun _ => s1) st1) as st2. intros st2 Hq2 Hl2 Happ.
  destruct (negb _); [by injection Happ as <- _|].
  assert (Hseq : forall st3 a, (match ao_seq o, st_lastSeq s1 with
    | Some seq, Some last => if negb (String.ltb last seq) then throw (SequenceConflict seq last) else ret tt
    | _, _ => ret tt end : M StreamStore StoreError unit) st2 = (st3, a) -> st3 = st2)
    by (intros st3 a; destruct (ao_seq o), (st_lastSeq s1); try destruct (negb _); by intros [= <- _]).
  apply bind_inv in Happ as [(st3 & [] & H3%Hseq & Happ)|(e & H3%Hseq & _)]; subst; [|done].
  apply bind_inv in Happ as [(st3 & [s2 om] & Ha & Happ)|(e & [= <- _] & _)]; [|done].
  injection Ha as <- Ha.
  apply bind_inv in Happ as [(st3 & [] & [= <-] & Happ)|(e & [=] & _)].
  set (s3 := commit_append o v s2) in *.
  assert (Hexp3 : isExpired now s3 = false).
  { unfold s3. rewrite (isExpired_same now s2) by apply commit_expiry.
    rewrite (isExpired_same now s1); [apply Hl2|].
    by apply appendToStream_inv in Ha as [[_ ->]|(b & _ & _ & ->)]. }
  assert (Hl3 : live now p s3 (upd_stream p (fun _ => s3) st2)).
  { split; [|done]. rewrite (streams_upd_const p s1) by apply Hl2. apply lookup_insert_eq. }
  destruct om as [m|].
  - exfalso. destruct (append_commits p s3 m o v (upd_stream p (fun _ => s3) st2) st' res Hl3 Hok' Happ) as (r & -> & Hr). by eapply Hno.
  - apply appendToStream_inv in Ha as [[_ ->]|(b & _ & [=] & _)].
    etransitivity; [exact Hq2|]. etransitivity; [apply (quiet_store p s1); [apply Hl2|]|].
    { unfold s3. destruct (commit_fields o v s1) as (? & ? & ? & ?). by unfold same_log. }
    fold s3. match type of Happ with ?f _ = _ => assert (Hm : monotone quiet f) end.
    { mono_steps. }
    specialize (Hm (upd_stream p (fun _ => s3) st2)). by rewrite Happ in Hm.
Qed.
(** JSON data that is appended is never empty. *)
Lemma json_append_nonempty data : processJsonAppend data false <> Ok [].
Proof.
  unfold processJsonAppend, encode_text. destruct (JSON_parse _) as [j|]; [|done].
  assert (Hc : forall s, chars (s +:+ ",") <> []) by (intros s; rewrite chars_app; by destruct (chars s)).
  repeat case_match; try done; intros [= Heq]; by eapply Hc.
Qed.

(** *** Which requests store *)

(** The checks of a stream on an append, in the order of the code. *)
Definition content_type_ok (o : AppendOptions) (s : Stream) : Prop :=
  truthy (ao_contentType o) && truthy (contentType s) &&
    negb (String.eqb (normalizeContentType (ao_contentType o)) (normalizeContentType (contentType s))) = false.

Definition sequence_ok (o : AppendOptions) (s : Stream) : Prop :=
  forall seq last, ao_seq o = Some seq -> st_lastSeq s = Some last -> String.ltb last seq = true.

Record accepts (p : string) (data : bytes) (o : AppendOptions) (st : StreamStore) (s : Stream) (b : bytes) : Prop := {
  acc_live : live now p s st;
  acc_there : softDeleted s = false;
  acc_open : closed s = false;
  acc_type : content_type_ok o s;
  acc_producer : is_accepted (validate_options now s o).2 = true;
  acc_sequence : sequence_ok o s;
  acc_bytes : stored_bytes s data false = Ok b;
}.

(** A POST that is well formed, and that the stream [s] accepts with the bytes [b]. *)
Record stores (p : string) (req : Request) (st : StreamStore) (a : AppendRequest) (s : Stream) (b : bytes) : Prop := {
  sto_parsed : parse_append req = Ok a;
  sto_body : rq_body req <> [];
  sto_typed : truthy (ap_contentType a) = true;
  sto_accepts : accepts p (rq_body req) (append_options a) st s b;
}.

(** The request is one the stream has already answered: its producer has been at
    its sequence number, or has closed the stream with it. *)
Definition repeated (p : string) (o : AppendOptions) (st : StreamStore) : Prop :=
  exists s, live now p s st /\
    ((exists id e seq n, ao_producerId o = Some id /\ ao_producerEpoch o = Some e /\ ao_producerSeq o = Some seq /\
        (validateProducer now (producers s) id e seq).2 = duplicate n) \/
     closed s = true /\ same_closer (closedBy s) (ao_producerId o) (ao_producerEpoch o) (ao_producerSeq o) = true).

Lemma validate_options_same s o s1 v : validate_options now s o = (s1, v) ->
  currentOffset s1 = currentOffset s /\ contentType s1 = contentType s /\ same_expiry s s1 /\
  messages s1 = messages s /\ st_lastSeq s1 = st_lastSeq s.
Proof. intros [->|[m ->]]%validate_options_book; by unfold same_expiry. Qed.

(** An append that is accepted. *)
Lemma append_accepted p data o st s b :
  store_ok (streams st) -> op_safe now (OAppend p data o) st -> data <> [] -> accepts p data o st s b ->
  exists st' r m, append now p data o st = (st', Ok r) /\ returned_message r = Some m.
Proof.
  intros Hok Hsafe Hdata [Hl Hsd Hcl Hct Hacc Hseq Hb].
  destruct (append now p data o st) as [st' res] eqn:Happ.
  pose proof (exec_ok now (OAppend p data o) st Hok Hsafe) as Hok'. cbn [exec] in Hok'. rewrite Happ in Hok'.
  enough (exists r m, res = Ok r /\ returned_message r = Some m) as (r & m & -> & Hm) by by exists st', r, m.
  unfold append, bind at 1, call in Happ. rewrite (getIfNotExpired_live now p s), Hsd, Hcl, Hct in Happ by done.
  destruct (validate_options now s o) as [s1 v] eqn:Hv. cbn in Hacc.
  destruct (validate_options_same _ _ _ _ Hv) as (Hcur & Htype & Hexp & Hmsg & Hlast).
  unfold bind at 1 in Happ. cbn [modify] in Happ. rewrite Hacc in Happ. cbn [negb] in Happ.
  set (st1 := upd_stream p (fun _ => s1) st) in *. unfold bind at 1 in Happ.
  assert (Hs : (match ao_seq o, st_lastSeq s1 with
    | Some seq, Some last => if negb (String.ltb last seq) then throw (SequenceConflict seq last) else ret tt
    | _, _ => ret tt end : M StreamStore StoreError unit) st1 = (st1, Ok tt)).
  { rewrite Hlast. unfold sequence_ok in Hseq. destruct (ao_seq o) as [sq|]; [|done].
    destruct (st_lastSeq s) as [last|]; [|done]. by rewrite (Hseq sq last eq_refl eq_refl). }
  rewrite Hs in Happ. clear Hs. unfold bind at 1, lift_result in Happ.
  assert (Hlen : stored_bytes s1 data false = Ok b) by (unfold stored_bytes; by rewrite Htype).
  assert (Ha : exists m, appendToStream now s1 data false = Ok (set_messages (messages s1 ++ [m]) (msg_offset m) s1, Some m)).
  { revert Hlen. unfold appendToStream, stored_bytes. destruct (String.eqb _ _).
    2: { intros _. by exists (mkStreamMessage data (next_offset (currentOffset s1) (Z.of_nat (length data))) now). }
    destruct (processJsonAppend data false) as [b'|] eqn:Hj; [|done]. intros [= ->].
    destruct b as [|c b]; [by apply json_append_nonempty in Hj|].
    by exists (mkStreamMessage (c :: b) (next_offset (currentOffset s1) (Z.of_nat (length (c :: b)))) now). }
  destruct Ha as [m Ha]. rewrite Ha in Happ. unfold bind at 1 in Happ. cbn [modify] in Happ.
  set (s3 := commit_append _ _ _) in Happ.
  destruct (append_commits p s3 m o v (upd_stream p (fun _ => s3) st1) st' res) as (r & -> & Hr); [|exact Hok'|exact Happ|eauto].
  split; [|unfold s3; rewrite (isExpired_same now (set_messages (messages s1 ++ [m]) (msg_offset m) s1)) by apply commit_expiry;
    rewrite (isExpired_same now s) by done; apply Hl].
  unfold st1. cbn. rewrite !lookup_alter_eq. by rewrite (proj1 Hl).
Qed.

(** An append that returned a message was accepted. *)
Lemma append_accepts p data o st st' r m :
  append now p data o st = (st', Ok r) -> returned_message r = Some m ->
  exists s b, accepts p data o st s b /\
    m = mkStreamMessage b (next_offset (currentOffset s) (Z.of_nat (length b))) now.
Proof.
  intros Happ Hm.
  destruct (append_stages now p data o st st' r m Happ Hm)
    as (s & s1 & v & b & st4 & Hl & Hsd & Hcl & Hv & Hacc & Hb & Hmeq & _).
  exists s, b. split; [|done]. unfold append, bind at 1, call in Happ.
  rewrite (getIfNotExpired_live now p s), Hsd, Hcl in Happ by done.
  split; [done..| | | |done]; unfold content_type_ok; [by destruct (_ && _)|by rewrite Hv|].
  intros seq last Hseq Hlast. destruct (_ && _); [done|]. rewrite Hv in Happ.
  destruct (validate_options_same _ _ _ _ Hv) as (_ & _ & _ & _ & Hsame).
  unfold bind at 1 in Happ. cbn [modify] in Happ. rewrite Hacc in Happ. cbn [negb] in Happ.
  rewrite Hseq, Hsame, Hlast in Happ. by destruct (String.ltb last seq).
Qed.

(** An append answered as a duplicate repeats a request. *)
Lemma append_duplicate p data o st st' n c :
  append now p data o st = (st', Ok (WithResult (mkAppendResult None (Some (duplicate n)) c))) -> repeated p o st.
Proof.
  unfold append. intros (st1 & [s|] & Hg & Hrest)%bind_Ok_inv; [|done].
  unfold call in Hg. destruct (getIfNotExpired now p st) as [st2 g] eqn:Hr. simplify_eq.
  apply getIfNotExpired_Some in Hr as (_ & Hlive & _). destruct (softDeleted s) eqn:Hsd; [done|].
  destruct (Hlive eq_refl) as [Hl ->]. exists s. split; [done|]. destruct (closed s) eqn:Hcl.
  { right. split; [done|]. destruct (_ && _) eqn:E in Hrest; [by apply andb_true_iff in E as [_ ?]|done]. }
  left. destruct (_ && _); [done|]. destruct (validate_options now s o) as [s1 v] eqn:Hv.
  apply bind_Ok_inv in Hrest as (st3 & [] & [= <-] & Hrest).
  enough (v = Some (duplicate n)) as ->.
  { unfold validate_options in Hv. destruct (ao_producerId o) as [id|], (ao_producerEpoch o) as [e|], (ao_producerSeq o) as [sq|];
      try done. destruct (validateProducer now (producers s) id e sq) eqn:E. injection Hv as _ ->.
    exists id, e, sq, n. by rewrite E. }
  destruct (is_accepted v) eqn:Hacc; [|by injection Hrest]. cbn [negb] in Hrest.
  apply bind_Ok_inv in Hrest as (? & [] & _ & Hrest). apply bind_Ok_inv in Hrest as (? & [? om] & _ & Hrest).
  apply bind_Ok_inv in Hrest as (? & [] & _ & Hrest). apply bind_Ok_inv in Hrest as (? & [] & _ & Hrest).
  apply bind_Ok_inv in Hrest as (? & [] & _ & Hrest). destruct (_ || _); [|done]. by injection Hrest.
Qed.
End quiet.

(** ** Handlers that store nothing *)

(** The server afterwards: no log has changed, nobody was told of an append,
    and the store's invariant is kept. *)
Definition unwritten (sv sv' : Server) : Prop :=
  quiet (store sv) (store sv') /\ calls sv' = calls sv /\
  (store_ok (streams (store sv)) -> store_ok (streams (store sv'))) /\ injectedFaults sv' = injectedFaults sv.

#[export] Instance unwritten_preorder : PreOrder unwritten.
Proof.
  split; [intros sv; split_and!; [reflexivity|done..]|].
  intros a b c (H1 & H2 & H3 & H4) (H5 & H6 & H7 & H8). split_and!; [by etransitivity|congruence|auto|congruence].
Qed.

Lemma unwritten_log sv sv' q :
  store_ok (streams (store sv)) -> unwritten sv sv' -> is_Some (streams (store sv') !! q) ->
  log (streams (store sv')) q = log (streams (store sv)) q.
Proof.
  intros Hok (Hq & _ & Hok' & _). specialize (Hok' Hok).
  by apply log_derives; [apply Hok|apply Hok'|].
Qed.

Lemma unwritten_on_store {A} (m : M StreamStore StoreError A) :
  monotone quiet m -> monotone (evolves true None) m -> monotone unwritten (on_store m).
Proof.
  intros Hq He sv. unfold on_store. specialize (Hq (store sv)). specialize (He (store sv)).
  destruct (m (store sv)) as [st r]. cbn in *. split_and!; [done|done| |done].
  intros Hok. by eapply store_ok_steps.
Qed.

(** A value in hand, whatever [bind] it came from. *)
Section handlers.
Context `{!JsonLib} `{!DateLib}.
Context (now : Z).

Lemma unwritten_get p : monotone unwritten (on_store_call (get now p)).
Proof.
  apply unwritten_on_store; apply mono_call; intros st; rewrite get_getIfNotExpired;
    [apply quiet_getIfNotExpired|apply evolves_getIfNotExpired].
Qed.

Lemma unwritten_touch p : monotone unwritten (on_store_do (touchAccess now p)).
Proof.
  apply unwritten_on_store; apply mono_modify; intros st.
  - by apply quiet_alter.
  - apply evolves_alter. intros s _. book.
Qed.

Lemma unwritten_closeStream p : monotone unwritten (on_store (closeStream now p)).
Proof. apply unwritten_on_store; [apply quiet_closeStream|apply mono_closeStream]. Qed.

Lemma unwritten_closeStreamWithProducer p id e seq :
  monotone unwritten (on_store (closeStreamWithProducer now p id e seq)).
Proof. apply unwritten_on_store; [apply quiet_closeStreamWithProducer|apply mono_closeStreamWithProducer]. Qed.

#[local] Hint Resolve unwritten_get unwritten_touch unwritten_closeStream
  unwritten_closeStreamWithProducer : mono.

Lemma unwritten_close_only p a : monotone unwritten (close_only now p a).
Proof. unfold close_only, tail_or_empty. mono_steps. Qed.

(** The reply to an append that returned no message. *)
Lemma unwritten_append_reply p a r :
  returned_message r = None -> monotone unwritten (append_reply now p a r).
Proof.
  intros Hr. unfold append_reply, tail_or_empty.
  destruct r as [m|r]; cbn in Hr; rewrite Hr; mono_steps.
Qed.

(** The reply to an append that returned one. *)
Lemma append_reply_message p a r m sv :
  returned_message r = Some m ->
  exists resp,
    append_reply now p a r sv =
      (mkServer (store sv) (injectedFaults sv) (calls sv ++ [onStreamAppend p]), Ok resp) /\
    rs_status resp = (match r with WithResult _ => if ap_producer a then 200 else 204 | PlainMessage _ => 204 end) /\
    rs_header STREAM_OFFSET_HEADER resp = Some (msg_offset m).
Proof.
  intros Hr. unfold append_reply. destruct r as [om|r]; cbn in Hr; rewrite Hr; cbn.
  - by eexists.
  - by eexists.
Qed.

(** The call of the store in [handleAppend]. *)
Definition append_call (p : string) (body : bytes) (a : AppendRequest) : HM AppendReturn :=
  if ap_producer a then
    let* r := on_store (appendWithProducer now p body (append_options a)) in ret (WithResult r)
  else on_store (append now p body (append_options a)).

(** [appendWithProducer] wraps [append]'s message, nothing else. *)
Lemma append_call_inv p body a sv sv' res :
  append_call p body a sv = (sv', res) ->
  exists st res0, append now p body (append_options a) (store sv) = (st, res0) /\
    sv' = set_store st sv /\
    match res0 with
    | Ok r0 => exists r, res = Ok r /\ returned_message r = returned_message r0 /\
        (r = r0 \/ exists om, r0 = PlainMessage om /\ r = WithResult (mkAppendResult om None None)) /\
        (forall om, r = PlainMessage om -> ap_producer a = None)
    | Err e => res = Err (Thrown e)
    end.
Proof.
  unfold append_call. destruct (append now p body (append_options a) (store sv)) as [st res0] eqn:Happ.
  destruct (ap_producer a) as [pr|].
  - unfold bind at 1, on_store, appendWithProducer, bind at 1. rewrite Happ.
    destruct res0 as [[om|r0]|e]; intros [= <- <-]; eexists _, _; (split; [done|]); (split; [done|]); cbn; [|..|done];
      eexists; (split; [done|]); split_and!; eauto; done.
  - unfold on_store. rewrite Happ. destruct res0 as [r0|e]; intros [= <- <-]; eauto 10.
Qed.

(** A request that is not understood is answered with an error. *)
Lemma parse_append_status req bad : parse_append req = Err bad -> 400 <= rs_status bad.
Proof. unfold parse_append, parse_producer_number. repeat case_match; intros; simplify_eq; done. Qed.

(** The reply to an append that returned no message. *)
Lemma append_reply_answer p a r sv sv' resp :
  returned_message r = None -> append_reply now p a r sv = (sv', Ok resp) ->
  400 <= rs_status resp \/
  rs_status resp = 204 /\ exists n c, r = WithResult (mkAppendResult None (Some (duplicate n)) c).
Proof.
  unfold append_reply, tail_or_empty, bind, on_store_call, on_store, call.
  destruct r as [om|[om v c]]; cbn; intros ->; [done|].
  destruct (or_else c false), v as [[]|]; try done;
    try (destruct (get now p (store sv)) as [st g]; cbn); intros [= <- <-]; cbn; first [left; lia|right; eauto].
Qed.

Lemma close_only_answer p a sv sv' resp :
  close_only now p a sv = (sv', Ok resp) -> 400 <= rs_status resp \/ rs_status resp = 204.
Proof.
  unfold close_only, tail_or_empty. destruct (ap_producer a) as [[[id e] seq]|]; intros (sv1 & res & _ & Hrest)%bind_Ok_inv.
  - destruct res as [res|]; [|injection Hrest as <- <-; cbn; lia].
    destruct (cr_producerResult res) as [[]|]; unfold bind, on_store_do, on_store_call, on_store, call, modify in Hrest;
      try (destruct (get now p (store sv1)) as [st g]); injection Hrest as <- <-; cbn; lia.
  - destruct res; unfold bind, on_store_do, on_store, modify in Hrest; injection Hrest as <- <-; cbn; lia.
Qed.

(** What a POST that is not stored is answered: an error, or 204 when it only
    closes the stream or repeats a request. *)
Definition refusal (p : string) (req : Request) (st : StreamStore) (res : result HandlerError Response) : Prop :=
  forall resp, res = Ok resp -> 400 <= rs_status resp \/
    rs_status resp = 204 /\ exists a, parse_append req = Ok a /\
      (rq_body req = [] /\ ap_close a = true \/ repeated now p (append_options a) st).

(** A POST stores one message, or nothing is written. *)
Lemma handleAppend_exact (p : string) (req : Request) (sv sv' : Server)
    (res : result HandlerError Response) :
  store_ok (streams (store sv)) -> op_safe now (OAppend p (rq_body req) plain_append) (store sv) ->
  handleAppend now p req sv = (sv', res) ->
  (exists a s b st r m resp, stores now p req (store sv) a s b /\
     m = mkStreamMessage b (next_offset (currentOffset s) (Z.of_nat (length b))) now /\
     append now p (rq_body req) (append_options a) (store sv) = (st, Ok r) /\ returned_message r = Some m /\
     sv' = mkServer (touchAccess now p st) (injectedFaults sv) (calls sv ++ [onStreamAppend p]) /\
     res = Ok resp /\ rs_status resp = (if ap_producer a then 200 else 204) /\
     rs_header STREAM_OFFSET_HEADER resp = Some (msg_offset m)) \/
  (forall a s b, ~ stores now p req (store sv) a s b) /\ unwritten sv sv' /\ refusal p req (store sv) res.
Proof.
  intros Hok Hsafe Hpost. unfold handleAppend in Hpost. destruct (parse_append req) as [a|bad] eqn:Hp.
  2: { right. injection Hpost as <- <-. split; [by intros ? ? ? []; congruence|]. split; [done|].
       intros resp [= <-]. left. by apply (parse_append_status req). }
  destruct (decide (rq_body req = [])) as [Hb|Hb].
  { right. rewrite Hb in Hpost. cbn [length Nat.eqb andb] in Hpost. split; [by intros ? ? ? []|].
    destruct (ap_close a) eqn:Hcl.
    - pose proof (unwritten_close_only p a sv) as Hu. rewrite Hpost in Hu. split; [exact Hu|]. intros resp ->.
      destruct (close_only_answer _ _ _ _ _ Hpost) as [?|?]; [by left|right]. split; [done|]. exists a. auto.
    - injection Hpost as <- <-. split; [done|]. intros resp [= <-]. by left. }
  assert (Hlen : (length (rq_body req) =? 0)%nat = false) by by destruct (rq_body req).
  rewrite Hlen in Hpost. cbn [andb] in Hpost. destruct (truthy (ap_contentType a)) eqn:Hty; cbn [negb] in Hpost.
  2: { right. injection Hpost as <- <-. split; [intros ? ? ? []; congruence|]. split; [done|].
       intros resp [= <-]. by left. }
  change (bind (append_call p (rq_body req) a) (fun r =>
    bind (on_store_do (touchAccess now p)) (fun _ => append_reply now p a r)) sv = (sv', res)) in Hpost.
  destruct (append_call p (rq_body req) a sv) as [sv1 res1] eqn:Hcall.
  destruct (append_call_inv p _ a sv sv1 res1 Hcall) as (st & res0 & Happ & -> & Hres).
  assert (Hsafe' : op_safe now (OAppend p (rq_body req) (append_options a)) (store sv)) by exact Hsafe.
  unfold bind at 1 in Hpost. rewrite Hcall in Hpost.
  destruct (match res0 with Ok r => returned_message r | Err _ => None end) as [m|] eqn:Hmsg.
  - left. destruct res0 as [r0|]; [|done]. destruct Hres as (r & -> & Hrm & _ & Hplain). rewrite Hmsg in Hrm.
    rewrite bind_on_store_do in Hpost.
    destruct (append_accepts now p _ _ _ _ r0 m Happ Hmsg) as (s & b & Hacc & Hm).
    destruct (append_reply_message p a r m (set_store (touchAccess now p st) sv) Hrm)
      as (resp & Hreply & Hst & Hoff).
    change (set_store (touchAccess now p (store (set_store st sv))) (set_store st sv))
      with (set_store (touchAccess now p st) sv) in Hpost.
    rewrite Hreply in Hpost. injection Hpost as <- <-. exists a, s, b, st, r0, m, resp. split_and!; try done.
    rewrite Hst. destruct r as [om|?]; [|done]. by rewrite (Hplain om).
  - right. assert (Hu : unwritten sv (set_store st sv)).
    { split_and!; [|done| |done].
      - cbn. eapply quiet_append; [exact Hok|exact Hsafe'|exact Happ|]. intros r m -> Hm. congruence.
      - intros _. pose proof (exec_ok now _ _ Hok Hsafe') as Hx. cbn [exec] in Hx. by rewrite Happ in Hx. }
    split.
    { intros a' s b [Hp' _ _ Hacc]. assert (a' = a) as -> by congruence.
      destruct (append_accepted now p _ _ _ s b Hok Hsafe' Hb Hacc) as (st' & r & m & Happ' & Hm).
      rewrite Happ in Happ'. injection Happ' as -> ->. congruence. }
    destruct res0 as [r0|e]; [|rewrite Hres in Hpost; injection Hpost as <- <-; split; [done|by intros ? [=]]].
    destruct Hres as (r & -> & Hrm & Heq). rewrite Hmsg in Hrm. split.
    { etransitivity; [exact Hu|].
      match type of Hpost with ?f _ = _ => assert (Hm : monotone unwritten f) end.
      { apply (mono_bind _); [mono_auto|]. intros _. by apply unwritten_append_reply. }
      specialize (Hm (set_store st sv)). by rewrite Hpost in Hm. }
    intros resp ->. rewrite bind_on_store_do in Hpost.
    destruct (append_reply_answer p a r _ _ resp Hrm Hpost) as [?|(H204 & n & c & ->)]; [by left|right].
    split; [done|]. exists a. split; [done|]. right.
    destruct Heq as ([<-|(om & _ & [=])] & _). by eapply append_duplicate.
Qed.

(** The same without the conditions. *)
Lemma handleAppend_cases (p : string) (req : Request) (sv sv' : Server)
    (res : result HandlerError Response) :
  store_ok (streams (store sv)) -> op_safe now (OAppend p (rq_body req) plain_append) (store sv) ->
  handleAppend now p req sv = (sv', res) ->
  (exists a st r m resp, parse_append req = Ok a /\
     append now p (rq_body req) (append_options a) (store sv) = (st, Ok r) /\ returned_message r = Some m /\
     sv' = mkServer (touchAccess now p st) (injectedFaults sv) (calls sv ++ [onStreamAppend p]) /\
     res = Ok resp) \/
  unwritten sv sv'.
Proof.
  intros Hok Hsafe Hpost.
  destruct (handleAppend_exact p req sv sv' res Hok Hsafe Hpost)
    as [(a & s & b & st & r & m & resp & [Hp _ _ _] & _ & ?)|(_ & Hu & _)]; [left|by right].
  exists a, st, r, m, resp. naive_solver.
Qed.

(** C19: What a POST does, exactly.  In a store with the invariant of C1, and when
    the stream does not outgrow the safe integers: if the request is well formed,
    has a body and a content type, and its stream is there, neither deleted nor
    expired nor closed, of that content type, accepts the producer's epoch and
    sequence number and a Stream-Seq that is greater than the last one, and the
    body can be processed (JSON that parses and is no empty array), it is answered
    200 (with a producer) or 204 with the offset of one new message, which is the
    processed body, at the next offset of the stream, and the end of exactly this
    stream's log, and the subscriptions are told once.  Otherwise nobody is told and
    no log changes, and the answer is an error, or 204 when the request only closes
    the stream or repeats one that was answered before. *)
Theorem post_stores_or_not (p : string) (req : Request) (sv sv' : Server)
    (res : result HandlerError Response) :
  store_ok (streams (store sv)) -> op_safe now (OAppend p (rq_body req) plain_append) (store sv) ->
  handleAppend now p req sv = (sv', res) ->
  (exists a s b m r, stores now p req (store sv) a s b /\
     m = mkStreamMessage b (next_offset (currentOffset s) (Z.of_nat (length b))) now /\
     res = Ok r /\ rs_status r = (if ap_producer a then 200 else 204) /\
     rs_header STREAM_OFFSET_HEADER r = Some (msg_offset m) /\
     calls sv' = calls sv ++ [onStreamAppend p] /\
     log (streams (store sv')) p = log (streams (store sv)) p ++ [m] /\
     forall q, q <> p -> log (streams (store sv')) q = log (streams (store sv)) q) \/
  ((forall a s b, ~ stores now p req (store sv) a s b) /\
   calls sv' = calls sv /\
   (forall q, is_Some (streams (store sv') !! q) ->
      log (streams (store sv')) q = log (streams (store sv)) q) /\
   refusal p req (store sv) res).
Proof.
  intros Hok Hsafe Hpost.
  destruct (handleAppend_exact p req sv sv' res Hok Hsafe Hpost)
    as [(a & s & b & st & r0 & m & resp & Hsto & Hmeq & Happ & Hm & -> & -> & Hst & Hoff)|(Hno & Hu & Href)].
  - left. assert (Hsafe' : op_safe now (OAppend p (rq_body req) (append_options a)) (store sv)) by exact Hsafe.
    assert (Hok1 : store_ok (streams st)).
    { pose proof (exec_ok now _ _ Hok Hsafe') as Hx. cbn [exec] in Hx. by rewrite Happ in Hx. }
    destruct (append_log now p _ _ _ _ r0 m Hok Hsafe' Happ Hm) as (_ & Hlp & Hlq).
    exists a, s, b, m, resp. cbn [store calls]. split_and!; try done.
    + by rewrite log_touch.
    + intros q Hq. rewrite log_touch by done. by apply Hlq.
  - right. split_and!; [done|apply Hu| |done]. intros q Hq. by apply unwritten_log.
Qed.

(** *** Retries *)

(** Only a stored message is answered with 200. *)
Lemma append_reply_200 p a r sv sv' resp :
  append_reply now p a r sv = (sv', Ok resp) -> rs_status resp = 200 ->
  exists m, returned_message r = Some m.
Proof.
  unfold append_reply, tail_or_empty, bind, on_store_call, on_store, call.
  destruct r as [[m|]|[[m|] v c]]; cbn; eauto; [done|].
  destruct (or_else c false), v as [[]|]; try done;
    try (destruct (get now p (store sv)) as [st g]; cbn); intros [= <- <-]; done.
Qed.

(** A producer's request that was stored. *)
Lemma handleAppend_200 p req a sv sv' resp :
  parse_append req = Ok a -> rq_body req <> [] ->
  handleAppend now p req sv = (sv', Ok resp) -> rs_status resp = 200 ->
  truthy (ap_contentType a) = true /\
  exists st r m, append now p (rq_body req) (append_options a) (store sv) = (st, Ok r) /\
    returned_message r = Some m /\ store sv' = touchAccess now p st.
Proof.
  intros Hp Hb. unfold handleAppend. rewrite Hp.
  assert ((length (rq_body req) =? 0)%nat = false) as -> by (by destruct (rq_body req)). cbn [andb].
  destruct (truthy (ap_contentType a)); [|intros [= <- <-]; done]. cbn [negb].
  change (bind (append_call p (rq_body req) a) (fun r =>
    bind (on_store_do (touchAccess now p)) (fun _ => append_reply now p a r)) sv = (sv', Ok resp) ->
    rs_status resp = 200 -> true = true /\ exists st r m,
      append now p (rq_body req) (append_options a) (store sv) = (st, Ok r) /\
      returned_message r = Some m /\ store sv' = touchAccess now p st).
  intros (sv1 & r & Hcall & Hrest)%bind_Ok_inv H200. split; [done|].
  destruct (append_call_inv p _ a sv sv1 (Ok r) Hcall) as (st & [r0|e] & Happ & -> & Hres); [|done].
  destruct Hres as (r' & [= <-] & Hrm & _). rewrite bind_on_store_do in Hrest.
  destruct (append_reply_200 p a r _ sv' resp Hrest H200) as [m Hm].
  exists st, r0, m. split_and!; [done|congruence|].
  destruct (append_reply_message p a r m (set_store (touchAccess now p st) sv) Hm) as (resp' & Hr & _).
  change (set_store (touchAccess now p (store (set_store st sv))) (set_store st sv))
    with (set_store (touchAccess now p st) sv) in Hrest.
  rewrite Hr in Hrest. by injection Hrest as <- _.
Qed.
End handlers.

Section retry.
Context `{!JsonLib} `{!DateLib}.
Context (now now' : Z).

(** The stream still knows the request [seq] of the epoch [e] of the producer
    [id] at the time [t]: it has the producer in that epoch, not behind, and not
    to be forgotten yet; if it is closed, it is by this request; and it is there,
    with the same content type. *)
Record knows (t : Z) (o : AppendOptions) (id : string) (e seq : Z) (s : Stream) : Prop := {
  kn_producer : exists ps, or_else (producers s) ∅ !! id = Some ps /\
    ps_epoch ps = e /\ seq <= ps_lastSeq ps /\ t <= ps_lastUpdated ps + PRODUCER_STATE_TTL_MS;
  kn_closed : closed s = true -> closedBy s = Some (mkClosedBy id (Some e) (Some seq));
  kn_there : softDeleted s = false;
  kn_type : content_type_ok o s;
}.

(** The sequence number such a request is answered with. *)
Definition last_known (id : string) (seq : Z) (s : Stream) : Z :=
  if closed s then seq
  else match or_else (producers s) ∅ !! id with Some ps => ps_lastSeq ps | None => seq end.

(** What a producer's append leaves in the stream. *)
Lemma append_committed p data o st st' r m id e seq :
  append now p data o st = (st', Ok r) -> returned_message r = Some m ->
  ao_producerId o = Some id -> ao_producerEpoch o = Some e -> ao_producerSeq o = Some seq ->
  exists s3, streams st' !! p = Some s3 /\ or_else (producers s3) ∅ !! id = Some (mkProducerState e seq now) /\
    closed s3 = or_else (ao_close o) false /\
    forall t, t <= now + PRODUCER_STATE_TTL_MS -> knows t o id e seq s3.
Proof.
  intros Happ Hm Hid He Hseq.
  destruct (append_accepts now p data o st st' r m Happ Hm) as (s' & b' & [Hl' _ _ Hct _ _ _] & _).
  destruct (append_inv now p data o st st' r m Happ Hm)
    as (s & s1 & v & b & Hl & Hsd & Hcl & Hv & Hacc & _ & _ & Hst').
  assert (s' = s) as -> by (destruct Hl, Hl'; congruence). cbn zeta in Hst'.
  unfold validate_options in Hv. rewrite Hid, He, Hseq in Hv.
  destruct (validateProducer now (producers s) id e seq) as [m0 v0] eqn:Hval. injection Hv as <- <-.
  destruct v0 as [isNew ps id'|?|?| |? ?|]; try done.
  assert (id' = id /\ ps = mkProducerState e seq now) as [-> ->].
  { rewrite validateProducer_verdict in Hval. injection Hval as _ Hval. by apply accepted_inv in Hval as (? & ? & _). }
  eexists. split; [rewrite Hst'; apply lookup_insert_eq|]. unfold commit_append. rewrite Hid, He, Hseq.
  assert (Hps : <[id := mkProducerState e seq now]> m0 !! id = Some (mkProducerState e seq now)) by apply lookup_insert_eq.
  destruct (ao_seq o), (or_else (ao_close o) false); (split; [exact Hps|]); (split; [done|]); intros t Ht;
    (split; [eexists; split; [exact Hps|]; cbn; lia|intros Hx; first [reflexivity|cbn in Hx; congruence]|exact Hsd|exact Hct]).
Qed.

(** The verdict on a request that is known. *)
Lemma known_duplicate o id e seq s : knows now' o id e seq s -> closed s = false ->
  (validateProducer now' (producers s) id e seq).2 = duplicate (last_known id seq s).
Proof.
  intros [(ps & Hps & He & Hle & Hfresh) _ _ _] Hcl. unfold last_known. rewrite Hcl, Hps.
  rewrite validateProducer_verdict, cleanup_lookup, Hps. unfold producer_expired.
  destruct (Z.ltb_spec PRODUCER_STATE_TTL_MS (now' - ps_lastUpdated ps)); [lia|]. cbn.
  rewrite He, Z.ltb_irrefl. by destruct (Z.leb_spec seq (ps_lastSeq ps)); [|lia].
Qed.

(** The same append again. *)
Lemma append_again p data o st s id e seq :
  live now' p s st -> knows now' o id e seq s ->
  ao_producerId o = Some id -> id <> EmptyString -> ao_producerEpoch o = Some e ->
  ao_producerSeq o = Some seq ->
  exists st' c, quiet st st' /\ evolves true None st st' /\
    append now' p data o st =
      (st', Ok (WithResult (mkAppendResult None (Some (duplicate (last_known id seq s))) c))).
Proof.
  intros Hl Hk Hid Hne He Hseq. pose proof (known_duplicate _ _ _ _ _ Hk) as Hdup.
  destruct Hk as [_ Hby Hsd Hct]. unfold append, bind at 1, call.
  rewrite (getIfNotExpired_live now' p s), Hsd by done.
  destruct (closed s) eqn:Hc.
  - rewrite (Hby eq_refl), Hid, He, Hseq. cbn [truthy same_closer cb_producerId cb_epoch cb_seq].
    rewrite (proj2 (String.eqb_neq id EmptyString)), !bool_decide_eq_true_2 by done.
    exists st, (Some true). unfold last_known. rewrite Hc. split_and!; [reflexivity|by apply evolves_eq|done].
  - rewrite Hct. unfold validate_options. rewrite Hid, He, Hseq. specialize (Hdup eq_refl).
    destruct (validateProducer now' (producers s) id e seq) as [m v]. cbn in Hdup. subst v.
    cbn [is_accepted negb]. eexists _, None. split_and!; [| |done].
    + apply (quiet_store p s); [apply Hl|done].
    + eapply evolves_store; [apply Hl|book].
Qed.

(** The producer of a parsed request has a name. *)
Lemma parse_append_id req a id e seq :
  parse_append req = Ok a -> ap_producer a = Some (id, e, seq) -> id <> EmptyString.
Proof.
  unfold parse_append. intros Hp Hpr.
  destruct (req_header "producer-id" req) as [i|], (req_header "producer-epoch" req),
    (req_header "producer-seq" req); try discriminate Hp; [|by injection Hp as <-].
  destruct (String.eqb_spec i EmptyString); [done|].
  destruct (parse_producer_number "Producer-Epoch" _); [|done].
  destruct (parse_producer_number "Producer-Seq" _); [|done].
  by injection Hp as <-; injection Hpr as <- _ _.
Qed.

(** The reply to a duplicate. *)
Lemma append_again_reply p req a sv st c id e seq n :
  parse_append req = Ok a -> ap_producer a = Some (id, e, seq) -> rq_body req <> [] ->
  truthy (ap_contentType a) = true ->
  append now' p (rq_body req) (append_options a) (store sv)
    = (st, Ok (WithResult (mkAppendResult None (Some (duplicate n)) c))) ->
  exists sv' r, handleAppend now' p req sv = (sv', Ok r) /\ rs_status r = 204 /\
    rs_header PRODUCER_EPOCH_HEADER r = Some (js_String e) /\
    rs_header PRODUCER_SEQ_HEADER r = Some (js_String n) /\
    unwritten (set_store st sv) sv'.
Proof.
  intros Hp Hpr Hb Hct Happ. unfold handleAppend. rewrite Hp.
  assert ((length (rq_body req) =? 0)%nat = false) as -> by (by destruct (rq_body req)).
  rewrite Hct, Hpr. cbn [andb negb]. unfold bind at 1, bind at 1, on_store, appendWithProducer, bind at 1.
  rewrite Happ. cbn [ret]. rewrite bind_on_store_do.
  set (sv' := set_store (touchAccess now' p (store (set_store st sv))) (set_store st sv)).
  assert (Hu : unwritten (set_store st sv) sv') by exact (unwritten_touch now' p (set_store st sv)).
  unfold append_reply. rewrite Hpr. cbn [ar_message ar_streamClosed ar_producerResult].
  destruct (or_else c false).
  - unfold tail_or_empty, bind, on_store_call, on_store, call.
    pose proof (unwritten_get now' p sv') as Hg. unfold on_store_call, on_store, call in Hg.
    destruct (get now' p (store sv')) as [st' g]. cbn in Hg |- *.
    eexists _, _. split_and!; [done..|]. by etransitivity.
  - eexists _, _. split_and!; done.
Qed.

(** C22: Retrying a POST is safe.  When a producer's request has been stored
    (answered 200), the stream knows it from then on until the producer's state
    expires.  And in whatever state the server is later: if the stream is there and
    unexpired and still knows the request - it has the producer in that epoch, at
    that sequence number or a later one, and has not forgotten it; it is open, or
    was closed by this very request; its content type is the same - the very same
    request is answered 204 with its epoch and the last sequence number known, and
    nothing is stored or announced a second time. *)
Theorem post_retry (p : string) (req : Request) (a : AppendRequest) (id : string) (e seq : Z)
    (sv sv1 : Server) (r1 : Response) :
  parse_append req = Ok a -> ap_producer a = Some (id, e, seq) -> rq_body req <> [] ->
  handleAppend now p req sv = (sv1, Ok r1) -> rs_status r1 = 200 ->
  (exists s1, streams (store sv1) !! p = Some s1 /\ last_known id seq s1 = seq /\
     forall t, t <= now + PRODUCER_STATE_TTL_MS -> knows t (append_options a) id e seq s1) /\
  forall sv2 s2, live now' p s2 (store sv2) -> knows now' (append_options a) id e seq s2 ->
  exists sv3 r2,
    handleAppend now' p req sv2 = (sv3, Ok r2) /\ rs_status r2 = 204 /\
    rs_header PRODUCER_EPOCH_HEADER r2 = Some (js_String e) /\
    rs_header PRODUCER_SEQ_HEADER r2 = Some (js_String (last_known id seq s2)) /\
    calls sv3 = calls sv2 /\
    (store_ok (streams (store sv2)) -> forall q, is_Some (streams (store sv3) !! q) ->
       log (streams (store sv3)) q = log (streams (store sv2)) q).
Proof.
  intros Hp Hpr Hb H1 H200.
  destruct (handleAppend_200 now p req a sv sv1 r1 Hp Hb H1 H200)
    as (Hct & st & r & m & Happ & Hm & Hst).
  assert (Hne := parse_append_id req a id e seq Hp Hpr). split.
  - destruct (append_committed p _ _ _ _ r m id e seq Happ Hm)
      as (s3 & Hs3 & Hps & _ & Hk); try (cbn; by rewrite Hpr).
    exists (set_lastAccessedAt now s3). split; [rewrite Hst; cbn; by rewrite lookup_alter_eq, Hs3|].
    split; [unfold last_known; cbn; rewrite Hps; by destruct (closed s3)|]. intros t Ht. by destruct (Hk t Ht).
  - intros sv2 s2 Hl Hk.
    destruct (append_again p (rq_body req) (append_options a) (store sv2) s2 id e seq Hl Hk)
      as (st2 & c & Hq & Hev & Happ2); try (cbn; by rewrite ?Hpr); try done.
    assert (Hu : unwritten sv2 (set_store st2 sv2)).
    { split_and!; [done|done| |done]. intros Hok. by eapply store_ok_steps. }
    destruct (append_again_reply p req a sv2 st2 c id e seq (last_known id seq s2))
      as (sv3 & r2 & Hrun & H204 & He & Hs & Hu2); try done.
    assert (Hu3 : unwritten sv2 sv3) by by etransitivity.
    exists sv3, r2. split_and!; try done; [apply Hu3|]. intros Hok q Hq'. by apply unwritten_log.
Qed.
End retry.
