(* ===== verification/ServerCreate.v ===== *)
(** * PUT over HTTP: the stream a PUT makes, and repeating it *)

From S2P Require Import Prelude Offsets Producer Text Json Types JsonInstance JsonMode StreamStore StoreLemmas StoreSteps StoreGraph ForkRead StoreTheorems ReaderRuns LongPoll Cursor PathEncoding Sse Http Server ServerReads ServerWrites.
Local Open Scope js_scope.

(** Nothing about forks is asked for. *)
Definition not_a_fork (o : CreateOptions) : Prop :=
  co_forkedFrom o = None /\ co_forkOffset o = None /\ co_forkSubOffset o = None.

Section create.
Context `{!JsonLib} `{!DateLib}.
Context (now : Z).

Lemma config_matches_built p o :
  not_a_fork o -> config_matches o (build_stream now p o None) = true.
Proof.
  intros (Hf & Hfo & Hsub). unfold config_matches, build_stream. rewrite Hf, Hfo, Hsub.
  destruct (_ || _); cbn; by rewrite String.eqb_refl, !bool_decide_eq_true_2, Bool.eqb_reflx.
Qed.

Lemma config_matches_initial o s data s' om :
  appendToStream now s data true = Ok (s', om) -> config_matches o s' = config_matches o s.
Proof. by intros [[_ ->]|(b & _ & _ & ->)]%appendToStream_inv. Qed.

(** The stream [create] returns is in the map, and has the asked configuration. *)
Lemma create_Ok p o st st' s :
  create now p o st = (st', Ok s) ->
  streams st' !! p = Some s /\ softDeleted s = false /\
  (not_a_fork o -> config_matches o s = true) /\ (isExpired now s = true -> refCount s = 0).
Proof.
  intros Hc.
  assert (Hnew : forall st0, create_new now p o st0 = (st', Ok s) ->
    streams st' !! p = Some s /\ softDeleted s = false /\
    (not_a_fork o -> config_matches o s = true) /\ (isExpired now s = true -> refCount s = 0)).
  { intros st0 Hn. rewrite create_new_unfold in Hn.
    apply bind_Ok_inv in Hn as (st1 & fork & Hfork & Hn).
    apply bind_Ok_inv in Hn as (st2 & s2 & Ha & Hn).
    apply bind_Ok_inv in Hn as (st3 & [] & [= <-] & [= <- <-]).
    pose proof (build_stream_fields now p o fork) as (_ & Href & Hsd & _).
    apply append_initial_Ok in Ha as [-> Ha]. cbn. split; [apply lookup_insert_eq|].
    assert (Hsame : softDeleted s2 = false /\ refCount s2 = 0 /\
      config_matches o s2 = config_matches o (build_stream now p o fork)).
    { destruct Ha as [->|(data & om & _ & Ha)]; [by split_and!|].
      apply (config_matches_initial o) in Ha as Hm.
      apply (initial_fields now fork o) in Ha as (_ & Hr & Hs & _). split_and!; congruence. }
    destruct Hsame as (? & ? & ->). split_and!; try done. intros Hno.
    apply fork_of_inv in Hfork as [(_ & -> & _)|(q & ? & ? & ? & Hq & _)].
    - by apply config_matches_built.
    - destruct Hno as [Hno _]. congruence. }
  unfold create in Hc. apply bind_Ok_inv in Hc as (? & ? & [= <- <-] & Hc).
  destruct (streams st !! p) as [s0|] eqn:Hs0; [|by eapply Hnew].
  destruct (isExpired now s0) eqn:Hexp.
  - apply bind_Ok_inv in Hc as (st1 & [] & _ & Hc). apply bind_Ok_inv in Hc as (st2 & [] & _ & Hc).
    by eapply Hnew.
  - destruct (softDeleted s0) eqn:Hsd; [done|]. destruct (config_matches o s0) eqn:Hm; [|done].
    injection Hc as <- <-. split_and!; try done. congruence.
Qed.

(** [create] of a stream that is there and matches. *)
Lemma create_present p o st s :
  live now p s st -> softDeleted s = false -> config_matches o s = true ->
  create now p o st = (st, Ok s).
Proof.
  intros [Hs He] Hsd Hm. unfold create, bind at 1, get_state. by rewrite Hs, He, Hsd, Hm.
Qed.
End create.

Section put.
Context `{!JsonLib} `{!DateLib}.
Context (options : ServerOptions) (now : Z).

(** The options of a request without fork headers. *)
Lemma parse_create_plain req o :
  parse_create req = Ok o -> req_header "stream-forked-from" req = None ->
  req_header "stream-fork-offset" req = None -> not_a_fork o.
Proof.
  unfold parse_create. intros Hp Hf Hfo. rewrite Hf, Hfo in Hp. cbn [truthy or_else andb negb] in Hp.
  destruct (_ && _); [done|]. destruct (truthy _ && _); [done|]. destruct (_ && _); [done|].
  destruct (req_header "stream-fork-sub-offset" req); [done|]. by injection Hp as <-.
Qed.

Lemma parse_create_400 req r : parse_create req = Err r -> rs_status r = 400.
Proof.
  unfold parse_create. repeat case_match; intros [=]; by subst.
Qed.

Lemma create_error_4xx e r : create_error e = Some r -> 400 <= rs_status r.
Proof. unfold create_error. repeat case_match; intros [=]; by subst. Qed.

(** The answer to a PUT that leaves the stream [s] at [p]. *)
Lemma finish_create_live p o isNew sv s :
  live now p s (store sv) ->
  exists sv' r, finish_create options now p o isNew sv = (sv', Ok r) /\ store sv' = store sv /\
    injectedFaults sv' = injectedFaults sv /\
    rs_status r = (if isNew then 201 else 200) /\
    rs_header STREAM_OFFSET_HEADER r = Some (currentOffset s) /\
    rs_header "content-type" r = Some (or_else (contentType s)
      (or_else (co_contentType o) "application/octet-stream"%string)) /\
    rs_header STREAM_CLOSED_HEADER r = (if closed s then Some "true"%string else None) /\
    (isNew = false -> sv' = sv).
Proof.
  intros Hl. unfold finish_create.
  rewrite (bind_on_store_call _ _ sv (store sv) (Some s)) by (by apply get_live).
  rewrite set_store_same.
  destruct isNew, (opt_onStreamCreated options), (co_initialData o), (contentType s),
    (co_contentType o), (closed s); eexists _, _; split_and!; try reflexivity; done.
Qed.

(** What a PUT stores first: the body, if there is one. *)
Definition first_contents (o : CreateOptions) (s : Stream) : result StoreError Stream :=
  match co_initialData o with
  | Some data =>
      match appendToStream now s data true with Ok (s, _) => Ok s | Err e => Err e end
  | None => Ok s
  end.

(** What a successful PUT has announced. *)
Definition create_calls (p : string) (o : CreateOptions) (s : Stream) : list Call :=
  (if opt_onStreamCreated options
   then [StreamCreatedHook p (or_else (contentType s)
           (or_else (co_contentType o) "application/octet-stream"%string)) now] else []) ++
  (if co_initialData o then [onStreamAppend p] else []).

Lemma parse_create_body req o :
  parse_create req = Ok o ->
  co_initialData o = (if (0 <? length (rq_body req))%nat then Some (rq_body req) else None).
Proof.
  unfold parse_create. intros Hp.
  destruct (_ && _); [done|]. destruct (truthy _ && _); [done|]. destruct (truthy _ && _); [done|].
  destruct (truthy _ && _); [done|].
  destruct (req_header "stream-fork-sub-offset" req); [|by injection Hp as <-].
  destruct (negb _); [done|]. destruct (negb _); [done|]. by injection Hp as <-.
Qed.

Lemma create_absent p o st :
  streams st !! p = None -> co_forkedFrom o = None ->
  (forall data, co_initialData o = Some data -> data <> []) ->
  create now p o st =
    match first_contents o (build_stream now p o None) with
    | Ok s => (upd_streams (insert p s) st, Ok s)
    | Err e => (st, Err e)
    end.
Proof.
  intros Hp Hf Hd. unfold create, bind at 1, get_state. rewrite Hp, create_new_unfold.
  unfold fork_of. rewrite Hf. unfold first_contents, append_initial, bind. cbn [truthy].
  destruct (co_initialData o) as [data|]; [|done].
  assert ((0 <? length data)%nat = true) as ->.
  { specialize (Hd data eq_refl). by destruct data. }
  cbv beta iota delta [ret]. by destruct (appendToStream _ _ _ _) as [[s om]|e].
Qed.

Lemma first_contents_Err o s e : first_contents o s = Err e -> e = InvalidJson.
Proof.
  unfold first_contents, appendToStream, processJsonAppend. destruct (co_initialData o); [|done].
  repeat case_match; intros; simplify_eq; done.
Qed.

(** What the [try] of [handleCreate] gives. *)
Lemma created_inv p o sv sv' c :
  try_catch (let* _ := on_store (create now p o) in ret None)
    (fun e => match create_error e with Some r => ret (Some r) | None => throw e end) sv
    = (sv', Ok c) ->
  (exists r, c = Some r /\ 400 <= rs_status r) \/
  exists st s, c = None /\ create now p o (store sv) = (st, Ok s) /\ sv' = set_store st sv.
Proof.
  unfold try_catch, bind, on_store. destruct (create now p o (store sv)) as [st [s|e]].
  - intros [= <- <-]. right. eauto.
  - destruct (create_error (Thrown e)) as [r|] eqn:He; [|done]. intros [= <- <-]. left.
    exists r. split; [done|]. by eapply create_error_4xx.
Qed.

(** A stream that is past its time at once has no answer. *)
Lemma finish_create_expired p o isNew sv s sv' r :
  streams (store sv) !! p = Some s -> isExpired now s = true -> refCount s = 0 ->
  finish_create options now p o isNew sv <> (sv', Ok r).
Proof.
  intros Hs He Hr. unfold finish_create.
  rewrite (bind_on_store_call _ _ sv (delete_ now p (store sv)).1 None); [done|].
  unfold get. by rewrite Hs, He, Hr.
Qed.

(** A PUT to a free path without fork headers does exactly this: the
    stream is made with the requested configuration and the body, processed
    like any other data of its content type, as its first message; the answer is 201 with
    the stream's offset and content type, and [Stream-Closed] if it was asked
    for; no other stream is touched; the creation hook is told, and the
    subscriptions if there is a body.  If the body is not acceptable, nothing
    at all has happened. *)
Theorem put_creates (p : string) (req : Request) (o : CreateOptions) (sv : Server) :
  parse_create req = Ok o -> streams (store sv) !! p = None -> co_forkedFrom o = None ->
  isExpired now (build_stream now p o None) = false ->
  match first_contents o (build_stream now p o None) with
  | Err e => handleCreate options now p req sv = (sv, Err (Thrown e)) /\
      error_reply (Thrown e) = plain 400 "Invalid JSON"
  | Ok s => exists r,
      handleCreate options now p req sv =
        (mkServer (upd_streams (insert p s) (store sv)) (injectedFaults sv)
           (calls sv ++ create_calls p o s), Ok r) /\
      rs_status r = 201 /\
      rs_header STREAM_OFFSET_HEADER r = Some (currentOffset s) /\
      rs_header "content-type" r = Some (or_else (contentType s)
        (or_else (co_contentType o) "application/octet-stream"%string)) /\
      rs_header STREAM_CLOSED_HEADER r = (if closed s then Some "true"%string else None)
  end.
Proof.
  intros Hp Hnone Hf He. unfold handleCreate. rewrite Hp.
  assert (Hget : get now p (store sv) = (store sv, None)) by (unfold get; by rewrite Hnone).
  rewrite (bind_on_store_call _ _ sv (store sv) false), set_store_same
    by (unfold has; by rewrite Hget).
  assert (Hd : forall data, co_initialData o = Some data -> data <> []).
  { rewrite (parse_create_body req o Hp). destruct (rq_body req); cbn; congruence. }
  pose proof (create_absent p o (store sv) Hnone Hf Hd) as Hc.
  assert (Hsame : forall s, first_contents o (build_stream now p o None) = Ok s ->
    isExpired now s = false).
  { unfold first_contents. destruct (co_initialData o) as [data|]; [|by intros s [= <-]].
    destruct (appendToStream _ _ _ _) as [[s0 om]|] eqn:Ha; [|done]. intros s [= <-].
    rewrite (isExpired_same now (build_stream now p o None)); [done|].
    by apply appendToStream_inv in Ha as [[_ ->]|(b & _ & _ & ->)]. }
  destruct (first_contents o _) as [s|e] eqn:Hfc.
  - unfold bind at 1, try_catch. rewrite (bind_on_store _ _ _ _ _ Hc). cbn [ret].
    set (sv1 := set_store (upd_streams (insert p s) (store sv)) sv).
    assert (Hl : live now p s (store sv1)) by (split; [apply lookup_insert_eq|by apply Hsame]).
    unfold finish_create. rewrite (bind_on_store_call _ _ sv1 (store sv1) (Some s)) by (by apply get_live).
    rewrite set_store_same. unfold create_calls.
    destruct (opt_onStreamCreated options), (co_initialData o), (contentType s),
      (co_contentType o), (closed s); eexists; (split; [cbn; rewrite <-?(assoc_L (++)), ?app_nil_r; reflexivity|]);
      split_and!; reflexivity.
  - apply first_contents_Err in Hfc as ->. split; [|reflexivity].
    unfold bind at 1, try_catch. rewrite (bind_on_store_err _ _ _ _ _ Hc). by rewrite set_store_same.
Qed.

End put.

Section put_retry.
Context `{!JsonLib} `{!DateLib}.
Context (options : ServerOptions) (now now' : Z).

(** Repeating a PUT is safe: the same request without fork headers, sent
    again after it was answered 201 or 200 and while the stream has not
    expired, is answered 200 with the same offset, content type and closed
    flag, and the server is exactly as it was. *)
Theorem put_retry (p : string) (req : Request) (sv sv1 : Server) (r1 : Response) (s : Stream) :
  req_header "stream-forked-from" req = None -> req_header "stream-fork-offset" req = None ->
  handleCreate options now p req sv = (sv1, Ok r1) -> rs_status r1 < 400 ->
  live now' p s (store sv1) ->
  exists r2, handleCreate options now' p req sv1 = (sv1, Ok r2) /\ rs_status r2 = 200 /\
    (forall name, name ∈ [STREAM_OFFSET_HEADER; "content-type"%string; STREAM_CLOSED_HEADER] ->
       rs_header name r2 = rs_header name r1).
Proof.
  intros Hff Hfo H1 Hst Hl'. unfold handleCreate in H1 |- *.
  destruct (parse_create req) as [o|bad] eqn:Hp; cycle 1.
  { injection H1 as _ <-. rewrite (parse_create_400 req bad Hp) in Hst. lia. }
  apply (parse_create_plain req o Hp) in Hff as Hno; [|done].
  apply bind_Ok_inv in H1 as (sv2 & present & _ & H1).
  apply bind_Ok_inv in H1 as (sv3 & created & Hc & H1).
  apply (created_inv now) in Hc as [(bad & -> & Hbad)|(st & s1 & -> & Hc & ->)].
  { injection H1 as _ <-. lia. }
  apply create_Ok in Hc as (Hs1 & Hsd & Hm & Hexp). specialize (Hm Hno).
  destruct (isExpired now s1) eqn:He.
  { exfalso. apply (finish_create_expired options now p o (negb present) (set_store st sv2) s1 sv1 r1 Hs1); auto. }
  destruct (finish_create_live options now p o (negb present) (set_store st sv2) s1)
    as (sv4 & r & Hrun & Hstore & _ & _ & Hoff & Hct & Hcl & _); [done|].
  rewrite Hrun in H1. injection H1 as -> ->.
  assert (s = s1) as -> by (destruct Hl' as [Hs _]; rewrite Hstore in Hs; cbn in Hs; congruence).
  rewrite (bind_on_store_call _ _ sv1 (store sv1) true), set_store_same
    by (rewrite (has_live now' p s1), Hsd; done).
  unfold bind at 1, try_catch.
  rewrite (bind_on_store _ _ _ _ _ (create_present now' p o (store sv1) s1 Hl' Hsd Hm)), set_store_same.
  destruct (finish_create_live options now' p o false sv1 s1 Hl')
    as (sv5 & r2 & Hrun2 & _ & _ & H200 & Hoff2 & Hct2 & Hcl2 & Hsame). specialize (Hsame eq_refl). subst sv5.
  exists r2. cbn [ret negb]. split_and!; [done|done|]. intros name Hname.
  repeat (apply elem_of_cons in Hname as [->|Hname]; [congruence|]). by apply not_elem_of_nil in Hname.
Qed.
End put_retry.
