(* ===== verification/Scenarios.v ===== *)
(** * A scripted session, and the theorems about the handlers applied to it

    The session goes on from the history of StoreTheorems: ["/a"] was forked in
    the middle as ["/b"] and then deleted, which only marks it. *)

From S2P Require Import Prelude Offsets Producer Text Json Types JsonInstance JsonMode StreamStore StoreLemmas StoreSteps StoreGraph ForkRead StoreTheorems ReaderRuns LongPoll Cursor PathEncoding Sse Http Server ServerReads ServerWrites ServerCreate.
Local Open Scope js_scope.

#[local] Existing Instance integer_json.
#[local] Existing Instance decimal_date.
#[local] Instance no_compression : ZlibLib := fun _ b => b.

Definition options : ServerOptions :=
  mkServerOptions true (mkCursorOptions None None) true true "http://localhost:4437".

Definition server_of (st : StreamStore) : Server := mkServer st ∅ [].

Definition request (method path : string) (query headers : list (string * string)) (body : string)
    : Request :=
  mkRequest method path query (list_to_map headers) (text body).

Definition reply_of {A} (run : Server * result HandlerError A) : option A :=
  match run.2 with Ok a => Some a | Err _ => None end.

(** *** Reading *)

Definition hello : StreamMessage := mkStreamMessage (text "hello") (mk_offset 10) 1.
Definition there : StreamMessage := mkStreamMessage (text "there") (mk_offset 20) 5.

Lemma final_readable : readable 7 "/b" (found final "/b") final.
Proof. vm_compute. done. Qed.

Definition get_from (offset : string) (headers : list (string * string)) : Request :=
  request "GET" "/b" [("offset", offset)] headers "".

Lemma window_final : window (Some (mk_offset 10)) (log (streams final) "/b") = [there].
Proof. vm_compute. reflexivity. Qed.

Lemma format_there : format_body (found final "/b") [there] = Some (text "there").
Proof. vm_compute. reflexivity. Qed.

Lemma get_implements_reader_witness :
  exists off' r,
    handleRead options 7 0 [] "/b" (get_from (mk_offset 10) []) None (server_of final) =
      (touched 7 "/b" (server_of final), Ok (Replied r)) /\
    reader_step "/b" (streams final) (Some (mk_offset 10)) [there] off' /\
    is_reply (cont_of "/b" (get_from (mk_offset 10) []) (Some (mk_offset 10)) (Some (mk_offset 10)) None None)
      (found final "/b") off' (text "there") r.
Proof.
  pose proof (get_implements_reader options 7 0 [] "/b" (get_from (mk_offset 10) []) (server_of final)
    (found final "/b") (Some (mk_offset 10)) None None (text "there") (proj1 final_ok) final_readable)
    as H.
  cbv zeta in H. cbn [store server_of] in H. rewrite window_final in H.
  apply H; [vm_compute; reflexivity|reflexivity|discriminate|left; reflexivity|exact format_there].
Defined.

(** The same GET again, with the tag of the first reply. *)
Definition first_get : Server * result HandlerError ReadStep :=
  handleRead options 7 0 [] "/b" (get_from (mk_offset 10) []) None (server_of final).

Definition no_response : Response := mkResponse 0 [] [].

Definition replied (run : Server * result HandlerError ReadStep) : Response :=
  match run.2 with Ok (Replied r) => r | _ => no_response end.

Definition tag_b : string := or_else (rs_header "etag" (replied first_get)) EmptyString.

Definition second_get : Server * result HandlerError ReadStep :=
  handleRead options 9 0 [] "/b" (get_from (mk_offset 10) [("if-none-match"%string, tag_b)]) None
    first_get.1.

Lemma first_get_run :
  handleRead options 7 0 [] "/b" (get_from (mk_offset 10) []) None (server_of final) =
    (first_get.1, Ok (Replied (replied first_get))).
Proof. vm_compute. reflexivity. Qed.

Lemma second_get_run :
  handleRead options 9 0 [] "/b" (get_from (mk_offset 10) [("if-none-match"%string, tag_b)]) None
    first_get.1 = (second_get.1, Ok (Replied (replied second_get))).
Proof. vm_compute. reflexivity. Qed.

Lemma first_get_touched : first_get.1 = touched 7 "/b" (server_of final).
Proof. vm_compute. reflexivity. Qed.

Lemma readable_after : readable 9 "/b" (found (store first_get.1) "/b") (store first_get.1).
Proof. vm_compute. done. Qed.

Lemma touch_steps : steps true None (streams final) (streams (store first_get.1)).
Proof. rewrite first_get_touched. cbn [touched set_store store server_of]. apply step_alter. intros s _. book. Qed.

Lemma window_after : window (Some (mk_offset 10)) (log (streams (store first_get.1)) "/b") = [there].
Proof. vm_compute. reflexivity. Qed.

Lemma found_eq st p s : streams st !! p = Some s -> s = found st p.
Proof. unfold found. by intros ->. Qed.

Lemma start_b : start_ok "/b" (streams final) (Some (mk_offset 10)).
Proof.
  right. right. exists (mk_offset 10). split; [done|]. split; [exists 10; done|].
  intros s ->%found_eq. vm_compute. reflexivity.
Qed.

Lemma not_modified_sound_witness :
  rs_status (replied second_get) = 304 /\
  window (Some (mk_offset 10)) (log (streams (store first_get.1)) "/b") =
  window (Some (mk_offset 10)) (log (streams (store (server_of final))) "/b").
Proof.
  assert (H304 : rs_status (replied second_get) = 304) by (vm_compute; reflexivity).
  split; [exact H304|].
  apply (not_modified_sound options "/b" (Some (mk_offset 10)) None None None None 7 0 9 0 [] [] None
    (get_from (mk_offset 10) []) (get_from (mk_offset 10) [("if-none-match"%string, tag_b)])
    (server_of final) first_get.1 first_get.1 second_get.1 (found final "/b")
    (found (store first_get.1) "/b") (replied first_get) (replied second_get)
    (text "there") (text "there") tag_b (proj1 final_ok) start_b touch_steps).
  - discriminate.
  - exact final_readable.
  - exact readable_after.
  - vm_compute. reflexivity.
  - vm_compute. reflexivity.
  - reflexivity.
  - reflexivity.
  - discriminate.
  - reflexivity.
  - reflexivity.
  - cbn [store server_of]. rewrite window_final. exact format_there.
  - rewrite window_after. vm_compute. reflexivity.
  - exact first_get_run.
  - vm_compute. reflexivity.
  - vm_compute. reflexivity.
  - exact second_get_run.
  - exact H304.
Defined.

(** *** SSE *)

Definition connection : SSEConn := mkSSEConn "/b" None false false.

Lemma window_all : window (Some "-1"%string) (log (streams final) "/b") = [hello; there].
Proof. vm_compute. reflexivity. Qed.

Lemma payload_all :
  sse_payload connection (found final "/b") [hello; there] = Some "hellothere"%string.
Proof. vm_compute. reflexivity. Qed.

Lemma sse_implements_reader_witness :
  exists off' sv' controls next,
    sse_turn options 7 0 connection "-1" false (server_of final, []) =
      ((sv', [DataFrame "hellothere"] ++ controls), Ok next) /\
    reader_step "/b" (streams final) (Some "-1"%string) [hello; there] off' /\
    turn_end options 7 0 connection (found final "/b") off' false final (store sv') controls next.
Proof.
  pose proof (sse_implements_reader options 7 0 connection "-1" false (server_of final) []
    (found final "/b") "hellothere") as H.
  cbv zeta in H. cbn [store server_of sc_path connection app] in H. rewrite window_all in H.
  destruct H as (off' & sv' & controls & next & H1 & H2 & H3 & _).
  - apply final_ok.
  - exact final_readable.
  - right. left. reflexivity.
  - exact payload_all.
  - exists off', sv', controls, next. split; [exact H1|]. split; [exact H2|exact H3].
Defined.

(** *** A reader across an append *)

(** Two polls, and an append to the stream and to another one in between. *)
Definition polls : list (list (Z * op) * Z) :=
  [([], 7);
   ([(8, OAppend "/b" (text "more") plain_append); (8, OAppend "/a" (text "lost") plain_append)], 9)].

Definition polled : StreamStore * list StreamMessage * option string :=
  match follow "/b" None polls final with Some r => r | None => (final, [], None) end.

Lemma reader_complete_witness :
  msg_data <$> polled.1.2 = [text "hello"; text "there"; text "more"] /\
  polled.1.2 = window None (log (streams polled.1.1) "/b").
Proof.
  split; [vm_compute; reflexivity|].
  apply (reader_complete "/b" None polls final polled.1.1 polled.1.2 polled.2).
  - apply final_ok.
  - left. reflexivity.
  - apply follow_safeb_sound. vm_compute. reflexivity.
  - discriminate.
  - vm_compute. reflexivity.
Defined.

(** *** POST *)

(** A producer's first request. *)
Definition produce : Request :=
  request "POST" "/b" []
    [("content-type", "text/plain"); ("producer-id", "p"); ("producer-epoch", "0");
     ("producer-seq", "0")]%string "more".

Definition first_post : Server * result HandlerError Response :=
  handleAppend 8 "/b" produce (server_of final).

Definition answered (run : Server * result HandlerError Response) : Response :=
  match run.2 with Ok r => r | Err _ => no_response end.

Lemma first_post_run :
  handleAppend 8 "/b" produce (server_of final) = (first_post.1, Ok (answered first_post)).
Proof. vm_compute. reflexivity. Qed.

Lemma produce_safe : op_safe 8 (OAppend "/b" (rq_body produce) plain_append) final.
Proof. apply op_safeb_sound. vm_compute. reflexivity. Qed.

Lemma first_post_told : calls first_post.1 = [onStreamAppend "/b"].
Proof. vm_compute. reflexivity. Qed.

Lemma result_Ok_inj {E A} (a b : A) : Ok (E := E) a = Ok b -> a = b.
Proof. by intros [= ->]. Qed.

Lemma post_stores_or_not_witness :
  exists m, rs_header STREAM_OFFSET_HEADER (answered first_post) = Some (msg_offset m) /\
    log (streams (store first_post.1)) "/b" = log (streams final) "/b" ++ [m].
Proof.
  destruct (post_stores_or_not 8 "/b" produce (server_of final) first_post.1 (Ok (answered first_post))
    (proj1 final_ok) produce_safe first_post_run)
    as [(a & s & b & m & r & _ & _ & Hr & _ & Hoff & _ & Hlog & _)|(_ & Hcalls & _)].
  - exists m. split; [|exact Hlog]. apply result_Ok_inj in Hr as <-. exact Hoff.
  - rewrite first_post_told in Hcalls. discriminate Hcalls.
Defined.

Definition produce_parsed : AppendRequest :=
  mkAppendRequest (Some "text/plain"%string) None false (Some ("p"%string, 0, 0)).

(** The producer's next request, and one of another producer, before the first
    one is sent again. *)
Definition produce_next : Request :=
  request "POST" "/b" []
    [("content-type", "text/plain"); ("producer-id", "p"); ("producer-epoch", "0");
     ("producer-seq", "1")]%string "next".

Definition produce_other : Request :=
  request "POST" "/b" []
    [("content-type", "text/plain"); ("producer-id", "q"); ("producer-epoch", "3");
     ("producer-seq", "0")]%string "other".

Definition posted_since : Server := (handleAppend 9 "/b" produce_other (handleAppend 9 "/b" produce_next first_post.1).1).1.

Lemma post_retry_witness :
  exists sv3 r2, handleAppend 10 "/b" produce posted_since = (sv3, Ok r2) /\ rs_status r2 = 204 /\
    rs_header PRODUCER_SEQ_HEADER r2 = Some "1"%string /\ calls sv3 = calls posted_since.
Proof.
  destruct (post_retry 8 10 "/b" produce produce_parsed "p" 0 0 (server_of final) first_post.1
    (answered first_post)) as [_ Hlater].
  - vm_compute. reflexivity.
  - reflexivity.
  - discriminate.
  - exact first_post_run.
  - vm_compute. reflexivity.
  - destruct (Hlater posted_since (found (store posted_since) "/b")) as (sv3 & r2 & H1 & H2 & _ & H3 & H4 & _).
    + split; vm_compute; reflexivity.
    + split.
      * exists (mkProducerState 0 1 9). split; [vm_compute; reflexivity|]. split; [reflexivity|].
        cbn. unfold PRODUCER_STATE_TTL_MS. lia.
      * vm_compute. discriminate.
      * vm_compute. reflexivity.
      * vm_compute. reflexivity.
    + exists sv3, r2. split; [exact H1|]. split; [exact H2|]. split; [|exact H4].
      rewrite H3. vm_compute. reflexivity.
Defined.

(** *** PUT *)

Definition put_hi : Request := request "PUT" "/new" [] [("content-type", "text/plain")]%string "hi".

Definition put_options : CreateOptions :=
  mkCreateOptions (Some "text/plain"%string) None None (Some (text "hi")) (Some false) None None None.

Definition first_put : Server * result HandlerError Response :=
  handleCreate options 8 "/new" put_hi (server_of final).

Lemma first_put_run :
  handleCreate options 8 "/new" put_hi (server_of final) = (first_put.1, Ok (answered first_put)).
Proof. vm_compute. reflexivity. Qed.

Lemma first_contents_hi :
  first_contents 8 put_options (build_stream 8 "/new" put_options None) =
    Ok (found (store first_put.1) "/new").
Proof. vm_compute. reflexivity. Qed.

Lemma put_creates_witness :
  exists r, handleCreate options 8 "/new" put_hi (server_of final) =
      (mkServer (upd_streams (insert "/new" (found (store first_put.1) "/new")) final) ∅
         (create_calls options 8 "/new" put_options (found (store first_put.1) "/new")), Ok r) /\
    rs_status r = 201.
Proof.
  pose proof (put_creates options 8 "/new" put_hi put_options (server_of final)) as H.
  rewrite first_contents_hi in H. cbn [store injectedFaults calls server_of app] in H.
  destruct H as (r & Hrun & H201 & _).
  - vm_compute. reflexivity.
  - vm_compute. reflexivity.
  - reflexivity.
  - reflexivity.
  - exists r. split; [exact Hrun|exact H201].
Defined.

Lemma put_retry_witness :
  exists r2, handleCreate options 9 "/new" put_hi first_put.1 = (first_put.1, Ok r2) /\
    rs_status r2 = 200.
Proof.
  destruct (put_retry options 8 9 "/new" put_hi (server_of final) first_put.1 (answered first_put)
    (found (store first_put.1) "/new")) as (r2 & Hrun & H200 & _).
  - reflexivity.
  - reflexivity.
  - exact first_put_run.
  - vm_compute. reflexivity.
  - split; vm_compute; reflexivity.
  - exists r2. split; [exact Hrun|exact H200].
Defined.

(** The PUT of a fork without a body: the new stream holds the messages of its
    source, but no append is announced ([server.ts], line 764, looks at the body). *)
Definition put_fork : Request :=
  request "PUT" "/fork" [] [("stream-forked-from", "/b")]%string "".

Definition put_fork_run : Server * result HandlerError Response :=
  handleCreate options 8 "/fork" put_fork (server_of final).

Example fork_not_announced :
  rs_status (answered put_fork_run) = 201 /\
  msg_data <$> log (streams (store put_fork_run.1)) "/fork" = [text "hello"; text "there"] /\
  existsb (fun c => match c with onStreamAppend p => String.eqb p "/fork" | _ => false end) (calls put_fork_run.1) = false.
Proof. vm_compute. repeat split; reflexivity. Qed.
