(* ===== verification/ClientProducer.v ===== *)
(** * The idempotent producer of the client: class [IdempotentProducer] of
    [packages/client/src/idempotent-producer.ts]

    The class is single-threaded and its methods run to the next [await].  A
    method is a function of the object's fields up to there; what goes on after
    an [await] is a function of its own: a batch worker is between building its
    request, the reply, the wait for other sequence numbers, and its [catch].
    Which worker goes on next is up to the event loop, and is left open here.

    The queue, fastq, is a package outside of the repository.  Of it the code
    sees which tasks are waiting or running; when it starts a task, and when a
    promise of [drained] resolves, is left open as well. *)

From S2P Require Import Prelude Offsets Producer Text Json Types JsonMode Http.
Local Open Scope js_scope.

(** A number that may be [NaN]: what [parseInt] returns. *)
Definition num : Type := option Z.

(** [parseInt(s, 10)] *)
Definition js_parseInt (s : string) : num :=
  let '(negative, l) :=
    match trim_start (chars s) with
    | "-"%char :: l => (true, l)
    | "+"%char :: l => (false, l)
    | l => (false, l)
    end in
  match take_until (fun c => negb (is_digit c)) l with
  | [] => None
  | ds => let n := digits_value (of_chars ds) in Some (dbl (if negative then - n else n))
  end.

(** [n + 1] and [n < m] *)
Definition num_succ (n : num) : num := (fun z => dbl (z + 1)) <$> n.
Definition num_lt (n : num) (m : Z) : bool := match n with Some z => z <? m | None => false end.

(** [str ? parseInt(str, 10) : d] *)
Definition header_number (k : string) (r : Response) (d : num) : num :=
  match rs_header k r with
  | Some s => if String.eqb s EmptyString then d else js_parseInt s
  | None => d
  end.

Module IdempotentProducer.

Definition PRODUCER_ID_HEADER : string := "Producer-Id".

(** ** Data *)

Inductive PError :=
| DurableStreamError (message code : string) (status : option Z)
| StaleEpochError (currentEpoch : num)
| SequenceGapError (expectedSeq receivedSeq : num)
| BadRequest (r : Response)          (* [DurableStreamError.fromResponse] *)
| FetchError (r : Response)          (* [FetchError.fromResponse] *)
| NetworkError
| PlainError (message : string).

Record Options := mkOptions {
  opt_epoch : option Z;
  opt_autoClaim : option bool;
  opt_maxBatchBytes : option Z;
  opt_maxInFlight : option Z;
  opt_lingerMs : option Z;
  opt_onError : bool;
}.

(** The fields that are [readonly], and of the stream: the path of its URL, its
    content type, and the headers [resolveHeaders] gives, under lower case names. *)
Record Config := mkConfig {
  stream_path : string;
  stream_contentType : option string;
  stream_headers : gmap string string;
  producerId : string;
  autoClaim : bool;
  maxBatchBytes : Z;
  maxInFlight : Z;
  lingerMs : Z;
  producer_headers : gmap string string;
  onError : bool;
}.

Record BatchTask := mkBatchTask { task_batch : list bytes; task_seq : Z }.

(** Where a call of [#batchWorker] is. *)
Inductive Phase :=
| Building                  (* before [fetch] *)
| Fetching                  (* [await fetch] *)
| Waiting (l : list Z)      (* [await Promise.all], of the promises not resolved *)
| Failing (e : PError).     (* a promise it awaits has been rejected, or is about to throw *)

(** A call of [#batchWorker]: its task, the epoch it read, and the sequence
    number and epoch of the innermost [#doSendBatch]. *)
Record Worker := mkWorker {
  task : BatchTask;
  w_epoch : num;
  a_seq : Z;
  a_epoch : num;
  phase : Phase;
}.

(** An entry of [#seqState]; a waiter is the worker whose promise it resolves. *)
Record SeqEntry := mkSeqEntry {
  resolved : bool;
  entry_error : option PError;
  waiters : list nat;
}.

Record Producer := mkProducer {
  epoch : num;
  nextSeq : Z;
  pendingBatch : list bytes;
  batchBytes : Z;
  lingerTimeout : bool;
  queue : list BatchTask;            (* pushed, the worker not yet called *)
  running : gmap nat Worker;
  started : nat;
  deferredEnqueues : list (list bytes);
  closed : bool;
  closeResult : option string;
  pendingFinalMessage : option bytes;
  lastSuccessfulOffset : option string;
  epochClaimed : bool;
  seqState : gmap num (gmap Z SeqEntry);
  reported : list PError;            (* the calls of [onError] *)
}.

Definition set_batch (l : list bytes) (n : Z) (p : Producer) : Producer :=
  mkProducer (epoch p) (nextSeq p) l n (lingerTimeout p) (queue p) (running p) (started p)
    (deferredEnqueues p) (closed p) (closeResult p) (pendingFinalMessage p) (lastSuccessfulOffset p)
    (epochClaimed p) (seqState p) (reported p).
Definition set_linger (b : bool) (p : Producer) : Producer :=
  mkProducer (epoch p) (nextSeq p) (pendingBatch p) (batchBytes p) b (queue p) (running p) (started p)
    (deferredEnqueues p) (closed p) (closeResult p) (pendingFinalMessage p) (lastSuccessfulOffset p)
    (epochClaimed p) (seqState p) (reported p).
Definition set_queue (n : Z) (q : list BatchTask) (p : Producer) : Producer :=
  mkProducer (epoch p) n (pendingBatch p) (batchBytes p) (lingerTimeout p) q (running p) (started p)
    (deferredEnqueues p) (closed p) (closeResult p) (pendingFinalMessage p) (lastSuccessfulOffset p)
    (epochClaimed p) (seqState p) (reported p).
Definition set_running (m : gmap nat Worker) (p : Producer) : Producer :=
  mkProducer (epoch p) (nextSeq p) (pendingBatch p) (batchBytes p) (lingerTimeout p) (queue p) m
    (started p) (deferredEnqueues p) (closed p) (closeResult p) (pendingFinalMessage p)
    (lastSuccessfulOffset p) (epochClaimed p) (seqState p) (reported p).
Definition set_started (n : nat) (p : Producer) : Producer :=
  mkProducer (epoch p) (nextSeq p) (pendingBatch p) (batchBytes p) (lingerTimeout p) (queue p) (running p)
    n (deferredEnqueues p) (closed p) (closeResult p) (pendingFinalMessage p)
    (lastSuccessfulOffset p) (epochClaimed p) (seqState p) (reported p).
Definition set_deferred (l : list (list bytes)) (p : Producer) : Producer :=
  mkProducer (epoch p) (nextSeq p) (pendingBatch p) (batchBytes p) (lingerTimeout p) (queue p) (running p)
    (started p) l (closed p) (closeResult p) (pendingFinalMessage p) (lastSuccessfulOffset p)
    (epochClaimed p) (seqState p) (reported p).
Definition set_closed (f : option bytes) (p : Producer) : Producer :=
  mkProducer (epoch p) (nextSeq p) (pendingBatch p) (batchBytes p) (lingerTimeout p) (queue p) (running p)
    (started p) (deferredEnqueues p) true (closeResult p) f (lastSuccessfulOffset p)
    (epochClaimed p) (seqState p) (reported p).
Definition set_closeResult (o : option string) (p : Producer) : Producer :=
  mkProducer (epoch p) (nextSeq p) (pendingBatch p) (batchBytes p) (lingerTimeout p) (queue p) (running p)
    (started p) (deferredEnqueues p) (closed p) o (pendingFinalMessage p) (lastSuccessfulOffset p)
    (epochClaimed p) (seqState p) (reported p).
Definition set_offset (o : option string) (p : Producer) : Producer :=
  mkProducer (epoch p) (nextSeq p) (pendingBatch p) (batchBytes p) (lingerTimeout p) (queue p) (running p)
    (started p) (deferredEnqueues p) (closed p) (closeResult p) (pendingFinalMessage p) o
    (epochClaimed p) (seqState p) (reported p).
Definition set_epoch (e : num) (n : Z) (p : Producer) : Producer :=
  mkProducer e n (pendingBatch p) (batchBytes p) (lingerTimeout p) (queue p) (running p)
    (started p) (deferredEnqueues p) (closed p) (closeResult p) (pendingFinalMessage p)
    (lastSuccessfulOffset p) (epochClaimed p) (seqState p) (reported p).
Definition set_claimed (p : Producer) : Producer :=
  mkProducer (epoch p) (nextSeq p) (pendingBatch p) (batchBytes p) (lingerTimeout p) (queue p) (running p)
    (started p) (deferredEnqueues p) (closed p) (closeResult p) (pendingFinalMessage p)
    (lastSuccessfulOffset p) true (seqState p) (reported p).
Definition set_seqState (m : gmap num (gmap Z SeqEntry)) (p : Producer) : Producer :=
  mkProducer (epoch p) (nextSeq p) (pendingBatch p) (batchBytes p) (lingerTimeout p) (queue p) (running p)
    (started p) (deferredEnqueues p) (closed p) (closeResult p) (pendingFinalMessage p)
    (lastSuccessfulOffset p) (epochClaimed p) m (reported p).
Definition set_reported (l : list PError) (p : Producer) : Producer :=
  mkProducer (epoch p) (nextSeq p) (pendingBatch p) (batchBytes p) (lingerTimeout p) (queue p) (running p)
    (started p) (deferredEnqueues p) (closed p) (closeResult p) (pendingFinalMessage p)
    (lastSuccessfulOffset p) (epochClaimed p) (seqState p) l.

(** ** The constructor *)

Definition init (epoch : Z) (autoClaim : bool) : Producer :=
  mkProducer (Some epoch) 0 [] 0 false [] ∅ 0 [] false None None None (negb autoClaim) ∅ [].

Definition construct (path : string) (contentType : option string) (streamHeaders producerHeaders : gmap string string)
    (id : string) (o : Options) : result PError (Config * Producer) :=
  let epoch := or_else (opt_epoch o) 0 in
  let maxBatchBytes := or_else (opt_maxBatchBytes o) (1024 * 1024) in
  let maxInFlight := or_else (opt_maxInFlight o) 5 in
  let lingerMs := or_else (opt_lingerMs o) 5 in
  if epoch <? 0 then Err (PlainError "epoch must be >= 0")
  else if maxBatchBytes <=? 0 then Err (PlainError "maxBatchBytes must be > 0")
  else if maxInFlight <=? 0 then Err (PlainError "maxInFlight must be > 0")
  else if lingerMs <? 0 then Err (PlainError "lingerMs must be >= 0")
  else
    let autoClaim := or_else (opt_autoClaim o) false in
    Ok (mkConfig path contentType streamHeaders id autoClaim maxBatchBytes maxInFlight lingerMs
          producerHeaders (opt_onError o), init epoch autoClaim).

Section producer.
Context (cfg : Config).

(** ** Batching *)

(** [inFlightCount] *)
Definition inFlightCount (p : Producer) : Z := Z.of_nat (length (queue p) + size (running p)).

Definition pushBatch (b : list bytes) (p : Producer) : Producer :=
  set_queue (nextSeq p + 1) (queue p ++ [mkBatchTask b (nextSeq p)]) p.

(** [#enqueuePendingBatch]; a deferred batch is pushed by [run_deferred]. *)
Definition enqueuePendingBatch (p : Producer) : Producer :=
  if (length (pendingBatch p) =? 0)%nat then p
  else
    let b := pendingBatch p in
    let p := set_batch [] 0 p in
    if autoClaim cfg && negb (epochClaimed p) && (0 <? inFlightCount p)
    then set_deferred (deferredEnqueues p ++ [b]) p
    else pushBatch b p.

(** [queue.drained().then(...)] of the first of the deferred batches. *)
Definition run_deferred (p : Producer) : Producer :=
  match deferredEnqueues p with
  | [] => p
  | b :: l => pushBatch b (set_deferred l p)
  end.

(** [append]; a string is given as its UTF-8 encoding. *)
Definition append (bytes : bytes) (p : Producer) : result PError Producer :=
  if closed p then Err (DurableStreamError "Producer is closed" "ALREADY_CLOSED" None)
  else
    let p := set_batch (pendingBatch p ++ [bytes]) (batchBytes p + Z.of_nat (length bytes)) p in
    Ok (if maxBatchBytes cfg <=? batchBytes p then enqueuePendingBatch p
        else if negb (lingerTimeout p) then set_linger true p else p).

(** The callback of the linger timer. *)
Definition linger (p : Producer) : Producer :=
  if lingerTimeout p then
    let p := set_linger false p in
    if (0 <? length (pendingBatch p))%nat then enqueuePendingBatch p else p
  else p.

(** [flush] up to its first [await], and the condition of its loop's end. *)
Definition flush (p : Producer) : Producer :=
  let p := set_linger false p in
  if (0 <? length (pendingBatch p))%nat then enqueuePendingBatch p else p.

Definition flushed (p : Producer) : bool :=
  (length (deferredEnqueues p) =? 0)%nat && (inFlightCount p =? 0).

(** [detach] up to its [await]. *)
Definition detach (p : Producer) : Producer :=
  if closed p then p else flush (set_closed (pendingFinalMessage p) p).

(** [restart] after its [await] of [flush]. *)
Definition restart (p : Producer) : Producer := set_epoch (num_succ (epoch p)) 0 p.

(** [#rejectPendingBatch]: the listener of the abort signal. *)
Definition report (e : PError) (p : Producer) : Producer :=
  if onError cfg then set_reported (reported p ++ [e]) p else p.

Definition rejectPendingBatch (e : PError) (p : Producer) : Producer :=
  let p := if (0 <? length (pendingBatch p))%nat then report e p else p in
  set_linger false (set_batch [] 0 p).

Definition aborted : PError := DurableStreamError "Producer aborted" "ALREADY_CLOSED" None.

(** ** Requests *)

Definition contentType : string := or_else (stream_contentType cfg) "application/octet-stream".
Definition isJson : bool := String.eqb (normalizeContentType (Some contentType)) "application/json".

(** [JSON.stringify] is the caller's; the parts are joined into an array. *)
Definition json_array (parts : list bytes) : bytes :=
  encode_text ("[" +:+ join "," (decode_text <$> parts) +:+ "]").

Definition batchedBody (b : list bytes) : bytes := if isJson then json_array b else concat b.

(** [#buildHeaders]: of two spread objects the later one wins.  The names are in
    lower case, as [fetch] makes them. *)
Definition buildHeaders (protocol : list (string * string)) : gmap string string :=
  list_to_map protocol ∪ producer_headers cfg ∪ stream_headers cfg.

Definition protocol_headers (seq : Z) (epoch : num) : list (string * string) :=
  [("content-type", contentType); (js_lower PRODUCER_ID_HEADER, producerId cfg);
   (js_lower PRODUCER_EPOCH_HEADER, js_String_nan epoch); (js_lower PRODUCER_SEQ_HEADER, js_String seq)]%string.

Definition batch_request (b : list bytes) (seq : Z) (epoch : num) : Request :=
  mkRequest "POST" (stream_path cfg) [] (buildHeaders (protocol_headers seq epoch)) (batchedBody b).

(** ** Sequence coordination *)

Definition epochMap (e : num) (p : Producer) : gmap Z SeqEntry := or_else (seqState p !! e) ∅.

(** A promise a worker awaits in [Promise.all] is resolved or rejected; a worker
    that awaits nothing of the kind any more does not notice. *)
Definition settle_worker (s : Z) (err : option PError) (w : Worker) : Worker :=
  match phase w with
  | Waiting l =>
      mkWorker (task w) (w_epoch w) (a_seq w) (a_epoch w)
        (match err with
         | Some e => Failing e
         | None => Waiting (filter (fun x => x <> s) l)
         end)
  | _ => w
  end.

(** [#signalSeqComplete] *)
Definition signalSeqComplete (e : num) (s : Z) (err : option PError) (p : Producer) : Producer :=
  let m := epochMap e p in
  let woken := match m !! s with Some entry => waiters entry | None => [] end in
  let p := set_running (foldl (fun r w => alter (settle_worker s err) w r) (running p) woken) p in
  let m := <[s := mkSeqEntry true err []]> m in
  let cleanupThreshold := s - maxInFlight cfg * 3 in
  let m := if 0 <? cleanupThreshold then filter (fun kv => ~ kv.1 < cleanupThreshold) m else m in
  set_seqState (<[e := m]> (seqState p)) p.

Inductive SeqPromise := Resolved | Rejected (e : PError) | Unresolved.

(** [#waitForSeq], called by the worker [w]. *)
Definition waitForSeq (w : nat) (e : num) (s : Z) (p : Producer) : Producer * SeqPromise :=
  let m := epochMap e p in
  match m !! s with
  | Some entry =>
      if resolved entry then
        (set_seqState (<[e := m]> (seqState p)) p,
         match entry_error entry with Some err => Rejected err | None => Resolved end)
      else
        let entry := mkSeqEntry (resolved entry) (entry_error entry) (waiters entry ++ [w]) in
        (set_seqState (<[e := <[s := entry]> m]> (seqState p)) p, Unresolved)
  | None => (set_seqState (<[e := <[s := mkSeqEntry false None [w]]> m]> (seqState p)) p, Unresolved)
  end.

(** The loop that collects [waitPromises], and what [Promise.all] makes of them. *)
Fixpoint waitForAll (w : nat) (e : num) (seqs : list Z) (p : Producer) : Producer * Phase :=
  match seqs with
  | [] => (p, Waiting [])
  | s :: seqs =>
      let '(p, promise) := waitForSeq w e s p in
      let '(p, rest) := waitForAll w e seqs p in
      (p, match promise, rest with
          | Rejected err, _ => Failing err
          | Unresolved, Waiting l => Waiting (s :: l)
          | _, rest => rest
          end)
  end.

(** ** The batch worker *)

Definition set_phase (ph : Phase) (w : Worker) : Worker := mkWorker (task w) (w_epoch w) (a_seq w) (a_epoch w) ph.

Definition upd_worker (i : nat) (f : Worker -> Worker) (p : Producer) : Producer :=
  set_running (alter f i (running p)) p.

(** fastq calls [#batchWorker] with the first task: up to the first [await]. *)
Definition start (p : Producer) : Producer :=
  match queue p with
  | [] => p
  | t :: q =>
      set_started (S (started p))
        (set_running (<[started p := mkWorker t (epoch p) (task_seq t) (epoch p) Building]> (running p))
           (set_queue (nextSeq p) q p))
  end.

(** The request of a worker that has come to [fetch]. *)
Definition fetch_request (w : Worker) : Request := batch_request (task_batch (task w)) (a_seq w) (a_epoch w).

Definition fetch (i : nat) (p : Producer) : Producer * option Request :=
  match running p !! i with
  | Some w =>
      match phase w with
      | Building => (upd_worker i (set_phase Fetching) p, Some (fetch_request w))
      | _ => (p, None)
      end
  | None => (p, None)
  end.

(** What [#doSendBatch] does with a response. *)
Inductive Reaction :=
| Sent (offset : string)
| Claim (newEpoch : num)
| Await (expectedSeq : num)
| Fail (e : PError).

Definition react (r : Response) (seq : Z) (epoch : num) : Reaction :=
  if rs_status r =? 204 then Sent EmptyString
  else if rs_status r =? 200 then Sent (or_else (rs_header STREAM_OFFSET_HEADER r) EmptyString)
  else if rs_status r =? 403 then
    let currentEpoch := header_number PRODUCER_EPOCH_HEADER r epoch in
    if autoClaim cfg then Claim (num_succ currentEpoch) else Fail (StaleEpochError currentEpoch)
  else if rs_status r =? 409 then
    let expectedSeq := header_number PRODUCER_EXPECTED_SEQ_HEADER r (Some 0) in
    if num_lt expectedSeq seq then Await expectedSeq
    else Fail (SequenceGapError expectedSeq (header_number PRODUCER_RECEIVED_SEQ_HEADER r (Some seq)))
  else if rs_status r =? 400 then Fail (BadRequest r)
  else Fail (FetchError r).

(** [#recordSuccessfulOffset] *)
Definition recordSuccessfulOffset (offset : string) (p : Producer) : Producer :=
  if negb (String.eqb offset EmptyString) &&
     (negb (truthy (lastSuccessfulOffset p)) || String.ltb (or_else (lastSuccessfulOffset p) EmptyString) offset)
  then set_offset (Some offset) p else p.

(** The end of a call of [#batchWorker]: fastq forgets it. *)
Definition finish (i : nat) (p : Producer) : Producer := set_running (delete i (running p)) p.

(** [await fetch] of the worker [i] is done: with a response, or with none when
    it rejects.  The wait for the numbers from [expectedSeq] to [seq - 1]. *)
Definition respond (i : nat) (r : option Response) (p : Producer) : Producer :=
  match running p !! i with
  | None => p
  | Some w =>
      match r with
      | None => upd_worker i (set_phase (Failing NetworkError)) p
      | Some r =>
          match react r (a_seq w) (a_epoch w) with
          | Sent offset =>
              let p := recordSuccessfulOffset offset p in
              let p := if epochClaimed p then p else set_claimed p in
              finish i (signalSeqComplete (w_epoch w) (task_seq (task w)) None p)
          | Claim newEpoch =>
              let p := set_epoch newEpoch 1 p in
              upd_worker i (fun w => mkWorker (task w) (w_epoch w) 0 newEpoch Building) p
          | Await expectedSeq =>
              let '(p, ph) := waitForAll i (a_epoch w) (seqZ (or_else expectedSeq 0) (a_seq w - or_else expectedSeq 0)) p in
              upd_worker i (set_phase ph) p
          | Fail e => upd_worker i (set_phase (Failing e)) p
          end
      end
  end.

(** [Promise.all] has resolved: the batch is sent again. *)
Definition resume (i : nat) (p : Producer) : Producer :=
  match running p !! i with
  | Some w => match phase w with Waiting [] => upd_worker i (set_phase Building) p | _ => p end
  | None => p
  end.

(** The [catch] of [#batchWorker]. *)
Definition catch (i : nat) (p : Producer) : Producer :=
  match running p !! i with
  | Some w =>
      match phase w with
      | Failing e => finish i (report e (signalSeqComplete (w_epoch w) (task_seq (task w)) (Some e) p))
      | _ => p
      end
  | None => p
  end.

(** ** Closing *)

(** [close] up to its first [await]: the cached result, or a [flush]; then
    [#doClose] is called with [pendingFinalMessage]. *)
Definition close (finalMessage : option bytes) (p : Producer) : Producer * option string :=
  if closed p then
    match closeResult p with
    | Some r => (p, Some r)
    | None => (flush p, None)
    end
  else (flush (set_closed finalMessage p), None).

(** [#doClose]: the request. *)
Definition close_request (p : Producer) : Request :=
  let finalMessage := pendingFinalMessage p in
  let body := match finalMessage with
              | Some b => if isJson then json_array [b] else b
              | None => []
              end in
  mkRequest "POST" (stream_path cfg) []
    (buildHeaders (protocol_headers (nextSeq p) (epoch p) ++ [(js_lower STREAM_CLOSED_HEADER, "true"%string)])) body.

(** [#doClose] and [close] after [await fetch], [seqForThisRequest] being that of
    the request: the producer, and the outcome unless it is called again. *)
Definition close_respond (seqForThisRequest : Z) (r : Response) (p : Producer)
    : Producer * option (result PError string) :=
  if (rs_status r =? 204) || (rs_status r =? 200) then
    let p := set_queue (seqForThisRequest + 1) (queue p) p in
    let finalOffset := or_else (rs_header STREAM_OFFSET_HEADER r) EmptyString in
    (set_closeResult (Some finalOffset) (recordSuccessfulOffset finalOffset p), Some (Ok finalOffset))
  else if rs_status r =? 403 then
    let currentEpoch := header_number PRODUCER_EPOCH_HEADER r (epoch p) in
    if autoClaim cfg then (set_epoch (num_succ currentEpoch) 0 p, None)
    else (p, Some (Err (StaleEpochError currentEpoch)))
  else (p, Some (Err (FetchError r))).
End producer.
End IdempotentProducer.
