(* ===== verification/ProducerRuns.v ===== *)
(** * An idempotent producer, the network and the server

    The client of ClientProducer sends its requests to an endpoint over a
    network that delays, reorders, loses and repeats them, while other clients
    use the endpoint.  What the client needs to know of the endpoint is an
    interface, [ProducerEndpoint]; the server implements it (ProducerServer). *)

From S2P Require Import Prelude Offsets Producer Text Json Types JsonMode Http ClientProducer.
Import IdempotentProducer.
Local Open Scope js_scope.

(** ** The endpoint *)

(** [l] consists of [l1] and [l2], each in its order. *)
Inductive interleaved {A} : list A -> list A -> list A -> Prop :=
| interleaved_nil : interleaved [] [] []
| interleaved_l x l1 l2 l : interleaved l1 l2 l -> interleaved (x :: l1) l2 (x :: l)
| interleaved_r x l1 l2 l : interleaved l1 l2 l -> interleaved l1 (x :: l2) (x :: l).

(** The server of one stream, as one of its producers sees it: [post] is the
    reply to a request, [None] when the connection breaks; [last_of] is the
    epoch and the sequence number the server has stored last for the producer,
    [contents] what the stream holds, if it exists; [encoded body data] says that
    a body is stored as [data]. *)
Class ProducerEndpoint (S : Type) := {
  post : Z -> Request -> S -> S * option Response;
  last_of : Z -> S -> option (Z * Z);
  contents : S -> option (list bytes);
  encoded : bytes -> bytes -> Prop;
  endpoint_ok : S -> Prop;
  room : Z -> Request -> S -> Prop;
}.

(** A request of the producer [id] with data for the stream [path]. *)
Definition asks (path id : string) (e seq : Z) (req : Request) : Prop :=
  rq_method req = "POST"%string /\ rq_path req = path /\
  req_header "producer-id" req = Some id /\ req_header "producer-epoch" req = Some (js_String e) /\
  req_header "producer-seq" req = Some (js_String seq) /\ req_header "stream-closed" req = None /\
  0 <= e /\ 0 <= seq.

(** The sequence numbers of an epoch start with 0 and leave no gap. *)
Definition follows (last : option (Z * Z)) (e seq : Z) : Prop :=
  match last with
  | None => seq = 0
  | Some (e0, l) => (e0 < e /\ seq = 0) \/ (e0 = e /\ seq = l + 1)
  end.

Definition success (r : Response) : bool := (rs_status r =? 200) || (rs_status r =? 204).

(** What the endpoint promises: it stores the data of a request once, in the
    order of the sequence numbers, and does not confirm what it has not stored. *)
Class ProducerEndpointLaws (S : Type) `{!ProducerEndpoint S} (path id : string) := {
  post_law now req s s' r e seq :
    endpoint_ok s -> room now req s -> asks path id e seq req -> post now req s = (s', r) ->
    endpoint_ok s' /\
    ((exists data c, encoded (rq_body req) data /\ contents s = Some c /\
        contents s' = Some (c ++ [data]) /\ follows (last_of now s) e seq /\ last_of now s' = Some (e, seq)) \/
     ((contents s' = None \/ (contents s' = contents s /\ last_of now s' = last_of now s)) /\
      forall r', r = Some r' -> success r' = true -> contents s' <> None ->
        exists l, last_of now s = Some (e, l) /\ seq <= l));
}.

(** ** The world *)

Record World (S : Type) := mkWorld {
  producer : Producer;
  requests : list (nat * Request);
  responses : list (nat * option Response);
  server : S;
  clock : Z;
  pushed : list (list bytes);     (* the batches, by sequence number *)
  acked : list Z;                 (* the tasks that have succeeded *)
  appended : list bytes;          (* the arguments of [append] *)
  others : list bytes;            (* what other clients have stored *)
}.
Arguments mkWorld {S}.
Arguments producer {S}.
Arguments requests {S}.
Arguments responses {S}.
Arguments server {S}.
Arguments clock {S}.
Arguments pushed {S}.
Arguments acked {S}.
Arguments appended {S}.
Arguments others {S}.

(** What can happen next: a call of a method, a timer, a turn of the event loop,
    or the network: the [i]-th request in flight arrives ([reply] false: its
    response is lost and the request will be repeated), or a response or failure
    reaches the client. *)
Inductive Event :=
| EAppend (b : bytes)
| ELinger
| EFlush
| EDetach
| EAbort
| EDeferred
| EStart
| EFetch (i : nat)
| EDeliver (i : nat) (reply : bool)
| ELose (i : nat)
| ERespond (i : nat)
| EResume (i : nat)
| ECatch (i : nat).

Section world.
Context {S : Type} `{!ProducerEndpoint S}.
Context (cfg : Config).

(** The producer does something; the tasks it has pushed are at the end of its
    queue. *)
Definition client (p : Producer) (w : World S) : World S :=
  mkWorld p (requests w) (responses w) (server w) (clock w)
    (pushed w ++ (task_batch <$> drop (length (queue (producer w))) (queue p)))
    (acked w) (appended w) (others w).

Definition started_task (p : Producer) (w : World S) : World S :=
  mkWorld p (requests w) (responses w) (server w) (clock w) (pushed w) (acked w) (appended w) (others w).

(** The task a response completes. *)
Definition completes (i : nat) (r : option Response) (p : Producer) : list Z :=
  match r, running p !! i with
  | Some r, Some k => if success r then [task_seq (task k)] else []
  | _, _ => []
  end.

Definition exec (ev : Event) (w : World S) : World S :=
  let p := producer w in
  match ev with
  | EAppend b =>
      match append cfg b p with
      | Ok p' =>
          let w' := client p' w in
          mkWorld (producer w') (requests w') (responses w') (server w') (clock w') (pushed w') (acked w')
            (appended w' ++ [b]) (others w')
      | Err _ => w
      end
  | ELinger => client (linger cfg p) w
  | EFlush => client (flush cfg p) w
  | EDetach => client (detach cfg p) w
  | EAbort => client (rejectPendingBatch cfg aborted p) w
  | EDeferred => client (run_deferred p) w
  | EStart => started_task (start p) w
  | EFetch i =>
      let '(p', req) := fetch cfg i p in
      mkWorld p' (requests w ++ match req with Some r => [(i, r)] | None => [] end)
        (responses w) (server w) (clock w) (pushed w) (acked w) (appended w) (others w)
  | EDeliver j reply =>
      match requests w !! j with
      | Some (i, req) =>
          let '(s, r) := post (clock w) req (server w) in
          mkWorld p (if reply then delete j (requests w) else requests w)
            (if reply then responses w ++ [(i, r)] else responses w)
            s (clock w) (pushed w) (acked w) (appended w) (others w)
      | None => w
      end
  | ELose j =>
      match requests w !! j with
      | Some (i, req) =>
          mkWorld p (delete j (requests w)) (responses w ++ [(i, None)]) (server w) (clock w) (pushed w)
            (acked w) (appended w) (others w)
      | None => w
      end
  | ERespond j =>
      match responses w !! j with
      | Some (i, r) =>
          mkWorld (respond cfg i r p) (requests w) (delete j (responses w)) (server w) (clock w) (pushed w)
            (acked w ++ completes i r p) (appended w) (others w)
      | None => w
      end
  | EResume i => started_task (resume i p) w
  | ECatch i => started_task (catch cfg i p) w
  end.

(** A request arrives while the endpoint has room for it. *)
Definition enabled (ev : Event) (w : World S) : Prop :=
  match ev with
  | EDeliver j _ => forall i req, requests w !! j = Some (i, req) -> room (clock w) req (server w)
  | _ => True
  end.

(** Other clients store [new], or the stream disappears, while time passes; they
    do not use this producer's name. *)
Definition others_store (s : S) (now : Z) (s' : S) (now' : Z) (new : list bytes) : Prop :=
  endpoint_ok s' /\
  match contents s with
  | Some c => contents s' = None \/ (contents s' = Some (c ++ new) /\ last_of now' s' = last_of now s)
  | None => contents s' = None
  end.

Inductive step : relation (World S) :=
| step_event ev w : enabled ev w -> step w (exec ev w)
| step_others s now new w :
    others_store (server w) (clock w) s now new ->
    step w (mkWorld (producer w) (requests w) (responses w) s now (pushed w) (acked w) (appended w)
              (others w ++ new)).

(** A new producer at an endpoint. *)
Definition initial (e : Z) (s : S) (now : Z) : World S :=
  mkWorld (init e (autoClaim cfg)) [] [] s now [] [] [] [].
End world.
