(* ===== verification/ProducerOnce.v ===== *)
(** * Exactly once

    What the idempotent producer sends is stored exactly once and in order,
    whatever the network does: the invariant of the runs of ProducerRuns and the
    theorem. *)

From S2P Require Import Prelude Offsets Producer Text Json Types JsonMode Http ClientProducer ProducerRuns.
Import IdempotentProducer.
Local Open Scope js_scope.

(** ** Interleavings *)

Lemma interleaved_snoc_l {A} (x : A) l1 l2 l : interleaved l1 l2 l -> interleaved (l1 ++ [x]) l2 (l ++ [x]).
Proof. induction 1; cbn; repeat constructor; done. Qed.

Lemma interleaved_snoc_r {A} (x : A) l1 l2 l : interleaved l1 l2 l -> interleaved l1 (l2 ++ [x]) (l ++ [x]).
Proof. induction 1; cbn; repeat constructor; done. Qed.

Lemma interleaved_app_l {A} (new l1 l2 l : list A) : interleaved l1 l2 l -> interleaved (l1 ++ new) l2 (l ++ new).
Proof.
  revert l1 l. induction new as [|x new IH]; intros l1 l Hi; [by rewrite !app_nil_r|].
  rewrite !(assoc_L (++) _ [x] new). by apply IH, interleaved_snoc_l.
Qed.

Lemma interleaved_all {A} (l : list A) : interleaved l [] l.
Proof. induction l; by constructor. Qed.

(** ** What the client's methods change *)

Section client.
Context (cfg : Config).

(** Everything but the promises of a worker. *)
Definition same_worker (k k' : Worker) : Prop :=
  task k' = task k /\ w_epoch k' = w_epoch k /\ a_seq k' = a_seq k /\ a_epoch k' = a_epoch k.

Definition same_workers (m m' : gmap nat Worker) : Prop :=
  forall i, match m' !! i, m !! i with
            | Some k', Some k => same_worker k k'
            | None, None => True
            | _, _ => False
            end.

#[global] Instance same_workers_preorder : PreOrder same_workers.
Proof.
  split.
  - intros m i. destruct (m !! i); [|done]. by split_and!.
  - intros m1 m2 m3 H12 H23 i. specialize (H12 i). specialize (H23 i).
    destruct (m1 !! i), (m2 !! i), (m3 !! i); try done. unfold same_worker in *. intuition congruence.
Qed.

Lemma same_workers_alter f i m : (forall k, same_worker k (f k)) -> same_workers m (alter f i m).
Proof.
  intros Hf j. destruct (decide (i = j)) as [->|Hne].
  - rewrite lookup_alter_eq. destruct (m !! j); [apply Hf|done].
  - rewrite lookup_alter_ne by done. destruct (m !! j); [by split_and!|done].
Qed.

(** The fields that the workers' bookkeeping leaves alone. *)
Definition same_core (p p' : Producer) : Prop :=
  epoch p' = epoch p /\ nextSeq p' = nextSeq p /\ pendingBatch p' = pendingBatch p /\ queue p' = queue p /\
  started p' = started p /\ deferredEnqueues p' = deferredEnqueues p /\ closed p' = closed p.

(** Only promises have been settled or made. *)
Definition settles (p p' : Producer) : Prop :=
  same_core p p' /\ reported p' = reported p /\ same_workers (running p) (running p').

#[global] Instance settles_preorder : PreOrder settles.
Proof.
  split.
  - intros p. split_and!; done.
  - intros p1 p2 p3 (H1 & H2 & H3) (H4 & H5 & H6). split_and!; [|congruence|by etrans].
    unfold same_core in *. intuition congruence.
Qed.

Lemma settles_seqState m p : settles p (set_seqState m p).
Proof. split_and!; done. Qed.

Lemma settles_worker i f p : (forall k, same_worker k (f k)) -> settles p (upd_worker i f p).
Proof. intros Hf. split_and!; try done. by apply same_workers_alter. Qed.

Lemma settle_worker_same s err k : same_worker k (settle_worker s err k).
Proof. unfold settle_worker. destruct (phase k); by split_and!. Qed.

Lemma settles_signal e s err p : settles p (signalSeqComplete cfg e s err p).
Proof.
  unfold signalSeqComplete. etrans; [|apply settles_seqState]. split_and!; try done. cbn.
  generalize (match epochMap e p !! s with Some entry => waiters entry | None => [] end) as l.
  intros l. generalize (running p) as m. induction l as [|i l IH]; intros m; [done|]. cbn.
  etrans; [apply (same_workers_alter (settle_worker s err) i), settle_worker_same|apply IH].
Qed.

Lemma settles_waitForAll i e l p : settles p (waitForAll i e l p).1.
Proof.
  revert p. induction l as [|s l IH]; intros p; [done|]. cbn.
  assert (H1 : settles p (waitForSeq i e s p).1).
  { unfold waitForSeq. destruct (epochMap e p !! s) as [[[] err ws]|]; apply settles_seqState. }
  destruct (waitForSeq i e s p) as [p1 pr]. specialize (IH p1).
  destruct (waitForAll i e l p1) as [p2 ph]. cbn in *. by etrans.
Qed.

Lemma settles_offset o p : settles p (recordSuccessfulOffset o p).
Proof. unfold recordSuccessfulOffset. destruct (_ && _); split_and!; done. Qed.

Lemma settles_claimed (b : bool) p : settles p (if b then p else set_claimed p).
Proof. destruct b; split_and!; done. Qed.

(** A worker that has gone: it has succeeded, or its error is reported. *)
Definition ends (i : nat) (p p' : Producer) : Prop :=
  exists p1, settles p p1 /\ running p' = delete i (running p1) /\ same_core p1 p' /\
    (exists l, reported p' = reported p1 ++ l).

Lemma respond_success i r p k :
  running p !! i = Some k -> success r = true ->
  ends i p (respond cfg i (Some r) p) /\ reported (respond cfg i (Some r) p) = reported p.
Proof.
  intros Hk Hs. assert (exists o, react cfg r (a_seq k) (a_epoch k) = Sent o) as [o Ho].
  { unfold react, success in *. destruct (rs_status r =? 204); [by eexists|].
    destruct (rs_status r =? 200); [by eexists|done]. }
  unfold respond. rewrite Hk, Ho.
  match goal with |- ends _ _ (finish _ ?q) /\ _ => assert (Hq : settles p q) end.
  { etrans; [apply (settles_offset o)|]. etrans; [apply settles_claimed|]. apply settles_signal. }
  split; [|by destruct Hq as (_ & Hq & _)].
  eexists. split; [exact Hq|]. split_and!; try done. exists []. by rewrite app_nil_r.
Qed.

(** Without automatic claims, other responses only change the worker's phase. *)
Lemma respond_other i r p :
  autoClaim cfg = false -> (forall r', r = Some r' -> success r' = false) ->
  settles p (respond cfg i r p).
Proof.
  intros Hauto Hr. unfold respond. destruct (running p !! i) as [k|]; [|done].
  destruct r as [r|]; [|by apply settles_worker].
  specialize (Hr r eq_refl). unfold react. unfold success in Hr. apply orb_false_iff in Hr as [-> ->].
  rewrite Hauto. destruct (rs_status r =? 403); [by apply settles_worker|].
  destruct (rs_status r =? 409); [|destruct (rs_status r =? 400); by apply settles_worker].
  destruct (num_lt _ _); [|by apply settles_worker].
  match goal with |- context [waitForAll ?i ?e ?l ?p] =>
    pose proof (settles_waitForAll i e l p) as Hw; destruct (waitForAll i e l p) as [p1 ph] end.
  cbn in Hw. etrans; [exact Hw|]. by apply settles_worker.
Qed.

Lemma resume_settles i p : settles p (resume i p).
Proof.
  unfold resume. destruct (running p !! i) as [k|]; [|done].
  destruct (phase k) as [| |[|]|]; try done. by apply settles_worker.
Qed.

Lemma catch_spec i p : settles p (catch cfg i p) \/
  ends i p (catch cfg i p) /\ (onError cfg = true -> reported (catch cfg i p) <> []).
Proof.
  unfold catch. destruct (running p !! i) as [k|]; [|by left].
  destruct (phase k) as [| | |e]; try by left. right.
  pose proof (settles_signal (w_epoch k) (task_seq (task k)) (Some e) p) as Hs.
  set (p1 := signalSeqComplete _ _ _ _ _) in *. clearbody p1. split.
  - exists p1. unfold report. split; [done|]. destruct (onError cfg); split_and!; try done.
    + by eexists.
    + exists []. by rewrite app_nil_r.
  - unfold report. intros ->. cbn. by destruct (reported p1).
Qed.

(** The calls of the program: the pending batch grows, is pushed or is dropped. *)
Inductive pushes (p p' : Producer) : list (list bytes) -> Prop :=
| pushes_none : queue p' = queue p -> nextSeq p' = nextSeq p -> pushes p p' []
| pushes_push b : queue p' = queue p ++ [mkBatchTask b (nextSeq p)] -> nextSeq p' = nextSeq p + 1 -> pushes p p' [b].

Definition call_ok (p p' : Producer) (new : list (list bytes)) : Prop :=
  pushes p p' new /\ epoch p' = epoch p /\ running p' = running p /\ started p' = started p /\
  deferredEnqueues p' = deferredEnqueues p.

Lemma enqueue_call p :
  autoClaim cfg = false -> exists new, call_ok p (enqueuePendingBatch cfg p) new /\
    concat new ++ pendingBatch (enqueuePendingBatch cfg p) = pendingBatch p /\
    reported (enqueuePendingBatch cfg p) = reported p /\ closed (enqueuePendingBatch cfg p) = closed p.
Proof.
  intros Hauto. unfold enqueuePendingBatch. rewrite Hauto. destruct (pendingBatch p) as [|b l] eqn:Hp.
  - exists []. cbn. split_and!; try done. by split_and!; [constructor| |..].
  - exists [b :: l]. cbn. split_and!; try done; [|by rewrite !app_nil_r].
    split_and!; try done. by apply pushes_push.
Qed.

Lemma drop_pushes p p' new : pushes p p' new -> task_batch <$> drop (length (queue p)) (queue p') = new.
Proof. intros [Hq _|b Hq _]; rewrite Hq; [by rewrite drop_all|by rewrite drop_app_length]. Qed.

(** [new] is pushed, and the rest of what was pending still is. *)
Definition passes_on (p p' : Producer) (pending : list bytes) : Prop :=
  exists new, call_ok p p' new /\ concat new ++ pendingBatch p' = pending /\ reported p' = reported p.

Lemma passes_enqueue p q :
  autoClaim cfg = false -> call_ok p q [] -> reported q = reported p ->
  passes_on p (enqueuePendingBatch cfg q) (pendingBatch q).
Proof.
  intros Hauto (Hc & He & Hr & Hs & Hd) Hrep.
  destruct (enqueue_call q Hauto) as (new & (Hc' & He' & Hr' & Hs' & Hd') & Hp & Hrep' & _).
  exists new. split_and!; [|done|congruence]. inversion Hc as [Hq Hn|]; subst.
  split_and!; try congruence. inversion Hc' as [Hq' Hn'|b Hq' Hn']; subst.
  - constructor; congruence.
  - apply pushes_push; congruence.
Qed.

Lemma passes_none p q : call_ok p q [] -> reported q = reported p -> passes_on p q (pendingBatch q).
Proof. intros Hc Hr. exists []. by split_and!. Qed.

Ltac no_call := split_and!; try done; by constructor.

Lemma append_passes b p p' :
  autoClaim cfg = false -> append cfg b p = Ok p' -> passes_on p p' (pendingBatch p ++ [b]).
Proof.
  intros Hauto. unfold append. destruct (closed p); [done|]. intros [= <-].
  destruct (_ <=? _).
  - apply (passes_enqueue p (set_batch (pendingBatch p ++ [b]) _ p)); [done|no_call|done].
  - destruct (negb _).
    + apply (passes_none p (set_linger true (set_batch (pendingBatch p ++ [b]) _ p))); [no_call|done].
    + apply (passes_none p (set_batch (pendingBatch p ++ [b]) _ p)); [no_call|done].
Qed.

Lemma linger_passes p : autoClaim cfg = false -> passes_on p (linger cfg p) (pendingBatch p).
Proof.
  intros Hauto. unfold linger. destruct (lingerTimeout p); [|by apply (passes_none p p); [no_call|]].
  destruct (0 <? length _)%nat.
  - apply (passes_enqueue p (set_linger false p)); [done|no_call|done].
  - apply (passes_none p (set_linger false p)); [no_call|done].
Qed.

Lemma flush_passes p q :
  autoClaim cfg = false -> call_ok p q [] -> reported q = reported p -> passes_on p (flush cfg q) (pendingBatch q).
Proof.
  intros Hauto Hc Hr. unfold flush. destruct (0 <? length _)%nat.
  - apply (passes_enqueue p (set_linger false q)); [done| |done].
    destruct Hc as (Hc & ? & ? & ? & ?). split_and!; try done. inversion Hc; by constructor.
  - apply (passes_none p (set_linger false q)); [|done].
    destruct Hc as (Hc & ? & ? & ? & ?). split_and!; try done. inversion Hc; by constructor.
Qed.

Lemma detach_passes p : autoClaim cfg = false -> passes_on p (detach cfg p) (pendingBatch p).
Proof.
  intros Hauto. unfold detach. destruct (closed p); [by apply (passes_none p p); [no_call|]|].
  apply (flush_passes p (set_closed (pendingFinalMessage p) p)); [done|no_call|done].
Qed.

Lemma reject_spec e p :
  call_ok p (rejectPendingBatch cfg e p) [] /\ pendingBatch (rejectPendingBatch cfg e p) = [] /\
  (exists l, reported (rejectPendingBatch cfg e p) = reported p ++ l) /\
  (onError cfg = true -> reported (rejectPendingBatch cfg e p) = [] -> pendingBatch p = []).
Proof.
  unfold rejectPendingBatch, report. destruct (pendingBatch p) as [|b l] eqn:Hb; cbn.
  - split_and!; try no_call; try done. exists []. by rewrite app_nil_r.
  - destruct (onError cfg); cbn; split_and!; try no_call; try done.
    + by eexists.
    + by destruct (reported p).
    + exists []. by rewrite app_nil_r.
Qed.
End client.

(** ** The invariant *)

Section once.
Context {S : Type} `{!ProducerEndpoint S}.
Context (cfg : Config) `{!ProducerEndpointLaws S (stream_path cfg) (producerId cfg)}.
Context (e : Z) (c0 : list bytes).
Hypothesis Hauto : autoClaim cfg = false.
Hypothesis He : 0 <= e.
Hypothesis Hheaders : producer_headers cfg !! "stream-closed"%string = None /\
                      stream_headers cfg !! "stream-closed"%string = None.

Definition task_ok (pushed : list (list bytes)) (t : BatchTask) : Prop :=
  0 <= task_seq t /\ pushed !! Z.to_nat (task_seq t) = Some (task_batch t).

Definition worker_ok (pushed : list (list bytes)) (k : Worker) : Prop :=
  task_ok pushed (task k) /\ w_epoch k = Some e /\ a_epoch k = Some e /\ a_seq k = task_seq (task k).

(** The [k] first batches are stored. *)
Definition last_ok (k : nat) (last : option (Z * Z)) : Prop :=
  match k with
  | O => forall e0 l, last = Some (e0, l) -> e0 <> e
  | Datatypes.S k => last = Some (e, Z.of_nat k)
  end.

Definition stored_ok (w : World S) (c : list bytes) (mine : list bytes) : Prop :=
  Forall2 (fun b d => encoded (batchedBody cfg b) d) (take (length mine) (pushed w)) mine /\
  (length mine <= length (pushed w))%nat /\
  interleaved (c0 ++ others w) mine c /\
  last_ok (length mine) (last_of (clock w) (server w)) /\
  (forall n, n ∈ acked w -> n < Z.of_nat (length mine)) /\
  forall i r k, (i, Some r) ∈ responses w -> success r = true -> running (producer w) !! i = Some k ->
    task_seq (task k) < Z.of_nat (length mine).

Definition accounted (w : World S) (n : Z) : Prop :=
  n ∈ acked w \/ (exists t, t ∈ queue (producer w) /\ task_seq t = n) \/
  (exists i k, running (producer w) !! i = Some k /\ task_seq (task k) = n) \/
  (onError cfg = true /\ reported (producer w) <> []) \/ onError cfg = false.

Record inv (w : World S) : Prop := mkInv {
  inv_epoch : epoch (producer w) = Some e;
  inv_next : nextSeq (producer w) = Z.of_nat (length (pushed w));
  inv_deferred : deferredEnqueues (producer w) = [];
  inv_queue t : t ∈ queue (producer w) -> task_ok (pushed w) t;
  inv_running i k : running (producer w) !! i = Some k -> (i < started (producer w))%nat /\ worker_ok (pushed w) k;
  inv_requests i req : (i, req) ∈ requests w ->
    (i < started (producer w))%nat /\
    exists t, task_ok (pushed w) t /\ req = batch_request cfg (task_batch t) (task_seq t) (Some e) /\
      forall k, running (producer w) !! i = Some k -> task k = t;
  inv_responses i r : (i, r) ∈ responses w -> (i < started (producer w))%nat;
  inv_accounted n : 0 <= n < Z.of_nat (length (pushed w)) -> accounted w n;
  inv_sent : sublist (concat (pushed w) ++ pendingBatch (producer w)) (appended w);
  inv_all : onError cfg = true -> reported (producer w) = [] ->
    concat (pushed w) ++ pendingBatch (producer w) = appended w;
  inv_ok : endpoint_ok (server w);
  inv_contents c : contents (server w) = Some c -> exists mine, stored_ok w c mine;
}.

Lemma task_ok_app pushed new t : task_ok pushed t -> task_ok (pushed ++ new) t.
Proof. intros [? Hl]. split; [done|]. by apply lookup_app_l_Some. Qed.

Lemma take_app_le {A} n (l k : list A) : (n <= length l)%nat -> take n (l ++ k) = take n l.
Proof. intros. rewrite take_app. replace (n - length l)%nat with 0%nat by lia. by rewrite take_0, app_nil_r. Qed.

(** A call of the program that pushes [new]. *)
Lemma inv_call p' new a' w :
  inv w -> call_ok (producer w) p' new ->
  (exists l, reported p' = reported (producer w) ++ l) ->
  sublist (concat (pushed w ++ new) ++ pendingBatch p') a' ->
  (onError cfg = true -> reported p' = [] -> concat (pushed w ++ new) ++ pendingBatch p' = a') ->
  inv (mkWorld p' (requests w) (responses w) (server w) (clock w) (pushed w ++ new) (acked w) a' (others w)).
Proof.
  intros Hw (Hc & Hep & Hrun & Hst & Hd) [rl Hrep] Hsub Hall.
  assert (Hnext : nextSeq p' = Z.of_nat (length (pushed w ++ new))).
  { pose proof (inv_next w Hw) as Hn. rewrite length_app. destruct Hc as [_ Hn2 | b _ Hn2]; rewrite Hn2; cbn; lia. }
  assert (Hqueue : forall t, t ∈ queue p' -> t ∈ queue (producer w) \/
            exists b, new = [b] /\ t = mkBatchTask b (nextSeq (producer w))).
  { intros t. destruct Hc as [Hq _ | b Hq _]; rewrite Hq; [by left|].
    intros [?| ->%list_elem_of_singleton]%elem_of_app; [by left|right; by eexists]. }
  constructor; cbn; try done.
  - rewrite Hep. apply Hw.
  - rewrite Hd. apply Hw.
  - intros t [Ht|(b & -> & ->)]%Hqueue; [by apply task_ok_app, Hw|]. rewrite (inv_next w Hw).
    split; cbn; [lia|]. by rewrite Nat2Z.id, list_lookup_middle.
  - intros i k. rewrite Hrun, Hst. intros Hk. destruct (inv_running w Hw i k Hk) as (? & Ht & ?).
    split; [done|]. split; [by apply task_ok_app|done].
  - intros i req. rewrite Hrun, Hst. intros Hr. destruct (inv_requests w Hw i req Hr) as (? & t & ? & ? & ?).
    split; [done|]. exists t. split; [by apply task_ok_app|done].
  - rewrite Hst. apply Hw.
  - intros n Hn. unfold accounted. cbn. rewrite Hrun.
    destruct (decide (n < Z.of_nat (length (pushed w)))) as [Hlt|Hge].
    + destruct (inv_accounted w Hw n ltac:(lia)) as [?|[(t & Ht & Hs)|[?|[[? Hne]|?]]]]; auto.
      * right; left. exists t. split; [|done]. destruct Hc as [Hq _ | b Hq _]; rewrite Hq; [done|]. apply elem_of_app. by left.
      * do 3 right. left. split; [done|]. rewrite Hrep. by destruct (reported (producer w)).
    + right; left. rewrite length_app in Hn. destruct Hc as [_ _|b Hq _]; [cbn in Hn; lia|].
      eexists. rewrite Hq. split; [apply elem_of_app; right; by apply list_elem_of_singleton|].
      cbn. rewrite (inv_next w Hw). cbn in Hn. lia.
  - apply Hw.
  - intros c Hcon. destruct (inv_contents w Hw c Hcon) as (mine & Hf & Hle & Hi & Hl & Ha & Hr).
    exists mine. split_and!; cbn; try done.
    + by rewrite take_app_le.
    + rewrite length_app. lia.
    + rewrite Hrun. done.
Qed.

Lemma inv_passes p' pending a w :
  inv w -> passes_on (producer w) p' pending -> pending = pendingBatch (producer w) ++ a ->
  inv (mkWorld p' (requests w) (responses w) (server w) (clock w)
         (pushed w ++ (task_batch <$> drop (length (queue (producer w))) (queue p')))
         (acked w) (appended w ++ a) (others w)).
Proof.
  intros Hw (new & Hc & Hp & Hrep) ->. rewrite (drop_pushes _ _ new) by apply Hc.
  assert (Heq : concat (pushed w ++ new) ++ pendingBatch p' =
                (concat (pushed w) ++ pendingBatch (producer w)) ++ a).
  { by rewrite concat_app, <-!app_assoc, <-Hp. }
  apply inv_call; [done|done|exists []; by rewrite app_nil_r| |].
  - rewrite Heq. apply sublist_app; [apply Hw|done].
  - intros Hon Hr. rewrite Heq. f_equal. apply (inv_all w Hw); [done|congruence].
Qed.

(** *** The bookkeeping of the workers *)

Definition tends (p p' : Producer) : Prop :=
  same_core p p' /\ (exists l, reported p' = reported p ++ l) /\
  forall i k', running p' !! i = Some k' -> exists k, running p !! i = Some k /\ same_worker k k'.

Lemma settles_tends p p' : settles p p' -> tends p p'.
Proof.
  intros (Hc & Hr & Hs). split; [done|]. split; [exists []; by rewrite app_nil_r|].
  intros i k' Hk. specialize (Hs i). rewrite Hk in Hs. destruct (running p !! i) as [k|]; [by exists k|done].
Qed.

Lemma ends_tends i p p' : ends i p p' -> tends p p'.
Proof.
  intros (p1 & Hs & Hrun & Hc & l & Hl). destruct (settles_tends p p1 Hs) as (Hc1 & [l1 Hl1] & Hk).
  split; [|split].
  - unfold same_core in *. intuition congruence.
  - exists (l1 ++ l). by rewrite Hl, Hl1, app_assoc.
  - intros j k'. rewrite Hrun. intros [_ Hj]%lookup_delete_Some. by apply Hk.
Qed.

(** A worker that is still there, or has ended. *)
Lemma settles_accounted p p' i k :
  settles p p' -> running p !! i = Some k ->
  exists k', running p' !! i = Some k' /\ task k' = task k.
Proof.
  intros (_ & _ & Hs) Hk. specialize (Hs i). rewrite Hk in Hs.
  destruct (running p' !! i) as [k'|]; [|done]. exists k'. split; [done|apply Hs].
Qed.

Lemma ends_accounted i p p' j k :
  ends i p p' -> running p !! j = Some k ->
  j = i \/ exists k', running p' !! j = Some k' /\ task k' = task k.
Proof.
  intros (p1 & Hs & Hrun & _) Hk. destruct (decide (j = i)) as [|Hne]; [by left|right].
  destruct (settles_accounted p p1 j k Hs Hk) as (k' & Hk' & Ht). exists k'.
  by rewrite Hrun, lookup_delete_ne.
Qed.

(** What happened to the workers is recorded. *)
Definition records (w : World S) (p' : Producer) (acked' : list Z) : Prop :=
  (forall n, n ∈ acked w -> n ∈ acked') /\
  forall i k, running (producer w) !! i = Some k ->
    (exists k', running p' !! i = Some k' /\ task k' = task k) \/ task_seq (task k) ∈ acked' \/
    (onError cfg = true /\ reported p' <> []) \/ onError cfg = false.

Lemma records_settles w p' : settles (producer w) p' -> records w p' (acked w).
Proof. intros Hs. split; [done|]. intros i k Hk. left. by eapply settles_accounted. Qed.

Lemma inv_workers p' rq rs acked' w :
  inv w -> tends (producer w) p' -> records w p' acked' ->
  (forall i req, (i, req) ∈ rq -> (i, req) ∈ requests w \/
     exists k, running (producer w) !! i = Some k /\ req = fetch_request cfg k) ->
  (forall i r, (i, r) ∈ rs -> (i, r) ∈ responses w \/ (r = None /\ (i < started (producer w))%nat)) ->
  (forall c mine, stored_ok w c mine -> forall n, n ∈ acked' -> n < Z.of_nat (length mine)) ->
  inv (mkWorld p' rq rs (server w) (clock w) (pushed w) acked' (appended w) (others w)).
Proof.
  intros Hw ((Hep & Hn & Hpe & Hq & Hst & Hd & _) & [rl Hrep] & Hk) [Hak Hrec] Hrq Hrs Hac.
  constructor; cbn; try by apply Hw.
  - rewrite Hep. apply Hw.
  - rewrite Hn. apply Hw.
  - rewrite Hd. apply Hw.
  - rewrite Hq. apply Hw.
  - intros i k' (k & Hr & Ht & Hwe & Has & Hae)%Hk. rewrite Hst.
    destruct (inv_running w Hw i k Hr) as (Hi & Hto & ? & ? & ?). split; [done|].
    unfold worker_ok. rewrite Ht. split_and!; [done|congruence..].
  - intros i req [Hr|(k & Hr & ->)]%Hrq; rewrite Hst.
    + destruct (inv_requests w Hw i req Hr) as (? & t & ? & ? & Hall). split; [done|]. exists t.
      split_and!; [done..|]. intros k' (k & Hk1 & -> & _)%Hk. by apply Hall.
    + destruct (inv_running w Hw i k Hr) as (? & Hto & _ & Hae & Has). split; [done|]. exists (task k).
      split_and!; [done| |]; [unfold fetch_request; by rewrite Hae, Has|].
      intros k' (k0 & Hk1 & -> & _)%Hk. congruence.
  - intros i r [Hr|[_ Hr]]%Hrs; rewrite Hst; [by eapply inv_responses|done].
  - intros n Hlt. unfold accounted. cbn. rewrite Hq.
    destruct (inv_accounted w Hw n Hlt) as [?|[?|[(i & k & Hr & Hs)|[[Hon Hne]|?]]]]; auto.
    + destruct (Hrec i k Hr) as [(k' & Hk' & Ht)|[Hin|Hrest]].
      * do 2 right. left. exists i, k'. by rewrite Ht.
      * left. by rewrite <-Hs.
      * auto.
    + do 3 right. left. split; [done|]. rewrite Hrep. by destruct (reported (producer w)).
  - rewrite Hpe. apply Hw.
  - intros Hon Hr. rewrite Hpe. apply (inv_all w Hw Hon). rewrite Hr in Hrep. by destruct (reported (producer w)).
  - intros c Hc. destruct (inv_contents w Hw c Hc) as (mine & Hso). pose proof Hso as (Hf & Hle & Hi & Hl & Ha & Hr).
    exists mine. split_and!; cbn; try done; [by eapply Hac|].
    intros i r k' [Hin|[? _]]%Hrs Hsuc Hk'; [|done].
    destruct (Hk i k' Hk') as (k & Hk1 & -> & _). by eapply Hr.
Qed.

(** fastq starts the first task. *)
Lemma inv_start w : inv w -> inv (exec cfg EStart w).
Proof.
  intros Hw. unfold exec, started_task, start. destruct (queue (producer w)) as [|t q] eqn:Hq; [by destruct w|].
  assert (Ht : task_ok (pushed w) t) by (apply Hw; rewrite Hq; by left).
  assert (Hfresh : forall i k, (i < started (producer w))%nat ->
    <[started (producer w):=mkWorker t (epoch (producer w)) (task_seq t) (epoch (producer w)) Building]>
      (running (producer w)) !! i = Some k -> running (producer w) !! i = Some k).
  { intros i k Hi. rewrite lookup_insert_ne by lia. done. }
  constructor; cbn; try by apply Hw.
  - intros t' Ht'. apply Hw. rewrite Hq. by right.
  - intros i k [[<- <-]|[Hne Hk]]%lookup_insert_Some.
    + split; [lia|]. unfold worker_ok. cbn. rewrite (inv_epoch w Hw). done.
    + destruct (inv_running w Hw i k Hk). split; [lia|done].
  - intros i req Hr. destruct (inv_requests w Hw i req Hr) as (? & t' & ? & ? & Hall). split; [lia|].
    exists t'. split_and!; [done..|]. intros k Hk%Hfresh; [|done]. by apply Hall.
  - intros i r Hr. pose proof (inv_responses w Hw i r Hr). lia.
  - intros n Hn. unfold accounted. cbn.
    destruct (inv_accounted w Hw n Hn) as [?|[(t' & Ht' & Hs)|[(i & k & Hk & Hs)|?]]]; auto.
    + rewrite Hq in Ht'. apply elem_of_cons in Ht' as [->|Ht']; [|right; left; by exists t'].
      do 2 right. left. eexists _, _. by rewrite lookup_insert_eq.
    + do 2 right. left. exists i, k. split; [|done]. destruct (inv_running w Hw i k Hk).
      by rewrite lookup_insert_ne by lia.
  - intros c Hc. destruct (inv_contents w Hw c Hc) as (mine & ? & ? & ? & ? & ? & Hr).
    exists mine. split_and!; try done. intros i r k Hin Hsuc Hk. cbn in *. eapply Hr; [done|done|].
    apply Hfresh; [by eapply inv_responses|done].
Qed.

(** *** The network *)

Lemma lookup_headers k (l : list (string * string)) : (list_to_map l : gmap string string) !! k = assoc k l.
Proof.
  induction l as [|[k' v] l IH]; [done|]. rewrite list_to_map_cons. cbn [assoc].
  destruct (String.eqb_spec k k') as [->|Hne]; [by rewrite lookup_insert_eq|by rewrite lookup_insert_ne].
Qed.

Lemma batch_request_asks b n :
  0 <= n -> asks (stream_path cfg) (producerId cfg) e n (batch_request cfg b n (Some e)).
Proof using He Hheaders.
  intros Hn. unfold asks, req_header, batch_request, buildHeaders, protocol_headers. cbn [rq_method rq_path rq_headers].
  destruct Hheaders as [Hp Hs].
  rewrite !lookup_union, Hp, Hs, !lookup_headers.
  assert (Hl : forall (x : string) (o1 o2 : option string), union_with (fun a _ => Some a) (union_with (fun a _ => Some a) (Some x) o1) o2 = Some x)
    by (by intros x [] []).
  split_and!; try done; apply Hl.
Qed.

Lemma follows_next k last n : last_ok k last -> follows last e n -> n = Z.of_nat k.
Proof.
  destruct k as [|k]; cbn.
  - destruct last as [[e0 l]|]; [|done]. intros Hne [[_ ?]|[? _]]; [done|]. by destruct (Hne e0 l eq_refl).
  - intros ->. cbn. lia.
Qed.

Lemma last_confirmed k l n : last_ok k (Some (e, l)) -> n <= l -> n < Z.of_nat k.
Proof. destruct k as [|k]; cbn; [intros H; by destruct (H e l eq_refl)|]. intros [= ->]. lia. Qed.

(** Storing a batch. *)
Lemma stored_ok_snoc w w' c mine t data :
  stored_ok w c mine -> task_ok (pushed w) t -> task_seq t = Z.of_nat (length mine) ->
  encoded (batchedBody cfg (task_batch t)) data ->
  pushed w' = pushed w -> others w' = others w -> acked w' = acked w -> producer w' = producer w ->
  last_of (clock w') (server w') = Some (e, task_seq t) ->
  (forall i r k, (i, Some r) ∈ responses w' -> success r = true -> running (producer w') !! i = Some k ->
     (i, Some r) ∈ responses w \/ task k = t) ->
  stored_ok w' (c ++ [data]) (mine ++ [data]).
Proof.
  intros (Hf & Hle & Hi & Hl & Ha & Hr) [_ Ht] Hseq Henc Hpu Hot Hac Hpr Hlast Hrs.
  rewrite Hseq, Nat2Z.id in Ht. pose proof (lookup_lt_Some _ _ _ Ht).
  unfold stored_ok. rewrite Hpu, Hot, Hac, Hlast, length_app, Nat.add_1_r.
  split_and!.
  - rewrite (take_S_r _ _ (task_batch t)) by done. by apply Forall2_app; [|constructor].
  - lia.
  - by apply interleaved_snoc_r.
  - cbn. by rewrite Hseq.
  - intros n Hn%Ha. lia.
  - intros i r k Hin Hs Hk. destruct (Hrs i r k Hin Hs Hk) as [Hold| ->]; [|lia].
    rewrite Hpr in Hk. specialize (Hr i r k Hold Hs Hk). lia.
Qed.

Lemma inv_server s rq rs w :
  inv w -> endpoint_ok s ->
  (forall i req, (i, req) ∈ rq -> (i, req) ∈ requests w) ->
  (forall i r, (i, r) ∈ rs -> (i < started (producer w))%nat) ->
  (forall c, contents s = Some c -> exists mine,
     stored_ok (mkWorld (producer w) rq rs s (clock w) (pushed w) (acked w) (appended w) (others w)) c mine) ->
  inv (mkWorld (producer w) rq rs s (clock w) (pushed w) (acked w) (appended w) (others w)).
Proof. intros Hw Hok Hrq Hrs Hc. constructor; cbn; try done; try by apply Hw. intros i req Hin. by apply Hw, Hrq. Qed.

Lemma elem_of_delete {A} (x : A) (i : nat) (l : list A) : x ∈ delete i l -> x ∈ l.
Proof. intros Hin. eapply elem_of_submseteq; [exact Hin|]. apply sublist_submseteq, sublist_delete. Qed.

Lemma inv_deliver j reply w : inv w -> enabled (EDeliver j reply) w -> inv (exec cfg (EDeliver j reply) w).
Proof using All.
  intros Hw Hroom. unfold exec, enabled in *.
  destruct (requests w !! j) as [[i req]|] eqn:Hj; [|done]. specialize (Hroom i req eq_refl).
  pose proof Hj as Hin%list_elem_of_lookup_2. destruct (inv_requests w Hw i req Hin) as (Hi & t & Ht & -> & Htask).
  destruct (post _ _ _) as [s r] eqn:Hpost.
  destruct (post_law _ _ _ _ _ _ _ (inv_ok w Hw) Hroom (batch_request_asks _ _ (proj1 Ht)) Hpost) as [Hok Hcases].
  assert (Hrs : forall i' r', (i', r') ∈ (if reply then responses w ++ [(i, r)] else responses w) ->
            (i', r') ∈ responses w \/ (i' = i /\ r' = r)).
  { intros i' r'. destruct reply; [|by left]. intros [?| [= -> ->]%list_elem_of_singleton]%elem_of_app; [by left|by right]. }
  apply inv_server; [done|done| | |].
  - intros i' req'. destruct reply; [apply elem_of_delete|done].
  - intros i' r' [?|[-> _]]%Hrs; [by eapply inv_responses|done].
  - destruct Hcases as [(data & c & Henc & Hc & Hc' & Hfol & Hlast)|[Hquiet Hsucc]].
    + intros c1 Hc1. rewrite Hc' in Hc1. injection Hc1 as <-.
      destruct (inv_contents w Hw c Hc) as (mine & Hso). exists (mine ++ [data]).
      assert (Hseq : task_seq t = Z.of_nat (length mine)) by (eapply follows_next; [apply Hso|done]).
      eapply (stored_ok_snoc w); try done. cbn. intros i' r' k [?|[-> _]]%Hrs _ Hk; [by left|right]. by apply Htask.
    + intros c Hc. destruct Hquiet as [Hgone|[Hsame Hlast]]; [congruence|].
      destruct (inv_contents w Hw c ltac:(congruence)) as (mine & Hf & Hle & Hil & Hl & Ha & Hr).
      exists mine. split_and!; cbn; try done; [by rewrite Hlast|].
      intros i' r' k [?|[-> Hreq]]%Hrs Hs Hk; [by eapply Hr|].
      destruct (Hsucc r' ltac:(done) Hs ltac:(congruence)) as (l & Hll & Hn). rewrite Hll in Hl.
      rewrite (Htask k Hk). by eapply last_confirmed.
Qed.

Lemma inv_others s now new w :
  inv w -> others_store (server w) (clock w) s now new ->
  inv (mkWorld (producer w) (requests w) (responses w) s now (pushed w) (acked w) (appended w) (others w ++ new)).
Proof.
  intros Hw [Hok Ho]. constructor; cbn; try done; try by apply Hw. intros c Hc.
  destruct (contents (server w)) as [c1|] eqn:Hc1; [|congruence].
  destruct Ho as [Ho|[Ho Hl]]; [congruence|]. rewrite Ho in Hc. injection Hc as <-.
  destruct (inv_contents w Hw c1 Hc1) as (mine & Hf & Hle & Hi & Hlast & Ha & Hr).
  exists mine. split_and!; cbn; try done; [|by rewrite Hl].
  rewrite app_assoc. by apply interleaved_app_l.
Qed.

Lemma inv_respond j w : inv w -> inv (exec cfg (ERespond j) w).
Proof using All.
  intros Hw. unfold exec. destruct (responses w !! j) as [[i r]|] eqn:Hj; [|done].
  pose proof Hj as Hin%list_elem_of_lookup_2.
  assert (Hrest : forall i' r', (i', r') ∈ delete j (responses w) ->
    (i', r') ∈ responses w \/ (r' = None /\ (i' < started (producer w))%nat)) by (intros ??; left; by eapply elem_of_delete).
  destruct (match r with Some r' => success r' | None => false end) eqn:Hs;
    [destruct (running (producer w) !! i) as [k|] eqn:Hk|].
  - destruct r as [r|]; [|done]. cbn. rewrite Hk, Hs.
    destruct (respond_success cfg i r (producer w) k Hk Hs) as [Hends _].
    apply inv_workers; try done; [by eapply ends_tends|..].
    + split; [intros n ?; apply elem_of_app; by left|]. intros i' k' Hk'.
      destruct (ends_accounted _ _ _ _ _ Hends Hk') as [->|?]; [|by left].
      right; left. apply elem_of_app. right. apply list_elem_of_singleton. congruence.
    + auto.
    + intros c mine (_ & _ & _ & _ & Ha & Hr) n [?| ->%list_elem_of_singleton]%elem_of_app; [by apply Ha|].
      by eapply Hr.
  - assert (respond cfg i r (producer w) = producer w) as -> by (unfold respond; by rewrite Hk).
    assert (completes i r (producer w) = []) as -> by (unfold completes; rewrite Hk; by destruct r).
    rewrite app_nil_r. apply inv_workers; try done; [by apply settles_tends|by apply records_settles|auto|].
    intros c mine Hso. apply Hso.
  - assert (Hset : settles (producer w) (respond cfg i r (producer w))).
    { apply respond_other; [done|]. intros r' ->. done. }
    assert (completes i r (producer w) = []) as ->.
    { unfold completes. destruct r as [r|]; [rewrite Hs|done]. by destruct (running (producer w) !! i). }
    rewrite app_nil_r. apply inv_workers; try done; [by apply settles_tends|by apply records_settles|auto|].
    intros c mine Hso. apply Hso.
Qed.

(** A turn of a worker that sends nothing. *)
Lemma inv_turn p' w : inv w -> tends (producer w) p' -> records w p' (acked w) -> inv (started_task p' w).
Proof using All. intros Hw Ht Hr. apply inv_workers; auto. intros c mine Hso. apply Hso. Qed.

Lemma inv_catch i w : inv w -> inv (exec cfg (ECatch i) w).
Proof using All.
  intros Hw. destruct (catch_spec cfg i (producer w)) as [Hs|[Hends Hrep]].
  - apply inv_turn; [done|by apply settles_tends|by apply records_settles].
  - apply inv_turn; [done|by eapply ends_tends|]. split; [done|]. intros j k Hk.
    destruct (ends_accounted _ _ _ _ _ Hends Hk) as [->|?]; [|by left].
    do 2 right. destruct (onError cfg); [left; by auto|by right].
Qed.

Lemma inv_fetch i w : inv w -> inv (exec cfg (EFetch i) w).
Proof using All.
  intros Hw. unfold exec, fetch. destruct (running (producer w) !! i) as [k|] eqn:Hk.
  2: { rewrite app_nil_r. by destruct w. }
  destruct (phase k) eqn:Hp; try (rewrite app_nil_r; by destruct w).
  assert (Hs : settles (producer w) (upd_worker i (set_phase Fetching) (producer w))) by by apply settles_worker.
  apply inv_workers; try done; [by apply settles_tends|by apply records_settles| |auto|].
  - intros i' req [?| [= -> ->]%list_elem_of_singleton]%elem_of_app; [by left|right; by exists k].
  - intros c mine Hso. apply Hso.
Qed.

Lemma inv_lose j w : inv w -> inv (exec cfg (ELose j) w).
Proof using All.
  intros Hw. unfold exec. destruct (requests w !! j) as [[i req]|] eqn:Hj; [|done].
  apply list_elem_of_lookup_2 in Hj as Hin. destruct (inv_requests w Hw i req Hin) as [Hi _].
  apply inv_workers; try done; [by apply settles_tends|by apply records_settles| | |].
  - intros i' req' ?. left. by eapply elem_of_delete.
  - intros i' r [?| [= -> ->]%list_elem_of_singleton]%elem_of_app; [by left|by right].
  - intros c mine Hso. apply Hso.
Qed.

Lemma client_app_nil p (w : World S) : client p w = mkWorld p (requests w) (responses w) (server w) (clock w)
  (pushed w ++ (task_batch <$> drop (length (queue (producer w))) (queue p))) (acked w) (appended w ++ []) (others w).
Proof. by rewrite app_nil_r. Qed.

Lemma inv_exec ev w : inv w -> enabled ev w -> inv (exec cfg ev w).
Proof using All.
  intros Hw Hen. destruct ev as [b| | | | | | |i|j reply|j|j|i|i].
  - cbn. destruct (append cfg b (producer w)) as [p'|] eqn:Ha; [|done].
    apply (inv_passes p' (pendingBatch (producer w) ++ [b]) [b]); [done| |done]. by apply (append_passes cfg).
  - cbn [exec]. rewrite client_app_nil. eapply inv_passes; [done|by apply (linger_passes cfg)|by rewrite app_nil_r].
  - cbn [exec]. rewrite client_app_nil.
    eapply inv_passes; [done|apply (flush_passes cfg)|by rewrite app_nil_r]; [done| |done]. split_and!; try done. by constructor.
  - cbn [exec]. rewrite client_app_nil. eapply inv_passes; [done|by apply (detach_passes cfg)|by rewrite app_nil_r].
  - destruct (reject_spec cfg aborted (producer w)) as (Hc & Hp & Hl & Hpend).
    cbn [exec]. unfold client. rewrite (drop_pushes _ _ []) by apply Hc.
    apply inv_call; [done..| |].
    + rewrite Hp, app_nil_r, app_nil_r. etrans; [|apply (inv_sent w Hw)]. by apply sublist_inserts_r.
    + intros Hon Hr. rewrite <-(inv_all w Hw), Hp, (Hpend Hon Hr), !app_nil_r; [done|done|].
      destruct Hl as [l Hl]. rewrite Hr in Hl. by destruct (reported (producer w)).
  - cbn. unfold run_deferred. rewrite (inv_deferred w Hw). unfold client. rewrite drop_all, app_nil_r. by destruct w.
  - by apply inv_start.
  - by apply inv_fetch.
  - by apply inv_deliver.
  - by apply inv_lose.
  - by apply inv_respond.
  - apply inv_turn; [done|apply settles_tends, resume_settles|apply records_settles, resume_settles].
  - by apply inv_catch.
Qed.

Lemma inv_initial s now :
  endpoint_ok s -> contents s = Some c0 -> (forall e0 l, last_of now s = Some (e0, l) -> e0 <> e) ->
  inv (initial cfg e s now).
Proof using All.
  intros Hok Hc Hl. unfold initial. rewrite Hauto. constructor; cbn; try done.
  - intros t []%not_elem_of_nil.
  - intros i req []%not_elem_of_nil.
  - intros i r []%not_elem_of_nil.
  - lia.
  - intros c Hc'. exists []. assert (c = c0) as -> by congruence.
    split_and!; cbn; try done; try lia.
    + rewrite app_nil_r. apply interleaved_all.
    + intros n []%not_elem_of_nil.
Qed.

Lemma inv_steps w w' : rtc (step cfg) w w' -> inv w -> inv w'.
Proof using All.
  induction 1 as [|w1 w2 w3 Hs _ IH]; [done|]. intros Hw. apply IH.
  destruct Hs; [by apply inv_exec|by apply inv_others].
Qed.

(** At the end of a [flush] nothing is under way. *)
Lemma flushed_accounted w n :
  inv w -> flushed (producer w) = true -> onError cfg = true -> reported (producer w) = [] ->
  0 <= n < Z.of_nat (length (pushed w)) -> n ∈ acked w.
Proof using All.
  intros Hw [_ Hz%Z.eqb_eq]%andb_true_iff Hon Hrep Hn. unfold inFlightCount in Hz.
  assert (Hq : queue (producer w) = []) by (destruct (queue (producer w)); [done|cbn in Hz; lia]).
  assert (Hr : running (producer w) = ∅) by (apply map_size_empty_iff; lia).
  destruct (inv_accounted w Hw n Hn) as [?|[(t & Ht & _)|[(i & k & Hk & _)|[[_ Hne]|?]]]]; [done|..].
  - rewrite Hq in Ht. by apply not_elem_of_nil in Ht.
  - by rewrite Hr, lookup_empty in Hk.
  - done.
  - congruence.
Qed.
End once.

(** A producer with a new epoch, at an endpoint that keeps its promise: the claim
    for the server is in ProducerServer. *)
Theorem stored_exactly_once {S} `{!ProducerEndpoint S} (cfg : Config)
    `{!ProducerEndpointLaws S (stream_path cfg) (producerId cfg)}
    (e : Z) (c0 c : list bytes) (s : S) (now : Z) (w : World S) :
  autoClaim cfg = false -> 0 <= e ->
  producer_headers cfg !! "stream-closed"%string = None -> stream_headers cfg !! "stream-closed"%string = None ->
  endpoint_ok s -> contents s = Some c0 -> (forall e0 l, last_of now s = Some (e0, l) -> e0 <> e) ->
  rtc (step cfg) (initial cfg e s now) w -> contents (server w) = Some c ->
  exists k mine,
    Forall2 (fun b d => encoded (batchedBody cfg b) d) (take k (pushed w)) mine /\
    interleaved (c0 ++ others w) mine c /\
    sublist (concat (pushed w) ++ pendingBatch (producer w)) (appended w) /\
    (forall n, n ∈ acked w -> n < Z.of_nat k) /\
    (flushed (producer w) = true -> pendingBatch (producer w) = [] ->
     onError cfg = true -> reported (producer w) = [] ->
     take k (pushed w) = pushed w /\ concat (pushed w) = appended w).
Proof.
  intros Hauto He Hh1 Hh2 Hok Hc0 Hnew Hsteps Hc.
  assert (Hw : inv cfg e c0 w).
  { apply (inv_steps cfg e c0 Hauto He (conj Hh1 Hh2) _ w Hsteps). by apply inv_initial. }
  destruct (inv_contents _ _ _ w Hw c Hc) as (mine & Hf & Hle & Hi & _ & Ha & _).
  exists (length mine), mine. split_and!; try done; [apply Hw|].
  intros Hfl Hp Hon Hrep. split.
  - apply take_ge. destruct (decide (length (pushed w) <= length mine)%nat) as [|Hlt]; [done|].
    specialize (Ha (Z.of_nat (length mine))). apply Z.lt_irrefl in Ha; [done|].
    eapply flushed_accounted; try done. lia.
  - rewrite <-(inv_all _ _ _ w Hw Hon Hrep), Hp. by rewrite app_nil_r.
Qed.
