(* ===== verification/ProducerServer.v ===== *)
(** * The server as the endpoint of an idempotent producer

    The handlers of Server keep the promise the client of ProducerRuns relies on:
    an instance of [ProducerEndpoint] and its laws. *)

From S2P Require Import ClientProducer ProducerRuns ProducerOnce.
From S2P Require Import Prelude Offsets Producer Text Json Types JsonMode StreamStore StoreLemmas StoreSteps StoreGraph ForkRead StoreTheorems Cursor Sse Http Server ServerReads ServerWrites.
Local Open Scope js_scope.

(** What [validateProducer] sees of the producer [id]. *)
Definition producer_seen (now : Z) (id : string) (s : Stream) : option (Z * Z) :=
  (fun ps => (ps_epoch ps, ps_lastSeq ps)) <$> cleanupExpiredProducers now (or_else (producers s) ∅) !! id.

Lemma cleanup_idem now m : cleanupExpiredProducers now (cleanupExpiredProducers now m) = cleanupExpiredProducers now m.
Proof.
  apply map_eq. intros i. rewrite !cleanup_lookup. destruct (m !! i) as [s|]; [|done].
  destruct (producer_expired now s) eqn:E; [done|by rewrite E].
Qed.

(** ** What a request that stores nothing leaves as it was *)

Section retained.
Context `{!JsonLib} `{!DateLib}.
Context (now : Z).

Definition keeps (s s' : Stream) : Prop :=
  contentType s' = contentType s /\ closedBy s' = closedBy s /\
  forall id, producer_seen now id s' = producer_seen now id s.

Definition retained (st st' : StreamStore) : Prop :=
  forall i t', streams st' !! i = Some t' -> exists t, streams st !! i = Some t /\ keeps t t'.

Lemma keeps_refl s : keeps s s.
Proof. by split_and!. Qed.

#[global] Instance retained_preorder : PreOrder retained.
Proof.
  split.
  - intros st i t Ht. exists t. split; [done|apply keeps_refl].
  - intros a b c Hab Hbc i t Ht. destruct (Hbc i t Ht) as (u & Hu & H1 & H2 & H3).
    destruct (Hab i u Hu) as (v & Hv & H4 & H5 & H6). exists v. split; [done|].
    split_and!; [congruence|congruence|]. intros id. by rewrite H3, H6.
Qed.

Lemma retained_streams st st' : streams st' = streams st -> retained st st'.
Proof. intros Heq i t. rewrite Heq. intros Ht. exists t. split; [done|apply keeps_refl]. Qed.

Lemma retained_alter p f st : (forall s, keeps s (f s)) -> retained st (upd_stream p f st).
Proof.
  intros Hf i t'. cbn. intros [(-> & u & Hu & ->)|[_ Hu]]%lookup_alter_Some; [by exists u|].
  exists t'. split; [done|apply keeps_refl].
Qed.

Lemma retained_store p s s' st : streams st !! p = Some s -> keeps s s' -> retained st (upd_stream p (fun _ => s') st).
Proof.
  intros Hs Hk i t'. cbn. intros [(-> & u & Hu & ->)|[_ Hu]]%lookup_alter_Some.
  - by exists s.
  - exists t'. split; [done|apply keeps_refl].
Qed.

Lemma keeps_cleaned s : keeps s (set_producers (cleanupExpiredProducers now (or_else (producers s) ∅)) s).
Proof. split_and!; [done..|]. intros id. unfold producer_seen. cbn. by rewrite cleanup_idem. Qed.

Lemma cascade_from fuel ss p i t' :
  cascade_fuel fuel p ss !! i = Some t' -> exists t, ss !! i = Some t /\ keeps t t'.
Proof.
  revert ss p. induction fuel as [|fuel IH]; intros ss p.
  { intros Ht. exists t'. split; [done|apply keeps_refl]. }
  cbn [cascade_fuel]. destruct (ss !! p) as [s|]; [|intros Ht; exists t'; split; [done|apply keeps_refl]].
  assert (Hdel : delete p ss !! i = Some t' -> exists t, ss !! i = Some t /\ keeps t t').
  { intros [_ Ht]%lookup_delete_Some. exists t'. split; [done|apply keeps_refl]. }
  destruct (truthy _); [|done]. destruct (delete p ss !! or_else (forkedFrom s) "") as [u|] eqn:Hu; [|done].
  assert (Halt : forall x f, alter f (or_else (forkedFrom s) "") (delete p ss) !! i = Some x ->
    (forall y, keeps y (f y)) -> exists t, ss !! i = Some t /\ keeps t x).
  { intros x f [(<- & y & [_ Hy]%lookup_delete_Some & ->)|[_ [_ Hx]%lookup_delete_Some]]%lookup_alter_Some Hf.
    - by exists y.
    - exists x. split; [done|apply keeps_refl]. }
  destruct (_ && _); [|intros Ht; by eapply Halt].
  intros Ht%IH. destruct Ht as (y & Hy & Hk). apply Halt in Hy as (z & Hz & Hk'); [|done].
  exists z. split; [done|]. destruct Hk as (H1 & H2 & H3), Hk' as (H4 & H5 & H6).
  split_and!; [congruence|congruence|]. intros id. by rewrite H3, H6.
Qed.

Lemma retained_getIfNotExpired p st : retained st (getIfNotExpired now p st).1.
Proof.
  intros i t'. rewrite getIfNotExpired_streams. unfold expire.
  assert (Hid : streams st !! i = Some t' -> exists t, streams st !! i = Some t /\ keeps t t')
    by (intros Ht; exists t'; split; [done|apply keeps_refl]).
  destruct (streams st !! p) as [s|] eqn:Hs; [|done].
  destruct (isExpired now s); [|done]. destruct (_ <? _).
  - intros [(-> & u & Hu & ->)|[_ Hu]]%lookup_alter_Some; [|by apply Hid]. exists u. by split.
  - destruct (softDeleted s); [done|]. unfold cascade. apply cascade_from.
Qed.

Lemma retained_call_get p : monotone retained (call (E := StoreError) (getIfNotExpired now p)).
Proof. apply mono_call, retained_getIfNotExpired. Qed.

(** The verdict on a producer's request that is a duplicate. *)
Lemma duplicate_seen s id e seq l :
  (validateProducer now (producers s) id e seq).2 = duplicate l ->
  producer_seen now id s = Some (e, l) /\ seq <= l.
Proof.
  rewrite validateProducer_verdict. unfold producer_seen. cbn [snd].
  destruct (cleanupExpiredProducers _ _ !! id) as [ps|]; cbn; [|by destruct (negb _)].
  destruct (Z.ltb_spec e (ps_epoch ps)); [done|]. destruct (Z.ltb_spec (ps_epoch ps) e); [by destruct (negb _)|].
  destruct (Z.leb_spec seq (ps_lastSeq ps)); [|by destruct (_ =? _)].
  intros [= <-]. split; [|done]. cbn. do 2 f_equal. lia.
Qed.

(** A path the store looks up is as it was. *)
Lemma call_getIfNotExpired_inv p st st1 s :
  call (E := StoreError) (getIfNotExpired now p) st = (st1, Ok (Some s)) ->
  retained st st1 /\ streams st1 !! p = Some s /\ exists s0, streams st !! p = Some s0 /\ keeps s0 s.
Proof.
  intros Hg. pose proof (retained_call_get p st) as Hk. rewrite Hg in Hk. cbn in Hk.
  split; [done|]. pose proof (call_getIfNotExpired_Some now p st st1 s Hg) as Hs. split; [done|]. by apply Hk.
Qed.

(** An append that returns no message keeps what is known of the producers, and a
    duplicate is one. *)
Lemma append_unstored p data o st st' res id e seq :
  append now p data o st = (st', res) -> store_ok (streams st') ->
  ao_producerId o = Some id -> ao_producerEpoch o = Some e -> ao_producerSeq o = Some seq ->
  (forall s cb, streams st !! p = Some s -> closedBy s = Some cb -> cb_producerId cb <> id) ->
  (forall r m, res = Ok r -> returned_message r <> Some m) ->
  retained st st' /\
  forall r, res = Ok r -> exists v c, r = WithResult (mkAppendResult None v c) /\
    forall l, v = Some (duplicate l) ->
      exists s, streams st !! p = Some s /\ producer_seen now id s = Some (e, l) /\ seq <= l.
Proof.
  intros Happ Hok' Hid He Hseq Hcb Hno. unfold append in Happ.
  apply bind_inv in Happ as [(st1 & [s|] & Hg & Happ)|(err & Hg & ->)].
  2: { pose proof (retained_call_get p st) as Hk. rewrite Hg in Hk. by injection Happ as <- <-. }
  2: { pose proof (retained_call_get p st) as Hk. rewrite Hg in Hk. by split. }
  destruct (call_getIfNotExpired_inv p st st1 s Hg) as (Hk1 & Hs & s0 & Hs0 & Hct & Hby & Hseen).
  destruct (softDeleted s) eqn:Hsd; [by injection Happ as <- <-|].
  assert (Hl : live now p s st1).
  { unfold call in Hg. destruct (getIfNotExpired now p st) as [st2 g] eqn:Hr. injection Hg as -> ->.
    apply getIfNotExpired_Some in Hr as (_ & Hlive & _). by destruct (Hlive Hsd) as [? ->]. }
  destruct (closed s).
  { rewrite Hid, He, Hseq, Hby in Happ.
    assert (same_closer (closedBy s0) (Some id) (Some e) (Some seq) = false) as Hsc.
    { unfold same_closer. destruct (closedBy s0) as [cb|] eqn:Hc; [|done].
      rewrite bool_decide_eq_false_2; [done|]. intros [= Heq]. by apply (Hcb s0 cb). }
    rewrite Hsc, andb_false_r in Happ. injection Happ as <- <-. split; [done|].
    intros r [= <-]. by eexists _, _. }
  destruct (_ && _); [by injection Happ as <- <-|].
  unfold validate_options in Happ. rewrite Hid, He, Hseq in Happ.
  destruct (validateProducer now (producers s) id e seq) as [m v] eqn:Hv.
  assert (Hm : m = cleanupExpiredProducers now (or_else (producers s) ∅)).
  { rewrite validateProducer_verdict in Hv. by injection Hv as <- _. }
  assert (Hk2 : retained st (upd_stream p (fun _ => set_producers m s) st1)).
  { etrans; [exact Hk1|]. apply (retained_store p s); [done|]. rewrite Hm. apply keeps_cleaned. }
  apply bind_inv in Happ as [(st2 & [] & [= <-] & Happ)|(err & [=] & _)].
  destruct (is_accepted (Some v)) eqn:Hacc; cbn [negb] in Happ.
  2: { injection Happ as <- <-. split; [done|]. intros r [= <-]. eexists _, _. split; [done|].
       intros l [= ->]. exists s0. split; [done|]. rewrite <-Hseen. apply duplicate_seen. by rewrite Hv. }
  assert (Hl2 : live now p (set_producers m s) (upd_stream p (fun _ => set_producers m s) st1)).
  { split; [rewrite (streams_upd_const p s) by done; apply lookup_insert_eq|].
    rewrite (isExpired_same now s) by done. apply Hl. }
  revert Hk2 Hl2 Happ. generalize (upd_stream p (fun _ => set_producers m s) st1) as st2.
  generalize (set_producers m s) as s1. intros s1 st2 Hk2 Hl2 Happ.
  assert (Hseqs : forall st3 a, (match ao_seq o, st_lastSeq s1 with
    | Some seq, Some last => if negb (String.ltb last seq) then throw (SequenceConflict seq last) else ret tt
    | _, _ => ret tt end : M StreamStore StoreError unit) st2 = (st3, a) -> st3 = st2)
    by (intros st3 a; destruct (ao_seq o), (st_lastSeq s1); try destruct (negb _); by intros [= <- _]).
  apply bind_inv in Happ as [(st3 & [] & H3%Hseqs & Happ)|(err & H3%Hseqs & ->)]; subst; [|done].
  apply bind_inv in Happ as [(st3 & [s2 om] & Ha & Happ)|(err & Ha & ->)]; [|by injection Ha as <- _].
  injection Ha as <- Ha. exfalso. apply bind_inv in Happ as [(st3 & [] & [= <-] & Happ)|(err & [=] & _)].
  destruct om as [msg|].
  - assert (Hl3 : live now p (commit_append o (Some v) s2) (upd_stream p (fun _ => commit_append o (Some v) s2) st2)).
    { split; [rewrite (streams_upd_const p s1) by apply Hl2; apply lookup_insert_eq|].
      rewrite (isExpired_same now s2) by apply commit_expiry. rewrite (isExpired_same now s1); [apply Hl2|].
      by apply appendToStream_inv in Ha as [[_ ->]|(b & _ & _ & ->)]. }
    destruct (append_commits now p _ msg o (Some v) _ st' res Hl3 Hok' Happ) as (r & -> & Hr). by eapply Hno.
  - unfold appendToStream in Ha. destruct (String.eqb _ _); [|done].
    destruct (processJsonAppend data false) as [b|err] eqn:Hb; [|done].
    destruct b as [|c b]; [by apply json_append_nonempty in Hb|done].
Qed.
End retained.

(** ** A producer's POST *)

Section post.
Context `{!JsonLib} `{!DateLib}.
Context (now : Z).

(** The reply to a producer's append that returned no message. *)
Lemma append_reply_unstored p a v c sv sv' res :
  append_reply now p a (WithResult (mkAppendResult None v c)) sv = (sv', res) ->
  retained now (store sv) (store sv') /\
  forall resp, res = Ok resp -> success resp = true -> exists l, v = Some (duplicate l).
Proof.
  unfold append_reply. cbn [ar_message ar_streamClosed ar_producerResult].
  assert (Hrefl : retained now (store sv) (store sv)) by by apply retained_streams.
  assert (Htail : forall k, (let* tail := tail_or_empty now p in ret (k tail)) sv = (sv', res) ->
    retained now (store sv) (store sv') /\ exists t, res = Ok (k t)).
  { intros k. unfold tail_or_empty, bind, on_store_call, on_store, call. intros Hr.
    pose proof (retained_getIfNotExpired now p (store sv)) as Hg. rewrite <-get_getIfNotExpired in Hg.
    destruct (get now p (store sv)) as [st g]. injection Hr as <- <-. split; [exact Hg|by eexists]. }
  destruct (or_else c false), v as [[| | | | |]|]; intros Hr;
    try (apply Htail in Hr as [Hk [t ->]]; split; [done|intros resp [= <-] Hs; first [done|by eexists]]);
    injection Hr as <- <-; (split; [done|intros resp [= <-] Hs; first [done|by eexists]]).
Qed.

Lemma handleAppend_unstored p req a id e seq sv sv' res :
  store_ok (streams (store sv)) -> op_safe now (OAppend p (rq_body req) plain_append) (store sv) ->
  parse_append req = Ok a -> ap_producer a = Some (id, e, seq) -> ap_close a = false ->
  (forall s cb, streams (store sv) !! p = Some s -> closedBy s = Some cb -> cb_producerId cb <> id) ->
  handleAppend now p req sv = (sv', res) -> calls sv' = calls sv ->
  retained now (store sv) (store sv') /\
  forall resp, res = Ok resp -> success resp = true ->
    exists s l, streams (store sv) !! p = Some s /\ producer_seen now id s = Some (e, l) /\ seq <= l.
Proof.
  intros Hok Hsafe Hp Hpr Hcl Hcb Hpost Hcalls. unfold handleAppend in Hpost. rewrite Hp, Hcl, andb_false_r in Hpost.
  assert (Hbad : forall r : Response, success r = false -> (sv, Ok r) = (sv', res) ->
    retained now (store sv) (store sv') /\ forall resp, res = Ok resp -> success resp = true ->
      exists s l, streams (store sv) !! p = Some s /\ producer_seen now id s = Some (e, l) /\ seq <= l).
  { intros r Hr [= <- <-]. split; [by apply retained_streams|]. intros resp [= <-]. congruence. }
  destruct (length (rq_body req) =? 0)%nat; [eapply Hbad; [|exact Hpost]; reflexivity|]. destruct (negb _); [eapply Hbad; [|exact Hpost]; reflexivity|]. clear Hbad.
  change (bind (append_call now p (rq_body req) a) (fun r =>
    bind (on_store_do (touchAccess now p)) (fun _ => append_reply now p a r)) sv = (sv', res)) in Hpost.
  destruct (append_call now p (rq_body req) a sv) as [sv1 res1] eqn:Hcall.
  destruct (append_call_inv now p _ a sv sv1 res1 Hcall) as (st & res0 & Happ & -> & Hres).
  unfold bind at 1 in Hpost. rewrite Hcall in Hpost.
  assert (Hok1 : store_ok (streams st)).
  { pose proof (exec_ok now (OAppend p (rq_body req) (append_options a)) _ Hok Hsafe) as Hx.
    cbn [exec] in Hx. by rewrite Happ in Hx. }
  assert (Hno : forall r m, res0 = Ok r -> returned_message r <> Some m).
  { intros r0 m -> Hm. destruct Hres as (r & -> & Hrm & _). rewrite Hm in Hrm. rewrite bind_on_store_do in Hpost.
    destruct (append_reply_message now p a r m (set_store (touchAccess now p st) sv) Hrm) as (resp & Hr & _).
    change (set_store (touchAccess now p (store (set_store st sv))) (set_store st sv))
      with (set_store (touchAccess now p st) sv) in Hpost.
    rewrite Hr in Hpost. injection Hpost as <- _. cbn in Hcalls.
    apply (f_equal length) in Hcalls. rewrite length_app in Hcalls. cbn in Hcalls. lia. }
  destruct (append_unstored now p _ _ _ _ _ id e seq Happ Hok1) as [Hk Hdup]; try done;
    try (cbn; by rewrite Hpr).
  destruct res0 as [r0|err]; [|rewrite Hres in Hpost; by injection Hpost as <- <-].
  destruct Hres as (r & -> & _ & Hreq). destruct (Hdup r0 eq_refl) as (v & c & -> & Hv).
  destruct Hreq as ([->|(om & [=] & _)] & _). rewrite bind_on_store_do in Hpost.
  destruct (append_reply_unstored p a v c _ sv' res Hpost) as [Hk2 Hs]. split.
  - etransitivity; [exact Hk|]. etransitivity; [|exact Hk2]. cbn. apply retained_alter. intros s. by split_and!.
  - intros resp Hresp Hsucc. destruct (Hs resp Hresp Hsucc) as [l Hl].
    destruct (Hv l Hl) as (s & Hs0 & Hseen & Hle). by exists s, l.
Qed.
End post.

(** ** Requests *)

Lemma dbl_large z : 2 ^ 53 < z -> 2 ^ 53 <= dbl z.
Proof.
  intros Hz. unfold dbl. rewrite Z.abs_eq, (proj2 (Z.leb_gt _ _)), Z.sgn_pos by lia. cbn zeta.
  set (e := Z.log2 z - 52). assert (Hlog : 53 <= Z.log2 z) by (apply Z.log2_le_pow2; lia).
  assert (Hq : 2 ^ 52 <= z / 2 ^ e).
  { apply Z.div_le_lower_bound; [lia|]. rewrite <-Z.pow_add_r by lia.
    replace (e + 52) with (Z.log2 z) by lia. apply Z.log2_spec. lia. }
  match goal with |- _ <= 1 * (?q' * _) => assert (Hq' : 2 ^ 52 <= q') by (repeat case_match; lia) end.
  transitivity (2 ^ 52 * 2 ^ e); [rewrite <-Z.pow_add_r by lia; apply Z.pow_le_mono_r; lia|].
  rewrite Z.mul_1_l. apply Z.mul_le_mono_nonneg_r; lia.
Qed.

Lemma parse_producer_number_js name n n' :
  0 <= n -> parse_producer_number name (js_String n) = Ok n' -> n' = n.
Proof.
  intros Hn. unfold parse_producer_number, js_Number. destruct (js_String_digits n Hn) as [Hd ->].
  rewrite Hd. unfold all_digits in Hd. apply andb_true_iff in Hd as [_ ->]. cbn [negb].
  destruct (is_safe_integer (dbl n)) eqn:Hs; [|done]. intros [= <-].
  unfold is_safe_integer in Hs. apply Z.leb_le in Hs. unfold MAX_SAFE_INTEGER in Hs.
  destruct (Z.le_gt_cases n (2 ^ 53)); [apply dbl_small; lia|].
  pose proof (dbl_large n ltac:(lia)). lia.
Qed.

(** What the server understands of a request of [ProducerRuns]. *)
Lemma asks_parse path id e seq req a :
  asks path id e seq req -> parse_append req = Ok a -> ap_producer a = Some (id, e, seq) /\ ap_close a = false.
Proof.
  intros (_ & _ & Hid & He & Hs & Hc & He0 & Hs0). unfold parse_append. rewrite Hid, He, Hs, Hc.
  destruct (String.eqb id ""); [done|].
  destruct (parse_producer_number _ (js_String e)) as [e'|] eqn:Hpe; [|done].
  destruct (parse_producer_number _ (js_String seq)) as [s'|] eqn:Hps; [|done].
  intros [= <-]. cbn. apply parse_producer_number_js in Hpe, Hps; [|done..]. by subst.
Qed.

Lemma error_reply_fails e : success (error_reply e) = false.
Proof. unfold error_reply, classify. by repeat case_match. Qed.

Section endpoint.
Context `{!JsonLib} `{!DateLib} `{!ZlibLib}.
Context (options : ServerOptions) (rnd : Z) (positions : list nat).
(** The stream, its content type, and the producer. *)
Context (p : string) (ct : option string) (id : string).

(** The routes in front of the streams do not concern the path. *)
Definition no_route (req : Request) : HM (option Response) := ret None.

Definition server_post (now : Z) (req : Request) (sv : Server) : Server * option Response :=
  match handleRequest options now rnd positions no_route no_route false req sv with
  | (sv, Ok (Reply r)) => (sv, Some r)
  | (sv, _) => (sv, None)
  end.

Lemma server_post_append now req sv :
  injectedFaults sv = ∅ -> rq_method req = "POST"%string ->
  server_post now req sv =
  match handleAppend now (rq_path req) req sv with
  | (sv, Ok r) => (sv, Some (with_common r))
  | (sv, Err e) => (sv, Some (with_common (error_reply e)))
  end.
Proof.
  intros Hf Hm. unfold server_post, handleRequest. rewrite Hm.
  change (js_upper "POST") with "POST"%string. cbn [String.eqb Ascii.eqb Bool.eqb].
  unfold bind, no_route, ret, call, consumeInjectedFault, try_catch, dispatch_method. rewrite Hf, lookup_empty, Hm.
  change (js_upper "POST") with "POST"%string. cbn. unfold bind, ret.
  by destruct (handleAppend now (rq_path req) req sv) as [sv' [r|e]].
Qed.

(** The bytes a stream of the content type [ct] stores for a body. *)
Definition stored_as (body data : bytes) : Prop :=
  exists s, contentType s = ct /\ stored_bytes s body false = Ok data.

Definition stream_contents (sv : Server) : option (list bytes) :=
  (fun _ => msg_data <$> log (streams (store sv)) p) <$> streams (store sv) !! p.

Definition server_ok (sv : Server) : Prop :=
  store_ok (streams (store sv)) /\ injectedFaults sv = ∅ /\
  forall s, streams (store sv) !! p = Some s ->
    contentType s = ct /\ forall cb, closedBy s = Some cb -> cb_producerId cb <> id.

#[global] Instance server_endpoint : ProducerEndpoint Server := {|
  post := server_post;
  last_of now sv := streams (store sv) !! p ≫= producer_seen now id;
  contents := stream_contents;
  encoded := stored_as;
  endpoint_ok := server_ok;
  ProducerRuns.room now req sv := op_safe now (OAppend p (rq_body req) plain_append) (store sv);
|}.

Lemma parse_append_fails req bad : parse_append req = Err bad -> success bad = false.
Proof.
  unfold parse_append, parse_producer_number. repeat case_match; intros; simplify_eq; done.
Qed.

(** The producer's state after its request was stored. *)
Lemma commit_seen now s a e seq s1 v msgs o :
  ap_producer a = Some (id, e, seq) -> validate_options now s (append_options a) = (s1, v) -> is_accepted v = true ->
  follows (producer_seen now id s) e seq /\
  producer_seen now id (commit_append (append_options a) v (set_messages msgs o s1)) = Some (e, seq).
Proof.
  intros Hpr Hv Hacc. unfold validate_options, append_options in Hv. rewrite Hpr in Hv.
  cbn [fmap option_fmap option_map ao_producerId ao_producerEpoch ao_producerSeq fst snd] in Hv.
  destruct (validateProducer now (producers s) id e seq) as [m w] eqn:Hval. injection Hv as <- <-.
  destruct w as [isNew ps id'| | | | |]; try done.
  pose proof Hval as Hval'. rewrite validateProducer_verdict in Hval'. injection Hval' as _ Hw.
  apply accepted_inv in Hw as (-> & -> & Hf). split.
  - revert Hf. unfold follows, producer_seen. by destruct (cleanupExpiredProducers _ _ !! id).
  - unfold producer_seen. assert (Hp : or_else (producers (commit_append (append_options a)
      (Some (accepted isNew (mkProducerState e seq now) id)) (set_messages msgs o (set_producers m s)))) ∅ =
      commitProducerState m (accepted isNew (mkProducerState e seq now) id)).
    { unfold commit_append. cbn. by destruct (ap_seq a), (ap_close a), (ap_producer a). }
    rewrite Hp, (committed_lookup now now _ id e seq m isNew _ Hval); [done|]. unfold PRODUCER_STATE_TTL_MS. lia.
Qed.

Lemma commit_same o v s : contentType (commit_append o v s) = contentType s /\
  (or_else (ao_close o) false = false -> closedBy (commit_append o v s) = closedBy s).
Proof. unfold commit_append. by destruct v, (ao_seq o), (or_else (ao_close o) false), (ao_producerId o). Qed.

Lemma validate_same now s o s1 v :
  validate_options now s o = (s1, v) -> contentType s1 = contentType s /\ closedBy s1 = closedBy s.
Proof. by intros [->|[m ->]]%validate_options_book. Qed.

(** The server when the data was stored. *)
Lemma stored_law now req sv a e seq st r m sv' :
  server_ok sv -> op_safe now (OAppend p (rq_body req) plain_append) (store sv) ->
  ap_producer a = Some (id, e, seq) -> ap_close a = false ->
  append now p (rq_body req) (append_options a) (store sv) = (st, Ok r) -> returned_message r = Some m ->
  store sv' = touchAccess now p st -> injectedFaults sv' = injectedFaults sv ->
  server_ok sv' /\ exists data c, encoded (rq_body req) data /\ contents sv = Some c /\
    contents sv' = Some (c ++ [data]) /\ follows (last_of now sv) e seq /\ last_of now sv' = Some (e, seq).
Proof.
  intros (Hok & Hf & Hp) Hsafe Hpr Hcl Happ Hm Hst Hf'.
  assert (Hsafe' : op_safe now (OAppend p (rq_body req) (append_options a)) (store sv)) by exact Hsafe.
  assert (Hok1 : store_ok (streams st)).
  { pose proof (exec_ok now _ _ Hok Hsafe') as Hx. cbn [exec] in Hx. by rewrite Happ in Hx. }
  destruct (append_log now p _ _ _ _ r m Hok Hsafe' Happ Hm) as (_ & Hlog & _).
  destruct (append_inv now p _ _ _ _ r m Happ Hm) as (s & s1 & v & b & [Hs _] & _ & _ & Hv & Hacc & Hb & Hmb & Hstreams).
  cbn zeta in Hstreams. destruct (commit_seen now s a e seq s1 v (messages s1 ++ [m]) (msg_offset m) Hpr Hv Hacc) as [Hfol Hlast].
  destruct (validate_same now s _ s1 v Hv) as [Hct1 Hby1].
  destruct (commit_same (append_options a) v (set_messages (messages s1 ++ [m]) (msg_offset m) s1)) as [Hct2 Hby2].
  set (s3 := commit_append _ _ _) in *. clearbody s3. specialize (Hby2 Hcl).
  assert (Hs' : streams (store sv') !! p = Some (set_lastAccessedAt now s3)).
  { rewrite Hst. cbn. by rewrite lookup_alter_eq, Hstreams, lookup_insert_eq. }
  destruct (Hp s Hs) as [Hct Hby]. split.
  - split_and!; [rewrite Hst; by apply store_ok_touch|congruence|]. intros t Ht. rewrite Hs' in Ht. injection Ht as <-.
    cbn. split; [by rewrite Hct2, <-Hct, <-Hct1|]. intros cb. rewrite Hby2. cbn. rewrite Hby1. apply Hby.
  - exists b, (msg_data <$> log (streams (store sv)) p). cbn. unfold stream_contents. rewrite Hs, Hs'. cbn.
    split_and!; try done; [by exists s|]. rewrite Hst, log_touch by done. rewrite Hlog, fmap_app. cbn. by rewrite Hmb.
Qed.

(** The server when nothing was stored. *)
Lemma unstored_law now sv sv' :
  server_ok sv -> unwritten sv sv' -> retained now (store sv) (store sv') -> injectedFaults sv' = injectedFaults sv ->
  server_ok sv' /\ (contents sv' = None \/ (contents sv' = contents sv /\ last_of now sv' = last_of now sv)).
Proof.
  intros (Hok & Hf & Hp) Hu Hk Hf'. split.
  - split_and!; [by apply Hu|congruence|]. intros t (s & Hs & Hct & Hby & _)%Hk. destruct (Hp s Hs) as [? Hcb].
    rewrite Hct, Hby. by split.
  - cbn. unfold stream_contents. destruct (streams (store sv') !! p) as [t|] eqn:Ht; [right|by left].
    destruct (Hk p t Ht) as (s & -> & _ & _ & Hseen). cbn. rewrite (unwritten_log sv sv' p Hok Hu ltac:(by eexists)).
    by rewrite Hseen.
Qed.

#[global] Instance server_endpoint_laws : ProducerEndpointLaws Server p id.
Proof.
  split. intros now req sv sv' r e seq Hok Hroom Hasks Hpost.
  pose proof Hasks as (Hmeth & Hpath & _). pose proof Hok as (Hst & Hf & Hp).
  cbn [post server_endpoint] in Hpost. rewrite server_post_append, Hpath in Hpost by done.
  destruct (handleAppend now p req sv) as [sv1 res] eqn:Hh.
  assert (Hr : sv1 = sv' /\ forall r', r = Some r' -> success r' = true -> exists resp, res = Ok resp /\ success resp = true).
  { destruct res as [resp|err]; injection Hpost as <- <-; (split; [done|]); intros r' [= <-] Hs; [by exists resp|].
    change (success (error_reply err) = true) in Hs. by rewrite error_reply_fails in Hs. }
  destruct Hr as [-> Hsucc]. clear Hpost. destruct (parse_append req) as [a|bad] eqn:Hparse.
  2: { unfold handleAppend in Hh. rewrite Hparse in Hh. injection Hh as <- <-. split; [done|]. right. split; [by right|].
       intros r' Hr' (resp & [= <-] & Hs)%(Hsucc r' Hr'). by rewrite (parse_append_fails req bad) in Hs. }
  destruct (asks_parse p id e seq req a Hasks Hparse) as [Hpr Hcl].
  destruct (handleAppend_cases now p req sv sv' res Hst Hroom Hh)
    as [(a' & st & r0 & m & resp & Hpa & Happ & Hm & -> & ->)|Hu].
  - assert (a' = a) as -> by congruence.
    destruct (stored_law now req sv a e seq st r0 m (mkServer (touchAccess now p st) (injectedFaults sv) (calls sv ++ [onStreamAppend p])))
      as [Hok' Hstored]; try done. split; [done|by left].
  - destruct (handleAppend_unstored now p req a id e seq sv sv' res) as [Hk Hdup]; try done; [|apply Hu|].
    { intros s cb Hs Hcb. by apply (Hp s Hs). }
    destruct (unstored_law now sv sv' Hok Hu Hk ltac:(apply Hu)) as [Hok' Hq]. split; [done|]. right. split; [done|].
    intros r' Hr' Hs _. destruct (Hsucc r' Hr' Hs) as (resp & Hres & Hs').
    destruct (Hdup resp Hres Hs') as (s & l & Hs0 & Hseen & Hle). exists l. cbn. by rewrite Hs0.
Qed.
End endpoint.

(** C3: Exactly once, from the client to the stream.  An idempotent producer without
    [autoClaim], with an epoch of 0 or more that the stream does not know of it, and
    whose own headers do not set Stream-Closed, sends to the server, over a network
    that delays, reorders, loses and repeats requests and responses, while the
    program goes on calling [append], [flush], [detach] and the abort signal.  Other
    clients use the server meanwhile, in any way that keeps the store's invariant: they
    store messages, close the stream, or have it deleted for good, but they do not use
    this producer's name or change the content type; time passes, but not so much
    that the stream forgets the producer; no faults are injected; and the stream does
    not outgrow the safe integers.  Then
    the log of the stream is at any time what it was before and what others have
    stored, interleaved with exactly the first [k] of the producer's batches, each
    once and in the order of the calls of [append]; every batch the client takes to
    have been sent is among them; and when a [flush] has ended without an error
    having been reported, they are everything that was appended.  (With [autoClaim]
    a batch can be lost: [fenced_batch_lost] of ProducerScenarios.) *)
Theorem producer_exactly_once `{!JsonLib} `{!DateLib} `{!ZlibLib} (options : ServerOptions) (rnd : Z)
    (positions : list nat) (cfg : IdempotentProducer.Config) (ct : option string) (e now : Z) (sv : Server)
    (s0 s : Stream) :
  let p := IdempotentProducer.stream_path cfg in
  let id := IdempotentProducer.producerId cfg in
  let _ := server_endpoint options rnd positions p ct id in
  forall w : World Server,
  IdempotentProducer.autoClaim cfg = false -> 0 <= e ->
  IdempotentProducer.producer_headers cfg !! "stream-closed"%string = None ->
  IdempotentProducer.stream_headers cfg !! "stream-closed"%string = None ->
  server_ok p ct id sv -> streams (store sv) !! p = Some s0 ->
  (forall e0 l, producer_seen now id s0 = Some (e0, l) -> e0 <> e) ->
  rtc (ProducerRuns.step cfg) (initial cfg e sv now) w ->
  streams (store (server w)) !! p = Some s ->
  exists k mine,
    Forall2 (fun b d => stored_as ct (IdempotentProducer.batchedBody cfg b) d) (take k (pushed w)) mine /\
    interleaved ((msg_data <$> log (streams (store sv)) p) ++ others w) mine
      (msg_data <$> log (streams (store (server w))) p) /\
    sublist (concat (pushed w) ++ IdempotentProducer.pendingBatch (producer w)) (appended w) /\
    (forall n, n ∈ acked w -> n < Z.of_nat k) /\
    (IdempotentProducer.flushed (producer w) = true -> IdempotentProducer.pendingBatch (producer w) = [] ->
     IdempotentProducer.onError cfg = true -> IdempotentProducer.reported (producer w) = [] ->
     take k (pushed w) = pushed w /\ concat (pushed w) = appended w).
Proof.
  intros p id ? w Hauto He Hh1 Hh2 Hok Hs0 Hnew Hsteps Hs.
  apply (@stored_exactly_once Server (server_endpoint options rnd positions p ct id) cfg
    (server_endpoint_laws options rnd positions p ct id) e (msg_data <$> log (streams (store sv)) p)
    (msg_data <$> log (streams (store (server w))) p) sv now w); try done.
  - cbn. unfold stream_contents. by rewrite Hs0.
  - cbn. rewrite Hs0. exact Hnew.
  - cbn. unfold stream_contents. by rewrite Hs.
Qed.
