(* ===== verification/CloudflareProducer.v ===== *)
(** * A Durable Object as the endpoint of an idempotent producer

    The client of ClientProducer is written for any server of the protocol.
    [StreamObject] keeps the promise [ProducerEndpoint] makes to it, so what is
    proved of the client holds with this server as well. *)

From S2P Require Import Prelude Offsets Producer Text Json Types JsonInstance JsonMode StreamStore StoreLemmas StoreSteps StoreGraph ForkRead StoreTheorems Cursor PathEncoding Sse Http SqliteStore StreamObject ObjectCreate ObjectRead ObjectWrite CloudflareWorld CloudflareInvariant CloudflareMoves CloudflareHandlers CloudflareForks CloudflareEvents CloudflareTheorems CloudflareScenarios ClientProducer ProducerRuns ProducerOnce ProducerServer.
Local Open Scope js_scope.

Implicit Types o : Object.

(** What [getProducerState] sees of the producer [id]. *)
Definition row_seen (now : Z) (id : string) (rows : gmap string ProducerState) : option (Z * Z) :=
  (fun ps => (ps_epoch ps, ps_lastSeq ps)) <$> (Cloudflare.getProducerState rows id now).2.

Lemma row_seen_lookup now id rows :
  row_seen now id rows =
  match rows !! id with
  | Some ps => if ps_lastUpdated ps <? now - PRODUCER_STATE_TTL_MS then None else Some (ps_epoch ps, ps_lastSeq ps)
  | None => None
  end.
Proof.
  unfold row_seen, Cloudflare.getProducerState. cbn [snd]. destruct (rows !! id) as [ps|] eqn:E.
  - destruct (Z.ltb_spec (ps_lastUpdated ps) (now - PRODUCER_STATE_TTL_MS)).
    + rewrite (proj2 (map_lookup_filter_None _ _ _)); [done|]. right. intros ps' E'. cbn. rewrite E in E'.
      injection E' as <-. lia.
    + rewrite (proj2 (map_lookup_filter_Some _ _ _ ps)); [done|]. split; [done|]. cbn. lia.
  - rewrite (proj2 (map_lookup_filter_None _ _ _)); [done|by left].
Qed.

(** Pruning does not show. *)
Lemma row_seen_pruned now id id' rows :
  row_seen now id (Cloudflare.getProducerState rows id' now).1 = row_seen now id rows.
Proof.
  rewrite !row_seen_lookup. unfold Cloudflare.getProducerState. cbn [fst]. destruct (rows !! id) as [ps|] eqn:E.
  - destruct (Z.ltb_spec (ps_lastUpdated ps) (now - PRODUCER_STATE_TTL_MS)) as [Hl|Hl].
    + rewrite (proj2 (map_lookup_filter_None _ _ _)); [done|]. right. intros ps' E'. cbn. rewrite E in E'.
      injection E' as <-. lia.
    + rewrite (proj2 (map_lookup_filter_Some _ _ _ ps)); [|split; [done|cbn; lia]].
      by rewrite (proj2 (Z.ltb_ge _ _)) by lia.
  - rewrite (proj2 (map_lookup_filter_None _ _ _)); [done|by left].
Qed.

Lemma row_seen_committed now id e seq rows :
  row_seen now id (<[id := mkProducerState e seq now]> rows) = Some (e, seq).
Proof.
  rewrite row_seen_lookup, lookup_insert_eq. cbn. rewrite (proj2 (Z.ltb_ge _ _)); [done|].
  unfold PRODUCER_STATE_TTL_MS. lia.
Qed.

(** ** Requests *)

Lemma parse_number_js name n n' :
  0 <= n -> parse_number name (js_String n) = Ok n' -> n' = n.
Proof.
  intros Hn Hp. apply (parse_producer_number_js name); [done|]. revert Hp.
  unfold parse_number, Server.parse_producer_number. destruct (negb _); [done|].
  destruct (js_Number _) as [m|]; [|done]. by destruct (is_safe_integer m).
Qed.

(** What the object understands of a request of the client. *)
Lemma asks_post path id e seq req a :
  asks path id e seq req -> parse_post req = Ok a ->
  po_producer a = Some (mkProducerHeaders id e seq) /\ po_close a = false.
Proof.
  intros (_ & _ & Hid & He & Hs & Hc & He0 & Hs0). unfold parse_post. rewrite Hid, He, Hs, Hc.
  destruct (String.eqb id EmptyString); [done|].
  destruct (parse_number _ (js_String e)) as [e'|] eqn:Hpe; [|done].
  destruct (parse_number _ (js_String seq)) as [s'|] eqn:Hps; [|done].
  intros [= <-]. cbn. apply parse_number_js in Hpe, Hps; [|done..]. by subst.
Qed.

Lemma parse_post_fails req r : parse_post req = Err r -> success r = false.
Proof. unfold parse_post, parse_number. repeat case_match; intros; simplify_eq; done. Qed.

(** A verdict that is no acceptance is answered with a failure, unless the
    request is a duplicate. *)
Lemma verdict_reply st id e seq now v pr o :
  Cloudflare.validateProducer st id e seq now = v -> ph_epoch pr = e ->
  success (producerFailureResponse v pr false o) = true ->
  exists ps, st = Some ps /\ ps_epoch ps = e /\ seq <= ps_lastSeq ps.
Proof.
  intros Hv He Hs. destruct v as [isNew ps id'|l|c| |x y|]; try done.
  revert Hv. unfold Cloudflare.validateProducer. destruct st as [ps|]; [|by destruct (negb _)].
  destruct (Z.ltb_spec e (ps_epoch ps)); [done|]. destruct (Z.ltb_spec (ps_epoch ps) e); [by destruct (negb _)|].
  destruct (Z.leb_spec seq (ps_lastSeq ps)); [|by destruct (_ =? _)].
  intros _. exists ps. split_and!; [done|lia|done].
Qed.

Section endpoint.
Context `{!JsonLib} `{!DateLib}.
Context (do_id : string -> string) (rnd : Z) (origin : string).
(** The stream, its content type, and the producer. *)
Context (p : string) (ct : option string) (id : string).

Definition object_post (now : Z) (req : Request) (o : Object) : Object * option Response :=
  match fetch do_id (mkEnv now rnd EmptyString false) p origin req o with
  | (o, Now (Respond r)) => (o, Some r)
  | (o, _) => (o, None)
  end.

(** What the stream itself holds; a fork's own messages. *)
Definition object_contents (o : Object) : option (list bytes) :=
  (fun _ => msg_data <$> t_messages (ob_tables o)) <$> getMetaRaw o.

Definition posted_as (body data : bytes) : Prop :=
  exists m, sm_contentType m = ct /\ post_payload m body = Ok data.

Definition record_ok (T : Tables) (m : StreamMeta) : Prop :=
  stream_ok (stream_view p T m) /\ sm_contentType m = ct /\
  forall cb, sm_closedBy m = Some cb -> cb_producerId cb <> id.

Definition object_ok (o : Object) : Prop :=
  forall m, getMetaRaw o = Some m -> record_ok (ob_tables o) m.

Definition object_room (o : Object) : Prop :=
  forall m, getMetaRaw o = Some m ->
    position (sm_currentOffset m) + MAX_BODY_BYTES + FRAME_OVERHEAD <= MAX_SAFE_INTEGER.

#[global] Instance object_endpoint : ProducerEndpoint Object := {|
  post := object_post;
  last_of now o := row_seen now id (t_producers (ob_tables o));
  contents := object_contents;
  encoded := posted_as;
  endpoint_ok := object_ok;
  ProducerRuns.room now req o := object_room o;
|}.

(** *** When nothing is stored *)

(** The record may have been marked, and the producers pruned. *)
Definition unposted (now : Z) (o o' : Object) : Prop :=
  object_contents o' = None \/
  t_messages (ob_tables o') = t_messages (ob_tables o) /\
  row_seen now id (t_producers (ob_tables o')) = row_seen now id (t_producers (ob_tables o)) /\
  exists f, getMetaRaw o' = f <$> getMetaRaw o /\
    forall m, kept_fields m (f m) /\ sm_contentType (f m) = sm_contentType m /\ sm_closedBy (f m) = sm_closedBy m.

Lemma unposted_same now o o' :
  t_messages (ob_tables o') = t_messages (ob_tables o) -> t_meta (ob_tables o') = t_meta (ob_tables o) ->
  row_seen now id (t_producers (ob_tables o')) = row_seen now id (t_producers (ob_tables o)) -> unposted now o o'.
Proof.
  intros Hr Hm Hp. right. split_and!; [done..|]. exists (fun m => m). unfold getMetaRaw. rewrite Hm.
  split; [by destruct (t_meta (ob_tables o))|]. intros m. by repeat split.
Qed.

Lemma unposted_law now o o' :
  object_ok o -> unposted now o o' ->
  object_ok o' /\ (object_contents o' = None \/
    object_contents o' = object_contents o /\ last_of now o' = last_of now o).
Proof.
  intros Hok [Hn|(Hr & Hp & f & Hm & Hf)].
  - split; [|by left]. intros m Hm. unfold object_contents in Hn. by rewrite Hm in Hn.
  - split.
    + intros m'. rewrite Hm. destruct (getMetaRaw o) as [m|] eqn:E; [|done]. intros [= <-].
      destruct (Hok m E) as (Hs & Hct & Hcb). destruct (Hf m) as (((_ & _ & Hfo & _) & Hcur & _) & Hct' & Hcb').
      split_and!; [|by rewrite Hct'|by rewrite Hcb'].
      unfold stream_ok, base, stream_view in *. cbn in *. by rewrite Hfo, Hcur, Hr.
    + right. split; [|done]. unfold object_contents. rewrite Hm, Hr. by destruct (getMetaRaw o).
Qed.

Lemma unposted_getMeta now o :
  match getMeta now o with
  | (o', inl m) => unposted now o o' /\ (sm_softDeleted m = false -> o' = o /\ getMetaRaw o = Some m)
  | (o', inr _) => unposted now o o'
  end.
Proof.
  unfold getMeta. destruct (getMetaRaw o) as [m|] eqn:Hm; [|by apply unposted_same].
  destruct (isExpired m now); [|split; [by apply unposted_same|done]].
  destruct (0 <? _).
  - split; [|done]. destruct (sm_softDeleted m); [by apply unposted_same|].
    right. split_and!; [done..|]. exists with_softDeleted. split; [done|]. intros m'. by repeat split.
  - destruct (purgeStream_tables now m o) as [Ht _]. destruct (purgeStream now m o) as [o' todo].
    left. unfold object_contents, getMetaRaw. cbn in Ht. rewrite Ht.
    unfold purged. by destruct (sm_forkedFrom m), (sm_forkEdgeId m).
Qed.

(** *** An append *)

Lemma post_commit_stored now a ps m payload o :
  getMetaRaw o = Some m -> record_ok (ob_tables o) m -> po_close a = false ->
  po_producer a = Some (mkProducerHeaders id (ps_epoch ps) (ps_lastSeq ps)) ->
  room_for (sm_currentOffset m) (Z.of_nat (length payload)) ->
  let o' := (post_commit now false a (Some ps) m payload o).1 in
  object_ok o' /\ object_contents o' = Some ((msg_data <$> t_messages (ob_tables o)) ++ [payload]) /\
  exists rows, t_producers (ob_tables o') = <[id := ps]> rows.
Proof.
  intros Hm (Hs & Hct & Hcb) Hcl Hpr Hroom. unfold post_commit.
  destruct (append_rows _ payload now Hs Hroom) as [Hi Hs']. cbn [messages stream_view currentOffset] in Hi, Hs'.
  unfold appendMessage. rewrite advanceOffset_next_offset, Hi, Hpr, Hcl. cbn [ph_producerId].
  set (off := next_offset _ _) in *. set (r := mkStreamMessage payload off now) in *.
  unfold getMetaRaw in Hm. cbv zeta.
  cbn [mbind option_bind]. match goal with |- context [upd_tables (fun _ => ?t) o] => set (T := t) end.
  assert (HT : t_messages T = t_messages (ob_tables o) ++ [r] /\ t_producers T = <[id := ps]> (t_producers (ob_tables o)) /\
    exists m', t_meta T = Some m' /\ sm_currentOffset m' = off /\ sm_contentType m' = ct /\
      sm_closedBy m' = sm_closedBy m /\ sm_forkOffset m' = sm_forkOffset m).
  { unfold T. destruct (po_seq a); cbn; rewrite Hm; cbn; split_and!; try done; by eexists. }
  clearbody T. destruct HT as (HTr & HTp & m' & HTm & Hcur & Hct' & Hcb' & Hfo).
  cbn [fst]. assert (Hobj : ob_tables (notifyAppend (touch now (upd_tables (fun _ => T) o))) = touchAccess now T).
  { rewrite tables_notifyAppend. unfold touch. by rewrite tables_syncExpiryAlarm. }
  unfold object_ok, object_contents, getMetaRaw. rewrite Hobj. unfold touchAccess, update_meta.
  cbn. rewrite HTm, HTr, HTp. cbn. split_and!; [|by rewrite fmap_app|by eexists].
  intros m2 [= <-]. split_and!; [|done|cbn; by rewrite Hcb'].
  unfold stream_ok, base, stream_view in *. cbn in *. by rewrite Hcur, Hfo, HTr.
Qed.

(** *** The law *)

Lemma post_append_law now a contentType body m e seq o :
  getMetaRaw o = Some m -> record_ok (ob_tables o) m -> sm_closed m = false -> po_close a = false ->
  po_producer a = Some (mkProducerHeaders id e seq) -> Z.of_nat (length body) <= MAX_BODY_BYTES ->
  object_room o ->
  let '(o', t) := post_append now false a contentType body m o in
  (unposted now o o' /\ exists r, t = Now (Respond r) /\
    (success r = true -> exists l, row_seen now id (t_producers (ob_tables o)) = Some (e, l) /\ seq <= l)) \/
  object_ok o' /\ exists data, posted_as body data /\
    object_contents o' = Some ((msg_data <$> t_messages (ob_tables o)) ++ [data]) /\
    follows (row_seen now id (t_producers (ob_tables o))) e seq /\
    row_seen now id (t_producers (ob_tables o')) = Some (e, seq).
Proof.
  intros Hm Hrec Hopen Hcl Hpr Hbody Hroom. unfold post_append.
  destruct (match sm_contentType m with Some _ => _ | None => _ end).
  { left. split; [by apply unposted_same|]. by eexists. }
  rewrite Hpr. unfold validate, getProducerState. cbn [ph_producerId ph_epoch ph_seq].
  pose proof (row_seen_pruned now id id (t_producers (ob_tables o))) as Hpruned.
  destruct (Cloudflare.getProducerState (t_producers (ob_tables o)) id now) as [rows st] eqn:Eg. cbn [fst] in Hpruned.
  assert (Hseen : row_seen now id (t_producers (ob_tables o)) = (fun ps => (ps_epoch ps, ps_lastSeq ps)) <$> st)
    by (unfold row_seen; by rewrite Eg).
  set (o1 := upd_tables (fun _ => set_producer_rows rows (ob_tables o)) o).
  assert (Hun : unposted now o o1) by (by apply unposted_same).
  destruct (Cloudflare.validateProducer st id e seq now) as [isNew ps id'|?|?| |? ?|] eqn:Ev.
  2-6: left; split; [done|]; eexists; (split; [done|]); intros Hs;
    destruct (verdict_reply st id e seq now _ (mkProducerHeaders id e seq) o1 Ev eq_refl Hs) as (ps & Hst & He & Hle);
    exists (ps_lastSeq ps); rewrite Hseen, Hst; cbn; by rewrite He.
  apply accepted_inv in Ev as (-> & -> & Hfol).
  destruct (match po_seq a with Some _ => _ | None => _ end).
  { left. split; [done|]. by eexists. }
  destruct (post_payload m body) as [payload|r] eqn:Epl.
  2: { left. split; [done|]. eexists. split; [done|]. intros Hs. exfalso. revert Epl. unfold post_payload.
       destruct (is_json _); [|done]. destruct (processJsonAppend body false) as [b|msg]; [|by intros [= <-]].
       destruct (_ <? _); [by intros [= <-]|done]. }
  destruct (post_commit_stored now a (mkProducerState e seq now) m payload o1) as (Hok & Hc & rows' & Hrows); try done.
  { pose proof (post_payload_bound _ _ _ Hbody Epl). specialize (Hroom m Hm). unfold room_for. lia. }
  destruct (post_commit now false a (Some (mkProducerState e seq now)) m payload o1) as [o' t]. cbn [fst] in Hok, Hc, Hrows.
  right. split; [done|]. exists payload. split_and!; [|done| |].
  - exists m. split; [apply Hrec|done].
  - rewrite Hseen. revert Hfol. unfold follows. by destruct st.
  - rewrite Hrows. apply row_seen_committed.
Qed.

Lemma object_post_handlePost now req o :
  rq_method req = "POST"%string ->
  object_post now req o =
  match handlePost now false req o with
  | (o, Now (Respond r)) => (o, Some r)
  | (o, _) => (o, None)
  end.
Proof. intros Hm. unfold object_post, fetch. by rewrite Hm. Qed.

#[global] Instance object_endpoint_laws : ProducerEndpointLaws Object p id.
Proof.
  split. intros now req o o' r e seq Hok Hroom Hasks Hpost.
  cbn [post object_endpoint] in Hpost. rewrite object_post_handlePost in Hpost by apply Hasks.
  cbn [ProducerRuns.room object_endpoint] in Hroom. cbn [endpoint_ok object_endpoint] in Hok |- *.
  assert (Hquiet : forall o1 t, unposted now o o1 ->
    (forall resp, t = Now (Respond resp) -> success resp = true -> object_contents o1 <> None ->
       exists l, row_seen now id (t_producers (ob_tables o)) = Some (e, l) /\ seq <= l) ->
    (match t with Now (Respond r) => (o1, Some r) | _ => (o1, None) end) = (o', r) ->
    object_ok o' /\
    ((exists data c, encoded (rq_body req) data /\ contents o = Some c /\ contents o' = Some (c ++ [data]) /\
        follows (last_of now o) e seq /\ last_of now o' = Some (e, seq)) \/
     (contents o' = None \/ contents o' = contents o /\ last_of now o' = last_of now o) /\
     forall r', r = Some r' -> success r' = true -> contents o' <> None ->
       exists l, last_of now o = Some (e, l) /\ seq <= l)).
  { intros o1 t Hun Hs Heq. assert (o1 = o') as ->.
    { by destruct t as [[| | | | | | |]| | | |]; injection Heq. }
    destruct (unposted_law now o o' Hok Hun) as [Hok' Hc]. split; [done|]. right. split; [exact Hc|].
    intros r' -> Hsr Hcn. destruct t as [[resp| | | | | | |]| | | |]; try discriminate Heq.
    injection Heq as ->. by apply (Hs r' eq_refl). }
  assert (Hfail : forall resp, success resp = false -> (o, Some resp) = (o', r) -> _) by
    (intros resp Hs; apply (Hquiet o (Now (Respond resp)));
      [by apply unposted_same|intros ? [= <-]; congruence]).
  unfold handlePost in Hpost. destruct (readBody req) as [body|] eqn:Eb; [|eapply Hfail; [|exact Hpost]; reflexivity].
  pose proof (readBody_bound _ _ Eb) as Hbody.
  assert (Hb : rq_body req = body).
  { revert Eb. unfold readBody. by repeat case_match; intros [= <-]. }
  destruct (parse_post req) as [a|bad] eqn:Epp; [|by apply (Hfail bad (parse_post_fails _ _ Epp))].
  destruct (asks_post p id e seq req a Hasks Epp) as [Hpr Hcl]. rewrite Hcl, andb_false_r in Hpost.
  destruct (_ =? _)%nat; [eapply Hfail; [|exact Hpost]; reflexivity|].
  destruct (po_contentType a) as [ctype|]; [|eapply Hfail; [|exact Hpost]; reflexivity].
  unfold with_meta in Hpost. pose proof (unposted_getMeta now o) as Hget.
  destruct (getMeta now o) as [o1 [m|todo]].
  - destruct Hget as [Hun Hlive]. destruct (sm_softDeleted m) eqn:Hsd.
    { apply (Hquiet o1 (Now gone_response)); [done| |done]. by intros resp [= <-]. }
    destruct (Hlive eq_refl) as [-> Hm]. pose proof (Hok m Hm) as Hrec.
    destruct (sm_closed m) eqn:Hclosed.
    { apply (Hfail (closed_response m (po_producer a))); [|done]. rewrite Hpr. unfold closed_response, same_close.
      destruct Hrec as (_ & _ & Hcb). destruct (sm_closedBy m) as [cb|]; [|done]. cbn.
      by rewrite (proj2 (String.eqb_neq _ _) (Hcb cb eq_refl)). }
    pose proof (post_append_law now a ctype body m e seq o Hm Hrec Hclosed Hcl Hpr Hbody Hroom) as Hlaw.
    destruct (post_append now false a ctype body m o) as [o2 t]. destruct Hlaw as [(Hun2 & resp & -> & Hsucc)|Hst].
    + apply (Hquiet o2 (Now (Respond resp))); [done| |done]. intros resp' [= <-] Hs _. by apply Hsucc.
    + assert (o2 = o') as ->. { by destruct t as [[| | | | | | |]| | | |]; injection Hpost. }
      destruct Hst as (Hok' & data & Henc & Hc & Hf & Hl). split; [done|]. left.
      exists data, (msg_data <$> t_messages (ob_tables o)). cbn. rewrite Hb. split_and!; try done.
      unfold object_contents. by rewrite Hm.
  - apply (Hquiet o1 (flush todo missing_response)); [done| |done].
    intros resp E. destruct todo; [|done]. by injection E as <-.
Qed.
End endpoint.

(** C16: exactly once, against the Cloudflare server: an idempotent producer without
    [autoClaim], with an epoch of 0 or more that the object does not know of it, and
    whose own headers do not set Stream-Closed, sends to a Durable Object, over a
    network that delays, reorders, loses and repeats requests and responses.  Other
    clients use the object meanwhile, in any way that keeps its rows in order: they
    store messages, close the stream, or have it deleted for good, but they do not use
    this producer's name or change the content type; time passes, but not so much that
    the object forgets the producer; its tables are not full; and the stream is not
    about to outgrow the safe integers.
    Then its rows are at any time what they were before and what others have
    stored, interleaved with exactly the first [k] of the producer's batches, each
    once and in the order of the calls of [append]; every batch the client takes to
    have been sent is among them; and when a [flush] has ended without an error
    having been reported, they are everything that was appended. *)
Theorem cloudflare_producer_exactly_once `{!JsonLib} `{!DateLib} (do_id : string -> string) (rnd : Z)
    (origin : string) (cfg : IdempotentProducer.Config) (ct : option string) (e now : Z) (o : Object)
    (m0 m : StreamMeta) :
  let p := IdempotentProducer.stream_path cfg in
  let id := IdempotentProducer.producerId cfg in
  let _ := object_endpoint do_id rnd origin p ct id in
  forall w : ProducerRuns.World Object,
  IdempotentProducer.autoClaim cfg = false -> 0 <= e ->
  IdempotentProducer.producer_headers cfg !! "stream-closed"%string = None ->
  IdempotentProducer.stream_headers cfg !! "stream-closed"%string = None ->
  object_ok p ct id o -> getMetaRaw o = Some m0 ->
  (forall e0 l, row_seen now id (t_producers (ob_tables o)) = Some (e0, l) -> e0 <> e) ->
  rtc (ProducerRuns.step cfg) (initial cfg e o now) w ->
  getMetaRaw (server w) = Some m ->
  exists k mine,
    Forall2 (fun b d => posted_as ct (IdempotentProducer.batchedBody cfg b) d) (take k (pushed w)) mine /\
    interleaved ((msg_data <$> t_messages (ob_tables o)) ++ others w) mine
      (msg_data <$> t_messages (ob_tables (server w))) /\
    sublist (concat (pushed w) ++ IdempotentProducer.pendingBatch (producer w)) (appended w) /\
    (forall n, n ∈ acked w -> n < Z.of_nat k) /\
    (IdempotentProducer.flushed (producer w) = true -> IdempotentProducer.pendingBatch (producer w) = [] ->
     IdempotentProducer.onError cfg = true -> IdempotentProducer.reported (producer w) = [] ->
     take k (pushed w) = pushed w /\ concat (pushed w) = appended w).
Proof.
  intros p id ? w Hauto He Hh1 Hh2 Hok Hm0 Hnew Hsteps Hm.
  apply (@stored_exactly_once Object (object_endpoint do_id rnd origin p ct id) cfg
    (object_endpoint_laws do_id rnd origin p ct id) e (msg_data <$> t_messages (ob_tables o))
    (msg_data <$> t_messages (ob_tables (server w))) o now w); try done.
  - cbn. unfold object_contents. by rewrite Hm0.
  - cbn. unfold object_contents. by rewrite Hm.
Qed.

(** * A run of an idempotent producer against the Cloudflare server *)

Import IdempotentProducer.

#[local] Existing Instance integer_json.
#[local] Existing Instance decimal_date.

Definition cf_config : Config :=
  mkConfig "/b" (Some "text/plain"%string) ∅ "p" false 1048576 5 5 ∅ true.

#[local] Instance endpoint_object : ProducerEndpoint Object :=
  object_endpoint object_id 0 "https://s.example" "/b" (Some "text/plain"%string) "p".

(** The fork of the session, when it has a message of its own. *)
Definition target : Object :=
  Eval vm_compute in object_of "/b" (CloudflareWorld.run object_id kept empty_world).1.

Definition target_record : StreamMeta :=
  Eval vm_compute in or_else (getMetaRaw target) fork_record.

Definition cf_begin : ProducerRuns.World Object := initial cf_config 0 target 20.

Definition cf_play (evs : list ProducerRuns.Event) (w : ProducerRuns.World Object) : ProducerRuns.World Object :=
  foldl (fun w ev => ProducerRuns.exec cf_config ev w) w evs.

Definition cf_produce (i : nat) (b : string) : list ProducerRuns.Event := [EAppend (text b); EFlush; EStart; EFetch i].

(** Two batches; the second request arrives first, the first one twice. *)
Definition cf_events : list ProducerRuns.Event :=
  cf_produce 0 "one" ++ cf_produce 1 "two" ++
  [EDeliver 1 true; EDeliver 0 false; ERespond 0; EDeliver 0 true; ERespond 0; EResume 1; EFetch 1;
   EDeliver 0 true; ERespond 0].

Definition cf_end : ProducerRuns.World Object := cf_play cf_events cf_begin.

Example cf_result :
  flushed (producer cf_end) = true /\ reported (producer cf_end) = [] /\ acked cf_end = [0; 1] /\
  object_contents (server cf_end) = Some [text "own"; text "one"; text "two"].
Proof. vm_compute. done. Qed.

(** Deliveries that have room. *)
Definition room_left (o : Object) : bool :=
  match getMetaRaw o with
  | Some m => position (sm_currentOffset m) + MAX_BODY_BYTES + FRAME_OVERHEAD <=? MAX_SAFE_INTEGER
  | None => true
  end.

Fixpoint cf_playable (evs : list ProducerRuns.Event) (w : ProducerRuns.World Object) : bool :=
  match evs with
  | [] => true
  | ev :: evs => room_left (server w) && cf_playable evs (ProducerRuns.exec cf_config ev w)
  end.

Lemma cf_play_steps evs w : cf_playable evs w = true -> rtc (ProducerRuns.step cf_config) w (cf_play evs w).
Proof.
  revert w. induction evs as [|ev evs IH]; intros w; [reflexivity|]. cbn [cf_playable cf_play foldl].
  intros [He Hrest]%andb_true_iff. eapply rtc_l; [|by apply IH]. constructor.
  destruct ev; try done. intros k req Hreq m Hm. unfold room_left in He. rewrite Hm in He. by apply Z.leb_le.
Qed.

Lemma target_ok : object_ok "/b" (Some "text/plain"%string) "p" target.
Proof.
  intros m Hm. pose proof (run_good object_id ∅ kept empty_world world_ok_empty kept_safe) as Hw.
  assert (Ht : target = object_of "/b" (CloudflareWorld.run object_id kept empty_world).1) by (vm_compute; reflexivity).
  split; [|revert Hm; vm_compute; intros [= <-]; split; [reflexivity|discriminate]].
  pose proof (at_object (CloudflareWorld.run object_id kept empty_world).1 "/b") as Hat. rewrite <-Ht in Hat.
  rewrite Hat. unfold getMetaRaw in Hm. rewrite Hat in Hm.
  apply (stream_of _ _ "/b" (wo_tables _ _ Hw) m Hm).
Qed.

Lemma cloudflare_producer_exactly_once_witness :
  concat (pushed cf_end) = appended cf_end /\
  object_contents (server cf_end) = Some [text "own"; text "one"; text "two"].
Proof.
  split; [|vm_compute; reflexivity].
  destruct (cloudflare_producer_exactly_once object_id 0 "https://s.example" cf_config (Some "text/plain"%string) 0 20
    target target_record (or_else (getMetaRaw (server cf_end)) target_record) cf_end)
    as (k & mine & _ & _ & _ & _ & Hall).
  - reflexivity.
  - discriminate.
  - reflexivity.
  - reflexivity.
  - exact target_ok.
  - reflexivity.
  - intros e0 l. vm_compute. discriminate.
  - apply cf_play_steps. vm_compute. reflexivity.
  - vm_compute. reflexivity.
  - apply Hall; vm_compute; reflexivity.
Defined.
