(* ===== verification/ProducerScenarios.v ===== *)
(** * Runs of an idempotent producer against the server

    A run with reordered and repeated requests, to which the theorem is applied,
    and runs in which the client does not do what it means to. *)

From S2P Require Import Prelude Offsets Producer Text Json Types JsonInstance JsonMode StreamStore StoreLemmas StoreSteps StoreGraph ForkRead StoreTheorems Cursor Sse Http Server ServerReads ServerWrites Scenarios ClientProducer ProducerRuns ProducerOnce ProducerServer.
Local Open Scope js_scope.

Import IdempotentProducer.

#[local] Existing Instance integer_json.
#[local] Existing Instance decimal_date.
#[local] Existing Instance no_compression.

(** A producer of the stream ["/b"]. *)
Definition config (auto : bool) (inFlight : Z) : Config :=
  mkConfig "/b" (Some "text/plain"%string) ∅ "p" auto 1048576 inFlight 5 ∅ true.

#[local] Instance endpoint_b : ProducerEndpoint Server :=
  server_endpoint options 0 [] "/b" (Some "text/plain"%string) "p".

Definition play (cfg : Config) (evs : list Event) (w : World Server) : World Server :=
  foldl (fun w ev => ProducerRuns.exec cfg ev w) w evs.

(** A batch of one message is appended, and a worker starts with it. *)
Definition produce1 (i : nat) (b : string) : list Event := [EAppend (text b); EFlush; EStart; EFetch i].

Definition begin : World Server := initial (config false 5) 0 (server_of final) 8.

(** Two batches; the second request arrives first, the first one twice. *)
Definition reordered : list Event :=
  produce1 0 "one" ++ produce1 1 "two" ++
  [EDeliver 1 true; EDeliver 0 false; ERespond 0; EDeliver 0 true; ERespond 0; EResume 1; EFetch 1;
   EDeliver 0 true; ERespond 0].

Definition reordered_end : World Server := play (config false 5) reordered begin.

Example reordered_result :
  flushed (producer reordered_end) = true /\ reported (producer reordered_end) = [] /\
  acked reordered_end = [0; 1] /\
  (msg_data <$> log (streams (store (server reordered_end))) "/b") = [text "hello"; text "there"; text "one"; text "two"].
Proof. vm_compute. done. Qed.

(** *** The theorem, applied *)

(** The requests that are delivered have room. *)
Fixpoint playable (cfg : Config) (evs : list Event) (w : World Server) : bool :=
  match evs with
  | [] => true
  | ev :: evs =>
      match ev with
      | EDeliver j _ =>
          match requests w !! j with
          | Some (_, req) => op_safeb (clock w) (OAppend "/b" (rq_body req) plain_append) (store (server w))
          | None => true
          end
      | _ => true
      end && playable cfg evs (ProducerRuns.exec cfg ev w)
  end.

Lemma play_steps cfg evs w : playable cfg evs w = true -> rtc (ProducerRuns.step cfg) w (play cfg evs w).
Proof.
  revert w. induction evs as [|ev evs IH]; intros w; [reflexivity|]. cbn [playable play foldl].
  intros [He Hrest]%andb_true_iff. eapply rtc_l; [|by apply IH]. constructor.
  destruct ev; try done. intros k req Hreq. rewrite Hreq in He. exact (op_safeb_sound _ _ _ He).
Qed.

(** While the first request is under way another client appends to the stream. *)
Definition first_half : World Server := play (config false 5) (produce1 0 "one" ++ [EDeliver 0 false]) begin.
Definition interrupted : Server :=
  set_store (StoreSteps.exec 9 (OAppend "/b" (text "other") plain_append) (store (server first_half))) (server first_half).
Definition second_half : World Server :=
  mkWorld (producer first_half) (requests first_half) (responses first_half) interrupted 9 (pushed first_half)
    (acked first_half) (appended first_half) (others first_half ++ [text "other"]).
Definition last_event : list Event := [EDeliver 0 true; ERespond 0] ++ produce1 1 "two" ++ [EDeliver 0 true; ERespond 0].
Definition mixed : World Server := play (config false 5) last_event second_half.

Lemma found_at st q s : streams st !! q = Some s -> s = found st q.
Proof. unfold found. by intros ->. Qed.

Lemma final_server_ok : server_ok "/b" (Some "text/plain"%string) "p" (server_of final).
Proof.
  split_and!; [apply final_ok|done|]. intros s Hs%found_at. subst s. vm_compute. split; [reflexivity|discriminate].
Qed.

Lemma first_half_steps : rtc (ProducerRuns.step (config false 5)) begin first_half.
Proof. apply play_steps. vm_compute. reflexivity. Qed.

Lemma first_half_ok : server_ok "/b" (Some "text/plain"%string) "p" (server first_half).
Proof.
  pose proof (server_endpoint_laws options 0 [] "/b" (Some "text/plain"%string) "p") as Hlaws.
  enough (inv (config false 5) 0 [text "hello"; text "there"] first_half) as Hi by exact (inv_ok _ _ _ _ Hi).
  refine (@inv_steps Server _ (config false 5) Hlaws 0 _ eq_refl _ (conj eq_refl eq_refl) _ _ first_half_steps _); [done|].
  apply inv_initial; [exact Hlaws|reflexivity|reflexivity|split; reflexivity|exact final_server_ok|vm_compute; reflexivity|].
  intros e0 l. vm_compute. discriminate.
Qed.

(** An operation of another client on the store of the server. *)
Lemma other_op now x sv c new :
  server_ok "/b" (Some "text/plain"%string) "p" sv -> op_safe now x (store sv) ->
  let sv' := set_store (StoreSteps.exec now x (store sv)) sv in
  contents sv = Some c -> contents sv' = Some (c ++ new) -> last_of now sv' = last_of 8 sv ->
  Types.contentType (found (store sv') "/b") = Some "text/plain"%string -> closedBy (found (store sv') "/b") = None ->
  others_store sv 8 sv' now new.
Proof.
  intros (Hok & Hf & _) Hsafe sv' Hc Hc' Hl Hct Hcb. split; [|rewrite Hc; by right].
  split_and!; [by apply exec_ok|done|]. intros s Hs%found_at. subst s. rewrite Hcb. by split.
Qed.

Lemma interrupted_steps : rtc (ProducerRuns.step (config false 5)) first_half second_half.
Proof.
  apply rtc_once, step_others. apply (other_op 9 _ _ [text "hello"; text "there"; text "one"]).
  - exact first_half_ok.
  - apply op_safeb_sound. vm_compute. reflexivity.
  - vm_compute. reflexivity.
  - vm_compute. reflexivity.
  - vm_compute. reflexivity.
  - vm_compute. reflexivity.
  - vm_compute. reflexivity.
Qed.

Lemma producer_exactly_once_witness :
  (msg_data <$> log (streams (store (server mixed))) "/b") =
    [text "hello"; text "there"; text "one"; text "other"; text "two"] /\
  flushed (producer mixed) = true /\ concat (pushed mixed) = appended mixed.
Proof.
  split; [vm_compute; reflexivity|]. split; [vm_compute; reflexivity|].
  destruct (producer_exactly_once options 0 [] (config false 5) (Some "text/plain"%string) 0 8 (server_of final)
    (found final "/b") (found (store (server mixed)) "/b") mixed) as (k & mine & _ & _ & _ & _ & Hall).
  - reflexivity.
  - discriminate.
  - reflexivity.
  - reflexivity.
  - exact final_server_ok.
  - vm_compute. reflexivity.
  - intros e0 l. vm_compute. discriminate.
  - transitivity first_half; [exact first_half_steps|]. transitivity second_half; [exact interrupted_steps|].
    apply play_steps. vm_compute. reflexivity.
  - vm_compute. reflexivity.
  - apply Hall; vm_compute; reflexivity.
Defined.

(** * What the idempotent producer does not do right

    Runs against the server, each a state the client should not come to. *)

Import IdempotentProducer.

#[local] Existing Instance endpoint_b.

Definition on_server (f : Server -> Server) (w : World Server) : World Server :=
  mkWorld (producer w) (requests w) (responses w) (f (server w)) (clock w) (pushed w) (acked w) (appended w) (others w).

Definition data (w : World Server) : list bytes := msg_data <$> log (streams (store (server w))) "/b".

(** The first batch is sent, with the epoch of the config. *)
Definition first_sent (cfg : Config) (e : Z) : World Server :=
  play cfg (produce1 0 "one" ++ [EDeliver 0 true; ERespond 0]) (initial cfg e (server_of final) 8).

(** *** Automatic claims *)

(** Another instance of the producer claims epoch 1. *)
Definition rival (sv : Server) : Server :=
  (server_post options 0 [] 8 (batch_request (config false 5) [text "rival"] 0 (Some 1)) sv).1.

(** Two batches are under way when they are fenced: both claim epoch 2 with
    sequence number 0, and the server takes the second one for a repetition of
    the first. *)
Definition two_claims : World Server :=
  play (config true 5)
    (produce1 1 "two" ++ produce1 2 "three" ++
     [EDeliver 0 true; EDeliver 0 true; ERespond 0; ERespond 0; EFetch 1; EFetch 2;
      EDeliver 0 true; EDeliver 0 true; ERespond 0; ERespond 0])
    (on_server rival (first_sent (config true 5) 0)).

Example fenced_batch_lost :
  flushed (producer two_claims) = true /\ reported (producer two_claims) = [] /\ acked two_claims = [0; 1; 2] /\
  data two_claims = [text "hello"; text "there"; text "one"; text "rival"; text "two"].
Proof. vm_compute. split_and!; reflexivity. Qed.

(** *** A closed stream *)

(** Another client closes the stream; the batch is answered 409 without an
    expected number, which the client takes for a gap. *)
Definition refused : World Server :=
  play (config false 5) (produce1 1 "two" ++ [EDeliver 0 true; ERespond 0])
    (on_server (fun sv => set_store (StoreSteps.exec 8 (OCloseStream "/b") (store sv)) sv) (first_sent (config false 5) 0)).

(** One round: what it waits for has long been sent, and it sends again. *)
Definition round : list Event := [EResume 1; EFetch 1; EDeliver 0 true; ERespond 0].

Lemma iter_fixed {A} (f : A -> A) x n : f x = x -> Nat.iter n f x = x.
Proof. intros Hf. induction n as [|n IH]; [done|]. exact (eq_trans (f_equal f IH) Hf). Qed.

Example closed_stream_retried : forall n,
  Nat.iter n (play (config false 5) round) refused = refused /\
  flushed (producer refused) = false /\ reported (producer refused) = [].
Proof.
  intros n. split; [|split; vm_compute; reflexivity]. apply iter_fixed. vm_compute. reflexivity.
Qed.

(** *** The clean-up of finished sequence numbers *)

(** Batch 0 is slow, batch 1 waits for it, and the batches from 2 to 10 fail;
    the clean-up after number 10 drops the entry with the waiter of batch 1. *)
Definition failing (i : nat) : list Event := produce1 i "lost" ++ [ELose 1; ERespond 0; ECatch i].

Definition stranded : World Server :=
  play (config false 3)
    (produce1 0 "one" ++ produce1 1 "two" ++ [EDeliver 1 true; ERespond 0] ++
     concat (failing <$> seq 2 9) ++ [EDeliver 0 true; ERespond 0])
    (initial (config false 3) 0 (server_of final) 8).

Example waiter_stranded :
  requests stranded = [] /\ responses stranded = [] /\ acked stranded = [0] /\
  (phase <$> running (producer stranded)) = {[1%nat := Waiting [0]]} /\
  forall i, producer (ProducerRuns.exec (config false 3) (EResume i) stranded) = producer stranded.
Proof.
  split_and!; [vm_compute; reflexivity..|]. intros i. cbn [ProducerRuns.exec producer started_task]. unfold resume.
  assert (Hr : running (producer stranded) = {[1%nat := mkWorker (mkBatchTask [text "two"] 1) (Some 0) 1 (Some 0) (Waiting [0])]})
    by (vm_compute; reflexivity).
  rewrite Hr. destruct (decide (i = 1%nat)) as [->|Hne]; [by rewrite lookup_singleton_eq|by rewrite lookup_singleton_ne by done].
Qed.

(** *** A new epoch *)

(** The producer starts again with epoch 1; its second request overtakes the
    first one, and the answer is 400 instead of a gap. *)
Definition overtaken : World Server :=
  play (config false 5)
    (produce1 0 "two" ++ produce1 1 "three" ++
     [EDeliver 1 true; ERespond 0; ECatch 1; EDeliver 0 true; ERespond 0])
    (initial (config false 5) 1 (server (first_sent (config false 5) 0)) 8).

Example new_epoch_overtaken :
  acked overtaken = [0] /\ length (reported (producer overtaken)) = 1%nat /\
  data overtaken = [text "hello"; text "there"; text "one"; text "two"].
Proof. vm_compute. split_and!; reflexivity. Qed.

(** *** Closing after detaching *)

(** The final message of [close] is dropped when [detach] came first: the stream
    is closed without it. *)
Example final_message_dropped cfg p m :
  IdempotentProducer.closed p = false -> pendingFinalMessage p = None -> closeResult p = None -> pendingBatch p = [] ->
  (close cfg (Some m) (detach cfg p)).2 = None /\
  rq_body (close_request cfg (close cfg (Some m) (detach cfg p)).1) = [].
Proof.
  intros Hc Hf Hr Hp. unfold detach. rewrite Hc. unfold flush. cbn. rewrite Hp. cbn.
  unfold close. cbn. rewrite Hr. cbn. unfold flush. cbn. rewrite Hp. unfold close_request. cbn. by rewrite Hf.
Qed.
