(* ===== verification/ResponseState.v ===== *)
(** * The state of a read session: [packages/client/src/stream-response-state.ts]

    Every method returns a new state.  A [PausedState] wraps one of the two
    other states and delegates to it. *)

From S2P Require Import Prelude.

Record SyncFields := mkSyncFields {
  offset : string;
  cursor : option string;
  upToDate : bool;
  streamClosed : bool;
}.

(** What the headers of a response say; an absent value keeps the current one. *)
Record ResponseMetadataUpdate := mkUpdate {
  up_offset : option string;
  up_cursor : option string;
  up_upToDate : bool;
  up_streamClosed : bool;
}.

Record SSEControlEvent := mkControl {
  streamNextOffset : string;
  streamCursor : option string;
  ctl_upToDate : option bool;
  ctl_streamClosed : option bool;
}.

Inductive Inner :=
| LongPollState (f : SyncFields)
| SSEState (f : SyncFields) (consecutiveShortConnections : Z) (connectionStartTime : option Z).

Inductive StreamResponseState :=
| Active (i : Inner)
| PausedState (i : Inner).

Inductive LiveMode := live_false | live_true | live_long_poll | live_sse.

(** [Required<SSEResilienceOptions>], without the logging. *)
Record SSEResilience := mkResilience {
  minConnectionDuration : Z;
  maxShortConnections : Z;
  backoffBaseDelay : Z;
  backoffMaxDelay : Z;
}.

(** ** The methods *)

Definition inner (s : StreamResponseState) : Inner := match s with Active i | PausedState i => i end.

Definition fields (i : Inner) : SyncFields := match i with LongPollState f | SSEState f _ _ => f end.

Definition sync (s : StreamResponseState) : SyncFields := fields (inner s).

Definition shouldUseSse (s : StreamResponseState) : bool :=
  match inner s with LongPollState _ => false | SSEState _ _ _ => true end.

Definition map_fields (g : SyncFields -> SyncFields) (s : StreamResponseState) : StreamResponseState :=
  let i := match inner s with LongPollState f => LongPollState (g f) | SSEState f n t => SSEState (g f) n t end in
  match s with Active _ => Active i | PausedState _ => PausedState i end.

Definition withResponseMetadata (u : ResponseMetadataUpdate) : StreamResponseState -> StreamResponseState :=
  map_fields (fun f => mkSyncFields (or_else (up_offset u) (offset f))
    (match up_cursor u with Some c => Some c | None => cursor f end)
    (up_upToDate u) (streamClosed f || up_streamClosed u)).

Definition withSSEControl (ev : SSEControlEvent) : StreamResponseState -> StreamResponseState :=
  map_fields (fun f => mkSyncFields (streamNextOffset ev)
    (if truthy (streamCursor ev) then streamCursor ev else cursor f)
    (if or_else (ctl_streamClosed ev) false then true else or_else (ctl_upToDate ev) (upToDate f))
    (streamClosed f || or_else (ctl_streamClosed ev) false)).

Definition shouldContinueLive (stopAfterUpToDate : bool) (live : LiveMode) (s : StreamResponseState) : bool :=
  if stopAfterUpToDate && upToDate (sync s) then false
  else match live with
       | live_false => false
       | _ => negb (streamClosed (sync s))
       end.

Definition pause (s : StreamResponseState) : StreamResponseState := PausedState (inner s).

(** [resume] of [PausedState], and the test for it in [#resume]. *)
Definition resume (s : StreamResponseState) : StreamResponseState := Active (inner s).

(** [startConnection], of an [SSEState]. *)
Definition startConnection (now : Z) (f : SyncFields) (n : Z) : Inner := SSEState f n (Some now).

Inductive ConnectionEnd :=
| reconnect (i : Inner) (backoffAttempt : Z)
| fallback (i : Inner)
| healthy (i : Inner).

(** [handleConnectionEnd], of an [SSEState]. *)
Definition handleConnectionEnd (now : Z) (wasAborted : bool) (config : SSEResilience)
    (f : SyncFields) (n : Z) (start : option Z) : ConnectionEnd :=
  match start with
  | None => healthy (SSEState f n start)
  | Some t =>
      let duration := now - t in
      if (duration <? minConnectionDuration config) && negb wasAborted then
        let newCount := n + 1 in
        if maxShortConnections config <=? newCount then fallback (LongPollState f)
        else reconnect (SSEState f newCount start) newCount
      else if minConnectionDuration config <=? duration then healthy (SSEState f 0 start)
      else healthy (SSEState f n start)
  end.

(** ** Laws *)

Lemma sync_map_fields g s : sync (map_fields g s) = g (sync s).
Proof. by destruct s as [[]|[]]. Qed.

(** Pausing and resuming change nothing that is read from a state, and resuming
    gives back what was paused. *)
Lemma resume_pause s : resume (pause s) = Active (inner s).
Proof. by destruct s. Qed.

Lemma sync_pause s : sync (pause s) = sync s.
Proof. done. Qed.

Lemma sync_resume s : sync (resume s) = sync s.
Proof. done. Qed.

(** A transition commutes with pausing. *)
Lemma map_fields_pause g s : map_fields g (pause s) = pause (map_fields g s).
Proof. by destruct s as [[]|[]]. Qed.

(** Once closed, always closed; and a closed stream is not read on. *)
Lemma closed_stays_closed u ev s :
  streamClosed (sync s) = true ->
  streamClosed (sync (withResponseMetadata u s)) = true /\ streamClosed (sync (withSSEControl ev s)) = true.
Proof. intros Hc. unfold withResponseMetadata, withSSEControl. rewrite !sync_map_fields. cbn. by rewrite Hc. Qed.

Lemma closed_not_continued stop live s :
  streamClosed (sync s) = true -> shouldContinueLive stop live s = false.
Proof. intros Hc. unfold shouldContinueLive. rewrite Hc. by destruct (stop && _), live. Qed.

(** The end of a connection keeps the position in the stream. *)
Definition end_state (r : ConnectionEnd) : Inner := match r with reconnect i _ | fallback i | healthy i => i end.

Lemma connection_end_fields now aborted config f n start :
  fields (end_state (handleConnectionEnd now aborted config f n start)) = f.
Proof. unfold handleConnectionEnd. by repeat case_match. Qed.

(** [n] short connections in a row, none aborted, lead to long-polling exactly
    when [n] reaches the limit; the delay grows with the attempt. *)
Lemma short_connections now config f n t :
  now - t < minConnectionDuration config ->
  handleConnectionEnd now false config f n (Some t) =
    (if maxShortConnections config <=? n + 1 then fallback (LongPollState f) else reconnect (SSEState f (n + 1) (Some t)) (n + 1)).
Proof. intros Hd. unfold handleConnectionEnd. by rewrite (proj2 (Z.ltb_lt _ _) Hd). Qed.
