(* ===== verification/ReadableStream.v ===== *)
(** * A [ReadableStream] as the client uses it

    The default controller of the WHATWG Streams standard with the default
    strategy (one chunk is wanted in the queue), one reader, and a source that
    has only [pull] and [cancel].  The source's [pull] is not called in here:
    the operations say when it is to be called, and the caller does so.  What
    the standard does in the reaction to a promise is an operation of its own:
    [controller_started], [pull_fulfilled], [pull_rejected]. *)

From S2P Require Import Prelude.

Section stream.
Context {Chunk : Type}.

(** How a [read()] ended. *)
Inductive ReadResult :=
| Value (c : Chunk)
| Done
| Failed (e : string).

Inductive StreamStatus := readable_ | closed_ | errored (e : string).

Record Controller := mkController {
  queue : list Chunk;
  pendingReads : nat;          (* calls of [read()] that wait *)
  reads : list ReadResult;     (* those that are settled, in order *)
  status : StreamStatus;
  closeRequested : bool;
  pulling : bool;
  pullAgain : bool;
  started : bool;
}.

Definition new_controller : Controller := mkController [] 0 [] readable_ false false false false.

Definition is_readable (c : Controller) : bool := match status c with readable_ => true | _ => false end.

(** ReadableStreamDefaultControllerCanCloseOrEnqueue *)
Definition can_enqueue (c : Controller) : bool := is_readable c && negb (closeRequested c).

(** ReadableStreamDefaultControllerShouldCallPull *)
Definition should_pull (c : Controller) : bool :=
  can_enqueue c && started c && ((0 <? pendingReads c)%nat || (length (queue c) <? 1)%nat).

Definition set_pulling (b again : bool) (c : Controller) : Controller :=
  mkController (queue c) (pendingReads c) (reads c) (status c) (closeRequested c) b again (started c).

(** ReadableStreamDefaultControllerCallPullIfNeeded; the answer says whether
    [pull] is called. *)
Definition call_pull_if_needed (c : Controller) : Controller * bool :=
  if should_pull c then
    if pulling c then (set_pulling true true c, false) else (set_pulling true (pullAgain c) c, true)
  else (c, false).

(** ReadableStreamClose, and ReadableStreamError: every read that waits is
    settled. *)
Definition settle_reads (r : ReadResult) (st : StreamStatus) (q : list Chunk) (c : Controller) : Controller :=
  mkController q 0 (reads c ++ repeat r (pendingReads c)) st (closeRequested c) (pulling c) (pullAgain c) (started c).

(** [controller.enqueue(chunk)], of a controller for which [can_enqueue] holds. *)
Definition enqueue (x : Chunk) (c : Controller) : Controller * bool :=
  call_pull_if_needed
    (match pendingReads c with
     | S n => mkController (queue c) n (reads c ++ [Value x]) (status c) (closeRequested c)
                (pulling c) (pullAgain c) (started c)
     | O => mkController (queue c ++ [x]) 0 (reads c) (status c) (closeRequested c)
              (pulling c) (pullAgain c) (started c)
     end).

Definition set_closeRequested (c : Controller) : Controller :=
  mkController (queue c) (pendingReads c) (reads c) (status c) true (pulling c) (pullAgain c) (started c).

(** [controller.close()], of a controller for which [can_enqueue] holds. *)
Definition close_ (c : Controller) : Controller :=
  let c := set_closeRequested c in
  match queue c with
  | [] => settle_reads Done closed_ [] c
  | _ => c
  end.

(** [controller.error(e)] *)
Definition error_ (e : string) (c : Controller) : Controller :=
  if is_readable c then settle_reads (Failed e) (errored e) [] c else c.

Definition add_read (r : ReadResult) (q : list Chunk) (c : Controller) : Controller :=
  mkController q (pendingReads c) (reads c ++ [r]) (status c) (closeRequested c) (pulling c) (pullAgain c) (started c).

(** [reader.read()] *)
Definition read_ (c : Controller) : Controller * bool :=
  match status c with
  | closed_ => (add_read Done (queue c) c, false)
  | errored e => (add_read (Failed e) (queue c) c, false)
  | readable_ =>
      match queue c with
      | x :: q =>
          let c := add_read (Value x) q c in
          if closeRequested c && bool_decide (q = []) then (settle_reads Done closed_ [] c, false)
          else call_pull_if_needed c
      | [] =>
          call_pull_if_needed
            (mkController [] (S (pendingReads c)) (reads c) readable_ (closeRequested c)
               (pulling c) (pullAgain c) (started c))
      end
  end.

(** [reader.cancel()]; the answer says whether the source's [cancel] is called. *)
Definition cancel_ (c : Controller) : Controller * bool :=
  if is_readable c then (settle_reads Done closed_ [] c, true) else (c, false).

(** ** Reactions *)

Definition controller_started (c : Controller) : Controller * bool :=
  call_pull_if_needed
    (mkController (queue c) (pendingReads c) (reads c) (status c) (closeRequested c) (pulling c) (pullAgain c) true).

Definition pull_fulfilled (c : Controller) : Controller * bool :=
  let again := pullAgain c in
  let c := set_pulling false false c in
  if again then call_pull_if_needed c else (c, false).

Definition pull_rejected (e : string) (c : Controller) : Controller := error_ e c.

(** ** What the consumer has been given *)

Fixpoint values (l : list ReadResult) : list Chunk :=
  match l with
  | [] => []
  | Value x :: l => x :: values l
  | _ :: l => values l
  end.

Lemma values_app l k : values (l ++ k) = values l ++ values k.
Proof. induction l as [|[] l IH]; cbn; by rewrite ?IH. Qed.

Lemma values_repeat r n : (forall x, r <> Value x) -> values (repeat r n) = [].
Proof. intros Hr. induction n as [|n IH]; [done|]. cbn. destruct r; [by destruct (Hr c)|done..]. Qed.

Lemma call_pull_same c :
  let c' := (call_pull_if_needed c).1 in
  queue c' = queue c /\ pendingReads c' = pendingReads c /\ reads c' = reads c /\ status c' = status c /\
  closeRequested c' = closeRequested c /\ started c' = started c.
Proof. unfold call_pull_if_needed. by repeat case_match. Qed.

Lemma call_pull_pulling c : pulling c = true -> pulling (call_pull_if_needed c).1 = true.
Proof. intros H. unfold call_pull_if_needed. rewrite H. by case_match. Qed.

(** [pull] is only called when it is not running, and then it may enqueue. *)
Lemma call_pull_called c :
  let c' := (call_pull_if_needed c).1 in
  if (call_pull_if_needed c).2 then pulling c = false /\ pulling c' = true /\ can_enqueue c = true
  else pulling c' = pulling c.
Proof.
  unfold call_pull_if_needed, should_pull. destruct (can_enqueue c) eqn:?, (started c), (_ || _); cbn; try done;
    by destruct (pulling c) eqn:?; cbn.
Qed.

Lemma enqueue_same x c :
  let c' := (enqueue x c).1 in
  status c' = status c /\ closeRequested c' = closeRequested c /\ started c' = started c /\
  (pulling c = true -> pulling c' = true).
Proof.
  unfold enqueue. match goal with |- context [call_pull_if_needed ?a] => set (d := a) end.
  destruct (call_pull_same d) as (_ & _ & _ & -> & -> & ->).
  assert (status d = status c /\ closeRequested d = closeRequested c /\ started d = started c /\
          pulling d = pulling c) as (-> & -> & -> & Hp) by (by subst d; destruct (pendingReads c)).
  split_and!; try done. intros H. apply call_pull_pulling. by rewrite Hp.
Qed.

Definition consumed (c : Controller) : list Chunk := values (reads c).

(** Every chunk that was enqueued, as long as none is thrown away. *)
Definition flow (c : Controller) : list Chunk := consumed c ++ queue c.

(** Reads only wait while the queue is empty. *)
Definition orderly (c : Controller) : Prop :=
  (queue c = [] \/ pendingReads c = 0%nat) /\
  (is_readable c = false -> queue c = [] /\ pendingReads c = 0%nat) /\
  (closeRequested c = true -> is_readable c = true -> queue c <> []).

Lemma orderly_call_pull c : orderly c -> orderly (call_pull_if_needed c).1.
Proof.
  unfold orderly, is_readable. destruct (call_pull_same c) as (-> & -> & _ & -> & -> & _). done.
Qed.

Lemma flow_call_pull c : flow (call_pull_if_needed c).1 = flow c.
Proof. unfold flow, consumed. by destruct (call_pull_same c) as (-> & _ & -> & _). Qed.

Lemma flow_enqueue x c : orderly c -> flow (enqueue x c).1 = flow c ++ [x].
Proof.
  intros [Hq _]. unfold enqueue. rewrite flow_call_pull. unfold flow, consumed.
  destruct (pendingReads c); cbn; [by rewrite app_assoc|].
  destruct Hq as [->|]; [|done]. by rewrite values_app, !app_nil_r.
Qed.

Lemma orderly_enqueue x c : can_enqueue c = true -> orderly c -> orderly (enqueue x c).1.
Proof.
  intros [Hr Hc]%andb_true_iff (Hq & _ & _). unfold enqueue. apply orderly_call_pull.
  unfold orderly, is_readable in *. destruct (status c) eqn:Hs; [|done..].
  destruct (pendingReads c); cbn; rewrite ?Hs.
  - split_and!; [by right|done|]. apply negb_true_iff in Hc. congruence.
  - destruct Hq as [->|]; [|done]. split_and!; [by left|done|]. apply negb_true_iff in Hc. congruence.
Qed.

Lemma flow_settle r st c : (forall x, r <> Value x) -> flow (settle_reads r st [] c) = consumed c.
Proof. intros Hr. unfold flow, consumed. cbn. by rewrite values_app, values_repeat, !app_nil_r. Qed.

Lemma consumed_settle r st q c : (forall x, r <> Value x) -> consumed (settle_reads r st q c) = consumed c.
Proof. intros Hr. unfold consumed. cbn. by rewrite values_app, values_repeat, app_nil_r. Qed.

Lemma orderly_settle r st c : st <> readable_ -> orderly (settle_reads r st [] c).
Proof. intros Hst. unfold orderly, is_readable. cbn. destruct st; [done|..]; split_and!; auto; done. Qed.

Lemma flow_close c : flow (close_ c) = flow c.
Proof.
  unfold close_. cbn. destruct (queue c) eqn:Hq; [|done].
  rewrite flow_settle by done. unfold flow, consumed. cbn. by rewrite Hq, app_nil_r.
Qed.

Lemma orderly_close c : orderly c -> orderly (close_ c).
Proof.
  intros (Hq & Hr & Hc). unfold close_. cbn. destruct (queue c) eqn:E; [by apply orderly_settle|].
  unfold orderly, is_readable in *. cbn. rewrite ?E. split_and!; [by right; destruct Hq| |done].
  intros H. by destruct (Hr H).
Qed.

(** [error] throws the queue away. *)
Lemma consumed_error e c : consumed (error_ e c) = consumed c.
Proof. unfold error_. case_match; [by apply consumed_settle|done]. Qed.

Lemma orderly_error e c : orderly c -> orderly (error_ e c).
Proof. intros H. unfold error_. case_match; [by apply orderly_settle|done]. Qed.

Lemma flow_read c : flow (read_ c).1 = flow c.
Proof.
  unfold read_. destruct (status c) eqn:Hs; cycle 1.
  1,2: unfold flow, consumed; cbn; by rewrite values_app, app_nil_r.
  destruct (queue c) as [|x q] eqn:Hq.
  { rewrite flow_call_pull. unfold flow, consumed. cbn. by rewrite Hq. }
  assert (Hf : flow (add_read (Value x) q c) = flow c).
  { unfold flow, consumed. cbn. rewrite values_app, Hq. cbn. by rewrite <-app_assoc. }
  case_match; [|by rewrite flow_call_pull]. cbn [fst]. rewrite flow_settle by done.
  apply andb_true_iff in H as [_ H%bool_decide_eq_true]. subst q.
  rewrite <-Hf. unfold flow. cbn. by rewrite app_nil_r.
Qed.

Lemma orderly_read c : orderly c -> orderly (read_ c).1.
Proof.
  intros (Hq & Hr & Hc). unfold read_.
  destruct (status c) eqn:Hs; cycle 1.
  1,2: unfold orderly, is_readable in *; rewrite Hs in Hr, Hc; cbn; by rewrite Hs; split_and!; auto.
  destruct (queue c) as [|x q] eqn:E.
  { apply orderly_call_pull. unfold orderly, is_readable in *. cbn. rewrite Hs in Hc.
    split_and!; [by left|done|]. intros H. by destruct (Hc H eq_refl). }
  case_match; [by apply orderly_settle|]. apply orderly_call_pull.
  unfold orderly, is_readable. cbn in *. rewrite Hs. destruct Hq as [|Hq]; [done|].
  split_and!; [by right|done|]. intros Hcr _ ->. rewrite Hcr in H. done.
Qed.

Lemma read_cases c :
  (is_readable c = false /\ exists r, (forall x, r <> Value x) /\ read_ c = (add_read r (queue c) c, false)) \/
  (status c = readable_ /\ closeRequested c = true /\
     exists x, read_ c = (settle_reads Done closed_ [] (add_read (Value x) [] c), false)) \/
  (status c = readable_ /\ exists d, read_ c = call_pull_if_needed d /\ status d = readable_ /\
     closeRequested d = closeRequested c /\ pulling d = pulling c).
Proof.
  unfold read_, is_readable. destruct (status c) eqn:Hs; [|left; split; [done|]; eexists; (split; [|reflexivity]); done..]. right.
  destruct (queue c) as [|x q] eqn:Hq; [right; split; [done|]; eexists; by split_and!|].
  cbv zeta. change (closeRequested (add_read (Value x) q c)) with (closeRequested c).
  destruct (closeRequested c && bool_decide (q = [])) eqn:E; [left|right].
  - apply andb_true_iff in E as [Hc ->%bool_decide_eq_true]. split_and!; eauto.
  - split; [done|]. exists (add_read (Value x) q c). by cbn.
Qed.
End stream.

Arguments ReadResult : clear implicits.
Arguments Controller : clear implicits.
