(* ===== verification/StreamResponse.v ===== *)
(** * A read session of the client: class [StreamResponseImpl] of
    [packages/client/src/response.ts]

    The session is a [ReadableStream] of responses: ReadableStream models its
    controller, ResponseState the synchronisation state.  [pull] and the methods
    it calls are asynchronous: each is a function that runs to the next [await],
    and what follows an [await] is a function of its own, called when the reply
    is there; [Pull] says where a call is.  An [await] of a promise that is
    settled already does not count.  [step] is what can happen to a session. *)

From S2P Require Import Prelude Text PathEncoding Http ResponseState ReadableStream.
Local Open Scope js_scope.

(** ** Data *)

(** [SSEEvent], with the fields as its type declares them. *)
Inductive ClientEvent :=
| DataEvent (data : string)
| ControlEvent (ev : SSEControlEvent).

Inductive StreamState := active | pause_requested | paused.

(** Why a controller was aborted: [PAUSE_STREAM], or another reason. *)
Inductive Reason := PAUSE_STREAM | OtherReason.

#[export] Instance Reason_eq_dec : EqDecision Reason.
Proof. solve_decision. Defined.

(** The promise [closed]. *)
Inductive Closed := ClosedPending | ClosedResolved | ClosedRejected (e : string).

Record Config := mkConfig {
  contentType : option string;
  live : LiveMode;
  startOffset : string;
  isJsonMode : bool;
  initialOffset : string;
  initialCursor : option string;
  initialUpToDate : bool;
  initialStreamClosed : bool;
  firstResponse : Response;
  startSSE : bool;                 (* is given *)
  sseResilience : SSEResilience;
  encoding : bool;                 (* [base64] *)
}.

(** Where [pull] goes on after [#pausePromise]: before it starts SSE, before it
    reads SSE events, or before it fetches. *)
Inductive AfterPause := ThenStartSSE | ThenEvents | ThenFetch.

(** What an [await this.#startSSE] is part of: [pull] itself, [#trySSEReconnect]
    after a pause, after the events ended, or after they ended between a data
    and a control event; there the response is ready. *)
Inductive Reconnect := ByPull | ByResume | ByEnd | ByCut (r : Response).

(** A call of [pull]. *)
Inductive Pull :=
| NoPull
| Settled (rejected : option string)   (* its promise is settled, the reaction still to come *)
| AwaitPause (k : AfterPause) (resolved : bool)
| AwaitDelay (k : Reconnect) (maxDelay : Z)
| AwaitSSE (k : Reconnect) (offset : string) (cursor : option string)
| AwaitEvent                           (* [sseEventIterator.next()] in [#processSSEEvents] *)
| AwaitControl (parts : list string)   (* ... in [#processSSEDataEvent] *)
| AwaitFetch (offset : string) (cursor : option string) (upToDate resumingFromPause : bool).

(** [requestAbort] is [#requestAbortController]: not there, not aborted, or
    aborted; [iterator] is [sseEventIterator], and whether it has ended. *)
Record Session := mkSession {
  syncState : StreamResponseState;
  state : StreamState;
  stopAfterUpToDate : bool;
  base64_ : bool;
  pausePromise : bool;
  requestAbort : option (option Reason);
  aborted : bool;
  closed : Closed;
  subscribed : bool;
  response : Response;
  firstResponseYielded : bool;
  iterator : option bool;
  pull : Pull;
  controller : Controller Response;
}.

Definition set_syncState (x : StreamResponseState) (s : Session) : Session :=
  mkSession x (state s) (stopAfterUpToDate s) (base64_ s) (pausePromise s) (requestAbort s) (aborted s)
    (closed s) (subscribed s) (response s) (firstResponseYielded s) (iterator s) (pull s) (controller s).
Definition set_state (x : StreamState) (s : Session) : Session :=
  mkSession (syncState s) x (stopAfterUpToDate s) (base64_ s) (pausePromise s) (requestAbort s) (aborted s)
    (closed s) (subscribed s) (response s) (firstResponseYielded s) (iterator s) (pull s) (controller s).
Definition set_stopAfterUpToDate (x : bool) (s : Session) : Session :=
  mkSession (syncState s) (state s) x (base64_ s) (pausePromise s) (requestAbort s) (aborted s)
    (closed s) (subscribed s) (response s) (firstResponseYielded s) (iterator s) (pull s) (controller s).
Definition set_base64 (x : bool) (s : Session) : Session :=
  mkSession (syncState s) (state s) (stopAfterUpToDate s) x (pausePromise s) (requestAbort s) (aborted s)
    (closed s) (subscribed s) (response s) (firstResponseYielded s) (iterator s) (pull s) (controller s).
Definition set_pausePromise (x : bool) (s : Session) : Session :=
  mkSession (syncState s) (state s) (stopAfterUpToDate s) (base64_ s) x (requestAbort s) (aborted s)
    (closed s) (subscribed s) (response s) (firstResponseYielded s) (iterator s) (pull s) (controller s).
Definition set_requestAbort (x : option (option Reason)) (s : Session) : Session :=
  mkSession (syncState s) (state s) (stopAfterUpToDate s) (base64_ s) (pausePromise s) x (aborted s)
    (closed s) (subscribed s) (response s) (firstResponseYielded s) (iterator s) (pull s) (controller s).
Definition set_aborted (x : bool) (s : Session) : Session :=
  mkSession (syncState s) (state s) (stopAfterUpToDate s) (base64_ s) (pausePromise s) (requestAbort s) x
    (closed s) (subscribed s) (response s) (firstResponseYielded s) (iterator s) (pull s) (controller s).
Definition set_closed (x : Closed) (sub : bool) (s : Session) : Session :=
  mkSession (syncState s) (state s) (stopAfterUpToDate s) (base64_ s) (pausePromise s) (requestAbort s) (aborted s)
    x sub (response s) (firstResponseYielded s) (iterator s) (pull s) (controller s).
Definition set_response (x : Response) (s : Session) : Session :=
  mkSession (syncState s) (state s) (stopAfterUpToDate s) (base64_ s) (pausePromise s) (requestAbort s) (aborted s)
    (closed s) (subscribed s) x (firstResponseYielded s) (iterator s) (pull s) (controller s).
Definition set_firstResponseYielded (x : bool) (s : Session) : Session :=
  mkSession (syncState s) (state s) (stopAfterUpToDate s) (base64_ s) (pausePromise s) (requestAbort s) (aborted s)
    (closed s) (subscribed s) (response s) x (iterator s) (pull s) (controller s).
Definition set_iterator (x : option bool) (s : Session) : Session :=
  mkSession (syncState s) (state s) (stopAfterUpToDate s) (base64_ s) (pausePromise s) (requestAbort s) (aborted s)
    (closed s) (subscribed s) (response s) (firstResponseYielded s) x (pull s) (controller s).
Definition set_pull (x : Pull) (s : Session) : Session :=
  mkSession (syncState s) (state s) (stopAfterUpToDate s) (base64_ s) (pausePromise s) (requestAbort s) (aborted s)
    (closed s) (subscribed s) (response s) (firstResponseYielded s) (iterator s) x (controller s).
Definition set_controller (x : Controller Response) (s : Session) : Session :=
  mkSession (syncState s) (state s) (stopAfterUpToDate s) (base64_ s) (pausePromise s) (requestAbort s) (aborted s)
    (closed s) (subscribed s) (response s) (firstResponseYielded s) (iterator s) (pull s) x.

(** The getters [offset], [cursor], [upToDate] and [streamClosed]. *)
Definition s_offset (s : Session) : string := offset (sync (syncState s)).
Definition s_cursor (s : Session) : option string := cursor (sync (syncState s)).
Definition s_upToDate (s : Session) : bool := upToDate (sync (syncState s)).
Definition s_streamClosed (s : Session) : bool := streamClosed (sync (syncState s)).

(** ** Responses *)

(** [response.headers.get(k) || undefined] *)
Definition header_or_undefined (k : string) (r : Response) : option string :=
  match rs_header k r with Some v => if String.eqb v EmptyString then None else Some v | None => None end.

Definition header_has (k : string) (r : Response) : bool :=
  match rs_header k r with Some _ => true | None => false end.

(** [response.headers.get(STREAM_CLOSED_HEADER)?.toLowerCase() === "true"] *)
Definition closed_header (r : Response) : bool :=
  match rs_header STREAM_CLOSED_HEADER r with Some v => String.eqb (js_lower v) "true" | None => false end.

Definition response_update (r : Response) : ResponseMetadataUpdate :=
  mkUpdate (header_or_undefined STREAM_OFFSET_HEADER r) (header_or_undefined STREAM_CURSOR_HEADER r)
    (header_has STREAM_UP_TO_DATE_HEADER r) (closed_header r).

Definition isSSE (r : Response) : bool :=
  match rs_header "content-type" r with Some ct => includes "text/event-stream" ct | None => false end.

(** [response.body] is [null] for the statuses of the Fetch standard that have no body. *)
Definition has_body (r : Response) : bool :=
  negb (bool_decide (rs_status r ∈ [101; 103; 204; 205; 304])).

Definition base64_response (r : Response) : bool :=
  bool_decide (rs_header STREAM_SSE_DATA_ENCODING_HEADER r = Some "base64"%string).

(** [decodeBase64], in Node. *)
Definition decodeBase64 (base64Str : string) : result string bytes :=
  let cleaned := filter (fun c => c <> LF /\ c <> CR) (chars base64Str) in
  if (length cleaned =? 0)%nat then Ok []
  else if negb (length cleaned mod 4 =? 0)%nat then Err "PARSE_ERROR"
  else Ok (base64_decode cleaned).

Fixpoint decode_parts (parts : list string) : result string (list bytes) :=
  match parts with
  | [] => Ok []
  | p :: parts =>
      match decodeBase64 p with
      | Err e => Err e
      | Ok b => match decode_parts parts with Ok bs => Ok (b :: bs) | Err e => Err e end
      end
  end.

(** One part of a JSON body: the values of an array without its brackets. *)
Definition merge_part (part : string) : list string :=
  let trimmed := js_trim part in
  if String.eqb trimmed EmptyString then []
  else if starts_with "[" trimmed && ends_with "]" trimmed then
    let inner := js_trim (str_drop 1 (str_drop_end 1 trimmed)) in
    if String.eqb inner EmptyString then [] else [inner]
  else [trimmed].

(** [createSSESyntheticResponseFromParts]; an error is the [PARSE_ERROR] of
    [decodeBase64]. *)
Definition createSSESyntheticResponseFromParts (dataParts : list string) (offset : string)
    (cursor : option string) (upToDate streamClosed : bool) (contentType : option string)
    (base64 isJsonMode : bool) : result string Response :=
  let headers :=
    [("content-type", or_else contentType "application/json"); (STREAM_OFFSET_HEADER, offset)]
    ++ when_some STREAM_CURSOR_HEADER (if truthy cursor then cursor else None)
    ++ when upToDate (STREAM_UP_TO_DATE_HEADER, "true"%string)
    ++ when streamClosed (STREAM_CLOSED_HEADER, "true"%string) in
  if base64 then
    match decode_parts (filter (fun p => p <> EmptyString) dataParts) with
    | Ok bs => Ok (mkResponse 200 headers (concat bs))
    | Err e => Err e
    end
  else if isJsonMode then
    Ok (mkResponse 200 headers (encode_text ("[" +:+ join "," (concat (map merge_part dataParts)) +:+ "]")))
  else Ok (mkResponse 200 headers (encode_text (join EmptyString dataParts))).

(** ** The session *)

Definition PM (A : Type) : Type := M Session string A.

Definition TYPE_ERROR : string := "TypeError".

Definition upd_controller (f : Controller Response -> Controller Response) : PM unit :=
  modify (fun s => set_controller (f (controller s)) s).

Definition await (p : Pull) : PM unit := modify (set_pull p).

(** The promise of [pull] is fulfilled. *)
Definition return_ : PM unit := modify (set_pull (Settled None)).

Definition markClosed_ (s : Session) : Session :=
  set_closed (match closed s with ClosedPending => ClosedResolved | c => c end) false s.

Definition markError_ (e : string) (s : Session) : Session :=
  set_closed (match closed s with ClosedPending => ClosedRejected e | c => c end) false s.

Definition markClosed : PM unit := modify markClosed_.
Definition markError (e : string) : PM unit := modify (markError_ e).

(** [controller.enqueue]; while [pull] runs, calling it again is only noted. *)
Definition controller_enqueue (r : Response) : PM unit :=
  let* s := get_state in
  if can_enqueue (controller s) then upd_controller (fun c => (enqueue r c).1) else throw TYPE_ERROR.

Definition controller_close : PM unit :=
  let* s := get_state in
  if can_enqueue (controller s) then upd_controller close_ else throw TYPE_ERROR.

(** [this.#markClosed(); controller.close(); return] *)
Definition close_session : PM unit := do markClosed ;; do controller_close ;; return_.

(** [this.#markError(e); controller.error(e); return] *)
Definition fail_session (e : string) : PM unit := do markError e ;; do upd_controller (error_ e) ;; return_.

Definition yield_response (r : Response) : PM unit := do controller_enqueue r ;; return_.

Definition updateStateFromResponse (r : Response) : PM unit :=
  modify (fun s => set_response r (set_syncState (withResponseMetadata (response_update r) (syncState s)) s)).

Definition updateStateFromSSEControl (ev : SSEControlEvent) : PM unit :=
  modify (fun s => set_syncState (withSSEControl ev (syncState s)) s).

Definition updateEncodingFromSSEResponse (r : Response) : PM unit := modify (set_base64 (base64_response r)).

(** [#markSSEConnectionStart] at the time [now]. *)
Definition markSSEConnectionStart (now : Z) : PM unit :=
  modify (fun s => set_syncState (Active (match syncState s with
    | Active (SSEState f n _) => startConnection now f n
    | st => startConnection now (sync st) 0
    end)) s).

Definition new_request : PM unit := modify (set_requestAbort (Some None)).
Definition new_iterator : PM unit := modify (set_iterator (Some false)).

Section session.
Context (cfg : Config).

Definition shouldContinue (s : Session) : bool :=
  shouldContinueLive (stopAfterUpToDate s) (live cfg) (syncState s).

Definition is_paused (s : Session) : bool := match state s with active => false | _ => true end.

(** [await this.#startSSE(this.offset, this.cursor, ...)] *)
Definition start_sse (now : Z) (k : Reconnect) : PM unit :=
  do markSSEConnectionStart now ;;
  do new_request ;;
  let* s := get_state in
  await (AwaitSSE k (s_offset s) (s_cursor s)).

(** [Math.min(backoffMaxDelay, backoffBaseDelay * Math.pow(2, backoffAttempt))];
    the delay is a random number below it. *)
Definition max_delay (backoffAttempt : Z) : Z :=
  Z.min (backoffMaxDelay (sseResilience cfg)) (backoffBaseDelay (sseResilience cfg) * 2 ^ backoffAttempt).

(** What the callers of [#trySSEReconnect] do with its result: a new iterator,
    or [null]; *)
Definition reconnected (k : Reconnect) (newIterator : bool) : PM unit :=
  match k with
  | ByPull => ret tt
  | ByResume | ByEnd =>
      if newIterator then do new_iterator ;; await AwaitEvent else close_session
  | ByCut r => do (if newIterator then new_iterator else ret tt) ;; yield_response r
  end.

(** and with an error: [pull] lets it go on to its [catch], [#processSSEEvents]
    and [#processSSEDataEvent] answer [error]. *)
Definition reconnect_failed (k : Reconnect) (e : string) : PM unit :=
  match k with
  | ByPull | ByResume => throw e
  | ByEnd | ByCut _ => fail_session e
  end.

(** [#trySSEReconnect], to its first [await].  [handleConnectionEnd] is a method
    of [SSEState] alone. *)
Definition trySSEReconnect (now : Z) (k : Reconnect) : PM unit :=
  let* s := get_state in
  if negb (shouldUseSse (syncState s)) then reconnected k false
  else if negb (shouldContinue s) || negb (startSSE cfg) then reconnected k false
  else match syncState s with
       | Active (SSEState f n start) =>
           match handleConnectionEnd now (aborted s) (sseResilience cfg) f n start with
           | fallback i => do modify (set_syncState (Active i)) ;; reconnected k false
           | reconnect i attempt =>
               do modify (set_syncState (Active i)) ;; await (AwaitDelay k (max_delay attempt))
           | healthy i => do modify (set_syncState (Active i)) ;; start_sse now k
           end
       | _ => reconnect_failed k TYPE_ERROR
       end.

(** The response made of buffered parts, or the error that making it throws. *)
Definition yield_parts (parts : list string) (offset : string) (cursor : option string)
    (upToDate streamClosed json : bool) (k : Response -> PM unit) : PM unit :=
  let* s := get_state in
  let* r := lift_result (createSSESyntheticResponseFromParts parts offset cursor upToDate streamClosed
                           (contentType cfg) (base64_ s) json) in
  k r.

(** [#processSSEEvents], after [sseEventIterator.next()]. *)
Definition processSSEEvents (now : Z) (e : option ClientEvent) : PM unit :=
  match e with
  | None => trySSEReconnect now ByEnd
  | Some (DataEvent data) => await (AwaitControl [data])
  | Some (ControlEvent ev) =>
      do updateStateFromSSEControl ev ;;
      if or_else (ctl_upToDate ev) false then
        yield_parts [""%string] (streamNextOffset ev) (streamCursor ev) true (or_else (ctl_streamClosed ev) false)
          false yield_response
      else await AwaitEvent
  end.

(** [#processSSEDataEvent], after [sseEventIterator.next()]. *)
Definition processSSEDataEvent (now : Z) (parts : list string) (e : option ClientEvent) : PM unit :=
  match e with
  | None =>
      let* s := get_state in
      yield_parts parts (s_offset s) (s_cursor s) (s_upToDate s) (s_streamClosed s) (isJsonMode cfg)
        (fun r => trySSEReconnect now (ByCut r))
  | Some (ControlEvent ev) =>
      do updateStateFromSSEControl ev ;;
      yield_parts parts (streamNextOffset ev) (streamCursor ev) (or_else (ctl_upToDate ev) false)
        (or_else (ctl_streamClosed ev) false) (isJsonMode cfg) yield_response
  | Some (DataEvent data) => await (AwaitControl (parts ++ [data]))
  end.

(** [this.#state = "paused"; if (this.#pausePromise) await this.#pausePromise];
    without the promise [k] goes on at once. *)
Definition wait_while_paused (w : AfterPause) (k : PM unit) : PM unit :=
  do modify (set_state paused) ;;
  let* s := get_state in
  if pausePromise s then await (AwaitPause w false) else k.

(** The end of [pull]: long-polling. *)
Definition fetch_next (resumingFromPause : bool) : PM unit :=
  let* s := get_state in
  if aborted s then close_session
  else do new_request ;;
       await (AwaitFetch (s_offset s) (s_cursor s) (s_upToDate s) resumingFromPause).

Definition after_pause_fetch : PM unit :=
  let* s := get_state in
  if aborted s then close_session else fetch_next true.

Definition pull_long_poll : PM unit :=
  let* s := get_state in
  if shouldContinue s then
    if is_paused s then wait_while_paused ThenFetch after_pause_fetch else fetch_next false
  else close_session.

(** [if (sseEventIterator) ...] and what follows. *)
Definition after_pause_events (now : Z) : PM unit :=
  let* s := get_state in
  if aborted s then close_session else trySSEReconnect now ByResume.

Definition pull_events (now : Z) : PM unit :=
  let* s := get_state in
  match iterator s with
  | Some _ => if is_paused s then wait_while_paused ThenEvents (after_pause_events now) else await AwaitEvent
  | None => pull_long_poll
  end.

(** The transition to SSE once caught up, and what follows. *)
Definition after_pause_start (now : Z) : PM unit :=
  let* s := get_state in
  if aborted s then close_session else start_sse now ByPull.

Definition pull_start_sse (now : Z) : PM unit :=
  let* s := get_state in
  if bool_decide (iterator s = None) && s_upToDate s && startSSE cfg && shouldContinue s then
    if is_paused s then wait_while_paused ThenStartSSE (after_pause_start now) else start_sse now ByPull
  else pull_events now.

(** The whole of [pull], to its first [await]. *)
Definition pull_body (now : Z) : PM unit :=
  let* s := get_state in
  if firstResponseYielded s then pull_start_sse now
  else
    do modify (set_firstResponseYielded true) ;;
    if isSSE (firstResponse cfg) && has_body (firstResponse cfg) then
      do markSSEConnectionStart now ;;
      do updateEncodingFromSSEResponse (firstResponse cfg) ;;
      do new_request ;;
      do new_iterator ;;
      pull_start_sse now
    else
      do controller_enqueue (firstResponse cfg) ;;
      let* s := get_state in
      if s_upToDate s && negb (shouldContinue s) then close_session else return_.

(** The [catch] of [pull].  What it throws itself rejects the promise of [pull]. *)
Definition pull_catch (e : string) (s : Session) : Session :=
  if bool_decide (requestAbort s = Some (Some PAUSE_STREAM)) then
    set_pull (Settled None) (match state s with pause_requested => set_state paused s | _ => s end)
  else if aborted s then
    match close_session s with
    | (s', Ok _) => s'
    | (s', Err e') => set_pull (Settled (Some e')) s'
    end
  else (fail_session e s).1.

Definition guarded (m : PM unit) (s : Session) : Session :=
  match m s with
  | (s', Ok _) => s'
  | (s', Err e) => pull_catch e s'
  end.

Definition run_pull (now : Z) : Session -> Session := guarded (pull_body now).

(** After the other [await]s. *)
Definition after_pause (now : Z) (k : AfterPause) : PM unit :=
  match k with
  | ThenStartSSE => after_pause_start now
  | ThenEvents => after_pause_events now
  | ThenFetch => after_pause_fetch
  end.

Definition after_sse (now : Z) (k : Reconnect) (reply : result string Response) : PM unit :=
  match reply with
  | Err e => reconnect_failed k e
  | Ok r =>
      do updateEncodingFromSSEResponse r ;;
      match k with
      | ByPull => do (if has_body r then new_iterator else ret tt) ;; pull_events now
      | _ => reconnected k (has_body r)
      end
  end.

Definition after_fetch (reply : result string Response) : PM unit :=
  match reply with
  | Err e => throw e
  | Ok r => do updateStateFromResponse r ;; yield_response r
  end.

(** An iterator that has thrown or returned has ended. *)
Definition after_next (reply : result string (option ClientEvent)) (k : option ClientEvent -> PM unit) : PM unit :=
  match reply with
  | Err e => do modify (set_iterator (Some true)) ;; throw e
  | Ok None => do modify (set_iterator (Some true)) ;; k None
  | Ok e => k e
  end.

(** ** What comes from outside *)

(** An operation of the stream, and the call of [pull] it may lead to. *)
Definition on_controller (now : Z) (f : Controller Response -> Controller Response * bool) (s : Session) : Session :=
  let '(c, call) := f (controller s) in
  let s := set_controller c s in
  if call then run_pull now s else s.

(** [requestAbortController?.abort(reason)]; only the first reason counts. *)
Definition abort_request (reason : Reason) (s : Session) : Session :=
  match requestAbort s with
  | Some None => set_requestAbort (Some (Some reason)) s
  | _ => s
  end.

(** [this.#pauseResolve?.(); this.#pausePromise = undefined] *)
Definition resolve_pause (s : Session) : Session :=
  let s := match pausePromise s, pull s with
           | true, AwaitPause k _ => set_pull (AwaitPause k true) s
           | _, _ => s
           end in
  set_pausePromise false s.

(** [#pause] *)
Definition pause_session (s : Session) : Session :=
  match state s with
  | active =>
      abort_request PAUSE_STREAM
        (set_pausePromise true (set_syncState (pause (syncState s)) (set_state pause_requested s)))
  | _ => s
  end.

(** [#resume] *)
Definition resume_session (s : Session) : Session :=
  match state s with
  | active => s
  | _ => if aborted s then s
         else resolve_pause (set_state active (set_syncState (resume (syncState s)) s))
  end.

(** The listener for [abort] of [#abortController]; it runs once. *)
Definition abort_session (s : Session) : Session :=
  if aborted s then s else resolve_pause (abort_request OtherReason (set_aborted true s)).

(** [cancel] of the source. *)
Definition cancel_session (s : Session) : Session :=
  let '(c, call) := cancel_ (controller s) in
  let s := set_controller c s in
  if call then markClosed_ (abort_session s) else s.

(** The constructor; [hidden] is [document.hidden] where there is a document. *)
Definition new_session (hidden : bool) : Session :=
  let f := mkSyncFields (initialOffset cfg) (initialCursor cfg) (initialUpToDate cfg) (initialStreamClosed cfg) in
  let s := mkSession (Active (if startSSE cfg then SSEState f 0 None else LongPollState f)) active false
             (encoding cfg) false None false ClosedPending true (firstResponse cfg) false None NoPull
             new_controller in
  if hidden then pause_session s else s.

Inductive Event :=
| Started                                            (* the stream was set up *)
| PullReaction                                       (* to the promise of [pull] *)
| Read                                               (* [reader.read()] *)
| Cancel                                             (* [reader.cancel()] *)
| Hidden | Visible                                   (* [visibilitychange] *)
| Abort                                              (* of the signal the user gave *)
| Accumulate                                           (* [body], [json] or [text] begins *)
| PauseReaction                                      (* to [#pausePromise] *)
| DelayOver
| SSEReply (r : result string Response)              (* [startSSE] *)
| NextReply (r : result string (option ClientEvent)) (* [sseEventIterator.next()] *)
| FetchReply (r : result string Response).           (* [fetchNext] *)

(** What happens at an event, at the time [now]; nothing, where it cannot. *)
Definition step (now : Z) (ev : Event) (s : Session) : option Session :=
  match ev, pull s with
  | Started, _ => if ReadableStream.started (controller s) then None else Some (on_controller now controller_started s)
  | PullReaction, Settled None => Some (on_controller now pull_fulfilled (set_pull NoPull s))
  | PullReaction, Settled (Some e) =>
      Some (set_controller (pull_rejected e (controller s)) (set_pull NoPull s))
  | Read, _ => Some (on_controller now read_ s)
  | Cancel, _ => Some (cancel_session s)
  | Hidden, _ => if subscribed s then Some (pause_session s) else None
  | Visible, _ => if subscribed s then Some (resume_session s) else None
  | Abort, _ => Some (abort_session s)
  | Accumulate, _ => Some (set_stopAfterUpToDate true s)
  | PauseReaction, AwaitPause k true => Some (guarded (after_pause now k) s)
  | DelayOver, AwaitDelay k _ => Some (guarded (start_sse now k) s)
  | SSEReply r, AwaitSSE k _ _ => Some (guarded (after_sse now k r) s)
  | NextReply r, AwaitEvent =>
      match iterator s, r with
      | Some true, Ok None => Some (guarded (processSSEEvents now None) s)
      | Some true, _ => None
      | _, _ => Some (guarded (after_next r (processSSEEvents now)) s)
      end
  | NextReply r, AwaitControl parts =>
      match iterator s with
      | Some true => None
      | _ => Some (guarded (after_next r (processSSEDataEvent now parts)) s)
      end
  | FetchReply r, AwaitFetch _ _ _ _ => Some (guarded (after_fetch r) s)
  | _, _ => None
  end.

Fixpoint steps (evs : list (Z * Event)) (s : Session) : option Session :=
  match evs with
  | [] => Some s
  | (now, ev) :: evs => step now ev s ≫= steps evs
  end.
End session.

(** * Starting a read session: [packages/client/src/stream-api.ts]

    The requests of a session, and the session [streamInternal] makes of its
    first response.  The parameters the user gives are those [resolveParams]
    returns for a request. *)

Definition OFFSET_QUERY_PARAM : string := "offset".
Definition LIVE_QUERY_PARAM : string := "live".

(** [searchParams.set(k, v)]: in the place of the first [k], or at the end. *)
Fixpoint search_set (k v : string) (q : list (string * string)) : list (string * string) :=
  match q with
  | [] => [(k, v)]
  | (k', v') :: q =>
      if String.eqb k' k then (k, v) :: filter (fun kv => kv.1 <> k) q else (k', v') :: search_set k v q
  end.

Definition search_set_all (params q : list (string * string)) : list (string * string) :=
  foldl (fun q kv => search_set kv.1 kv.2 q) q params.

(** [fetchUrl] of the first request; [base] is the query of the stream's URL. *)
Definition first_query (base params : list (string * string)) (startOffset : string) : list (string * string) :=
  search_set_all params (search_set OFFSET_QUERY_PARAM startOffset base).

(** [nextUrl] of [fetchNext] *)
Definition next_query (base params : list (string * string)) (live : LiveMode) (offset : string)
    (cursor : option string) (upToDate resumingFromPause : bool) : list (string * string) :=
  let q := search_set OFFSET_QUERY_PARAM offset base in
  let q :=
    if upToDate && negb resumingFromPause then
      match live with
      | live_true | live_long_poll => search_set LIVE_QUERY_PARAM "long-poll" q
      | _ => q
      end
    else q in
  let q := if truthy cursor then search_set "cursor" (or_else cursor EmptyString) q else q in
  search_set_all params q.

(** [sseUrl] of [startSSE] *)
Definition sse_query (base params : list (string * string)) (offset : string) (cursor : option string)
    : list (string * string) :=
  let q := search_set LIVE_QUERY_PARAM "sse" (search_set OFFSET_QUERY_PARAM offset base) in
  let q := if truthy cursor then search_set "cursor" (or_else cursor EmptyString) q else q in
  search_set_all params q.

(** The options that the session depends on. *)
Record StreamOptions := mkStreamOptions {
  opt_offset : option string;
  opt_live : option LiveMode;
  opt_json : bool;
  opt_resilience : SSEResilience;
}.

Definition start_offset (o : StreamOptions) : string := or_else (opt_offset o) "-1"%string.
Definition live_mode (o : StreamOptions) : LiveMode := or_else (opt_live o) live_true.

(** [streamInternal], after the first response. *)
Definition stream_config (o : StreamOptions) (first : Response) : Config :=
  let contentType := rs_header "content-type" first in
  mkConfig contentType (live_mode o) (start_offset o)
    (opt_json o || match contentType with Some ct => includes "application/json" ct | None => false end)
    (or_else (rs_header STREAM_OFFSET_HEADER first) (start_offset o))
    (rs_header STREAM_CURSOR_HEADER first)
    (header_has STREAM_UP_TO_DATE_HEADER first) (closed_header first) first
    (match live_mode o with live_sse => true | _ => false end) (opt_resilience o)
    (base64_response first).

(** ** The offset of a request *)

Lemma assoc_search_set k v q : assoc k (search_set k v q) = Some v.
Proof.
  induction q as [|[k' v'] q IH]; cbn; [by rewrite String.eqb_refl|].
  destruct (String.eqb k' k) eqn:E; cbn; [by rewrite String.eqb_refl|].
  by rewrite String.eqb_sym, E.
Qed.

Lemma assoc_filter_ne k k' (q : list (string * string)) :
  k <> k' -> assoc k (filter (fun kv => kv.1 <> k') q) = assoc k q.
Proof.
  intros Hne. induction q as [|[a b] q IH]; [done|]. rewrite filter_cons. cbn.
  destruct (decide (a <> k')) as [Ha|Ha]; cbn; rewrite IH; [done|].
  apply dec_stable in Ha. subst a. by rewrite (proj2 (String.eqb_neq _ _) Hne).
Qed.

Lemma assoc_search_set_ne k k' v q : k <> k' -> assoc k (search_set k' v q) = assoc k q.
Proof.
  intros Hne. induction q as [|[a b] q IH]; cbn.
  { by rewrite (proj2 (String.eqb_neq _ _) Hne). }
  destruct (String.eqb a k') eqn:E; cbn; [|by rewrite IH].
  apply String.eqb_eq in E. subst a. rewrite (proj2 (String.eqb_neq _ _) Hne). by apply assoc_filter_ne.
Qed.

Lemma assoc_search_set_all k params q :
  Forall (fun kv => kv.1 <> k) params -> assoc k (search_set_all params q) = assoc k q.
Proof.
  unfold search_set_all. revert q. induction params as [|[a b] params IH]; intros q Hp; [done|].
  inversion_clear Hp as [|? ? Ha Hps]. cbn in *. rewrite IH by done. by apply assoc_search_set_ne.
Qed.

(** The user's parameters leave the offset alone. *)
Definition params_ok (params : list (string * string)) : Prop :=
  Forall (fun kv => kv.1 <> OFFSET_QUERY_PARAM) params.

Lemma first_query_offset base params o :
  params_ok params -> assoc "offset" (first_query base params o) = Some o.
Proof. intros Hp. unfold first_query. rewrite assoc_search_set_all by done. apply assoc_search_set. Qed.

Lemma next_query_offset base params live o c u r :
  params_ok params -> assoc "offset" (next_query base params live o c u r) = Some o.
Proof.
  intros Hp. unfold next_query. rewrite assoc_search_set_all by done.
  assert (H : assoc "offset" (if u && negb r then match live with
      | live_true | live_long_poll => search_set LIVE_QUERY_PARAM "long-poll" (search_set OFFSET_QUERY_PARAM o base)
      | _ => search_set OFFSET_QUERY_PARAM o base end else search_set OFFSET_QUERY_PARAM o base) = Some o).
  { destruct (u && negb r), live; rewrite ?assoc_search_set_ne by done; apply assoc_search_set. }
  destruct (truthy c); [by rewrite assoc_search_set_ne|done].
Qed.
