(* ===== verification/ReadSession.v ===== *)
(** * What a read session gives its consumer

    The session of StreamResponse, without SSE, against a server that implements
    the reader of ReaderRuns, with everything in between that can happen: the page
    is hidden and shown, requests fail, are retried or are aborted, the consumer
    reads and cancels, and the store goes on. *)

From S2P Require Import Prelude Offsets Producer Text Json Types JsonMode StreamStore StoreLemmas StoreSteps StoreGraph ForkRead ReaderRuns Http ResponseState ReadableStream StreamResponse.

(** ** The session by itself *)

(** Nothing that was enqueued has been thrown away. *)
Definition intact (s : Session) : Prop :=
  is_readable (controller s) = true \/ (status (controller s) = closed_ /\ aborted s = false).

Section session.
Context (cfg : Config).

(** What is enqueued and not yet read, with the first response if it is held. *)
Definition pending (s : Session) : list Response :=
  queue (controller s) ++ (if firstResponseYielded s then [] else [firstResponse cfg]).

(** Between [s] and [s'] the responses [rs] came in. *)
Definition flows (rs : list Response) (s s' : Session) : Prop :=
  forall rest, (intact s -> rest = pending s) ->
  exists rest', consumed (controller s') ++ rest' = consumed (controller s) ++ rest ++ rs /\
    (intact s' -> rest' = pending s').

Lemma flows_trans rs rs' s1 s2 s3 : flows rs s1 s2 -> flows rs' s2 s3 -> flows (rs ++ rs') s1 s3.
Proof.
  intros H12 H23 rest Hrest. destruct (H12 rest Hrest) as (rest' & Heq & Hrest').
  destruct (H23 rest' Hrest') as (rest'' & Heq' & ?). exists rest''. split; [|done].
  rewrite Heq'. rewrite app_assoc, Heq. by rewrite !app_assoc.
Qed.

(** A change of state that the consumer does not see. *)
Lemma flows_same s s' :
  consumed (controller s') = consumed (controller s) ->
  (intact s' -> intact s /\ pending s' = pending s) -> flows [] s s'.
Proof.
  intros Hc Hp rest Hrest. exists rest. rewrite Hc, app_nil_r. split; [done|].
  intros [Hi ->]%Hp. by apply Hrest.
Qed.

(** The same where the queue has moved on. *)
Lemma flows_flow rs s s' :
  flow (controller s') = flow (controller s) ++ rs ->
  firstResponseYielded s' = firstResponseYielded s ->
  (rs = [] \/ firstResponseYielded s = true) -> intact s -> flows rs s s'.
Proof.
  intros Hf Hy Hrs Hi rest Hrest. rewrite (Hrest Hi). exists (pending s'). split; [|done].
  unfold pending, flow in *. rewrite Hy. rewrite !app_assoc, Hf.
  destruct Hrs as [->| ->]; by rewrite !app_nil_r.
Qed.

(** ** The invariant, where there is no SSE *)

Definition base (s : Session) : Prop :=
  iterator s = None /\ orderly (controller s) /\
  (status (controller s) = closed_ -> closeRequested (controller s) = true \/ aborted s = true) /\
  (closeRequested (controller s) = true ->
     firstResponseYielded s = true /\ (aborted s = true \/ shouldContinue cfg s = false)).

Definition pull_ok (s : Session) : Prop :=
  match pull s with
  | NoPull | Settled _ => True
  | AwaitPause ThenFetch _ => closeRequested (controller s) = false
  | AwaitFetch o _ _ _ => closeRequested (controller s) = false /\ o = s_offset s
  | _ => False
  end.

Definition sess_ok (s : Session) : Prop :=
  base s /\ pull_ok s /\
  (firstResponseYielded s = false -> pull s = NoPull) /\
  (pulling (controller s) = false -> pull s = NoPull).

(** [pull] is running. *)
Definition running (s : Session) : Prop :=
  base s /\ firstResponseYielded s = true /\ pulling (controller s) = true.

Definition post (rs : list Response) (s s' : Session) : Prop :=
  sess_ok s' /\ flows rs s s' /\ sync (syncState s') = sync (syncState s).

Lemma running_settled s x : running s -> sess_ok (set_pull (Settled x) s).
Proof. intros (Hb & Hy & Hp). unfold sess_ok. split_and!; [exact Hb|done|..]; cbn; congruence. Qed.

Lemma close_controller (c : Controller Response) :
  consumed (close_ c) = consumed c /\ pulling (close_ c) = pulling c /\ closeRequested (close_ c) = true /\
  queue (close_ c) = queue c /\ status (close_ c) = match queue c with [] => closed_ | _ => status c end.
Proof.
  unfold close_. cbn. destruct (queue c) eqn:Hq; [|split_and!; try done; by cbn; rewrite Hq].
  rewrite consumed_settle by done. split_and!; done.
Qed.

(** The end of the session, and the two ways an error ends a [pull]. *)
Lemma close_session_eq s :
  close_session s =
    if can_enqueue (controller s)
    then (set_pull (Settled None) (set_controller (close_ (controller s)) (markClosed_ s)), Ok tt)
    else (markClosed_ s, Err TYPE_ERROR).
Proof.
  unfold close_session, markClosed, controller_close, upd_controller, return_, bind, modify, get_state. cbn.
  by destruct (can_enqueue _).
Qed.

Lemma yield_response_eq r s :
  yield_response r s =
    if can_enqueue (controller s)
    then (set_pull (Settled None) (set_controller (enqueue r (controller s)).1 s), Ok tt)
    else (s, Err TYPE_ERROR).
Proof.
  unfold yield_response, controller_enqueue, upd_controller, return_, bind, modify, get_state. cbn.
  by destruct (can_enqueue _).
Qed.

(** Why a session ends by itself. *)
Definition ending (s : Session) : Prop := aborted s = true \/ shouldContinue cfg s = false.

Lemma post_closed s :
  running s -> can_enqueue (controller s) = true -> ending s ->
  post [] s (set_pull (Settled None) (set_controller (close_ (controller s)) (markClosed_ s))).
Proof.
  intros (Hb & Hy & Hp) Hc He.
  destruct (close_controller (controller s)) as (Hcs & Hpl & Hcr & Hq & Hst).
  destruct Hb as (Hi & Ho & Hcl & Hen). unfold post. split_and!.
  - apply (running_settled (set_controller (close_ (controller s)) (markClosed_ s))).
    unfold running, base. split_and!; cbn; [done|by apply orderly_close|by left|done|done|by rewrite Hpl].
  - apply flows_flow; cbn; [by rewrite flow_close, app_nil_r|done|by left|].
    left. by apply andb_true_iff in Hc as [? _].
  - done.
Qed.

Lemma post_settle s x : running s -> post [] s (set_pull (Settled x) s).
Proof.
  intros Hr. unfold post. split_and!; [by apply running_settled| |done].
  apply flows_same; [done|]. done.
Qed.

Lemma post_fail e s : running s -> post [] s (fail_session e s).1.
Proof.
  intros (Hb & Hy & Hp). cbn. destruct Hb as (Hi & Ho & Hcl & Hen).
  assert (Hpe : pulling (error_ e (controller s)) = pulling (controller s)) by (unfold error_; by case_match).
  assert (Hcr : closeRequested (error_ e (controller s)) = closeRequested (controller s)) by (unfold error_; by case_match).
  unfold post. split_and!; [|apply flows_same; cbn; [by rewrite consumed_error|]|done].
  - unfold sess_ok, base. split_and!; cbn; [done|by apply orderly_error| |by rewrite Hcr|done|congruence|congruence].
    rewrite Hcr. unfold error_. by case_match.
  - unfold intact, error_, pending, is_readable. cbn.
    destruct (status (controller s)) eqn:E; cbn; rewrite ?E; [|done..].
    intros [?|[? _]]; done.
Qed.

Lemma post_same s1 s2 s3 rs : flows [] s1 s2 -> sync (syncState s2) = sync (syncState s1) -> post rs s2 s3 -> post rs s1 s3.
Proof.
  intros Hf Ho (Hok & Hf' & Ho'). unfold post. split_and!; [done| |congruence]. by apply (flows_trans [] rs s1 s2 s3).
Qed.

Lemma post_catch e s : running s -> post [] s (pull_catch e s).
Proof.
  intros Hr. unfold pull_catch. case_bool_decide.
  { destruct (state s); try by apply post_settle.
    apply (post_same s (set_state paused s)); [by apply flows_same|done|by apply post_settle]. }
  destruct (aborted s) eqn:Ha; [|by apply post_fail].
  rewrite close_session_eq. destruct (can_enqueue (controller s)) eqn:Hc; [by apply post_closed; [..|left]|].
  apply (post_same s (markClosed_ s)); [by apply flows_same|done|]. by apply post_settle.
Qed.

Lemma post_close s : running s -> ending s -> post [] s (guarded close_session s).
Proof.
  intros Hr He. unfold guarded. rewrite close_session_eq.
  destruct (can_enqueue (controller s)) eqn:Hc; [by apply post_closed|].
  apply (post_same s (markClosed_ s)); [by apply flows_same|done|]. by apply post_catch.
Qed.

(** ** One [pull] *)

Lemma flows_lost rs s s' : flows [] s s' -> ~ intact s' -> flows rs s s'.
Proof.
  intros Hf Hn rest Hrest. destruct (Hf rest Hrest) as (rest' & Heq & _). exists (rest' ++ rs).
  rewrite app_assoc, Heq, app_nil_r, !app_assoc. by split.
Qed.

Lemma catch_dead e s : is_readable (controller s) = false -> intact (pull_catch e s) -> intact s.
Proof.
  intros Hr. unfold pull_catch. case_bool_decide; [by destruct (state s)|]. destruct (aborted s) eqn:Ha.
  - rewrite close_session_eq. unfold can_enqueue. rewrite Hr. exact id.
  - assert (controller (fail_session e s).1 = controller s) as E by (cbn; unfold error_; by rewrite Hr).
    unfold intact. rewrite E. done.
Qed.

Lemma not_enqueue s :
  base s -> closeRequested (controller s) = false -> can_enqueue (controller s) = false ->
  is_readable (controller s) = false /\ ~ intact s.
Proof.
  intros (_ & _ & Hcl & _) Hcr Hc. unfold can_enqueue in Hc. rewrite Hcr, andb_true_r in Hc. split; [done|].
  intros [Hr|[Hs Ha]]; [congruence|]. destruct (Hcl Hs); congruence.
Qed.

Lemma post_yield r s :
  running s -> closeRequested (controller s) = false -> post [r] s (guarded (yield_response r) s).
Proof.
  intros Hr Hcr. pose proof Hr as (Hb & Hy & Hp). unfold guarded. rewrite yield_response_eq.
  destruct (can_enqueue (controller s)) eqn:Hc.
  - destruct Hb as (Hi & Ho & Hcl & Hen). unfold post. split_and!; [|apply flows_flow|by cbn].
    + apply (running_settled (set_controller (enqueue r (controller s)).1 s)). unfold running, base. cbn.
      destruct (enqueue_same r (controller s)) as (-> & -> & _ & Hpl).
      split_and!; [done|by apply orderly_enqueue|done|done|done|by apply Hpl].
    + cbn. by apply flow_enqueue.
    + done.
    + by right.
    + left. by apply andb_true_iff in Hc as [? _].
  - destruct (not_enqueue s Hb Hcr Hc) as [Hd Hn]. destruct (post_catch TYPE_ERROR s Hr) as (Hok & Hf & Ho).
    unfold post. split_and!; [done| |done]. apply flows_lost; [done|]. intros Hi. by apply Hn, (catch_dead TYPE_ERROR).
Qed.

Lemma fetch_next_eq b s :
  fetch_next b s = if aborted s then close_session s
    else (set_pull (AwaitFetch (s_offset s) (s_cursor s) (s_upToDate s) b) (set_requestAbort (Some None) s), Ok tt).
Proof. unfold fetch_next, new_request, await, bind, modify, get_state. cbn. by destruct (aborted s). Qed.

Lemma pull_long_poll_eq s :
  pull_long_poll cfg s =
    if shouldContinue cfg s then
      if is_paused s then
        if pausePromise s then (set_pull (AwaitPause ThenFetch false) (set_state paused s), Ok tt)
        else fetch_next true (set_state paused s)
      else fetch_next false s
    else close_session s.
Proof.
  unfold pull_long_poll, wait_while_paused, after_pause_fetch, await, bind, modify, get_state. cbn.
  destruct (shouldContinue cfg s), (is_paused s), (pausePromise s); try done.
  change (aborted (set_state paused s)) with (aborted s). by destruct (aborted s) eqn:Ha; unfold fetch_next, bind, get_state; cbn; rewrite ?Ha.
Qed.

Lemma post_fetch b s :
  running s -> closeRequested (controller s) = false -> post [] s (guarded (fetch_next b) s).
Proof.
  intros Hr Hcr. unfold guarded. rewrite fetch_next_eq.
  destruct (aborted s) eqn:Ha; [by apply post_close; [|left]|]. destruct Hr as (Hb & Hy & Hp).
  unfold post, sess_ok, pull_ok. cbn. split_and!; try done; [congruence..|].
  by apply flows_same.
Qed.

Lemma post_long_poll s :
  running s -> closeRequested (controller s) = false -> post [] s (guarded (pull_long_poll cfg) s).
Proof.
  intros Hr Hcr. unfold guarded. rewrite pull_long_poll_eq.
  destruct (shouldContinue cfg s) eqn:Hsc; [|by apply post_close; [|right]].
  destruct (is_paused s); [|by apply post_fetch].
  destruct (pausePromise s).
  - destruct Hr as (Hb & Hy & Hp). unfold post, sess_ok, pull_ok. cbn. split_and!; try done; [congruence..|].
    by apply flows_same.
  - apply (post_same s (set_state paused s)); [by apply flows_same|done|].
    by apply (post_fetch true (set_state paused s)).
Qed.

Hypothesis no_sse : startSSE cfg = false.
Hypothesis not_sse : isSSE (firstResponse cfg) && has_body (firstResponse cfg) = false.

Lemma pull_body_yielded now s :
  iterator s = None -> firstResponseYielded s = true -> pull_body cfg now s = pull_long_poll cfg s.
Proof using no_sse.
  intros Hi Hy. unfold pull_body, pull_start_sse, pull_events, bind, get_state.
  rewrite Hy. cbv beta. rewrite no_sse, andb_false_r. cbn [andb]. cbv beta iota. by rewrite Hi.
Qed.

(** The first response comes out of the hand of the session. *)
Definition with_first (s : Session) : Session :=
  set_controller (enqueue (firstResponse cfg) (controller s)).1 (set_firstResponseYielded true s).

Lemma pull_body_first now s :
  firstResponseYielded s = false -> can_enqueue (controller s) = true ->
  pull_body cfg now s =
    (if s_upToDate s && negb (shouldContinue cfg s) then close_session else return_) (with_first s).
Proof using not_sse.
  intros Hy Hc. unfold pull_body, controller_enqueue, upd_controller, return_, bind, modify, get_state.
  rewrite Hy, not_sse. cbn. rewrite Hc. cbn. unfold shouldContinue, s_upToDate. cbn.
  destruct (_ && _); reflexivity.
Qed.

Lemma running_first s :
  base s -> pulling (controller s) = true -> firstResponseYielded s = false -> can_enqueue (controller s) = true ->
  running (with_first s) /\ flows [] s (with_first s).
Proof.
  intros (Hi & Ho & Hcl & Hen) Hp Hy Hc. pose proof Hc as [Hrd Hne%negb_true_iff]%andb_true_iff.
  destruct (enqueue_same (firstResponse cfg) (controller s)) as (Hs & Hcr & _ & Hpl). split.
  - unfold running, base. cbn. rewrite Hs, Hcr.
    split_and!; [done|by apply orderly_enqueue|done|by rewrite Hne|done|by apply Hpl].
  - intros rest ->; [|by left]. exists (pending (with_first s)). split; [|done].
    pose proof (flow_enqueue (firstResponse cfg) (controller s) Ho) as Hf. unfold flow in Hf.
    unfold pending. cbn. by rewrite Hy, !app_nil_r, Hf, app_assoc.
Qed.

Lemma post_pull now s :
  base s -> pulling (controller s) = true -> can_enqueue (controller s) = true ->
  post [] s (run_pull cfg now s).
Proof using All.
  intros Hb Hp Hc. pose proof Hc as [Hrd Hcr%negb_true_iff]%andb_true_iff. unfold run_pull.
  destruct (firstResponseYielded s) eqn:Hy.
  { unfold guarded. pose proof Hb as (Hi & _). rewrite (pull_body_yielded now s Hi Hy).
    by apply (post_long_poll s). }
  unfold guarded. rewrite (pull_body_first now s Hy Hc).
  destruct (running_first s Hb Hp Hy Hc) as [Hw Hf].
  apply (post_same s (with_first s)); [done..|].
  destruct (s_upToDate s && _) eqn:E; [|by apply post_settle].
  apply andb_true_iff in E as [_ E%negb_true_iff]. apply (post_close (with_first s)); [done|by right].
Qed.

(** ** One event *)

(** What an operation of the stream may do to a controller. *)
Record gentle (c c' : Controller Response) : Prop := {
  g_orderly : orderly c -> orderly c';
  g_flow : flow c' = flow c;
  g_close : closeRequested c' = closeRequested c;
  g_status : status c' = status c \/ (status c = readable_ /\ status c' = closed_ /\ closeRequested c = true);
  g_dead : is_readable c = false -> consumed c' = consumed c /\ queue c' = queue c;
}.

Lemma gentle_same c c' :
  queue c' = queue c -> pendingReads c' = pendingReads c -> reads c' = reads c -> status c' = status c ->
  closeRequested c' = closeRequested c -> gentle c c'.
Proof.
  intros Hq Hp Hr Hs Hc. split; unfold orderly, flow, consumed, is_readable; rewrite ?Hq, ?Hp, ?Hr, ?Hs, ?Hc; auto.
Qed.

Lemma gentle_call_pull c d : gentle c d -> gentle c (call_pull_if_needed d).1.
Proof.
  intros [Ho Hf Hc Hs Hd]. destruct (call_pull_same d) as (Hq & Hp & Hr & Hst & Hcr & _).
  split; rewrite ?Hq, ?Hst, ?Hcr, ?flow_call_pull; auto.
  - intros H. by apply orderly_call_pull, Ho.
  - unfold consumed. rewrite Hr. exact Hd.
Qed.

Lemma gentle_read c : gentle c (read_ c).1.
Proof.
  pose proof (flow_read c) as Hf. pose proof (orderly_read c) as Ho.
  destruct (read_cases c) as [(Hr & r & Hv & E)|[(Hs & Hc & x & E)|(Hs & d & E & Hd & Hc & _)]];
    rewrite E in *; cbn [fst] in *.
  - split; [done..|by left|]. intros _. unfold consumed. cbn. rewrite values_app. split; [|done].
    destruct r as [y| |]; [by destruct (Hv y)|by rewrite app_nil_r..].
  - split; [done..|by right|]. unfold is_readable. by rewrite Hs.
  - destruct (call_pull_same d) as (_ & _ & _ & Hst & Hcr & _).
    split; [done|done|congruence|left; congruence|]. unfold is_readable. by rewrite Hs.
Qed.

Lemma gentle_flows s c :
  gentle (controller s) c -> flows [] s (set_controller c s).
Proof.
  intros [Ho Hf Hcr Hs Hd]. destruct (is_readable (controller s)) eqn:Hr.
  - apply flows_flow; cbn; [by rewrite app_nil_r|done|by left|by left].
  - destruct (Hd eq_refl) as [Hc Hq]. apply flows_same; [done|]. unfold intact, pending, is_readable in *. cbn.
    rewrite Hq. destruct Hs as [->|(Hs & _)]; [done|]. by rewrite Hs in Hr.
Qed.

Lemma post_controller now (f : Controller Response -> Controller Response * bool) s :
  let c := (f (controller s)).1 in
  sess_ok s -> gentle (controller s) c ->
  (if (f (controller s)).2 then pull s = NoPull /\ pulling c = true /\ can_enqueue c = true
   else pulling c = false -> pull s = NoPull) ->
  post [] s (on_controller cfg now f s).
Proof using All.
  intros c ((Hi & Ho & Hcl & Hen) & Hpl & Hy & Hp) Hg Hcall. unfold on_controller.
  destruct (f (controller s)) as [c' call] eqn:Hf. cbn in c, Hcall. subst c.
  assert (Hb : base (set_controller c' s)).
  { destruct Hg as [Go _ Gc Gs _]. unfold base. cbn. rewrite Gc. split_and!; [done|by apply Go| |exact Hen].
    destruct Gs as [->|(_ & _ & ->)]; [done|by left]. }
  destruct call.
  - destruct Hcall as (_ & Hpull & Hc). apply (post_same s (set_controller c' s)); [by apply gentle_flows|done|].
    by apply post_pull.
  - pose proof (gentle_flows _ _ Hg) as Hfl. destruct Hg as [_ _ Gc _ _].
    unfold post, sess_ok, pull_ok in *. cbn. rewrite Gc. by split_and!.
Qed.

Lemma pull_call (c : Controller Response) :
  let d := (call_pull_if_needed c).1 in
  (call_pull_if_needed c).2 = true -> pulling c = false /\ pulling d = true /\ can_enqueue d = true.
Proof.
  cbn. pose proof (call_pull_called c) as H. intros E. rewrite E in H. destruct H as (? & ? & H).
  destruct (call_pull_same c) as (_ & _ & _ & Hs & Hcr & _). split_and!; [done..|].
  unfold can_enqueue, is_readable. rewrite Hs, Hcr. exact H.
Qed.

Lemma pull_not_called (c : Controller Response) :
  (call_pull_if_needed c).2 = false -> pulling (call_pull_if_needed c).1 = pulling c.
Proof. intros E. pose proof (call_pull_called c) as H. by rewrite E in H. Qed.

Lemma post_started now s : sess_ok s -> post [] s (on_controller cfg now controller_started s).
Proof using All.
  intros Hok. pose proof Hok as (_ & _ & _ & Hp). unfold controller_started. apply post_controller; [done|..].
  - by apply gentle_call_pull, gentle_same.
  - match goal with |- context [call_pull_if_needed ?a] => set (d := a) end.
    destruct (call_pull_if_needed d).2 eqn:E.
    + apply pull_call in E as (Hd & ? & ?). split_and!; auto.
    + rewrite pull_not_called by done. exact Hp.
Qed.

Lemma post_read now s : sess_ok s -> post [] s (on_controller cfg now read_ s).
Proof using All.
  intros Hok. pose proof Hok as (_ & _ & _ & Hp). apply post_controller; [done|by apply gentle_read|].
  destruct (read_cases (controller s)) as [(_ & r & _ & E)|[(_ & _ & x & E)|(_ & d & E & _ & _ & Hd)]];
    rewrite E; cbn [fst snd]; [exact Hp..|].
  destruct (call_pull_if_needed d).2 eqn:Ec; [apply pull_call in Ec as (H & ? & ?); split_and!; try done; apply Hp; congruence|].
  rewrite pull_not_called by done. by rewrite Hd.
Qed.

Lemma post_reaction now s :
  sess_ok s -> post [] s (on_controller cfg now pull_fulfilled (set_pull NoPull s)).
Proof using All.
  intros (Hb & _ & Hy & Hp). apply (post_same s (set_pull NoPull s)); [by apply flows_same|done|].
  apply post_controller; [by split_and!| |].
  - unfold pull_fulfilled. case_match; [apply gentle_call_pull|]; by apply gentle_same.
  - unfold pull_fulfilled. cbn. destruct (pullAgain (controller s)); [|done].
    match goal with |- context [call_pull_if_needed ?a] => set (d := a) end.
    destruct (call_pull_if_needed d).2 eqn:E; [apply pull_call in E as (Hd & ? & ?); by split_and!|done].
Qed.

Lemma sess_running s : sess_ok s -> pull s <> NoPull -> running s.
Proof.
  intros (Hb & _ & Hy & Hp) Hne. unfold running. split_and!; [done|..].
  - destruct (firstResponseYielded s); [done|]. by destruct Hne; apply Hy.
  - destruct (pulling (controller s)); [done|]. by destruct Hne; apply Hp.
Qed.

Lemma post_refl s : sess_ok s -> post [] s s.
Proof. intros Hok. unfold post. split_and!; [done|by apply flows_same|done]. Qed.

Lemma post_abort_request reason s : sess_ok s -> post [] s (abort_request reason s).
Proof.
  intros Hok. unfold abort_request. destruct (requestAbort s) as [[|]|]; try by apply post_refl.
  unfold post. split_and!; [exact Hok|by apply flows_same|done].
Qed.

Lemma post_resolve s : sess_ok s -> post [] s (resolve_pause s).
Proof.
  intros Hok. assert (H : forall k b, pull s = AwaitPause k b -> sess_ok (set_pull (AwaitPause k true) s)).
  { intros k b Hk. destruct Hok as (Hb & Hpl & Hy & Hp). unfold sess_ok, pull_ok in *. rewrite Hk in *.
    cbn. split_and!; [done|done|by intros ?%Hy|by intros ?%Hp]. }
  unfold resolve_pause, post. split_and!.
  - destruct (pausePromise s); [|exact Hok]. destruct (pull s) eqn:Hk; try exact Hok. by apply (H k resolved).
  - apply flows_same; destruct (pausePromise s), (pull s); try done; auto.
  - by destruct (pausePromise s), (pull s).
Qed.

Lemma post_pause s : sess_ok s -> post [] s (pause_session s).
Proof.
  intros Hok. unfold pause_session. destruct (state s); try by apply post_refl.
  set (s1 := set_pausePromise _ _). apply (post_same s s1); [by apply flows_same|done|].
  apply post_abort_request. exact Hok.
Qed.

Lemma post_resume s : sess_ok s -> post [] s (resume_session s).
Proof.
  intros Hok. unfold resume_session.
  destruct (state s), (aborted s); try by apply post_refl.
  all: set (s1 := set_state active _); apply (post_same s s1); [by apply flows_same|done|];
    apply post_resolve; exact Hok.
Qed.

Lemma post_abort s : sess_ok s -> post [] s (abort_session s).
Proof.
  intros Hok. unfold abort_session. destruct (aborted s) eqn:Ha; [by apply post_refl|].
  set (s1 := set_aborted true s).
  assert (H1 : sess_ok s1).
  { destruct Hok as ((Hi & Ho & _ & Hen) & H). split; [|exact H]. unfold base. split_and!; auto. intros Hc. cbn. destruct (Hen Hc). auto. }
  apply (post_same s s1); [apply flows_same; [done|]|done|].
  { intros [Hr|[_ Hf]]; [split; [by left|done]|done]. }
  destruct (post_abort_request OtherReason s1 H1) as (H2 & Hf2 & Ho2).
  apply (post_same s1 (abort_request OtherReason s1)); [done|done|]. by apply post_resolve.
Qed.

Lemma post_accumulate s : sess_ok s -> post [] s (set_stopAfterUpToDate true s).
Proof.
  intros ((Hi & Ho & Hcl & Hen) & H). unfold post. split_and!; [|by apply flows_same|done].
  split; [|exact H]. unfold base. split_and!; try done. intros Hc. destruct (Hen Hc) as [Hy [Ha|Hs]]; [by auto|].
  split; [done|]. right. unfold shouldContinue, shouldContinueLive in *. cbn.
  destruct (upToDate _); [done|]. by rewrite !andb_false_r in *.
Qed.

Lemma abort_session_same s :
  (forall c, set_controller c (abort_session s) = abort_session (set_controller c s)) /\
  aborted (abort_session s) = true /\ controller (abort_session s) = controller s.
Proof.
  destruct s as [? ? ? ? [] [[|]|] [] ? ? ? ? ? []]; by cbn.
Qed.

Lemma post_cancel s : sess_ok s -> post [] s (cancel_session s).
Proof.
  intros Hok. unfold cancel_session, cancel_. destruct (is_readable (controller s)) eqn:Hr;
    [|by destruct s; apply post_refl].
  set (c := settle_reads _ _ _ _). pose proof (post_abort s Hok) as (Ha & Hf & Ho).
  destruct (abort_session_same s) as (Hc & Hab & Hcon). rewrite <-Hc.
  unfold post. split_and!; [| |exact Ho].
  - destruct Ha as ((Hi & _ & _ & Hen) & Hpl & Hy & Hp). rewrite Hcon in Hp, Hen. unfold pull_ok in Hpl. rewrite Hcon in Hpl.
    unfold sess_ok, base, pull_ok. cbn. split_and!; auto. by apply orderly_settle.
  - apply flows_same; [by apply (consumed_settle Done closed_ [] (controller s))|].
    intros [|[_ H]]; [done|]. cbn in H. congruence.
Qed.

Lemma post_reply r s s' :
  sess_ok s -> pull s = NoPull \/ (exists o c u b, pull s = AwaitFetch o c u b) -> pull s <> NoPull ->
  s' = guarded (after_fetch (Ok r)) s ->
  sess_ok s' /\ flows [r] s s' /\ sync (syncState s') = sync (withResponseMetadata (response_update r) (syncState s)).
Proof.
  intros Hok [?|(o & c & u & b & Hp)] Hne ->; [done|]. pose proof (sess_running s Hok Hne) as Hr.
  set (s1 := set_response r (set_syncState (withResponseMetadata (response_update r) (syncState s)) s)).
  change (guarded (after_fetch (Ok r)) s) with (guarded (yield_response r) s1).
  assert (Hcr : closeRequested (controller s) = false).
  { destruct Hok as (_ & Hpl & _). unfold pull_ok in Hpl. rewrite Hp in Hpl. by destruct Hpl. }
  assert (Hr1 : running s1).
  { destruct Hr as ((Hi & Hor & Hcl & _) & Hy & Hpg). unfold running, base. split_and!; try done.
    cbn. by rewrite Hcr. }
  destruct (post_yield r s1 Hr1 Hcr) as (Hok' & Hf & Ho). split_and!; [done| |].
  - apply (flows_trans [] [r] s s1); [by apply flows_same|done].
  - by rewrite Ho.
Qed.

(** Every event but a reply leaves the offset alone and brings nothing in. *)
Lemma step_post now ev s s' :
  step cfg now ev s = Some s' -> sess_ok s ->
  match ev with
  | FetchReply (Ok r) => sess_ok s' /\ flows [r] s s' /\ sync (syncState s') = sync (withResponseMetadata (response_update r) (syncState s))
  | _ => post [] s s'
  end.
Proof using All.
  intros Hstep Hok. pose proof (sess_running s Hok) as Hrun. pose proof Hok as ((Hi & _) & Hpl & _).
  unfold pull_ok in Hpl. destruct ev.
  - cbn in Hstep. destruct (ReadableStream.started (controller s)); [done|]. injection Hstep as <-. by apply post_started.
  - cbn in Hstep. destruct (pull s) as [|[e|]| | | | | |] eqn:Hp; try done; injection Hstep as <-; [|by apply post_reaction].
    specialize (Hrun ltac:(done)). destruct (post_fail e s Hrun) as (H1 & H2 & H3).
    unfold post. split_and!; [|exact H2|exact H3]. destruct H1 as (Hb & _ & Hy & _). unfold sess_ok. by split_and!.
  - cbn in Hstep. injection Hstep as <-. by apply post_read.
  - cbn in Hstep. injection Hstep as <-. by apply post_cancel.
  - cbn in Hstep. destruct (subscribed s); [|done]. injection Hstep as <-. by apply post_pause.
  - cbn in Hstep. destruct (subscribed s); [|done]. injection Hstep as <-. by apply post_resume.
  - cbn in Hstep. injection Hstep as <-. by apply post_abort.
  - cbn in Hstep. injection Hstep as <-. by apply post_accumulate.
  - cbn in Hstep. destruct (pull s) as [| |k [|]| | | | |] eqn:Hp; try done. injection Hstep as <-. destruct k; try done.
    specialize (Hrun ltac:(done)). unfold guarded. cbn [after_pause]. unfold after_pause_fetch, bind, get_state.
    destruct (aborted s) eqn:Ha; [by apply (post_close s); [|left]|by apply (post_fetch true s)].
  - cbn in Hstep. by destruct (pull s).
  - cbn in Hstep. by destruct (pull s).
  - cbn in Hstep. by destruct (pull s).
  - cbn in Hstep. destruct (pull s) eqn:Hp; try done. injection Hstep as <-.
    destruct r as [r|e].
    + apply (post_reply r s); [done|right; eauto|congruence|done].
    + by apply (post_catch e s), Hrun.
Qed.
End session.
