(* ===== verification/ReadProgress.v ===== *)
(** * A read session never forgets its consumer

    In a session of StreamResponse, in every mode, a waiting read always has a
    [pull] under way, as long as the page is never hidden ([two_pauses_stall] of
    ReadScenarios shows that it can be forgotten otherwise). *)

From S2P Require Import Prelude Text Http ResponseState ReadableStream StreamResponse.
Local Open Scope js_scope.

(** [pull] is running, and was not aborted by a pause. *)
Definition in_pull (s : Session) : Prop :=
  pulling (controller s) = true /\ requestAbort s <> Some (Some PAUSE_STREAM) /\ state s = active.

(** Where [pull] may be between two events. *)
Definition at_await (s : Session) : Prop :=
  match pull s with
  | NoPull | AwaitPause _ _ => False
  | Settled None => should_pull (controller s) = true -> pullAgain (controller s) = true
  | _ => True
  end.

Definition ends_in {A} (Q : Session -> Prop) (m : PM A) (s : Session) : Prop :=
  match m s with
  | (s', Ok _) => in_pull s' /\ Q s'
  | (s', Err _) => in_pull s'
  end.

(** A part of [pull] that goes on, and one that comes to an [await]. *)
Definition goes_on {A} (m : PM A) : Prop := forall s, in_pull s -> ends_in (fun _ => True) m s.
Definition comes_to_await (m : PM unit) : Prop := forall s, in_pull s -> ends_in at_await m s.

Create HintDb await.

Lemma goes_on_modify f : (forall s, in_pull s -> in_pull (f s)) -> goes_on (modify f).
Proof. intros Hf s Hs. split; [by apply Hf|done]. Qed.

Lemma goes_on_ret {A} (a : A) : goes_on (ret a).
Proof. by intros s Hs. Qed.

Lemma goes_on_lift {A} (r : result string A) : goes_on (lift_result r).
Proof. intros s Hs. unfold ends_in, lift_result. by destruct r. Qed.

Lemma await_bind {A} (m : PM A) (k : A -> PM unit) :
  goes_on m -> (forall a, comes_to_await (k a)) -> comes_to_await (bind m k).
Proof.
  intros Hm Hk s Hs. specialize (Hm s Hs). unfold ends_in, bind in *.
  destruct (m s) as [s' [a|e]]; [|done]. apply Hk, Hm.
Qed.

Lemma goes_on_bind {A B} (m : PM A) (k : A -> PM B) :
  goes_on m -> (forall a, goes_on (k a)) -> goes_on (bind m k).
Proof.
  intros Hm Hk s Hs. specialize (Hm s Hs). unfold ends_in, bind in *.
  destruct (m s) as [s' [a|e]]; [|done]. apply Hk, Hm.
Qed.

Lemma await_get (k : Session -> PM unit) :
  (forall s, in_pull s -> ends_in at_await (k s) s) -> comes_to_await (bind get_state k).
Proof. intros Hk s Hs. by apply Hk. Qed.

Lemma await_throw e : comes_to_await (throw e).
Proof. by intros s Hs. Qed.

Lemma await_await p :
  match p with NoPull | Settled _ | AwaitPause _ _ => False | _ => True end -> comes_to_await (await p).
Proof. intros Hp s Hs. split; [exact Hs|]. unfold at_await. cbn. by destruct p. Qed.

#[local] Hint Resolve await_throw goes_on_ret goes_on_lift : await.

(** ** The ends of [pull] *)

Lemma settle_await c s :
  in_pull s -> pulling c = true -> (should_pull c = true -> pullAgain c = true) ->
  in_pull (set_pull (Settled None) (set_controller c s)) /\ at_await (set_pull (Settled None) (set_controller c s)).
Proof. intros (_ & Hr & Hs) Hp Hc. unfold in_pull, at_await. cbn. auto. Qed.

(** While [pull] runs, an enqueued chunk that leaves more to be wanted has [pull]
    called again. *)
Lemma enqueue_again (r : Response) c :
  pulling c = true -> should_pull (enqueue r c).1 = true -> pullAgain (enqueue r c).1 = true.
Proof.
  intros Hp. unfold enqueue. match goal with |- context [call_pull_if_needed ?a] => set (d := a) end.
  assert (Hd : pulling d = true) by (by subst d; destruct (pendingReads c)).
  unfold call_pull_if_needed. destruct (should_pull d) eqn:Hs; [by rewrite Hd|]. cbn. congruence.
Qed.

Lemma close_no_pull (c : Controller Response) : should_pull (close_ c) = false.
Proof. unfold close_, should_pull, can_enqueue, is_readable. cbn. destruct (queue c); cbn; [done|by rewrite andb_false_r]. Qed.

Lemma close_pulling (c : Controller Response) : pulling (close_ c) = pulling c.
Proof. unfold close_. cbn. by destruct (queue c). Qed.

Lemma error_no_pull e (c : Controller Response) : should_pull (error_ e c) = false.
Proof.
  unfold error_, should_pull, can_enqueue. destruct (is_readable c) eqn:E; [done|by rewrite E].
Qed.

Lemma error_pulling e (c : Controller Response) : pulling (error_ e c) = pulling c.
Proof. unfold error_. by destruct (is_readable c). Qed.

Lemma await_close : comes_to_await close_session.
Proof.
  intros s Hs. pose proof Hs as (Hp & _). unfold ends_in, close_session, markClosed, controller_close, upd_controller, return_, bind, modify, get_state.
  cbn. destruct (can_enqueue (controller s)); [|exact Hs].
  apply (settle_await (close_ (controller s)) (markClosed_ s)); [exact Hs|by rewrite close_pulling|by rewrite close_no_pull].
Qed.

Lemma await_fail e : comes_to_await (fail_session e).
Proof.
  intros s Hs. pose proof Hs as (Hp & _).
  apply (settle_await (error_ e (controller s)) (markError_ e s)); [exact Hs|by rewrite error_pulling|by rewrite error_no_pull].
Qed.

Lemma goes_on_enqueue r : goes_on (controller_enqueue r).
Proof.
  intros s Hs. pose proof Hs as (Hp & Hr). unfold ends_in, controller_enqueue, upd_controller, bind, modify, get_state.
  destruct (can_enqueue (controller s)); [|exact Hs]. split; [|done].
  unfold in_pull. cbn. split; [by apply enqueue_same|done].
Qed.

Lemma await_yield r : comes_to_await (yield_response r).
Proof.
  intros s Hs. pose proof Hs as (Hp & _).
  unfold ends_in, yield_response, controller_enqueue, upd_controller, return_, bind, modify, get_state.
  destruct (can_enqueue (controller s)); [|exact Hs].
  apply (settle_await (enqueue r (controller s)).1 s); [exact Hs|by apply enqueue_same|by apply enqueue_again].
Qed.

#[local] Hint Resolve await_close await_fail await_yield : await.

Ltac to_await :=
  repeat first
    [ progress eauto with await
    | apply await_await; exact I
    | apply await_bind; [|intros ?]
    | apply goes_on_bind; [|intros ?]
    | apply goes_on_modify; by intros ? ?
    | case_match ].

Lemma goes_on_new_request : goes_on new_request.
Proof. apply goes_on_modify. intros s (Hp & _ & Hs). by split_and!. Qed.

Lemma goes_on_get : goes_on get_state.
Proof. by intros s Hs. Qed.
#[local] Hint Resolve goes_on_new_request goes_on_get : await.

Section session.
Context (cfg : Config) (now : Z).

Lemma await_start_sse k : comes_to_await (start_sse now k).
Proof. unfold start_sse, markSSEConnectionStart. to_await. Qed.
#[local] Hint Resolve await_start_sse : await.

Lemma goes_on_iterator : goes_on new_iterator.
Proof. unfold new_iterator. to_await. Qed.
#[local] Hint Resolve goes_on_iterator : await.

Lemma await_reconnected k b : k <> ByPull -> comes_to_await (reconnected k b).
Proof. intros Hk. unfold reconnected. destruct k; [done|..]; to_await. Qed.

Lemma await_reconnect_failed k e : comes_to_await (reconnect_failed k e).
Proof. unfold reconnect_failed. to_await. Qed.
#[local] Hint Resolve await_reconnected await_reconnect_failed : await.

Lemma await_try k : k <> ByPull -> comes_to_await (trySSEReconnect cfg now k).
Proof. intros Hk. unfold trySSEReconnect. to_await. Qed.
#[local] Hint Resolve await_try : await.

Lemma await_parts parts o c u cl j k :
  (forall r, comes_to_await (k r)) -> comes_to_await (yield_parts cfg parts o c u cl j k).
Proof. intros Hk. unfold yield_parts. to_await. Qed.
#[local] Hint Resolve await_parts : await.

Lemma await_events e : comes_to_await (processSSEEvents cfg now e).
Proof.
  unfold processSSEEvents, updateStateFromSSEControl. destruct e as [[]|]; to_await.
Qed.

Lemma await_data parts e : comes_to_await (processSSEDataEvent cfg now parts e).
Proof.
  unfold processSSEDataEvent, updateStateFromSSEControl. destruct e as [[]|]; to_await.
Qed.

(** ** Long-polling, events and the whole of [pull] *)

Lemma await_fetch b : comes_to_await (fetch_next b).
Proof. unfold fetch_next. to_await. Qed.
#[local] Hint Resolve await_fetch : await.

Lemma not_paused s : in_pull s -> is_paused s = false.
Proof. intros (_ & _ & Hs). unfold is_paused. by rewrite Hs. Qed.

Lemma await_long_poll : comes_to_await (pull_long_poll cfg).
Proof.
  unfold pull_long_poll. apply await_get. intros s Hs. rewrite (not_paused s Hs).
  destruct (shouldContinue cfg s); [by apply await_fetch|by apply await_close].
Qed.
#[local] Hint Resolve await_long_poll : await.

Lemma await_pull_events : comes_to_await (pull_events cfg now).
Proof.
  unfold pull_events. apply await_get. intros s Hs. rewrite (not_paused s Hs).
  destruct (iterator s); [by apply await_await|by apply await_long_poll].
Qed.
#[local] Hint Resolve await_pull_events : await.

Lemma await_pull_start : comes_to_await (pull_start_sse cfg now).
Proof.
  unfold pull_start_sse. apply await_get. intros s Hs. rewrite (not_paused s Hs).
  destruct (_ && _); [by apply await_start_sse|by apply await_pull_events].
Qed.
#[local] Hint Resolve await_pull_start : await.

Lemma await_first r :
  comes_to_await (do controller_enqueue r ;; let* s := get_state in
    if s_upToDate s && negb (shouldContinue cfg s) then close_session else return_).
Proof.
  intros s Hs. pose proof Hs as (Hp & Hr). unfold ends_in, controller_enqueue, upd_controller, bind, modify, get_state.
  destruct (can_enqueue (controller s)); [|exact Hs].
  set (s1 := set_controller (enqueue r (controller s)).1 s).
  assert (H1 : in_pull s1) by (split; [by apply enqueue_same|exact Hr]).
  destruct (s_upToDate s1 && _); [by apply (await_close s1)|].
  apply (settle_await (enqueue r (controller s)).1 s); [done|by apply enqueue_same|by apply enqueue_again].
Qed.

Lemma goes_on_base64 r : goes_on (updateEncodingFromSSEResponse r).
Proof. unfold updateEncodingFromSSEResponse. to_await. Qed.
#[local] Hint Resolve await_first goes_on_base64 : await.

Lemma await_pull : comes_to_await (pull_body cfg now).
Proof.
  unfold pull_body, markSSEConnectionStart. apply await_get. intros s Hs.
  destruct (firstResponseYielded s); [by apply await_pull_start|].
  revert s Hs. change (comes_to_await (do modify (set_firstResponseYielded true) ;;
    (if isSSE (firstResponse cfg) && has_body (firstResponse cfg) then
      do markSSEConnectionStart now ;; do updateEncodingFromSSEResponse (firstResponse cfg) ;;
      do new_request ;; do new_iterator ;; pull_start_sse cfg now
    else do controller_enqueue (firstResponse cfg) ;; let* s := get_state in
      if s_upToDate s && negb (shouldContinue cfg s) then close_session else return_))).
  unfold markSSEConnectionStart. to_await.
Qed.

(** ** The replies *)

Lemma await_catch e s : in_pull s -> in_pull (pull_catch e s) /\ at_await (pull_catch e s).
Proof.
  intros Hs. pose proof Hs as (Hp & Hr & Ha). unfold pull_catch. rewrite bool_decide_eq_false_2 by done.
  destruct (aborted s); [|by apply (await_fail e s)].
  pose proof (await_close s Hs) as Hc. unfold ends_in in Hc.
  destruct (close_session s) as [s' [[]|e']]; [done|]. by split.
Qed.

Lemma guarded_await m s : comes_to_await m -> in_pull s -> in_pull (guarded m s) /\ at_await (guarded m s).
Proof.
  intros Hm Hs. specialize (Hm s Hs). unfold ends_in, guarded in *.
  destruct (m s) as [s' [[]|e]]; [done|]. by apply await_catch.
Qed.

Lemma await_sse k reply : comes_to_await (after_sse cfg now k reply).
Proof. unfold after_sse. to_await. all: by apply await_reconnected. Qed.

Lemma await_reply reply : comes_to_await (after_fetch reply).
Proof. unfold after_fetch, updateStateFromResponse. to_await. Qed.

Lemma await_next reply k : (forall e, comes_to_await (k e)) -> comes_to_await (after_next reply k).
Proof. intros Hk. unfold after_next. to_await. Qed.

(** ** Any event *)

(** The invariant: while [pull] runs it waits for the network, and while it does
    not, the stream wants nothing. *)
Definition calm (c : Controller Response) : Prop :=
  should_pull c = false /\ (can_enqueue c = true -> pulling c = false).

Definition busy (s : Session) : Prop := pulling (controller s) = true /\ at_await s.

Definition alert (s : Session) : Prop :=
  requestAbort s <> Some (Some PAUSE_STREAM) /\ state s = active /\
  match pull s with NoPull => calm (controller s) | _ => busy s end.

Lemma alert_await s : in_pull s /\ at_await s -> alert s.
Proof. intros [(Hp & Hr & Hs) Ha]. unfold alert, busy, at_await in *. by destruct (pull s). Qed.

Lemma alert_in_pull s : alert s -> pull s <> NoPull -> in_pull s.
Proof. intros (Hr & Hs & Hp) Hne. unfold in_pull. destruct (pull s); [done|..]; by destruct Hp. Qed.

Lemma call_calm (d : Controller Response) :
  (can_enqueue d = true -> pulling d = false) ->
  if (call_pull_if_needed d).2 then pulling (call_pull_if_needed d).1 = true else calm (call_pull_if_needed d).1.
Proof.
  intros Hd. unfold call_pull_if_needed. destruct (should_pull d) eqn:Hs; [|by split].
  assert (Hc : can_enqueue d = true) by (unfold should_pull in Hs; by destruct (can_enqueue d)).
  by rewrite Hd.
Qed.

Lemma call_busy (d : Controller Response) :
  pulling d = true ->
  (call_pull_if_needed d).2 = false /\ pulling (call_pull_if_needed d).1 = true /\
  (should_pull (call_pull_if_needed d).1 = true -> pullAgain (call_pull_if_needed d).1 = true).
Proof.
  intros Hd. unfold call_pull_if_needed. destruct (should_pull d) eqn:Hs; [by rewrite Hd|].
  split_and!; [done|done|]. cbn. congruence.
Qed.

Lemma dead_no_pull (c : Controller Response) : is_readable c = false -> should_pull c = false /\ can_enqueue c = false.
Proof. intros H. unfold should_pull, can_enqueue. by rewrite H. Qed.

Lemma alert_controller f s :
  alert s ->
  (forall c, f c = call_pull_if_needed c \/
     (exists d, f c = call_pull_if_needed d /\ pulling d = pulling c /\ can_enqueue d = can_enqueue c) \/
     ((f c).2 = false /\ is_readable (f c).1 = false /\ pulling (f c).1 = pulling c)) ->
  alert (on_controller cfg now f s).
Proof.
  intros Hal Hf. pose proof Hal as (Hr & Hs & Hp). unfold on_controller.
  assert (Hsplit : pull s = NoPull \/ pull s <> NoPull) by (destruct (pull s); by (left + right)).
  destruct Hsplit as [Hn|Hn].
  - rewrite Hn in Hp. destruct Hp as [Hsp Hcp].
    assert (H : if (f (controller s)).2 then pulling (f (controller s)).1 = true else calm (f (controller s)).1).
    { destruct (Hf (controller s)) as [->|[(d & -> & Hd & Hce)|(-> & Hd & _)]].
      - by apply call_calm.
      - apply call_calm. by rewrite Hd, Hce.
      - unfold calm. by destruct (dead_no_pull _ Hd) as [-> ->]. }
    destruct (f (controller s)) as [c []]; cbn in H.
    + apply alert_await, guarded_await; [apply await_pull|by split_and!].
    + unfold alert. cbn. rewrite Hn. by split_and!.
  - pose proof (alert_in_pull s Hal Hn) as (Hpl & _).
    assert (H : (f (controller s)).2 = false /\ pulling (f (controller s)).1 = true /\
      (should_pull (f (controller s)).1 = true -> pullAgain (f (controller s)).1 = true)).
    { destruct (Hf (controller s)) as [->|[(d & -> & Hd & Hce)|(-> & Hd & ->)]].
      - by apply call_busy.
      - apply call_busy. by rewrite Hd.
      - destruct (dead_no_pull _ Hd) as [-> _]. by split_and!. }
    destruct (f (controller s)) as [c call]; cbn in H. destruct H as (-> & Hpc & Hag).
    unfold alert, busy, at_await in *. cbn. destruct (pull s) as [|[]| | | | | |]; try done; by destruct Hp.
Qed.

Lemma alert_read s : alert s -> alert (on_controller cfg now read_ s).
Proof.
  intros Hal. apply alert_controller; [done|]. intros c.
  destruct (read_cases c) as [(Hr & r & _ & ->)|[(_ & _ & x & ->)|(Hs & d & -> & Hd & Hc & Hp)]].
  - right. right. by cbn.
  - right. right. by cbn.
  - right. left. exists d. split_and!; [done..|]. unfold can_enqueue, is_readable. by rewrite Hs, Hd, Hc.
Qed.

Lemma alert_started s : alert s -> alert (on_controller cfg now controller_started s).
Proof.
  intros Hal. apply alert_controller; [done|]. intros c. right. left. eexists. by split_and!.
Qed.

Lemma alert_reaction s :
  alert s -> pull s = Settled None -> alert (on_controller cfg now pull_fulfilled (set_pull NoPull s)).
Proof.
  intros (Hr & Hs & Hp) Hpull. rewrite Hpull in Hp. destruct Hp as [Hp Ha]. unfold at_await in Ha. rewrite Hpull in Ha.
  unfold on_controller, pull_fulfilled. cbn. destruct (pullAgain (controller s)) eqn:Hag.
  - pose proof (call_calm (set_pulling false false (controller s)) ltac:(done)) as H.
    destruct (call_pull_if_needed _) as [c []]; cbn in H.
    + apply alert_await, guarded_await; [apply await_pull|by split_and!].
    + by unfold alert.
  - unfold alert. cbn. split_and!; [done|done|split; [|done]].
    change (should_pull (set_pulling false false (controller s))) with (should_pull (controller s)).
    destruct (should_pull (controller s)); [by specialize (Ha eq_refl)|done].
Qed.

Lemma alert_abort s : alert s -> alert (abort_session s).
Proof.
  intros (Hr & Hs & Hp). unfold alert, busy, at_await in *.
  destruct s as [? ? ? ? [] [[|]|] [] ? ? ? ? ? []]; cbn in *; try done; by destruct Hp.
Qed.

Lemma alert_cancel s : alert s -> alert (cancel_session s).
Proof.
  intros (Hr & Hs & Hp). unfold cancel_session, cancel_. destruct (is_readable (controller s)); [|by destruct s].
  change (alert (abort_session (set_controller (settle_reads Done closed_ [] (controller s)) s))).
  apply alert_abort. unfold alert, busy, at_await in *. cbn.
  destruct (dead_no_pull (settle_reads Done closed_ [] (controller s)) eq_refl) as [Hd Hc].
  split_and!; [done..|]. destruct (pull s) as [|[]| | | | | |]; unfold calm; rewrite ?Hd, ?Hc; try done; by destruct Hp.
Qed.

Lemma alert_step ev s s' : ev <> Hidden -> step cfg now ev s = Some s' -> alert s -> alert s'.
Proof.
  intros Hev Hst Hal. pose proof (alert_in_pull s Hal) as Hin. pose proof Hal as (Hr & Hs & Hp).
  destruct ev; try done; unfold step in Hst.
  - destruct (ReadableStream.started _); [done|]. injection Hst as <-. by apply alert_started.
  - destruct (pull s) as [|[e|]| | | | | |] eqn:Hpull; try done; injection Hst as <-; [|by apply alert_reaction].
    unfold alert. cbn. split_and!; [done|done|]. unfold pull_rejected. destruct Hp as [Hp _]. split; [apply error_no_pull|].
    unfold error_, can_enqueue. destruct (is_readable (controller s)) eqn:E; [done|by rewrite E].
  - injection Hst as <-. by apply alert_read.
  - injection Hst as <-. by apply alert_cancel.
  - destruct (subscribed s); [|done]. injection Hst as <-. unfold resume_session. by rewrite Hs.
  - injection Hst as <-. by apply alert_abort.
  - by injection Hst as <-.
  - unfold busy, at_await in Hp. destruct (pull s) as [| |k []| | | | |]; try done. by destruct Hp.
  - destruct (pull s) eqn:Hpull; try done. injection Hst as <-.
    apply alert_await, guarded_await; [apply await_start_sse|by apply Hin].
  - destruct (pull s) eqn:Hpull; try done. injection Hst as <-.
    apply alert_await, guarded_await; [apply await_sse|by apply Hin].
  - destruct (pull s) eqn:Hpull; try done.
    + assert (s' = guarded (processSSEEvents cfg now None) s \/ s' = guarded (after_next r (processSSEEvents cfg now)) s)
        as [->| ->] by (destruct (iterator s) as [[]|], r as [[]|]; naive_solver);
        (apply alert_await, guarded_await; [|by apply Hin]); [apply await_events|].
      apply await_next, await_events.
    + assert (s' = guarded (after_next r (processSSEDataEvent cfg now parts)) s) as ->
        by (destruct (iterator s) as [[]|]; naive_solver).
      apply alert_await, guarded_await; [apply await_next, await_data|by apply Hin].
  - destruct (pull s) eqn:Hpull; try done. injection Hst as <-.
    apply alert_await, guarded_await; [apply await_reply|by apply Hin].
Qed.
End session.

Lemma alert_steps cfg evs s s' :
  Forall (fun e => e.2 <> Hidden) evs -> steps cfg evs s = Some s' -> alert s -> alert s'.
Proof.
  revert s. induction evs as [|[now ev] evs IH]; intros s Hevs Hst Hal; [by injection Hst as <-|].
  inversion_clear Hevs as [|? ? Hev Hevs']. cbn in Hst.
  destruct (step cfg now ev s) as [s1|] eqn:Hs1; [|done]. apply (IH s1); [done..|].
  by apply (alert_step cfg now ev s).
Qed.

Lemma alert_new cfg : alert (new_session cfg false).
Proof. done. Qed.

(** [pull] waits for a reply, or is about to be called again. *)
Definition under_way (p : Pull) : bool :=
  match p with NoPull | AwaitPause _ _ => false | _ => true end.

(** C6: in every mode, SSE, its reconnections and its fallback included, whatever
    the replies are and whatever the consumer does: as long as the page has never
    been hidden, a read that waits on a stream that has not ended has a [pull]
    under way that waits for a reply; no read is ever forgotten. *)
Theorem no_read_forgotten cfg evs s :
  Forall (fun e => e.2 <> Hidden) evs -> steps cfg evs (new_session cfg false) = Some s ->
  ReadableStream.started (controller s) = true -> can_enqueue (controller s) = true ->
  (0 < pendingReads (controller s))%nat ->
  under_way (pull s) = true.
Proof.
  intros Hevs Hst Hs Hc Hp. pose proof (alert_steps cfg evs _ s Hevs Hst (alert_new cfg)) as (_ & _ & Hal).
  unfold busy, at_await in Hal. destruct (pull s) eqn:Hpull; try done; [|by destruct Hal].
  destruct Hal as [Hsp _]. unfold should_pull in Hsp. rewrite Hc, Hs in Hsp. cbn [andb] in Hsp.
  apply orb_false_iff in Hsp as [H _]. apply Nat.ltb_ge in H. lia.
Qed.

(** A session with SSE whose connection ended once, and a read that waits. *)
Definition waiting_config : Config :=
  mkConfig (Some "text/plain"%string) live_sse "-1" false "o1" None true false
    (mkResponse 200 [("content-type", "text/plain"); (STREAM_OFFSET_HEADER, "o1");
                     (STREAM_UP_TO_DATE_HEADER, "true")]%string [])
    true (mkResilience 1000 3 100 5000) false.

Definition waiting_run : list (Z * Event) :=
  [(0, Started); (0, PullReaction); (0, Read); (0, SSEReply (Ok (mkResponse 200 [] []))); (0, Read);
   (9, NextReply (Ok None)); (9, DelayOver)].

Lemma no_read_forgotten_witness :
  exists s, steps waiting_config waiting_run (new_session waiting_config false) = Some s /\ under_way (pull s) = true.
Proof.
  eexists. split; [vm_compute; reflexivity|].
  eapply (no_read_forgotten waiting_config waiting_run).
  - by repeat constructor.
  - vm_compute. reflexivity.
  - reflexivity.
  - reflexivity.
  - cbn. lia.
Defined.
