(* ===== verification/ReadDelivery.v ===== *)
(** * A read session against a server

    The session of StreamResponse and a store side by side: the session's
    requests are answered by a server of which only the interface [ReadEndpoint]
    is known, replies are lost, requests fail and are retried, the page is hidden
    and shown, and other clients use the store.  Without SSE. *)

From S2P Require Import Prelude Offsets Producer Text Json Types JsonMode StreamStore StoreLemmas StoreSteps StoreGraph ForkRead StoreTheorems ReaderRuns Http ResponseState ReadableStream StreamResponse ReadSession.

(** ** What a session needs of a server *)

(** [answers ss p q ms off' r]: in the store [ss] a GET of [p] with the query
    [q] may be answered by [r], which stands for the messages [ms] and goes on
    at [off'].  [carries r ms]: the body of [r] is [ms]. *)
Class ReadEndpoint := {
  answers : gmap string Stream -> string -> list (string * string) -> list StreamMessage -> string -> Response -> Prop;
  carries : Response -> list StreamMessage -> Prop;
}.

Class ReadEndpointLaws `{ReadEndpoint} := {
  answers_reader ss p q ms off' r :
    answers ss p q ms off' r -> reader_step p ss (assoc "offset" q) ms off';
  answers_offset ss p q ms off' r :
    answers ss p q ms off' r -> rs_header STREAM_OFFSET_HEADER r = Some off';
  answers_carries ss p q ms off' r : answers ss p q ms off' r -> carries r ms;
  answers_closed ss p q ms off' r :
    answers ss p q ms off' r -> closed_header r = true ->
    exists s, ss !! p = Some s /\ Types.closed s = true /\ off' = currentOffset s;
}.

(** A session, the store, and the answer to its request that is under way. *)
Record World := mkWorld {
  session_ : Session;
  store_ : gmap string Stream;
  wire : option (list StreamMessage * string * Response);
}.

(** Nothing follows the tail of a stream. *)
Lemma window_at_tail p ss s :
  store_ok ss -> ss !! p = Some s -> window (Some (currentOffset s)) (log ss p) = [].
Proof.
  intros Hok Hs. destruct (log_increasing ss p Hok) as [_ Hcur].
  pose proof (contents_stream _ (ok_contents _ Hok) p s Hs) as Hwf%stream_offset_wf.
  rewrite window_wf by done. apply filter_false_nil. eapply list.Forall_impl; [by apply Hcur|].
  intros m Hm. unfold str_lt. cbn in Hm. by rewrite Hm.
Qed.

Definition is_reply_event (ev : Event) : bool := match ev with FetchReply _ => true | _ => false end.

Section delivery.
Context `{ReadEndpoint}.
Context (o : StreamOptions) (base params : list (string * string)) (p : string) (first : Response).

Let cfg : Config := stream_config o first.

Inductive wstep : World -> World -> Prop :=
| w_event now ev s s' ss w :
    is_reply_event ev = false -> step cfg now ev s = Some s' -> wstep (mkWorld s ss w) (mkWorld s' ss w)
| w_serve s ss w off c u b ms off' r :
    pull s = AwaitFetch off c u b ->
    answers ss p (next_query base params (live_mode o) off c u b) ms off' r ->
    wstep (mkWorld s ss w) (mkWorld s ss (Some (ms, off', r)))
| w_reply now s s' ss ms off' r :
    step cfg now (FetchReply (Ok r)) s = Some s' -> wstep (mkWorld s ss (Some (ms, off', r))) (mkWorld s' ss None)
| w_failed now e s s' ss w :
    step cfg now (FetchReply (Err e)) s = Some s' -> wstep (mkWorld s ss w) (mkWorld s' ss None)
| w_store s ss ss' w :
    lives p ss ss' -> wstep (mkWorld s ss w) (mkWorld s ss' w).

Definition first_world (hidden : bool) (ss : gmap string Stream) : World :=
  mkWorld (new_session cfg hidden) ss None.

(** Events of the session alone. *)
Lemma wstep_events evs s s' ss w :
  Forall (fun e => is_reply_event e.2 = false) evs -> steps cfg evs s = Some s' ->
  rtc wstep (mkWorld s ss w) (mkWorld s' ss w).
Proof.
  revert s. induction evs as [|[now ev] evs IH]; intros s Hall Hs; [by injection Hs as ->|].
  inversion_clear Hall as [|? ? Hev Hall']. cbn in Hs. destruct (step cfg now ev s) as [s1|] eqn:E; [|done].
  eapply rtc_l; [by eapply w_event|]. by apply IH.
Qed.

(** ** The invariant *)

(** The stream is closed, and [off] its end. *)
Definition at_end (ss : gmap string Stream) (off : string) : Prop :=
  exists s, ss !! p = Some s /\ Types.closed s = true /\ off = currentOffset s.

(** The session has got the messages [concat mss], and goes on where they end;
    an answer under way goes on from there. *)
Record delivers (ss0 : gmap string Stream) (w : World) : Prop := {
  d_ok : sess_ok cfg (session_ w);
  d_got : exists rest mss ss1,
    Forall2 carries (consumed (controller (session_ w)) ++ rest) mss /\
    (intact (session_ w) -> rest = pending cfg (session_ w)) /\
    session p (Some (start_offset o)) ss0 ss1 (concat mss) (s_offset (session_ w)) /\
    (s_streamClosed (session_ w) = true -> at_end ss1 (s_offset (session_ w))) /\
    match wire w with
    | None => lives p ss1 (store_ w)
    | Some (ms, off', r) =>
        carries r ms /\ rs_header STREAM_OFFSET_HEADER r = Some off' /\
        exists ss2, lives p ss1 ss2 /\ reader_step p ss2 (Some (s_offset (session_ w))) ms off' /\
          (closed_header r = true -> at_end ss2 off') /\ lives p ss2 (store_ w)
    end;
}.

Context `{!ReadEndpointLaws}.
Hypothesis params_fine : params_ok params.
Hypothesis not_sse : live_mode o <> live_sse.
Hypothesis not_event_stream : isSSE first && has_body first = false.

Lemma no_sse : startSSE cfg = false.
Proof using not_sse. unfold cfg. cbn. by destruct (live_mode o). Qed.

Lemma lives_trans a b c : lives p a b -> lives p b c -> lives p a c.
Proof. unfold lives. intros H1 H2. by etrans. Qed.

(** The store seen from the last thing the session got. *)
Lemma wire_lives ss1 ss w s :
  match w with
  | None => lives p ss1 ss
  | Some (ms, off', r) =>
      carries r ms /\ rs_header STREAM_OFFSET_HEADER r = Some off' /\
      exists ss2, lives p ss1 ss2 /\ reader_step p ss2 (Some (s_offset s)) ms off' /\
        (closed_header r = true -> at_end ss2 off') /\ lives p ss2 ss
  end -> lives p ss1 ss.
Proof. destruct w as [[[ms off'] r]|]; [|done]. intros (_ & _ & ss2 & H1 & _ & _ & H2). by eapply lives_trans. Qed.

(** A closed stream stays at its end. *)
Lemma at_end_lives a b off : lives p a b -> is_Some (b !! p) -> at_end a off -> at_end b off.
Proof.
  induction 1 as [|a b c (fresh & Hf & Hab) Hbc IH]; [done|]. intros Hc (s & Hs & Hcl & ->).
  destruct (closed_steps _ _ _ _ _ _ Hab Hf Hs Hcl) as [Hn|(s' & Hs' & Hcl' & _ & Hcur)].
  - rewrite (absent_lives p b c Hbc Hn) in Hc. by destruct Hc.
  - apply IH; [done|]. exists s'. by rewrite Hcur.
Qed.

Lemma window_at_end ss off : store_ok ss -> at_end ss off -> window (Some off) (log ss p) = [].
Proof. intros Hok (s & Hs & _ & ->). by apply window_at_tail. Qed.

Lemma header_offset off' r :
  rs_header STREAM_OFFSET_HEADER r = Some off' -> wf_offset off' ->
  header_or_undefined STREAM_OFFSET_HEADER r = Some off'.
Proof.
  intros Hr [Ht _]%wf_offset_truthy. unfold header_or_undefined. rewrite Hr.
  by destruct off'.
Qed.

Section run.
Context (ss0 : gmap string Stream).
Hypothesis store0_ok : store_ok ss0.
Hypothesis start0_ok : start_ok p ss0 (Some (start_offset o)).

Lemma delivers_quiet s s' ss w w' :
  post cfg [] s s' -> (w' = w \/ w' = None) -> delivers ss0 (mkWorld s ss w) -> delivers ss0 (mkWorld s' ss w').
Proof.
  intros (Hok & Hf & Ho) Hw [_ (rest & mss & ss1 & Hall & Hrest & Hs & Hend & Hwire)]. cbn in *.
  destruct (Hf rest Hrest) as (rest' & Heq & Hrest'). rewrite app_nil_r in Heq.
  split; [exact Hok|]. cbn. exists rest', mss, ss1. unfold s_streamClosed, s_offset in *. rewrite Heq, Ho.
  split_and!; [done..|].
  destruct Hw as [->| ->]; [exact Hwire|]. by apply (wire_lives ss1 ss w s).
Qed.

(** A read at the end of a closed stream stays there. *)
Lemma at_end_reply a b off ms off' :
  store_ok a -> lives p a b -> reader_step p b (Some off) ms off' -> at_end a off -> at_end b off'.
Proof.
  intros Hok Hl (s & Hs & -> & ->) Ha. pose proof (at_end_lives a b off Hl ltac:(by eexists) Ha) as Hb.
  rewrite (window_at_end b off (store_ok_lives _ _ _ Hok Hl) Hb).
  destruct Hb as (s' & Hs' & Hc & _). exists s'. simplify_eq. by split_and!.
Qed.

Lemma delivers_reply s s' ss ms off' r :
  sess_ok cfg s' /\ flows cfg [r] s s' /\
    sync (syncState s') = sync (withResponseMetadata (response_update r) (syncState s)) ->
  delivers ss0 (mkWorld s ss (Some (ms, off', r))) -> delivers ss0 (mkWorld s' ss None).
Proof using All.
  intros (Hok & Hf & Ho) [_ (rest & mss & ss1 & Hall & Hrest & Hs & Hend & Hc & Hh & ss2 & H12 & Hr & Hcl & H2)]. cbn in *.
  destruct (Hf rest Hrest) as (rest' & Heq & Hrest').
  pose proof (session_next _ _ _ _ _ _ _ _ _ Hs H12 Hr) as Hs'.
  destruct (session_inv _ _ _ _ _ _ store0_ok start0_ok Hs') as (_ & _ & (Hwf & _) & _).
  assert (Hoff : s_offset s' = off').
  { unfold s_offset. rewrite Ho. unfold withResponseMetadata. rewrite sync_map_fields. cbn.
    by rewrite (header_offset off'). }
  split; [exact Hok|]. cbn. exists rest', (mss ++ [ms]), ss2. rewrite Hoff. split_and!; [|done| | |exact H2].
  - rewrite Heq, app_assoc. apply Forall2_app; [done|]. by constructor.
  - rewrite concat_app. cbn. by rewrite app_nil_r.
  - unfold s_streamClosed. rewrite Ho. unfold withResponseMetadata. rewrite sync_map_fields. cbn.
    intros [Hc1|Hc2]%orb_true_iff; [|by apply Hcl].
    apply (at_end_reply ss1 ss2 (s_offset s) ms); [|done|done|by apply Hend].
    by destruct (session_inv _ _ _ _ _ _ store0_ok start0_ok Hs).
Qed.

Lemma delivers_step w w' : wstep w w' -> delivers ss0 w -> delivers ss0 w'.
Proof using All.
  intros Hstep Hd. pose proof (d_ok _ _ Hd) as Hok. destruct Hstep as [now ev s s' ss w Hev Hs|s ss w off c u b ms off' r Hp Ha
    |now s s' ss ms off' r Hs|now e s s' ss w Hs|s ss ss' w Hl]; cbn in Hok.
  - pose proof (step_post cfg no_sse not_event_stream now ev s s' Hs Hok) as Hpost.
    apply (delivers_quiet s s' ss w w); [by destruct ev|by left|done].
  - destruct Hd as [_ (rest & mss & ss1 & Hall & Hrest & Hs & Hend & Hwire)]. split; [done|]. cbn in *.
    exists rest, mss, ss1. split_and!; [done|done|done|done|by eapply answers_carries|by eapply answers_offset|].
    exists ss. split_and!; [by apply (wire_lives ss1 ss w s)| |by eapply answers_closed|reflexivity].
    destruct Hok as (_ & Hpl & _). unfold pull_ok in Hpl. rewrite Hp in Hpl. destruct Hpl as [_ <-].
    apply answers_reader in Ha. by rewrite next_query_offset in Ha.
  - pose proof (step_post cfg no_sse not_event_stream now _ s s' Hs Hok) as Hpost. cbn in Hpost.
    by apply (delivers_reply s s' ss ms off' r).
  - pose proof (step_post cfg no_sse not_event_stream now _ s s' Hs Hok) as Hpost. cbn in Hpost.
    apply (delivers_quiet s s' ss w None); [done|by right|done].
  - destruct Hd as [_ (rest & mss & ss1 & Hall & Hrest & Hs & Hend & Hwire)]. split; [done|]. cbn in *.
    exists rest, mss, ss1. split_and!; [done|done|done|done|]. destruct w as [[[ms off'] r]|].
    + destruct Hwire as (? & ? & ss2 & ? & ? & ? & ?). split_and!; [done..|]. exists ss2.
      split_and!; [done..|]. by eapply lives_trans.
    + by eapply lives_trans.
Qed.

Lemma delivers_first hidden ms0 off0 :
  answers ss0 p (first_query base params (start_offset o)) ms0 off0 first ->
  delivers ss0 (first_world hidden ss0).
Proof using All.
  intros Ha. pose proof (answers_reader _ _ _ _ _ _ Ha) as Hr. rewrite first_query_offset in Hr by done.
  pose proof (answers_offset _ _ _ _ _ _ Ha) as Hh.
  assert (Hn : sess_ok cfg (new_session cfg hidden) /\ s_offset (new_session cfg hidden) = off0 /\
               s_streamClosed (new_session cfg hidden) = closed_header first /\
               consumed (controller (new_session cfg hidden)) = [] /\
               pending cfg (new_session cfg hidden) = [first]).
  { assert (Hsess : sess_ok cfg (new_session cfg false)).
    { unfold sess_ok, ReadSession.base, pull_ok, orderly. cbn. split_and!; auto; done. }
    assert (Hoff : s_offset (new_session cfg false) = off0).
    { unfold s_offset. cbn. rewrite Hh. by destruct (live_mode o). }
    assert (Hcl : s_streamClosed (new_session cfg false) = closed_header first).
    { unfold s_streamClosed. cbn. by destruct (live_mode o). }
    destruct hidden; [|by split_and!].
    change (new_session cfg true) with (pause_session (new_session cfg false)).
    destruct (post_pause cfg (new_session cfg false) Hsess) as (H1 & _ & H3).
    unfold s_offset, s_streamClosed in *. rewrite H3. by split_and!. }
  destruct Hn as (Hok & Ho & Hcl & Hc & Hp). split; [done|]. cbn.
  exists [first], [ms0], ss0. rewrite Hc, Ho, Hcl. cbn [app concat]. rewrite app_nil_r. split_and!; [|done| |by eapply answers_closed|reflexivity].
  - constructor; [by eapply answers_carries|constructor].
  - by apply session_first.
Qed.

Lemma delivers_run hidden ms0 off0 w :
  answers ss0 p (first_query base params (start_offset o)) ms0 off0 first ->
  rtc wstep (first_world hidden ss0) w -> delivers ss0 w.
Proof using All.
  intros Ha Hrun. pose proof (delivers_first hidden ms0 off0 Ha) as Hd.
  induction Hrun as [w|w w' w'' Hst _ IH]; [done|]. by apply IH, (delivers_step w).
Qed.

(** What the session has got, and what it has still to read. *)
Lemma delivers_log w :
  delivers ss0 w -> is_Some (store_ w !! p) ->
  exists rest mss,
    Forall2 carries (consumed (controller (session_ w)) ++ rest) mss /\
    (intact (session_ w) -> rest = pending cfg (session_ w)) /\
    window (Some (start_offset o)) (log (store_ w) p) =
      concat mss ++ window (Some (s_offset (session_ w))) (log (store_ w) p) /\
    (s_streamClosed (session_ w) = true -> window (Some (s_offset (session_ w))) (log (store_ w) p) = []).
Proof using All.
  intros [_ (rest & mss & ss1 & Hall & Hrest & Hs & Hend & Hwire)] [st Hst].
  apply wire_lives in Hwire. exists rest, mss. split; [done|]. split; [done|].
  assert (Hr : reader_step p (store_ w) (Some (s_offset (session_ w)))
                 (window (Some (s_offset (session_ w))) (log (store_ w) p))
                 (next_of (window (Some (s_offset (session_ w))) (log (store_ w) p)) st)) by (by exists st).
  pose proof (session_next _ _ _ _ _ _ _ _ _ Hs Hwire Hr) as Hs'.
  destruct (session_inv _ _ _ _ _ _ store0_ok start0_ok Hs') as (Hok' & _ & _ & <- & _). split; [done|].
  intros Hc. apply window_at_end; [done|]. apply (at_end_lives ss1); [done|by eexists|by apply Hend].
Qed.
End run.

(** C4: a read session without SSE, whatever happens to it: the page is hidden and
    shown, requests are aborted, fail or are repeated, the consumer reads and
    cancels when it likes, other clients append to, close and delete streams in
    between.  The responses the consumer has been given are, in order, exactly the
    first messages of the stream after the session's start offset, none missing and
    none twice.  And as long as the session has not failed or been cancelled, what
    follows them is what is in the queue, and then exactly what the stream has after
    the session's [offset].  Between the requests the store moves by the steps of the
    abstract store, which the safe operations of C2's other clients are: no stream
    outgrows the safe integers, fork offsets are the server's own, no create meets an
    expired stream that is or has a fork; and the path itself is not created anew.
    The start offset is -1 or one of the server's that is not past the end. *)
Theorem session_reads_log hidden ss0 ms0 off0 s ss w :
  store_ok ss0 -> start_ok p ss0 (Some (start_offset o)) ->
  answers ss0 p (first_query base params (start_offset o)) ms0 off0 first ->
  rtc wstep (first_world hidden ss0) (mkWorld s ss w) -> is_Some (ss !! p) ->
  exists got rest,
    Forall2 carries (consumed (controller s)) got /\
    window (Some (start_offset o)) (log ss p) = concat got ++ rest /\
    (intact s -> exists queued, Forall2 carries (pending cfg s) queued /\
       rest = concat queued ++ window (Some (s_offset s)) (log ss p)).
Proof using All.
  intros Hok Hstart Ha Hrun Hp. pose proof (delivers_run ss0 Hok Hstart hidden ms0 off0 _ Ha Hrun) as Hd.
  destruct (delivers_log ss0 Hok Hstart _ Hd Hp) as (rest & mss & Hall & Hrest & Hlog & _). cbn in *.
  apply Forall2_app_inv_l in Hall as (got & queued & Hgot & Hq & ->).
  exists got, (concat queued ++ window (Some (s_offset s)) (log ss p)). split_and!; [done| |].
  - by rewrite Hlog, concat_app, app_assoc.
  - intros Hi. exists queued. by rewrite <-(Hrest Hi).
Qed.

(** C5: a read session that follows the stream (long-polling) ends by itself only
    when it has seen the stream closed, or was told to stop once up to date and
    is.  Then the consumer has been given everything up to the session's [offset];
    that is everything the stream holds after the start offset, if it was closed. *)
Theorem session_ends_complete hidden ss0 ms0 off0 s ss w :
  store_ok ss0 -> start_ok p ss0 (Some (start_offset o)) -> live_mode o <> live_false ->
  answers ss0 p (first_query base params (start_offset o)) ms0 off0 first ->
  rtc wstep (first_world hidden ss0) (mkWorld s ss w) -> is_Some (ss !! p) ->
  status (controller s) = closed_ -> aborted s = false ->
  (s_streamClosed s = true \/ stopAfterUpToDate s = true /\ s_upToDate s = true) /\
  exists got rest, Forall2 carries (consumed (controller s)) got /\
    window (Some (start_offset o)) (log ss p) = concat got ++ rest /\
    rest = window (Some (s_offset s)) (log ss p) /\
    (s_streamClosed s = true -> rest = []).
Proof using All.
  intros Hok Hstart Hlive Ha Hrun Hp Hst Hab.
  pose proof (delivers_run ss0 Hok Hstart hidden ms0 off0 _ Ha Hrun) as Hd.
  destruct (d_ok _ _ Hd) as ((_ & Ho & Hcr & Hend) & _). cbn in *.
  destruct (Hcr Hst) as [Hc|]; [|congruence]. destruct (Hend Hc) as [Hy [|Hsc]]; [congruence|]. split.
  { unfold shouldContinue, shouldContinueLive in Hsc. cbn in Hsc.
    destruct (stopAfterUpToDate s && _) eqn:E; [right; by apply andb_true_iff in E|left].
    by destruct (live_mode o); [|apply negb_false_iff in Hsc..]. }
  destruct (delivers_log ss0 Hok Hstart _ Hd Hp) as (rest & mss & Hall & Hrest & Hlog & Hw). cbn in *.
  rewrite Hrest in Hall by (by right). unfold pending in Hall. rewrite Hy in Hall.
  destruct Ho as (_ & Hd' & _). unfold is_readable in Hd'. rewrite Hst in Hd'.
  destruct (Hd' eq_refl) as [Hq _]. rewrite Hq, !app_nil_r in Hall. eauto 10.
Qed.
End delivery.
