(* ===== verification/ReadServer.v ===== *)
(** * The reference server as the endpoint of a read session

    The replies of [handleRead] of Server to catch-up reads and to long-polls are
    answers in the sense of [ReadEndpoint]: those given at once, the one at the
    tail of a closed stream, and those given when the wait is over.  Replies with
    a content coding are left out: [fetch] undoes it. *)

From S2P Require Import Prelude Offsets Producer Text Json Types JsonInstance JsonMode StreamStore StoreLemmas StoreSteps StoreGraph ForkRead StoreTheorems ReaderRuns Cursor PathEncoding Sse Http Server ServerReads ResponseState ReadableStream StreamResponse ReadSession ReadDelivery.
Local Open Scope js_scope.

(** The body [formatResponse] makes of messages of a stream with the content type [ct]. *)
Definition format_as `{JsonLib} (ct : option string) (ms : list StreamMessage) : option bytes :=
  if String.eqb (normalizeContentType ct) "application/json" then formatJsonMessages ms
  else Some (concat (map msg_data ms)).

Section server.
Context `{!JsonLib} `{!DateLib} `{!ZlibLib}.
Context (options : ServerOptions) (rnd : Z) (positions : list nat) (ct : option string).

(** How a long-poll for messages after [off] may end, in the store [ss]: with
    what has been appended, because the stream was closed at [off], or after
    the timeout, with nothing new. *)
Inductive wait_result (ss : gmap string Stream) (p off : string) (s : Stream) : LongPollResult -> Prop :=
| wait_woken :
    window (Some off) (log ss p) <> [] ->
    wait_result ss p off s (mkLongPollResult (window (Some off) (log ss p)) false None)
| wait_closed :
    Types.closed s = true -> off = currentOffset s -> wait_result ss p off s (mkLongPollResult [] false (Some true))
| wait_timeout : off = currentOffset s -> wait_result ss p off s (mkLongPollResult [] true None).

Inductive server_answers (ss : gmap string Stream) (p : string) (q : list (string * string))
    (ms : list StreamMessage) (off' : string) (r : Response) : Prop :=
| answered_at_once now req sv sv' s off l cursor :
    streams (store sv) = ss -> store_ok ss -> readable now p s (store sv) -> Types.contentType s = ct ->
    rq_query req = q -> req_header "if-none-match" req = None ->
    parse_read req = Ok (off, l, cursor) -> is_live l "sse" = false -> off <> Some "now"%string ->
    ms = window off (log ss p) -> off' = next_of ms s -> is_live l "long-poll" = false \/ ms <> [] ->
    is_Some (format_as ct ms) ->
    handleRead options now rnd positions p req None sv = (sv', Ok (Replied r)) ->
    rs_header "content-encoding" r = None ->
    server_answers ss p q ms off' r
| answered_closed now req sv sv' s off cursor :
    streams (store sv) = ss -> store_ok ss -> readable now p s (store sv) -> Types.closed s = true ->
    rq_query req = q -> parse_read req = Ok (Some off, Some "long-poll"%string, cursor) ->
    off = currentOffset s -> ms = [] -> off' = off ->
    handleRead options now rnd positions p req None sv = (sv', Ok (Replied r)) ->
    server_answers ss p q ms off' r
| answered_after_wait now c sv sv' s off res :
    streams (store sv) = ss -> store_ok ss -> readable now p s (store sv) -> Types.contentType s = ct ->
    assoc "offset" q = Some off -> wf_offset off ->
    rc_path c = p -> rc_effectiveOffset c = Some off -> rc_ifNoneMatch c = None -> rc_fault c = None ->
    wait_result ss p off s res ->
    ms = lr_messages res -> off' = next_of ms s -> is_Some (format_as ct ms) ->
    after_wait options now rnd positions c s res sv = (sv', Ok r) ->
    rs_header "content-encoding" r = None ->
    server_answers ss p q ms off' r.

#[export] Instance server_reads : ReadEndpoint := {|
  answers := server_answers;
  carries r ms := (ms = [] /\ rs_body r = []) \/ format_as ct ms = Some (rs_body r);
|}.

Lemma assoc_query (q : list (string * string)) k req :
  rq_query req = q -> query_get k req = assoc k q.
Proof.
  intros <-. unfold query_get, query_all. induction (rq_query req) as [|[k' v] l IH]; [done|].
  rewrite filter_cons. cbn. destruct (decide (k' = k)) as [->|Hne].
  - by rewrite String.eqb_refl.
  - rewrite (proj2 (String.eqb_neq _ _)) by congruence. exact IH.
Qed.

Lemma parse_read_query req off l cursor :
  parse_read req = Ok (off, l, cursor) -> off = query_get "offset" req.
Proof. unfold parse_read. intros Hp. repeat case_match; by simplify_eq. Qed.

(** The parts of a full reply that a session looks at. *)
Lemma reply_parts c s off' body r :
  rc_ifNoneMatch c = None -> is_reply c s off' body r -> rs_header "content-encoding" r = None ->
  rs_header STREAM_OFFSET_HEADER r = Some off' /\ rs_body r = body /\
  (closed_header r = true -> Types.closed s = true /\ off' = currentOffset s).
Proof.
  intros Hn [_ Hr] Hce. rewrite Hn, bool_decide_eq_false_2 in Hr by done.
  destruct Hr as (_ & Ho & _ & Hc & Hb). rewrite Hce in Hb. split_and!; [done..|].
  unfold closed_header. rewrite Hc. destruct (Types.closed s && _) eqn:E; [|done]. intros _.
  apply andb_true_iff in E as [-> E%bool_decide_eq_true]. done.
Qed.

(** The reply at the tail of a closed stream. *)
Lemma closed_reply_eq now p req sv sv' s cursor r :
  store_ok (streams (store sv)) -> readable now p s (store sv) -> Types.closed s = true ->
  parse_read req = Ok (Some (currentOffset s), Some "long-poll"%string, cursor) ->
  handleRead options now rnd positions p req None sv = (sv', Ok (Replied r)) ->
  r = reply_closed s /\ window (Some (currentOffset s)) (log (streams (store sv)) p) = [].
Proof.
  intros Hok Hr Hcl Hparse. pose proof Hr as (Hl & Hsd & _). destruct Hl as [Hs _].
  pose proof (contents_stream _ (ok_contents _ Hok) p s Hs) as Hwf%stream_offset_wf.
  assert (Hw : window (Some (currentOffset s)) (log (streams (store sv)) p) = []).
  { by apply window_at_tail. }
  assert (Hnow : currentOffset s <> "now"%string).
  { destruct Hwf as (n & Hn & ->). rewrite mk_offset_fixed by done. rewrite string_app_cons. discriminate. }
  unfold handleRead. rewrite (bind_on_store_call _ _ sv (store sv) (Some s)) by (by apply get_live; apply Hr).
  rewrite set_store_same, Hsd, Hparse, bool_decide_eq_false_2 by congruence.
  change (is_live (Some "long-poll"%string) "sse") with false. cbn [andb].
  unfold read_or_poll. cbn [rc_path rc_effectiveOffset rc_offset rc_live].
  rewrite (bind_on_store _ _ sv (store sv) []) by (rewrite <-Hw; apply (read_window_any now p s); [done|apply Hr]).
  rewrite set_store_same, bind_on_store_do.
  rewrite bool_decide_eq_true_2 by done. rewrite (proj1 (wf_offset_truthy _ Hwf)).
  cbn. rewrite Hcl. intros [= _ <-]. done.
Qed.

Lemma after_wait_reply now p c sv sv' s off res r :
  store_ok (streams (store sv)) -> readable now p s (store sv) -> Types.contentType s = ct ->
  rc_path c = p -> rc_effectiveOffset c = Some off -> rc_ifNoneMatch c = None -> rc_fault c = None ->
  wait_result (streams (store sv)) p off s res -> is_Some (format_as ct (lr_messages res)) ->
  after_wait options now rnd positions c s res sv = (sv', Ok r) -> rs_header "content-encoding" r = None ->
  lr_messages res = window (Some off) (log (streams (store sv)) p) /\
  rs_header STREAM_OFFSET_HEADER r = Some (next_of (lr_messages res) s) /\
  ((lr_messages res = [] /\ rs_body r = []) \/ format_as ct (lr_messages res) = Some (rs_body r)) /\
  (closed_header r = true -> Types.closed s = true /\ next_of (lr_messages res) s = currentOffset s).
Proof.
  intros Hok Hr Hct <- Heff Hn Hf Hres [body Hbody] Hrun Hce. pose proof Hr as ((Hs & _) & _).
  unfold after_wait in Hrun. rewrite bind_on_store_do, Heff in Hrun.
  destruct Hres as [Hne|Hcl ->| ->]; cbn [lr_messages lr_streamClosed lr_timedOut or_else] in *.
  - destruct (finish_read_reply options now rnd positions c s (set_lastAccessedAt now s) _ body
      (touched now (rc_path c) sv) (live_touch now _ s _ Hr) eq_refl eq_refl Hf
      ltac:(unfold format_body; by rewrite <-Hct in Hbody)) as (r' & Hfin & Hrep).
    unfold touched in Hfin. rewrite Hfin in Hrun. injection Hrun as _ <-.
    destruct (reply_parts _ _ _ _ _ Hn Hrep Hce) as (Ho & <- & Hc). split_and!; [done|exact Ho|by right|exact Hc].
  - rewrite (window_at_tail (rc_path c) _ s Hok Hs). injection Hrun as _ <-. split_and!; [done|done|by left|done].
  - rewrite (window_at_tail (rc_path c) _ s Hok Hs).
    rewrite (bind_on_store_call _ _ _ _ (Some (set_lastAccessedAt now s))) in Hrun
      by (apply get_live, live_touch; exact Hr).
    injection Hrun as _ <-. split_and!; [done|done|by left|]. cbn. by destruct (Types.closed s).
Qed.

Lemma at_once_reply now p req sv sv' s off l cursor r :
  store_ok (streams (store sv)) -> readable now p s (store sv) -> Types.contentType s = ct ->
  req_header "if-none-match" req = None -> parse_read req = Ok (off, l, cursor) ->
  is_live l "sse" = false -> off <> Some "now"%string ->
  let ms := window off (log (streams (store sv)) p) in
  is_live l "long-poll" = false \/ ms <> [] -> is_Some (format_as ct ms) ->
  handleRead options now rnd positions p req None sv = (sv', Ok (Replied r)) ->
  rs_header "content-encoding" r = None ->
  rs_header STREAM_OFFSET_HEADER r = Some (next_of ms s) /\ format_as ct ms = Some (rs_body r) /\
  (closed_header r = true -> Types.closed s = true /\ next_of ms s = currentOffset s).
Proof.
  intros Hok Hr Hct Hn Hparse Hsse Hnow ms Hpoll [body Hbody] Hrun Hce. pose proof Hr as ((Hs & _) & _).
  destruct (handleRead_reply options now rnd positions p req sv s off l cursor body Hok Hr Hparse Hsse Hnow Hpoll
    ltac:(unfold format_body; by rewrite Hct)) as (off' & r' & Hrun' & (s' & Hs' & _ & Hoff) & Hrep).
  rewrite Hrun' in Hrun. injection Hrun as _ <-. assert (s' = s) as -> by congruence. fold ms in Hoff. subst off'.
  destruct (reply_parts (cont_of p req off off l cursor) _ _ _ _ Hn Hrep Hce) as (Ho & Hb & Hc). split_and!; [done|by rewrite Hb|done].
Qed.

#[export] Instance server_reads_laws : ReadEndpointLaws.
Proof.
  assert (Hlaw : forall ss p q ms off' r, server_answers ss p q ms off' r ->
    reader_step p ss (assoc "offset" q) ms off' /\ rs_header STREAM_OFFSET_HEADER r = Some off' /\
    ((ms = [] /\ rs_body r = []) \/ format_as ct ms = Some (rs_body r)) /\
    (closed_header r = true -> exists s, ss !! p = Some s /\ Types.closed s = true /\ off' = currentOffset s)).
  { intros ss p q ms off' r [now req sv sv' s off l cursor <- Hok Hr Hct Hq Hn Hparse Hsse Hnow -> -> Hpoll Hb Hrun Hce
      |now req sv sv' s off cursor <- Hok Hr Hcl Hq Hparse -> -> -> Hrun
      |now c sv sv' s off res <- Hok Hr Hct Hq Hwf Hp Heff Hn Hf Hres -> -> Hb Hrun Hce];
      pose proof Hr as ((Hs & _) & _).
    - rewrite <-(assoc_query q _ req Hq), <-(parse_read_query req off l cursor Hparse).
      destruct (at_once_reply now p req sv sv' s off l cursor r Hok Hr Hct Hn Hparse Hsse Hnow Hpoll Hb Hrun Hce)
        as (Ho & Hf & Hc). split_and!; [by exists s|done|by right|]. intros Hx. exists s. by destruct (Hc Hx).
    - rewrite <-(assoc_query q _ req Hq), <-(parse_read_query req _ _ _ Hparse).
      destruct (closed_reply_eq now p req sv sv' s cursor r Hok Hr Hcl Hparse Hrun) as [-> Hw].
      split_and!; [by exists s; rewrite Hw|done|by left|]. intros _. by exists s.
    - destruct (after_wait_reply now p c sv sv' s off res r Hok Hr Hct Hp Heff Hn Hf Hres Hb Hrun Hce)
        as (Hms & Ho & Hc & Hcl). split_and!; [exists s; by rewrite Hq, <-Hms|done|done|].
      intros Hx. exists s. by destruct (Hcl Hx). }
  split; intros ss p q ms off' r Ha; by destruct (Hlaw ss p q ms off' r Ha) as (? & ? & ? & ?).
Qed.
End server.
