(* ===== verification/ReadScenarios.v ===== *)
(** * A read session with the reference server

    A session on ["/b"] of the history of StoreTheorems: the page is hidden while
    it polls, meanwhile another client appends a last message and closes the
    stream, the page is shown again, and the session reads on to the end. *)

From S2P Require Import Prelude Offsets Producer Text Json Types JsonInstance JsonMode StreamStore StoreLemmas StoreSteps StoreGraph ForkRead StoreTheorems ReaderRuns Cursor PathEncoding Sse Http Server ServerReads Scenarios ResponseState ReadableStream StreamResponse ReadSession ReadDelivery ReadServer.

#[local] Existing Instance integer_json.
#[local] Existing Instance decimal_date.
#[local] Instance no_coding : ZlibLib := fun _ b => b.

Definition plain_text : option string := Some "text/plain"%string.

#[local] Existing Instance server_reads.

Definition reader_options : StreamOptions :=
  mkStreamOptions None (Some live_long_poll) false (mkResilience 1000 3 100 5000).

(** The first request and its reply. *)
Definition get_b (q : list (string * string)) : Request := mkRequest "GET" "/b" q ∅ [].

Definition reply_b (now : Z) (q : list (string * string)) (st : StreamStore) : Response :=
  replied (handleRead options now 0 [] "/b" (get_b q) None (server_of st)).

Definition first_b : Response := reply_b 7 [("offset", "-1")]%string final.

Definition session_b : Config := stream_config reader_options first_b.

(** Another client's last message. *)
Definition closed_b : StreamStore := exec 8 (OAppend "/b" (text "bye") closing_append) final.

Definition after_events (evs : list (Z * Event)) (s : Session) : Session :=
  or_else (steps session_b evs s) s.

Definition polling_b : Session :=
  after_events [(7, Started); (7, PullReaction); (7, Read); (7, Hidden)] (new_session session_b false).
Definition paused_b : Session :=
  after_events [(8, FetchReply (Err "aborted"%string)); (8, PullReaction); (8, Read); (9, Visible); (9, PauseReaction)] polling_b.

Definition resumed_query : list (string * string) := [("offset", mk_offset 20)]%string.
Definition last_b : Response := reply_b 9 resumed_query closed_b.
Definition bye : StreamMessage := mkStreamMessage (text "bye") (mk_offset 28) 8.

Definition ended_b : Session :=
  after_events [(9, FetchReply (Ok last_b)); (9, PullReaction); (9, Read)] paused_b.

Example session_b_reads :
  map (fun r => of_chars (rs_body r)) (consumed (controller ended_b)) = ["hellothere"; "bye"]%string /\
  reads (controller ended_b) = [Value first_b; Value last_b; Done] /\ closed ended_b = ClosedResolved.
Proof. vm_compute. split_and!; reflexivity. Qed.

Lemma closed_b_ok : store_ok (streams closed_b).
Proof.
  apply (exec_ok 8 (OAppend "/b" (text "bye") closing_append)); [apply final_ok|].
  apply op_safeb_sound. vm_compute. reflexivity.
Qed.

Lemma lives_b : lives "/b" (streams final) (streams closed_b).
Proof.
  apply (lives_once _ (created (OAppend "/b" (text "bye") closing_append))); [|discriminate].
  apply (exec_steps 8 true (OAppend "/b" (text "bye") closing_append)). intros _.
  apply op_safeb_sound. vm_compute. reflexivity.
Qed.

(** A reply of the server that was given at once is an answer. *)
Lemma reply_b_answers now q st s off l ms off' :
  store_ok (streams st) -> readable now "/b" s st -> Types.contentType s = plain_text ->
  parse_read (get_b q) = Ok (off, l, None) -> is_live l "sse" = false -> off <> Some "now"%string ->
  window off (log (streams st) "/b") = ms -> next_of ms s = off' -> is_live l "long-poll" = false \/ ms <> [] ->
  (exists sv, handleRead options now 0 [] "/b" (get_b q) None (server_of st) = (sv, Ok (Replied (reply_b now q st)))) ->
  rs_header "content-encoding" (reply_b now q st) = None ->
  @answers (server_reads options 0 [] plain_text) (streams st) "/b" q ms off' (reply_b now q st).
Proof.
  intros Hok Hr Hct Hp Hsse Hnow <- <- Hpoll [sv Hrun] Hce.
  eapply (answered_at_once options 0 [] plain_text _ _ _ _ _ _ now (get_b q) (server_of st) sv s off l None); try done.
Qed.

Lemma first_b_answers :
  @answers (server_reads options 0 [] plain_text) (streams final) "/b" [("offset", "-1")]%string
    [hello; there] (mk_offset 20) first_b.
Proof.
  apply (reply_b_answers 7 _ final (found final "/b") (Some "-1"%string) None); try (vm_compute; reflexivity).
  - apply final_ok.
  - exact final_readable.
  - discriminate.
  - by left.
  - eexists. vm_compute. reflexivity.
Qed.

Lemma last_b_answers :
  @answers (server_reads options 0 [] plain_text) (streams closed_b) "/b" resumed_query [bye] (mk_offset 28) last_b.
Proof.
  apply (reply_b_answers 9 _ closed_b (found closed_b "/b") (Some (mk_offset 20)) None); try (vm_compute; reflexivity).
  - exact closed_b_ok.
  - vm_compute. done.
  - vm_compute. discriminate.
  - by left.
  - eexists. vm_compute. reflexivity.
Qed.

Lemma session_b_run :
  rtc (@wstep (server_reads options 0 [] plain_text) reader_options [] [] "/b" first_b)
    (first_world reader_options first_b false (streams final)) (mkWorld ended_b (streams closed_b) None).
Proof.
  transitivity (mkWorld polling_b (streams final) None).
  { apply (wstep_events _ _ _ _ _ [(7, Started); (7, PullReaction); (7, Read); (7, Hidden)]); [by repeat constructor|].
    vm_compute. reflexivity. }
  set (failed := after_events [(8, FetchReply (Err "aborted"%string))] polling_b).
  eapply rtc_l; [apply (w_failed _ _ _ _ _ 8 "aborted" polling_b failed); vm_compute; reflexivity|].
  transitivity (mkWorld paused_b (streams final) None).
  { apply (wstep_events _ _ _ _ _ [(8, PullReaction); (8, Read); (9, Visible); (9, PauseReaction)]); [by repeat constructor|].
    vm_compute. reflexivity. }
  eapply rtc_l; [apply w_store, lives_b|].
  eapply rtc_l; [eapply w_serve; [vm_compute; reflexivity|exact last_b_answers]|].
  set (replied_ := after_events [(9, FetchReply (Ok last_b))] paused_b).
  eapply rtc_l; [apply (w_reply _ _ _ _ _ 9 paused_b replied_); vm_compute; reflexivity|].
  apply (wstep_events _ _ _ _ _ [(9, PullReaction); (9, Read)]); [by repeat constructor|].
  vm_compute. reflexivity.
Qed.

(** The theorems of ReadDelivery at this run, in the middle and at the end. *)
Lemma session_b_middle :
  rtc (@wstep (server_reads options 0 [] plain_text) reader_options [] [] "/b" first_b)
    (first_world reader_options first_b false (streams final)) (mkWorld polling_b (streams final) None).
Proof.
  apply (wstep_events _ _ _ _ _ [(7, Started); (7, PullReaction); (7, Read); (7, Hidden)]); [by repeat constructor|].
  vm_compute. reflexivity.
Qed.

Lemma session_reads_log_witness :
  exists got rest,
    Forall2 (@carries (server_reads options 0 [] plain_text)) (consumed (controller polling_b)) got /\
    window (Some "-1"%string) (log (streams final) "/b") = concat got ++ rest.
Proof.
  destruct (@session_reads_log (server_reads options 0 [] plain_text) reader_options [] [] "/b" first_b
    (server_reads_laws options 0 [] plain_text) (List.Forall_nil _) ltac:(discriminate)
    ltac:(vm_compute; reflexivity) false (streams final) [hello; there] (mk_offset 20) polling_b (streams final) None)
    as (got & rest & H1 & H2 & _).
  - apply final_ok.
  - right. left. reflexivity.
  - exact first_b_answers.
  - exact session_b_middle.
  - vm_compute. eexists. reflexivity.
  - exists got, rest. split; [exact H1|exact H2].
Defined.

Lemma session_ends_complete_witness :
  exists got,
    Forall2 (@carries (server_reads options 0 [] plain_text)) (consumed (controller ended_b)) got /\
    window (Some "-1"%string) (log (streams closed_b) "/b") = concat got.
Proof.
  destruct (@session_ends_complete (server_reads options 0 [] plain_text) reader_options [] [] "/b" first_b
    (server_reads_laws options 0 [] plain_text) (List.Forall_nil _) ltac:(discriminate)
    ltac:(vm_compute; reflexivity) false (streams final) [hello; there] (mk_offset 20) ended_b (streams closed_b) None)
    as (_ & got & rest & H1 & H2 & _ & H3).
  - apply final_ok.
  - right. left. reflexivity.
  - discriminate.
  - exact first_b_answers.
  - exact session_b_run.
  - vm_compute. eexists. reflexivity.
  - vm_compute. reflexivity.
  - vm_compute. reflexivity.
  - exists got. split; [exact H1|]. etransitivity; [exact H2|].
    rewrite H3; [apply app_nil_r|]. vm_compute. reflexivity.
Defined.

(** * Runs of a read session that go wrong

    Each is a run of the session of StreamResponse on concrete replies. *)

(** A catch-up reply of the server, and the head of an SSE reply. *)
Definition catch_up (body next : string) (upToDate : bool) : Response :=
  mkResponse 200 ([("content-type", "text/plain"); (STREAM_OFFSET_HEADER, next)]
                  ++ when upToDate (STREAM_UP_TO_DATE_HEADER, "true"%string)) (encode_text body).

Definition sse_reply : result string Response :=
  Ok (mkResponse 200 [("content-type", "text/event-stream")] []).

Definition a_config (mode : LiveMode) (first : Response) (next : string) (upToDate : bool) : Config :=
  mkConfig (Some "text/plain"%string) mode "-1" false next None upToDate false first
    (match mode with live_sse => true | _ => false end)
    (mkResilience 1000 3 100 5000) false.

Definition bodies (s : Session) : list string := map (fun r => of_chars (rs_body r)) (consumed (controller s)).

Definition run_session (cfg : Config) (evs : list (Z * Event)) : option Session := steps cfg evs (new_session cfg false).

(** The first response, the transition to SSE, and the first connection. *)
Definition sse_config : Config := a_config live_sse (catch_up "" "o1" true) "o1" true.

Definition sse_opening : list (Z * Event) :=
  [(0, Started); (0, PullReaction); (0, Read); (0, SSEReply sse_reply); (0, Read)].

Definition control (next : string) : ClientEvent :=
  ControlEvent (mkControl next None (Some true) None).

(** A connection that ends between a data event and its control event: the data
    is given to the consumer, but the session goes on from the offset before it,
    and gets it again. *)
Definition cut_run : list (Z * Event) :=
  sse_opening ++
  [(0, NextReply (Ok (Some (DataEvent "hello")))); (5000, NextReply (Ok None)); (5000, SSEReply sse_reply);
   (5000, PullReaction); (5000, Read);
   (5000, NextReply (Ok (Some (DataEvent "hello")))); (5000, NextReply (Ok (Some (control "o2"))))].

Example cut_connection_duplicates :
  (exists s, run_session sse_config (take 7 cut_run) = Some s /\
     exists r, pull s = AwaitSSE (ByCut r) "o1" None /\ rs_body r = encode_text "hello") /\
  (bodies <$> run_session sse_config cut_run = Some [""; "hello"; "hello"]%string).
Proof. split; [|vm_compute; reflexivity]. vm_compute. eexists. split; [reflexivity|]. eexists. split; reflexivity. Qed.

(** The fallback to long-polling after short connections ends the session. *)
Definition short_connection : list (Z * Event) :=
  [(0, NextReply (Ok None)); (0, DelayOver); (0, SSEReply sse_reply)].

Definition fallback_run : list (Z * Event) :=
  sse_opening ++ short_connection ++ short_connection ++ [(0, NextReply (Ok None))].

Example fallback_ends_session :
  exists s f, run_session sse_config fallback_run = Some s /\
    syncState s = Active (LongPollState f) /\ shouldContinue sse_config s = true /\
    status (controller s) = closed_ /\ reads (controller s) = [Value (catch_up "" "o1" true); Done] /\
    closed s = ClosedResolved.
Proof. do 2 eexists. split; [vm_compute; reflexivity|]. vm_compute. split_and!; reflexivity. Qed.

(** Hiding the page while SSE reconnects is an error of the session. *)
Definition hidden_run : list (Z * Event) :=
  sse_opening ++ [(5000, NextReply (Ok None)); (5000, Hidden); (5000, SSEReply (Err "aborted"%string))].

Example hidden_while_reconnecting_fails :
  exists s, run_session sse_config hidden_run = Some s /\
    requestAbort s = Some (Some PAUSE_STREAM) /\ status (controller s) = errored "aborted" /\
    closed s = ClosedRejected "aborted".
Proof. eexists. split; [vm_compute; reflexivity|]. vm_compute. split_and!; reflexivity. Qed.

(** Two pauses while the consumer waits for one response: [pull] returns without
    a response each time, but the stream calls it again only once. *)
Definition poll_config : Config := a_config live_long_poll (catch_up "" "o1" true) "o1" true.

Definition pause_twice : list (Z * Event) :=
  [(0, Started); (0, PullReaction); (0, Read); (0, Read);
   (1, Hidden); (1, FetchReply (Err "aborted"%string)); (1, PullReaction); (2, Visible); (2, PauseReaction);
   (3, Hidden); (3, FetchReply (Err "aborted"%string)); (3, PullReaction); (4, Visible)].

(** Events that are not the user's. *)
Definition internal (ev : Event) : bool :=
  match ev with Read | Cancel | Hidden | Visible | Abort | Accumulate => false | _ => true end.

Example two_pauses_stall :
  exists s, run_session poll_config pause_twice = Some s /\
    state s = active /\ shouldContinue poll_config s = true /\ closed s = ClosedPending /\
    status (controller s) = readable_ /\ pendingReads (controller s) = 1%nat /\
    forall now ev, internal ev = true -> step poll_config now ev s = None.
Proof.
  eexists. split; [vm_compute; reflexivity|]. split_and!; try reflexivity.
  intros now ev Hev. by destruct ev.
Qed.

(** With [live: false] the session ends after the first response, up to date or
    not. *)
Definition truncated_config : Config := a_config live_false (catch_up "first half" "o1" false) "o1" false.

Example live_false_truncates :
  (bodies <$> run_session truncated_config [(0, Started); (0, PullReaction); (0, Read); (0, PullReaction); (0, Read)])
    = Some ["first half"]%string /\
  exists s, run_session truncated_config [(0, Started); (0, PullReaction); (0, Read); (0, PullReaction); (0, Read)]
      = Some s /\ reads (controller s) = [Value (catch_up "first half" "o1" false); Done] /\
    s_upToDate s = false /\ closed s = ClosedResolved.
Proof. split; [vm_compute; reflexivity|]. eexists. split; [vm_compute; reflexivity|]. split_and!; reflexivity. Qed.
