(* ===== verification/JsMap.v ===== *)
(** * JavaScript's [Map] with string keys: insertion order

    Where the order of a [Map] can be observed, it is the list of its entries:
    [set] on a present key keeps its place, on a new key it adds an entry at the
    end. *)

From S2P Require Import Prelude.

Section jsmap.
Context {V : Type}.
Implicit Types (m : list (string * V)) (k : string) (v : V).

(** [m.get(k)] *)
Fixpoint map_get k m : option V :=
  match m with
  | [] => None
  | (k', v) :: m => if String.eqb k k' then Some v else map_get k m
  end.

(** [m.has(k)] *)
Definition map_has k m : bool := match map_get k m with Some _ => true | None => false end.

(** [m.set(k, v)] *)
Fixpoint map_set k v m : list (string * V) :=
  match m with
  | [] => [(k, v)]
  | (k', v') :: m => if String.eqb k k' then (k', v) :: m else (k', v') :: map_set k v m
  end.

(** [m.delete(k)] *)
Definition map_delete k m : list (string * V) := filter (fun kv => kv.1 <> k) m.

(** Mutation of the value at a key, if there is one. *)
Definition map_alter (f : V -> V) k m : list (string * V) :=
  match map_get k m with Some v => map_set k (f v) m | None => m end.

Definition map_ok m : Prop := NoDup (m.*1).

Lemma map_get_set k k' v m :
  map_get k' (map_set k v m) = if String.eqb k' k then Some v else map_get k' m.
Proof.
  induction m as [|[k0 v0] m IH]; cbn; [done|].
  destruct (String.eqb_spec k k0) as [->|Hk]; cbn.
  - by destruct (String.eqb k' k0).
  - rewrite IH. destruct (String.eqb_spec k' k0) as [->|]; [|done].
    by rewrite (proj2 (String.eqb_neq k0 k)).
Qed.

Lemma map_get_set_eq k v m : map_get k (map_set k v m) = Some v.
Proof. by rewrite map_get_set, String.eqb_refl. Qed.

Lemma map_get_set_ne k k' v m : k' <> k -> map_get k' (map_set k v m) = map_get k' m.
Proof. intros H. by rewrite map_get_set, (proj2 (String.eqb_neq k' k)). Qed.

Lemma map_get_delete k k' m :
  map_get k' (map_delete k m) = if String.eqb k' k then None else map_get k' m.
Proof.
  unfold map_delete. induction m as [|[k0 v0] m IH]; [by destruct (String.eqb k' k)|].
  rewrite filter_cons. cbn [fst map_get]. destruct (decide (k0 <> k)) as [Hk|Hk].
  - cbn [map_get]. rewrite IH. destruct (String.eqb_spec k' k0) as [->|]; [|done].
    by rewrite (proj2 (String.eqb_neq k0 k)).
  - apply dec_stable in Hk as ->. rewrite IH. by destruct (String.eqb k' k).
Qed.

Lemma map_get_alter f k k' m :
  map_get k' (map_alter f k m) = if String.eqb k' k then f <$> map_get k m else map_get k' m.
Proof.
  unfold map_alter. destruct (map_get k m) as [v|] eqn:Hk.
  - by rewrite map_get_set.
  - destruct (String.eqb_spec k' k) as [->|]; done.
Qed.

Lemma map_get_None k m : map_get k m = None <-> k ∉ m.*1.
Proof.
  induction m as [|[k0 v0] m IH]; cbn; [split; [intros _; apply not_elem_of_nil|done]|].
  rewrite not_elem_of_cons, <-IH. destruct (String.eqb_spec k k0) as [->|Hk]; [split; [done|by intros [? _]]|].
  split; [by split|by intros [_ ?]].
Qed.

Lemma map_get_elem_of k v m : map_get k m = Some v -> (k, v) ∈ m.
Proof.
  induction m as [|[k0 v0] m IH]; cbn; [done|].
  destruct (String.eqb_spec k k0) as [->|]; [intros [= ->]; left|right; auto].
Qed.

Lemma map_elem_of_get k v m : map_ok m -> (k, v) ∈ m -> map_get k m = Some v.
Proof.
  induction m as [|[k0 v0] m IH]; intros Hok; [by rewrite elem_of_nil|].
  apply list.NoDup_cons in Hok as [Hk0 Hok]. rewrite elem_of_cons. cbn. intros [[= -> ->]|Hin].
  - by rewrite String.eqb_refl.
  - destruct (String.eqb_spec k k0) as [->|]; [|by apply IH].
    destruct Hk0. apply list_elem_of_fmap. by exists (k0, v).
Qed.

Lemma map_set_keys k v m : (map_set k v m).*1 = if map_has k m then m.*1 else m.*1 ++ [k].
Proof.
  unfold map_has. induction m as [|[k0 v0] m IH]; cbn; [done|].
  destruct (String.eqb_spec k k0) as [->|]; cbn; [done|]. rewrite IH.
  by destruct (map_get k m).
Qed.

Lemma map_ok_set k v m : map_ok m -> map_ok (map_set k v m).
Proof.
  unfold map_ok. rewrite map_set_keys. unfold map_has. intros Hok.
  destruct (map_get k m) eqn:Hk; [done|]. apply map_get_None in Hk.
  apply list.NoDup_app. split_and!; [done| |apply NoDup_singleton].
  intros x Hx ->%list_elem_of_singleton. done.
Qed.

Lemma map_ok_delete k m : map_ok m -> map_ok (map_delete k m).
Proof.
  unfold map_ok, map_delete. intros Hok. eapply sublist_NoDup; [exact Hok|].
  apply fmap_sublist, sublist_filter.
Qed.

Lemma map_ok_alter f k m : map_ok m -> map_ok (map_alter f k m).
Proof. unfold map_alter. destruct (map_get k m); [apply map_ok_set|done]. Qed.
End jsmap.

(** An equation of a value under [map_get], key by key. *)
#[export] Hint Resolve map_ok_set map_ok_delete map_ok_alter : core.
#[export] Hint Rewrite @map_get_set @map_get_delete @map_get_alter : jsmap.
