(* ===== verification/Tokens.v ===== *)
(** * Callback tokens and webhook signatures: [packages/server/src/crypto.ts]

    HMAC-SHA256 with the server's key, SHA-256, and Ed25519 are parameters.  The
    clock is an argument, in milliseconds; so are the random bytes. *)

From S2P Require Import Prelude Text Json JsonInstance PathEncoding.

(** What the module uses of [node:crypto]: digests and signatures as base64url
    text, under the keys made when the module is loaded. *)
Class CryptoLib := {
  hmac_token_key : bytes -> string;
  sha256_hex : bytes -> string;
  sha256_base64url : bytes -> string;
  ed25519_public_x : string;
  ed25519_sign : bytes -> bytes;
  (** [verify] with the public key of a JWK's [x]; [None] when it throws. *)
  ed25519_verify : string -> bytes -> bytes -> option bool;
}.

(** What is promised of them: text in the base64url alphabet, and that a
    signature verifies under its own key. *)
Class CryptoLaws `{CryptoLib} : Prop := {
  hmac_token_key_chars b : all_chars url_char (hmac_token_key b) = true;
  sha256_base64url_chars b : all_chars url_char (sha256_base64url b) = true;
  ed25519_sign_nonempty b : ed25519_sign b <> [];
  ed25519_sign_verify b : ed25519_verify ed25519_public_x b (ed25519_sign b) = Some true;
}.

(** ** Base64url *)

(** [Buffer.toString("base64url")] *)
Definition base64url (b : bytes) : string :=
  of_chars (remove_char "=" (replace_char "/" "_" (replace_char "+" "-" (base64 b)))).

(** [Buffer.from(s, "base64url")], which reads both alphabets. *)
Definition base64url_decode (s : string) : bytes :=
  base64_decode (replace_char "_" "/" (replace_char "-" "+" (chars s))).

Lemma base64url_digits b : base64url b = of_chars (url_digits b).
Proof. unfold base64url. by rewrite encoded_digits. Qed.

Lemma base64url_roundtrip b : base64url_decode (base64url b) = b.
Proof.
  rewrite base64url_digits. unfold base64url_decode. rewrite chars_of_chars.
  pose proof (url_digits_decode b 0) as H. cbn [repeat] in H. by rewrite app_nil_r in H.
Qed.

Lemma base64url_chars b : all_chars url_char (base64url b) = true.
Proof.
  rewrite base64url_digits. unfold all_chars. rewrite chars_of_chars, forallb_forall.
  pose proof (url_digits_chars b) as H. rewrite List.Forall_forall in H. intros c Hc. by apply H.
Qed.

Section crypto.
Context `{!JsonLib} `{!CryptoLib}.

(** ** Webhook keys and signatures *)

(** [buildWebhookPublicJwk]: the key's identifier, and the key. *)
Definition WEBHOOK_KID : string :=
  "ds_" +:+ sha256_base64url (encode_text (stringify
    (JObj [("crv", JStr "Ed25519"); ("kty", JStr "OKP"); ("x", JStr ed25519_public_x)]%string))).

Definition WEBHOOK_PUBLIC_JWK : json :=
  JObj [("kty", JStr "OKP"); ("crv", JStr "Ed25519"); ("x", JStr ed25519_public_x);
        ("kid", JStr WEBHOOK_KID); ("use", JStr "sig"); ("alg", JStr "EdDSA")]%string.

(** [getWebhookJwks] *)
Definition getWebhookJwks : json := JObj [("keys"%string, JArr [WEBHOOK_PUBLIC_JWK])].

(** [Math.floor(Date.now() / 1000)] *)
Definition seconds (now : Z) : Z := now / 1000.

(** The bytes that are signed. *)
Definition signed_payload (timestamp body : string) : bytes :=
  encode_text (timestamp +:+ "." +:+ body).

(** [signWebhookPayload] *)
Definition signWebhookPayload (now : Z) (body : string) : string :=
  let timestamp := js_String (seconds now) in
  "t=" +:+ timestamp +:+ ",kid=" +:+ WEBHOOK_KID +:+ ",ed25519=" +:+
  base64url (ed25519_sign (signed_payload timestamp body)).

(** The match of the header against
    ["^t=(\d+),kid=([^,]+),ed25519=([A-Za-z0-9_-]+)$"]: no group holds a
    comma, so the groups are what the commas separate. *)
Definition nonempty (s : string) : bool := negb (String.eqb s EmptyString).

Definition parse_signature (header : string) : option (string * string * string) :=
  match split_on "," header with
  | [t; k; s] =>
      let timestamp := str_drop 2 t in
      let kid := str_drop 4 k in
      let signature := str_drop 8 s in
      if starts_with "t=" t && all_digits timestamp &&
         starts_with "kid=" k && nonempty kid &&
         starts_with "ed25519=" s && nonempty signature && all_chars url_char signature
      then Some (timestamp, kid, signature) else None
  | _ => None
  end.

(** [verifyWebhookSignature] with the server's own keys.  [ts] is read by
    [parseInt]. *)
Definition verifyWebhookSignature (now : Z) (body signatureHeader : string) (toleranceSeconds : Z)
    : bool :=
  match parse_signature signatureHeader with
  | None => false
  | Some (timestamp, kid, signature) =>
      let ts := dbl (digits_value timestamp) in
      if toleranceSeconds <? Z.abs (seconds now - ts) then false
      else if negb (String.eqb kid WEBHOOK_KID) then false
      else
        match ed25519_verify ed25519_public_x (signed_payload timestamp body)
                (base64url_decode signature) with
        | Some b => b
        | None => false
        end
  end.

(** ** Callback tokens *)

(** [generateCallbackToken] *)
Definition token_payload (now : Z) (jti consumerId : string) (epoch : Z) : json :=
  JObj [("sub", JStr consumerId); ("epoch", JNum (js_String epoch));
        ("exp", JNum (js_String (seconds now + 3600))); ("jti", JStr jti)]%string.

Definition generateCallbackToken (now : Z) (jti consumerId : string) (epoch : Z) : string :=
  let payloadStr := base64url (encode_text (stringify (token_payload now jti consumerId epoch))) in
  payloadStr +:+ "." +:+ hmac_token_key (encode_text payloadStr).

(** The result of [validateCallbackToken].  [epoch] is compared with a number
    and nothing else, so it is kept as the JSON value it is, [None] for
    [undefined].  [token_foreign] is a payload that carries the server's HMAC
    and yet is not one [generateCallbackToken] makes: not an object, or without an
    integer [exp]; what the comparisons of such values give is not modelled. *)
Inductive TokenResult :=
| token_valid (exp : Z) (epoch : option json)
| token_invalid (code : string)
| token_foreign.

Definition TOKEN_INVALID : string := "TOKEN_INVALID".
Definition TOKEN_EXPIRED : string := "TOKEN_EXPIRED".

Definition json_integer (v : option json) : option Z :=
  match v with
  | Some (JNum n) => if all_digits n then Some (digits_value n) else None
  | _ => None
  end.

(** [v === s] for a string [s]. *)
Definition is_string (s : string) (v : option json) : bool :=
  match v with Some (JStr t) => String.eqb t s | _ => false end.

(** [validateCallbackToken] *)
Definition validateCallbackToken (now : Z) (token consumerId : string) : TokenResult :=
  match split_on "." token with
  | [payloadStr; sig] =>
      if negb (String.eqb sig (hmac_token_key (encode_text payloadStr)))
      then token_invalid TOKEN_INVALID
      else
        match JSON_parse (of_chars (utf8_decode (base64url_decode payloadStr))) with
        | None => token_invalid TOKEN_INVALID
        | Some (JObj payload) =>
            if negb (is_string consumerId (obj_get "sub" payload))
            then token_invalid TOKEN_INVALID
            else
              match json_integer (obj_get "exp" payload) with
              | None => token_foreign
              | Some exp =>
                  if exp <? seconds now then token_invalid TOKEN_EXPIRED
                  else token_valid exp (obj_get "epoch" payload)
              end
        | Some _ => token_foreign
        end
  | _ => token_invalid TOKEN_INVALID
  end.

Definition TOKEN_REFRESH_THRESHOLD : Z := 300.

(** [tokenNeedsRefresh] *)
Definition tokenNeedsRefresh (now exp : Z) : bool := exp - seconds now <=? TOKEN_REFRESH_THRESHOLD.
End crypto.

(** ** Lemmas *)

Lemma split_on_none c s : all_chars (fun d => negb (Ascii.eqb d c)) s = true -> split_on c s = [s].
Proof.
  induction s as [|d s IH]; [done|]. rewrite all_chars_cons, andb_true_iff, negb_true_iff.
  intros [Hd Hs]. cbn [split_on]. by rewrite Hd, IH.
Qed.

Lemma split_on_at c s t :
  all_chars (fun d => negb (Ascii.eqb d c)) s = true ->
  split_on c (s +:+ String c t) = s :: split_on c t.
Proof.
  induction s as [|d s IH].
  - intros _. rewrite string_app_nil_l. cbn [split_on]. by rewrite Ascii.eqb_refl.
  - rewrite all_chars_cons, andb_true_iff, negb_true_iff. intros [Hd Hs].
    rewrite string_app_cons. cbn [split_on]. by rewrite Hd, IH.
Qed.

Lemma all_chars_impl (p q : ascii -> bool) s :
  (forall c, p c = true -> q c = true) -> all_chars p s = true -> all_chars q s = true.
Proof. unfold all_chars. rewrite !forallb_forall. auto. Qed.

Lemma url_char_not c d : url_char d = false -> url_char c = true -> negb (Ascii.eqb c d) = true.
Proof. intros Hd Hc. apply negb_true_iff, Ascii.eqb_neq. intros ->. congruence. Qed.

Lemma digit_not c d : is_digit d = false -> is_digit c = true -> negb (Ascii.eqb c d) = true.
Proof. intros Hd Hc. apply negb_true_iff, Ascii.eqb_neq. intros ->. congruence. Qed.

Lemma js_String_integer n : 0 <= n -> json_integer (Some (JNum (js_String n))) = Some n.
Proof. intros Hn. unfold json_integer. by destruct (js_String_digits n Hn) as [-> ->]. Qed.

Section laws.
Context `{!JsonLib} `{!CryptoLib} `{!JsonLaws} `{!CryptoLaws}.

Lemma token_payload_wf now jti sub epoch :
  0 <= now -> seconds now + 3600 <= MAX_SAFE_INTEGER -> 0 <= epoch <= MAX_SAFE_INTEGER ->
  utf8_valid (chars sub) = true -> utf8_valid (chars jti) = true ->
  json_wf (token_payload now jti sub epoch) = true.
Proof.
  intros Hnow Hexp Hepoch Hsub Hjti.
  assert (0 <= seconds now) by (apply Z.div_pos; lia).
  unfold token_payload. cbn [json_wf]. apply andb_true_iff. split; [vm_compute; reflexivity|].
  cbn [forallb fst snd json_wf]. rewrite Hsub, Hjti, !number_text_integer by lia. vm_compute. reflexivity.
Qed.

Lemma validate_parts now payloadStr sub :
  all_chars url_char payloadStr = true ->
  validateCallbackToken now (payloadStr +:+ "." +:+ hmac_token_key (encode_text payloadStr)) sub =
    match JSON_parse (of_chars (utf8_decode (base64url_decode payloadStr))) with
    | None => token_invalid TOKEN_INVALID
    | Some (JObj payload) =>
        if negb (is_string sub (obj_get "sub" payload)) then token_invalid TOKEN_INVALID
        else match json_integer (obj_get "exp" payload) with
             | None => token_foreign
             | Some exp =>
                 if exp <? seconds now then token_invalid TOKEN_EXPIRED
                 else token_valid exp (obj_get "epoch" payload)
             end
    | Some _ => token_foreign
    end.
Proof.
  intros Hp. unfold validateCallbackToken. rewrite string_app_cons, string_app_nil_l, split_on_at.
  - rewrite split_on_none; [by rewrite String.eqb_refl|].
    eapply all_chars_impl; [|apply hmac_token_key_chars]. intros c. by apply url_char_not.
  - eapply all_chars_impl; [|exact Hp]. intros c. by apply url_char_not.
Qed.

(** The payload survives the trip. *)
Lemma parse_payload now jti sub epoch :
  json_wf (token_payload now jti sub epoch) = true ->
  JSON_parse (of_chars (utf8_decode (base64url_decode
    (base64url (encode_text (stringify (token_payload now jti sub epoch))))))) =
  Some (token_payload now jti sub epoch).
Proof.
  intros Hwf. rewrite base64url_roundtrip, utf8_decode_id by (by apply utf8_stringify).
  unfold encode_text. rewrite of_chars_chars. by apply JSON_parse_stringify.
Qed.

(** What the server generated it validates, for its consumer and until it
    expires. *)
Lemma token_roundtrip (now now' : Z) (jti sub sub' : string) (epoch : Z) :
  0 <= now -> seconds now + 3600 <= MAX_SAFE_INTEGER -> 0 <= epoch <= MAX_SAFE_INTEGER ->
  utf8_valid (chars sub) = true -> utf8_valid (chars jti) = true ->
  validateCallbackToken now' (generateCallbackToken now jti sub epoch) sub' =
    if negb (String.eqb sub sub') then token_invalid TOKEN_INVALID
    else if seconds now + 3600 <? seconds now' then token_invalid TOKEN_EXPIRED
    else token_valid (seconds now + 3600) (Some (JNum (js_String epoch))).
Proof.
  intros Hnow Hexp Hepoch Hsub Hjti. assert (0 <= seconds now) by (apply Z.div_pos; lia).
  unfold generateCallbackToken.
  rewrite validate_parts, parse_payload by (apply base64url_chars || by apply token_payload_wf).
  unfold token_payload.
  cbn [obj_get String.eqb Ascii.eqb Bool.eqb is_string]. by rewrite js_String_integer by lia.
Qed.

Lemma parse_signature_spec t k s :
  all_digits t = true -> nonempty k = true -> all_chars (fun c => negb (Ascii.eqb c ",")) k = true ->
  nonempty s = true -> all_chars url_char s = true ->
  parse_signature ("t=" +:+ t +:+ ",kid=" +:+ k +:+ ",ed25519=" +:+ s) = Some (t, k, s).
Proof.
  intros Ht Hk Hkc Hs Hsc. unfold parse_signature.
  pose proof Ht as Ht'. unfold all_digits in Ht'. apply andb_true_iff in Ht' as [_ Htc].
  assert (Hsplit : split_on "," ("t=" +:+ t +:+ ",kid=" +:+ k +:+ ",ed25519=" +:+ s) =
    ["t=" +:+ t; "kid=" +:+ k; "ed25519=" +:+ s]).
  { assert ("t=" +:+ t +:+ ",kid=" +:+ k +:+ ",ed25519=" +:+ s =
      ("t=" +:+ t) +:+ String "," (("kid=" +:+ k) +:+ String "," ("ed25519=" +:+ s))) as ->.
    { by rewrite ?string_app_assoc, ?string_app_cons, ?string_app_nil_l,
        ?string_app_assoc, ?string_app_cons, ?string_app_nil_l. }
    rewrite split_on_at, split_on_at, split_on_none; [done|..]; rewrite all_chars_app;
      apply andb_true_iff; (split; [reflexivity|]); [|exact Hkc|].
    - eapply all_chars_impl; [|exact Hsc]. intros c. by apply url_char_not.
    - eapply all_chars_impl; [|exact Htc]. intros c. by apply digit_not. }
  rewrite Hsplit, !string_app_cons, !string_app_nil_l. cbn [str_drop starts_with Ascii.eqb Bool.eqb andb].
  by rewrite Ht, Hk, Hs, Hsc.
Qed.

Lemma base64url_nonempty b : b <> [] -> nonempty (base64url b) = true.
Proof.
  intros Hb. unfold nonempty. apply negb_true_iff, String.eqb_neq. intros He. apply Hb.
  by rewrite <-(base64url_roundtrip b), He.
Qed.

(** A webhook's receiver can check what the server signed: the
    [Webhook-Signature] header made for a body verifies for that body, under
    the key whose identifier it names, exactly while the two clocks differ by no more than
    the tolerance. *)
Theorem webhook_signature_verifies (now now' toleranceSeconds : Z) (body : string) :
  0 <= now <= MAX_SAFE_INTEGER ->
  verifyWebhookSignature now' body (signWebhookPayload now body) toleranceSeconds =
    negb (toleranceSeconds <? Z.abs (seconds now' - seconds now)).
Proof.
  intros Hnow. unfold MAX_SAFE_INTEGER in Hnow.
  assert (Hs : 0 <= seconds now <= now)
    by (unfold seconds; split; [apply Z.div_pos; lia|apply Z.div_le_upper_bound; lia]).
  destruct (js_String_digits (seconds now) ltac:(lia)) as [Hd Hv].
  unfold verifyWebhookSignature, signWebhookPayload.
  rewrite parse_signature_spec; [|exact Hd|reflexivity| |apply base64url_nonempty, ed25519_sign_nonempty
    |apply base64url_chars]; cycle 1.
  { unfold WEBHOOK_KID. rewrite all_chars_app. apply andb_true_iff. split; [reflexivity|].
    eapply all_chars_impl; [|apply sha256_base64url_chars]. intros c. by apply url_char_not. }
  rewrite Hv, dbl_small, String.eqb_refl, base64url_roundtrip, ed25519_sign_verify by lia.
  by destruct (_ <? _).
Qed.
End laws.

(** ** A stand-in for the cryptography, and the theorems applied *)

Definition toy_crypto : CryptoLib := {|
  hmac_token_key b := base64url b;
  sha256_hex b := toy_digest (of_chars b);
  sha256_base64url b := base64url b;
  ed25519_public_x := "x";
  ed25519_sign b := "s"%char :: b;
  ed25519_verify x b s := Some (String.eqb x "x" && bool_decide (s = "s"%char :: b));
|}.

Lemma toy_crypto_laws : @CryptoLaws toy_crypto.
Proof.
  split; cbn.
  - apply base64url_chars.
  - apply base64url_chars.
  - done.
  - intros b. by rewrite bool_decide_eq_true_2.
Qed.

Section witnesses.
#[local] Existing Instance integer_json.
#[local] Existing Instance integer_json_laws.
#[local] Existing Instance toy_crypto.
#[local] Existing Instance toy_crypto_laws.

Lemma webhook_signature_verifies_witness :
  verifyWebhookSignature 300999 "{}" (signWebhookPayload 0 "{}") 300 = true /\
  verifyWebhookSignature 301000 "{}" (signWebhookPayload 0 "{}") 300 = false.
Proof.
  rewrite !webhook_signature_verifies by (unfold MAX_SAFE_INTEGER; lia). split; reflexivity.
Defined.
End witnesses.
