(* ===== verification/Subscription.v ===== *)
(** * Subscriptions: class [SubscriptionManager] of
    [packages/server/src/subscription-manager.ts]

    A subscription watches streams.  When one of them has data past the
    acknowledged offset, a wake is created: a new generation, a wake id, a
    snapshot of the tails, and for a webhook a callback token, a lease and a
    delivery; for [pull-wake] an event appended to the wake stream, and the
    lease when a worker claims it.

    A subscription is an object that closures (timers, deliveries in flight) go
    on referring to after the subscription was deleted, so the objects live in a
    heap and the map of subscriptions holds their addresses.  A method runs up to
    its first [await] that waits for something outside; what follows is another
    definition: a delivery's response, a timer, the rest of a claim. *)

From stdpp Require Import sorting.
From S2P Require Import Prelude Text Json Glob JsMap Tokens.
Local Open Scope js_scope.

(** ** Data *)

Inductive SubscriptionType := webhook | pull_wake.
Inductive SubscriptionStatus := active | failed.
Inductive SubscriptionLinkType := glob | explicit.

#[export] Instance SubscriptionType_eq_dec : EqDecision SubscriptionType.
Proof. solve_decision. Defined.

Definition type_text (t : SubscriptionType) : string :=
  match t with webhook => "webhook" | pull_wake => "pull-wake" end.
Definition status_text (s : SubscriptionStatus) : string :=
  match s with active => "active" | failed => "failed" end.
Definition link_type_text (t : SubscriptionLinkType) : string :=
  match t with glob => "glob" | explicit => "explicit" end.

(** The set [link_types] by its two possible members.  [acked_offset] is
    [None] when it has become [undefined]: an acknowledgement without an offset
    is not rejected. *)
Record SubscriptionStreamLink := mkLink {
  link_path : string;
  has_glob : bool;
  has_explicit : bool;
  acked_offset : option string;
}.

(** What a subscription was created with. *)
Record SubscriptionConfig := mkConfig {
  sub_id : string;
  type : SubscriptionType;
  pattern : option string;
  webhook_url : option string;
  wake_stream : option string;
  lease_ttl_ms : Z;
  description : option string;
  created_at : Z;
  config_hash : string;
}.

Record SubscriptionRecord := mkSubscription {
  config : SubscriptionConfig;
  status : SubscriptionStatus;
  streams : list (string * SubscriptionStreamLink);
  generation : Z;
  wake_id : option string;
  wake_snapshot : list (string * string);
  token : option string;
  holder : option string;
  lease_timer : option nat;
  retry_count : Z;
  retry_timer : option nat;
  next_attempt_at : option Z;
}.

Record SubscriptionStreamInfo := mkInfo {
  info_path : string;
  info_link_type : SubscriptionLinkType;
  info_acked_offset : option string;
  info_tail_offset : string;
  has_pending : bool;
}.

Record SubscriptionCreateInput := mkInput {
  in_type : SubscriptionType;
  in_pattern : option string;
  in_streams : list string;
  in_webhook : option string;
  in_wake_stream : option string;
  in_lease_ttl_ms : Z;
  in_description : option string;
}.

(** [stream ?? path], and the offset, [None] for [undefined]. *)
Record Ack := mkAck {
  ack_stream : option string;
  ack_path : option string;
  ack_offset : option string;
}.

(** [wake_id] and [generation] are compared with [===] only. *)
Record SubscriptionCallbackRequest := mkCallback {
  cb_wake_id : option json;
  cb_generation : option json;
  cb_acks : option (list Ack);
  cb_done : bool;
}.

(** What a method answers: the status and the body. *)
Record MResponse := mkMResponse { ms_status : Z; ms_body : option json }.

(** A timer, with what its callback refers to and its delay. *)
Inductive TimerCallback :=
| lease_expiry (o : nat)
| webhook_retry (o : nat) (triggeredBy : list string).

Record Timer := mkTimer { tm_callback : TimerCallback; tm_delay : Z }.

(** A delivery in flight: the request, and whether the response's body is being
    read. *)
Record Delivery := mkDelivery {
  dl_object : nat;
  dl_triggeredBy : list string;
  dl_url : string;
  dl_body : string;
  dl_signature : string;
  dl_reading : bool;
}.

Record SubscriptionManager := mkManager {
  objects : gmap nat SubscriptionRecord;
  subscriptions : list (string * nat);
  isShuttingDown : bool;
  timers : gmap nat Timer;
  deliveries : gmap nat Delivery;
  nextId : nat;
  draws : nat;
}.

(** ** Setters *)

Definition set_status v s := mkSubscription (config s) v (streams s) (generation s) (wake_id s)
  (wake_snapshot s) (token s) (holder s) (lease_timer s) (retry_count s) (retry_timer s) (next_attempt_at s).
Definition set_streams v s := mkSubscription (config s) (status s) v (generation s) (wake_id s)
  (wake_snapshot s) (token s) (holder s) (lease_timer s) (retry_count s) (retry_timer s) (next_attempt_at s).
Definition set_wake g w snap s := mkSubscription (config s) (status s) (streams s) g w
  snap (token s) (holder s) (lease_timer s) (retry_count s) (retry_timer s) (next_attempt_at s).
Definition set_token v s := mkSubscription (config s) (status s) (streams s) (generation s) (wake_id s)
  (wake_snapshot s) v (holder s) (lease_timer s) (retry_count s) (retry_timer s) (next_attempt_at s).
Definition set_holder v s := mkSubscription (config s) (status s) (streams s) (generation s) (wake_id s)
  (wake_snapshot s) (token s) v (lease_timer s) (retry_count s) (retry_timer s) (next_attempt_at s).
Definition set_lease_timer v s := mkSubscription (config s) (status s) (streams s) (generation s)
  (wake_id s) (wake_snapshot s) (token s) (holder s) v (retry_count s) (retry_timer s) (next_attempt_at s).
Definition set_retry c t n s := mkSubscription (config s) (status s) (streams s) (generation s)
  (wake_id s) (wake_snapshot s) (token s) (holder s) (lease_timer s) c t n.

(** The four assignments that end a wake. *)
Definition clear_wake (s : SubscriptionRecord) : SubscriptionRecord :=
  set_wake (generation s) None [] (set_holder None (set_token None s)).

#[export] Instance SubscriptionRecord_inhabited : Inhabited SubscriptionRecord :=
  populate (mkSubscription (mkConfig EmptyString webhook None None None 0 None 0 EmptyString)
    active [] 0 None [] None None None 0 None None).

(** ** Paths and offsets *)

Definition ZERO_OFFSET : string := "0000000000000000_0000000000000000".
Definition BEFORE_FIRST_OFFSET : string := "-1".
Definition DEFAULT_LEASE_TTL_MS : Z := 30000.
Definition MIN_LEASE_TTL_MS : Z := 1000.
Definition MAX_LEASE_TTL_MS : Z := 10 * 60000.
Definition MAX_RETRY_DELAY_MS : Z := 60000.

(** [compareOffsets(a, b) > 0]; a comparison with [undefined] is false. *)
Definition offset_gt (a b : option string) : bool :=
  match a, b with Some a, Some b => String.ltb b a | _, _ => false end.

(** [normalizeRelativePath] *)
Definition normalizeRelativePath (path : string) : string :=
  drop_trailing "/" (drop_leading "/" path).

Definition STREAM_ROOT : string := "/v1/stream/".

(** [toAbsoluteStreamPath] *)
Definition toAbsoluteStreamPath (streamPath : string) : string :=
  STREAM_ROOT +:+ normalizeRelativePath streamPath.

(** [toStreamRelativePath] *)
Definition toStreamRelativePath (absolutePath : string) : option string :=
  if negb (starts_with STREAM_ROOT absolutePath) then None
  else
    let path := str_drop (String.length STREAM_ROOT) absolutePath in
    if String.eqb path "__ds" || starts_with "__ds/" path then None
    else if (0 <? String.length path)%nat then Some path else None.

(** ** The configuration hash *)

(** A property of an object literal; [JSON.stringify] leaves [undefined] out. *)
Definition member (k : string) (v : option json) : list (string * json) :=
  match v with Some v => [(k, v)] | None => [] end.

(** [[...new Set(streams)].sort()] *)
Definition sorted_set (l : list string) : list string :=
  merge_sort (fun a b => Is_true (String.leb a b)) (remove_dups l).

Section hash.
Context `{!CryptoLib}.

(** [stableConfigHash] *)
Definition stableConfigHash (input : SubscriptionCreateInput) : string :=
  sha256_hex (encode_text (stringify (JObj (
    [("type"%string, JStr (type_text (in_type input)))] ++
    member "pattern" (JStr <$> in_pattern input) ++
    [("streams"%string, JArr (JStr <$> sorted_set (in_streams input)))] ++
    member "webhook" ((fun url => JObj [("url"%string, JStr url)]) <$> in_webhook input) ++
    member "wake_stream" (JStr <$> in_wake_stream input) ++
    [("lease_ttl_ms"%string, JNum (js_String (in_lease_ttl_ms input)))] ++
    member "description" (JStr <$> in_description input))))).
End hash.

(** ** Webhook URLs *)

(** What the manager uses of [URL] and of [node:net]. *)
Class UrlLib := {
  (** [protocol] and [hostname] of [new URL(s)]; [None] when it throws. *)
  URL_parse : string -> option (string * string);
  (** [new URL(path, base).toString()] *)
  URL_resolve : string -> string -> string;
  isIP : string -> Z;
}.

(** [isPrivateOrLinkLocalIpv4], of a host for which [isIP] said 4. *)
Definition isPrivateOrLinkLocalIpv4 (host : string) : bool :=
  match map js_Number (split_on "." host) with
  | [Some a; Some b; Some _; Some _] =>
      (a =? 10) || (a =? 127) || (a =? 0) || ((a =? 172) && (16 <=? b) && (b <=? 31)) ||
      ((a =? 192) && (b =? 168)) || ((a =? 169) && (b =? 254))
  | _ => false
  end.

(** A group of one to three digits. *)
Definition short_digits (s : string) : bool := all_digits s && (String.length s <=? 3)%nat.

(** [isLocalDevHost] *)
Definition isLocalDevHost (host : string) : bool :=
  String.eqb host "localhost" ||
  match split_on "." host with
  | [a; b; c; d] => String.eqb a "127" && short_digits b && short_digits c && short_digits d
  | _ => false
  end.

(** [validateWebhookUrl]: [None] when it is accepted, or the message. *)
Definition validateWebhookUrl `{!UrlLib} (rawUrl : string) : option string :=
  match URL_parse rawUrl with
  | None => Some "webhook.url must be a valid URL"%string
  | Some (protocol, hostname) =>
      let host := js_lower hostname in
      if String.eqb protocol "http:" then
        if isLocalDevHost host then None
        else Some "http webhook URLs are only allowed for localhost or 127.0.0.x"%string
      else if negb (String.eqb protocol "https:") then Some "webhook.url must use https"%string
      else if String.eqb host "localhost" then Some "localhost webhook URLs must use http for dev"%string
      else if (isIP host =? 4) && isPrivateOrLinkLocalIpv4 host
      then Some "webhook.url must not target private or link-local hosts"%string
      else if isIP host =? 6
      then Some "IPv6 webhook hosts are not accepted by the reference server"%string
      else None
  end.

(** ** The store, as the manager sees it *)

(** [SubscriptionStreamStore]: a store of type [S] whose calls may throw an
    [E], at a time of the clock.  [ss_get] gives the current offset. *)
Class SubscriptionStreamStore (S E : Type) := {
  ss_has : Z -> string -> S -> S * bool;
  ss_get : Z -> string -> S -> S * option string;
  ss_list : S -> list string;
  ss_append : Z -> string -> bytes -> M S E unit;
}.

(** What the manager relies on.  [tail] is what a [get] would answer; calls
    that are about one stream leave the tails of the others as they are, unless an
    expired stream disappears, and so does the passing of time. *)
Class SubscriptionStreamStoreLaws (S E : Type) `{SubscriptionStreamStore S E} := {
  tail : Z -> S -> string -> option string;
  ss_get_tail now p st : (ss_get now p st).2 = tail now st p;
  ss_get_shrinks now p st q :
    tail now (ss_get now p st).1 q = tail now st q \/ tail now (ss_get now p st).1 q = None;
  ss_has_shrinks now p st q :
    tail now (ss_has now p st).1 q = tail now st q \/ tail now (ss_has now p st).1 q = None;
  ss_append_shrinks now p data st q : q <> p ->
    tail now (ss_append now p data st).1 q = tail now st q \/
    tail now (ss_append now p data st).1 q = None;
  tail_later now now' st q : now <= now' -> tail now' st q = tail now st q \/ tail now' st q = None;
}.

(** The manager and the store it was constructed with. *)
Record World (S : Type) := mkWorld { mgr : SubscriptionManager; sstore : S }.
Arguments mkWorld {_} _ _.
Arguments mgr {_} _.
Arguments sstore {_} _.

Section manager.
Context `{!JsonLib} `{!CryptoLib} `{!UrlLib} {S E : Type} `{!SubscriptionStreamStore S E}.

(** [webhooksEnabled] and [callbackBaseUrl]; the random bytes, by the number of the draw; and the delay of a
    retry, rounded and jittered, of a base delay. *)
Context (webhooksEnabled : bool) (callbackBaseUrl : string)
  (random_hex : nat -> string) (jittered : nat -> Z -> Z).

(** The clock during one run of a method. *)
Context (now : Z).

Definition SM (A : Type) : Type := M (World S) E A.

(** *** Access to the state *)

Definition on_mgr (f : SubscriptionManager -> SubscriptionManager) : SM unit :=
  modify (fun w => mkWorld (f (mgr w)) (sstore w)).

Definition on_sstore {A} (m : M S E A) : SM A := fun w =>
  let '(st, r) := m (sstore w) in (mkWorld (mgr w) st, r).

Definition the_manager : SM SubscriptionManager := fun w => (w, Ok (mgr w)).

(** The object at an address. *)
Definition the (o : nat) : SM SubscriptionRecord := fun w => (w, Ok (objects (mgr w) !!! o)).

Definition upd_objects f m := mkManager (f (objects m)) (subscriptions m) (isShuttingDown m) (timers m)
  (deliveries m) (nextId m) (draws m).
Definition upd_subscriptions f m := mkManager (objects m) (f (subscriptions m)) (isShuttingDown m)
  (timers m) (deliveries m) (nextId m) (draws m).
Definition upd_timers f m := mkManager (objects m) (subscriptions m) (isShuttingDown m) (f (timers m))
  (deliveries m) (nextId m) (draws m).
Definition upd_deliveries f m := mkManager (objects m) (subscriptions m) (isShuttingDown m) (timers m)
  (f (deliveries m)) (nextId m) (draws m).

(** A mutation of the object at an address. *)
Definition mutate (o : nat) (f : SubscriptionRecord -> SubscriptionRecord) : SM unit :=
  on_mgr (upd_objects (alter f o)).

Definition fresh_id : SM nat := fun w =>
  let m := mgr w in
  (mkWorld (mkManager (objects m) (subscriptions m) (isShuttingDown m) (timers m) (deliveries m)
     (Datatypes.S (nextId m)) (draws m)) (sstore w), Ok (nextId m)).

Definition draw : SM nat := fun w =>
  let m := mgr w in
  (mkWorld (mkManager (objects m) (subscriptions m) (isShuttingDown m) (timers m) (deliveries m)
     (nextId m) (Datatypes.S (draws m))) (sstore w), Ok (draws m)).

Definition setTimeout (callback : TimerCallback) (delay : Z) : SM nat :=
  let* t := fresh_id in
  do on_mgr (upd_timers (insert t (mkTimer callback delay))) ;;
  ret t.

(** [clearTimeout], of a timer that may be [null] *)
Definition clearTimeout (t : option nat) : SM unit :=
  match t with Some t => on_mgr (upd_timers (delete t)) | None => ret tt end.

Definition get (id : string) : SM (option nat) := fun w =>
  (w, Ok (map_get id (subscriptions (mgr w)))).

(** *** Tails and pending work *)

(** [getTailOffset] *)
Definition getTailOffset (streamPath : string) : SM string :=
  let* offset := on_sstore (call (ss_get now (toAbsoluteStreamPath streamPath))) in
  ret (or_else offset ZERO_OFFSET).

(** [streamInfos] *)
Definition streamInfo (link : SubscriptionStreamLink) : SM SubscriptionStreamInfo :=
  let* tail := getTailOffset (link_path link) in
  ret (mkInfo (link_path link) (if has_explicit link then explicit else glob) (acked_offset link) tail
         (offset_gt (Some tail) (acked_offset link))).

Definition streamInfos (o : nat) : SM (list SubscriptionStreamInfo) :=
  let* s := the o in map_m streamInfo (map snd (streams s)).

(** [hasPendingWork] *)
Definition hasPendingWork (o : nat) : SM bool :=
  let* infos := streamInfos o in ret (existsb has_pending infos).

(** [firstPendingStream] *)
Definition firstPendingStream (o : nat) : SM string :=
  let* infos := streamInfos o in
  ret (or_else (info_path <$> List.find has_pending infos) EmptyString).

(** [linkStream] *)
Definition add_type (t : SubscriptionLinkType) (l : SubscriptionStreamLink) : SubscriptionStreamLink :=
  match t with
  | glob => mkLink (link_path l) true (has_explicit l) (acked_offset l)
  | explicit => mkLink (link_path l) (has_glob l) true (acked_offset l)
  end.

Definition link (streamPath : string) (linkType : SubscriptionLinkType) (acked : option string)
    (s : SubscriptionRecord) : SubscriptionRecord :=
  let normalized := normalizeRelativePath streamPath in
  match map_get normalized (streams s) with
  | Some existing => set_streams (map_set normalized (add_type linkType existing) (streams s)) s
  | None =>
      set_streams (map_set normalized
        (add_type linkType (mkLink normalized false false acked)) (streams s)) s
  end.

Definition linkStream (o : nat) (streamPath : string) (linkType : SubscriptionLinkType)
    (acked : option string) : SM unit := mutate o (link streamPath linkType acked).

(** *** Leases and tokens *)

(** [clearLease] *)
Definition clearLease (o : nat) : SM unit :=
  let* s := the o in
  match lease_timer s with
  | Some t => do clearTimeout (Some t) ;; mutate o (set_lease_timer None)
  | None => ret tt
  end.

(** [extendLease] *)
Definition extendLease (o : nat) : SM unit :=
  do clearLease o ;;
  let* s := the o in
  let* t := setTimeout (lease_expiry o) (lease_ttl_ms (config s)) in
  mutate o (set_lease_timer (Some t)).

(** [tokenSubject] *)
Definition tokenSubject (s : SubscriptionRecord) : string := "subscription:" +:+ sub_id (config s).

(** The token of the current generation. *)
Definition issue_token (o : nat) : SM unit :=
  let* s := the o in
  let* n := draw in
  mutate o (set_token (Some (generateCallbackToken now (random_hex n) (tokenSubject s) (generation s)))).

(** *** Deliveries *)

Definition opt_json (v : option string) : json := match v with Some s => JStr s | None => JNull end.

(** A [SubscriptionStreamInfo] as JSON. *)
Definition info_json (i : SubscriptionStreamInfo) : json :=
  JObj ([("path"%string, JStr (info_path i));
         ("link_type"%string, JStr (link_type_text (info_link_type i)))] ++
        member "acked_offset" (JStr <$> info_acked_offset i) ++
        [("tail_offset"%string, JStr (info_tail_offset i)); ("has_pending"%string, JBool (has_pending i))]).

(** [subscriptionActionUrl] *)
Definition subscriptionActionUrl (s : SubscriptionRecord) (action : string) : string :=
  URL_resolve ("/v1/stream/__ds/subscriptions/" +:+ encodeURIComponent (sub_id (config s)) +:+ "/" +:+ action)
    callbackBaseUrl.

(** [deliverWebhook], up to its [fetch] *)
Definition deliverWebhook (o : nat) (triggeredBy : list string) : SM unit :=
  let* s := the o in
  match webhook_url (config s), wake_id s, token s with
  | Some url, Some wake, Some tok =>
      if negb (nonempty wake && nonempty tok) then ret tt
      else
        let* infos := streamInfos o in
        let body := stringify (JObj
          [("subscription_id"%string, JStr (sub_id (config s))); ("wake_id"%string, JStr wake);
           ("generation"%string, JNum (js_String (generation s)));
           ("streams"%string, JArr (info_json <$> infos));
           ("callback_url"%string, JStr (subscriptionActionUrl s "callback"));
           ("callback_token"%string, JStr tok)]) in
        let* d := fresh_id in
        on_mgr (upd_deliveries (insert d
          (mkDelivery o triggeredBy url body (signWebhookPayload now body) false)))
  | _, _, _ => ret tt
  end.

(** [Math.min(1000 * Math.pow(2, Math.max(0, count - 1)), MAX)] *)
Definition base_delay (retry_count : Z) : Z :=
  Z.min (1000 * 2 ^ Z.max 0 (retry_count - 1)) MAX_RETRY_DELAY_MS.

(** [clearTimeout(subscription.retry_timer)] *)
Definition clear_retry (o : nat) : SM unit := let* s := the o in clearTimeout (retry_timer s).

(** [scheduleWebhookRetry] *)
Definition scheduleWebhookRetry (o : nat) (triggeredBy : list string) : SM unit :=
  let* m := the_manager in
  if isShuttingDown m then ret tt
  else
    let* s := the o in
    let retry_count := retry_count s + 1 in
    let* n := draw in
    let delay := jittered n (base_delay retry_count) in
    do clear_retry o ;;
    let* t := setTimeout (webhook_retry o triggeredBy) delay in
    mutate o (fun s => set_retry retry_count (Some t) (Some (now + delay)) (set_status failed s)).

(** [writePullWakeEvent] *)
Definition writePullWakeEvent (o : nat) (streamPath : string) : SM unit :=
  let* s := the o in
  match wake_stream (config s) with
  | None => ret tt
  | Some ws =>
      if String.eqb ws EmptyString then ret tt
      else
        let wakeStream := toAbsoluteStreamPath ws in
        let* present := on_sstore (call (ss_has now wakeStream)) in
        if negb present then ret tt
        else
          on_sstore (ss_append now wakeStream (encode_text (stringify (JObj
            [("type"%string, JStr "wake"); ("subscription_id"%string, JStr (sub_id (config s)));
             ("stream"%string, JStr streamPath); ("generation"%string, JNum (js_String (generation s)));
             ("ts"%string, JNum (js_String now))]))))
  end.

(** [createWake] *)
Definition createWake (o : nat) (triggeredBy : string) : SM unit :=
  let* n := draw in
  do mutate o (fun s => set_wake (generation s + 1) (Some ("w_" +:+ random_hex n)) (wake_snapshot s) s) ;;
  let* infos := streamInfos o in
  do mutate o (fun s => set_wake (generation s) (wake_id s)
       (foldl (fun m i => map_set (info_path i) (info_tail_offset i) m) [] infos) s) ;;
  let* s := the o in
  if decide (type (config s) = webhook) then
    do issue_token o ;;
    do extendLease o ;;
    deliverWebhook o [triggeredBy]
  else writePullWakeEvent o triggeredBy.

(** [maybeWake] *)
Definition maybeWake (o : nat) (triggeredBy : string) : SM unit :=
  let* s := the o in
  if truthy (wake_id s) || truthy (holder s) then ret tt
  else
    let* pending := hasPendingWork o in
    if pending then createWake o triggeredBy else ret tt.

(** [triggerNextWakeIfPending] *)
Definition triggerNextWakeIfPending (o : nat) : SM bool :=
  let* pending := hasPendingWork o in
  if negb pending then ret false
  else
    let* first := firstPendingStream o in
    do createWake o first ;;
    ret true.

(** What every end of a wake does. *)
Definition end_wake (o : nat) : SM bool :=
  do clearLease o ;;
  do mutate o clear_wake ;;
  triggerNextWakeIfPending o.

(** *** Creating and configuring *)

(** The error of a method that answers with one. *)
Record SubscriptionError := mkError { err_code : string; err_message : string }.

Definition link_all (o : nat) (linkType : SubscriptionLinkType) (paths : list string) : SM unit :=
  for_m (fun p => let* tail := getTailOffset p in linkStream o p linkType (Some tail)) paths.

(** [listStreams] *)
Definition listStreams : SM (list string) :=
  let* st := get_state in ret (omap toStreamRelativePath (ss_list (sstore st))).

(** The checks of [createOrConfirm] on a new subscription. *)
Definition create_error (input : SubscriptionCreateInput) : option SubscriptionError :=
  if decide (in_type input = webhook) then
    if negb webhooksEnabled
    then Some (mkError "INVALID_REQUEST" "webhook subscriptions are not enabled on this server")
    else
      match in_webhook input with
      | None => Some (mkError "INVALID_REQUEST" "webhook subscriptions require webhook.url")
      | Some url => mkError "WEBHOOK_URL_REJECTED" <$> validateWebhookUrl url
      end
  else if negb (truthy (in_wake_stream input))
  then Some (mkError "INVALID_REQUEST" "pull-wake subscriptions require wake_stream")
  else None.

(** [createOrConfirm]: the object and whether it is new. *)
Definition createOrConfirm (id : string) (input : SubscriptionCreateInput)
    : SM (result SubscriptionError (nat * bool)) :=
  let configHash := stableConfigHash input in
  let* existing := get id in
  match existing with
  | Some o =>
      let* s := the o in
      if negb (String.eqb (config_hash (config s)) configHash)
      then ret (Err (mkError "SUBSCRIPTION_ALREADY_EXISTS"
                       "Subscription already exists with different configuration"))
      else ret (Ok (o, false))
  | None =>
      match create_error input with
      | Some e => ret (Err e)
      | None =>
          let* o := fresh_id in
          do on_mgr (upd_objects (insert o (mkSubscription
               (mkConfig id (in_type input) (in_pattern input) (in_webhook input) (in_wake_stream input)
                  (in_lease_ttl_ms input) (in_description input) now configHash)
               active [] 0 None [] None None None 0 None None))) ;;
          do link_all o explicit (in_streams input) ;;
          do (if truthy (in_pattern input) then
                let* listed := listStreams in
                link_all o glob
                  (List.filter (globMatch (or_else (in_pattern input) EmptyString)) listed)
              else ret tt) ;;
          do on_mgr (upd_subscriptions (map_set id o)) ;;
          ret (Ok (o, true))
      end
  end.

(** [delete] *)
Definition delete_ (id : string) : SM bool :=
  let* found := get id in
  match found with
  | None => ret false
  | Some o =>
      do clearLease o ;;
      do clear_retry o ;;
      do on_mgr (upd_subscriptions (map_delete id)) ;;
      ret true
  end.

(** [addExplicitStreams] *)
Definition addExplicitStreams (id : string) (paths : list string) : SM bool :=
  let* found := get id in
  match found with
  | None => ret false
  | Some o => do link_all o explicit paths ;; ret true
  end.

(** [removeExplicitStream] *)
Definition unlink (streamPath : string) (s : SubscriptionRecord) : SubscriptionRecord :=
  let normalized := normalizeRelativePath streamPath in
  match map_get normalized (streams s) with
  | None => s
  | Some l =>
      if has_glob l
      then set_streams (map_set normalized (mkLink (link_path l) true false (acked_offset l)) (streams s)) s
      else set_streams (map_delete normalized (streams s)) s
  end.

Definition removeExplicitStream (id streamPath : string) : SM bool :=
  let* found := get id in
  match found with
  | None => ret false
  | Some o => do mutate o (unlink streamPath) ;; ret true
  end.

(** *** Events of the streams *)

(** [onStreamAppend]: what it does for one subscription, and the loop *)
Definition on_append (relative : string) (o : nat) : SM unit :=
  let* s := the o in
  do (if truthy (pattern (config s)) && globMatch (or_else (pattern (config s)) EmptyString) relative
      then
        linkStream o relative glob
          match map_get relative (streams s) with
          | Some existing =>
              match acked_offset existing with Some a => Some a | None => Some BEFORE_FIRST_OFFSET end
          | None => Some BEFORE_FIRST_OFFSET
          end
      else ret tt) ;;
  let* s := the o in
  if map_has relative (streams s) then maybeWake o relative else ret tt.

Definition onStreamAppend (absolutePath : string) : SM unit :=
  let* m := the_manager in
  if isShuttingDown m then ret tt
  else
    match toStreamRelativePath absolutePath with
    | None => ret tt
    | Some relative => for_m (on_append relative) (map snd (subscriptions m))
    end.

(** [onStreamDeleted] *)
Definition onStreamDeleted (absolutePath : string) : SM unit :=
  let* m := the_manager in
  match toStreamRelativePath absolutePath with
  | None => ret tt
  | Some relative =>
      for_m (fun o => mutate o (fun s => set_streams (map_delete relative (streams s)) s))
        (map snd (subscriptions m))
  end.

(** *** Acknowledgements *)

(** [errorResponse] *)
Definition errorResponse (status : Z) (code message : string) : MResponse :=
  mkMResponse status (Some (JObj
    [("error"%string, JObj [("code"%string, JStr code); ("message"%string, JStr message)])])).

Definition not_found : MResponse :=
  errorResponse 404 "SUBSCRIPTION_NOT_FOUND" "Subscription not found".
Definition not_pull_wake : MResponse :=
  errorResponse 400 "INVALID_REQUEST" "Subscription is not pull-wake".

Definition ack_target (a : Ack) : string :=
  normalizeRelativePath
    match ack_stream a with Some s => s | None => or_else (ack_path a) EmptyString end.

(** The checks of [applyAcks] on one acknowledgement. *)
Definition check_ack (o : nat) (a : Ack) : SM (option MResponse) :=
  let* s := the o in
  let stream := ack_target a in
  match map_get stream (streams s) with
  | None => ret (Some (errorResponse 409 "INVALID_OFFSET" "Ack references an unknown subscription stream"))
  | Some l =>
      if String.eqb stream EmptyString
      then ret (Some (errorResponse 409 "INVALID_OFFSET" "Ack references an unknown subscription stream"))
      else if bool_decide (ack_offset a = Some BEFORE_FIRST_OFFSET)
      then ret (Some (errorResponse 409 "INVALID_OFFSET" "Ack offset must not be -1"))
      else if offset_gt (acked_offset l) (ack_offset a)
      then ret (Some (errorResponse 409 "INVALID_OFFSET" "Ack offset regresses the committed cursor"))
      else
        let* tail := getTailOffset stream in
        if offset_gt (ack_offset a) (Some tail)
        then ret (Some (errorResponse 409 "INVALID_OFFSET" "Ack offset is beyond stream tail"))
        else ret None
  end.

Fixpoint check_acks (o : nat) (acks : list Ack) : SM (option MResponse) :=
  match acks with
  | [] => ret None
  | a :: acks =>
      let* e := check_ack o a in
      match e with Some e => ret (Some e) | None => check_acks o acks end
  end.

Definition commit_ack (a : Ack) (s : SubscriptionRecord) : SubscriptionRecord :=
  set_streams (map_alter (fun l => mkLink (link_path l) (has_glob l) (has_explicit l) (ack_offset a))
                 (ack_target a) (streams s)) s.

(** [applyAcks] *)
Definition applyAcks (o : nat) (request : SubscriptionCallbackRequest) : SM (option MResponse) :=
  match cb_acks request with
  | None => ret None
  | Some acks =>
      let* e := check_acks o acks in
      match e with
      | Some e => ret (Some e)
      | None => do for_m (fun a => mutate o (commit_ack a)) acks ;; ret None
      end
  end.

(** [autoAckWakeSnapshot] *)
Definition auto_ack (s : SubscriptionRecord) : SubscriptionRecord :=
  set_streams (foldl (fun m kv =>
    map_alter (fun l => mkLink (link_path l) (has_glob l) (has_explicit l) (Some kv.2)) kv.1 m)
    (streams s) (wake_snapshot s)) s.

(** *** Callbacks and claims *)

(** [v === n] and [v === w], where [w] is a string or [null] *)
Definition is_number (n : Z) (v : option json) : bool :=
  match v with Some (JNum t) => String.eqb t (js_String n) | _ => false end.

Definition is_wake (w : option string) (v : option json) : bool :=
  match w with
  | Some w => is_string w v
  | None => match v with Some JNull => true | _ => false end
  end.

(** [validateWakeToken]; [None] when the request is let through.  A payload
    that only the server could have signed and that it never makes is treated as
    an invalid token. *)
Definition validateWakeToken (s : SubscriptionRecord) (tok : string)
    (request : SubscriptionCallbackRequest) : option MResponse :=
  match validateCallbackToken now tok (tokenSubject s) with
  | token_invalid code =>
      Some (errorResponse 401 code
        (if String.eqb code TOKEN_EXPIRED then "Token expired" else "Token invalid"))
  | token_foreign => Some (errorResponse 401 TOKEN_INVALID "Token invalid")
  | token_valid _ epoch =>
      if negb (is_number (generation s) epoch) || negb (is_number (generation s) (cb_generation request)) ||
         negb (is_wake (wake_id s) (cb_wake_id request))
      then Some (errorResponse 409 "FENCED" "Wake generation is stale")
      else None
  end.

(** What [handleWebhookCallback] and [ack] have in common. *)
Definition acknowledge (o : nat) (tok : string) (request : SubscriptionCallbackRequest) : SM MResponse :=
  let* s := the o in
  match validateWakeToken s tok request with
  | Some fenced => ret fenced
  | None =>
      let* ackError := applyAcks o request in
      match ackError with
      | Some e => ret e
      | None =>
          do extendLease o ;;
          let* nextWake := (if cb_done request then end_wake o else ret false) in
          ret (mkMResponse 200 (Some (JObj
            [("ok"%string, JBool true); ("next_wake"%string, JBool nextWake)])))
      end
  end.

(** [handleWebhookCallback] *)
Definition handleWebhookCallback (id tok : string) (request : SubscriptionCallbackRequest) : SM MResponse :=
  let* found := get id in
  match found with
  | None => ret not_found
  | Some o => acknowledge o tok request
  end.

(** [ack] *)
Definition ack (id tok : string) (request : SubscriptionCallbackRequest) : SM MResponse :=
  let* found := get id in
  match found with
  | None => ret not_found
  | Some o =>
      let* s := the o in
      if negb (bool_decide (type (config s) = pull_wake)) then ret not_pull_wake
      else acknowledge o tok request
  end.

(** [release] *)
Definition release (id tok : string) (request : SubscriptionCallbackRequest) : SM MResponse :=
  let* found := get id in
  match found with
  | None => ret not_found
  | Some o =>
      let* s := the o in
      if negb (bool_decide (type (config s) = pull_wake)) then ret not_pull_wake
      else
        match validateWakeToken s tok request with
        | Some fenced => ret fenced
        | None => let* _ := end_wake o in ret (mkMResponse 204 None)
        end
  end.

(** [claim], up to the [await] of [createWake]: the answer, or the object and
    the worker it goes on with. *)
Inductive Claimed :=
| Answered (r : MResponse)
| Claiming (o : nat) (worker : string).

(** [claim] from there on *)
Definition finish_claim (o : nat) (worker : string) : SM MResponse :=
  do mutate o (set_holder (Some worker)) ;;
  do issue_token o ;;
  do extendLease o ;;
  let* s := the o in
  let* infos := streamInfos o in
  ret (mkMResponse 200 (Some (JObj
    [("wake_id"%string, opt_json (wake_id s)); ("generation"%string, JNum (js_String (generation s)));
     ("token"%string, opt_json (token s)); ("streams"%string, JArr (info_json <$> infos));
     ("lease_ttl_ms"%string, JNum (js_String (lease_ttl_ms (config s))))]))).

Definition claim (id worker : string) : SM Claimed :=
  let* found := get id in
  match found with
  | None => ret (Answered not_found)
  | Some o =>
      let* s := the o in
      if negb (bool_decide (type (config s) = pull_wake)) then ret (Answered not_pull_wake)
      else if truthy (holder s) then
        ret (Answered (mkMResponse 409 (Some (JObj [("error"%string, JObj
          [("code"%string, JStr "ALREADY_CLAIMED"); ("current_holder"%string, opt_json (holder s));
           ("generation"%string, JNum (js_String (generation s)))])]))))
      else
        let* pending := hasPendingWork o in
        if negb pending
        then ret (Answered (errorResponse 409 "NO_PENDING_WORK" "Subscription has no pending work"))
        else if truthy (wake_id s) then let* r := finish_claim o worker in ret (Answered r)
        else
          let* first := firstPendingStream o in
          do createWake o first ;;
          ret (Claiming o worker)
  end.

(** *** Responses of webhooks, and timers *)

Definition the_delivery (d : nat) : SM (option Delivery) := fun w => (w, Ok (deliveries (mgr w) !! d)).

(** [deliverWebhook] when [fetch] is settled; [ok] is false for an error status
    and for a network error. *)
Definition delivery_response (d : nat) (ok : bool) : SM unit :=
  let* found := the_delivery d in
  match found with
  | None => ret tt
  | Some dl =>
      if dl_reading dl then ret tt
      else if negb ok then
        do on_mgr (upd_deliveries (delete d)) ;;
        scheduleWebhookRetry (dl_object dl) (dl_triggeredBy dl)
      else
        do mutate (dl_object dl) (fun s => set_retry 0 (retry_timer s) None (set_status active s)) ;;
        on_mgr (upd_deliveries (insert d (mkDelivery (dl_object dl) (dl_triggeredBy dl) (dl_url dl)
          (dl_body dl) (dl_signature dl) true)))
  end.

(** ... and when the body has been read; [done_] is [parsed?.done === true]. *)
Definition delivery_body (d : nat) (done_ : bool) : SM unit :=
  let* found := the_delivery d in
  match found with
  | None => ret tt
  | Some dl =>
      if negb (dl_reading dl) then ret tt
      else
        do on_mgr (upd_deliveries (delete d)) ;;
        if done_ then
          try_catch
            (do mutate (dl_object dl) auto_ack ;; let* _ := end_wake (dl_object dl) in ret tt)
            (fun _ => scheduleWebhookRetry (dl_object dl) (dl_triggeredBy dl))
        else ret tt
  end.

(** A timer fires. *)
Definition timer_fires (t : nat) : SM unit :=
  let* m := the_manager in
  match timers m !! t with
  | None => ret tt
  | Some timer =>
      do on_mgr (upd_timers (delete t)) ;;
      match tm_callback timer with
      | lease_expiry o =>
          do mutate o (set_lease_timer None) ;;
          do mutate o clear_wake ;;
          let* _ := triggerNextWakeIfPending o in
          ret tt
      | webhook_retry o triggeredBy =>
          do mutate o (fun s => set_retry (retry_count s) None (next_attempt_at s) s) ;;
          deliverWebhook o triggeredBy
      end
  end.

(** [shutdown] *)
Definition shutdown : SM unit :=
  do on_mgr (fun m => mkManager (objects m) (subscriptions m) true (timers m) (deliveries m) (nextId m)
       (draws m)) ;;
  let* m := the_manager in
  do for_m (fun o => do clearLease o ;; clear_retry o)
       (map snd (subscriptions m)) ;;
  on_mgr (upd_subscriptions (fun _ => [])).

(** *** The view of a subscription *)

(** [serialize]; [toISOString] of the creation time is an argument. *)
Definition serialize (toISOString : Z -> string) (o : nat) : SM json :=
  let* s := the o in
  let* infos := streamInfos o in
  let c := config s in
  ret (JObj (
    [("id"%string, JStr (sub_id c)); ("subscription_id"%string, JStr (sub_id c));
     ("type"%string, JStr (type_text (type c)))] ++
    member "pattern" (JStr <$> pattern c) ++
    [("streams"%string, JArr ((fun i => JObj (
        [("path"%string, JStr (info_path i));
         ("link_type"%string, JStr (link_type_text (info_link_type i)))] ++
        member "acked_offset" (JStr <$> info_acked_offset i))) <$> infos))] ++
    member "webhook" ((fun url => JObj
      [("url"%string, JStr url);
       ("signing"%string, JObj [("alg"%string, JStr "ed25519"); ("kid"%string, JStr WEBHOOK_KID);
          ("jwks_url"%string, JStr (URL_resolve "/v1/stream/__ds/jwks.json" callbackBaseUrl))])])
      <$> webhook_url c) ++
    member "wake_stream" (JStr <$> wake_stream c) ++
    [("lease_ttl_ms"%string, JNum (js_String (lease_ttl_ms c)));
     ("created_at"%string, JStr (toISOString (created_at c)));
     ("status"%string, JStr (status_text (status s)))] ++
    member "description" (JStr <$> description c))).
End manager.

Definition new_manager : SubscriptionManager := mkManager ∅ [] false ∅ ∅ 0 0.
