(* ===== verification/SubscriptionStore.v ===== *)
(** * The in-memory store as the store of the subscription manager

    [StreamStore] implements the interface [SubscriptionStreamStore] of
    Subscription and keeps its laws: a call about one stream moves no other
    stream's tail, except that expired streams disappear. *)

From S2P Require Import Prelude Text Json Types StreamStore StoreLemmas StoreSteps StoreGraph ForkRead StoreTheorems.
From S2P Require Subscription.
Local Open Scope js_scope.

(** The streams outside [X] that are still there have the offset and the expiry
    they had, and a fork now only if they had one. *)
Definition fading (X : string -> Prop) (ss ss' : gmap string Stream) : Prop :=
  forall p s', ss' !! p = Some s' -> ~ X p ->
    exists s, ss !! p = Some s /\ currentOffset s' = currentOffset s /\ same_expiry s s' /\
      (0 < refCount s' -> 0 < refCount s).

Definition fades (X : string -> Prop) (st st' : StreamStore) : Prop :=
  fading X (streams st) (streams st').

#[export] Instance fading_preorder X : PreOrder (fading X).
Proof.
  split.
  - intros ss p s' Hs' _. exists s'. by split_and!.
  - intros a b c Hab Hbc p s'' Hc HX. destruct (Hbc p s'' Hc HX) as (s' & Hb & Ho & He & Hr).
    destruct (Hab p s' Hb HX) as (s & Ha & Ho' & He' & Hr').
    exists s. unfold same_expiry in *. destruct He as (? & ? & ?), He' as (? & ? & ?).
    split_and!; [done|congruence..|auto].
Qed.

#[export] Instance fades_preorder X : PreOrder (fades X).
Proof. split; [intros st; unfold fades; reflexivity|intros a b c ??; unfold fades in *; by etransitivity]. Qed.

Section fades.
Context `{!JsonLib} `{!DateLib}.
Context (now : Z) (X : string -> Prop).

Lemma fading_alter p f ss :
  (forall s, ss !! p = Some s -> ~ X p -> currentOffset (f s) = currentOffset s /\ same_expiry s (f s) /\
     (0 < refCount (f s) -> 0 < refCount s)) ->
  fading X ss (alter f p ss).
Proof.
  intros Hf q s'. intros [(-> & s & Hs & ->)|[_ Hs]]%lookup_alter_Some HX.
  - exists s. destruct (Hf s Hs HX) as (? & ? & ?). by split_and!.
  - exists s'. by split_and!.
Qed.

Lemma fading_delete p ss : fading X ss (delete p ss).
Proof. intros q s' [_ Hs']%lookup_delete_Some _. exists s'. by split_and!. Qed.

Lemma fading_cascade p ss : fading X ss (cascade p ss).
Proof.
  unfold cascade. generalize (S (size ss)) as fuel. intros fuel. revert p ss.
  induction fuel as [|fuel IH]; intros p ss; cbn [cascade_fuel]; [reflexivity|].
  destruct (ss !! p) as [s|]; [|reflexivity].
  etransitivity; [apply (fading_delete p)|].
  destruct (truthy _); [|reflexivity]. destruct (delete p ss !! _) as [parent|] eqn:Hpar; [|reflexivity].
  etransitivity; [|destruct (_ && _); [apply IH|reflexivity]].
  apply fading_alter. intros t Ht _. rewrite Hpar in Ht. injection Ht as <-. split_and!; try done. cbn. lia.
Qed.

Lemma fades_upd p f st :
  (forall s, ~ X p -> currentOffset (f s) = currentOffset s /\ same_expiry s (f s) /\ refCount (f s) = refCount s) ->
  fades X st (upd_stream p f st).
Proof.
  intros Hf. apply fading_alter. intros s _ HX. destruct (Hf s HX) as (? & ? & ->). by split_and!.
Qed.

Lemma fades_getIfNotExpired p st : fades X st (getIfNotExpired now p st).1.
Proof.
  unfold fades. rewrite getIfNotExpired_streams. unfold expire.
  destruct (streams st !! p) as [s|] eqn:Hs; [|reflexivity].
  destruct (isExpired now s); [|reflexivity]. destruct (_ <? _).
  - apply fading_alter. intros t _ _. by split_and!.
  - destruct (softDeleted s); [reflexivity|apply fading_cascade].
Qed.

#[local] Hint Extern 0 (monotone (fades _) (call (getIfNotExpired _ _))) =>
  apply mono_call, fades_getIfNotExpired : mono.

Lemma fades_pending_resolve q msgs st : fades X st (pending_resolve now q msgs st).
Proof.
  unfold pending_resolve, pending_resolve_step.
  pose proof (fades_getIfNotExpired (lp_path q)
    (removePendingLongPoll q (clearTimeout (lp_id q) st))) as Hg.
  destruct (getIfNotExpired _ _ _) as [st' r]. exact Hg.
Qed.

Lemma fades_notify_closed p st : fades X st (notifyLongPollsClosed now p st).
Proof. apply (mono_foldl (fades X)). intros. apply fades_pending_resolve. Qed.

#[local] Hint Extern 0 (monotone (fades _) (modify (notifyLongPollsClosed _ _))) =>
  apply mono_modify, fades_notify_closed : mono.
#[local] Hint Extern 0 (monotone (fades _) (modify (pending_resolve _ _ _))) =>
  apply mono_modify; intros; apply fades_pending_resolve : mono.

Lemma fades_readForked q off cap : monotone (fades X) (readForkedMessages q off cap).
Proof. intros st. rewrite readForkedMessages_state. reflexivity. Qed.
#[local] Hint Resolve fades_readForked : mono.

Lemma fades_read p off : monotone (fades X) (read now p off).
Proof. unfold read, readFromFork. mono_steps. Qed.
#[local] Hint Resolve fades_read : mono.

Lemma fades_notifyLongPolls p : monotone (fades X) (notifyLongPolls now p).
Proof.
  intros st. unfold notifyLongPolls. revert st.
  enough (forall l, monotone (fades X) (notify_each now p l)) as Hl by (intros st; apply Hl).
  induction l as [|q l IH]; cbn [notify_each]; mono_steps.
Qed.
#[local] Hint Resolve fades_notifyLongPolls : mono.

(** An append moves the tail of its own stream only. *)
Lemma fades_append p data o : X p -> monotone (fades X) (append now p data o).
Proof.
  intros HX. assert (Hmod : forall f, monotone (fades X) (modify (E := StoreError) (upd_stream p f)))
    by (intros f; apply mono_modify; intros st; by apply fades_upd).
  unfold append. mono_steps.
Qed.

Lemma fades_get p st : fades X st (get now p st).1.
Proof. rewrite get_getIfNotExpired. apply fades_getIfNotExpired. Qed.

Lemma fades_has p st : fades X st (has now p st).1.
Proof. unfold has. pose proof (fades_get p st) as Hg. by destruct (get now p st) as [st' [s|]]. Qed.
End fades.

(** ** The instance *)

Section instance.
Context `{!JsonLib} `{!DateLib}.

Definition no_options : AppendOptions := mkAppendOptions None None None None None None.

#[export] Instance StreamStore_subscriptions : Subscription.SubscriptionStreamStore StreamStore StoreError := {|
  Subscription.ss_has now p st := has now p st;
  Subscription.ss_get now p st := let '(st', s) := get now p st in (st', currentOffset <$> s);
  Subscription.ss_list st := elements (list_ st);
  Subscription.ss_append now p data := bind (append now p data no_options) (fun _ => ret tt);
|}.

(** What [get] would answer. *)
Definition store_tail (now : Z) (st : StreamStore) (p : string) : option string :=
  s ← streams st !! p; if isExpired now s && negb (0 <? refCount s) then None else Some (currentOffset s).

Lemma store_tail_get now p st : currentOffset <$> (get now p st).2 = store_tail now st p.
Proof.
  unfold get, store_tail. destruct (streams st !! p) as [s|]; [|done]. cbn.
  destruct (isExpired now s); [|done]. by destruct (0 <? refCount s).
Qed.

Lemma store_tail_fades now X st st' q :
  fades X st st' -> ~ X q -> store_tail now st' q = store_tail now st q \/ store_tail now st' q = None.
Proof.
  intros Hf HX. unfold store_tail. destruct (streams st' !! q) as [s'|] eqn:Hs'; [|by right].
  destruct (Hf q s' Hs' HX) as (s & -> & Ho & He & Hr). cbn. rewrite (isExpired_same now s s') by done.
  destruct (isExpired now s); cbn [andb]; [|left; by rewrite Ho].
  destruct (Z.ltb_spec 0 (refCount s')); [|by right].
  destruct (Z.ltb_spec 0 (refCount s)); [left; by rewrite Ho|lia].
Qed.

Lemma isExpired_later now now' s : now <= now' -> isExpired now s = true -> isExpired now' s = true.
Proof.
  intros Hle. unfold isExpired.
  destruct (match expiresAt s with Some _ => _ | None => _ end) eqn:He.
  - intros _. destruct (expiresAt s) as [e|]; [|done]. destruct (String.eqb e EmptyString); [done|].
    destruct (date_getTime e); [|done]. apply Z.leb_le in He.
    by rewrite (proj2 (Z.leb_le _ _)) by lia.
  - destruct (ttlSeconds s) as [ttl|]; [|done]. intros Ht%Z.leb_le. cbv zeta.
    match goal with |- (if ?b then _ else _) = _ => destruct b; [done|] end. apply Z.leb_le. lia.
Qed.

#[export] Program Instance StreamStore_laws : Subscription.SubscriptionStreamStoreLaws StreamStore StoreError := {|
  Subscription.tail := store_tail;
|}.
Next Obligation.
  intros now p st. cbn. rewrite <-store_tail_get. by destruct (get now p st).
Qed.
Next Obligation.
  intros now p st q. apply (store_tail_fades now (fun _ => False)); [|tauto]. cbn.
  pose proof (fades_get now (fun _ => False) p st) as Hg. by destruct (get now p st).
Qed.
Next Obligation.
  intros now p st q. apply (store_tail_fades now (fun _ => False)); [|tauto]. apply fades_has.
Qed.
Next Obligation.
  intros now p data st q Hq. apply (store_tail_fades now (fun x => x = p)); [|done].
  cbn. apply (mono_bind _); [by apply fades_append|]. intros. apply (mono_ret _).
Qed.
Next Obligation.
  intros now now' st q Hle. unfold store_tail. destruct (streams st !! q) as [s|]; [|by left]. cbn.
  destruct (isExpired now s) eqn:He.
  - rewrite (isExpired_later now now') by done. by left.
  - destruct (isExpired now' s); [|by left]. destruct (0 <? refCount s); [by left|by right].
Qed.
End instance.
