(* ===== verification/SubscriptionLemmas.v ===== *)
(** * What the methods of the subscription manager may touch

    [acts o]: a method that is about the subscription object [o] keeps the
    manager well-formed, leaves every other object and its lease alone, keeps
    the configuration, never lowers the generation, and moves no tail except
    those of wake streams ([W]). *)

From S2P Require Import Prelude Text Json Glob JsMap Tokens Subscription.
Local Open Scope js_scope.
Set Default Proof Using "Type".

(** ** Normalised paths *)

Definition not_slash (a : ascii) : bool := negb (Ascii.eqb a "/").

Lemma drop_leading_chars s : chars (drop_leading "/" s) = drop_until not_slash (chars s).
Proof.
  induction s as [|a s IH]; [done|]. cbn [drop_leading chars drop_until]. unfold not_slash at 1.
  by destruct (Ascii.eqb a "/").
Qed.

Lemma drop_until_idem {A} (p : A -> bool) l : drop_until p (drop_until p l) = drop_until p l.
Proof.
  induction l as [|a l IH]; [done|]. cbn. destruct (p a) eqn:Ha; [|done]. cbn. by rewrite Ha.
Qed.

Lemma drop_until_snoc {A} (p : A -> bool) l a :
  p a = true -> exists k, drop_until p (l ++ [a]) = k ++ [a].
Proof.
  intros Ha. induction l as [|b l [k IH]]; cbn; [by rewrite Ha; exists []|].
  destruct (p b); [by exists (b :: l)|by exists k].
Qed.

Lemma drop_until_head {A} (p : A -> bool) l :
  drop_until p l = [] \/ exists a k, drop_until p l = a :: k /\ p a = true.
Proof.
  induction l as [|b l IH]; [by left|]. cbn. destruct (p b) eqn:Hb; [right; eauto|exact IH].
Qed.

Lemma normalize_chars s :
  chars (normalizeRelativePath s) =
    reverse (drop_until not_slash (reverse (drop_until not_slash (chars s)))).
Proof.
  unfold normalizeRelativePath, drop_trailing.
  by rewrite chars_of_chars, drop_leading_chars, chars_of_chars, drop_leading_chars.
Qed.

Lemma normalize_idem s : normalizeRelativePath (normalizeRelativePath s) = normalizeRelativePath s.
Proof.
  apply (inj chars). rewrite normalize_chars, (normalize_chars s).
  set (m := drop_until not_slash (chars s)).
  assert (Hd : drop_until not_slash (reverse (drop_until not_slash (reverse m))) =
    reverse (drop_until not_slash (reverse m))).
  { destruct (drop_until_head not_slash (chars s)) as [Hm|(a & k & Hm & Ha)]; fold m in Hm; rewrite Hm; [done|].
    rewrite reverse_cons. destruct (drop_until_snoc not_slash (reverse k) a Ha) as [y ->].
    rewrite reverse_snoc. cbn. by rewrite Ha. }
  by rewrite Hd, reverse_involutive, drop_until_idem.
Qed.

(** A path in the form [linkStream] stores. *)
Definition normal (k : string) : Prop := normalizeRelativePath k = k.

Lemma relative_absolute k r :
  normal k -> toStreamRelativePath (toAbsoluteStreamPath k) = Some r -> r = k.
Proof.
  unfold normal, toAbsoluteStreamPath, toStreamRelativePath. intros ->.
  assert (Hdrop : str_drop (String.length STREAM_ROOT) (STREAM_ROOT +:+ k) = k) by reflexivity.
  rewrite Hdrop. destruct (negb _); [done|]. destruct (_ || _); [done|]. by destruct (_ <? _)%nat; intros [= <-].
Qed.

(** ** Well-formed managers *)

(** The links of a subscription: distinct, under their own normalised paths,
    with an acknowledged offset. *)
Definition links_ok (m : list (string * SubscriptionStreamLink)) : Prop :=
  map_ok m /\
  forall k l, map_get k m = Some l -> link_path l = k /\ normal k /\ acked_offset l <> None.

Section ok.
Context (W : string -> Prop).

Definition is_lease (o : nat) (m : SubscriptionManager) (t : nat) : Prop :=
  exists d, timers m !! t = Some (mkTimer (lease_expiry o) d).

Record manager_ok (m : SubscriptionManager) : Prop := {
  ok_objects o : (nextId m <= o)%nat -> objects m !! o = None;
  ok_timers t : (nextId m <= t)%nat -> timers m !! t = None;
  ok_lease o s t : objects m !! o = Some s -> lease_timer s = Some t -> is_lease o m t;
  ok_retry o s t : objects m !! o = Some s -> retry_timer s = Some t ->
    (t < nextId m)%nat /\ forall o', ~ is_lease o' m t;
  ok_links o s : objects m !! o = Some s -> links_ok (streams s);
  ok_wakes o s ws : objects m !! o = Some s -> wake_stream (config s) = Some ws ->
    W (toAbsoluteStreamPath ws);
  ok_registered : NoDup (subscriptions m).*2 /\
    forall o, o ∈ (subscriptions m).*2 -> is_Some (objects m !! o);
}.

(** What is left alone by a method about [o]. *)
Record leaves (o : nat) (m m' : SubscriptionManager) : Prop := {
  lv_subscriptions : subscriptions m' = subscriptions m;
  lv_shutting : isShuttingDown m' = isShuttingDown m;
  lv_next : (nextId m <= nextId m')%nat;
  lv_others o' : o' <> o -> objects m' !! o' = objects m !! o';
  lv_object s : objects m !! o = Some s ->
    exists s', objects m' !! o = Some s' /\ config s' = config s /\ generation s <= generation s';
  lv_absent : objects m !! o = None -> objects m' !! o = None;
  lv_leases o' t : o' <> o -> is_lease o' m t -> is_lease o' m' t;
}.

Lemma leaves_refl o m : leaves o m m.
Proof. split; try done. intros s Hs. exists s. split_and!; done. Qed.

Lemma leaves_same o m m' :
  objects m' = objects m -> subscriptions m' = subscriptions m -> isShuttingDown m' = isShuttingDown m ->
  timers m' = timers m -> (nextId m <= nextId m')%nat -> leaves o m m'.
Proof.
  intros Ho Hs Hd Ht Hn. split; try done; rewrite ?Ho; try done.
  - intros s Hs'. exists s. by split_and!.
  - intros o' t _. unfold is_lease. by rewrite Ht.
Qed.

Lemma leaves_trans o a b c : leaves o a b -> leaves o b c -> leaves o a c.
Proof.
  intros H1 H2. split.
  - by rewrite (lv_subscriptions _ _ _ H2), (lv_subscriptions _ _ _ H1).
  - by rewrite (lv_shutting _ _ _ H2), (lv_shutting _ _ _ H1).
  - pose proof (lv_next _ _ _ H1). pose proof (lv_next _ _ _ H2). lia.
  - intros o' Ho. by rewrite (lv_others _ _ _ H2), (lv_others _ _ _ H1).
  - intros s Hs. destruct (lv_object _ _ _ H1 s Hs) as (s1 & Hs1 & Hc1 & Hg1).
    destruct (lv_object _ _ _ H2 s1 Hs1) as (s2 & Hs2 & Hc2 & Hg2).
    exists s2. split_and!; [done|congruence|lia].
  - intros Hs. by apply (lv_absent _ _ _ H2), (lv_absent _ _ _ H1).
  - intros o' t Ho Ht. by apply (lv_leases _ _ _ H2), (lv_leases _ _ _ H1).
Qed.
(** A method that changes the object at [o] by [f], and perhaps the timers. *)
Lemma manager_ok_alter o f m m' :
  manager_ok m -> objects m' = alter f o (objects m) -> subscriptions m' = subscriptions m ->
  (nextId m <= nextId m')%nat ->
  (forall s, config (f s) = config s /\ (links_ok (streams s) -> links_ok (streams (f s)))) ->
  (forall t, (nextId m' <= t)%nat -> timers m' !! t = None) ->
  (forall o' s t, alter f o (objects m) !! o' = Some s -> lease_timer s = Some t -> is_lease o' m' t) ->
  (forall o' s t, alter f o (objects m) !! o' = Some s -> retry_timer s = Some t ->
     (t < nextId m')%nat /\ forall o2, ~ is_lease o2 m' t) ->
  manager_ok m'.
Proof.
  intros Hok Ho Hs Hn Hf Ht Hl Hr. split; rewrite ?Ho, ?Hs; try done.
  - intros o' Ho'. apply lookup_alter_None, (ok_objects _ Hok). lia.
  - intros o' s [(<- & s0 & Hs0 & ->)|[_ Hs0]]%lookup_alter_Some; [|by apply (ok_links _ Hok o')].
    by apply Hf, (ok_links _ Hok o).
  - intros o' s ws [(<- & s0 & Hs0 & ->)|[_ Hs0]]%lookup_alter_Some; [|by apply (ok_wakes _ Hok o')].
    rewrite (proj1 (Hf s0)). by apply (ok_wakes _ Hok o).
  - destruct (ok_registered _ Hok) as [? Hreg]. split; [done|]. intros o' Ho'.
    apply lookup_alter_is_Some. by apply Hreg.
Qed.

Lemma leaves_alter o f m m' :
  objects m' = alter f o (objects m) -> subscriptions m' = subscriptions m ->
  isShuttingDown m' = isShuttingDown m -> (nextId m <= nextId m')%nat ->
  (forall s, config (f s) = config s /\ generation s <= generation (f s)) ->
  (forall o' t, o' <> o -> is_lease o' m t -> is_lease o' m' t) -> leaves o m m'.
Proof.
  intros Ho Hs Hd Hn Hf Hl. split; rewrite ?Ho; try done.
  - intros o' Hne. by apply lookup_alter_ne.
  - intros s Hs'. exists (f s). by rewrite lookup_alter_eq, Hs'.
  - intros Hs'. by rewrite lookup_alter_eq, Hs'.
Qed.
End ok.

Section acts.
Context `{!JsonLib} `{!CryptoLib} `{!UrlLib} {S E : Type} `{HStore : !SubscriptionStreamStore S E}
  `{HLaws : !SubscriptionStreamStoreLaws S E}.
Context (webhooksEnabled : bool) (callbackBaseUrl : string)
  (random_hex : nat -> string) (jittered : nat -> Z -> Z).
Context (W : string -> Prop) (now : Z).

(** No tail has moved but those of [W]; streams may have disappeared. *)
Definition shrinks (st st' : S) : Prop :=
  forall q, ~ W q -> tail now st' q = tail now st q \/ tail now st' q = None.

#[export] Instance shrinks_preorder : PreOrder shrinks.
Proof.
  split; [intros st q _; by left|]. intros a b c Hab Hbc q Hq.
  destruct (Hbc q Hq) as [->|Hn]; [by apply Hab|by right].
Qed.

(** A method about [o]. *)
Definition acts (o : nat) (w w' : World S) : Prop :=
  manager_ok W (mgr w) ->
  manager_ok W (mgr w') /\ leaves o (mgr w) (mgr w') /\ shrinks (sstore w) (sstore w').

#[export] Instance acts_preorder o : PreOrder (acts o).
Proof.
  split.
  - intros w Hok. split_and!; [done|apply leaves_refl|reflexivity].
  - intros a b c Hab Hbc Hok. destruct (Hab Hok) as (Hb & Hl & Hs).
    destruct (Hbc Hb) as (Hc & Hl' & Hs'). split_and!; [done|by eapply leaves_trans|by etransitivity].
Qed.

Notation acts_m o m := (monotone (E := E) (acts o) m).

Lemma acts_refl o w : acts o w w.
Proof. reflexivity. Qed.

Lemma acts_same_mgr o w w' : mgr w' = mgr w -> shrinks (sstore w) (sstore w') -> acts o w w'.
Proof. intros Hm Hs Hok. rewrite Hm. split_and!; [done|apply leaves_refl|done]. Qed.

(** *** Reading *)

Lemma the_Some o s (w : World S) : objects (mgr w) !! o = Some s -> the (E := E) o w = (w, Ok s).
Proof. intros Hs. unfold the. by rewrite (lookup_total_correct _ _ _ Hs). Qed.

Lemma the_None o (w : World S) : objects (mgr w) !! o = None -> the (E := E) o w = (w, Ok inhabitant).
Proof. intros Hs. unfold the. by rewrite lookup_total_alt, Hs. Qed.

Lemma bind_the_Some {A} o s (w : World S) (k : SubscriptionRecord -> M (World S) E A) :
  objects (mgr w) !! o = Some s -> bind (the (E := E) o) k w = k s w.
Proof. intros Hs. unfold bind. by rewrite (the_Some o s w Hs). Qed.

Lemma bind_the_None {A} o (w : World S) (k : SubscriptionRecord -> M (World S) E A) :
  objects (mgr w) !! o = None -> bind (the (E := E) o) k w = k inhabitant w.
Proof. intros Hs. unfold bind. by rewrite (the_None o w Hs). Qed.

Lemma acts_the o o' : acts_m o (the o').
Proof. intros w. by apply acts_same_mgr. Qed.
Lemma acts_manager o : acts_m o the_manager.
Proof. intros w. by apply acts_same_mgr. Qed.
Lemma acts_get o id : acts_m o (get id).
Proof. intros w. by apply acts_same_mgr. Qed.
Lemma acts_delivery o d : acts_m o (the_delivery d).
Proof. intros w. by apply acts_same_mgr. Qed.

Lemma acts_getTailOffset o p : acts_m o (getTailOffset now p).
Proof.
  intros w. unfold getTailOffset, bind, on_sstore, call.
  pose proof (ss_get_shrinks now (toAbsoluteStreamPath p) (sstore w)) as Hs.
  destruct (ss_get now (toAbsoluteStreamPath p) (sstore w)) as [st r]. cbn in *.
  apply acts_same_mgr; [done|]. intros q _. apply Hs.
Qed.
#[local] Hint Resolve acts_the acts_manager acts_get acts_delivery acts_getTailOffset : mono.

Lemma acts_streamInfos o o' : acts_m o (streamInfos now o').
Proof.
  unfold streamInfos. apply (mono_bind _); [mono_auto|]. intros s. apply (mono_map_m _). intros l.
  unfold streamInfo. mono_steps.
Qed.
#[local] Hint Resolve acts_streamInfos : mono.

Lemma acts_hasPendingWork o o' : acts_m o (hasPendingWork now o').
Proof. unfold hasPendingWork. mono_steps. Qed.
Lemma acts_firstPendingStream o o' : acts_m o (firstPendingStream now o').
Proof. unfold firstPendingStream. mono_steps. Qed.
#[local] Hint Resolve acts_hasPendingWork acts_firstPendingStream : mono.

(** *** Mutations that leave the timers alone *)

Definition tame (f : SubscriptionRecord -> SubscriptionRecord) : Prop :=
  forall s, config (f s) = config s /\ generation s <= generation (f s) /\
    (lease_timer (f s) = lease_timer s \/ lease_timer (f s) = None) /\
    (retry_timer (f s) = retry_timer s \/ retry_timer (f s) = None) /\
    (links_ok (streams s) -> links_ok (streams (f s))).

(** A step of the manager alone. *)
Lemma acts_on_mgr o f :
  (forall m, manager_ok W m -> manager_ok W (f m) /\ leaves o m (f m)) -> acts_m o (on_mgr f).
Proof. intros Hf w Hok. destruct (Hf _ Hok). split_and!; [done..|]. cbn. reflexivity. Qed.

Lemma acts_mutate o f : tame f -> acts_m o (mutate o f).
Proof.
  intros Hf. apply acts_on_mgr. intros m Hok. split.
  - apply (manager_ok_alter W o f m); cbn; try done.
    + intros s. destruct (Hf s) as (? & _ & _ & _ & ?). by split.
    + apply (ok_timers W m Hok).
    + intros o' s' t [(<- & s & Hs & ->)|[_ Hs]]%lookup_alter_Some Ht;
        [|by apply (ok_lease W m Hok _ s')].
      destruct (Hf s) as (_ & _ & [Hl|Hl] & _); [|congruence].
      apply (ok_lease W m Hok _ s); congruence.
    + intros o' s' t [(<- & s & Hs & ->)|[_ Hs]]%lookup_alter_Some Ht;
        [|by apply (ok_retry W m Hok o' s')].
      destruct (Hf s) as (_ & _ & _ & [Hl|Hl] & _); [|congruence].
      apply (ok_retry W m Hok o s); congruence.
  - apply (leaves_alter o f); cbn; try done. intros s. destruct (Hf s) as (? & ? & _). by split.
Qed.

Lemma tame_set_status v : tame (set_status v).
Proof. intros s. split_and!; auto; done. Qed.
Lemma tame_set_token v : tame (set_token v).
Proof. intros s. split_and!; auto; done. Qed.
Lemma tame_set_holder v : tame (set_holder v).
Proof. intros s. split_and!; auto; done. Qed.
Lemma tame_clear_wake : tame clear_wake.
Proof. intros s. split_and!; auto; done. Qed.
Lemma tame_no_lease : tame (set_lease_timer None).
Proof. intros s. split_and!; auto; done. Qed.

Lemma tame_set_streams f :
  (forall m, links_ok m -> links_ok (f m)) -> tame (fun s => set_streams (f (streams s)) s).
Proof. intros Hf s. split_and!; auto; try done. apply Hf. Qed.

(** *** Links *)

Lemma links_ok_set k l m :
  links_ok m -> link_path l = k -> normal k -> acked_offset l <> None -> links_ok (map_set k l m).
Proof.
  intros [Hm Hl] Hk Hn Ha. split; [by apply map_ok_set|]. intros k' l'. rewrite map_get_set.
  destruct (String.eqb_spec k' k) as [->|]; [by intros [= <-]|apply Hl].
Qed.

Lemma links_ok_delete k m : links_ok m -> links_ok (map_delete k m).
Proof.
  intros [Hm Hl]. split; [by apply map_ok_delete|]. intros k' l'. rewrite map_get_delete.
  destruct (String.eqb k' k); [done|apply Hl].
Qed.

Lemma links_ok_alter f k m :
  (forall l, link_path (f l) = link_path l /\ (acked_offset l <> None -> acked_offset (f l) <> None)) ->
  links_ok m -> links_ok (map_alter f k m).
Proof.
  intros Hf Hok. unfold map_alter. destruct (map_get k m) as [l|] eqn:Hk; [|done].
  destruct (proj2 Hok k l Hk) as (Hp & Hn & Ha). destruct (Hf l) as [Hp' Ha'].
  apply links_ok_set; [done| |done|by apply Ha']. by rewrite Hp'.
Qed.

Lemma links_ok_foldl {A} (f : list (string * SubscriptionStreamLink) -> A -> _) l m :
  (forall m a, links_ok m -> links_ok (f m a)) -> links_ok m -> links_ok (foldl f m l).
Proof. intros Hf. revert m. induction l as [|a l IH]; intros m Hm; [done|]. apply IH. by apply Hf. Qed.

Lemma tame_link p t a : tame (link p t (Some a)).
Proof.
  intros s. unfold link. destruct (map_get _ (streams s)) as [l|] eqn:Hl;
    (split_and!; auto; try done); intros Hok; cbn; apply links_ok_set; try apply normalize_idem; try done.
  - destruct (proj2 Hok _ _ Hl) as [Hp _]. by destruct t.
  - destruct (proj2 Hok _ _ Hl) as (_ & _ & ?). by destruct t.
  - by destruct t.
  - by destruct t.
Qed.

Lemma tame_unlink p : tame (unlink p).
Proof.
  intros s. unfold unlink. destruct (map_get _ (streams s)) as [l|] eqn:Hl; [|split_and!; auto; done].
  destruct (has_glob l); (split_and!; auto; try done); cbn; intros Hok.
  - destruct (proj2 Hok _ _ Hl) as (Hp & _ & ?). apply links_ok_set; [done..|apply normalize_idem|done].
  - by apply links_ok_delete.
Qed.

Lemma tame_commit_ack a : ack_offset a <> None -> tame (commit_ack a).
Proof. intros Ha. apply tame_set_streams. intros m Hm. by apply links_ok_alter. Qed.

Lemma tame_auto_ack : tame auto_ack.
Proof.
  intros s. split_and!; auto; try done. cbn. apply links_ok_foldl. intros m a. by apply links_ok_alter.
Qed.

(** *** Timers *)

Lemma acts_draw o : acts_m o draw.
Proof. intros w Hok. split_and!; [|by apply leaves_same|cbn; reflexivity]. destruct Hok. by split. Qed.

Lemma acts_fresh_id o : acts_m o fresh_id.
Proof.
  intros w Hok. split_and!; cbn; [|apply leaves_same; cbn; try done; lia|reflexivity].
  - split; cbn; try apply Hok.
    + intros o' Ho. apply (ok_objects W _ Hok). lia.
    + intros t Ht. apply (ok_timers W _ Hok). lia.
    + intros o' s t Hs Ht. destruct (ok_retry W _ Hok o' s t Hs Ht). split; [lia|done].
Qed.
#[local] Hint Resolve acts_draw acts_fresh_id : mono.

Lemma acts_deliveries o f : acts_m o (on_mgr (upd_deliveries f)).
Proof. apply acts_on_mgr. intros m Hok. split; [destruct Hok; by split|]. by apply leaves_same. Qed.
#[local] Hint Resolve acts_deliveries : mono.

Lemma is_lease_insert o m t t' x : is_lease o (upd_timers (insert t' x) m) t <->
  (t = t' /\ exists d, x = mkTimer (lease_expiry o) d) \/ (t <> t' /\ is_lease o m t).
Proof.
  unfold is_lease. cbn. destruct (decide (t = t')) as [->|Hne].
  - rewrite lookup_insert_eq. split; [intros [d [= ->]]; left; eauto|].
    intros [[_ [d ->]]|[? _]]; [eauto|done].
  - rewrite lookup_insert_ne by done. split; [by right|]. by intros [[? _]|[_ ?]].
Qed.

Lemma is_lease_delete o m t t' :
  is_lease o (upd_timers (delete t') m) t <-> t <> t' /\ is_lease o m t.
Proof.
  unfold is_lease. cbn. destruct (decide (t = t')) as [->|Hne].
  - rewrite lookup_delete_eq. split; [by intros [? [=]]|by intros [? _]].
  - rewrite lookup_delete_ne by done. split; [by intros ?|by intros [_ ?]].
Qed.

(** Removing a timer that nobody's lease is, or [o]'s own. *)
Lemma acts_delete_timer o t w :
  (forall o' s, o' <> o -> objects (mgr w) !! o' = Some s -> lease_timer s <> Some t) ->
  (forall s, objects (mgr w) !! o = Some s -> lease_timer s <> Some t) ->
  (forall o', o' <> o -> ~ is_lease o' (mgr w) t) ->
  acts o w (on_mgr (E := E) (upd_timers (delete t)) w).1.
Proof.
  intros Ho' Ho Hother Hok. split_and!; cbn; [|split; cbn; try done|reflexivity].
  - split; cbn; try apply Hok.
    + intros t' Ht'. apply lookup_delete_None. right. by apply (ok_timers W _ Hok).
    + intros o' s t' Hs Ht'. apply is_lease_delete. split; [|by apply (ok_lease W _ Hok o' s)].
      intros ->. destruct (decide (o' = o)) as [->|]; [by apply (Ho s)|by apply (Ho' o' s)].
    + intros o' s t' Hs Ht'. destruct (ok_retry W _ Hok o' s t' Hs Ht') as [? Hn]. split; [done|].
      intros o2 [_ Hl]%is_lease_delete. by apply (Hn o2).
  - intros s Hs. exists s. by split_and!.
  - intros o' t' Hne Ht'. apply is_lease_delete. split; [|done]. intros ->. by apply (Hother o').
Qed.

(** The two kinds of timer callbacks cannot be mixed up. *)
Lemma is_lease_inj o o' m t : is_lease o m t -> is_lease o' m t -> o = o'.
Proof. intros [d Hd] [d' Hd']. congruence. Qed.

(** [clearLease]: the timer goes, and the field with it. *)
Lemma acts_clearLease o : acts_m o (clearLease o).
Proof.
  intros w Hok. unfold clearLease. destruct (objects (mgr w) !! o) as [s|] eqn:Hs.
  2: { rewrite bind_the_None by done. by apply acts_refl. }
  rewrite (bind_the_Some o s) by done.
  destruct (lease_timer s) as [t|] eqn:Ht; [|by apply acts_refl].
  pose proof (ok_lease W _ Hok o s t Hs Ht) as Hlease.
  assert (Hkeep : forall o' t', o' <> o -> is_lease o' (mgr w) t' ->
    is_lease o' (upd_timers (delete t) (mgr w)) t').
  { intros o' t' Hne Hl. apply is_lease_delete. split; [|done]. intros ->.
    apply Hne. by apply (is_lease_inj _ _ _ _ Hl Hlease). }
  split_and!; cbn; [apply (manager_ok_alter W o (set_lease_timer None) (mgr w)); cbn; try done|
    by apply (leaves_alter o (set_lease_timer None))|reflexivity].
  - intros t' Ht'. apply lookup_delete_None. right. by apply (ok_timers W _ Hok).
  - intros o' s' t' [(<- & s0 & Hs0 & ->)|[Hne Hs']]%lookup_alter_Some Ht'; [done|].
    apply Hkeep; [done|]. by apply (ok_lease W _ Hok o' s').
  - intros o' s' t' Hs' Ht'.
    assert (exists s0, objects (mgr w) !! o' = Some s0 /\ retry_timer s0 = Some t') as (s0 & Hs0 & Ht0).
    { apply lookup_alter_Some in Hs' as [(<- & s0 & Hs0 & ->)|[_ Hs']]; eauto. }
    destruct (ok_retry W _ Hok o' s0 t' Hs0 Ht0) as [? Hn]. split; [done|].
    intros o2 [_ Hl]%is_lease_delete. by apply (Hn o2).
Qed.
#[local] Hint Resolve acts_clearLease : mono.

(** A new timer, and the field that keeps it: a lease, or a retry. *)
Lemma acts_arm o cb d f :
  (forall t s, config (f t s) = config s /\ generation s <= generation (f t s) /\
     streams (f t s) = streams s /\
     ((lease_timer (f t s) = Some t /\ retry_timer (f t s) = retry_timer s /\ cb = lease_expiry o) \/
      (lease_timer (f t s) = lease_timer s /\ retry_timer (f t s) = Some t /\
       exists l, cb = webhook_retry o l))) ->
  acts_m o (bind (setTimeout cb d) (fun t => mutate o (f t))).
Proof.
  intros Hf w Hok. cbn. set (t := nextId (mgr w)).
  assert (Hnew : timers (mgr w) !! t = None) by (apply (ok_timers W _ Hok); unfold t; lia).
  assert (Hl : forall o' t', is_lease o' (mgr w) t' ->
    is_lease o' (upd_timers (insert t (mkTimer cb d)) (mgr w)) t').
  { intros o' t' [d' Hd']. exists d'. cbn. rewrite lookup_insert_ne by congruence. done. }
  split_and!; [apply (manager_ok_alter W o (f t) (mgr w)); cbn; try done|
    apply (leaves_alter o (f t)); cbn; try done|reflexivity].
  - lia.
  - intros s. destruct (Hf t s) as (? & _ & -> & _). by split.
  - intros t' Ht'. rewrite lookup_insert_ne by (unfold t; lia). apply (ok_timers W _ Hok). lia.
  - intros o' s' t' [(<- & s0 & Hs0 & ->)|[Hne Hs']]%lookup_alter_Some Ht';
      [|by apply Hl, (ok_lease W _ Hok o' s')].
    destruct (Hf t s0) as (_ & _ & _ & [(Hlt & _ & ->)|(Hlt & _)]).
    + assert (t' = t) as -> by congruence. apply is_lease_insert. left. eauto.
    + apply Hl, (ok_lease W _ Hok o s0); congruence.
  - assert (Hr : forall o' s', objects (mgr w) !! o' = Some s' -> forall t', retry_timer s' = Some t' ->
        (t' < Datatypes.S (nextId (mgr w)))%nat /\
        forall o2, ~ is_lease o2 (upd_timers (insert t (mkTimer cb d)) (mgr w)) t').
    { intros o' s' Hs' t' Ht'. destruct (ok_retry W _ Hok o' s' t' Hs' Ht') as [? Hn].
      split; [lia|]. intros o2 [[-> _]|[_ Hl']]%is_lease_insert; [unfold t in *; lia|by apply (Hn o2)]. }
    intros o' s' t' [(<- & s0 & Hs0 & ->)|[Hne Hs']]%lookup_alter_Some Ht'; [|by apply (Hr o' s')].
    destruct (Hf t s0) as (_ & _ & _ & [(_ & Hrt & _)|(_ & Hrt & l & ->)]); [apply (Hr o s0); congruence|].
    assert (t' = t) as -> by congruence. split; [unfold t; lia|].
    intros o2 [[_ [d' [=]]]|[? _]]%is_lease_insert; done.
  - lia.
  - intros s. by destruct (Hf t s) as (? & ? & _).
  - intros o' t' _. apply Hl.
Qed.

Lemma acts_extendLease o : acts_m o (extendLease o).
Proof.
  unfold extendLease. apply (mono_bind _); [mono_auto|]. intros _. apply (mono_bind _); [mono_auto|].
  intros s. apply acts_arm. intros t s'. split_and!; try done. left. by split_and!.
Qed.

Lemma acts_clear_retry o : acts_m o (clear_retry o).
Proof.
  intros w Hok. unfold clear_retry. destruct (objects (mgr w) !! o) as [s|] eqn:Hs.
  2: { rewrite bind_the_None by done. by apply acts_refl. }
  rewrite (bind_the_Some o s) by done.
  destruct (retry_timer s) as [t|] eqn:Ht; [|by apply acts_refl].
  destruct (ok_retry W _ Hok o s t Hs Ht) as [_ Hn]. cbn [clearTimeout].
  apply acts_delete_timer; [| | |done].
  - intros o' s' _ Hs' Hl. by apply (Hn o'), (ok_lease W _ Hok o' s').
  - intros s' Hs' Hl. by apply (Hn o), (ok_lease W _ Hok o s').
  - intros o' _. apply Hn.
Qed.
#[local] Hint Resolve acts_extendLease acts_clear_retry : mono.

Lemma acts_scheduleWebhookRetry o l : acts_m o (scheduleWebhookRetry jittered now o l).
Proof.
  unfold scheduleWebhookRetry. apply (mono_bind _); [mono_auto|]. intros m.
  destruct (isShuttingDown m); [apply (mono_ret _)|].
  do 3 (apply (mono_bind _); [mono_auto|]; intros ?).
  apply acts_arm. intros t s'. split_and!; try done. right. split_and!; try done. by eexists.
Qed.
#[local] Hint Resolve acts_scheduleWebhookRetry : mono.

(** *** Wakes *)

Lemma acts_issue_token o : acts_m o (issue_token random_hex now o).
Proof.
  unfold issue_token. do 2 (apply (mono_bind _); [mono_auto|]; intros ?). apply acts_mutate, tame_set_token.
Qed.

Lemma acts_deliverWebhook o l : acts_m o (deliverWebhook callbackBaseUrl now o l).
Proof. unfold deliverWebhook. mono_steps. Qed.
#[local] Hint Resolve acts_issue_token acts_deliverWebhook : mono.

Lemma acts_on_sstore {A} o (m : M S E A) :
  (forall st, shrinks st (m st).1) -> acts_m o (on_sstore m).
Proof.
  intros Hm w. apply acts_same_mgr; unfold on_sstore; pose proof (Hm (sstore w));
    by destruct (m (sstore w)).
Qed.

Lemma acts_writePullWakeEvent o p : acts_m o (writePullWakeEvent now o p).
Proof.
  intros w Hok. unfold writePullWakeEvent. destruct (objects (mgr w) !! o) as [s|] eqn:Hs.
  2: { rewrite bind_the_None by done. by apply acts_refl. }
  rewrite (bind_the_Some o s) by done. destruct (wake_stream (config s)) as [ws|] eqn:Hws; [|by apply acts_refl].
  destruct (String.eqb ws EmptyString); [by apply acts_refl|].
  pose proof (ok_wakes W _ Hok o s ws Hs Hws) as HW. revert w Hok Hs.
  enough (acts_m o (bind (on_sstore (call (ss_has now (toAbsoluteStreamPath ws)))) (fun present =>
    if negb present then ret tt
    else on_sstore (ss_append now (toAbsoluteStreamPath ws) (encode_text (stringify (JObj
            [("type"%string, JStr "wake"); ("subscription_id"%string, JStr (sub_id (config s)));
             ("stream"%string, JStr p); ("generation"%string, JNum (js_String (generation s)));
             ("ts"%string, JNum (js_String now))]))))))) as Ha by (intros w Hok _; by apply Ha).
  apply (mono_bind _).
  - apply acts_on_sstore. intros st q _. unfold call.
    pose proof (ss_has_shrinks now (toAbsoluteStreamPath ws) st q) as Hh. by destruct (ss_has _ _ _).
  - intros [|]; cbn [negb]; [|apply (mono_ret _)]. apply acts_on_sstore. intros st q Hq.
    apply ss_append_shrinks. by intros ->.
Qed.
#[local] Hint Resolve acts_writePullWakeEvent : mono.

Lemma acts_createWake o p :
  acts_m o (createWake callbackBaseUrl random_hex now o p).
Proof.
  unfold createWake. apply (mono_bind _); [mono_auto|]. intros n. apply (mono_bind _).
  { apply acts_mutate. intros s. split_and!; auto; cbn; lia. }
  intros _. apply (mono_bind _); [mono_auto|]. intros infos. apply (mono_bind _).
  { apply acts_mutate. intros s. by split_and!; auto. }
  intros _. mono_steps.
Qed.
#[local] Hint Resolve acts_createWake : mono.

Lemma acts_maybeWake o p : acts_m o (maybeWake callbackBaseUrl random_hex now o p).
Proof. unfold maybeWake. mono_steps. Qed.
Lemma acts_triggerNextWakeIfPending o :
  acts_m o (triggerNextWakeIfPending callbackBaseUrl random_hex now o).
Proof. unfold triggerNextWakeIfPending. mono_steps. Qed.
#[local] Hint Resolve acts_maybeWake acts_triggerNextWakeIfPending : mono.

#[local] Hint Extern 1 (monotone (acts _) (mutate _ _)) =>
  apply acts_mutate; eauto using tame_clear_wake, tame_set_holder, tame_no_lease, tame_unlink,
    tame_auto_ack, tame_link : mono.

Lemma acts_end_wake o : acts_m o (end_wake callbackBaseUrl random_hex now o).
Proof. unfold end_wake. mono_steps. Qed.
#[local] Hint Resolve acts_end_wake : mono.

Lemma acts_finish_claim o worker : acts_m o (finish_claim random_hex now o worker).
Proof. unfold finish_claim. mono_steps. Qed.
#[local] Hint Resolve acts_finish_claim : mono.

Lemma acts_link_all o t paths : acts_m o (link_all now o t paths).
Proof. apply (mono_for_m _). intros p. unfold linkStream. mono_steps. Qed.

Lemma acts_check_acks o l : acts_m o (check_acks now o l).
Proof. induction l as [|a l IH]; cbn [check_acks]; [apply (mono_ret _)|]. unfold check_ack. mono_steps. Qed.
#[local] Hint Resolve acts_check_acks acts_link_all : mono.

(** Every acknowledgement of a request has an offset. *)
Definition offsets_given (r : SubscriptionCallbackRequest) : Prop :=
  forall acks a, cb_acks r = Some acks -> In a acks -> ack_offset a <> None.

Lemma acts_applyAcks o r : offsets_given r -> acts_m o (applyAcks now o r).
Proof.
  intros Hr. unfold applyAcks. destruct (cb_acks r) as [acks|] eqn:Hacks; [|apply (mono_ret _)].
  apply (mono_bind _); [mono_auto|]. intros [e|]; [apply (mono_ret _)|].
  apply (mono_bind _); [|intros _; apply (mono_ret _)].
  assert (Hall : forall a, In a acks -> ack_offset a <> None) by (intros a; by apply (Hr acks)).
  clear Hacks. induction acks as [|a acks IH]; cbn [for_m]; [apply (mono_ret _)|].
  apply (mono_bind _).
  - apply acts_mutate, tame_commit_ack, Hall. by left.
  - intros _. apply IH. intros a' Ha'. apply Hall. by right.
Qed.
#[local] Hint Resolve acts_applyAcks : mono.

Lemma acts_acknowledge o tok r :
  offsets_given r ->
  acts_m o (acknowledge callbackBaseUrl random_hex now o tok r).
Proof. intros Hr. unfold acknowledge. mono_steps. Qed.

Lemma acts_on_append o rel :
  acts_m o (on_append callbackBaseUrl random_hex now rel o).
Proof.
  unfold on_append, linkStream. apply (mono_bind _); [mono_auto|]. intros s. apply (mono_bind _).
  - destruct (_ && _); [|apply (mono_ret _)]. destruct (map_get rel (streams s)) as [l|];
      [destruct (acked_offset l)|]; apply acts_mutate, tame_link.
  - intros _. mono_steps.
Qed.
End acts.

#[export] Hint Resolve acts_the acts_manager acts_get acts_delivery acts_getTailOffset acts_streamInfos
  acts_hasPendingWork acts_firstPendingStream acts_draw acts_fresh_id acts_deliveries acts_clearLease
  acts_extendLease acts_clear_retry acts_scheduleWebhookRetry acts_issue_token acts_deliverWebhook
  acts_writePullWakeEvent acts_createWake acts_maybeWake acts_triggerNextWakeIfPending acts_end_wake
  acts_finish_claim acts_link_all acts_check_acks acts_applyAcks acts_acknowledge acts_on_append : mono.
