(* ===== verification/Acks.v ===== *)
(** * Acknowledgements are all or nothing

    [applyAcks] checks every acknowledgement of a request before it commits
    the first: a refused request moves no cursor, and an accepted one moves
    exactly the cursors it names, forwards, and not past the tails. *)

From S2P Require Import Prelude Text Json Glob JsMap Tokens Subscription SubscriptionLemmas.
Local Open Scope js_scope.
Set Default Proof Using "Type".

(** The last acknowledgement that names the stream [k]. *)
Definition last_ack (k : string) (acks : list Ack) : option Ack :=
  list.last (List.filter (fun a => String.eqb (ack_target a) k) acks).

(** What committing them makes of a link. *)
Definition acked_by (acks : list Ack) (k : string) (l : SubscriptionStreamLink) : SubscriptionStreamLink :=
  match last_ack k acks with
  | Some a => mkLink (link_path l) (has_glob l) (has_explicit l) (ack_offset a)
  | None => l
  end.

Definition commit_acks (acks : list Ack) (s : SubscriptionRecord) : SubscriptionRecord :=
  foldl (fun s a => commit_ack a s) s acks.

Lemma commit_acks_get acks s k :
  map_get k (streams (commit_acks acks s)) = acked_by acks k <$> map_get k (streams s).
Proof.
  induction acks as [|a acks IH] using rev_ind.
  - cbn. by destruct (map_get k (streams s)).
  - unfold commit_acks. rewrite foldl_snoc. fold (commit_acks acks s). unfold commit_ack at 1.
    cbn [streams set_streams]. rewrite map_get_alter. unfold acked_by, last_ack.
    rewrite List.filter_app. cbn [List.filter]. rewrite (String.eqb_sym (ack_target a) k).
    destruct (String.eqb_spec k (ack_target a)) as [->|Hne]; rewrite IH.
    + destruct (map_get _ (streams s)) as [l|]; [|done]. cbn. rewrite last_snoc.
      unfold acked_by. by destruct (last_ack _ _).
    + destruct (map_get _ (streams s)) as [l|]; [|done]. cbn. by rewrite app_nil_r.
Qed.

Lemma commit_acks_fields acks s :
  exists m, commit_acks acks s = set_streams m s.
Proof.
  induction acks as [|a acks [m IH]] using rev_ind.
  - exists (streams s). by destruct s.
  - unfold commit_acks. rewrite foldl_snoc. fold (commit_acks acks s). rewrite IH. eexists. done.
Qed.

Lemma last_ack_In k acks a : last_ack k acks = Some a -> In a acks /\ ack_target a = k.
Proof.
  unfold last_ack. intros Ha. apply last_Some in Ha as [l Hl].
  assert (In a (List.filter (fun a => String.eqb (ack_target a) k) acks)) as Hin
    by (rewrite Hl; apply in_or_app; right; by left).
  apply filter_In in Hin as [? Heq]. split; [done|]. by apply String.eqb_eq.
Qed.

Section acks.
Context {S E : Type} `{HStore : !SubscriptionStreamStore S E} `{HLaws : !SubscriptionStreamStoreLaws S E}.
Context (now : Z).

(** No stream's tail has moved, though streams may have expired. *)
Notation fades := (shrinks (fun _ => False) now).

(** What the checks require of an acknowledgement: a linked stream, and an
    offset between its cursor and its tail. *)
Definition acceptable (s : SubscriptionRecord) (st : S) (a : Ack) : Prop :=
  exists l tl, map_get (ack_target a) (streams s) = Some l /\ ack_target a <> EmptyString /\
    ack_offset a <> Some BEFORE_FIRST_OFFSET /\ offset_gt (acked_offset l) (ack_offset a) = false /\
    (Some tl = tail now st (toAbsoluteStreamPath (ack_target a)) \/ tl = ZERO_OFFSET) /\
    offset_gt (ack_offset a) (Some tl) = false.

Lemma getTailOffset_run p (w : World S) :
  exists st, getTailOffset (E := E) now p w =
    (mkWorld (mgr w) st, Ok (or_else (tail now (sstore w) (toAbsoluteStreamPath p)) ZERO_OFFSET)) /\
    fades (sstore w) st.
Proof.
  exists (ss_get now (toAbsoluteStreamPath p) (sstore w)).1. split.
  - rewrite <-ss_get_tail. unfold getTailOffset, bind, on_sstore, call. by destruct (ss_get _ _ _).
  - intros q _. apply ss_get_shrinks.
Qed.

Lemma check_ack_run o s a (w : World S) :
  objects (mgr w) !! o = Some s ->
  exists st e, check_ack (E := E) now o a w = (mkWorld (mgr w) st, Ok e) /\ fades (sstore w) st /\
    match e with Some e => ms_status e = 409 | None => acceptable s (sstore w) a end.
Proof.
  intros Hs. unfold check_ack. rewrite (bind_the_Some o s) by done.
  destruct (map_get (ack_target a) (streams s)) as [l|] eqn:Hl.
  2: { exists (sstore w). destruct w. eexists. split; [done|]. by split. }
  destruct (String.eqb_spec (ack_target a) EmptyString) as [He|He].
  { exists (sstore w). destruct w. eexists. split; [done|]. by split. }
  case_bool_decide as Hb.
  { exists (sstore w). destruct w. eexists. split; [done|]. by split. }
  destruct (offset_gt (acked_offset l) (ack_offset a)) eqn:Hg.
  { exists (sstore w). destruct w. eexists. split; [done|]. by split. }
  destruct (getTailOffset_run (ack_target a) w) as (st & Hr & Hst). unfold bind. rewrite Hr.
  set (tl := or_else _ _). exists st. destruct (offset_gt (ack_offset a) (Some tl)) eqn:Ht;
    eexists; (split; [done|]); (split; [done|]); cbn [ms_status errorResponse]; [done|].
  exists l, tl. split_and!; try done. unfold tl. destruct (tail now (sstore w) _); [by left|by right].
Qed.

Lemma acceptable_fades s st st' a : fades st st' -> acceptable s st' a -> acceptable s st a.
Proof.
  intros Hst (l & tl & Hl & He & Hb & Hg & Htl & Ht). exists l, tl. split_and!; try done.
  destruct Htl as [Htl|]; [|by right]. destruct (Hst (toAbsoluteStreamPath (ack_target a))) as [Hq|Hq];
    [tauto|left; congruence|congruence].
Qed.

Lemma check_acks_run o s acks (w : World S) :
  objects (mgr w) !! o = Some s ->
  exists st e, check_acks (E := E) now o acks w = (mkWorld (mgr w) st, Ok e) /\ fades (sstore w) st /\
    match e with Some e => ms_status e = 409 | None => forall a, In a acks -> acceptable s (sstore w) a end.
Proof.
  revert w. induction acks as [|a acks IH]; intros w Hs.
  { exists (sstore w), None. split; [by destruct w|]. split; [reflexivity|by intros a []]. }
  cbn [check_acks]. destruct (check_ack_run o s a w Hs) as (st & e & Hr & Hst & He). unfold bind. rewrite Hr.
  destruct e as [e|]; [by exists st, (Some e)|].
  destruct (IH (mkWorld (mgr w) st) Hs) as (st' & e & Hr' & Hst' & He'). rewrite Hr'.
  exists st', e. split; [done|]. split; [by etransitivity|]. destruct e as [e|]; [done|].
  intros a' [<-|Ha']; [done|]. by apply (acceptable_fades s _ st), He'.
Qed.

Lemma commit_run o acks (w : World S) :
  for_m (E := E) (fun a => mutate o (commit_ack a)) acks w =
    (mkWorld (upd_objects (alter (commit_acks acks) o) (mgr w)) (sstore w), Ok tt).
Proof.
  revert w. induction acks as [|a acks IH]; intros w; cbn [for_m].
  - unfold ret. do 2 f_equal. destruct w as [m st]. f_equal. destruct m. unfold upd_objects. cbn. f_equal.
    symmetry. by apply alter_id.
  - unfold bind. cbn [mutate on_mgr modify]. rewrite IH. unfold upd_objects. cbn. by rewrite alter_alter_eq.
Qed.

(** What [applyAcks] does, on a request with acknowledgements. *)
Lemma applyAcks_run o s r acks (w : World S) :
  objects (mgr w) !! o = Some s -> cb_acks r = Some acks ->
  exists st e, fades (sstore w) st /\
    match e with
    | Some e' => ms_status e' = 409 /\ applyAcks (E := E) now o r w = (mkWorld (mgr w) st, Ok e)
    | None => (forall a, In a acks -> acceptable s (sstore w) a) /\
        applyAcks now o r w = (mkWorld (upd_objects (alter (commit_acks acks) o) (mgr w)) st, Ok e)
    end.
Proof.
  intros Hs Hr. destruct (check_acks_run o s acks w Hs) as (st & e & Hc & Hst & He).
  exists st, e. split; [done|]. unfold applyAcks. rewrite Hr. unfold bind. rewrite Hc.
  destruct e as [e|]; [by split|]. split; [done|]. by rewrite commit_run.
Qed.

(** Nothing becomes pending by an accepted acknowledgement. *)
Lemma acked_by_le s st acks k l tl :
  (forall a, In a acks -> acceptable s st a) -> map_get k (streams s) = Some l -> acked_offset l <> None ->
  offset_gt (Some tl) (acked_offset (acked_by acks k l)) = true ->
  offset_gt (Some tl) (acked_offset l) = true.
Proof.
  intros Hacks Hl Ha. unfold acked_by. destruct (last_ack k acks) as [a|] eqn:Hlast; [|done].
  apply last_ack_In in Hlast as [Hin <-]. destruct (Hacks a Hin) as (l' & _ & Hl' & _ & _ & Hg & _).
  assert (l' = l) as -> by congruence. cbn. destruct (acked_offset l) as [x|]; [|done].
  destruct (ack_offset a) as [y|]; cbn in *; [|done]. by apply str_le_ltb_trans.
Qed.

(** C29: Acknowledgements are all or nothing.  For a request whose [acks] is an
    array of objects with texts in [stream], [path] and [offset], or without them,
    [applyAcks] either refuses, with 409, and no object of the manager has changed, or
    accepts: then every acknowledgement of it was for a linked stream, and either gave
    no offset, or one that neither regresses the link's cursor nor passes the stream's
    tail; the cursor of each link is the offset of the last acknowledgement that
    names it (none, if that gave none) or else what it was, and nothing else of the
    subscription, and no other object, has changed.  (The routes pass bodies on
    unchecked; with other values, [null] among the acknowledgements say, the function
    throws a TypeError, which is outside of this model.) *)
Theorem acks_all_or_nothing o s r acks (w w' : World S) res :
  objects (mgr w) !! o = Some s -> cb_acks r = Some acks ->
  applyAcks (E := E) now o r w = (w', res) ->
  match res with
  | Err _ => False
  | Ok (Some refusal) => ms_status refusal = 409 /\ mgr w' = mgr w
  | Ok None =>
      (forall a, In a acks -> acceptable s (sstore w) a) /\
      (exists m, objects (mgr w') = <[o := set_streams m s]> (objects (mgr w)) /\
         forall k, map_get k m = acked_by acks k <$> map_get k (streams s)) /\
      subscriptions (mgr w') = subscriptions (mgr w) /\ timers (mgr w') = timers (mgr w) /\
      deliveries (mgr w') = deliveries (mgr w)
  end.
Proof.
  intros Hs Hr Hrun. destruct (applyAcks_run o s r acks w Hs Hr) as (st & e & _ & He).
  destruct e as [e|]; destruct He as [He Hrun']; rewrite Hrun' in Hrun; injection Hrun as <- <-; [by split|].
  split; [done|]. split; [|done]. destruct (commit_acks_fields acks s) as [m Hm]. exists m.
  split; [|intros k; by rewrite <-commit_acks_get, Hm]. cbn. apply map_eq. intros i.
  destruct (decide (i = o)) as [->|Hne].
  - by rewrite lookup_alter_eq, Hs, lookup_insert_eq, <-Hm.
  - by rewrite lookup_alter_ne, lookup_insert_ne by done.
Qed.
End acks.
