(* ===== verification/Wakes.v ===== *)
(** * No wake is lost

    [good]: a subscription is asleep only when none of its links has anything
    past the acknowledged offset, and a wake that somebody is to answer has a
    lease that will end it.  Every method keeps it, for the subscription it is
    about and for the others; [history] puts the methods together. *)

From S2P Require Import Prelude Text Json Glob JsMap Tokens Subscription SubscriptionLemmas Acks.
Local Open Scope js_scope.
Set Default Proof Using "Type".

Section wakes.
Context `{!JsonLib} `{!CryptoLib} `{!UrlLib} {S E : Type} `{HStore : !SubscriptionStreamStore S E}
  `{HLaws : !SubscriptionStreamStoreLaws S E}.
Context (webhooksEnabled : bool) (callbackBaseUrl : string)
  (random_hex : nat -> string) (jittered : nat -> Z -> Z).
Context (W : string -> Prop).

(** The streams whose appends the manager is told about. *)
Definition watched (k : string) : Prop :=
  ~ W (toAbsoluteStreamPath k) /\ toStreamRelativePath (toAbsoluteStreamPath k) <> None.

(** The stream of a link has data past the acknowledged offset. *)
Definition pending (now : Z) (st : S) (k : string) (l : SubscriptionStreamLink) : Prop :=
  watched k /\ exists tl, tail now st (toAbsoluteStreamPath k) = Some tl /\
    offset_gt (Some tl) (acked_offset l) = true.

Definition awake (s : SubscriptionRecord) : bool := truthy (wake_id s) || truthy (holder s).

(** Somebody is expected to answer. *)
Definition held (s : SubscriptionRecord) : Prop :=
  (type (config s) = webhook /\ truthy (wake_id s) = true) \/ truthy (holder s) = true.

Definition quiet (now : Z) (st : S) (s : SubscriptionRecord) : Prop :=
  forall k l, map_get k (streams s) = Some l -> ~ pending now st k l.

Definition good_record (now : Z) (st : S) (s : SubscriptionRecord) : Prop :=
  (awake s = false -> quiet now st s) /\ (held s -> lease_timer s <> None).

Definition good (now : Z) (w : World S) (o : nat) : Prop :=
  forall s, objects (mgr w) !! o = Some s -> good_record now (sstore w) s.

Section at_time.
Context (now : Z).

(** The object at [o] stays as it is, up to its token, its retries and a lease
    that is renewed. *)
Definition steady (o : nat) (w w' : World S) : Prop :=
  forall s, objects (mgr w) !! o = Some s -> exists s', objects (mgr w') !! o = Some s' /\
    wake_id s' = wake_id s /\ holder s' = holder s /\
    (lease_timer s <> None -> lease_timer s' <> None) /\ streams s' = streams s /\ config s' = config s /\
    generation s' = generation s.

#[export] Instance steady_preorder o : PreOrder (steady o).
Proof.
  split; [intros w s Hs; exists s; by split_and!|]. intros a b c Hab Hbc s Hs.
  destruct (Hab s Hs) as (s1 & Hs1 & ? & ? & ? & ? & ? & ?).
  destruct (Hbc s1 Hs1) as (s2 & Hs2 & ? & ? & ? & ? & ? & ?).
  exists s2. split_and!; [done|congruence|congruence|auto|congruence..].
Qed.

Notation steady_m o m := (monotone (E := E) (steady o) m).

Lemma steady_same o w w' : objects (mgr w') = objects (mgr w) -> steady o w w'.
Proof. intros Ho s Hs. exists s. rewrite Ho. by split_and!. Qed.

Lemma steady_mutate o f :
  (forall s, wake_id (f s) = wake_id s /\ holder (f s) = holder s /\
     (lease_timer s <> None -> lease_timer (f s) <> None) /\ streams (f s) = streams s /\
     config (f s) = config s /\ generation (f s) = generation s) ->
  steady_m o (mutate o f).
Proof.
  intros Hf w s Hs. exists (f s). split; [|apply Hf]. cbn. by rewrite lookup_alter_eq, Hs.
Qed.

Lemma steady_the o o' : steady_m o (the o').
Proof. intros w. by apply steady_same. Qed.
Lemma steady_manager o : steady_m o the_manager.
Proof. intros w. by apply steady_same. Qed.
Lemma steady_draw o : steady_m o draw.
Proof. intros w. by apply steady_same. Qed.
Lemma steady_fresh_id o : steady_m o fresh_id.
Proof. intros w. by apply steady_same. Qed.
Lemma steady_timers o f : steady_m o (on_mgr (upd_timers f)).
Proof. intros w. by apply steady_same. Qed.
Lemma steady_deliveries o f : steady_m o (on_mgr (upd_deliveries f)).
Proof. intros w. by apply steady_same. Qed.
Lemma steady_delivery o d : steady_m o (the_delivery d).
Proof. intros w. by apply steady_same. Qed.
Lemma steady_on_sstore {A} o (m : M S E A) : steady_m o (on_sstore m).
Proof. intros w. apply steady_same. unfold on_sstore. by destruct (m (sstore w)). Qed.
#[local] Hint Resolve steady_the steady_manager steady_draw steady_fresh_id steady_timers steady_deliveries
  steady_delivery steady_on_sstore : mono.

Lemma steady_getTailOffset o p : steady_m o (getTailOffset now p).
Proof. unfold getTailOffset. mono_steps. Qed.
#[local] Hint Resolve steady_getTailOffset : mono.

Lemma steady_streamInfos o o' : steady_m o (streamInfos now o').
Proof.
  unfold streamInfos, streamInfo. apply (mono_bind _); [mono_auto|]. intros s.
  apply (mono_map_m _). intros l. mono_steps.
Qed.
#[local] Hint Resolve steady_streamInfos : mono.

Lemma steady_hasPendingWork o o' : steady_m o (hasPendingWork now o').
Proof. unfold hasPendingWork. mono_steps. Qed.
Lemma steady_firstPendingStream o o' : steady_m o (firstPendingStream now o').
Proof. unfold firstPendingStream. mono_steps. Qed.
#[local] Hint Resolve steady_hasPendingWork steady_firstPendingStream : mono.

#[local] Hint Extern 1 (monotone (steady _) (mutate _ _)) =>
  apply steady_mutate; intros; by split_and! : mono.

(** [extendLease] leaves a lease behind. *)
Lemma extendLease_run o s (w : World S) :
  objects (mgr w) !! o = Some s ->
  exists t w', extendLease (E := E) o w = (w', Ok tt) /\
    objects (mgr w') !! o = Some (set_lease_timer (Some t) s).
Proof.
  intros Hs. unfold extendLease, clearLease, the, bind. rewrite (lookup_total_correct _ _ _ Hs).
  destruct (lease_timer s) as [t|]; cbn; do 2 eexists; (split; [done|]); cbn; by rewrite ?lookup_alter_eq, Hs.
Qed.

Lemma steady_extendLease o : steady_m o (extendLease o).
Proof.
  intros w s Hs. destruct (extendLease_run o s w Hs) as (t & w' & -> & Ht). eexists. by split.
Qed.

Lemma issue_token_run o s (w : World S) :
  objects (mgr w) !! o = Some s ->
  exists t w', issue_token (E := E) random_hex now o w = (w', Ok tt) /\
    objects (mgr w') !! o = Some (set_token (Some t) s).
Proof.
  intros Hs. unfold issue_token, the, bind. rewrite (lookup_total_correct _ _ _ Hs). cbn.
  do 2 eexists. split; [done|]. cbn. by rewrite lookup_alter_eq, Hs.
Qed.

Lemma steady_issue_token o : steady_m o (issue_token random_hex now o).
Proof. unfold issue_token. mono_steps. Qed.
Lemma steady_deliverWebhook o l : steady_m o (deliverWebhook callbackBaseUrl now o l).
Proof. unfold deliverWebhook. mono_steps. Qed.
Lemma steady_writePullWakeEvent o p : steady_m o (writePullWakeEvent now o p).
Proof. unfold writePullWakeEvent. mono_steps. Qed.
Lemma steady_scheduleWebhookRetry o l : steady_m o (scheduleWebhookRetry jittered now o l).
Proof. unfold scheduleWebhookRetry, clear_retry, clearTimeout, setTimeout. mono_steps. Qed.
#[local] Hint Resolve steady_extendLease steady_issue_token steady_deliverWebhook steady_writePullWakeEvent
  steady_scheduleWebhookRetry : mono.

(** *** What keeps a subscription good *)

Lemma quiet_shrinks st st' s : shrinks W now st st' -> quiet now st s -> quiet now st' s.
Proof.
  intros Hst Hq k l Hl (Hw & tl & Htl & Hgt). apply (Hq k l Hl). split; [done|]. exists tl.
  split; [|done]. destruct (Hst _ (proj1 Hw)) as [<-|Hn]; congruence.
Qed.

Lemma quiet_links st s s' : streams s' = streams s -> quiet now st s -> quiet now st s'.
Proof. intros Hs Hq k l Hl. apply (Hq k l). by rewrite <-Hs. Qed.

Lemma good_absent w o : objects (mgr w) !! o = None -> good now w o.
Proof. intros Hn s Hs. congruence. Qed.

(** A method about another subscription. *)
Lemma good_other o o' w w' :
  manager_ok W (mgr w) -> acts W now o w w' -> o' <> o -> good now w o' -> good now w' o'.
Proof.
  intros Hok Ha Hne Hg s Hs. destruct (Ha Hok) as (_ & Hl & Hst).
  rewrite (lv_others _ _ _ Hl) in Hs by done. destruct (Hg s Hs) as [Hq Hh].
  split; [|done]. intros Haw. apply (quiet_shrinks (sstore w)); [done|by apply Hq].
Qed.

Lemma good_steady o w w' :
  manager_ok W (mgr w) -> acts W now o w w' -> steady o w w' -> good now w o -> good now w' o.
Proof.
  intros Hok Ha Hst Hg s' Hs'. destruct (Ha Hok) as (_ & Hl & Hsh).
  destruct (objects (mgr w) !! o) as [s|] eqn:Hs; [|pose proof (lv_absent _ _ _ Hl Hs); congruence].
  destruct (Hst s Hs) as (s1 & Hs1 & Hw & Hh & Hlt & Hstr & Hc & _).
  assert (s1 = s') as -> by congruence. destruct (Hg s Hs) as [Hq Hld]. unfold good_record, awake, held.
  rewrite Hw, Hh, Hc. split; [|intros Hheld; by apply Hlt, Hld].
  intros Haw. apply (quiet_links _ s); [done|].
  apply (quiet_shrinks (sstore w)); [done|by apply Hq].
Qed.

(** *** Looking for pending work *)

Lemma streamInfo_run l w :
  exists st, streamInfo (E := E) now l w = (mkWorld (mgr w) st, Ok (mkInfo (link_path l)
      (if has_explicit l then explicit else glob) (acked_offset l)
      (or_else (tail now (sstore w) (toAbsoluteStreamPath (link_path l))) ZERO_OFFSET)
      (offset_gt (Some (or_else (tail now (sstore w) (toAbsoluteStreamPath (link_path l))) ZERO_OFFSET))
         (acked_offset l)))) /\ shrinks W now (sstore w) st.
Proof.
  exists (ss_get now (toAbsoluteStreamPath (link_path l)) (sstore w)).1. split.
  - rewrite <-ss_get_tail. unfold streamInfo, getTailOffset, bind, on_sstore, call.
    by destruct (ss_get _ _ _).
  - intros q _. apply ss_get_shrinks.
Qed.

Lemma map_streamInfo_run ls w :
  exists st infos, map_m (streamInfo (E := E) now) ls w = (mkWorld (mgr w) st, Ok infos) /\
    shrinks W now (sstore w) st /\
    (existsb has_pending infos = false -> forall l tl, In l ls -> ~ W (toAbsoluteStreamPath (link_path l)) ->
       tail now st (toAbsoluteStreamPath (link_path l)) = Some tl ->
       offset_gt (Some tl) (acked_offset l) = false).
Proof.
  revert w. induction ls as [|l ls IH]; intros w.
  { exists (sstore w), []. split; [by destruct w|]. split; [reflexivity|]. by intros _ l tl []. }
  cbn [map_m]. destruct (streamInfo_run l w) as (st1 & Hr1 & Hs1). unfold bind at 1. rewrite Hr1.
  destruct (IH (mkWorld (mgr w) st1)) as (st2 & infos & Hr2 & Hs2 & Hp). cbn in Hr2, Hs2, Hp.
  unfold bind. rewrite Hr2. eexists st2, _. split; [done|]. split; [by etransitivity|].
  intros Hex l' tl Hin HW Htl. cbn [existsb has_pending] in Hex.
  apply orb_false_iff in Hex as [Hl Hls]. destruct Hin as [<-|Hin]; [|by apply Hp].
  rewrite <-Hl. do 2 f_equal. destruct (transitivity Hs1 Hs2 _ HW) as [Ht|Hn]; [|congruence].
  by rewrite <-Ht, Htl.
Qed.

Lemma streamInfos_run o s w :
  objects (mgr w) !! o = Some s ->
  exists st infos, streamInfos (E := E) now o w = (mkWorld (mgr w) st, Ok infos) /\
    shrinks W now (sstore w) st /\
    (existsb has_pending infos = false -> forall l tl, In l (map snd (streams s)) ->
       ~ W (toAbsoluteStreamPath (link_path l)) ->
       tail now st (toAbsoluteStreamPath (link_path l)) = Some tl ->
       offset_gt (Some tl) (acked_offset l) = false).
Proof.
  intros Hs. destruct (map_streamInfo_run (map snd (streams s)) w) as (st & infos & Hrun & Hsh & Hp).
  exists st, infos. split; [|done]. unfold streamInfos. by rewrite (bind_the_Some o s).
Qed.

(** [hasPendingWork] does not overlook anything. *)
Lemma hasPendingWork_run o s w :
  objects (mgr w) !! o = Some s -> links_ok (streams s) ->
  exists st b, hasPendingWork (E := E) now o w = (mkWorld (mgr w) st, Ok b) /\
    shrinks W now (sstore w) st /\ (b = false -> quiet now st s).
Proof.
  intros Hs [Hm Hlk]. destruct (streamInfos_run o s w Hs) as (st & infos & Hrun & Hsh & Hp).
  exists st, (existsb has_pending infos). split; [|split; [done|]].
  - unfold hasPendingWork, bind. by rewrite Hrun.
  - intros Hb k l Hl (Hw & tl & Htl & Hgt). destruct (Hlk k l Hl) as (Hk & _ & _).
    rewrite (Hp Hb l tl) in Hgt; [done| |by rewrite Hk; apply Hw|by rewrite Hk].
    apply (in_map snd _ (k, l)). by apply list_elem_of_In, map_get_elem_of.
Qed.

(** *** Creating a wake *)

(** What a wake leaves: the subscription awake, its links and configuration as
    they were, with a lease if it is a webhook. *)
Definition woken (s s' : SubscriptionRecord) : Prop :=
  truthy (wake_id s') = true /\ generation s' = generation s + 1 /\ holder s' = holder s /\
  streams s' = streams s /\ config s' = config s /\
  (type (config s) = webhook \/ lease_timer s <> None -> lease_timer s' <> None).

Lemma createWake_woken o p s w :
  objects (mgr w) !! o = Some s ->
  exists s', objects (mgr (createWake (E := E) callbackBaseUrl random_hex now o p w).1) !! o
    = Some s' /\ woken s s'.
Proof using Type W HLaws.
  intros Hs.
  set (f := fun s0 => set_wake (generation s0 + 1) (Some ("w_" +:+ random_hex (draws (mgr w)))) (wake_snapshot s0) s0).
  set (w1 := (on_mgr (E := E) (upd_objects (alter f o)) (draw (E := E) w).1).1).
  assert (Hs1 : objects (mgr w1) !! o = Some (f s)) by (cbn; by rewrite lookup_alter_eq, Hs).
  destruct (streamInfos_run o _ w1 Hs1) as (st & infos & Hr & _ & _).
  set (g := fun s0 => set_wake (generation s0) (wake_id s0)
    (foldl (fun m i => map_set (info_path i) (info_tail_offset i) m) [] infos) s0).
  set (w2 := mkWorld (upd_objects (alter g o) (mgr w1)) st).
  assert (Hs2 : objects (mgr w2) !! o = Some (g (f s))).
  { unfold w2. cbn [mgr objects upd_objects]. by rewrite lookup_alter_eq, Hs1. }
  set (rest := if decide (type (config (g (f s))) = webhook)
    then bind (issue_token (E := E) random_hex now o) (fun _ => bind (extendLease o) (fun _ =>
      deliverWebhook callbackBaseUrl now o [p]))
    else writePullWakeEvent now o p).
  assert (Hrun : createWake (E := E) callbackBaseUrl random_hex now o p w = rest w2).
  { unfold createWake. change (?a = rest w2) with
      (bind (streamInfos (E := E) now o) (fun infos => bind (mutate o (fun s => set_wake (generation s) (wake_id s)
        (foldl (fun m i => map_set (info_path i) (info_tail_offset i) m) [] infos) s)) (fun _ =>
        bind (the o) (fun s => if decide (type (config s) = webhook)
          then bind (issue_token (E := E) random_hex now o) (fun _ => bind (extendLease o) (fun _ =>
            deliverWebhook callbackBaseUrl now o [p]))
          else writePullWakeEvent now o p))) w1 = rest w2).
    unfold bind at 1. rewrite Hr. unfold bind at 1. cbn [mutate on_mgr modify].
    change (bind (the (E := E) o) (fun s => if decide (type (config s) = webhook)
          then bind (issue_token (E := E) random_hex now o) (fun _ => bind (extendLease o) (fun _ =>
            deliverWebhook callbackBaseUrl now o [p]))
          else writePullWakeEvent now o p) w2 = rest w2). by rewrite (bind_the_Some o _ _ _ Hs2). }
  rewrite Hrun. unfold rest. destruct (decide (type (config (g (f s))) = webhook)) as [Hty|Hty].
  - destruct (issue_token_run o _ _ Hs2) as (tok & w3 & Ht & Hs3). unfold bind at 1. rewrite Ht.
    destruct (extendLease_run o _ _ Hs3) as (t & w4 & Hx & Hs4). unfold bind at 1. rewrite Hx.
    destruct (steady_deliverWebhook o [p] w4 _ Hs4) as (s5 & -> & Hw & Hh & Hl & Hst & Hc & Hgen).
    exists s5. split; [done|]. split_and!; [by rewrite Hw|by rewrite Hgen|by rewrite Hh|by rewrite Hst|by rewrite Hc|].
    intros _. by apply Hl.
  - destruct (steady_writePullWakeEvent o p w2 _ Hs2) as (s3 & -> & Hw & Hh & Hl & Hst & Hc & Hgen).
    exists s3. split; [done|]. split_and!; [by rewrite Hw|by rewrite Hgen|by rewrite Hh|by rewrite Hst|by rewrite Hc|].
    intros [|]; [done|by apply Hl].
Qed.

Lemma woken_good o s w :
  objects (mgr w) !! o = Some s -> awake s = true -> (held s -> lease_timer s <> None) -> good now w o.
Proof. intros Hs Haw Hh s' Hs'. assert (s' = s) as -> by congruence. split; [congruence|done]. Qed.

Notation createWake := (createWake (E := E) callbackBaseUrl random_hex now).
Notation maybeWake := (maybeWake (E := E) callbackBaseUrl random_hex now).
Notation triggerNextWakeIfPending :=
  (triggerNextWakeIfPending (E := E) callbackBaseUrl random_hex now).
Notation end_wake := (end_wake (E := E) callbackBaseUrl random_hex now).

(** A record on which a wake may be created: nobody's lease would be forgotten. *)
Definition unheld (s : SubscriptionRecord) : Prop := truthy (holder s) = true -> lease_timer s <> None.

Lemma good_createWake o p w :
  manager_ok W (mgr w) -> (forall s, objects (mgr w) !! o = Some s -> unheld s) ->
  good now (createWake o p w).1 o.
Proof.
  intros Hok Hu. destruct (objects (mgr w) !! o) as [s|] eqn:Hs.
  - destruct (createWake_woken o p s w Hs) as (s' & Hs' & Hw & _ & Hh & _ & Hc & Hl).
    apply (woken_good o s'); [done|by unfold awake; rewrite Hw|]. unfold held. rewrite Hc, Hh.
    intros [[? _]|Ht]; apply Hl; [by left|right; by apply (Hu s)].
  - apply good_absent. destruct (acts_createWake callbackBaseUrl random_hex W now o p w Hok)
      as (_ & Hl & _). by apply (lv_absent _ _ _ Hl).
Qed.

Lemma good_record_shrinks st st' s :
  shrinks W now st st' -> good_record now st s -> good_record now st' s.
Proof. intros Hsh [Hq Hl]. split; [|done]. intros Haw. apply (quiet_shrinks st); [done|by apply Hq]. Qed.

(** After [hasPendingWork]: either nothing is pending, or a wake follows. *)
Lemma good_if_pending {A} o w (k : bool -> M (World S) E A) :
  manager_ok W (mgr w) -> (forall s, objects (mgr w) !! o = Some s -> held s -> lease_timer s <> None) ->
  (forall w', monotone (acts W now o) (k true) /\
     (manager_ok W (mgr w') -> (forall s, objects (mgr w') !! o = Some s -> unheld s) ->
      good now (k true w').1 o)) ->
  (forall w', (k false w').1 = w') ->
  good now (bind (hasPendingWork now o) k w).1 o.
Proof.
  intros Hok Hh Ht Hf. destruct (objects (mgr w) !! o) as [s|] eqn:Hs.
  - destruct (hasPendingWork_run o s w Hs (ok_links W _ Hok o s Hs)) as (st & b & Hr & Hsh & Hq).
    unfold bind. rewrite Hr. destruct b.
    + apply (Ht (mkWorld (mgr w) st)); [done|]. cbn [mgr]. intros s' Hs' Hhold.
      assert (s' = s) as -> by congruence. apply (Hh s); [done|by right].
    + rewrite Hf. intros s' Hs'. assert (s' = s) as -> by (cbn in Hs'; congruence).
      split; [intros _; by apply Hq|by apply Hh].
  - apply good_absent.
    pose proof (acts_hasPendingWork W now o o w Hok) as (Hok' & Hl & _).
    pose proof (lv_absent _ _ _ Hl Hs) as Hn. unfold bind. destruct (hasPendingWork now o w) as [w' [b|e]]; [|done].
    cbn [fst] in *. destruct b; [|by rewrite Hf].
    destruct (Ht w') as [Ha _]. destruct (Ha w' Hok') as (_ & Hl' & _). by apply (lv_absent _ _ _ Hl').
Qed.

Lemma firstPendingStream_run o w :
  exists st p, firstPendingStream (E := E) now o w = (mkWorld (mgr w) st, Ok p).
Proof using Type W HLaws.
  unfold firstPendingStream, streamInfos, bind, the.
  destruct (map_streamInfo_run (map snd (streams (objects (mgr w) !!! o))) w) as (st & infos & Hr & _).
  rewrite Hr. eauto.
Qed.

Lemma bind_ret_state {A B} (m : M (World S) E A) (b : B) w : (bind m (fun _ => ret b) w).1 = (m w).1.
Proof. unfold bind. by destruct (m w) as [w' []]. Qed.

Lemma good_triggerNextWakeIfPending o w :
  manager_ok W (mgr w) -> (forall s, objects (mgr w) !! o = Some s -> held s -> lease_timer s <> None) ->
  good now (triggerNextWakeIfPending o w).1 o.
Proof.
  intros Hok Hh. apply good_if_pending; [done..| |done]. intros w'. cbn [negb]. split; [mono_steps|].
  intros Hok' Hu. destruct (firstPendingStream_run o w') as (st & p & Hr). unfold bind at 1. rewrite Hr.
  rewrite bind_ret_state. by apply good_createWake.
Qed.

Lemma good_maybeWake o p w :
  manager_ok W (mgr w) -> (forall s, objects (mgr w) !! o = Some s -> held s -> lease_timer s <> None) ->
  good now (maybeWake o p w).1 o.
Proof.
  intros Hok Hh. unfold Subscription.maybeWake. destruct (objects (mgr w) !! o) as [s|] eqn:Hs.
  - rewrite (bind_the_Some o s) by done. destruct (truthy (wake_id s) || truthy (holder s)) eqn:Haw.
    + apply (woken_good o s); [done..|by apply Hh].
    + apply good_if_pending; [done| |split; [mono_auto|by apply good_createWake]|done].
      intros s' Hs'. apply Hh. congruence.
  - rewrite bind_the_None by done. cbn [truthy inhabitant SubscriptionRecord_inhabited orb wake_id holder].
    apply good_if_pending; [done| |split; [mono_auto|by apply good_createWake]|done].
    intros s' Hs'. congruence.
Qed.

Lemma clearLease_run o s (w : World S) :
  objects (mgr w) !! o = Some s ->
  exists w', clearLease (E := E) o w = (w', Ok tt) /\ objects (mgr w') !! o = Some (set_lease_timer None s).
Proof.
  intros Hs. unfold clearLease. rewrite (bind_the_Some o s) by done.
  destruct (lease_timer s) as [t|] eqn:Ht; cbn; eexists; (split; [done|]); cbn.
  - by rewrite lookup_alter_eq, Hs.
  - rewrite Hs. f_equal. destruct s. cbn in *. by subst.
Qed.

(** However a wake ends, what is pending then is not forgotten. *)
Lemma good_end_wake o w : manager_ok W (mgr w) -> good now (end_wake o w).1 o.
Proof.
  intros Hok. destruct (objects (mgr w) !! o) as [s|] eqn:Hs.
  - destruct (clearLease_run o s w Hs) as (w1 & Hr & Hs1).
    destruct (acts_clearLease (E := E) W now o w Hok) as (Hok1 & _ & _). rewrite Hr in Hok1. cbn in Hok1.
    destruct (acts_mutate (E := E) W now o clear_wake tame_clear_wake w1 Hok1) as (Hok2 & _ & _).
    unfold Subscription.end_wake. unfold bind at 1. rewrite Hr.
    apply good_triggerNextWakeIfPending; [done|]. cbn. rewrite lookup_alter_eq, Hs1.
    intros s' [= <-] [[_ Hw]|Hh]; done.
  - apply good_absent.
    destruct (acts_end_wake callbackBaseUrl random_hex W now o w Hok) as (_ & Hl & _).
    by apply (lv_absent _ _ _ Hl).
Qed.

(** *** Acknowledgements and claims *)

Lemma good_applyAcks o r w :
  offsets_given r -> manager_ok W (mgr w) -> good now w o -> good now (applyAcks (E := E) now o r w).1 o.
Proof.
  intros Hr Hok Hg. destruct (cb_acks r) as [acks|] eqn:Hacks; [|unfold applyAcks; by rewrite Hacks].
  destruct (objects (mgr w) !! o) as [s|] eqn:Hs.
  - destruct (applyAcks_run now o s r acks w Hs Hacks) as (st & e & Hst & He).
    assert (Hsh : shrinks W now (sstore w) st) by (intros q _; apply Hst; by intros []).
    destruct (Hg s Hs) as [Hq Hl]. destruct e as [e|]; destruct He as [He Hrun]; rewrite Hrun.
    + intros s' Hs'. assert (s' = s) as -> by (cbn in Hs'; congruence). by apply (good_record_shrinks (sstore w)).
    + intros s'. cbn. rewrite lookup_alter_eq, Hs. intros [= <-].
      destruct (commit_acks_fields acks s) as [m Hm].
      split; [|by rewrite Hm]. intros Haw. apply (quiet_shrinks (sstore w)); [done|].
      intros k l'. rewrite commit_acks_get. destruct (map_get k (streams s)) as [l|] eqn:Hk; [|done].
      intros [= <-] (Hw & tl & Htl & Hgt). rewrite Hm in Haw. apply (Hq Haw k l Hk).
      split; [done|]. exists tl. split; [done|].
      apply (acked_by_le now s (sstore w) acks k); [done..| |done].
      by destruct (proj2 (ok_links W _ Hok o s Hs) k l Hk) as (_ & _ & ?).
  - apply good_absent. destruct (acts_applyAcks (E := E) W now o r Hr w Hok) as (_ & Hl & _).
    by apply (lv_absent _ _ _ Hl).
Qed.

Lemma good_steady_m {A} o (m : M (World S) E A) w :
  manager_ok W (mgr w) -> monotone (acts W now o) m -> steady_m o m -> good now w o -> good now (m w).1 o.
Proof. intros Hok Ha Hs Hg. by apply (good_steady o w); [|apply Ha|apply Hs|]. Qed.

Lemma good_finish_claim o worker w :
  manager_ok W (mgr w) -> truthy (Some worker) = true ->
  good now (finish_claim (E := E) random_hex now o worker w).1 o.
Proof.
  intros Hok Hw. destruct (objects (mgr w) !! o) as [s|] eqn:Hs.
  - unfold finish_claim. set (w1 := (mutate (E := E) o (set_holder (Some worker)) w).1).
    assert (Hs1 : objects (mgr w1) !! o = Some (set_holder (Some worker) s))
      by (cbn; by rewrite lookup_alter_eq, Hs).
    destruct (issue_token_run o _ w1 Hs1) as (t & w2 & Hr2 & Hs2).
    destruct (extendLease_run o _ w2 Hs2) as (tm & w3 & Hr3 & Hs3).
    unfold bind at 1. cbn [mutate on_mgr modify]. unfold bind at 1.
    change (issue_token random_hex now o _) with (issue_token (E := E) random_hex now o w1). rewrite Hr2.
    unfold bind at 1. rewrite Hr3. rewrite (bind_the_Some o _ _ _ Hs3).
    destruct (streamInfos_run o _ w3 Hs3) as (st & infos & Hr4 & _). unfold bind. rewrite Hr4.
    eapply woken_good; [exact Hs3| |done]. apply orb_true_iff. by right.
  - apply good_absent. destruct (acts_finish_claim random_hex W now o worker w Hok) as (_ & Hl & _).
    by apply (lv_absent _ _ _ Hl).
Qed.
End at_time.
End wakes.

#[export] Hint Resolve steady_the steady_manager steady_draw steady_fresh_id steady_timers steady_deliveries
  steady_delivery steady_on_sstore steady_getTailOffset steady_streamInfos steady_hasPendingWork
  steady_firstPendingStream steady_extendLease steady_issue_token steady_deliverWebhook
  steady_writePullWakeEvent steady_scheduleWebhookRetry : mono.
