(* ===== verification/WakeEvents.v ===== *)
(** * What happens to a manager, and what stays true

    Every event - a request, an append, a response of a webhook, a timer - is
    about one subscription at most at a time, and leaves it and the others
    [good]. *)

From S2P Require Import Prelude Text Json Glob JsMap Tokens Subscription SubscriptionLemmas Acks Wakes.
Local Open Scope js_scope.
Set Default Proof Using "Type".

Section events.
Context `{!JsonLib} `{!CryptoLib} `{!UrlLib} {S E : Type} `{HStore : !SubscriptionStreamStore S E}
  `{HLaws : !SubscriptionStreamStoreLaws S E}.
Context (webhooksEnabled : bool) (callbackBaseUrl : string)
  (random_hex : nat -> string) (jittered : nat -> Z -> Z).
Context (W : string -> Prop).

(** Every subscription is good, and the manager is at work. *)
Record all_good (now : Z) (w : World S) : Prop := {
  ag_ok : manager_ok W (mgr w);
  ag_up : isShuttingDown (mgr w) = false;
  ag_good id o : map_get id (subscriptions (mgr w)) = Some o -> good W now w o;
}.

Section at_time.
Context (now : Z).
Notation delivery_response := (delivery_response (E := E) jittered now).
Notation delivery_body := (delivery_body (E := E) callbackBaseUrl random_hex jittered now).
Notation timer_fires := (timer_fires (E := E) callbackBaseUrl random_hex now).
Notation createWake := (createWake (E := E) callbackBaseUrl random_hex now).
Notation maybeWake := (maybeWake (E := E) callbackBaseUrl random_hex now).
Notation end_wake := (end_wake (E := E) callbackBaseUrl random_hex now).
Notation acts := (acts W now).
Notation good := (good W now).

(** An event about [o]. *)
Definition serves (o : nat) (w w' : World S) : Prop :=
  acts o w w' /\ (manager_ok W (mgr w) -> good w o -> good w' o).

#[export] Instance serves_preorder o : PreOrder (serves o).
Proof.
  split; [by split; [apply acts_refl|]|]. intros a b c [Ha Hg] [Ha' Hg'].
  split; [by etransitivity|]. intros Hok Hgood. apply Hg'; [by apply (Ha Hok)|by apply Hg].
Qed.

Notation serves_m o m := (monotone (E := E) (serves o) m).

Lemma serves_run {A} o (m : M (World S) E A) : serves_m o m -> forall w, serves o w (m w).1.
Proof. done. Qed.

Lemma serves_steady {A} o (m : M (World S) E A) :
  monotone (acts o) m -> monotone (steady o) m -> serves_m o m.
Proof. intros Ha Hs w. split; [apply Ha|]. intros Hok Hg. by apply good_steady_m. Qed.

#[local] Hint Extern 2 (monotone (serves _) _) => apply serves_steady; solve [mono_auto] : mono.

#[local] Hint Extern 1 (monotone (acts _) (mutate _ _)) =>
  apply acts_mutate; eauto using tame_clear_wake, tame_set_holder, tame_no_lease, tame_unlink,
    tame_auto_ack, tame_link : mono.

Lemma serves_createWake o p : serves_m o (createWake o p).
Proof.
  intros w. split; [apply acts_createWake|]. intros Hok Hg. apply good_createWake; [done|].
  intros s Hs Hh. apply (Hg s Hs). by right.
Qed.

Lemma serves_maybeWake o p : serves_m o (maybeWake o p).
Proof.
  intros w. split; [apply acts_maybeWake|]. intros Hok Hg. apply good_maybeWake; [done|].
  intros s Hs. by apply (Hg s Hs).
Qed.

Lemma serves_end_wake o : serves_m o (end_wake o).
Proof. intros w. split; [apply acts_end_wake|]. intros Hok _. by apply good_end_wake. Qed.

Lemma serves_finish_claim o worker :
  truthy (Some worker) = true -> serves_m o (finish_claim random_hex now o worker).
Proof. intros Hw w. split; [apply acts_finish_claim|]. intros Hok _. by apply good_finish_claim. Qed.

Lemma serves_applyAcks o r : offsets_given r -> serves_m o (applyAcks now o r).
Proof. intros Hr w. split; [by apply acts_applyAcks|]. intros Hok Hg. by apply good_applyAcks. Qed.

(** The end of a wake, after a mutation that need not be good by itself. *)
Lemma serves_then_end_wake o f : tame f ->
  serves_m o (bind (mutate o f) (fun _ => bind (end_wake o) (fun _ => ret tt))).
Proof.
  intros Hf w. split; [revert w; apply (mono_bind _); [by apply acts_mutate|intros _; mono_steps]|].
  intros Hok Hg. destruct (acts_mutate (E := E) W now o f Hf w Hok) as (Hok' & _).
  unfold bind at 1. cbn [mutate on_mgr modify]. rewrite bind_ret_state. by apply good_end_wake.
Qed.
#[local] Hint Resolve serves_createWake serves_maybeWake serves_end_wake serves_finish_claim
  serves_applyAcks : mono.

Lemma serves_acknowledge o tok r :
  offsets_given r -> serves_m o (acknowledge callbackBaseUrl random_hex now o tok r).
Proof. intros Hr. unfold acknowledge. mono_steps. Qed.
#[local] Hint Resolve serves_acknowledge : mono.

(** *** Every subscription *)

Lemma all_good_serves o w w' : serves o w w' -> all_good now w -> all_good now w'.
Proof.
  intros [Ha Hg] Hall. destruct (Ha (ag_ok _ _ Hall)) as (Hok & Hl & _). split; [done| |].
  - rewrite (lv_shutting _ _ _ Hl). by apply ag_up with now.
  - intros id o' Ho'. rewrite (lv_subscriptions _ _ _ Hl) in Ho'.
    destruct (decide (o' = o)) as [->|Hne].
    + by apply Hg; [apply ag_ok with now|apply (ag_good _ _ Hall id)].
    + by apply (good_other W now o o' w); [apply ag_ok with now|..|apply (ag_good _ _ Hall id)].
Qed.

(** A method is about the subscription it finds. *)
Lemma bind_get {A} id (w : World S) (k : option nat -> M (World S) E A) :
  bind (get id) k w = k (map_get id (subscriptions (mgr w))) w.
Proof. done. Qed.

Lemma serves_found {A} id (m : nat -> M (World S) E A) a :
  (forall o, serves_m o (m o)) ->
  forall w, exists o,
    serves o w (bind (get id) (fun found => match found with None => ret a | Some o => m o end) w).1.
Proof.
  intros Hm w. rewrite bind_get. destruct (map_get id _) as [o|]; [exists o; apply Hm|by exists 0%nat].
Qed.

Lemma serves_handleWebhookCallback id tok r w : offsets_given r -> exists o,
  serves o w (handleWebhookCallback (E := E) callbackBaseUrl random_hex now id tok r w).1.
Proof. intros Hr. apply serves_found. intros o. mono_auto. Qed.

Lemma serves_ack id tok r w : offsets_given r -> exists o,
  serves o w (ack (E := E) callbackBaseUrl random_hex now id tok r w).1.
Proof. intros Hr. apply serves_found. intros o. mono_steps. Qed.

Lemma serves_release id tok r w : exists o,
  serves o w (release (E := E) callbackBaseUrl random_hex now id tok r w).1.
Proof. apply serves_found. intros o. mono_steps. Qed.

Lemma serves_claim id worker w : truthy (Some worker) = true -> exists o,
  serves o w (claim (E := E) callbackBaseUrl random_hex now id worker w).1.
Proof. intros Hw. apply serves_found. intros o. mono_steps. Qed.

(** *** Responses of webhooks *)

Lemma bind_delivery {A} d (w : World S) (k : option Delivery -> M (World S) E A) :
  bind (the_delivery d) k w = k (deliveries (mgr w) !! d) w.
Proof. done. Qed.

Lemma serves_delivery_response d ok w : exists o, serves o w (delivery_response d ok w).1.
Proof.
  unfold Subscription.delivery_response. rewrite bind_delivery.
  destruct (deliveries (mgr w) !! d) as [dl|]; [|by exists 0%nat]. exists (dl_object dl). revert w.
  apply serves_run. mono_steps. apply serves_steady;
    [apply acts_mutate; intros s; by split_and!; auto|apply steady_mutate; intros; by split_and!].
Qed.

Lemma serves_delivery_body d done_ w : exists o, serves o w (delivery_body d done_ w).1.
Proof.
  unfold Subscription.delivery_body. rewrite bind_delivery.
  destruct (deliveries (mgr w) !! d) as [dl|]; [|by exists 0%nat]. exists (dl_object dl). revert w.
  apply serves_run. mono_steps. apply (mono_try_catch _); [|intros; mono_auto].
  apply serves_then_end_wake, tame_auto_ack.
Qed.

(** *** Timers *)

(** The timer of a lease has fired: it is gone, and the field with it. *)
Lemma acts_lease_fired o t d w :
  timers (mgr w) !! t = Some (mkTimer (lease_expiry o) d) ->
  acts o w (mkWorld (upd_objects (alter (set_lease_timer None) o) (upd_timers (delete t) (mgr w))) (sstore w)).
Proof.
  intros Ht Hok. assert (Hlease : is_lease o (mgr w) t) by (by exists d).
  assert (Hkeep : forall o' t', o' <> o -> is_lease o' (mgr w) t' ->
    is_lease o' (upd_timers (delete t) (mgr w)) t').
  { intros o' t' Hne Hl. apply is_lease_delete. split; [|done]. intros ->.
    apply Hne. by apply (is_lease_inj _ _ _ _ Hl Hlease). }
  split_and!; cbn; [apply (manager_ok_alter W o (set_lease_timer None) (mgr w)); cbn; try done|
    by apply (leaves_alter o (set_lease_timer None))|reflexivity].
  - intros t' Ht'. apply lookup_delete_None. right. by apply (ok_timers W _ Hok).
  - intros o' s' t' [(<- & s0 & Hs0 & ->)|[Hne Hs']]%lookup_alter_Some Ht'; [done|].
    apply Hkeep; [done|]. by apply (ok_lease W _ Hok o' s').
  - intros o' s' t' Hs' Ht'.
    assert (exists s0, objects (mgr w) !! o' = Some s0 /\ retry_timer s0 = Some t') as (s0 & Hs0 & Ht0).
    { apply lookup_alter_Some in Hs' as [(<- & s0 & Hs0 & ->)|[_ Hs']]; eauto. }
    destruct (ok_retry W _ Hok o' s0 t' Hs0 Ht0) as [? Hn]. split; [done|].
    intros o2 [_ Hl]%is_lease_delete. by apply (Hn o2).
Qed.

Lemma serves_timer_fires t w : exists o, serves o w (timer_fires t w).1.
Proof.
  change (timer_fires t w) with (match timers (mgr w) !! t with
    | None => ret (E := E) tt
    | Some timer => bind (on_mgr (upd_timers (delete t))) (fun _ =>
        match tm_callback timer with
        | lease_expiry o => bind (mutate o (set_lease_timer None)) (fun _ => bind (mutate o clear_wake) (fun _ =>
            bind (triggerNextWakeIfPending callbackBaseUrl random_hex now o) (fun _ => ret tt)))
        | webhook_retry o triggeredBy =>
            bind (mutate o (fun s => set_retry (retry_count s) None (next_attempt_at s) s)) (fun _ =>
              deliverWebhook callbackBaseUrl now o triggeredBy)
        end)
    end w).
  destruct (timers (mgr w) !! t) as [[[o|o l] d]|] eqn:Ht; [| |by exists 0%nat]; cbn [tm_callback]; exists o.
  - set (w1 := mkWorld (upd_objects (alter (set_lease_timer None) o) (upd_timers (delete t) (mgr w))) (sstore w)).
    pose proof (acts_lease_fired o t d w Ht) as Ha. fold w1 in Ha.
    unfold bind at 1 2. cbn [mutate on_mgr modify]. fold w1. split.
    + etransitivity; [exact Ha|]. revert w1 Ha. clear. intros w1 _. revert w1.
      apply (mono_bind _); [mono_auto|intros _]. mono_steps.
    + intros Hok _. destruct (Ha Hok) as (Hok1 & _).
      destruct (acts_mutate (E := E) W now o clear_wake tame_clear_wake w1 Hok1) as (Hok2 & _).
      unfold bind at 1. cbn [mutate on_mgr modify]. rewrite bind_ret_state.
      apply good_triggerNextWakeIfPending; [done|]. cbn. rewrite lookup_alter_eq.
      destruct (alter _ o (objects (mgr w)) !! o); [|done]. intros s' [= <-] [[_ Hw]|Hh]; done.
  - unfold bind at 1. cbn [on_mgr modify].
    etransitivity; [|apply (serves_run o); apply (mono_bind _); [|intros _; mono_auto]].
    2: { apply serves_steady; [apply acts_mutate; intros s; by split_and!; auto|].
         apply steady_mutate; intros; by split_and!. }
    assert (Ha : acts o w (on_mgr (E := E) (upd_timers (delete t)) w).1).
    { intros Hok. assert (Hn : forall o', ~ is_lease o' (mgr w) t) by (intros o' [d' Hd']; congruence).
      apply acts_delete_timer; [| |done|done].
      - intros o' s _ Hs Hl. by apply (Hn o'), (ok_lease W _ Hok o' s).
      - intros s Hs Hl. by apply (Hn o), (ok_lease W _ Hok o s). }
    split; [done|]. intros Hok Hg. apply (good_steady W now o w); [done..|by apply steady_same|done].
Qed.

(** *** Appends *)

Notation on_append := (on_append (E := E) callbackBaseUrl random_hex now).
Notation onStreamAppend := (onStreamAppend (E := E) callbackBaseUrl random_hex now).

(** Good, but for what was appended to [rel]. *)
Definition good_but (rel : string) (w : World S) (o : nat) : Prop :=
  forall s, objects (mgr w) !! o = Some s ->
    (awake s = false -> forall k l, map_get k (streams s) = Some l -> k <> rel ->
       ~ pending W now (sstore w) k l) /\
    (held s -> lease_timer s <> None).

Lemma good_but_other rel o o' w w' :
  manager_ok W (mgr w) -> acts o w w' -> o' <> o -> good_but rel w o' -> good_but rel w' o'.
Proof.
  intros Hok Ha Hne Hg s Hs. destruct (Ha Hok) as (_ & Hl & Hst).
  rewrite (lv_others _ _ _ Hl) in Hs by done. destruct (Hg s Hs) as [Hq Hh].
  split; [|done]. intros Haw k l Hk Hr (Hw & tl & Htl & Hgt). apply (Hq Haw k l Hk Hr). split; [done|].
  exists tl. split; [|done]. destruct (Hst _ (proj1 Hw)) as [<-|Hn]; congruence.
Qed.

Lemma link_get rel t a s : normal rel -> map_has rel (streams (link rel t a s)) = true.
Proof.
  intros Hn. unfold map_has, link. rewrite Hn.
  destruct (map_get rel (streams s)); cbn; by rewrite map_get_set_eq.
Qed.

Lemma good_on_append rel o w :
  normal rel -> manager_ok W (mgr w) -> good_but rel w o -> good (on_append rel o w).1 o.
Proof.
  intros Hn Hok Hg. destruct (objects (mgr w) !! o) as [s|] eqn:Hs.
  2: { apply good_absent. destruct (acts_on_append callbackBaseUrl random_hex W now o rel w Hok)
         as (_ & Hl & _). by apply (lv_absent _ _ _ Hl). }
  destruct (Hg s Hs) as [Hq Hh]. unfold Subscription.on_append. rewrite (bind_the_Some o s) by done.
  set (b := truthy (pattern (config s)) && _). set (a := match map_get rel (streams s) with Some _ => _ | None => Some BEFORE_FIRST_OFFSET end).
  assert (exists x, a = Some x) as [x ->].
  { unfold a. destruct (map_get rel (streams s)) as [l|]; [destruct (acked_offset l)|]; eauto. }
  destruct b.
  - unfold linkStream, bind at 1. cbn [mutate on_mgr modify].
    set (w1 := mkWorld (upd_objects (alter (link rel glob (Some x)) o) (mgr w)) (sstore w)).
    assert (Hs1 : objects (mgr w1) !! o = Some (link rel glob (Some x) s))
      by (cbn; by rewrite lookup_alter_eq, Hs).
    rewrite (bind_the_Some o _ w1 _ Hs1), link_get by done. apply good_maybeWake.
    + destruct (acts_mutate (E := E) W now o _ (tame_link rel glob x) w Hok) as (Hok1 & _). exact Hok1.
    + intros s1 Hs1'. rewrite Hs1 in Hs1'. injection Hs1' as <-. unfold link.
      destruct (map_get _ (streams s)); apply Hh.
  - unfold bind at 1, ret at 1. rewrite (bind_the_Some o s) by done. unfold map_has.
    destruct (map_get rel (streams s)) as [l|] eqn:Hl.
    + apply good_maybeWake; [done|]. intros s' Hs'. assert (s' = s) as -> by congruence. done.
    + intros s' Hs'. assert (s' = s) as -> by (cbn in Hs'; congruence). split; [|done].
      intros Haw k l Hk. apply (Hq Haw k l Hk). congruence.
Qed.

Lemma for_on_append rel os w w' :
  normal rel -> manager_ok W (mgr w) -> NoDup os -> for_m (on_append rel) os w = (w', Ok tt) ->
  manager_ok W (mgr w') /\ subscriptions (mgr w') = subscriptions (mgr w) /\
  isShuttingDown (mgr w') = isShuttingDown (mgr w) /\
  (forall o, o ∈ os -> good_but rel w o -> good w' o) /\ (forall o, o ∉ os -> good w o -> good w' o).
Proof.
  intros Hn. revert w. induction os as [|o os IH]; intros w Hok Hnd Hrun; cbn [for_m] in Hrun.
  { injection Hrun as <-. split_and!; try done. by intros o ?%elem_of_nil. }
  apply list.NoDup_cons in Hnd as [Hno Hnd]. unfold bind in Hrun.
  destruct (acts_on_append callbackBaseUrl random_hex W now o rel w Hok) as (Hok1 & Hl & Hsh).
  pose proof (good_on_append rel o w Hn Hok) as Hgo.
  destruct (on_append rel o w) as [w1 [[]|e]]; [|done]. cbn [fst] in *.
  assert (Ha : acts o w w1) by (by intros _).
  destruct (IH w1 Hok1 Hnd Hrun) as (Hok' & Hsub & Hdown & Hin & Hout).
  split_and!; [done|by rewrite Hsub, (lv_subscriptions _ _ _ Hl)|by rewrite Hdown, (lv_shutting _ _ _ Hl)|..].
  - intros o' [->|Ho']%elem_of_cons Hb; [by apply Hout; [|apply Hgo]|].
    apply Hin; [done|]. apply (good_but_other rel o o' w); [done..| |done]. by intros ->.
  - intros o' Ho' Hb. apply not_elem_of_cons in Ho' as [Hne Ho']. apply Hout; [done|].
    by apply (good_other W now o o' w).
Qed.

(** [st'] is [st] after an append to [path], which may have moved any wake
    stream as well. *)
Definition appended (path : string) (st st' : S) : Prop :=
  forall q, ~ W q -> q <> path -> tail now st' q = tail now st q \/ tail now st' q = None.

Lemma all_good_appended path w st' w' :
  (forall rel, toStreamRelativePath path = Some rel -> normal rel) ->
  appended path (sstore w) st' -> onStreamAppend path (mkWorld (mgr w) st') = (w', Ok tt) ->
  all_good now w -> all_good now w'.
Proof.
  intros Hn Happ Hrun [Hok Hup Hall]. unfold Subscription.onStreamAppend in Hrun.
  change (bind the_manager ?k ?x) with (k (mgr x) x) in Hrun. cbv beta in Hrun. cbn [mgr] in Hrun.
  rewrite Hup in Hrun.
  assert (Hbut : forall o, good w o -> forall s, objects (mgr w) !! o = Some s -> awake s = false ->
    forall k l, map_get k (streams s) = Some l -> toAbsoluteStreamPath k <> path -> ~ pending W now st' k l).
  { intros o Hg s Hs Haw k l Hk Hne (Hw & tl & Htl & Hgt). apply (proj1 (Hg s Hs) Haw k l Hk). split; [done|].
    exists tl. split; [|done]. destruct (Happ _ (proj1 Hw) Hne) as [<-|]; congruence. }
  destruct (toStreamRelativePath path) as [rel|] eqn:Hrel.
  - destruct (for_on_append rel (map snd (subscriptions (mgr w))) (mkWorld (mgr w) st') w') as
      (Hok' & Hsub & Hdown & Hin & _); [by apply Hn|done|apply (ok_registered W _ Hok)|done|].
    split; [done|by rewrite Hdown|]. intros id o Hid. rewrite Hsub in Hid. apply Hin.
    + apply list_elem_of_fmap. exists (id, o). split; [done|]. by apply map_get_elem_of.
    + intros s Hs. split; [|by apply (Hall id o Hid)]. intros Haw k l Hk Hne.
      apply (Hbut o (Hall id o Hid) s Hs Haw k l Hk). intros <-. apply Hne.
      destruct (proj2 (ok_links W _ Hok o s Hs) k l Hk) as (_ & Hnk & _). symmetry. by apply relative_absolute.
  - injection Hrun as <-. split; [done..|]. intros id o Hid s Hs. split; [|by apply (Hall id o Hid)].
    intros Haw k l Hk Hp. apply (Hbut o (Hall id o Hid) s Hs Haw k l Hk); [|done]. intros <-.
    by apply (proj2 (proj1 Hp)).
Qed.

(** *** Links *)

Lemma serves_relink o f :
  tame f ->
  (forall s, wake_id (f s) = wake_id s /\ holder (f s) = holder s /\ lease_timer (f s) = lease_timer s /\
     forall k l', map_get k (streams (f s)) = Some l' ->
       exists l, map_get k (streams s) = Some l /\ acked_offset l' = acked_offset l) ->
  serves_m o (mutate o f).
Proof.
  intros Ht Hf w. split; [by apply acts_mutate|]. intros Hok Hg s'. cbn. rewrite lookup_alter_eq.
  destruct (objects (mgr w) !! o) as [s|] eqn:Hs; [|done]. intros [= <-]. destruct (Hg s Hs) as [Hq Hl].
  destruct (Ht s) as (Hc & _). destruct (Hf s) as (Hw & Hh & Hlt & Hk).
  unfold good_record, awake, held. rewrite Hw, Hh, Hc, Hlt. split; [|done].
  intros Haw k l' Hl' (Hwatch & tl & Htl & Hgt). destruct (Hk k l' Hl') as (l & Hkl & Hacked).
  apply (Hq Haw k l Hkl). split; [done|]. exists tl. by rewrite <-Hacked.
Qed.

Lemma serves_unlink o p : serves_m o (mutate o (unlink p)).
Proof.
  apply serves_relink; [apply tame_unlink|]. intros s. unfold unlink.
  destruct (map_get (normalizeRelativePath p) (streams s)) as [l|] eqn:Hl; [|split_and!; try done; eauto].
  destruct (has_glob l); split_and!; try done; cbn; intros k l'.
  - rewrite map_get_set. destruct (String.eqb_spec k (normalizeRelativePath p)) as [->|]; [|eauto].
    intros [= <-]. by exists l.
  - rewrite map_get_delete. destruct (String.eqb k _); [done|eauto].
Qed.

Lemma serves_drop_link o rel :
  serves_m o (mutate o (fun s => set_streams (map_delete rel (streams s)) s)).
Proof.
  apply serves_relink; [apply tame_set_streams; intros m; apply links_ok_delete|].
  intros s. split_and!; try done. cbn. intros k l'. rewrite map_get_delete. destruct (String.eqb k rel); [done|eauto].
Qed.

(** A link to a stream starts at its tail. *)
Lemma serves_link o t p :
  serves_m o (bind (getTailOffset now p) (fun tail => linkStream o p t (Some tail))).
Proof.
  intros w. destruct (getTailOffset_run (E := E) now p w) as (st & Hr & Hst).
  assert (Hsh : shrinks W now (sstore w) st) by (intros q _; apply Hst; by intros []).
  split; [revert w st Hr Hst Hsh; intros w _ _ _ _; apply (mono_bind _); unfold linkStream; mono_auto|].
  intros Hok Hg s'. unfold bind. rewrite Hr. cbn. rewrite lookup_alter_eq.
  destruct (objects (mgr w) !! o) as [s|] eqn:Hs; [|done]. intros [= <-].
  destruct (good_record_shrinks W now _ _ s Hsh (Hg s Hs)) as [Hq Hl].
  split; [|unfold link; by destruct (map_get _ (streams s))].
  intros Haw k l' Hl' (Hwatch & tl & Htl & Hgt).
  assert (Haw' : awake s = false) by (revert Haw; unfold link; by destruct (map_get _ (streams s))).
  unfold link in Hl'. destruct (map_get (normalizeRelativePath p) (streams s)) as [l|] eqn:Hp; cbn in Hl';
    rewrite map_get_set in Hl'; destruct (String.eqb_spec k (normalizeRelativePath p)) as [->|Hne];
    try (apply (Hq Haw' k l' Hl'); split; [done|]; by exists tl).
  - injection Hl' as <-. apply (Hq Haw' _ l Hp). split; [done|]. exists tl. split; [done|].
    by destruct t.
  - injection Hl' as <-. assert (Ha : toAbsoluteStreamPath (normalizeRelativePath p) = toAbsoluteStreamPath p)
      by (unfold toAbsoluteStreamPath; by rewrite normalize_idem).
    unfold watched in Hwatch. rewrite Ha in Htl, Hwatch. destruct (Hsh _ (proj1 Hwatch)) as [Ht|Ht]; [|congruence].
    rewrite <-Ht, Htl in Hgt. by destruct t; cbn in Hgt; rewrite str_ltb_irrefl in Hgt.
Qed.

Lemma serves_link_all o t paths : serves_m o (link_all now o t paths).
Proof. apply (mono_for_m _). intros p. apply serves_link. Qed.
End at_time.
End events.
