(* ===== verification/WakeHistory.v ===== *)
(** * The life of a manager

    [history]: every sequence of requests, appends, webhook responses, timers
    and changes of the store, from a new manager on.  Whatever happens, every
    registered subscription is good. *)

From S2P Require Import Prelude Text Json Glob JsMap Tokens Subscription SubscriptionLemmas Acks Wakes WakeEvents.
Local Open Scope js_scope.
Set Default Proof Using "Type".

(** A value under two keys is registered twice. *)
Lemma map_get_inj {V} (m : list (string * V)) k k' v :
  NoDup m.*2 -> map_get k m = Some v -> map_get k' m = Some v -> k = k'.
Proof.
  intros Hnd Hk%map_get_elem_of Hk'%map_get_elem_of. induction m as [|[k0 v0] m IH]; [by apply elem_of_nil in Hk|].
  apply list.NoDup_cons in Hnd as [Hv Hnd]. cbn in Hv.
  assert (Hother : forall x, (x, v0) ∉ m) by (intros x Hx; apply Hv, list_elem_of_fmap; by exists (x, v0)).
  apply elem_of_cons in Hk as [Hk|Hk]; apply elem_of_cons in Hk' as [Hk'|Hk']; simplify_eq; try done.
  - by destruct (Hother k').
  - by destruct (Hother k).
  - by apply IH.
Qed.

Section history.
Context `{!JsonLib} `{!CryptoLib} `{!UrlLib} {S E : Type} `{HStore : !SubscriptionStreamStore S E}
  `{HLaws : !SubscriptionStreamStoreLaws S E}.
Context (webhooksEnabled : bool) (callbackBaseUrl : string)
  (random_hex : nat -> string) (jittered : nat -> Z -> Z).
Context (W : string -> Prop).

Section at_time.
Context (now : Z).
Notation all_good := (all_good W now).
Notation createOrConfirm := (createOrConfirm (E := E) webhooksEnabled now).

(** *** Creating and deleting *)

Lemma all_good_steps {A} (f : A -> M (World S) E unit) l w :
  (forall a w, all_good w -> all_good (f a w).1) -> all_good w -> all_good (for_m f l w).1.
Proof.
  intros Hf. revert w. induction l as [|a l IH]; intros w Hw; [done|]. cbn [for_m]. unfold bind.
  pose proof (Hf a w Hw) as Hfw. destruct (f a w) as [w' [[]|e]]; [by apply IH|done].
Qed.

(** The stores of wake events are [W]. *)
Definition wakes_known (input : SubscriptionCreateInput) : Prop :=
  forall ws, in_wake_stream input = Some ws -> W (toAbsoluteStreamPath ws).

(** A new object, that nobody refers to yet. *)
Definition with_new (c : SubscriptionConfig) (w : World S) : World S :=
  mkWorld (upd_objects (insert (nextId (mgr w)) (mkSubscription c active [] 0 None [] None None None 0 None None))
    (mgr (fresh_id (E := unit) w).1)) (sstore w).

Lemma manager_ok_new c w :
  (forall ws, wake_stream c = Some ws -> W (toAbsoluteStreamPath ws)) -> manager_ok W (mgr w) ->
  manager_ok W (mgr (with_new c w)).
Proof.
  intros Hc Hok. split; cbn.
  - intros o' Ho'. rewrite lookup_insert_ne by lia. apply (ok_objects W _ Hok). lia.
  - intros t Ht. apply (ok_timers W _ Hok). lia.
  - intros o' s t [[<- <-]|[Hne Hs]]%lookup_insert_Some; [done|]. by apply (ok_lease W _ Hok o' s).
  - intros o' s t [[<- <-]|[Hne Hs]]%lookup_insert_Some; [done|]. intros Ht.
    destruct (ok_retry W _ Hok o' s t Hs Ht). by split; [lia|].
  - intros o' s [[<- <-]|[Hne Hs]]%lookup_insert_Some; [|by apply (ok_links W _ Hok o')].
    split; [apply NoDup_nil_2|done].
  - intros o' s ws [[<- <-]|[Hne Hs]]%lookup_insert_Some; [by apply Hc|by apply (ok_wakes W _ Hok o')].
  - destruct (ok_registered W _ Hok) as [? Hr]. split; [done|]. intros o' Ho'.
    apply lookup_insert_is_Some'. right. by apply Hr.
Qed.

Lemma all_good_new c w :
  (forall ws, wake_stream c = Some ws -> W (toAbsoluteStreamPath ws)) -> all_good w ->
  all_good (with_new c w) /\ good W now (with_new c w) (nextId (mgr w)).
Proof.
  intros Hc [Hok Hup Hall]. set (o := nextId (mgr w)).
  assert (Hnew : objects (mgr w) !! o = None) by (by apply (ok_objects W _ Hok)).
  assert (Hreg : forall id o', map_get id (subscriptions (mgr w)) = Some o' -> o' <> o).
  { intros id o' Hid ->. destruct (proj2 (ok_registered W _ Hok) o) as [s Hs]; [|congruence].
    apply list_elem_of_fmap. exists (id, o). split; [done|]. by apply map_get_elem_of. }
  split; [split|].
  - by apply manager_ok_new.
  - done.
  - intros id o' Hid s Hs. cbn in Hs. rewrite lookup_insert_ne in Hs by (symmetry; by apply (Hreg id)).
    by apply (Hall id o' Hid).
  - intros s. cbn. rewrite lookup_insert_eq. intros [= <-]. split; [by intros _ k l|].
    by intros [[_ Hw]|Hw].
Qed.

(** An object on its way to be registered as [id]. *)
Record newcomer (id : string) (o : nat) (w : World S) : Prop := {
  nc_all : all_good w;
  nc_good : good W now w o;
  nc_fresh : o ∉ (subscriptions (mgr w)).*2;
  nc_object : is_Some (objects (mgr w) !! o);
  nc_free : map_get id (subscriptions (mgr w)) = None;
}.

Lemma newcomer_bind {A} id o (m : M (World S) E unit) (k : M (World S) E A) w :
  monotone (serves W now o) m -> newcomer id o w ->
  (forall w', newcomer id o w' -> all_good (k w').1) -> all_good (bind m (fun _ => k) w).1.
Proof.
  intros Hm [Hall Hg Hfresh [s Hs] Hfree] Hk. specialize (Hm w).
  pose proof (all_good_serves W now o _ _ Hm Hall) as Hall'. destruct Hm as [Ha Hg'].
  destruct (Ha (ag_ok _ _ _ Hall)) as (Hok & Hl & _). specialize (Hg' (ag_ok _ _ _ Hall) Hg).
  unfold bind. destruct (m w) as [w' [[]|e]]; [|done]. cbn [fst] in *.
  apply Hk. split; rewrite ?(lv_subscriptions _ _ _ Hl); try done.
  destruct (lv_object _ _ _ Hl s Hs) as (s' & ? & _). by exists s'.
Qed.

(** Registering the object under an identifier that was free. *)
Lemma all_good_register id o w :
  newcomer id o w -> all_good (mkWorld (upd_subscriptions (map_set id o) (mgr w)) (sstore w)).
Proof.
  intros [[Hok Hup Hall] Hg Hfree Hs Hid]. split; [split; cbn; try apply Hok|done|].
  - destruct (ok_registered W _ Hok) as [Hnd Hreg].
    assert (Hset : map_set id o (subscriptions (mgr w)) = subscriptions (mgr w) ++ [(id, o)]).
    { clear -Hid. induction (subscriptions (mgr w)) as [|[k v] m IH]; [done|]. cbn in *.
      destruct (String.eqb id k); [done|]. by rewrite IH. }
    rewrite Hset, fmap_app. split.
    + apply list.NoDup_app. split_and!; [done| |apply NoDup_singleton].
      intros x Hx ->%list_elem_of_singleton. done.
    + intros o' [Ho'| ->%list_elem_of_singleton]%elem_of_app; [by apply Hreg|done].
  - intros id' o'. cbn. rewrite map_get_set. destruct (String.eqb_spec id' id) as [->|].
    + by intros [= <-].
    + intros Hid'. by apply (Hall id' o').
Qed.

Lemma all_good_createOrConfirm id input w :
  wakes_known input -> all_good w -> all_good (createOrConfirm id input w).1.
Proof.
  intros Hw Hall. unfold Subscription.createOrConfirm. rewrite bind_get.
  destruct (map_get id (subscriptions (mgr w))) as [o|] eqn:Hid.
  { unfold bind, the. by destruct (negb _). }
  destruct (create_error webhooksEnabled input); [done|].
  set (c := mkConfig id (in_type input) (in_pattern input) (in_webhook input) (in_wake_stream input)
    (in_lease_ttl_ms input) (in_description input) now (stableConfigHash input)).
  destruct (all_good_new c w Hw Hall) as [Hall1 Hg1]. set (o := nextId (mgr w)) in *.
  change (bind fresh_id ?k w) with (k o (fresh_id (E := E) w).1). cbv beta.
  unfold bind at 1. cbn [on_mgr modify].
  change (mkWorld (upd_objects _ _) _) with (with_new c w). set (w1 := with_new c w) in *.
  assert (Hnc : newcomer id o w1).
  { split; [done|done| |by cbn; rewrite lookup_insert_eq; eauto|done]. intros Ho.
    destruct (proj2 (ok_registered W _ (ag_ok _ _ _ Hall)) o Ho) as [s Hs].
    by rewrite (ok_objects W _ (ag_ok _ _ _ Hall)) in Hs. }
  apply (newcomer_bind id o); [apply serves_link_all|done|]. intros w2 Hnc2.
  apply (newcomer_bind id o); [|done|].
  { destruct (truthy (in_pattern input)); [|apply (mono_ret _)].
    apply (mono_bind _); [|intros; apply serves_link_all].
    intros w0. by apply serves_steady; intros w3; [apply acts_refl|reflexivity]. }
  intros w3 Hnc3. by apply all_good_register.
Qed.

(** [delete] clears the timers of the object and forgets it. *)
Lemma delete_run id o s w :
  map_get id (subscriptions (mgr w)) = Some o -> objects (mgr w) !! o = Some s ->
  exists w1, acts W now o w w1 /\
    (delete_ (E := E) id w).1 = mkWorld (upd_subscriptions (map_delete id) (mgr w1)) (sstore w1).
Proof.
  intros Hid Hs. unfold delete_. rewrite bind_get, Hid.
  destruct (clearLease_run (E := E) o s w Hs) as (w1 & Hr & Hs1).
  assert (Hr2 : exists w2, clear_retry (E := E) o w1 = (w2, Ok tt)).
  { unfold clear_retry. rewrite (bind_the_Some o _ _ _ Hs1). unfold clearTimeout.
    destruct (retry_timer _); by eexists. }
  destruct Hr2 as [w2 Hr2]. exists w2. split.
  - enough (Hm : monotone (acts W now o) (bind (clearLease (E := E) o) (fun _ => clear_retry o))).
    { specialize (Hm w). unfold bind in Hm. rewrite Hr in Hm. by rewrite Hr2 in Hm. }
    mono_steps.
  - unfold bind at 1. rewrite Hr. unfold bind at 1. by rewrite Hr2.
Qed.

Lemma all_good_delete id w : all_good w -> all_good (delete_ (E := E) id w).1.
Proof.
  intros Hall. destruct (map_get id (subscriptions (mgr w))) as [o|] eqn:Hid.
  2: { unfold delete_. by rewrite bind_get, Hid. }
  destruct (proj2 (ok_registered W _ (ag_ok _ _ _ Hall)) o) as [s Hs].
  { apply list_elem_of_fmap. exists (id, o). split; [done|]. by apply map_get_elem_of. }
  destruct (delete_run id o s w Hid Hs) as (w1 & Ha & ->).
  destruct (Ha (ag_ok _ _ _ Hall)) as (Hok & Hl & Hsh). destruct (ok_registered W _ Hok) as [Hnd Hreg].
  split; [split; cbn; try apply Hok|cbn; rewrite (lv_shutting _ _ _ Hl); by apply (ag_up _ _ _ Hall)|].
  - split.
    + eapply sublist_NoDup; [exact Hnd|]. apply fmap_sublist, sublist_filter.
    + intros o' ([k v] & -> & [_ Hin]%list_elem_of_filter)%list_elem_of_fmap. apply Hreg.
      apply list_elem_of_fmap. by exists (k, v).
  - intros id' o'. cbn. rewrite map_get_delete. destruct (String.eqb_spec id' id) as [->|Hne]; [done|].
    rewrite (lv_subscriptions _ _ _ Hl). intros Hid'.
    apply (good_other W now o o' w w1); [apply (ag_ok _ _ _ Hall)|done| |by apply (ag_good _ _ _ Hall id')].
    intros ->. apply Hne. apply (map_get_inj (subscriptions (mgr w)) id' id o); [|done..].
    apply (ok_registered W _ (ag_ok _ _ _ Hall)).
Qed.

(** *** Changes of the store and of the clock *)

(** The store moves without telling the manager: streams go away, wake streams
    move, and what appears does not pass the cursor of a link. *)
Definition moved (w : World S) (st' : S) : Prop :=
  forall q tl, ~ W q -> tail now st' q = Some tl ->
    tail now (sstore w) q = Some tl \/
    forall o s k l, objects (mgr w) !! o = Some s -> map_get k (streams s) = Some l ->
      toAbsoluteStreamPath k = q -> offset_gt (Some tl) (acked_offset l) = false.

Lemma all_good_moved w st' : moved w st' -> all_good w -> all_good (mkWorld (mgr w) st').
Proof.
  intros Hm [Hok Hup Hall]. split; [done..|]. intros id o Hid s Hs. destruct (Hall id o Hid s Hs) as [Hq Hl].
  split; [|done]. intros Haw k l Hk (Hw & tl & Htl & Hgt). destruct (Hm _ _ (proj1 Hw) Htl) as [Ht|Ht].
  - apply (Hq Haw k l Hk). split; [done|]. by exists tl.
  - by rewrite (Ht o s k l) in Hgt.
Qed.
End at_time.

Lemma all_good_later now now' w : now <= now' -> all_good W now w -> all_good W now' w.
Proof.
  intros Hle [Hok Hup Hall]. split; [done..|]. intros id o Hid s Hs. destruct (Hall id o Hid s Hs) as [Hq Hl].
  split; [|done]. intros Haw k l Hk (Hw & tl & Htl & Hgt). apply (Hq Haw k l Hk). split; [done|]. exists tl.
  split; [|done].
  destruct (tail_later now now' (sstore w) (toAbsoluteStreamPath k) Hle) as [<-|Hn]; congruence.
Qed.

(** ** Events *)

Notation createOrConfirm now := (createOrConfirm (E := E) webhooksEnabled now).
Notation callback now := (handleWebhookCallback (E := E) callbackBaseUrl random_hex now).
Notation ack now := (ack (E := E) callbackBaseUrl random_hex now).
Notation release now := (release (E := E) callbackBaseUrl random_hex now).
Notation claim now := (claim (E := E) callbackBaseUrl random_hex now).
Notation delivery_response now := (delivery_response (E := E) jittered now).
Notation delivery_body now := (delivery_body (E := E) callbackBaseUrl random_hex jittered now).
Notation timer_fires now := (timer_fires (E := E) callbackBaseUrl random_hex now).
Notation onStreamAppend now := (onStreamAppend (E := E) callbackBaseUrl random_hex now).

(** What happens at an instant.  Requests carry an offset with every
    acknowledgement and a worker's name that is not empty; an append is to a path
    without superfluous slashes, and the loop over the subscriptions ran to its
    end. *)
Inductive event (now : Z) (w : World S) : World S -> Prop :=
| ev_create id input : wakes_known input -> event now w (createOrConfirm now id input w).1
| ev_delete id : event now w (delete_ (E := E) id w).1
| ev_add id paths : event now w (addExplicitStreams (E := E) now id paths w).1
| ev_remove id path : event now w (removeExplicitStream (E := E) id path w).1
| ev_callback id tok r : offsets_given r -> event now w (callback now id tok r w).1
| ev_ack id tok r : offsets_given r -> event now w (ack now id tok r w).1
| ev_release id tok r : event now w (release now id tok r w).1
| ev_claim id worker : truthy (Some worker) = true -> event now w (claim now id worker w).1
| ev_finish_claim o worker : truthy (Some worker) = true ->
    event now w (finish_claim (E := E) random_hex now o worker w).1
| ev_response d ok : event now w (delivery_response now d ok w).1
| ev_body d done_ : event now w (delivery_body now d done_ w).1
| ev_timer t : event now w (timer_fires now t w).1
| ev_append path st' w' :
    (forall rel, toStreamRelativePath path = Some rel -> normal rel) ->
    appended W now path (sstore w) st' -> onStreamAppend now path (mkWorld (mgr w) st') = (w', Ok tt) ->
    event now w w'
| ev_deleted path : event now w (onStreamDeleted (E := E) path w).1
| ev_moved st' : moved now w st' -> event now w (mkWorld (mgr w) st').

Inductive history : Z -> World S -> Prop :=
| history_start now st : history now (mkWorld new_manager st)
| history_step now now' w w' : history now w -> now <= now' -> event now' w w' -> history now' w'.

Lemma all_good_start now st : all_good W now (mkWorld new_manager st).
Proof.
  split; [split; try done|done|done]; cbn; intros; try (by rewrite lookup_empty in *).
  split; [apply NoDup_nil_2|]. by intros o ?%elem_of_nil.
Qed.

Lemma all_good_onStreamDeleted now path w :
  all_good W now w -> all_good W now (onStreamDeleted (E := E) path w).1.
Proof.
  intros Hall. unfold onStreamDeleted.
  change (bind the_manager ?k w) with (k (mgr w) w). cbv beta.
  destruct (toStreamRelativePath path) as [rel|]; [|done].
  apply (all_good_steps now); [|done]. intros o w1 Hall1.
  apply (all_good_serves W now o w1); [|done]. apply serves_drop_link.
Qed.

Lemma all_good_event now w w' : event now w w' -> all_good W now w -> all_good W now w'.
Proof.
  intros Hev Hall.
  assert (Hserved : forall w', (exists o, serves W now o w w') -> all_good W now w')
    by (intros w2 [o Ho]; by apply (all_good_serves W now o w)).
  destruct Hev.
  - by apply all_good_createOrConfirm.
  - by apply all_good_delete.
  - apply Hserved, serves_found. intros o. apply (mono_bind _); [apply serves_link_all|]. intros. apply (mono_ret _).
  - apply Hserved, serves_found. intros o. apply (mono_bind _); [apply serves_unlink|]. intros. apply (mono_ret _).
  - by apply Hserved, serves_handleWebhookCallback.
  - by apply Hserved, serves_ack.
  - by apply Hserved, serves_release.
  - by apply Hserved, serves_claim.
  - apply Hserved. exists o. by apply serves_finish_claim.
  - apply Hserved, serves_delivery_response.
  - apply Hserved, serves_delivery_body.
  - apply Hserved, serves_timer_fires.
  - by apply (all_good_appended callbackBaseUrl random_hex W now path w st').
  - by apply all_good_onStreamDeleted.
  - by apply all_good_moved.
Qed.

Lemma all_good_history now w : history now w -> all_good W now w.
Proof.
  induction 1 as [|now now' w w' _ IH Hle Hev]; [apply all_good_start|].
  apply (all_good_event now' w); [done|]. by apply (all_good_later now).
Qed.

(** ** Theorems *)

(** C27: No wake is lost.  After any history of a manager made of requests,
    announced appends, responses and failures of webhooks, timers, deletions and
    streams disappearing, a registered subscription that has a watched stream with
    data past its acknowledged offset is awake: it has a wake id or a holder.  In such
    a history every acknowledgement carries an offset and every worker has a name that
    is not empty; an append is announced to [onStreamAppend], whose loop runs to its
    end, under a path without superfluous slashes; and the store otherwise changes
    only in ways that put no stream past the cursor of a link (so a fork with data
    that nobody announces is left out: [fork_not_announced] of Scenarios).  Watched
    are the streams below the manager's root that are no wake streams. *)
Theorem no_lost_wake now w id o s k l tl :
  history now w -> map_get id (subscriptions (mgr w)) = Some o -> objects (mgr w) !! o = Some s ->
  map_get k (streams s) = Some l -> watched W k -> tail now (sstore w) (toAbsoluteStreamPath k) = Some tl ->
  offset_gt (Some tl) (acked_offset l) = true ->
  truthy (wake_id s) = true \/ truthy (holder s) = true.
Proof.
  intros Hist Hid Hs Hk Hwatch Htl Hgt. apply orb_true_iff. change (awake s = true).
  destruct (awake s) eqn:Haw; [done|]. exfalso.
  apply (proj1 (ag_good _ _ _ (all_good_history now w Hist) id o Hid s Hs) Haw k l Hk).
  split; [done|]. by exists tl.
Qed.

(** C30: A subscription that waits for somebody - a webhook with a wake, or one
    with a holder - has a lease, and the lease's timer is armed: an answer that
    never comes cannot keep the subscription from waking again. *)
Theorem held_has_lease now w id o s :
  history now w -> map_get id (subscriptions (mgr w)) = Some o -> objects (mgr w) !! o = Some s ->
  held s ->
  exists t d, lease_timer s = Some t /\ timers (mgr w) !! t = Some (mkTimer (lease_expiry o) d).
Proof.
  intros Hist Hid Hs Hheld. pose proof (all_good_history now w Hist) as Hall.
  pose proof (proj2 (ag_good _ _ _ Hall id o Hid s Hs) Hheld) as Hl.
  destruct (lease_timer s) as [t|] eqn:Ht; [|done].
  destruct (ok_lease W _ (ag_ok _ _ _ Hall) o s t Hs Ht) as [d Hd]. by exists t, d.
Qed.

(** An expired lease ends the wake, and offers what is still pending again.
    When the timer of a lease fires, the subscription loses its holder and
    either gets a new wake, of the next generation - with a lease of its own when
    it is a webhook - or none of its watched streams has anything past the
    acknowledged offset and it sleeps. *)
Theorem lease_expiry_offers_again now w o s t d :
  manager_ok W (mgr w) -> timers (mgr w) !! t = Some (mkTimer (lease_expiry o) d) ->
  objects (mgr w) !! o = Some s ->
  exists s', objects (mgr (timer_fires now t w).1) !! o = Some s' /\ holder s' = None /\
    streams s' = streams s /\
    ((truthy (wake_id s') = true /\ generation s' = generation s + 1 /\
      (type (config s) = webhook -> lease_timer s' <> None)) \/
     (wake_id s' = None /\ generation s' = generation s /\ lease_timer s' = None /\
      quiet W now (sstore (timer_fires now t w).1) s')).
Proof.
  intros Hok Ht Hs. set (s1 := clear_wake (set_lease_timer None s)).
  set (w1 := mkWorld (upd_objects (alter clear_wake o)
    (upd_objects (alter (set_lease_timer None) o) (upd_timers (delete t) (mgr w)))) (sstore w)).
  assert (Hs1 : objects (mgr w1) !! o = Some s1).
  { cbn. by rewrite lookup_alter_eq, lookup_alter_eq, Hs. }
  assert (Hrun : timer_fires now t w = bind (triggerNextWakeIfPending (E := E) callbackBaseUrl
    random_hex now o) (fun _ => ret tt) w1).
  { unfold Subscription.timer_fires. change (bind the_manager ?k w) with (k (mgr w) w). cbv beta. by rewrite Ht. }
  rewrite Hrun, bind_ret_state. unfold triggerNextWakeIfPending.
  destruct (hasPendingWork_run (E := E) W now o s1 w1 Hs1 (ok_links W _ Hok o s Hs)) as (st & b & Hr & _ & Hq).
  unfold bind at 1 4. rewrite Hr. destruct b; cbn [negb].
  - destruct (firstPendingStream_run (E := E) W now o (mkWorld (mgr w1) st)) as (st' & p & Hf).
    unfold bind at 1. rewrite Hf. rewrite bind_ret_state.
    destruct (createWake_woken (E := E) callbackBaseUrl random_hex W now o p s1
      (mkWorld (mgr w1) st') Hs1) as (s' & Hs' & Hw & Hg & Hh & Hst & Hc & Hl).
    exists s'. split_and!; try done. left. split_and!; [done..|]. intros Hty. apply Hl. by left.
  - exists s1. split_and!; try done. right. split_and!; try done. by apply Hq.
Qed.

(** ** Generations *)

(** Objects stay, with their configuration, and their generation never goes
    down. *)
Definition grows (w w' : World S) : Prop :=
  forall o s, objects (mgr w) !! o = Some s ->
    exists s', objects (mgr w') !! o = Some s' /\ config s' = config s /\ generation s <= generation s'.

#[export] Instance grows_preorder : PreOrder grows.
Proof.
  split; [intros w o s Hs; exists s; by split_and!|]. intros a b c Hab Hbc o s Hs.
  destruct (Hab o s Hs) as (s1 & Hs1 & ? & ?). destruct (Hbc o s1 Hs1) as (s2 & Hs2 & ? & ?).
  exists s2. split_and!; [done|congruence|lia].
Qed.

Lemma grows_same w w' : objects (mgr w') = objects (mgr w) -> grows w w'.
Proof. intros Ho o s Hs. exists s. rewrite Ho. by split_and!. Qed.

Lemma grows_acts now o w w' : manager_ok W (mgr w) -> acts W now o w w' -> grows w w'.
Proof.
  intros Hok Ha o' s Hs. destruct (Ha Hok) as (_ & Hl & _). destruct (decide (o' = o)) as [->|Hne].
  - by apply (lv_object _ _ _ Hl).
  - exists s. rewrite (lv_others _ _ _ Hl) by done. by split_and!.
Qed.

Lemma grows_for_m {A} now (f : A -> M (World S) E unit) (at_ : A -> nat) l w :
  (forall a, monotone (acts W now (at_ a)) (f a)) -> manager_ok W (mgr w) -> grows w (for_m f l w).1.
Proof.
  intros Hf. revert w. induction l as [|a l IH]; intros w Hok; cbn [for_m]; [reflexivity|].
  pose proof (Hf a w) as Ha. unfold bind. pose proof (grows_acts now (at_ a) w _ Hok Ha) as Hg.
  destruct (Ha Hok) as (Hok' & _). destruct (f a w) as [w' [[]|e]]; [|done].
  etransitivity; [exact Hg|by apply IH].
Qed.

Lemma grows_createOrConfirm now id input w :
  wakes_known input -> all_good W now w -> grows w (createOrConfirm now id input w).1.
Proof.
  intros Hw Hall. unfold Subscription.createOrConfirm. rewrite bind_get.
  destruct (map_get id (subscriptions (mgr w))) as [o|] eqn:Hid.
  { unfold bind, the. by destruct (negb _). }
  destruct (create_error webhooksEnabled input); [done|].
  set (c := mkConfig id (in_type input) (in_pattern input) (in_webhook input) (in_wake_stream input)
    (in_lease_ttl_ms input) (in_description input) now (stableConfigHash input)).
  destruct (all_good_new now c w Hw Hall) as [Hall1 _]. set (o := nextId (mgr w)) in *.
  change (bind fresh_id ?k w) with (k o (fresh_id (E := E) w).1). cbv beta.
  unfold bind at 1. cbn [on_mgr modify].
  change (mkWorld (upd_objects _ _) _) with (with_new c w). set (w1 := with_new c w) in *.
  transitivity w1.
  { intros o' s Hs. exists s. cbn. rewrite lookup_insert_ne; [by split_and!|]. intros <-.
    by rewrite (ok_objects W _ (ag_ok _ _ _ Hall)) in Hs. }
  assert (Hacts : forall (m : M (World S) E unit) k w2, monotone (acts W now o) m -> manager_ok W (mgr w2) ->
    (forall w3, manager_ok W (mgr w3) -> grows w3 (k w3).1) ->
    grows w2 (bind m (fun _ => k : M (World S) E (result SubscriptionError (nat * bool))) w2).1).
  { clear. intros m k w2 Hm Hok Hk. unfold bind. pose proof (grows_acts now o w2 _ Hok (Hm w2)) as Hg.
    destruct (Hm w2 Hok) as (Hok' & _). destruct (m w2) as [w3 [[]|e]]; [|done].
    etransitivity; [exact Hg|by apply Hk]. }
  apply Hacts; [mono_auto|apply (ag_ok _ _ _ Hall1)|]. intros w2 Hok2.
  apply Hacts; [|done|intros w3 _; by apply grows_same].
  destruct (truthy (in_pattern input)); [|apply (mono_ret _)]. apply (mono_bind _); [|intros; mono_auto].
  intros w3. apply acts_refl.
Qed.

Lemma grows_event now w w' : event now w w' -> all_good W now w -> grows w w'.
Proof.
  intros Hev Hall. pose proof (ag_ok _ _ _ Hall) as Hok.
  assert (Hserved : forall w', (exists o, serves W now o w w') -> grows w w')
    by (intros w2 [o [Ha _]]; by apply (grows_acts now o)).
  destruct Hev.
  - by apply grows_createOrConfirm.
  - destruct (map_get id (subscriptions (mgr w))) as [o|] eqn:Hid.
    2: { unfold delete_. by rewrite bind_get, Hid. }
    destruct (proj2 (ok_registered W _ Hok) o) as [s Hs].
    { apply list_elem_of_fmap. exists (id, o). split; [done|]. by apply map_get_elem_of. }
    destruct (delete_run now id o s w Hid Hs) as (w1 & Ha & ->). exact (grows_acts now o w w1 Hok Ha).
  - apply Hserved, serves_found. intros o. apply (mono_bind _); [apply serves_link_all|]. intros. apply (mono_ret _).
  - apply Hserved, serves_found. intros o. apply (mono_bind _); [apply serves_unlink|]. intros. apply (mono_ret _).
  - by apply Hserved, serves_handleWebhookCallback.
  - by apply Hserved, serves_ack.
  - by apply Hserved, serves_release.
  - by apply Hserved, serves_claim.
  - apply Hserved. exists o. by apply serves_finish_claim.
  - apply Hserved, serves_delivery_response.
  - apply Hserved, serves_delivery_body.
  - apply Hserved, serves_timer_fires.
  - match goal with Hrun : _ = (w', Ok tt) |- _ => apply (f_equal fst) in Hrun; cbn [fst] in Hrun; subst w' end.
    unfold Subscription.onStreamAppend. change (bind the_manager ?k ?x) with (k (mgr x) x). cbv beta.
    destruct (isShuttingDown _); [by apply grows_same|].
    destruct (toStreamRelativePath path); [|by apply grows_same].
    transitivity (mkWorld (mgr w) st'); [by apply grows_same|]. apply (grows_for_m now _ id); [|done].
    intros o. apply acts_on_append.
  - unfold onStreamDeleted. change (bind the_manager ?k ?x) with (k (mgr x) x). cbv beta.
    destruct (toStreamRelativePath path); [|reflexivity]. apply (grows_for_m now _ id); [|done].
    intros o. apply acts_mutate, tame_set_streams. intros m. apply links_ok_delete.
  - by apply grows_same.
Qed.

Inductive later (now : Z) (w : World S) : Z -> World S -> Prop :=
| later_here : later now w now w
| later_step now1 w1 now2 w2 :
    later now w now1 w1 -> now1 <= now2 -> event now2 w1 w2 -> later now w now2 w2.

Lemma history_later now w now' w' :
  history now w -> later now w now' w' -> history now' w' /\ grows w w'.
Proof.
  intros Hist. induction 1 as [|now1 w1 now2 w2 _ [IH Hg] Hle Hev]; [by split|].
  split; [by apply (history_step now1 now2 w1)|]. etransitivity; [exact Hg|].
  apply (grows_event now2); [done|]. by apply (all_good_later now1), all_good_history.
Qed.

(** A request that is answered with an error and has no effect. *)
Definition refused (m : M (World S) E MResponse) (w : World S) : Prop :=
  exists resp, m w = (w, Ok resp) /\ 400 <= ms_status resp < 500.

(** C28: A superseded token is worthless for as long as the subscription exists.  A
    token that was made for a generation that the subscription has since left is
    refused, with no effect at all, by the webhook callback, by [ack] and by
    [release], whatever the request says, at any later point of the histories of C27
    at which the identifier still names that very subscription.  (A subscription that
    was deleted and created again under the same identifier is another one, and does
    take the token: [recreated_takes_old_token] of SubscriptionScenarios.) *)
Theorem superseded_token_refused `{!JsonLaws} `{!CryptoLaws} now w now' w' id o s g t0 jti r :
  history now w -> later now w now' w' -> objects (mgr w) !! o = Some s ->
  map_get id (subscriptions (mgr w')) = Some o -> 0 <= g < generation s -> g <= MAX_SAFE_INTEGER ->
  0 <= t0 -> seconds t0 + 3600 <= MAX_SAFE_INTEGER ->
  utf8_valid (chars (tokenSubject s)) = true -> utf8_valid (chars jti) = true ->
  let tok := generateCallbackToken t0 jti (tokenSubject s) g in
  refused (callback now' id tok r) w' /\ refused (ack now' id tok r) w' /\ refused (release now' id tok r) w'.
Proof.
  intros Hist Hlater Hs Hid Hg Hmax Ht0 Hexp Hsub Hjti tok.
  destruct (history_later _ _ _ _ Hist Hlater) as [Hist' Hgrows].
  destruct (Hgrows o s Hs) as (s' & Hs' & Hc & Hgen).
  assert (Hv : exists resp, validateWakeToken now' s' tok r = Some resp /\ 400 <= ms_status resp < 500).
  { unfold validateWakeToken, tokenSubject, tok. rewrite Hc. fold (tokenSubject s).
    rewrite token_roundtrip, String.eqb_refl by (done || lia). cbn [negb].
    destruct (_ <? _); [by eexists|].
    assert (Hn : is_number (generation s') (Some (JNum (js_String g))) = false).
    { cbn. apply String.eqb_neq. intros He. pose proof (js_String_integer g ltac:(lia)) as Hi.
      rewrite He, js_String_integer in Hi by lia. injection Hi. lia. }
    rewrite Hn. by eexists. }
  destruct Hv as (resp & Hv & Hst).
  unfold refused, handleWebhookCallback, Subscription.ack, Subscription.release. rewrite !bind_get, Hid.
  split_and!.
  - exists resp. unfold acknowledge. by rewrite (bind_the_Some o s'), Hv.
  - rewrite (bind_the_Some o s') by done. destruct (negb _); [by exists not_pull_wake|].
    exists resp. unfold acknowledge. by rewrite (bind_the_Some o s'), Hv.
  - rewrite (bind_the_Some o s') by done. destruct (negb _); [by exists not_pull_wake|].
    exists resp. by rewrite Hv.
Qed.
End history.
