(* ===== verification/SubscriptionScenarios.v ===== *)
(** * A scripted life of a subscription

    A pull-wake subscription over the in-memory store: it is created, a stream
    it watches is appended to, a worker claims it and disappears, its lease
    expires.  The theorems about the manager are applied to it. *)

From S2P Require Import Prelude Text Json Types JsonInstance JsonMode StreamStore StoreTheorems Glob JsMap Tokens Subscription SubscriptionStore SubscriptionLemmas Acks Wakes WakeEvents WakeHistory.
Local Open Scope js_scope.

#[local] Existing Instance integer_json.
#[local] Existing Instance decimal_date.
#[local] Existing Instance toy_crypto.
#[local] Existing Instance integer_json_laws.
#[local] Existing Instance toy_crypto_laws.

(** [URL] on the URLs of the script: scheme and host. *)
#[local] Instance toy_url : UrlLib := {|
  URL_parse s :=
    match split_on "/" s with
    | protocol :: _ :: host :: _ => Some (protocol, host)
    | _ => None
    end;
  URL_resolve path base := base +:+ path;
  isIP host := if forallb (fun p => all_digits p) (split_on "." host) then 4 else 0;
|}.

#[local] Notation World := (World StreamStore.StreamStore).
#[local] Notation E := StoreError.

Definition base_url : string := "http://localhost:4437".
Definition hex (n : nat) : string := js_String (Z.of_nat n).
Definition no_jitter (n : nat) (d : Z) : Z := d.
Definition wakes (q : string) : Prop := q = "/v1/stream/wake"%string.

Definition put (path : string) (st : StreamStore) : StreamStore :=
  (create 0 path (mkCreateOptions (Some "text/plain"%string) None None None None None None None) st).1.

Definition start : StreamStore := put "/v1/stream/wake" (put "/v1/stream/jobs" empty_store).

Definition jobs_input : SubscriptionCreateInput :=
  mkInput pull_wake None ["jobs"%string] None (Some "wake"%string) 30000 None.

Definition w0 : World := mkWorld new_manager start.
Definition w1 : World := (createOrConfirm (E := E) true 1 "s" jobs_input w0).1.

(** Something is appended to ["jobs"], and the manager is told. *)
Definition st2 : StreamStore := (ss_append (E := E) 2 "/v1/stream/jobs" (text "job") (sstore w1)).1.
Definition w2 : World :=
  (onStreamAppend (E := E) base_url hex 2 "/v1/stream/jobs" (mkWorld (mgr w1) st2)).1.

(** A worker claims it, *)
Definition w3 : World := (claim (E := E) base_url hex 3 "s" "worker-1" w2).1.
(** and after thirty seconds the timer of its lease, the first timer, fires. *)
Definition w4 : World := (timer_fires (E := E) base_url hex 30003 1 w3).1.

Definition sub_of (w : World) : SubscriptionRecord := objects (mgr w) !!! 0%nat.

Notation event now := (event (E := E) true base_url hex no_jitter wakes now).
Notation history := (history (E := E) true base_url hex no_jitter wakes).
Notation later := (later (E := E) true base_url hex no_jitter wakes).

Lemma create_event : event 1 w0 w1.
Proof. apply (ev_create _ _ _ _ _ 1 w0 "s" jobs_input). intros ws [= <-]. reflexivity. Qed.

Lemma append_event : event 2 w1 w2.
Proof.
  apply (ev_append _ _ _ _ _ 2 w1 "/v1/stream/jobs" st2 w2).
  - intros rel. vm_compute. intros [= <-]. reflexivity.
  - intros q _ Hq. by apply ss_append_shrinks.
  - apply injective_projections; [reflexivity|vm_compute; reflexivity].
Qed.

Lemma claim_event : event 3 w2 w3.
Proof. by apply (ev_claim _ _ _ _ _ 3 w2 "s" "worker-1"). Qed.

Lemma expiry_event : event 30003 w3 w4.
Proof. apply (ev_timer _ _ _ _ _ 30003 w3 1). Qed.

Lemma history_1 : history 1 w1.
Proof. eapply history_step; [apply (history_start _ _ _ _ _ 0 start)|lia|apply create_event]. Qed.
Lemma history_2 : history 2 w2.
Proof. eapply history_step; [apply history_1|lia|apply append_event]. Qed.
Lemma history_3 : history 3 w3.
Proof. eapply history_step; [apply history_2|lia|apply claim_event]. Qed.
Lemma history_4 : history 30003 w4.
Proof. eapply history_step; [apply history_3|lia|apply expiry_event]. Qed.

Lemma sub_of_eq w : is_Some (objects (mgr w) !! 0%nat) -> objects (mgr w) !! 0%nat = Some (sub_of w).
Proof. intros [s Hs]. unfold sub_of. by rewrite (lookup_total_correct _ _ _ Hs). Qed.

Lemma sub_2 : objects (mgr w2) !! 0%nat = Some (sub_of w2).
Proof. apply sub_of_eq. vm_compute. eauto. Qed.
Lemma sub_3 : objects (mgr w3) !! 0%nat = Some (sub_of w3).
Proof. apply sub_of_eq. vm_compute. eauto. Qed.
Lemma sub_4 : objects (mgr w4) !! 0%nat = Some (sub_of w4).
Proof. apply sub_of_eq. vm_compute. eauto. Qed.

(** After the append the subscription is awake, and nobody has claimed it. *)
Lemma no_lost_wake_witness :
  (truthy (wake_id (sub_of w2)) = true \/ truthy (holder (sub_of w2)) = true) /\
  truthy (holder (sub_of w2)) = false.
Proof.
  split; [|vm_compute; reflexivity].
  apply (no_lost_wake true base_url hex no_jitter wakes 2 w2 "s" 0 (sub_of w2) "jobs"
    (mkLink "jobs" false true (Some ZERO_OFFSET)) "0000000000000000_0000000000000008" history_2).
  - vm_compute. reflexivity.
  - exact sub_2.
  - vm_compute. reflexivity.
  - split; [discriminate|vm_compute; discriminate].
  - vm_compute. reflexivity.
  - vm_compute. reflexivity.
Defined.

(** While the worker holds it, its lease is armed. *)
Lemma held_has_lease_witness :
  holder (sub_of w3) = Some "worker-1"%string /\
  exists t d, lease_timer (sub_of w3) = Some t /\ timers (mgr w3) !! t = Some (mkTimer (lease_expiry 0) d).
Proof.
  split; [vm_compute; reflexivity|].
  apply (held_has_lease true base_url hex no_jitter wakes 3 w3 "s" 0 (sub_of w3) history_3).
  - vm_compute. reflexivity.
  - exact sub_3.
  - right. vm_compute. reflexivity.
Defined.

Lemma ok_3 : manager_ok wakes (mgr w3).
Proof. apply (ag_ok wakes 3), (all_good_history true base_url hex no_jitter wakes), history_3. Qed.

(** When it expires, the work is offered again. *)
Lemma lease_expiry_offers_again_witness :
  exists s', objects (mgr w4) !! 0%nat = Some s' /\ holder s' = None /\ streams s' = streams (sub_of w3) /\
    ((truthy (wake_id s') = true /\ generation s' = generation (sub_of w3) + 1 /\
      (type (config (sub_of w3)) = webhook -> lease_timer s' <> None)) \/
     (wake_id s' = None /\ generation s' = generation (sub_of w3) /\ lease_timer s' = None /\
      quiet wakes 30003 (sstore w4) s')).
Proof.
  apply (lease_expiry_offers_again base_url hex wakes 30003 w3 0 (sub_of w3) 1 30000 ok_3).
  - vm_compute. reflexivity.
  - exact sub_3.
Defined.

(** The worker that comes back with its token of the first generation. *)
Definition late_ack : SubscriptionCallbackRequest :=
  mkCallback (Some (JStr "w_0")) (Some (JNum "1"%string)) (Some [mkAck (Some "jobs"%string) None (Some ZERO_OFFSET)]) true.

Lemma superseded_token_refused_witness :
  let tok := generateCallbackToken 3 "1" (tokenSubject (sub_of w4)) 1 in
  token (sub_of w3) = Some tok /\
  refused (E := E) (handleWebhookCallback base_url hex 30003 "s" tok late_ack) w4 /\
  refused (E := E) (ack base_url hex 30003 "s" tok late_ack) w4 /\
  refused (E := E) (release base_url hex 30003 "s" tok late_ack) w4.
Proof.
  split; [vm_compute; reflexivity|].
  refine (superseded_token_refused true base_url hex no_jitter wakes 30003 w4 30003 w4 "s" 0
    (sub_of w4) 1 3 "1" late_ack history_4 _ sub_4 _ _ _ _ _ _ _).
  - apply later_here.
  - vm_compute. reflexivity.
  - vm_compute. intuition congruence.
  - vm_compute. congruence.
  - lia.
  - vm_compute. congruence.
  - vm_compute. reflexivity.
  - vm_compute. reflexivity.
Defined.

(** The worker acknowledges the job; an offset past the tail is refused. *)
Definition acks_of (offset : string) : SubscriptionCallbackRequest :=
  mkCallback None None (Some [mkAck (Some "jobs"%string) None (Some offset)]) false.

Definition acked : World := (applyAcks (E := E) 4 0 (acks_of "0000000000000000_0000000000000008") w3).1.
Definition too_far : World * result E (option MResponse) :=
  applyAcks (E := E) 4 0 (acks_of "0000000000000000_0000000000000009") w3.

Definition refusal : MResponse :=
  match too_far.2 with Ok (Some r) => r | _ => mkMResponse 0 None end.

Lemma acks_all_or_nothing_witness :
  (exists m, objects (mgr acked) = <[0%nat := set_streams m (sub_of w3)]> (objects (mgr w3)) /\
     forall k, map_get k m =
       acked_by [mkAck (Some "jobs"%string) None (Some "0000000000000000_0000000000000008"%string)] k
         <$> map_get k (streams (sub_of w3))) /\
  ms_status refusal = 409 /\ mgr too_far.1 = mgr w3.
Proof.
  split.
  - refine (proj1 (proj2 (acks_all_or_nothing (E := E) 4 0 (sub_of w3) (acks_of "0000000000000000_0000000000000008")
      _ w3 acked (Ok None) sub_3 eq_refl _))).
    apply injective_projections; [reflexivity|vm_compute; reflexivity].
  - refine (acks_all_or_nothing (E := E) 4 0 (sub_of w3) (acks_of "0000000000000000_0000000000000009")
      _ w3 too_far.1 (Ok (Some refusal)) sub_3 eq_refl _).
    apply injective_projections; [reflexivity|vm_compute; reflexivity].
Defined.

(** * Where the subscription manager falls short

    Runs of the script of SubscriptionScenarios that end somewhere the manager
    does not mean to be. *)

Definition append_jobs (now : Z) (w : World) : World :=
  (onStreamAppend (E := E) base_url hex now "/v1/stream/jobs"
    (mkWorld (mgr w) (ss_append (E := E) now "/v1/stream/jobs" (text "job") (sstore w)).1)).1.
Definition fire (now : Z) (t : nat) (w : World) : World :=
  (timer_fires (E := E) base_url hex now t w).1.
Definition respond (now : Z) (d : nat) (ok : bool) (w : World) : World :=
  (delivery_response (E := E) no_jitter now d ok w).1.
Definition respond_done (now : Z) (d : nat) (w : World) : World :=
  (delivery_body (E := E) base_url hex no_jitter now d true (respond now d true w)).1.
Definition acks (now : Z) (tok : string) (r : SubscriptionCallbackRequest) (w : World) :=
  ack (E := E) base_url hex now "s" tok r w.

Definition status_of (run : World * result E MResponse) : Z :=
  match run.2 with Ok r => ms_status r | Err _ => 0 end.
Definition cursor (w : World) : option (option string) := acked_offset <$> map_get "jobs" (streams (sub_of w)).

Definition off (n : string) : string := "0000000000000000_00000000000000" +:+ n.

(** *** A webhook that answers late *)

Definition hook_input : SubscriptionCreateInput :=
  mkInput webhook None ["jobs"%string] (Some "http://localhost/hook"%string) None 30000 None.

(** The first job is delivered; a second one comes in; the lease expires and
    both are delivered again, under a new wake. *)
Definition h1 : World := (createOrConfirm (E := E) true 1 "s" hook_input w0).1.
Definition h2 : World := append_jobs 2 h1.
Definition h3 : World := append_jobs 3 h2.
Definition h4 : World := fire 30002 1 h3.

Lemma two_deliveries :
  (fun d => dl_object d) <$> deliveries (mgr h4) = {[ 2%nat := 0%nat; 4%nat := 0%nat ]} /\
  wake_snapshot (sub_of h3) = [("jobs"%string, off "08")] /\ wake_snapshot (sub_of h4) = [("jobs"%string, off "16")].
Proof. vm_compute. repeat split. Qed.

(** The answer to the first delivery, which only knew of the first job, arrives
    now: it acknowledges both and ends the second wake. *)
Lemma late_done_acks_newer_wake :
  cursor (respond_done 40000 2 h4) = Some (Some (off "16")) /\
  wake_id (sub_of (respond_done 40000 2 h4)) = None.
Proof. vm_compute. repeat split. Qed.

(** And the webhook's own callback may have acknowledged more than the snapshot:
    its [done] then moves the cursor back. *)
Definition callback_acks : SubscriptionCallbackRequest :=
  mkCallback (Some (JStr "w_0")) (Some (JNum "1"%string)) (Some [mkAck (Some "jobs"%string) None (Some (off "16"))]) false.
Definition h5 : World :=
  (handleWebhookCallback (E := StoreError) base_url hex 4 "s"
    (or_else (token (sub_of h3)) EmptyString) callback_acks h3).1.

Lemma done_moves_cursor_back :
  cursor h5 = Some (Some (off "16")) /\ cursor (respond_done 5 2 h5) = Some (Some (off "08")).
Proof. vm_compute. repeat split. Qed.

(** *** A deleted subscription *)

Definition hd1 : World := (delete_ (E := StoreError) "s" h3).1.
Definition hd2 : World := respond 4 2 false hd1.

(** Its delivery fails, and is repeated: the retry delivers again. *)
Lemma deleted_subscription_retries :
  subscriptions (mgr hd1) = [] /\ deliveries (mgr hd2) = ∅ /\
  timers (mgr hd2) !! 3%nat = Some (mkTimer (webhook_retry 0 ["jobs"%string]) 1000) /\
  (dl_object <$> deliveries (mgr (fire 1004 3 hd2)) !! 4%nat) = Some 0%nat.
Proof. vm_compute. repeat split. Qed.

(** *** Acknowledgements that should be refused *)

Definition claim_token : string := or_else (token (sub_of w3)) EmptyString.

Definition ack_without_offset : SubscriptionCallbackRequest :=
  mkCallback (Some (JStr "w_0")) (Some (JNum "1"%string)) (Some [mkAck (Some "jobs"%string) None None]) true.

Definition silenced : World := append_jobs 5 (acks 4 claim_token ack_without_offset w3).1.

(** An acknowledgement without an offset is accepted; the link is then without
    a cursor, and no append wakes the subscription any more. *)
Lemma ack_without_offset_silences :
  status_of (acks 4 claim_token ack_without_offset w3) = 200 /\
  cursor silenced = Some None /\ awake (sub_of silenced) = false /\
  tail 5 (sstore silenced) "/v1/stream/jobs" = Some (off "16").
Proof. vm_compute. repeat split. Qed.

Definition all_done : SubscriptionCallbackRequest :=
  mkCallback (Some (JStr "w_0")) (Some (JNum "1"%string)) (Some [mkAck (Some "jobs"%string) None (Some (off "08"))]) true.
Definition null_wake : SubscriptionCallbackRequest :=
  mkCallback (Some JNull) (Some (JNum "1"%string)) None false.
Definition asleep : World := (acks 4 claim_token all_done w3).1.

(** After [done] there is no wake any more, but the old token still passes with
    [wake_id: null], and gives the sleeping subscription a lease. *)
Lemma token_outlives_done :
  awake (sub_of asleep) = false /\ lease_timer (sub_of asleep) = None /\
  status_of (acks 5 claim_token null_wake asleep) = 200 /\
  lease_timer (sub_of (acks 5 claim_token null_wake asleep).1) <> None.
Proof. vm_compute. repeat split; discriminate. Qed.

(** A subscription that is deleted and created again counts its generations from 0
    again, and a token only names the identifier: the token of the first generation
    of the old subscription passes for the first wake of the new one, whose wake id
    is in the wake stream for everybody to read. *)
Definition recreated : World :=
  append_jobs 6 (createOrConfirm (E := E) true 5 "s" jobs_input (delete_ (E := StoreError) "s" w3).1).1.

Definition new_wake : SubscriptionCallbackRequest :=
  mkCallback (Some (JStr "w_2")) (Some (JNum "1"%string)) None false.

Lemma recreated_takes_old_token :
  map_get "s" (subscriptions (mgr w3)) = Some 0%nat /\ map_get "s" (subscriptions (mgr recreated)) <> Some 0%nat /\
  status_of (acks 7 claim_token late_ack recreated) = 409 /\
  status_of (acks 7 claim_token new_wake recreated) = 200.
Proof. vm_compute. repeat split; discriminate. Qed.

(** *** IPv6 webhook hosts *)

(** [hostname] of a URL keeps the brackets around an IPv6 address, and [isIP]
    does not know such a text, so the check for IPv6 never applies. *)
Lemma ipv6_accepted (lib : UrlLib) url host :
  @URL_parse lib url = Some ("https:"%string, host) -> starts_with "[" host = true ->
  (forall s, starts_with "[" s = true -> @isIP lib s = 0) ->
  @validateWebhookUrl lib url = None.
Proof.
  intros Hurl Hhost Hip. unfold validateWebhookUrl. rewrite Hurl. cbn [String.eqb Ascii.eqb Bool.eqb negb].
  assert (Hl : starts_with "[" (js_lower host) = true).
  { destruct host as [|a host]; [done|]. change (Ascii.eqb "[" a && true = true) in Hhost.
    apply andb_true_iff in Hhost as [<-%Ascii.eqb_eq _]. reflexivity. }
  rewrite (Hip _ Hl). by destruct (String.eqb_spec (js_lower host) "localhost") as [Hx|_]; [rewrite Hx in Hl|].
Qed.
