(* ===== verification/SubscriptionRoutes.v ===== *)
(** * The HTTP interface of subscriptions: class [SubscriptionRoutes] of
    [packages/server/src/subscription-routes.ts]

    A request is routed by its path, its body is read as JSON, and a method of
    the manager answers.  A body may have any JSON type in any place; where the code
    goes on with a value of a type that it does not declare, the handler's result
    is [Untyped] and nothing is said about it. *)

From S2P Require Import Prelude Text Json Glob Http JsMap Tokens Subscription.
Local Open Scope js_scope.

(** ** Routes *)

Definition RESERVED_CONTROL_PREFIX : string := "/v1/stream/__ds".
Definition SUBSCRIPTION_PREFIX : string := RESERVED_CONTROL_PREFIX +:+ "/subscriptions/".
Definition JWKS_PATH : string := RESERVED_CONTROL_PREFIX +:+ "/jwks.json".

Inductive Action :=
| base | streams_ | stream_ (streamPath : string) | callback_ | claim_ | ack_ | release_.

Record ParsedRoute := mkRoute { subscriptionId : string; action : Action }.

(** [parts.join("/")] *)
Fixpoint join_slash (l : list string) : string :=
  match l with
  | [] => EmptyString
  | [s] => s
  | s :: l => s +:+ "/" +:+ join_slash l
  end.

(** [parseRoute]: [None] when [decodeURIComponent] throws. *)
Definition parseRoute (path : string) : option (option ParsedRoute) :=
  if negb (starts_with SUBSCRIPTION_PREFIX path) then Some None
  else
    let parts := split_on "/" (str_drop (String.length SUBSCRIPTION_PREFIX) path) in
    let first := or_else (head parts) EmptyString in
    match (if nonempty first then decodeURIComponent first else Some EmptyString) with
    | None => None
    | Some id =>
        if String.eqb id EmptyString then Some None
        else
          match List.tl parts with
          | [] => Some (Some (mkRoute id base))
          | [a] =>
              if String.eqb a "streams" then Some (Some (mkRoute id streams_))
              else if String.eqb a "callback" then Some (Some (mkRoute id callback_))
              else if String.eqb a "claim" then Some (Some (mkRoute id claim_))
              else if String.eqb a "ack" then Some (Some (mkRoute id ack_))
              else if String.eqb a "release" then Some (Some (mkRoute id release_))
              else Some None
          | a :: rest =>
              if String.eqb a "streams" then
                match decodeURIComponent (join_slash rest) with
                | None => None
                | Some p => Some (Some (mkRoute id (stream_ (normalizeRelativePath p))))
                end
              else Some None
          end
    end.

(** ** Request bodies *)

(** The properties of a value: [None] when reading one would throw. *)
Definition fields (v : json) : option (list (string * json)) :=
  match v with JObj kvs => Some kvs | JNull => None | _ => Some [] end.

Definition string_of (v : option json) : option string := match v with Some (JStr s) => Some s | _ => None end.

(** The strings of an array of strings. *)
Fixpoint strings_of (l : list json) : option (list string) :=
  match l with
  | [] => Some []
  | JStr s :: l => match strings_of l with Some l => Some (s :: l) | None => None end
  | _ :: _ => None
  end.

(** [payload.lease_ttl_ms], an integer within the limits. *)
Definition parse_lease (v : option json) : option Z :=
  match v with
  | None => Some DEFAULT_LEASE_TTL_MS
  | v =>
      match json_integer v with
      | Some n => if (MIN_LEASE_TTL_MS <=? n) && (n <=? MAX_LEASE_TTL_MS) then Some n else None
      | None => None
      end
  end.

(** [payload.webhook.url] *)
Definition parse_webhook (v : option json) : option string :=
  match v with
  | Some (JObj kvs) =>
      match string_of (obj_get "url" kvs) with
      | Some url => if nonempty url then Some url else None
      | None => None
      end
  | _ => None
  end.

(** A non-empty string, as a path. *)
Definition parse_path (v : option json) : option string :=
  match string_of v with
  | Some s => if nonempty s then Some (normalizeRelativePath s) else None
  | None => None
  end.

Definition quoted (s : string) : string := String DQUOTE (s +:+ String DQUOTE EmptyString).

(** The checks of [parseCreateInput] on the properties of the body *)
Definition parse_payload (payload : list (string * json)) : result string SubscriptionCreateInput :=
  let is_type t := is_string t (obj_get "type" payload) in
  if negb (is_type "webhook") && negb (is_type "pull-wake")
  then Err ("type must be " +:+ quoted "webhook" +:+ " or " +:+ quoted "pull-wake")
  else
    let type := if is_type "webhook" then webhook else pull_wake in
    let pattern := parse_path (obj_get "pattern" payload) in
    match match obj_get "streams" payload with Some (JArr l) => strings_of l | _ => Some [] end with
    | None => Err "streams must contain only strings"
    | Some l =>
        let streams := map normalizeRelativePath l in
        if negb (truthy pattern) && (length streams =? 0)%nat
        then Err "At least one of pattern or streams is required"
        else
          match parse_lease (obj_get "lease_ttl_ms" payload) with
          | None => Err "lease_ttl_ms must be an integer from 1000 to 600000"
          | Some lease =>
              let hook := if decide (type = webhook) then parse_webhook (obj_get "webhook" payload) else None in
              if bool_decide (type = webhook) && negb (if hook then true else false)
              then Err "webhook subscriptions require webhook.url"
              else
                let wakeStream := parse_path (obj_get "wake_stream" payload) in
                if bool_decide (type = pull_wake) && negb (truthy wakeStream)
                then Err "pull-wake subscriptions require wake_stream"
                else Ok (mkInput type pattern streams hook wakeStream lease
                           (string_of (obj_get "description" payload)))
          end
    end%string.

(** [parseCreateInput] *)
Definition parseCreateInput (value : json) : result string SubscriptionCreateInput :=
  match value with
  | JObj payload => parse_payload payload
  | JArr _ => parse_payload []
  | _ => Err "Request body must be a JSON object"%string
  end.

(** One of [request.acks]: [None] when a field has a type the code does not
    declare. *)
Definition optional_string (v : option json) : option (option string) :=
  match v with
  | None => Some None
  | Some (JStr s) => Some (Some s)
  | _ => None
  end.

Definition nullish_string (v : option json) : option (option string) :=
  match v with Some JNull => Some None | v => optional_string v end.

Definition read_ack (v : json) : option Ack :=
  match v with
  | JObj kvs =>
      match nullish_string (obj_get "stream" kvs), nullish_string (obj_get "path" kvs),
            optional_string (obj_get "offset" kvs) with
      | Some s, Some p, Some o => Some (mkAck s p o)
      | _, _, _ => None
      end
  | _ => None
  end.

Fixpoint read_acks (l : list json) : option (list Ack) :=
  match l with
  | [] => Some []
  | v :: l => match read_ack v, read_acks l with Some a, Some l => Some (a :: l) | _, _ => None end
  end.

(** The body of a callback, an [ack] or a [release]. *)
Definition read_callback (v : json) : option SubscriptionCallbackRequest :=
  match fields v with
  | None => None
  | Some kvs =>
      let request acks := mkCallback (obj_get "wake_id" kvs) (obj_get "generation" kvs) acks
        match obj_get "done" kvs with Some (JBool b) => b | _ => false end in
      match obj_get "acks" kvs with
      | None | Some JNull | Some (JBool false) => Some (request None)
      | Some (JArr l) => match read_acks l with Some l => Some (request (Some l)) | None => None end
      | _ => None
      end
  end.

(** ** Handlers *)

Inductive RouteError (E : Type) :=
| StoreThrows (e : E)
| SyntaxError
| URIError
| TypeError
| Untyped.
Arguments StoreThrows {_} _.
Arguments SyntaxError {_}.
Arguments URIError {_}.
Arguments TypeError {_}.
Arguments Untyped {_}.

(** [ERROR_STATUS] *)
Definition ERROR_STATUS (code : string) : Z :=
  if String.eqb code "SUBSCRIPTION_NOT_FOUND" then 404
  else if String.eqb code "TOKEN_INVALID" || String.eqb code "TOKEN_EXPIRED" then 401
  else if String.eqb code "SUBSCRIPTION_ALREADY_EXISTS" || String.eqb code "FENCED" ||
          String.eqb code "ALREADY_CLAIMED" || String.eqb code "NO_PENDING_WORK" ||
          String.eqb code "INVALID_OFFSET" then 409
  else 400.

(** [writeJson], [writeError], [methodNotAllowed] *)
Definition json_reply (status : Z) (body : json) : Response :=
  mkResponse status [("content-type"%string, "application/json"%string)] (encode_text (stringify body)).

Definition error_reply (status : Z) (code message : string) : Response :=
  json_reply status (JObj [("error"%string, JObj [("code"%string, JStr code); ("message"%string, JStr message)])]).

Definition methodNotAllowed : Response := plain 405 "Method not allowed".
Definition no_content : Response := mkResponse 204 [] [].
Definition unknown_subscription : Response := error_reply 404 "SUBSCRIPTION_NOT_FOUND" "Subscription not found".

(** [writeManagerResult] *)
Definition manager_reply (r : MResponse) : Response :=
  if ms_status r =? 204 then no_content else json_reply (ms_status r) (or_else (ms_body r) (JObj [])).

(** What a request has come to: it is not for these routes, it is answered, or a
    claim waits for the wake it has created. *)
Inductive Handled := NotHandled | Answer (r : Response) | Waits (o : nat) (worker : string).

Section routes.
Context `{!JsonLib} `{!CryptoLib} `{!UrlLib} {S E : Type} `{!SubscriptionStreamStore S E}.
Context (webhooksEnabled : bool) (callbackBaseUrl : string) (random_hex : nat -> string)
  (toISOString : Z -> string) (now : Z).

Definition RM (A : Type) : Type := M (World S) (RouteError E) A.

(** A call of a method of the manager. *)
Definition manager {A} (m : M (World S) E A) : RM A := fun w =>
  let '(w, r) := m w in (w, match r with Ok a => Ok a | Err e => Err (StoreThrows e) end).

(** [readJson] *)
Definition readJson (req : Request) : RM json :=
  let raw := of_chars (utf8_decode (rq_body req)) in
  if nonempty raw then match JSON_parse raw with Some v => ret v | None => throw SyntaxError end
  else ret (JObj []).

(** [readBearerToken]; an empty token is as good as none. *)
Definition readBearerToken (req : Request) : option string :=
  match req_header "authorization" req with
  | Some h =>
      let tok := str_drop 7 h in
      if starts_with "Bearer " h && nonempty tok then Some tok else None
  | None => None
  end.

Definition no_token : Response := error_reply 401 "TOKEN_INVALID" "Missing or malformed Authorization header".

(** [handleBase] *)
Definition handleBase (id : string) (req : Request) : RM Response :=
  if String.eqb (rq_method req) "PUT" then
    let* parsed := readJson req in
    match parseCreateInput parsed with
    | Err message => ret (error_reply 400 "INVALID_REQUEST" message)
    | Ok input =>
        let* result := manager (createOrConfirm webhooksEnabled now id input) in
        match result with
        | Err e => ret (error_reply (ERROR_STATUS (err_code e)) (err_code e) (err_message e))
        | Ok (o, created) =>
            let* view := manager (serialize callbackBaseUrl now toISOString o) in
            ret (json_reply (if created then 201 else 200) view)
        end
    end
  else if String.eqb (rq_method req) "GET" then
    let* found := manager (get id) in
    match found with
    | None => ret unknown_subscription
    | Some o => let* view := manager (serialize callbackBaseUrl now toISOString o) in ret (json_reply 200 view)
    end
  else if String.eqb (rq_method req) "DELETE" then
    let* _ := manager (delete_ id) in ret no_content
  else ret methodNotAllowed.

(** [handleJwks] *)
Definition handleJwks (method : string) : Response :=
  if negb (String.eqb method "GET") then methodNotAllowed
  else mkResponse 200 [("content-type", "application/jwk-set+json"); ("cache-control", "public, max-age=300")]%string
         (encode_text (stringify getWebhookJwks)).

(** [handleStreams] *)
Definition handleStreams (id : string) (req : Request) : RM Response :=
  if negb (String.eqb (rq_method req) "POST") then ret methodNotAllowed
  else
    let* parsed := readJson req in
    match fields parsed with
    | None => throw TypeError
    | Some kvs =>
        match match obj_get "streams" kvs with Some (JArr l) => strings_of l | _ => None end with
        | Some l =>
            if existsb (fun s => negb (nonempty s)) l
            then ret (error_reply 400 "INVALID_REQUEST" "streams must be a non-empty string array")
            else
              let* ok := manager (addExplicitStreams now id (map normalizeRelativePath l)) in
              ret (if ok : bool then no_content else unknown_subscription)
        | None => ret (error_reply 400 "INVALID_REQUEST" "streams must be a non-empty string array")
        end
    end.

(** [handleStream] *)
Definition handleStream (id streamPath method : string) : RM Response :=
  if negb (String.eqb method "DELETE") then ret methodNotAllowed
  else
    let* ok := manager (removeExplicitStream id streamPath) in
    ret (if ok : bool then no_content else unknown_subscription).

(** [handleCallback], [handleAck] and [handleRelease] differ in the method they
    call. *)
Definition with_token (call : string -> SubscriptionCallbackRequest -> M (World S) E MResponse) (req : Request)
    : RM Response :=
  match readBearerToken req with
  | None => ret no_token
  | Some tok =>
      let* body := readJson req in
      match read_callback body with
      | None => throw Untyped
      | Some request => let* r := manager (call tok request) in ret (manager_reply r)
      end
  end.

Definition handleCallback (id : string) : Request -> RM Response :=
  with_token (handleWebhookCallback callbackBaseUrl random_hex now id).
Definition handleAck (id : string) : Request -> RM Response :=
  with_token (ack callbackBaseUrl random_hex now id).
Definition handleRelease (id : string) : Request -> RM Response :=
  with_token (release callbackBaseUrl random_hex now id).

(** [handleClaim] *)
Definition handleClaim (id : string) (req : Request) : RM Handled :=
  let* parsed := readJson req in
  match fields parsed with
  | None => throw TypeError
  | Some kvs =>
      match string_of (obj_get "worker" kvs) with
      | Some worker =>
          if nonempty worker then
            let* r := manager (claim callbackBaseUrl random_hex now id worker) in
            ret match r with Answered r => Answer (manager_reply r) | Claiming o worker => Waits o worker end
          else ret (Answer (error_reply 400 "INVALID_REQUEST" "worker must be a non-empty string"))
      | None => ret (Answer (error_reply 400 "INVALID_REQUEST" "worker must be a non-empty string"))
      end
  end.

(** The rest of [handleClaim], when the wake's event has been written *)
Definition finish_handleClaim (o : nat) (worker : string) : RM Response :=
  let* r := manager (finish_claim random_hex now o worker) in ret (manager_reply r).

Definition answer (m : RM Response) : RM Handled := let* r := m in ret (Answer r).

(** [handleRequest] *)
Definition handleRequest (req : Request) : RM Handled :=
  let method := rq_method req in
  let path := rq_path req in
  if String.eqb path JWKS_PATH then ret (Answer (handleJwks method))
  else
    match parseRoute path with
    | None => throw URIError
    | Some None =>
        if String.eqb path RESERVED_CONTROL_PREFIX || starts_with (RESERVED_CONTROL_PREFIX +:+ "/") path
        then ret (Answer (error_reply 404 "SUBSCRIPTION_NOT_FOUND" "Durable Streams control route not found"))
        else ret NotHandled
    | Some (Some route) =>
        let id := subscriptionId route in
        try_catch
          match action route with
          | base => answer (handleBase id req)
          | streams_ => answer (handleStreams id req)
          | stream_ p => answer (handleStream id p method)
          | callback_ => answer (handleCallback id req)
          | claim_ => handleClaim id req
          | ack_ => answer (handleAck id req)
          | release_ => answer (handleRelease id req)
          end
          (fun err =>
             match err with
             | SyntaxError => ret (Answer (error_reply 400 "INVALID_REQUEST" "Invalid JSON body"))
             | err => throw err
             end)
    end.
End routes.
