(* ===== verification/RouteTheorems.v ===== *)
(** * The routes of subscriptions, and what they accept

    The URLs a subscription hands out lead back to it; a subscription is created
    once, however often it is asked for; and what is accepted for creation is
    within the limits. *)

From S2P Require Import Prelude Offsets Text Json Types JsonInstance JsonMode StreamStore StoreTheorems Glob Http JsMap Tokens Subscription SubscriptionStore SubscriptionLemmas Acks Wakes WakeEvents WakeHistory SubscriptionScenarios SubscriptionRoutes.
Local Open Scope js_scope.

Set Default Proof Using "Type".

(** ** Routes *)

Lemma uri_char_no_slash c : all_chars (fun d => negb (Ascii.eqb d "/")) (of_chars (uri_char c)) = true.
Proof. by destruct c as [[] [] [] [] [] [] [] []]; vm_compute. Qed.

Lemma encoded_no_slash s : all_chars (fun d => negb (Ascii.eqb d "/")) (encodeURIComponent s) = true.
Proof.
  unfold encodeURIComponent, all_chars. rewrite chars_of_chars.
  induction (chars s) as [|c l IH]; [done|]. cbn [map concat]. rewrite forallb_app, IH, andb_true_r.
  pose proof (uri_char_no_slash c) as Hc. unfold all_chars in Hc. by rewrite chars_of_chars in Hc.
Qed.

Lemma encoded_nonempty s : s <> EmptyString -> nonempty (encodeURIComponent s) = true.
Proof.
  destruct s as [|c s]; [done|]. intros _. unfold encodeURIComponent. cbn [chars map concat].
  assert (exists d l, uri_char c = d :: l) as (d & l & ->) by (unfold uri_char; destruct (uri_unreserved c); by eexists _, _).
  reflexivity.
Qed.

Lemma starts_with_app p s : starts_with p (p +:+ s) = true.
Proof. induction p as [|a p IH]; [by destruct s|]. rewrite string_app_cons. cbn. by rewrite Ascii.eqb_refl. Qed.

(** A path below a subscription's. *)
Lemma parse_below id rest :
  utf8 (chars id) -> id <> EmptyString ->
  parseRoute (SUBSCRIPTION_PREFIX +:+ encodeURIComponent id +:+ "/" +:+ rest) =
    match split_on "/" rest with
    | [a] =>
        if String.eqb a "streams" then Some (Some (mkRoute id streams_))
        else if String.eqb a "callback" then Some (Some (mkRoute id callback_))
        else if String.eqb a "claim" then Some (Some (mkRoute id claim_))
        else if String.eqb a "ack" then Some (Some (mkRoute id ack_))
        else if String.eqb a "release" then Some (Some (mkRoute id release_))
        else Some None
    | a :: more =>
        if String.eqb a "streams" then
          match decodeURIComponent (join_slash more) with
          | None => None
          | Some p => Some (Some (mkRoute id (stream_ (normalizeRelativePath p))))
          end
        else Some None
    | [] => Some (Some (mkRoute id base))
    end.
Proof.
  intros Hid Hne. unfold parseRoute. rewrite starts_with_app, str_drop_app. cbn [negb].
  change ("/" +:+ rest) with (String "/" rest).
  rewrite split_on_at by apply encoded_no_slash. cbn [head or_else List.tl].
  rewrite encoded_nonempty, decode_encode_uri by done.
  by rewrite (proj2 (String.eqb_neq _ _) Hne).
Qed.

(** The last segment of the URLs of a subscription. *)
Definition action_name (a : Action) : option string :=
  match a with
  | callback_ => Some "callback" | claim_ => Some "claim" | ack_ => Some "ack" | release_ => Some "release"
  | streams_ => Some "streams" | _ => None
  end%string.

(** The URLs of a subscription lead back to it: the path of its actions and
    of each of its streams, built from the identifier (and the stream) with
    [encodeURIComponent] as the manager does, is parsed by [parseRoute] as
    that action of that subscription, whatever characters the identifier has. *)
Theorem routes_lead_back id p a name :
  utf8 (chars id) -> id <> EmptyString -> utf8 (chars p) -> action_name a = Some name ->
  parseRoute (SUBSCRIPTION_PREFIX +:+ encodeURIComponent id +:+ "/" +:+ name) = Some (Some (mkRoute id a)) /\
  parseRoute (SUBSCRIPTION_PREFIX +:+ encodeURIComponent id +:+ "/" +:+ "streams/" +:+ encodeURIComponent p) =
    Some (Some (mkRoute id (stream_ (normalizeRelativePath p)))).
Proof.
  intros Hid Hne Hp Ha. rewrite !parse_below by done. split.
  - destruct a; cbn in Ha; try done; injection Ha as <-; reflexivity.
  - change ("streams/" +:+ encodeURIComponent p) with ("streams" +:+ String "/" (encodeURIComponent p)).
    rewrite split_on_at by reflexivity. rewrite split_on_none by apply encoded_no_slash.
    cbn [String.eqb Ascii.eqb Bool.eqb join_slash]. by rewrite decode_encode_uri.
Qed.

Lemma routes_lead_back_witness :
  parseRoute "/v1/stream/__ds/subscriptions/a%2Fb%20c/callback" = Some (Some (mkRoute "a/b c" callback_)) /\
  parseRoute "/v1/stream/__ds/subscriptions/a%2Fb%20c/streams/x%2Fy" = Some (Some (mkRoute "a/b c" (stream_ "x/y"))).
Proof.
  apply (routes_lead_back "a/b c" "x/y" callback_ "callback"); try reflexivity; try discriminate;
    apply utf8_validP; vm_compute; reflexivity.
Defined.

(** ** Creation *)

(** A usable configuration: a lease between one second and ten minutes, at least
    one stream or a pattern to watch, paths and patterns without superfluous
    slashes, a URL for a webhook and a wake stream for pull-wake. *)
Record input_ok (i : SubscriptionCreateInput) : Prop := {
  io_lease : MIN_LEASE_TTL_MS <= in_lease_ttl_ms i <= MAX_LEASE_TTL_MS;
  io_watches : truthy (in_pattern i) = true \/ in_streams i <> [];
  io_streams : Forall normal (in_streams i);
  io_pattern p : in_pattern i = Some p -> normal p;
  io_webhook : in_type i = webhook -> exists url, in_webhook i = Some url /\ url <> EmptyString;
  io_wake_stream : in_type i = pull_wake -> truthy (in_wake_stream i) = true;
}.

Lemma parse_path_normal v p : parse_path v = Some p -> normal p.
Proof.
  unfold parse_path. destruct (string_of v) as [s|]; [|done]. destruct (nonempty s); [|done].
  intros [= <-]. apply normalize_idem.
Qed.

Lemma parse_lease_bounds v n : parse_lease v = Some n -> MIN_LEASE_TTL_MS <= n <= MAX_LEASE_TTL_MS.
Proof.
  unfold parse_lease. destruct v as [v|]; [|intros [= <-]; vm_compute; split; discriminate].
  destruct (json_integer (Some v)); [|done].
  destruct (_ && _) eqn:Hb; [|done]. intros [= <-]. apply andb_true_iff in Hb as [H1%Z.leb_le H2%Z.leb_le]. lia.
Qed.

Lemma parse_webhook_url v url : parse_webhook v = Some url -> url <> EmptyString.
Proof.
  unfold parse_webhook. destruct v as [[| | | | |kvs]|]; try done. destruct (string_of _) as [s|]; [|done].
  unfold nonempty. destruct (String.eqb_spec s EmptyString); [done|]. by intros [= <-].
Qed.

Lemma parse_payload_ok payload i : parse_payload payload = Ok i -> input_ok i.
Proof.
  unfold parse_payload. destruct (negb _ && negb _); [done|].
  set (ty := if is_string "webhook" (obj_get "type" payload) then webhook else pull_wake).
  destruct (match obj_get "streams" payload with Some (JArr l) => strings_of l | _ => Some [] end) as [l|]; [|done].
  destruct (negb _ && _) eqn:Hw; [done|]. destruct (parse_lease _) as [lease|] eqn:Hl; [|done].
  set (hook := if decide (ty = webhook) then parse_webhook _ else None).
  destruct (bool_decide (ty = webhook) && _) eqn:Hhook; [done|].
  destruct (bool_decide (ty = pull_wake) && _) eqn:Hwake; [done|].
  intros [= <-]. split; cbn [in_lease_ttl_ms in_pattern in_streams in_type in_webhook in_wake_stream].
  - by apply (parse_lease_bounds _ _ Hl).
  - apply andb_false_iff in Hw as [Hw|Hw]; [left; by apply negb_false_iff|right; intros He; by rewrite He in Hw].
  - apply Forall_fmap, list.Forall_forall. intros s _. apply normalize_idem.
  - intros p. apply parse_path_normal.
  - intros Hty. rewrite bool_decide_eq_true_2 in Hhook by done. unfold hook in *.
    rewrite decide_True in * by done. destruct (parse_webhook _) as [url|] eqn:Hu; [|done].
    exists url. split; [done|]. by apply (parse_webhook_url _ _ Hu).
  - intros Hty. rewrite bool_decide_eq_true_2 in Hwake by done. by apply negb_false_iff.
Qed.

(** What [parseCreateInput] lets through is a usable subscription. *)
Lemma parseCreateInput_ok v i : parseCreateInput v = Ok i -> input_ok i.
Proof. destruct v; try done; apply parse_payload_ok. Qed.

Section creation.
Context `{!JsonLib} `{!CryptoLib} `{!UrlLib} {S E : Type} `{HStore : !SubscriptionStreamStore S E}
  `{HLaws : !SubscriptionStreamStoreLaws S E}.
Context (webhooksEnabled : bool) (callbackBaseUrl : string) (toISOString : Z -> string).

(** Any stream may be a wake stream here. *)
Notation well_formed := (manager_ok (fun _ => True)).
Notation createOrConfirm now := (createOrConfirm (E := E) webhooksEnabled now).
Notation handleBase now := (handleBase (E := E) webhooksEnabled callbackBaseUrl toISOString now).

(** Registered as [id], with a configuration hash. *)
Definition registered (id : string) (o : nat) (hash : string) (w : World S) : Prop :=
  map_get id (subscriptions (mgr w)) = Some o /\
  exists s, objects (mgr w) !! o = Some s /\ config_hash (config s) = hash.

(** The steps that serve an object before it is registered. *)
Lemma acts_then {A} now o c (m : M (World S) E unit) (k : M (World S) E A) w w' a :
  monotone (acts (fun _ => True) now o) m -> well_formed (mgr w) ->
  (exists s, objects (mgr w) !! o = Some s /\ config s = c) ->
  bind m (fun _ => k) w = (w', Ok a) ->
  exists w1, well_formed (mgr w1) /\ (exists s, objects (mgr w1) !! o = Some s /\ config s = c) /\
    k w1 = (w', Ok a).
Proof.
  intros Hm Hok (s & Hs & Hc) Hrun. destruct (Hm w Hok) as (Hok1 & Hl & _). unfold bind in Hrun.
  destruct (m w) as [w1 [[]|e]]; [|done]. cbn [fst] in *. exists w1. split_and!; [done| |done].
  destruct (lv_object _ _ _ Hl s Hs) as (s' & ? & ? & _). exists s'. by split; [|congruence].
Qed.

Lemma createOrConfirm_registers now id input w w' o created :
  well_formed (mgr w) -> createOrConfirm now id input w = (w', Ok (Ok (o, created))) ->
  registered id o (stableConfigHash input) w' /\
  created = (if map_get id (subscriptions (mgr w)) then false else true).
Proof using Type HLaws.
  intros Hok. unfold Subscription.createOrConfirm. rewrite bind_get.
  destruct (map_get id (subscriptions (mgr w))) as [o0|] eqn:Hid.
  { destruct (proj2 (ok_registered _ _ Hok) o0) as [s Hs].
    { apply list_elem_of_fmap. exists (id, o0). split; [done|]. by apply map_get_elem_of. }
    rewrite (bind_the_Some o0 s) by done. destruct (String.eqb_spec (config_hash (config s)) (stableConfigHash input)) as [He|];
      [|done]. intros [= <- <- <-]. split; [|done]. split; [done|]. by exists s. }
  destruct (create_error webhooksEnabled input); [done|].
  set (c := mkConfig id (in_type input) (in_pattern input) (in_webhook input) (in_wake_stream input)
    (in_lease_ttl_ms input) (in_description input) now (stableConfigHash input)).
  change (bind fresh_id ?k w) with (k (nextId (mgr w)) (fresh_id (E := E) w).1). cbv beta.
  set (o1 := nextId (mgr w)). unfold bind at 1. cbn [on_mgr modify].
  change (mkWorld (upd_objects _ _) _) with (with_new c w). intros Hrun.
  apply (acts_then now o1 c) in Hrun as (w1 & Hok1 & Hs1 & Hrun); [|mono_auto| |].
  - apply (acts_then now o1 c) in Hrun as (w2 & Hok2 & (s & Hs & Hc) & Hrun); [| |done|done].
    + unfold bind in Hrun. cbn [on_mgr modify ret] in Hrun. injection Hrun as <- <- <-.
      split; [|done]. split; [apply map_get_set_eq|]. exists s. split; [done|by rewrite Hc].
    + destruct (truthy (in_pattern input)); [|apply (mono_ret _)].
      apply (mono_bind _); [|intros; mono_auto]. intros w3. apply acts_refl.
  - by apply manager_ok_new.
  - eexists. cbn. rewrite lookup_insert_eq. by split.
Qed.

Lemma createOrConfirm_again now id input o hash w :
  registered id o hash w ->
  createOrConfirm now id input w =
    (w, Ok (if String.eqb hash (stableConfigHash input) then Ok (o, false)
            else Err (mkError "SUBSCRIPTION_ALREADY_EXISTS"
                        "Subscription already exists with different configuration"))).
Proof.
  intros (Hid & s & Hs & <-). unfold Subscription.createOrConfirm. rewrite bind_get, Hid.
  rewrite (bind_the_Some o s) by done. by destruct (String.eqb _ _).
Qed.

Lemma serialize_run now o s (w : World S) :
  objects (mgr w) !! o = Some s ->
  exists st v, serialize (E := E) callbackBaseUrl now toISOString o w = (mkWorld (mgr w) st, Ok v).
Proof using Type HLaws.
  intros Hs. unfold serialize. rewrite (bind_the_Some o s) by done.
  destruct (streamInfos_run (E := E) (fun _ => True) now o s w Hs) as (st & infos & Hr & _).
  unfold bind. rewrite Hr. by eexists _, _.
Qed.

Lemma manager_Ok {A} (m : M (World S) E A) w w' a : manager m w = (w', Ok a) -> m w = (w', Ok a).
Proof. unfold manager. destruct (m w) as [w1 [b|e]]; [by intros [= <- <-]|done]. Qed.

Lemma run_manager {A} (m : M (World S) E A) w w' a : m w = (w', Ok a) -> manager m w = (w', Ok a).
Proof. unfold manager. by intros ->. Qed.

Lemma ERROR_STATUS_4xx code : 400 <= ERROR_STATUS code < 500.
Proof. unfold ERROR_STATUS. by repeat destruct (_ || _); destruct (String.eqb _ _). Qed.

Lemma readJson_run req (w w' : World S) r : readJson (E := E) req w = (w', r) ->
  w' = w /\ forall w1, readJson (S := S) (E := E) req w1 = (w1, r).
Proof.
  unfold readJson, ret, throw. destruct (nonempty _); [destruct (JSON_parse _)|]; intros [= <- <-]; done.
Qed.

(** A [PUT] with a usable body, once the manager has answered. *)
Lemma put_run now id req v input o created (w w1 : World S) :
  rq_method req = "PUT"%string -> readJson (E := E) req w = (w, Ok v) -> parseCreateInput v = Ok input ->
  createOrConfirm now id input w = (w1, Ok (Ok (o, created))) -> is_Some (objects (mgr w1) !! o) ->
  exists st view, handleBase now id req w =
    (mkWorld (mgr w1) st, Ok (json_reply (if created then 201 else 200) view)).
Proof using Type HLaws.
  intros Hput Hread Hparse Hcreate [s Hs]. destruct (serialize_run now o s w1 Hs) as (st & view & Hr).
  exists st, view. unfold SubscriptionRoutes.handleBase. rewrite Hput. cbn [String.eqb Ascii.eqb Bool.eqb].
  rewrite (bind_Ok _ _ _ _ _ Hread), Hparse, (bind_Ok _ _ _ _ _ (run_manager _ _ _ _ Hcreate)).
  by rewrite (bind_Ok _ _ _ _ _ (run_manager _ _ _ _ Hr)).
Qed.

(** A subscription is created once.  A [PUT] that is answered with 200 or 201
    leaves a subscription registered under the identifier, with the hash of a
    usable configuration - 201 exactly when there was none - and the same [PUT]
    afterwards, at any time, is answered with 200 and changes nothing in the
    manager; one with a configuration of another hash is answered with 409. *)
Theorem put_subscription_once now now' id req req' w w' r :
  well_formed (mgr w) -> rq_method req = "PUT"%string -> rq_method req' = "PUT"%string ->
  handleBase now id req w = (w', Ok r) -> rs_status r = 200 \/ rs_status r = 201 ->
  exists o input, input_ok input /\ registered id o (stableConfigHash input) w' /\
    rs_status r = (if map_get id (subscriptions (mgr w)) then 200 else 201) /\
    (exists w2 r2, handleBase now' id req w' = (w2, Ok r2) /\ rs_status r2 = 200 /\ mgr w2 = mgr w') /\
    forall v input', readJson (E := E) req' w' = (w', Ok v) -> parseCreateInput v = Ok input' ->
      stableConfigHash input' <> stableConfigHash input ->
      exists r3, handleBase now' id req' w' = (w', Ok r3) /\ rs_status r3 = 409.
Proof using Type HLaws.
  intros Hok Hput Hput' Hrun Hst. pose proof Hrun as Hrun0. unfold SubscriptionRoutes.handleBase in Hrun.
  rewrite Hput in Hrun. cbn [String.eqb Ascii.eqb Bool.eqb] in Hrun.
  apply bind_Ok_inv in Hrun as (w0 & v & Hread & Hrun). apply readJson_run in Hread as [-> Hread].
  destruct (parseCreateInput v) as [input|msg] eqn:Hparse; [|injection Hrun as <- <-; by destruct Hst].
  apply bind_Ok_inv in Hrun as (w1 & res & Hcreate & Hrun). apply manager_Ok in Hcreate.
  destruct res as [[o created]|e].
  2: { injection Hrun as <- <-. cbn in Hst. pose proof (ERROR_STATUS_4xx (err_code e)). lia. }
  destruct (createOrConfirm_registers now id input w w1 o created Hok Hcreate) as [Hreg Hnew].
  assert (Ho : is_Some (objects (mgr w1) !! o)) by (destruct Hreg as (_ & s & Hs & _); eauto).
  destruct (put_run now id req v input o created w w1) as (st & view & Hrun1); try done.
  rewrite Hrun1 in Hrun0. injection Hrun0 as <- <-.
  assert (Hreg' : registered id o (stableConfigHash input) (mkWorld (mgr w1) st)) by done.
  exists o, input. split_and!.
  - by apply parseCreateInput_ok with v.
  - done.
  - rewrite Hnew. by destruct (map_get id _).
  - pose proof (createOrConfirm_again now' id input o _ _ Hreg') as Hagain. rewrite String.eqb_refl in Hagain.
    destruct (put_run now' id req v input o false (mkWorld (mgr w1) st) (mkWorld (mgr w1) st)) as (st2 & view2 & Hrun2);
      try done. eexists _, _. split; [exact Hrun2|]. by split.
  - intros v' input' Hread' Hparse' Hne. pose proof (createOrConfirm_again now' id input' o _ _ Hreg') as Hagain.
    rewrite (proj2 (String.eqb_neq _ _)) in Hagain by congruence.
    unfold SubscriptionRoutes.handleBase. rewrite Hput'. cbn [String.eqb Ascii.eqb Bool.eqb].
    rewrite (bind_Ok _ _ _ _ _ Hread'), Hparse', (bind_Ok _ _ _ _ _ (run_manager _ _ _ _ Hagain)).
    by eexists.
Qed.
End creation.

(** * Creating a subscription over HTTP *)

#[local] Existing Instance integer_json.
#[local] Existing Instance decimal_date.
#[local] Existing Instance toy_crypto.
#[local] Existing Instance toy_url.

#[local] Notation World := (World StreamStore.StreamStore).
#[local] Notation E := StoreError.

Definition iso (t : Z) : string := js_String t.

Definition put_body (stream : string) : json :=
  JObj [("type", JStr "pull-wake"); ("streams", JArr [JStr stream]); ("wake_stream", JStr "wake")]%string.
Definition put_req (stream : string) : Request :=
  mkRequest "PUT" "/v1/stream/__ds/subscriptions/s" [] ∅ (encode_text (stringify (put_body stream))).

Definition first_put : World * result (RouteError E) Response :=
  handleBase true base_url iso 1 "s" (put_req "/jobs/") w0.
Definition first_reply : Response := match first_put.2 with Ok r => r | Err _ => no_content end.

Lemma put_jobs_run : handleBase (E := E) true base_url iso 1 "s" (put_req "/jobs/") w0 = (first_put.1, Ok first_reply).
Proof. apply injective_projections; [reflexivity|vm_compute; reflexivity]. Qed.

Lemma new_ok : manager_ok (fun _ => True) (mgr w0).
Proof.
  split; cbn; intros; try (by rewrite lookup_empty in *); try done.
  split; [apply NoDup_nil_2|]. by intros o ?%elem_of_nil.
Qed.

Lemma put_subscription_once_witness :
  rs_status first_reply = 201 /\
  exists o input, input_ok input /\ registered "s" o (stableConfigHash input) first_put.1 /\
    rs_status first_reply = (if map_get "s" (subscriptions (mgr w0)) then 200 else 201) /\
    (exists w2 r2, handleBase (E := E) true base_url iso 9 "s" (put_req "/jobs/") first_put.1 = (w2, Ok r2) /\
       rs_status r2 = 200 /\ mgr w2 = mgr first_put.1) /\
    forall v input', readJson (E := E) (put_req "/other") first_put.1 = (first_put.1, Ok v) ->
      parseCreateInput v = Ok input' -> stableConfigHash input' <> stableConfigHash input ->
      exists r3, handleBase (E := E) true base_url iso 9 "s" (put_req "/other") first_put.1 = (first_put.1, Ok r3) /\
        rs_status r3 = 409.
Proof.
  assert (Hst : rs_status first_reply = 201) by (vm_compute; reflexivity). split; [exact Hst|].
  exact (put_subscription_once (E := E) true base_url iso 1 9 "s" (put_req "/jobs/") (put_req "/other") w0
    first_put.1 first_reply new_ok eq_refl eq_refl put_jobs_run (or_intror Hst)).
Defined.
