(* ===== verification/StreamDb.v ===== *)
(** * State kept in a stream: [packages/state]

    A stream of change events stands for the state of collections of rows.
    [MaterializedState] ([materialized-state.ts]) keeps it in maps.  [StreamDB]
    ([stream-db.ts]) writes it to collections of the package @tanstack/db, which
    is outside of the repository: a collection is a class with its laws, and the
    theorem is that both hold the same rows. *)

From S2P Require Import Prelude Text Json JsMap.
Local Open Scope js_scope.

(** ** Events: [types.ts] *)

Inductive Operation := op_insert | op_update | op_delete | op_upsert.

#[export] Instance operation_eq_dec : EqDecision Operation.
Proof. solve_decision. Defined.

(** [headers] without the operation. *)
Record ChangeEvent := mkChangeEvent {
  ce_type : string;
  ce_key : string;
  ce_value : option json;
  ce_old_value : option json;
  ce_operation : Operation;
  ce_headers : list (string * string);
}.

Inductive Control := snapshot_start | snapshot_end | reset.

Inductive StateEvent :=
| Change (e : ChangeEvent)
| ControlEvent (c : Control) (offset : option string).

(** ** Class [MaterializedState] *)

Module MaterializedState.

Definition TypeMap : Type := list (string * option json).
Definition State : Type := list (string * TypeMap).

Definition empty : State := [].

Definition apply (e : ChangeEvent) (data : State) : State :=
  let typeMap := or_else (map_get (ce_type e) data) [] in
  map_set (ce_type e)
    match ce_operation e with
    | op_insert | op_update | op_upsert => map_set (ce_key e) (ce_value e) typeMap
    | op_delete => map_delete (ce_key e) typeMap
    end data.

Definition applyBatch (es : list ChangeEvent) (data : State) : State := foldl (fun data e => apply e data) data es.

Definition getType (type : string) (data : State) : TypeMap := or_else (map_get type data) [].

(** A present key with the value [undefined] is like an absent one. *)
Definition get (type key : string) (data : State) : option json :=
  match map_get type data with
  | None => None
  | Some typeMap => match map_get key typeMap with Some v => v | None => None end
  end.

Definition clear (data : State) : State := [].
Definition typeCount (data : State) : nat := length data.
Definition types (data : State) : list string := data.*1.

End MaterializedState.

(** ** Schemas: [schema.ts] *)

Module Schema.

Definition RESERVED_COLLECTION_NAMES : list string :=
  ["collections"; "preload"; "close"; "utils"; "actions"]%string.

(** [schema['~standard'].validate]: the messages of its issues, if it has any. *)
Definition Validator : Type := json -> option (list string).

Record CollectionDefinition := mkDefinition {
  cd_validate : Validator;
  cd_type : string;
  cd_primaryKey : string;
}.

(** [String(v)] *)
Fixpoint js_string (v : json) : string :=
  match v with
  | JNull => "null"
  | JBool b => if b then "true" else "false"
  | JNum n => n
  | JStr s => s
  | JArr l => join "," (map (fun v => match v with JNull => EmptyString | _ => js_string v end) l)
  | JObj _ => "[object Object]"
  end.

Definition js_truthy (v : json) : bool :=
  match v with
  | JNull => false
  | JBool b => b
  | JNum n => negb (String.eqb n "0")
  | JStr s => negb (String.eqb s EmptyString)
  | JArr _ | JObj _ => true
  end.

(** [v[k]] of a row; other values than objects have no property of that name. *)
Definition field (k : string) (v : json) : option json :=
  match v with JObj kvs => obj_get k kvs | _ => None end.

(** The first lines of [insert], [update] and [upsert]: the key of the event. *)
Definition final_key (primaryKey : string) (key : option string) (value : json) : option string :=
  let derived :=
    match field primaryKey value with
    | None | Some JNull => None
    | Some (JStr EmptyString) => None
    | Some v => Some (js_string v)
    end in
  match or_else (Some <$> key) derived with
  | Some k => if String.eqb k EmptyString then None else Some k
  | None => None
  end.

Definition check (what : string) (d : CollectionDefinition) (value : json) : result string unit :=
  match cd_validate d value with
  | Some issues => Err ("Validation failed for " +:+ cd_type d +:+ what +:+ join ", " issues)
  | None => Ok tt
  end.

Definition TypeError : string := "TypeError".

(** [insert], [update] and [upsert] *)
Definition value_event (op : Operation) (name : string) (d : CollectionDefinition) (key : option string) (value : json)
    (oldValue : option json) (headers : list (string * string)) : result string ChangeEvent :=
  match check (" " +:+ name +:+ ": ") d value with
  | Err e => Err e
  | Ok _ =>
      match match oldValue with
            | Some old => check (" " +:+ name +:+ " (oldValue): ") d old
            | None => Ok tt
            end with
      | Err e => Err e
      | Ok _ =>
          match value, final_key (cd_primaryKey d) key value with
          | JNull, _ => Err TypeError
          | _, None => Err ("Cannot create " +:+ cd_type d +:+ " " +:+ name +:+
                            " event: must provide either 'key' or a value with a non-empty '" +:+
                            cd_primaryKey d +:+ "' field")
          | _, Some k => Ok (mkChangeEvent (cd_type d) k (Some value) oldValue op headers)
          end
      end
  end.

Definition insert d key value headers := value_event op_insert "insert" d key value None headers.
Definition update d key value oldValue headers := value_event op_update "update" d key value oldValue headers.
Definition upsert d key value headers := value_event op_upsert "upsert" d key value None headers.

Definition delete (d : CollectionDefinition) (key : option string) (oldValue : option json)
    (headers : list (string * string)) : result string ChangeEvent :=
  match match oldValue with
        | Some old => check " delete (oldValue): " d old
        | None => Ok tt
        end with
  | Err e => Err e
  | Ok _ =>
      let finalKey :=
        match key with
        | Some k => k
        | None =>
            match oldValue with
            | Some old =>
                if js_truthy old
                then match field (cd_primaryKey d) old with Some v => js_string v | None => "undefined"%string end
                else EmptyString
            | None => EmptyString
            end
        end in
      if String.eqb finalKey EmptyString
      then Err ("Cannot create " +:+ cd_type d +:+ " delete event: must provide either 'key' or 'oldValue' with a " +:+
                cd_primaryKey d +:+ " field")
      else Ok (mkChangeEvent (cd_type d) finalKey None oldValue op_delete headers)
  end.

Definition quoted (s : string) : string := String DQUOTE (s +:+ String DQUOTE EmptyString).

(** [if (existing)]: an empty name is passed over. *)
Definition if_truthy (existing : option string) : option string :=
  if truthy existing then existing else None.

(** [createStateSchema]: two collections of one event type. *)
Fixpoint duplicate_type (seen : list (string * string)) (cs : list (string * CollectionDefinition)) : option string :=
  match cs with
  | [] => None
  | (name, d) :: cs =>
      match if_truthy (map_get (cd_type d) seen) with
      | Some existing =>
          Some ("Duplicate event type " +:+ quoted (cd_type d) +:+ " - used by both " +:+ quoted existing +:+ " and " +:+
                quoted name +:+ " collections")
      | None => duplicate_type (map_set (cd_type d) name seen) cs
      end
  end.

Definition createStateSchema (cs : list (string * CollectionDefinition)) : result string (list (string * CollectionDefinition)) :=
  match list.head (filter (fun c => c.1 ∈ RESERVED_COLLECTION_NAMES) cs) with
  | Some (name, _) =>
      Err ("Reserved collection name " +:+ quoted name +:+ " - this would collide with StreamDB properties (" +:+
           join ", " RESERVED_COLLECTION_NAMES +:+ ")")
  | None =>
      match duplicate_type [] cs with
      | Some e => Err e
      | None => Ok cs
      end
  end.

End Schema.

(** ** Collections: @tanstack/db *)

(** A row, and what the sync function of a collection may do. *)
Notation Row := (list (string * json)).

Inductive WriteType := w_insert | w_update | w_delete.

#[export] Instance write_type_eq_dec : EqDecision WriteType.
Proof. solve_decision. Defined.

(** The functions a collection hands to its sync function, and [collection.get];
    those that may throw return what they throw.  [item_key] is what [getKey] of
    [createStreamDB] is made from. *)
Class CollectionLib := {
  Collection : Type;
  c_begin : Collection -> Collection;
  c_write : Row -> WriteType -> Collection -> Collection * option string;
  c_read : string -> Collection -> option Row;
  c_commit : Collection -> Collection * option string;
  c_markReady : Collection -> Collection;
  c_truncate : Collection -> Collection * option string;
  deepEquals : Row -> Row -> bool;
}.

(** ** Class [EventDispatcher] *)

Module EventDispatcher.
Section dispatcher.
Context `{CollectionLib}.

Record CollectionSyncHandler := mkHandler {
  h_collection : Collection;
  h_primaryKey : string;
}.

Inductive Settled := Resolved | RejectedWith (error : string).

(** The maps and sets whose order can be seen are lists; a handler is named by
    its event type, a promise by a number. *)
Record Dispatcher := mkDispatcher {
  handlers : list (string * CollectionSyncHandler);
  pendingHandlers : list string;
  isUpToDate : bool;
  preloadResolvers : list nat;
  preloadRejecters : list nat;
  seenTxids : gset string;
  pendingTxids : list string;
  txidResolvers : list (string * list nat);
  existingKeys : list (string * gset string);
  seq : Z;
  settled : list (nat * Settled);
}.

Definition create : Dispatcher := mkDispatcher [] [] false [] [] ∅ [] [] [] 0 [].

Definition set_handlers x d := mkDispatcher x (pendingHandlers d) (isUpToDate d) (preloadResolvers d)
  (preloadRejecters d) (seenTxids d) (pendingTxids d) (txidResolvers d) (existingKeys d) (seq d) (settled d).
Definition set_pending x d := mkDispatcher (handlers d) x (isUpToDate d) (preloadResolvers d)
  (preloadRejecters d) (seenTxids d) (pendingTxids d) (txidResolvers d) (existingKeys d) (seq d) (settled d).
Definition set_upToDate x d := mkDispatcher (handlers d) (pendingHandlers d) x (preloadResolvers d)
  (preloadRejecters d) (seenTxids d) (pendingTxids d) (txidResolvers d) (existingKeys d) (seq d) (settled d).
Definition set_preload x y d := mkDispatcher (handlers d) (pendingHandlers d) (isUpToDate d) x
  y (seenTxids d) (pendingTxids d) (txidResolvers d) (existingKeys d) (seq d) (settled d).
Definition set_txids x y z d := mkDispatcher (handlers d) (pendingHandlers d) (isUpToDate d) (preloadResolvers d)
  (preloadRejecters d) x y z (existingKeys d) (seq d) (settled d).
Definition set_keys x d := mkDispatcher (handlers d) (pendingHandlers d) (isUpToDate d) (preloadResolvers d)
  (preloadRejecters d) (seenTxids d) (pendingTxids d) (txidResolvers d) x (seq d) (settled d).
Definition set_seq x d := mkDispatcher (handlers d) (pendingHandlers d) (isUpToDate d) (preloadResolvers d)
  (preloadRejecters d) (seenTxids d) (pendingTxids d) (txidResolvers d) (existingKeys d) x (settled d).
Definition set_settled x d := mkDispatcher (handlers d) (pendingHandlers d) (isUpToDate d) (preloadResolvers d)
  (preloadRejecters d) (seenTxids d) (pendingTxids d) (txidResolvers d) (existingKeys d) (seq d) x.

(** A promise is settled once. *)
Definition settle (v : Settled) (id : nat) (d : Dispatcher) : Dispatcher :=
  if bool_decide (id ∈ (settled d).*1) then d else set_settled (settled d ++ [(id, v)]) d.

Definition settle_all (v : Settled) (ids : list nat) (d : Dispatcher) : Dispatcher :=
  foldl (fun d id => settle v id d) d ids.

Definition add_to (x : string) (l : list string) : list string := if bool_decide (x ∈ l) then l else l ++ [x].

Definition registerHandler (eventType : string) (h : CollectionSyncHandler) (d : Dispatcher) : Dispatcher :=
  let d := set_handlers (map_set eventType h (handlers d)) d in
  if map_has eventType (existingKeys d) then d else set_keys (map_set eventType ∅ (existingKeys d)) d.

(** *** [dispatchChange] *)

(** [{...value}]; of text, character by character. *)
Definition spread (v : json) : Row :=
  match v with
  | JObj kvs => kvs
  | JArr l => imap (fun i x => (js_String (Z.of_nat i), x)) l
  | JStr s => imap (fun i c => (js_String (Z.of_nat i), JStr (String c EmptyString))) (chars s)
  | JNull | JBool _ | JNum _ => []
  end.

Definition is_object (v : option json) : bool :=
  match v with Some (JObj _) | Some (JArr _) => true | _ => false end.

Definition js_typeof (v : option json) : string :=
  match v with
  | None => "undefined"
  | Some (JNull) | Some (JArr _) | Some (JObj _) => "object"
  | Some (JBool _) => "boolean"
  | Some (JNum _) => "number"
  | Some (JStr _) => "string"
  end.

Definition comparableRow (row : Row) : Row := filter (fun kv => kv.1 <> "_seq"%string) row.

(** The row that is written: a copy with its key and number. *)
Definition stamped (primaryKey key : string) (n : Z) (v : option json) : Row :=
  obj_set "_seq" (JNum (js_String n)) (obj_set primaryKey (JStr key) (spread (or_else v (JObj [])))).

Definition has_key (type key : string) (d : Dispatcher) : bool :=
  match map_get type (existingKeys d) with Some keys => bool_decide (key ∈ keys) | None => false end.

Definition write_type (op : Operation) (type key : string) (h : CollectionSyncHandler) (value : Row) (d : Dispatcher)
    : WriteType :=
  let inserted :=
    if has_key type key d then w_update
    else
      match c_read key (h_collection h) with
      | Some existing => if deepEquals (comparableRow existing) (comparableRow value) then w_update else w_insert
      | None => w_insert
      end in
  match op with
  | op_insert => inserted
  | op_upsert => if has_key type key d then w_update else inserted
  | op_update => w_update
  | op_delete => w_delete
  end.

Definition upd_keys (t : WriteType) (key : string) (keys : gset string) : gset string :=
  match t with w_delete => keys ∖ {[key]} | w_insert | w_update => keys ∪ {[key]} end.

Definition change_txid (e : ChangeEvent) : option string :=
  match map_get "txid" (ce_headers e) with
  | Some t => if String.eqb t EmptyString then None else Some t
  | None => None
  end.

Definition not_object (e : ChangeEvent) : string :=
  "StreamDB collections require object values; got " +:+ js_typeof (ce_value e) +:+ " for type=" +:+ ce_type e +:+
  ", key=" +:+ ce_key e.

Definition dispatchChange (e : ChangeEvent) : M Dispatcher string unit := fun d =>
  let d :=
    match change_txid e with
    | Some t => set_txids (seenTxids d) (add_to t (pendingTxids d)) (txidResolvers d) d
    | None => d
    end in
  match map_get (ce_type e) (handlers d) with
  | None => (d, Ok tt)
  | Some h =>
      if negb (bool_decide (ce_operation e = op_delete)) && negb (is_object (ce_value e)) then (d, Err (not_object e))
      else
        let value := stamped (h_primaryKey h) (ce_key e) (seq d) (ce_value e) in
        let d := set_seq (seq d + 1) d in
        let begun := bool_decide (ce_type e ∈ pendingHandlers d) in
        let h := if begun then h else mkHandler (c_begin (h_collection h)) (h_primaryKey h) in
        let d := set_pending (add_to (ce_type e) (pendingHandlers d)) d in
        let t := write_type (ce_operation e) (ce_type e) (ce_key e) h value d in
        let d := set_keys (map_alter (upd_keys t (ce_key e)) (ce_type e) (existingKeys d)) d in
        let '(c, error) := c_write value t (h_collection h) in
        let d := set_handlers (map_set (ce_type e) (mkHandler c (h_primaryKey h)) (handlers d)) d in
        (d, match error with Some message => Err message | None => Ok tt end)
  end.

(** *** The end of a batch *)

(** A call of a handler's function that may throw. *)
Definition on_handler (f : Collection -> Collection * option string) (type : string) : M Dispatcher string unit := fun d =>
  match map_get type (handlers d) with
  | None => (d, Ok tt)
  | Some h =>
      let '(c, error) := f (h_collection h) in
      (set_handlers (map_set type (mkHandler c (h_primaryKey h)) (handlers d)) d,
       match error with Some message => Err message | None => Ok tt end)
  end.

Definition dispatchControl (c : Control) : M Dispatcher string unit := fun d =>
  match c with
  | reset =>
      (do for_m (on_handler c_truncate) (handlers d).*1 ;;
       modify (fun d => set_upToDate false (set_pending [] (set_keys ((fun kv => (kv.1, ∅)) <$> existingKeys d) d)))) d
  | snapshot_start | snapshot_end => (d, Ok tt)
  end.

(** The error of @tanstack/db that is passed over. *)
Definition known_bug (message : string) : bool :=
  includes "already exists in the collection" message && includes "live-query" message.

Definition commit_handler (type : string) : M Dispatcher string unit :=
  try_catch (on_handler c_commit type) (fun message => if known_bug message then ret tt else throw message).

(** A pending txid is seen: its promises are resolved. *)
Definition see_txid (d : Dispatcher) (t : string) : Dispatcher :=
  let ids := or_else (map_get t (txidResolvers d)) [] in
  settle_all Resolved ids
    (set_txids (seenTxids d ∪ {[t]}) (pendingTxids d) (map_delete t (txidResolvers d)) d).

Definition become_ready (d : Dispatcher) : Dispatcher :=
  if isUpToDate d then d
  else
    let ready := (fun kv => (kv.1, mkHandler (c_markReady (h_collection kv.2)) (h_primaryKey kv.2))) <$> handlers d in
    let d := settle_all Resolved (preloadResolvers d) (set_handlers ready (set_upToDate true d)) in
    set_preload [] (preloadRejecters d) d.

Definition markUpToDate : M Dispatcher string unit := fun d =>
  (do for_m commit_handler (pendingHandlers d) ;;
   modify (fun d =>
     let d := foldl see_txid (set_pending [] d) (pendingTxids d) in
     become_ready (set_txids (seenTxids d) [] (txidResolvers d) d))) d.

(** *** Promises *)

Definition waitForUpToDate (id : nat) (d : Dispatcher) : Dispatcher :=
  if isUpToDate d then settle Resolved id d
  else set_preload (preloadResolvers d ++ [id]) (preloadRejecters d ++ [id]) d.

Definition rejectAll (error : string) (d : Dispatcher) : Dispatcher :=
  let d := set_preload [] [] (settle_all (RejectedWith error) (preloadRejecters d) d) in
  set_txids (seenTxids d) (pendingTxids d) []
    (settle_all (RejectedWith error) (concat (txidResolvers d).*2) d).

Definition awaitTxId (id : nat) (txid : string) (d : Dispatcher) : Dispatcher :=
  if bool_decide (txid ∈ seenTxids d) then settle Resolved id d
  else
    let ids := or_else (map_get txid (txidResolvers d)) [] in
    set_txids (seenTxids d) (pendingTxids d) (map_set txid (ids ++ [id]) (txidResolvers d)) d.

(** The timer of the promise [id] of [awaitTxId]. *)
Definition txid_timeout (id : nat) (txid : string) (d : Dispatcher) : Dispatcher :=
  let d :=
    match map_get txid (txidResolvers d) with
    | None => d
    | Some ids =>
        let ids := filter (fun i => i <> id) ids in
        set_txids (seenTxids d) (pendingTxids d)
          (if (length ids =? 0)%nat then map_delete txid (txidResolvers d) else map_set txid ids (txidResolvers d)) d
    end in
  settle (RejectedWith ("Timeout waiting for txid: " +:+ txid)) id d.
End dispatcher.
End EventDispatcher.
Import EventDispatcher.

(** ** [createStreamDB] *)

Module StreamDB.
Section stream_db.
Context `{CollectionLib}.

(** [createCollection] with the name, the key and the sync function of a
    collection. *)
Context (createCollection : string -> string -> Collection).

(** [startConsumer] has called [stream.stream], which has not answered;
    [preload_of] is the promise of the [preload] that waits for it. *)
Record DB := mkDB {
  dispatcher : Dispatcher;
  consumerStarted : bool;
  opening : option nat;
  subscribed : bool;
  aborted : bool;
  lastConsumedOffset : string;
}.

Definition set_dispatcher d s := mkDB d (consumerStarted s) (opening s) (subscribed s) (aborted s) (lastConsumedOffset s).

Record Batch := mkBatch {
  b_items : list StateEvent;
  b_upToDate : bool;
  b_offset : string;
}.

Definition createStreamDB (streamIdentity : string) (state : list (string * Schema.CollectionDefinition)) : DB :=
  let d := foldl (fun d c =>
    registerHandler (Schema.cd_type c.2)
      (mkHandler (createCollection ("stream-db:" +:+ streamIdentity +:+ ":" +:+ c.1) (Schema.cd_primaryKey c.2))
         (Schema.cd_primaryKey c.2)) d) create state in
  mkDB d false None false false "-1".

Definition dispatch (e : StateEvent) : M Dispatcher string unit :=
  match e with
  | Change e => dispatchChange e
  | ControlEvent c _ => dispatchControl c
  end.

(** The body of the subscriber, without the hooks of the user. *)
Definition consume (b : Batch) : M Dispatcher string unit :=
  do for_m dispatch (b_items b) ;;
  let* d := get_state in
  if b_upToDate b || isUpToDate d then markUpToDate else ret tt.

Definition on_batch (b : Batch) (s : DB) : DB :=
  let '(d, r) := consume b (dispatcher s) in
  match r with
  | Ok _ => mkDB d (consumerStarted s) (opening s) (subscribed s) (aborted s) (b_offset b)
  | Err e => mkDB (rejectAll e d) (consumerStarted s) (opening s) (subscribed s) true (b_offset b)
  end.

(** What happens next: [Opened] and [OpenFailed] end [stream.stream]; with
    [Started] the first [preload] goes on after [startConsumer]. *)
Inductive DbEvent :=
| Preload (id : nat)
| Opened (offset : string)
| Started
| OpenFailed (error : string)
| Delivered (b : Batch)
| SessionClosed (error : string)
| AwaitTxId (id : nat) (txid : string)
| TxTimeout (id : nat) (txid : string)
| Close.

Definition step (ev : DbEvent) (s : DB) : DB :=
  let d := dispatcher s in
  match ev with
  | Preload id =>
      if consumerStarted s then set_dispatcher (waitForUpToDate id d) s
      else mkDB d true (Some id) false (aborted s) (lastConsumedOffset s)
  | Opened offset =>
      if bool_decide (opening s = None) || subscribed s then s
      else mkDB d true (opening s) true (aborted s) offset
  | Started =>
      match opening s with
      | Some id => if subscribed s then mkDB (waitForUpToDate id d) true None true (aborted s) (lastConsumedOffset s) else s
      | None => s
      end
  | OpenFailed e =>
      match opening s with
      | Some id =>
          if subscribed s then s
          else mkDB (settle (RejectedWith e) id d) true None false (aborted s) (lastConsumedOffset s)
      | None => s
      end
  | Delivered b => if subscribed s && negb (aborted s) then on_batch b s else s
  | SessionClosed e => if subscribed s && negb (aborted s) then set_dispatcher (rejectAll e d) s else s
  | AwaitTxId id txid => set_dispatcher (awaitTxId id txid d) s
  | TxTimeout id txid => set_dispatcher (txid_timeout id txid d) s
  | Close =>
      mkDB (rejectAll "StreamDB closed" d) (consumerStarted s) (opening s) (subscribed s) true (lastConsumedOffset s)
  end.

Definition run (evs : list DbEvent) (s : DB) : DB := foldl (fun s ev => step ev s) s evs.
End stream_db.
End StreamDB.

(** ** Both hold the same rows *)

(** What the program sees of a collection: its rows, the writes of the open
    transaction, and the field the key is read from.  [merge] is what an update
    makes of the row that is there. *)
Class CollectionView `{CollectionLib} := {
  rows : Collection -> gmap string Row;
  staged : Collection -> option (list (WriteType * string * Row));
  key_field : Collection -> string;
  merge : Row -> Row -> Row;
}.

Definition apply_write `{CollectionView} (m : gmap string Row) (w : WriteType * string * Row) : gmap string Row :=
  match w with
  | (w_insert, k, row) => <[k := row]> m
  | (w_update, k, row) => <[k := merge (or_else (m !! k) []) row]> m
  | (w_delete, k, _) => delete k m
  end.

(** The rows once the open transaction is committed. *)
Definition view `{CollectionView} (c : Collection) : gmap string Row :=
  foldl apply_write (rows c) (or_else (staged c) []).

Class CollectionLaws `{CollectionView} : Prop := {
  begin_law c : staged c = None ->
    rows (c_begin c) = rows c /\ staged (c_begin c) = Some [] /\ key_field (c_begin c) = key_field c;
  write_law c ws t k row : staged c = Some ws -> obj_get (key_field c) row = Some (JStr k) ->
    (t = w_insert -> view c !! k = None) ->
    exists c', c_write row t c = (c', None) /\ rows c' = rows c /\
      staged c' = Some (ws ++ [(t, k, row)]) /\ key_field c' = key_field c;
  commit_law c ws : staged c = Some ws ->
    exists c', c_commit c = (c', None) /\ rows c' = view c /\ staged c' = None /\ key_field c' = key_field c;
  markReady_law c :
    rows (c_markReady c) = rows c /\ staged (c_markReady c) = staged c /\ key_field (c_markReady c) = key_field c;
  merge_law old new f x : obj_get f new = Some x -> obj_get f (merge old new) = Some x;
}.

Lemma obj_get_set f k v kvs : obj_get f (obj_set k v kvs) = if String.eqb f k then Some v else obj_get f kvs.
Proof.
  induction kvs as [|[k' v'] kvs IH]; cbn; [done|].
  destruct (String.eqb_spec k k') as [->|Hk]; cbn; [by destruct (String.eqb f k')|].
  rewrite IH. destruct (String.eqb_spec f k') as [->|]; [|done]. by rewrite (proj2 (String.eqb_neq k' k)).
Qed.

Lemma map_get_fmap {A B} (g : A -> B) k (m : list (string * A)) :
  map_get k ((fun kv => (kv.1, g kv.2)) <$> m) = g <$> map_get k m.
Proof. induction m as [|[k' v] m IH]; cbn; [done|]. by destruct (String.eqb k k'). Qed.

(** The types and primary keys of the handlers. *)
Definition registered `{CollectionLib} (hs : list (string * CollectionSyncHandler)) : list (string * string) :=
  (fun kv => (kv.1, h_primaryKey kv.2)) <$> hs.

Lemma registered_get `{CollectionLib} hs type : map_get type (registered hs) = h_primaryKey <$> map_get type hs.
Proof. apply map_get_fmap. Qed.

Lemma registered_set `{CollectionLib} type h h' hs :
  map_get type hs = Some h -> h_primaryKey h' = h_primaryKey h -> registered (map_set type h' hs) = registered hs.
Proof.
  intros Eh Hpk. induction hs as [|[type' h0] hs IH]; [done|]. revert Eh. cbn.
  destruct (String.eqb type type'); cbn; [by intros [= ->]; rewrite Hpk|]. intros Eh. f_equal. by apply IH.
Qed.

Section materializes.
Context `{CollectionLaws} (regs : list (string * string)).
Implicit Types (d : Dispatcher) (data : MaterializedState.State).

(** A row has its key and every field of the value. *)
Definition row_of (pk key : string) (v : option json) (row : Row) : Prop :=
  obj_get pk row = Some (JStr key) /\
  forall f x, f <> pk -> f <> "_seq"%string -> obj_get f (spread (or_else v (JObj []))) = Some x -> obj_get f row = Some x.

(** The rows are those of the map, no more and no less. *)
Definition same_rows (pk : string) (m : gmap string Row) (t : MaterializedState.TypeMap) : Prop :=
  forall key,
    match map_get key t with
    | None => m !! key = None
    | Some v => exists row, m !! key = Some row /\ row_of pk key v row
    end.

Definition handler_ok (pending : list string) d data (type : string) (h : CollectionSyncHandler) : Prop :=
  key_field (h_collection h) = h_primaryKey h /\ h_primaryKey h <> "_seq"%string /\
  (staged (h_collection h) = None <-> type ∉ pending) /\
  same_rows (h_primaryKey h) (view (h_collection h)) (MaterializedState.getType type data) /\
  exists keys, map_get type (existingKeys d) = Some keys /\
    forall k, k ∈ keys <-> is_Some (map_get k (MaterializedState.getType type data)).

(** The dispatcher and the maps hold the same rows; the transactions of
    [pending] are open. *)
Record in_step_at (pending : list string) d data : Prop := {
  step_handlers type h : map_get type (handlers d) = Some h -> handler_ok pending d data type h;
  step_registered : registered (handlers d) = regs;
  step_pending : NoDup pending;
  step_known type : type ∈ pending -> is_Some (map_get type (handlers d));
}.

Notation in_step d := (in_step_at (pendingHandlers d) d).

(** A change event whose value can be a row. *)
Definition change_ok (e : ChangeEvent) : Prop := ce_operation e = op_delete \/ is_object (ce_value e) = true.

Lemma stamped_row pk key n v : pk <> "_seq"%string -> row_of pk key v (stamped pk key n v).
Proof.
  intros Hpk. unfold stamped. split.
  - rewrite obj_get_set, (proj2 (String.eqb_neq pk "_seq")), obj_get_set, String.eqb_refl by done. done.
  - intros f x Hf Hs Hx. rewrite obj_get_set, (proj2 (String.eqb_neq f "_seq")) by done.
    by rewrite obj_get_set, (proj2 (String.eqb_neq f pk)).
Qed.

Lemma merged_row pk key v old row : row_of pk key v row -> row_of pk key v (merge old row).
Proof. intros [Hk Hf]. split; [|intros f x ???]; apply merge_law; auto. Qed.

(** The map of the event's type after the event. *)
Definition next_map (e : ChangeEvent) (t : MaterializedState.TypeMap) : MaterializedState.TypeMap :=
  match ce_operation e with
  | op_insert | op_update | op_upsert => map_set (ce_key e) (ce_value e) t
  | op_delete => map_delete (ce_key e) t
  end.

Lemma getType_apply type e data :
  MaterializedState.getType type (MaterializedState.apply e data) =
  if String.eqb type (ce_type e) then next_map e (MaterializedState.getType type data)
  else MaterializedState.getType type data.
Proof.
  unfold MaterializedState.getType, MaterializedState.apply. rewrite map_get_set.
  destruct (String.eqb_spec type (ce_type e)) as [->|]; done.
Qed.

Lemma same_rows_set pk key v row (m : gmap string Row) t :
  same_rows pk m t -> row_of pk key v row -> same_rows pk (<[key := row]> m) (map_set key v t).
Proof.
  intros Hm Hrow key'. rewrite map_get_set. destruct (String.eqb_spec key' key) as [->|Hk].
  - exists row. by rewrite lookup_insert_eq.
  - rewrite lookup_insert_ne by done. apply Hm.
Qed.

Lemma same_rows_delete pk key (m : gmap string Row) t : same_rows pk m t -> same_rows pk (delete key m) (map_delete key t).
Proof.
  intros Hm key'. rewrite map_get_delete. destruct (String.eqb_spec key' key) as [->|Hk].
  - by rewrite lookup_delete_eq.
  - rewrite lookup_delete_ne by done. apply Hm.
Qed.

Lemma view_write c c' ws w : rows c' = rows c -> staged c = Some ws -> staged c' = Some (ws ++ [w]) ->
  view c' = apply_write (view c) w.
Proof. intros Hr Hs Hs'. unfold view. rewrite Hr, Hs, Hs'. cbn. by rewrite foldl_app. Qed.

Lemma elem_of_add_to x y l : x ∈ add_to y l <-> x = y \/ x ∈ l.
Proof. unfold add_to. case_bool_decide; [|rewrite elem_of_app, list_elem_of_singleton]; naive_solver. Qed.

Lemma NoDup_add_to y l : NoDup l -> NoDup (add_to y l).
Proof.
  intros Hl. unfold add_to. case_bool_decide; [done|]. apply list.NoDup_app.
  split; [done|]. split; [|apply NoDup_singleton]. by intros x Hx ->%list_elem_of_singleton.
Qed.

(** The type of the write, and the map of the event's type after it. *)
Lemma write_type_ok d e h row :
  (write_type (ce_operation e) (ce_type e) (ce_key e) h row d = w_delete <-> ce_operation e = op_delete) /\
  (write_type (ce_operation e) (ce_type e) (ce_key e) h row d = w_insert -> has_key (ce_type e) (ce_key e) d = false).
Proof.
  unfold write_type. destruct (has_key _ _ _); [by destruct (ce_operation e)|].
  destruct (c_read _ _); [destruct (deepEquals _ _)|]; by destruct (ce_operation e).
Qed.

Lemma written_rows pk e t row (m : gmap string Row) tm :
  (t = w_delete <-> ce_operation e = op_delete) -> row_of pk (ce_key e) (ce_value e) row -> same_rows pk m tm ->
  same_rows pk (apply_write m (t, ce_key e, row)) (next_map e tm).
Proof.
  intros Ht Hrow Hm. unfold next_map. destruct t; cbn.
  - destruct (ce_operation e); try (by apply same_rows_set). destruct Ht as [_ Ht]. by discriminate Ht.
  - apply (merged_row _ _ _ (or_else (m !! ce_key e) [])) in Hrow.
    destruct (ce_operation e); try (by apply same_rows_set). destruct Ht as [_ Ht]. by discriminate Ht.
  - rewrite (proj1 Ht eq_refl). by apply same_rows_delete.
Qed.

Lemma written_keys e t (keys : gset string) (tm : MaterializedState.TypeMap) :
  (t = w_delete <-> ce_operation e = op_delete) -> (forall k, k ∈ keys <-> is_Some (map_get k tm)) ->
  forall k, k ∈ upd_keys t (ce_key e) keys <-> is_Some (map_get k (next_map e tm)).
Proof.
  intros Ht Hkeys k. unfold next_map. destruct (decide (t = w_delete)) as [E|E].
  - rewrite (proj1 Ht E), map_get_delete, E. cbn. rewrite elem_of_difference, elem_of_singleton, Hkeys.
    destruct (String.eqb_spec k (ce_key e)) as [->|]; [|naive_solver]. split; [naive_solver|by intros []].
  - assert (upd_keys t (ce_key e) keys = keys ∪ {[ce_key e]}) as -> by by destruct t.
    rewrite elem_of_union, elem_of_singleton, Hkeys.
    destruct (ce_operation e) eqn:Eo; try (rewrite map_get_set; destruct (String.eqb_spec k (ce_key e)); naive_solver).
    destruct E. by apply Ht.
Qed.

(** The transaction of the event's type, begun if it was not. *)
Lemma begun_ok d data type h : handler_ok (pendingHandlers d) d data type h ->
  let c := if bool_decide (type ∈ pendingHandlers d) then h_collection h else c_begin (h_collection h) in
  exists ws, staged c = Some ws /\ view c = view (h_collection h) /\ key_field c = h_primaryKey h.
Proof.
  intros (Hk & _ & Hs & _). cbn zeta. case_bool_decide as Hp.
  - destruct (staged (h_collection h)) as [ws|] eqn:E; [by exists ws|]. by apply Hs in Hp.
  - apply Hs in Hp. destruct (begin_law _ Hp) as (Hr & Hst & Hk'). exists []. rewrite Hk', <-Hk.
    split; [done|]. split; [|done]. unfold view. by rewrite Hr, Hst, Hp.
Qed.

(** One event: the dispatcher and [MaterializedState] stay in step. *)
Lemma dispatchChange_ok d data e : in_step d data -> change_ok e ->
  exists d', dispatchChange e d = (d', Ok tt) /\ in_step d' (MaterializedState.apply e data) /\
    isUpToDate d' = isUpToDate d.
Proof.
  intros Hd Hok. unfold dispatchChange.
  set (d0 := match change_txid e with Some t => _ | None => d end).
  assert (Hd0 : in_step d0 data /\ isUpToDate d0 = isUpToDate d).
  { unfold d0. destruct (change_txid e); [|done]. split; [|done]. by destruct Hd as [Ha Hb Hc Hn]. }
  clearbody d0. destruct Hd0 as [[Hh Hreg Hnd Hkn] <-]. clear Hd d.
  destruct (map_get (ce_type e) (handlers d0)) as [h|] eqn:Eh.
  2: { exists d0. split; [done|]. split; [|done]. split; [|done..]. intros type h Eh'.
    unfold handler_ok. rewrite getType_apply. destruct (String.eqb_spec type (ce_type e)) as [->|]; [congruence|].
    by apply Hh. }
  assert (negb (bool_decide (ce_operation e = op_delete)) && negb (is_object (ce_value e)) = false) as ->.
  { destruct Hok as [->| ->]; [by rewrite bool_decide_true|by rewrite andb_false_r]. }
  cbn [set_seq pendingHandlers].
  destruct (begun_ok _ _ _ _ (Hh _ _ Eh)) as (ws & Hws & Hview & Hkey).
  destruct (Hh _ _ Eh) as (Hk & Hseq & Hs & Hsame & keys & Hkeys & Hdom).
  set (h1 := if bool_decide _ then h else _). set (row := stamped _ _ _ _). set (d1 := set_pending _ _).
  assert (Hpk1 : h_primaryKey h1 = h_primaryKey h) by (unfold h1; by case_bool_decide).
  assert (Hc1 : h_collection h1 = if bool_decide (ce_type e ∈ pendingHandlers d0) then h_collection h
                                  else c_begin (h_collection h)) by (unfold h1; by case_bool_decide).
  rewrite <-Hc1 in Hws, Hview, Hkey. clearbody h1.
  destruct (write_type_ok d1 e h1 row) as [Hdel Hins]. set (t := write_type _ _ _ _ _ _) in *.
  pose proof (stamped_row _ (ce_key e) (seq d0) (ce_value e) Hseq) as Hrow. fold row in Hrow.
  destruct (write_law (h_collection h1) ws t (ce_key e) row) as (c' & Hw & Hr' & Hs' & Hk'); [done| | |].
  { rewrite Hkey. exact (proj1 Hrow). }
  { intros Hi. specialize (Hins Hi). unfold has_key in Hins. cbn in Hins. rewrite Hkeys in Hins.
    apply bool_decide_eq_false in Hins. rewrite Hview. specialize (Hsame (ce_key e)). revert Hsame.
    destruct (map_get (ce_key e) (MaterializedState.getType (ce_type e) data)) as [v|] eqn:E; [|done].
    destruct Hins. apply Hdom. rewrite E. eauto. }
  rewrite Hw. eexists. split; [reflexivity|]. split; [|done].
  assert (Hvw : view c' = apply_write (view (h_collection h)) (t, ce_key e, row))
    by (rewrite <-Hview; by eapply view_write).
  split; cbn.
  - intros type h'. rewrite map_get_set. unfold handler_ok. cbn. rewrite getType_apply, map_get_alter.
    destruct (String.eqb_spec type (ce_type e)) as [->|Hne].
    + intros [= <-]. cbn. rewrite Hpk1, Hk', Hkey. split_and!; [done|done| | |].
      * rewrite Hs', elem_of_add_to. naive_solver.
      * rewrite Hvw. by apply written_rows.
      * exists (upd_keys t (ce_key e) keys). rewrite Hkeys. split; [done|]. by apply written_keys.
    + intros Eh'. destruct (Hh _ _ Eh') as (? & ? & Hs2 & ? & ?). split_and!; try done.
      rewrite elem_of_add_to, Hs2. naive_solver.
  - rewrite <-Hreg. by apply (registered_set _ h).
  - by apply NoDup_add_to.
  - intros type. rewrite elem_of_add_to, map_get_set. destruct (String.eqb_spec type (ce_type e)); naive_solver.
Qed.

(** What the invariant is about; promises do not change it. *)
Definition core d := (handlers d, existingKeys d, pendingHandlers d, isUpToDate d).

Lemma in_step_core p d d' data : core d' = core d -> in_step_at p d data -> in_step_at p d' data.
Proof.
  intros [= Hh Hk _ _] [Ha Hr Hb Hc]. split; [|by rewrite Hh|done|by rewrite Hh].
  intros type h. rewrite Hh. intros Eh. destruct (Ha _ _ Eh) as (? & ? & ? & ? & keys & ? & ?).
  split_and!; try done. exists keys. by rewrite Hk.
Qed.

Lemma core_settle v id d : core (settle v id d) = core d.
Proof. unfold settle. by case_bool_decide. Qed.

Lemma core_settle_all v ids d : core (settle_all v ids d) = core d.
Proof.
  unfold settle_all. revert d. induction ids as [|id ids IH]; intros d; cbn; [done|].
  by rewrite IH, core_settle.
Qed.

Lemma core_see_txids ts d : core (foldl see_txid d ts) = core d.
Proof.
  revert d. induction ts as [|t ts IH]; intros d; cbn; [done|]. rewrite IH. unfold see_txid. by rewrite core_settle_all.
Qed.

Lemma commit_handler_ok type p d data : in_step_at (type :: p) d data ->
  exists hs, commit_handler type d = (set_handlers hs d, Ok tt) /\ in_step_at p (set_handlers hs d) data.
Proof.
  intros [Hh Hreg Hnd Hkn]. apply list.NoDup_cons in Hnd as [Hnew Hnd].
  destruct (Hkn type) as [h Eh]; [left|].
  destruct (Hh _ _ Eh) as (Hk & Hseq & Hs & Hsame & Hkeys).
  destruct (staged (h_collection h)) as [ws|] eqn:Ews; [|destruct (proj1 Hs eq_refl); left].
  destruct (commit_law _ _ Ews) as (c & Hc & Hr & Hs' & Hk').
  exists (map_set type (mkHandler c (h_primaryKey h)) (handlers d)). split.
  { unfold commit_handler, try_catch, on_handler. by rewrite Eh, Hc. }
  split; cbn; [|rewrite <-Hreg; by apply (registered_set _ h)|done|].
  - intros type' h'. rewrite map_get_set. destruct (String.eqb_spec type' type) as [->|Hne].
    + intros [= <-]. unfold handler_ok. cbn. rewrite Hk', Hs'. split_and!; try done.
      unfold view. by rewrite Hs', Hr.
    + intros Eh'. destruct (Hh _ _ Eh') as (? & ? & Hs2 & ? & ?). split_and!; try done.
      rewrite Hs2, not_elem_of_cons. naive_solver.
  - intros type' Hp. rewrite map_get_set. destruct (String.eqb type' type); [by eexists|]. apply Hkn. by right.
Qed.

Lemma commit_all_ok p d data : in_step_at p d data ->
  exists hs, for_m commit_handler p d = (set_handlers hs d, Ok tt) /\ in_step_at [] (set_handlers hs d) data.
Proof.
  revert d. induction p as [|type p IH]; intros d Hd; cbn [for_m].
  { exists (handlers d). by destruct d. }
  destruct (commit_handler_ok _ _ _ _ Hd) as (hs & Hc & Hd'). unfold bind. rewrite Hc.
  destruct (IH _ Hd') as (hs' & Hc' & Hd''). exists hs'. by rewrite Hc'.
Qed.

Lemma become_ready_ok d data : in_step_at [] d data ->
  in_step_at [] (become_ready d) data /\ pendingHandlers (become_ready d) = pendingHandlers d /\
  isUpToDate (become_ready d) = true.
Proof.
  intros Hd. unfold become_ready. destruct (isUpToDate d) eqn:E; [done|]. cbn zeta.
  set (ready := _ <$> handlers d). set (d1 := set_handlers _ _).
  assert (Hc : core (set_preload [] (preloadRejecters (settle_all Resolved (preloadResolvers d) d1))
                       (settle_all Resolved (preloadResolvers d) d1)) = core d1)
    by exact (core_settle_all _ _ _).
  injection Hc as _ _ Hp Hu. split; [|done].
  apply (in_step_core _ d1); [exact (core_settle_all _ _ _)|]. destruct Hd as [Hh Hreg Hnd Hkn].
  split; [| |done|intros ? []%not_elem_of_nil].
  2: { rewrite <-Hreg. unfold registered, d1, ready. cbn. rewrite <-list_fmap_compose. done. }
  intros type h. cbn. unfold ready.
  rewrite (map_get_fmap (fun h => mkHandler (c_markReady (h_collection h)) (h_primaryKey h))).
  destruct (map_get type (handlers d)) as [h0|] eqn:Eh; [|done]. intros [= <-].
  destruct (Hh _ _ Eh) as (Hk & ? & Hs & Hsame & ?). destruct (markReady_law (h_collection h0)) as (Hr & Hs' & Hk').
  unfold handler_ok. cbn. rewrite Hk', Hs'. split_and!; try done. unfold view. by rewrite Hr, Hs'.
Qed.

Lemma markUpToDate_ok d data : in_step d data ->
  exists d', markUpToDate d = (d', Ok tt) /\ in_step d' data /\ pendingHandlers d' = [] /\ isUpToDate d' = true.
Proof.
  intros Hd. unfold markUpToDate, bind. destruct (commit_all_ok _ _ _ Hd) as (hs & -> & Hd'). cbn.
  eexists. split; [reflexivity|]. set (d1 := foldl see_txid _ _).
  assert (Hc : core d1 = core (set_pending [] (set_handlers hs d))) by apply core_see_txids.
  set (d2 := set_txids _ _ _ d1). destruct (become_ready_ok d2 data) as (Hd2 & Hp & Hu).
  { eapply in_step_core; [exact Hc|]. by destruct Hd' as [Ha Hr Hb Hc']. }
  injection Hc as _ _ Hp1 _. assert (Hp2 : pendingHandlers (become_ready d2) = []) by (by rewrite Hp).
  by rewrite Hp2.
Qed.

(** *** Batches and runs *)

Definition changes (b : StreamDB.Batch) : list ChangeEvent :=
  omap (fun e => match e with Change e => Some e | ControlEvent _ _ => None end) (StreamDB.b_items b).

Definition item_ok (e : StateEvent) : Prop :=
  match e with Change e => change_ok e | ControlEvent c _ => c <> reset end.

Lemma dispatch_all_ok d data items : in_step d data -> Forall item_ok items ->
  exists d', for_m StreamDB.dispatch items d = (d', Ok tt) /\
    in_step d' (MaterializedState.applyBatch (changes (StreamDB.mkBatch items true "")) data) /\
    isUpToDate d' = isUpToDate d.
Proof.
  intros Hd Hok. revert d data Hd. induction Hok as [|e items He Hok IH]; intros d data Hd; cbn [for_m].
  { by exists d. }
  unfold bind. destruct e as [e|[] offset]; cbn [StreamDB.dispatch].
  - destruct (dispatchChange_ok d data e Hd He) as (d1 & -> & Hd1 & <-). by apply IH.
  - by apply (IH d data).
  - by apply (IH d data).
  - by destruct He.
Qed.

(** Between two batches of a consumer that is up to date, no transaction is open. *)
Definition settled_step d data : Prop := in_step d data /\ (isUpToDate d = true -> pendingHandlers d = []).

Lemma consume_ok d data b : settled_step d data -> Forall item_ok (StreamDB.b_items b) ->
  exists d', StreamDB.consume b d = (d', Ok tt) /\ settled_step d' (MaterializedState.applyBatch (changes b) data).
Proof.
  intros [Hd _] Hok. destruct (dispatch_all_ok _ _ _ Hd Hok) as (d1 & E & Hd1 & _).
  unfold StreamDB.consume, bind. rewrite E. cbn.
  change (changes (StreamDB.mkBatch (StreamDB.b_items b) true "")) with (changes b) in Hd1.
  destruct (_ || isUpToDate d1) eqn:Eu.
  - destruct (markUpToDate_ok _ _ Hd1) as (d2 & -> & Hd2 & Hp & _). by exists d2.
  - apply orb_false_iff in Eu as [_ Eu]. exists d1. split; [done|]. split; [done|congruence].
Qed.

Lemma settled_step_core d d' data : core d' = core d -> settled_step d data -> settled_step d' data.
Proof.
  intros Hc [Hd Hp]. injection Hc as Hh Hk Hp' Hu. split; [|by rewrite Hp', Hu].
  rewrite Hp'. apply (in_step_core _ d); [unfold core; congruence|done].
Qed.

Lemma core_wait id d : core (waitForUpToDate id d) = core d.
Proof. unfold waitForUpToDate. destruct (isUpToDate d); [apply core_settle|done]. Qed.

Lemma core_rejectAll e d : core (rejectAll e d) = core d.
Proof.
  unfold rejectAll. cbn zeta. set (d1 := set_preload _ _ _).
  transitivity (core d1); [exact (core_settle_all _ _ _)|exact (core_settle_all _ _ _)].
Qed.

Lemma core_awaitTxId id t d : core (awaitTxId id t d) = core d.
Proof. unfold awaitTxId. case_bool_decide; [apply core_settle|done]. Qed.

Lemma core_timeout id t d : core (txid_timeout id t d) = core d.
Proof. unfold txid_timeout. rewrite core_settle. by destruct (map_get t (txidResolvers d)). Qed.

Section runs.
Context (createCollection : string -> string -> Collection).

(** The changes an event brings, and those of a run. *)
Definition brought (ev : StreamDB.DbEvent) (s : StreamDB.DB) : list ChangeEvent :=
  match ev with
  | StreamDB.Delivered b => if StreamDB.subscribed s && negb (StreamDB.aborted s) then changes b else []
  | _ => []
  end.

Fixpoint consumed (evs : list StreamDB.DbEvent) (s : StreamDB.DB) : list ChangeEvent :=
  match evs with
  | [] => []
  | ev :: evs => brought ev s ++ consumed evs (StreamDB.step ev s)
  end.

Definition event_ok (ev : StreamDB.DbEvent) : Prop :=
  match ev with StreamDB.Delivered b => Forall item_ok (StreamDB.b_items b) | _ => True end.

Lemma db_step_ok ev s data : settled_step (StreamDB.dispatcher s) data -> event_ok ev ->
  settled_step (StreamDB.dispatcher (StreamDB.step ev s)) (MaterializedState.applyBatch (brought ev s) data) /\
  (StreamDB.aborted (StreamDB.step ev s) = true -> StreamDB.aborted s = true \/ ev = StreamDB.Close).
Proof.
  intros Hs Hok. destruct ev as [id|offset| |e|b|e|id t|id t|]; cbn [StreamDB.step brought].
  - destruct (StreamDB.consumerStarted s); cbn; split; auto. eapply settled_step_core; [apply core_wait|done].
  - destruct (_ || _); cbn; auto.
  - destruct (StreamDB.opening s); [|cbn; auto]. destruct (StreamDB.subscribed s); cbn; split; auto.
    eapply settled_step_core; [apply core_wait|done].
  - destruct (StreamDB.opening s); [|cbn; auto]. destruct (StreamDB.subscribed s); cbn; split; auto.
    eapply settled_step_core; [apply core_settle|done].
  - destruct (_ && _) eqn:Ea; [|cbn; auto]. apply andb_true_iff in Ea as [_ Ea].
    destruct (consume_ok _ _ _ Hs Hok) as (d' & E & Hd'). unfold StreamDB.on_batch. rewrite E. cbn.
    split; [done|]. by destruct (StreamDB.aborted s).
  - destruct (_ && _); cbn; split; auto. eapply settled_step_core; [apply core_rejectAll|done].
  - cbn. split; auto. eapply settled_step_core; [apply core_awaitTxId|done].
  - cbn. split; auto. eapply settled_step_core; [apply core_timeout|done].
  - cbn. split; auto. eapply settled_step_core; [apply core_rejectAll|done].
Qed.

Lemma applyBatch_app es es' data :
  MaterializedState.applyBatch (es ++ es') data = MaterializedState.applyBatch es' (MaterializedState.applyBatch es data).
Proof. apply foldl_app. Qed.

Lemma db_run_ok evs s data : settled_step (StreamDB.dispatcher s) data -> Forall event_ok evs ->
  settled_step (StreamDB.dispatcher (StreamDB.run evs s)) (MaterializedState.applyBatch (consumed evs s) data) /\
  (StreamDB.aborted (StreamDB.run evs s) = true -> StreamDB.aborted s = true \/ StreamDB.Close ∈ evs).
Proof.
  intros Hs Hok. revert s data Hs. induction Hok as [|ev evs Hev Hok IH]; intros s data Hs.
  { split; [done|by left]. }
  destruct (db_step_ok ev s data Hs Hev) as [Hs1 Ha1]. destruct (IH _ _ Hs1) as [Hs2 Ha2].
  cbn [StreamDB.run foldl consumed]. rewrite applyBatch_app. split; [exact Hs2|].
  intros Ha. specialize (Ha2 Ha). rewrite elem_of_cons. naive_solver.
Qed.
End runs.
End materializes.

(** ** The schema and the first state *)

Definition named (c : string * Schema.CollectionDefinition) : Prop := c.1 <> EmptyString.

Lemma duplicate_type_none seen cs :
  Forall named cs -> (forall t, map_get t seen <> Some EmptyString) ->
  Schema.duplicate_type seen cs = None ->
  NoDup ((fun c => Schema.cd_type c.2) <$> cs) /\
  forall c, c ∈ cs -> map_get (Schema.cd_type c.2) seen = None.
Proof.
  intros Hn. revert seen. induction Hn as [|[name c] cs Hname Hn IH]; intros seen Hseen; cbn.
  { intros _. split; [constructor|]. by intros c []%not_elem_of_nil. }
  assert (Ht : Schema.if_truthy (map_get (Schema.cd_type c) seen) = map_get (Schema.cd_type c) seen).
  { specialize (Hseen (Schema.cd_type c)). unfold Schema.if_truthy. destruct (map_get _ seen) as [e|]; [|done].
    cbn. destruct (String.eqb_spec e EmptyString) as [->|]; [congruence|done]. }
  rewrite Ht. destruct (map_get (Schema.cd_type c) seen) eqn:E; [done|]. intros [Hnd Hnew]%IH.
  2: { intros t. rewrite map_get_set. destruct (String.eqb t _); [|apply Hseen]. intros [= Hx]. by apply Hname. }
  assert (Hne : forall c', c' ∈ cs -> Schema.cd_type c'.2 <> Schema.cd_type c /\ map_get (Schema.cd_type c'.2) seen = None).
  { intros c' Hc'. specialize (Hnew c' Hc'). rewrite map_get_set in Hnew.
    destruct (String.eqb_spec (Schema.cd_type c'.2) (Schema.cd_type c)); done. }
  split.
  - apply list.NoDup_cons. split; [|done]. intros (c' & Hc & Hin)%list_elem_of_fmap. by destruct (Hne c' Hin).
  - intros c' [->|Hin]%elem_of_cons; [done|]. by apply Hne.
Qed.

(** A schema that is accepted has a collection for each event type. *)
Lemma createStateSchema_distinct cs : Forall named cs ->
  Schema.createStateSchema cs = Ok cs -> NoDup ((fun c => Schema.cd_type c.2) <$> cs).
Proof.
  intros Hn. unfold Schema.createStateSchema. destruct (list.head _) as [[]|]; [done|].
  destruct (Schema.duplicate_type [] cs) eqn:E; [done|]. intros _. by apply (duplicate_type_none []).
Qed.

Section first_state.
Context `{CollectionLaws} (createCollection : string -> string -> Collection).

(** [createCollection] of @tanstack/db makes an empty collection. *)
Definition makes_empty : Prop := forall id pk,
  rows (createCollection id pk) = ∅ /\ staged (createCollection id pk) = None /\ key_field (createCollection id pk) = pk.

Context (Hnew : makes_empty) (identity : string).

Definition new_handler (c : string * Schema.CollectionDefinition) : CollectionSyncHandler :=
  mkHandler (createCollection ("stream-db:" +:+ identity +:+ ":" +:+ c.1) (Schema.cd_primaryKey c.2))
    (Schema.cd_primaryKey c.2).

Notation add := (fun d c => registerHandler (Schema.cd_type c.2) (new_handler c) d).

Definition fresh (d : Dispatcher) : Prop :=
  pendingHandlers d = [] /\ isUpToDate d = false /\
  forall type h, map_get type (handlers d) = Some h ->
    rows (h_collection h) = ∅ /\ staged (h_collection h) = None /\ key_field (h_collection h) = h_primaryKey h /\
    h_primaryKey h <> "_seq"%string /\ map_get type (existingKeys d) = Some ∅.

Lemma add_fresh d c : Schema.cd_primaryKey c.2 <> "_seq"%string -> map_get (Schema.cd_type c.2) (handlers d) = None ->
  (forall type, map_get type (handlers d) = None -> map_get type (existingKeys d) = None) ->
  fresh d -> fresh (add d c) /\
    (forall type, map_get type (handlers (add d c)) = None -> map_get type (existingKeys (add d c)) = None) /\
    forall type, map_get type (handlers (add d c)) =
      if String.eqb type (Schema.cd_type c.2)
      then Some (new_handler c)
      else map_get type (handlers d).
Proof.
  intros Hpk Habs Hkeys (Hp & Hu & Hh). pose proof (Hkeys _ Habs) as Hk.
  unfold registerHandler. cbn. unfold map_has. rewrite Hk. cbn. split; [|split].
  - split; [done|]. split; [done|]. intros type h. cbn. rewrite !map_get_set.
    destruct (String.eqb_spec type (Schema.cd_type c.2)) as [->|]; [|apply Hh].
    intros [= <-]. destruct (Hnew ("stream-db:" +:+ identity +:+ ":" +:+ c.1) (Schema.cd_primaryKey c.2))
      as (? & ? & ?). done.
  - intros type. rewrite !map_get_set. destruct (String.eqb type _); [done|]. apply Hkeys.
  - intros type. by rewrite map_get_set.
Qed.

Lemma created_fresh (state : list (string * Schema.CollectionDefinition)) d :
  Forall (fun c => Schema.cd_primaryKey c.2 <> "_seq"%string) state ->
  NoDup ((fun c => Schema.cd_type c.2) <$> state) ->
  (forall c, c ∈ state -> map_get (Schema.cd_type c.2) (handlers d) = None) ->
  (forall type, map_get type (handlers d) = None -> map_get type (existingKeys d) = None) ->
  fresh d -> fresh (foldl add d state) /\
    (forall type h, map_get type (handlers d) = Some h -> map_get type (handlers (foldl add d state)) = Some h) /\
    (forall c, c ∈ state -> exists h, map_get (Schema.cd_type c.2) (handlers (foldl add d state)) = Some h /\
       h_primaryKey h = Schema.cd_primaryKey c.2).
Proof.
  intros Hpk. revert d. induction Hpk as [|c state Hc Hpk IH]; intros d Hnd Hno Hkeys Hd; cbn [foldl].
  { split; [done|]. split; [done|]. by intros c []%not_elem_of_nil. }
  cbn in Hnd. apply list.NoDup_cons in Hnd as [Hdup Hnd].
  destruct (add_fresh d c Hc (Hno c ltac:(left)) Hkeys Hd) as (Hd1 & Hkeys1 & Hget).
  destruct (IH (add d c)) as (Hf & Hold & Hin); [done| |done|done|].
  { intros c' Hc'. rewrite Hget. destruct (String.eqb_spec (Schema.cd_type c'.2) (Schema.cd_type c.2)) as [E|].
    - destruct Hdup. rewrite <-E. apply list_elem_of_fmap. by exists c'.
    - apply Hno. by right. }
  split; [done|]. split.
  - intros type h Eh. apply Hold. rewrite Hget. destruct (String.eqb_spec type (Schema.cd_type c.2)) as [->|]; [|done].
    rewrite Hno in Eh by left. done.
  - intros c' [->|Hc']%elem_of_cons; [|by apply Hin]. exists (new_handler c). split; [|reflexivity].
    apply Hold. rewrite Hget, String.eqb_refl. reflexivity.
Qed.
End first_state.


(** ** A collection *)

(** The smallest collection with these laws: a row is updated by assigning its
    fields, and what the library refuses is an error. *)
Module Table.

Record Table := mkTable {
  t_rows : gmap string Row;
  t_staged : option (list (WriteType * string * Row));
  t_key : string;
}.

Definition assign (old new : Row) : Row := foldr (fun kv row => obj_set kv.1 kv.2 row) old new.

Definition put (m : gmap string Row) (w : WriteType * string * Row) : gmap string Row :=
  match w with
  | (w_insert, k, row) => <[k := row]> m
  | (w_update, k, row) => <[k := assign (or_else (m !! k) []) row]> m
  | (w_delete, k, _) => delete k m
  end.

Definition current (t : Table) : gmap string Row := foldl put (t_rows t) (or_else (t_staged t) []).

Definition write (row : Row) (type : WriteType) (t : Table) : Table * option string :=
  match t_staged t, obj_get (t_key t) row with
  | Some ws, Some (JStr k) =>
      match type, current t !! k with
      | w_insert, Some _ => (t, Some ("Cannot insert document with ID " +:+ k +:+ " because it already exists in the collection"))
      | _, _ => (mkTable (t_rows t) (Some (ws ++ [(type, k, row)])) (t_key t), None)
      end
  | _, _ => (t, Some "No pending sync transaction to write to"%string)
  end.

Definition commit (t : Table) : Table * option string :=
  match t_staged t with
  | Some _ => (mkTable (current t) None (t_key t), None)
  | None => (t, Some "No pending sync transaction to commit"%string)
  end.

#[export] Instance lib : CollectionLib := {|
  Collection := Table;
  c_begin t := mkTable (t_rows t) (Some (or_else (t_staged t) [])) (t_key t);
  c_write := write;
  c_read k t := t_rows t !! k;
  c_commit := commit;
  c_markReady t := t;
  c_truncate t := (mkTable ∅ (t_staged t) (t_key t), None);
  deepEquals _ _ := false;
|}.

#[export] Instance table_view : CollectionView := {|
  rows := t_rows;
  staged := t_staged;
  key_field := t_key;
  merge := assign;
|}.

Lemma assign_law old new f x : obj_get f new = Some x -> obj_get f (assign old new) = Some x.
Proof.
  induction new as [|[k v] new IH]; cbn; [done|]. rewrite obj_get_set. destruct (String.eqb f k); auto.
Qed.

#[export] Instance table_laws : CollectionLaws.
Proof.
  split.
  - intros c Hs. cbn in *. by rewrite Hs.
  - intros c ws t k row Hs Hk Hnew. cbn in *. unfold write. rewrite Hs, Hk.
    change (current c) with (view c). destruct t; [rewrite Hnew by done|..]; by eexists.
  - intros c ws Hs. cbn in *. unfold commit. rewrite Hs. by eexists.
  - done.
  - exact assign_law.
Qed.

Definition create (id primaryKey : string) : Collection := mkTable ∅ None primaryKey.

(** *** A run *)

Definition anything : Schema.Validator := fun _ => None.

Definition two_collections : list (string * Schema.CollectionDefinition) :=
  [("users", Schema.mkDefinition anything "user" "id"); ("notes", Schema.mkDefinition anything "note" "key")]%string.

Definition user (op : Operation) (key name : string) : StateEvent :=
  Change (mkChangeEvent "user" key (Some (JObj [("name"%string, JStr name)])) None op []).

(** Two users, one of them twice in the second batch, and the other deleted. *)
Definition session : list StreamDB.DbEvent :=
  [StreamDB.Preload 0; StreamDB.Opened "0"; StreamDB.Started;
   StreamDB.Delivered (StreamDB.mkBatch [user op_insert "1" "Ann"; user op_upsert "2" "Bob"] false "1");
   StreamDB.Delivered (StreamDB.mkBatch
     [user op_insert "1" "Eve"; ControlEvent snapshot_end None;
      Change (mkChangeEvent "user" "2" None None op_delete [])] true "2")].


(** A first [preload] that fails leaves the consumer started: the next one waits
    for a session that will never be asked for. *)
Example preload_after_failure_hangs :
  let failed := StreamDB.run [StreamDB.Preload 0; StreamDB.OpenFailed "offline"; StreamDB.Preload 1]
                  (StreamDB.createStreamDB create "s" two_collections) in
  settled (StreamDB.dispatcher failed) = [(0%nat, RejectedWith "offline")] /\
  StreamDB.opening failed = None /\ StreamDB.subscribed failed = false /\
  preloadResolvers (StreamDB.dispatcher failed) = [1%nat].
Proof. vm_compute. split_and!; reflexivity. Qed.

(** The delete helper takes the key from an old value that has none. *)
Example delete_of_undefined :
  Schema.delete (Schema.mkDefinition anything "user" "id") None (Some (JObj [])) [] =
  Ok (mkChangeEvent "user" "undefined" None (Some (JObj [])) op_delete []).
Proof. vm_compute. reflexivity. Qed.
End Table.
